(* ===== verification/_CoqProject ===== *)
-Q . S2P
Prelude.v
PyText.v
Enums.v
Coroutine.v
Session.v
StatusMonitor.v
StatusMonitorCorrect.v
Selectors.v
ClientLease.v
ClientLeaseCorrect.v
Tftp.v
TftpTransfer.v
TftpCorrect.v
LeaseContext.v
ExporterState.v
Rpc.v
RpcCorrect.v
Hooks.v
HandleLease.v
ControlPlane.v
HookCorrect.v
Footprint.v
LeaseMachine.v
Simulation.v
Invariants.v
ExporterCorrect.v
Standalone.v
Auth.v
Connect.v
Supervisor.v
CliErrors.v
DriverCalls.v
DriverTree.v
DriverTreeCorrect.v
Streams.v
Telemetry.v
Oci.v
Presigned.v
MockValues.v
MockTemplate.v
MockServer.v
ClientCore.v
GrpcClient.v
PyIp.v
DutFilter.v
DutNetwork.v
DutNetworkCorrect.v
NvDemux.v
ConfigFiles.v
Tokens.v
Shell.v
Login.v
Flasher.v
FlashText.v
FlashSession.v
Storage.v
MockScenario.v
MockDriver.v
MockClient.v
McpConnections.v
McpTools.v
CliText.v
