(* ===== verification/Prelude.v ===== *)
(** * Jumpstarter: a verification development

    Jumpstarter gives clients remote access to hardware. An exporter runs next to the
    device, registers with a controller and serves one lease at a time; a client asks
    the controller for a lease, connects to the exporter and calls its drivers. This
    library models the Python code of both sides (paths below are relative to
    [src/python/packages/jumpstarter/jumpstarter/] unless they name a package) and
    proves what makes it correct.

    ** The parts and the files that model them

    Foundations.
    - [Prelude]: notations, tactics, hints, counting, Python dictionaries, record
      update. [PyText]: what the code uses of [str] and [bytes] (UTF-8 with its round
      trip, [strip], [split]).
    - [Coroutine]: asynchronous Python. A coroutine is a tree of atomic changes, spawns,
      waits and external calls; [sys_step] interleaves live tasks. [guar] bounds what a
      task changes, [wp] proves invariants with ghost tokens, [completes] follows one
      coroutine among others, [solo] runs one alone.

    The exporter.
    - [Enums] ([common/enums.py]), [Session] ([exporter/session.py],
      [exporter/logging.py]), [LeaseContext] ([exporter/lease_context.py] and the hook
      part of [config/exporter.py]): the data a lease consists of.
    - [ExporterState] ([exporter/exporter.py]): the [Exporter] object, the store of lease
      contexts (shared objects, referred to by index), the external requests, the monad.
    - [Rpc]: [_retry_rpc], status reports, the release of a lease, [_retry_stream].
    - [Hooks] ([exporter/hooks.py]): output, environment, command, failure policy and
      the orchestration of the beforeLease and afterLease hooks.
    - [HandleLease]: [handle_lease] with its task group, EndSession, the cleanup.
    - [ControlPlane]: [serve], the loop that owns the lease slot, all task bodies.
    - [Standalone]: registration, the telemetry channel, the runtime sidecar, and
      [serve_standalone_tcp] as the two tasks it consists of.

    The client.
    - [StatusMonitor] ([client/status_monitor.py]): the polling task and its waiters.
    - [ClientLease] ([client/lease.py]): acquisition, release, dialling, monitoring.
    - [Selectors] ([client/selectors.py], [common/condition.py]).
    - [Connect] ([client/client.py], [utils/env.py], [common/utils.py]): how a process finds
      its exporter, and the environment of a shell.
    - [ClientCore] ([client/core.py]): the polling waits, EndSession, the log stream.
    - [Oci] ([common/oci.py]): registry credentials.
    - [GrpcClient] ([client/grpc.py], [config/client.py], the commands on leases of package
      [jumpstarter-cli]): the client of the controller's service, its records and tables.
    - [ConfigFiles] ([config/client.py], [config/user.py], [config/exporter.py]): the
      configuration files and their aliases, on a file system whose calls may fail.
    - [Flasher] ([client/flasher.py], [common/fls.py]): images on their way to a device, and
      the download of the flashing tool.

    Between client and exporter.
    - [Auth] ([exporter/auth.py]): the passphrase of a standalone exporter.
    - [DriverCalls] ([driver/decorators.py], [driver/base.py], [exporter/session.py],
      [client/core.py]): a call of a driver's method, from the client's arguments to the
      exception or value it gets.
    - [DriverTree] ([driver/base.py], [client/client.py], [common/importlib.py]): the report
      of the drivers and the tree of clients made from it.
    - [Streams] ([streams/encoding.py], [streams/router.py]): compression, detection of
      formats, router frames. [Presigned] ([driver/base.py]): resource handles, presigned
      requests and their redirects.
    - [Telemetry] ([exporter/telemetry.py]): log records on their way to the service.

    The command line.
    - [Supervisor] (package [jumpstarter-cli], [run.py]): options, signals, the child, its
      parent, the restart loop.
    - [CliErrors] (package [jumpstarter-cli-common], [exceptions.py]): errors as messages, and
      authentication that is repeated once.
    - [Shell] ([shell.py], [client/lease.py]): a session over a lease, the retries with new
      leases, the choice of a lease. [Tokens] ([oidc.py], [shell.py]): the monitor that
      refreshes a token, and the device login. [Login] ([login.py], [auth.py], [config.py] of
      [jumpstarter-cli-common]): logging in and the token commands.
    - [CliText] ([opt.py] of [jumpstarter-cli-common], [common.py], [describe.py]): the log of a
      command, options that are lists, labels or durations, and the texts of [jmp describe].
    - [McpConnections], [McpTools] (package [jumpstarter-mcp]): the server that gives a language
      model access to devices. The connection manager is a machine of tasks and callers whose actions
      are what happens between two awaits; the tools run commands, list drivers and leases and refresh the token.

    Drivers.
    - [Tftp], [TftpTransfer] (package [jumpstarter-driver-tftp], [server.py]): requests
      and option negotiation; transfers with retries.
    - [MockValues], [MockTemplate], [MockServer] (package [jumpstarter-driver-mitmproxy],
      [bundled_addon.py]): patches of JSON values; templates; the endpoints, sequences and
      hooks of the mock proxy.
    - [PyIp], [DutFilter], [DutNetwork] (package [jumpstarter-driver-dut-network]): what the
      code uses of [ipaddress]; filters as nftables rule sets; the driver with its files,
      processes and commands.
    - [NvDemux] (package [jumpstarter-driver-pyserial], [nvdemux/manager.py]): the process
      shared by the drivers of one serial port, with the steps of its monitor threads and of the
      clean-ups that run beside them.
    - [FlashText], [FlashSession] (package [jumpstarter-driver-flashers], [client.py],
      [bundle.py]): the command lines a storage flasher types into the device's shell, with
      headers, credentials and redaction, read back by a model of the shell's lexer; then the
      session itself, a monad over the console, with targets, downloads, both monitors, the
      upload and the retries.
    - [Storage] (package [jumpstarter-driver-opendal]): paths of a storage, the resources a driver
      creates and their clean-up, contents on their way in and out, flashing through a storage
      multiplexer.
    - [MockScenario], [MockDriver], [MockClient] (package [jumpstarter-driver-mitmproxy],
      [driver.py], [client.py]): scenarios and what is exported from captured traffic; the driver
      with its process, endpoints, state, capture server and files, as a state and error monad;
      the client, its context managers, uploads and downloads.

    ** The theorems

    - [RpcCorrect]: retries against any sequence of answers; a report is visible
      everywhere at once; releasing a lease always ends it locally, and
      falls back to the old request exactly when the controller offers no other.
    - [HookCorrect]: the lines of a hook are those of the bytes taken from its terminal
      however they are cut; what the drain takes is stated by its limits; the environment; every outcome under every policy.
    - [Footprint], [LeaseMachine], [Simulation]: the abstract lease machine (idle,
      serving, ending, one stashed reassignment) and the proof that every interleaving
      of the exporter's tasks refines it. [Invariants], [ExporterCorrect]: a finished
      message is about the current lease, the afterLease hook runs at most once, all
      events are set when a lease is finished, every exit path of [handle_lease] hands
      the slot back; and a schedule that ends serving a lease the controller withdrew.
      [Standalone]: a standalone exporter never calls the controller; what is registered and
      how telemetry is secured.
    - [StatusMonitorCorrect]: results are sound and waiters counted under every
      interleaving; missed transitions are exact end to end with [Session]; which
      failures lose the connection; three behaviours that differ from the comments.
    - [ClientLeaseCorrect]: acquisition ends within its deadline and only with a ready
      lease; foreign leases are refused; which requests a release makes; dialling and
      monitoring end.
    - [Selectors]: containment is sound, the server-side filter round-trips.
    - [TftpCorrect]: a stop-and-wait contract over the packets of a file, implemented
      whatever the network does, and completed with a client that answers when its options can be
      read back; requests
      cannot leave the storage root; two leaks.
    - [Auth], [Connect]: which calls pass the passphrase interceptor, and that a rejection
      keeps the kind of the call; what a client attaches is what the server checks; a shell's
      metadata round-trips through its environment; the calls of a hook are rejected.
    - [DriverCalls]: what a method returns or raises is what the client gets, for both kinds
      of calls; only exported methods run; the status check of a session refuses nothing.
      [DriverTreeCorrect]: the tree of clients mirrors the tree of drivers, by a proof of the
      topological order; a client class is imported only when the allow list admits it.
    - [ClientCore]: the waits end within their timeout at the first answer that decides; a
      record of the exporter reaches the logger of its source; reconnecting gives up after
      ten fruitless attempts.
    - [Streams]: detecting the format of a download does not depend on how it is cut into
      chunks, as long as nothing follows the compressed stream; a compressed stream over router frames round-trips. [Presigned]: redirects keep
      sensitive headers at their origin; a client stream is used once.
    - [Telemetry]: the limits of the service, the bounded queue, closing delivers all.
    - [Supervisor]: a listener is secured, the parent sees the child's own exit under every
      interleaving of signals and deaths, when the restart loop ends. [CliErrors]: errors
      surface as messages from any nesting; a command runs at most twice.
    - [Oci]: credentials are complete or absent; the precedence of the sources; credentials of
      a file are used for their registry only.
    - [MockValues]: merging a patch acts key by key and is idempotent. [MockTemplate]: a
      template sees only the allowed environment variables, counters only go up.
      [MockServer]: the endpoint found is the best that fits; counted and timed sequences play
      their steps; patched responses; files stay in their directory.
    - [GrpcClient]: a listing shows exactly the leases asked for over any pages; names parse
      exactly when they have their form; exporters are joined with their lease; the mask of an
      update. [ConfigFiles]: a save is atomic whichever call fails; what is saved is loaded;
      which file an alias means; the driver tree of a configuration.
    - [Shell]: when a session is ended and with which exit code; one lease at a time; retries
      end; errors surface by name; only own leases are chosen and released. [Tokens]: channel
      and configuration carry the same token; notices are given once; refreshed tokens are
      saved; the device login is exact. [Login]: parts of the target, HTTPS, which file is
      written. [Flasher]: images arrive whole and in order; a download is whole or absent.
    - [DutFilter]: the rule sets that [nft] accepts decide packets as the configuration
      says, addresses mapped one to one apart. [DutNetworkCorrect]:
      entries stay unique, files and aliases mirror them, leases are read back, a clean-up
      undoes the set-up; and the failures that break this. [NvDemux]: the invariant of the
      shared process under every interleaving of registrations, monitor threads and clean-ups.
    - [FlashText]: the shell reads the lines as exactly the words meant, credentials arrive on
      the device as they are, redacted text has no secret, which headers and tokens are
      accepted. [FlashSession]: the search of an exception is complete, attempts are exact,
      success means that a marker was shown, the monitor ends, services are stopped, an upload
      that ends well leaves the image; and a failed upload that is flashed anyway.
    - [Storage]: closing a driver that is told to removes exactly what its calls created inside a
      root other than [/]; contents
      round-trip; the multiplexer is switched back. [MockScenario]: the files of an exported
      scenario have plain names. [MockDriver]: an exported scenario loads again and covers the
      captured requests with simple paths; in mock mode the addon has the endpoints of the driver
      after any calls; starting and stopping are exact; captured
      requests are the lines that were sent; files arrive in messages below the limit.
      [MockClient]: what a client sets is what the driver stores or refuses; a temporary endpoint is scoped;
      a saved scenario refers to the files that exist. Each has theorems on what goes wrong, too.
    - [McpConnections]: every listed connection is served by a live task, every task can be ended,
      and none leaves anything behind, as long as ids are distinct; a command reaches its connection. [McpTools]: exploring a
      path shows the subtree; listing and inspecting drivers agree; when the server ends quietly.
      [CliText]: the log stays out of the result of a command; fields are aligned; lists,
      durations and labels are read exactly.

    ** Bounds and fuel

    Loops with a bound in the code keep it: 21 attempts of an RPC, 300 rounds of the wait
    for a session, 256 KiB of drained output, the retries of a TFTP packet. The endless
    loops of the exporter and of the status monitor are tasks that spawn their next round,
    so no fuel is involved. The other loops take fuel and a theorem says how much is
    enough: a block of a TFTP file needs as many reads as its size, a transfer one round
    per block of the file ([transfer_refines]); polling a lease one round per second of
    the acquisition timeout ([acquire_terminates]), dialling one per 300 ms of the dial
    timeout ([dial_ends]), the monitor one per millisecond to the end of the lease
    ([monitor_ends]); polling the status one round per half second of the timeout
    ([hook_status_wait], [lease_ready_wait]); closing the telemetry handler one push per 50 entries
    ([close_async_drains]), iterating over a download three rounds more than it has chunks
    ([auto_decompress_chunks]), sorting the drivers one round more than there are drivers
    ([static_order_correct]), reaping one round more than there are dead children
    ([reap_zombie_processes], which fixes that fuel), listing leases one round more than there
    are pages left ([get_leases_exact]), waiting for a serial path one poll per 100 ms
    ([connect_ends]), a device login one poll per unit of time until it expires
    ([device_grant_exact]), retried leases one round per unit of time of the retry timeout
    ([retries_end]), cutting a file into chunks its length ([image_sent_whole]). Monitoring a
    flash takes one round per read of the console; once the process is gone seven are enough
    ([dd_monitor_ends]).

    ** Parameters and what is not modelled

    The controller, gRPC, subprocesses, sockets, OpenDAL, [tenacity], the HTTP client, the URL
    parser of [yarl], the codecs, pydantic's conversions and the proxy behind the mock addon
    are parameters or requests with arbitrary answers, as are YAML, the well-known types of
    protobuf, JWT and the identity provider, and the commands [nft], [ip] and [dnsmasq]; the hypotheses on them are stated
    where they are used. Files are what reading them gives: JSON and TOML are parsed data. The
    text of log messages, metrics and most of the display of the CLI are left out. In [MockDriver]
    the answers of the world (whether a file can be written, a process started, a port is in use)
    are a record given with every call; in [McpConnections] an exception may come at any await. In
    [NvDemux] the body of a lock block is one step. A cancellation inside a round of the token
    monitor ([Tokens]) is not modelled.
    Not modelled: the NTP server of the device network, the display and web interface of the mock
    proxy, the listings of OpenDAL, the drivers of single devices (QEMU, RideSX, relays and the
    like, each a wrapper of one tool), and the configuration page of the controller's image. The
    controller is written in Go; its answers are inputs. *)

From stdpp Require Import base list strings sets.
From Stdlib Require Import ZArith Lia.

(** ** Scopes *)

Declare Scope jmp_scope.
Delimit Scope jmp_scope with jmp.

(** ** Automation

    [inv_subst H] inverts and substitutes; [split_ifs] performs the case analysis of
    every [if] and [match] in the goal, keeping the equations; [crush] closes
    the goals that only need the equations of the context. *)

Ltac inv_subst H := inversion H; subst; clear H.

Ltac split_ifs :=
  repeat match goal with
  | |- context [if ?b then _ else _] => destruct b eqn:?
  | |- context [match ?x with _ => _ end] => destruct x eqn:?
  end.

Ltac split_ifs_in H :=
  repeat match type of H with
  | context [if ?b then _ else _] => destruct b eqn:?
  | context [match ?x with _ => _ end] => destruct x eqn:?
  end.

Ltac crush := simpl in *; subst; try congruence; try lia; auto.

(** Lemmas every component may use for its routine goals. *)

Create HintDb jmp.
Create Rewrite HintDb jmp.

(** ** Options and booleans *)

Definition is_some {A} (o : option A) : bool :=
  match o with Some _ => true | None => false end.

Lemma is_some_true {A} (o : option A) : is_some o = true <-> exists x, o = Some x.
Proof. destruct o; simpl; split; [eauto | done | done |]. by intros [x ?]. Qed.

Lemma is_some_default {A} (d : A) (o : option A) : is_some o = true -> o = Some (default d o).
Proof. by destruct o. Qed.

(** Python's truth value of a string: the empty string is false. *)
Definition truthy (s : string) : bool :=
  match s with EmptyString => false | _ => true end.

Lemma truthy_false s : truthy s = false <-> s = EmptyString.
Proof. destruct s; simpl; split; done. Qed.

#[export] Hint Resolve is_some_true truthy_false : jmp.

(** ** Counting in lists *)

Fixpoint countb {A} (f : A -> bool) (l : list A) : nat :=
  match l with
  | [] => 0
  | x :: l' => (if f x then 1 else 0) + countb f l'
  end.

Lemma countb_app {A} (f : A -> bool) l1 l2 :
  countb f (l1 ++ l2) = countb f l1 + countb f l2.
Proof. induction l1 as [|x l1 IH]; simpl; [done |]. rewrite IH. lia. Qed.

Lemma countb_length {A} (f : A -> bool) l : countb f l <= length l.
Proof. induction l as [|x l IH]; simpl; [done |]. destruct (f x); lia. Qed.

Lemma countb_zero {A} (f : A -> bool) l :
  (forall x, In x l -> f x = false) -> countb f l = 0.
Proof.
  induction l as [|x l IH]; simpl; intros H; [done |].
  rewrite (H x) by auto. apply IH. auto.
Qed.

Lemma countb_pos {A} (f : A -> bool) l x :
  In x l -> f x = true -> 1 <= countb f l.
Proof.
  induction l as [|y l IH]; simpl; [done |].
  intros [-> | Hin] Hf; [rewrite Hf; lia |]. specialize (IH Hin Hf). lia.
Qed.

#[export] Hint Rewrite @countb_app : jmp.

Lemma sum_list_map {A} (f : A -> nat) (l : list A) :
  sum_list (map f l) = sum_list_with f l.
Proof. induction l; simpl; auto. Qed.

(** ** Python dictionaries with string keys

    Insertion-ordered association lists: assigning an existing key keeps its
    position, a new key goes to the end. *)

Section Dict.

Context {A : Type}.

Fixpoint dict_get (k : string) (d : list (string * A)) : option A :=
  match d with
  | [] => None
  | (k', v) :: d' => if String.eqb k k' then Some v else dict_get k d'
  end.

Fixpoint dict_set (k : string) (v : A) (d : list (string * A)) : list (string * A) :=
  match d with
  | [] => [(k, v)]
  | (k', v') :: d' =>
      if String.eqb k k' then (k', v) :: d' else (k', v') :: dict_set k v d'
  end.

Fixpoint dict_pop (k : string) (d : list (string * A)) : list (string * A) :=
  match d with
  | [] => []
  | (k', v') :: d' => if String.eqb k k' then d' else (k', v') :: dict_pop k d'
  end.

Definition dict_update (d d' : list (string * A)) : list (string * A) :=
  fold_left (fun acc kv => dict_set kv.1 kv.2 acc) d' d.

Definition dict_wf (d : list (string * A)) : Prop := NoDup d.*1.

Lemma dict_get_set_same k v d : dict_get k (dict_set k v d) = Some v.
Proof.
  induction d as [|[k' v'] d IH]; simpl.
  - by rewrite String.eqb_refl.
  - destruct (String.eqb_spec k k') as [->|Hne]; simpl.
    + by rewrite String.eqb_refl.
    + by destruct (String.eqb_spec k k').
Qed.

Lemma dict_get_set_other k k' v d : k <> k' -> dict_get k' (dict_set k v d) = dict_get k' d.
Proof.
  intros Hne. induction d as [|[k2 v2] d IH]; simpl.
  - by destruct (String.eqb_spec k' k).
  - destruct (String.eqb_spec k k2) as [->|]; simpl; [by destruct (String.eqb_spec k' k2) |].
    by rewrite IH.
Qed.

Lemma dict_set_set k (v v' : A) d : dict_set k v (dict_set k v' d) = dict_set k v d.
Proof.
  induction d as [|[k2 v2] d IH]; cbn.
  - by rewrite String.eqb_refl.
  - destruct (String.eqb k k2) eqn:E; cbn; rewrite ?E, ?String.eqb_refl; [done | by rewrite IH].
Qed.

Lemma dict_get_pop_other k k' d : k <> k' -> dict_get k' (dict_pop k d) = dict_get k' d.
Proof.
  intros Hne. induction d as [|[k2 v2] d IH]; simpl; [done |].
  destruct (String.eqb_spec k k2) as [->|]; simpl; [by destruct (String.eqb_spec k' k2) |].
  by rewrite IH.
Qed.

Lemma dict_pop_absent k d : dict_get k d = None -> dict_pop k d = d.
Proof.
  induction d as [|[k' v'] d IH]; [done |]. cbn. destruct (String.eqb k k'); [done |]. intros H. by rewrite IH.
Qed.

Lemma dict_set_keys k v d :
  (dict_set k v d).*1 = if is_some (dict_get k d) then d.*1 else d.*1 ++ [k].
Proof.
  induction d as [|[k2 v2] d IH]; simpl; [done |].
  destruct (String.eqb_spec k k2) as [->|]; simpl; [done |].
  change (k2 :: (dict_set k v d).*1 = if is_some (dict_get k d) then k2 :: d.*1 else k2 :: (d.*1 ++ [k])).
  rewrite IH. by destruct (is_some (dict_get k d)).
Qed.

Lemma dict_get_None k d : dict_get k d = None <-> k ∉ d.*1.
Proof.
  induction d as [|[k2 v2] d IH]; simpl; [set_solver |].
  destruct (String.eqb_spec k k2) as [->|]; [set_solver |]. rewrite IH. set_solver.
Qed.

(** Keeping the entries whose key satisfies [f]. *)
Lemma dict_get_filter (f : string -> bool) k d :
  dict_get k (List.filter (fun kv => f kv.1) d) = if f k then dict_get k d else None.
Proof.
  induction d as [|[k2 v2] d IH]; simpl; [by destruct (f k) |].
  destruct (f k2) eqn:E; simpl; rewrite IH; destruct (String.eqb_spec k k2) as [->|]; by rewrite ?E.
Qed.

Lemma dict_set_wf k v d : dict_wf d -> dict_wf (dict_set k v d).
Proof.
  unfold dict_wf. intros Hd. rewrite dict_set_keys.
  destruct (dict_get k d) eqn:E; simpl; [done |].
  apply dict_get_None in E. apply NoDup_app. split_and!; [done | set_solver |].
  apply NoDup_singleton.
Qed.

Lemma dict_pop_wf k d : dict_wf d -> dict_wf (dict_pop k d).
Proof.
  unfold dict_wf. induction d as [|[k2 v2] d IH]; simpl; [done |].
  intros [Hn Hd]%NoDup_cons. destruct (String.eqb_spec k k2) as [->|]; [done |].
  simpl. apply NoDup_cons. split; [| by apply IH].
  intros Hin. apply Hn. clear -Hin. induction d as [|[k3 v3] d IH]; simpl in *; [done |].
  destruct (String.eqb k k3); set_solver.
Qed.

Lemma dict_get_pop_same k d : dict_wf d -> dict_get k (dict_pop k d) = None.
Proof.
  unfold dict_wf. induction d as [|[k2 v2] d IH]; simpl; [done |].
  intros [Hn Hd]%NoDup_cons. destruct (String.eqb_spec k k2) as [->|Hne]; simpl.
  - by apply dict_get_None.
  - destruct (String.eqb_spec k k2); [done | auto].
Qed.

Lemma dict_update_wf d d' : dict_wf d -> dict_wf (dict_update d d').
Proof.
  unfold dict_update. revert d. induction d' as [|[k v] d' IH]; intros d Hd; simpl; [done |].
  by apply IH, dict_set_wf.
Qed.

Lemma dict_get_update k d d' :
  dict_wf d' ->
  dict_get k (dict_update d d') =
  match dict_get k d' with Some v => Some v | None => dict_get k d end.
Proof.
  unfold dict_update, dict_wf. revert d.
  induction d' as [|[k2 v2] d' IH]; intros d; simpl; [done |].
  intros [Hn Hd]%NoDup_cons. rewrite IH by done.
  destruct (String.eqb_spec k k2) as [->|Hne].
  - apply dict_get_None in Hn. by rewrite Hn, dict_get_set_same.
  - by rewrite dict_get_set_other.
Qed.

End Dict.

#[export] Hint Resolve dict_set_wf dict_pop_wf : jmp.

(** ** Record update

    [r <| proj := v |>] replaces a field; each record declares one [Setter]
    instance per field. *)

Class Setter {R E : Type} (proj : R -> E) := set_field : (E -> E) -> R -> R.
Arguments set_field {R E} proj {_} _ _ /.

Notation "r <| proj := v |>" := (set_field proj (fun _ => v) r)
  (at level 12, left associativity, format "r <| proj := v |>").
Notation "r <| proj ::= f |>" := (set_field proj f r)
  (at level 12, left associativity, format "r <| proj ::= f |>").
