(* ===== verification/PyText.v ===== *)
(** * Python text

    What the modelled code uses of Python's [str] and [bytes].

    - Module [Str]: operations on ASCII strings ([string]).
    - Module [Utf8]: [bytes] as lists of [Z] in [0, 256), [str] as lists of code
      points, [bytes.decode] (strict and with [errors="replace"]) and
      [str.encode]. *)

From stdpp Require Import base list strings.
From Stdlib Require Import ZArith Lia Ascii.
From S2P Require Import Prelude.

(** ** ASCII strings *)

Module Str.

(** [str.isspace] on an ASCII character: tab to carriage return, the four
    separators 0x1c to 0x1f, and space. *)
Definition is_space (a : ascii) : bool :=
  let n := nat_of_ascii a in
  ((9 <=? n) && (n <=? 13)) || ((28 <=? n) && (n <=? 32)).

Fixpoint lstrip (s : string) : string :=
  match s with
  | EmptyString => EmptyString
  | String a s' => if is_space a then lstrip s' else s
  end.

(** The reversal of a string. *)
Fixpoint rev_onto (s acc : string) : string :=
  match s with
  | EmptyString => acc
  | String a s' => rev_onto s' (String a acc)
  end.

Definition srev (s : string) : string := rev_onto s EmptyString.

Definition rstrip (s : string) : string := srev (lstrip (srev s)).

Definition strip (s : string) : string := rstrip (lstrip s).

Fixpoint has_char (c : ascii) (s : string) : bool :=
  match s with
  | EmptyString => false
  | String a s' => Ascii.eqb a c || has_char c s'
  end.

(** [s.split(c)] for a one-character separator. *)
Fixpoint split_char (c : ascii) (s : string) : list string :=
  match s with
  | EmptyString => [EmptyString]
  | String a s' =>
      if Ascii.eqb a c then EmptyString :: split_char c s'
      else match split_char c s' with
           | [] => [String a EmptyString]
           | p :: ps => String a p :: ps
           end
  end.

(** [sep.join(parts)]. *)
Fixpoint join (sep : string) (parts : list string) : string :=
  match parts with
  | [] => EmptyString
  | [p] => p
  | p :: ps => (p ++ sep ++ join sep ps)%string
  end.

Definition lower_char (a : ascii) : ascii :=
  let n := nat_of_ascii a in
  if (65 <=? n) && (n <=? 90) then ascii_of_nat (n + 32) else a.

Fixpoint lower (s : string) : string :=
  match s with
  | EmptyString => EmptyString
  | String a s' => String (lower_char a) (lower s')
  end.

(** [needle in haystack] for strings. *)
Fixpoint str_contains (needle haystack : string) : bool :=
  String.prefix needle haystack ||
  match haystack with
  | EmptyString => false
  | String _ rest => str_contains needle rest
  end.

Definition newline : ascii := ascii_of_nat 10.

Fixpoint all_chars (p : ascii -> bool) (s : string) : bool :=
  match s with
  | EmptyString => true
  | String a s' => p a && all_chars p s'
  end.

Lemma sapp_cons a (s t : string) : (String a s ++ t)%string = String a (s ++ t)%string.
Proof. done. Qed.

Lemma all_chars_app p s t : all_chars p (s ++ t)%string = all_chars p s && all_chars p t.
Proof.
  induction s; [done |]. rewrite sapp_cons. simpl. by rewrite IHs, andb_assoc.
Qed.

Lemma sapp_assoc (s t u : string) : ((s ++ t) ++ u = s ++ (t ++ u))%string.
Proof. induction s; [done |]. rewrite !sapp_cons. congruence. Qed.

Lemma sapp_nil (s : string) : (s ++ EmptyString)%string = s.
Proof. induction s; [done |]. rewrite sapp_cons. congruence. Qed.

Lemma rev_onto_app s acc : rev_onto s acc = (srev s ++ acc)%string.
Proof.
  revert acc. induction s as [|a s IH]; intros acc; simpl; [done |].
  unfold srev. simpl. rewrite !IH.
  by rewrite sapp_assoc.
Qed.

Lemma srev_cons a s : srev (String a s) = (srev s ++ String a EmptyString)%string.
Proof. unfold srev at 1. simpl. apply rev_onto_app. Qed.

Lemma srev_app s t : srev (s ++ t) = (srev t ++ srev s)%string.
Proof.
  induction s as [|a s IH].
  - by rewrite sapp_nil.
  - rewrite sapp_cons, !srev_cons, IH. by rewrite sapp_assoc.
Qed.

Lemma srev_involutive s : srev (srev s) = s.
Proof. induction s; [done |]. rewrite srev_cons, srev_app, IHs. done. Qed.

Lemma all_chars_srev p s : all_chars p (srev s) = all_chars p s.
Proof.
  induction s; [done |]. rewrite srev_cons, all_chars_app. simpl. rewrite IHs.
  destruct (p a), (all_chars p s); done.
Qed.

Lemma join_split c s : join (String c EmptyString) (split_char c s) = s.
Proof.
  induction s as [|a s IH]; simpl; [done |].
  destruct (split_char c s) as [|q qs] eqn:E; [by destruct s; simpl in E; case_match |].
  destruct (Ascii.eqb_spec a c) as [->|Hne].
  - change (String c (join (String c EmptyString) (q :: qs)) = String c s). by rewrite IH.
  - destruct qs; simpl in *; [by rewrite IH |]. rewrite sapp_cons. by rewrite IH.
Qed.

Lemma split_char_no_sep c s p : In p (split_char c s) -> has_char c p = false.
Proof.
  revert p. induction s as [|a s IH]; intros p; simpl.
  - by intros [<- | []].
  - destruct (Ascii.eqb_spec a c) as [->|Hne]; simpl.
    + intros [<- | Hin]; [done | auto].
    + destruct (split_char c s) as [|q qs]; simpl.
      * intros [<- | []]. simpl. destruct (Ascii.eqb_spec a c); done.
      * intros [<- | Hin]; [| auto with datatypes]. simpl.
        destruct (Ascii.eqb_spec a c); [done |]. rewrite IH by auto with datatypes. done.
Qed.

Fixpoint startswith (p s : string) : bool :=
  match p, s with
  | EmptyString, _ => true
  | String a p', String b s' => Ascii.eqb a b && startswith p' s'
  | String _ _, EmptyString => false
  end.

Lemma startswith_app p t : startswith p (p ++ t) = true.
Proof. induction p as [|a p IH]; [done |]. rewrite sapp_cons. cbn [startswith]. by rewrite Ascii.eqb_refl. Qed.

Lemma startswith_split p s : startswith p s = true -> exists t, s = (p ++ t)%string.
Proof.
  revert s. induction p as [|a p IH]; intros s; cbn; [by exists s |]. destruct s as [|b s]; [done |].
  intros [->%Ascii.eqb_eq H]%andb_true_iff. apply IH in H as [t ->]. by exists t.
Qed.

Lemma startswith_trans p q s : startswith p q = true -> startswith q s = true -> startswith p s = true.
Proof.
  intros [t ->]%startswith_split [u ->]%startswith_split. rewrite sapp_assoc. apply startswith_app.
Qed.

(** [s.rsplit(c, 1)] when [c] occurs in [s]: the parts around its last occurrence. *)
Fixpoint rsplit1 (c : ascii) (s : string) : option (string * string) :=
  match s with
  | EmptyString => None
  | String a s' =>
      match rsplit1 c s' with
      | Some (h, t) => Some (String a h, t)
      | None => if Ascii.eqb a c then Some (EmptyString, s') else None
      end
  end.

(** [s.split(c, 1)] when [c] occurs in [s]: the parts around its first occurrence. *)
Fixpoint split1 (c : ascii) (s : string) : option (string * string) :=
  match s with
  | EmptyString => None
  | String a s' =>
      if Ascii.eqb a c then Some (EmptyString, s')
      else match split1 c s' with
           | Some (h, t) => Some (String a h, t)
           | None => None
           end
  end.

(** [str.isascii]. *)
Definition isascii : string -> bool := all_chars (fun a => nat_of_ascii a <? 128).

(** [int(s, 10)]: surrounding whitespace, an optional sign, digits with single
    underscores between them; [ValueError] otherwise, and beyond 4300 digits. *)
Definition digit (a : ascii) : option Z :=
  let n := Z.of_nat (nat_of_ascii a) in
  if (48 <=? n)%Z && (n <=? 57)%Z then Some (n - 48)%Z else None.

Fixpoint int_tail (s : string) (acc : Z) (digits : nat) : option (Z * nat) :=
  match s with
  | EmptyString => Some (acc, digits)
  | String a s' =>
      match digit a with
      | Some d => int_tail s' (acc * 10 + d)%Z (S digits)
      | None =>
          if Ascii.eqb a "_"%char then
            match s' with
            | String b s'' =>
                match digit b with
                | Some d => int_tail s'' (acc * 10 + d)%Z (S digits)
                | None => None
                end
            | EmptyString => None
            end
          else None
      end
  end.

Definition int_digits (s : string) : option Z :=
  match s with
  | String a s' =>
      match digit a with
      | Some d =>
          match int_tail s' d 1 with
          | Some (v, n) => if n <=? 4300 then Some v else None
          | None => None
          end
      | None => None
      end
  | EmptyString => None
  end.

Definition py_int (s : string) : option Z :=
  match strip s with
  | String "-"%char s' => option_map Z.opp (int_digits s')
  | String "+"%char s' => int_digits s'
  | s' => int_digits s'
  end.

Lemma rsplit1_app c h t : has_char c t = false ->
  rsplit1 c (h ++ String c t)%string = Some (h, t).
Proof.
  intros Ht. assert (rsplit1 c t = None) as Hn.
  { clear h. induction t as [|a t IH]; simpl in *; [done |].
    apply orb_false_iff in Ht as [Ha Ht]. by rewrite IH, Ha. }
  induction h as [|a h IH]; simpl; [| by rewrite IH].
  by rewrite Hn, Ascii.eqb_refl.
Qed.

Lemma rsplit1_some c s h t : rsplit1 c s = Some (h, t) ->
  s = (h ++ String c t)%string /\ has_char c t = false.
Proof.
  revert h. induction s as [|a s IH]; intros h; simpl; [done |].
  destruct (rsplit1 c s) as [[h' t']|] eqn:E.
  - intros [= <- <-]. destruct (IH h' eq_refl) as [-> ?]. done.
  - destruct (Ascii.eqb_spec a c) as [->|]; [| done]. intros [= <- <-]. split; [done |].
    clear IH. induction s as [|b s IH]; simpl in *; [done |].
    destruct (rsplit1 c s) as [[? ?]|]; [done |].
    destruct (Ascii.eqb b c); [done | by apply IH].
Qed.

Lemma split1_app c h t : has_char c h = false ->
  split1 c (h ++ String c t)%string = Some (h, t).
Proof.
  induction h as [|a h IH]; simpl; [by rewrite Ascii.eqb_refl |].
  intros [Ha Hh]%orb_false_iff. by rewrite Ha, IH.
Qed.

Lemma split1_none c s : split1 c s = None <-> has_char c s = false.
Proof.
  induction s as [|a s IH]; simpl; [done |].
  destruct (Ascii.eqb a c); simpl; [done |]. rewrite <- IH.
  by destruct (split1 c s) as [[? ?]|].
Qed.

Lemma split1_some c s h t : split1 c s = Some (h, t) -> s = (h ++ String c t)%string /\ has_char c h = false.
Proof.
  revert h. induction s as [|a s IH]; intros h; cbn [split1]; [done |].
  destruct (Ascii.eqb_spec a c) as [->|Ha]; [by intros [= <- <-] |].
  destruct (split1 c s) as [[h' t']|]; [| done]. intros [= <- <-].
  destruct (IH h' eq_refl) as [-> H]. split; [done |]. cbn. rewrite H.
  by rewrite (proj2 (Ascii.eqb_neq a c) Ha).
Qed.

Lemma sapp_length a b : String.length (a ++ b)%string = (String.length a + String.length b)%nat.
Proof. induction a as [|c a IH]; [done |]. rewrite sapp_cons. cbn. by rewrite IH. Qed.

Lemma has_char_app c s t : has_char c (s ++ t)%string = has_char c s || has_char c t.
Proof. induction s as [|a s IH]; simpl; [done |]. by rewrite IH, orb_assoc. Qed.

Lemma split_char_app c h t : has_char c h = false ->
  split_char c (h ++ String c t)%string = h :: split_char c t.
Proof.
  induction h as [|a h IH]; simpl; [by rewrite Ascii.eqb_refl |].
  intros [Ha Hh]%orb_false_iff. by rewrite Ha, IH.
Qed.

Lemma split_char_none c s : has_char c s = false -> split_char c s = [s].
Proof.
  induction s as [|a s IH]; simpl; [done |].
  intros [Ha Hs]%orb_false_iff. by rewrite Ha, IH.
Qed.

(** Joining parts without the separator and splitting gives them back. *)
Lemma split_char_join c ps : ps <> [] -> Forall (fun p => has_char c p = false) ps ->
  split_char c (join (String c EmptyString) ps) = ps.
Proof.
  intros Hne H. induction H as [|p ps Hp Hps IH]; [done |].
  destruct ps as [|q ps]; [by apply split_char_none |].
  change (join (String c EmptyString) (p :: q :: ps))
    with (p ++ String c (join (String c EmptyString) (q :: ps)))%string.
  rewrite split_char_app by done. by rewrite IH.
Qed.

(** [s.split()]: the maximal runs of characters that are no white space. *)
Fixpoint words (s : string) : list string :=
  match s with
  | EmptyString => []
  | String a s' =>
      if is_space a then words s'
      else match s' with
           | EmptyString => [String a EmptyString]
           | String b _ =>
               if is_space b then String a EmptyString :: words s'
               else match words s' with
                    | w :: ws => String a w :: ws
                    | [] => [String a EmptyString]
                    end
           end
  end.

(** [s.splitlines()] on ASCII text. *)
Definition line_boundary (a : ascii) : bool :=
  let n := nat_of_ascii a in ((10 <=? n) && (n <=? 13)) || ((28 <=? n) && (n <=? 30)).

Fixpoint splitlines (s : string) : list string :=
  match s with
  | EmptyString => []
  | String a s' =>
      if line_boundary a
      then EmptyString ::
           match s' with
           | String b s'' =>
               if Ascii.eqb a (ascii_of_nat 13) && Ascii.eqb b newline then splitlines s''
               else splitlines s'
           | EmptyString => []
           end
      else match s' with
           | EmptyString => [String a EmptyString]
           | _ => match splitlines s' with
                  | l :: ls => String a l :: ls
                  | [] => [String a EmptyString]
                  end
           end
  end.

(** A word: not empty and without white space. *)
Definition word (s : string) : Prop := s <> EmptyString /\ all_chars (fun a => negb (is_space a)) s = true.

Lemma words_word s : word s -> words s = [s].
Proof.
  intros [Hn Hc]. induction s as [|a s IH]; [done |]. cbn in Hc. apply andb_true_iff in Hc as [Ha Hc].
  apply negb_true_iff in Ha. cbn [words]. rewrite Ha. destruct s as [|b s]; [done |].
  rewrite IH by done. cbn in Hc. apply andb_true_iff in Hc as [Hb _]. apply negb_true_iff in Hb.
  by rewrite Hb.
Qed.

Lemma words_cons c s t : is_space c = true -> word s -> words (s ++ String c t) = s :: words t.
Proof.
  intros Hs [Hn Hc]. induction s as [|a s IH]; [done |]. cbn in Hc. apply andb_true_iff in Hc as [Ha Hc].
  apply negb_true_iff in Ha. rewrite sapp_cons. cbn [words]. rewrite Ha. destruct s as [|b s].
  - change (EmptyString ++ String c t)%string with (String c t). cbv beta iota.
    rewrite Hs. cbn [words]. by rewrite Hs.
  - rewrite sapp_cons. cbn in Hc. pose proof Hc as Hc'. apply andb_true_iff in Hc as [Hb _].
    apply negb_true_iff in Hb. rewrite Hb. rewrite <- sapp_cons, IH by done. done.
Qed.

(** Lines without boundaries, each ended by a line feed. *)
Lemma splitlines_cons l t : all_chars (fun a => negb (line_boundary a)) l = true ->
  splitlines (l ++ String newline t) = l :: splitlines t.
Proof.
  induction l as [|a l IH]; cbn [all_chars]; intros H.
  - change (EmptyString ++ String newline t)%string with (String newline t). cbn. by destruct t.
  - apply andb_true_iff in H as [Ha H]. apply negb_true_iff in Ha. rewrite sapp_cons. cbn [splitlines].
    rewrite Ha, IH by done. by destruct l.
Qed.

End Str.

(** ** Bytes and UTF-8 *)

Module Utf8.

Open Scope Z_scope.

Definition is_byte (b : Z) : Prop := 0 <= b < 256.
Definition bytes_ok (bs : list Z) : Prop := Forall is_byte bs.

(** A Unicode scalar value. *)
Definition is_scalar (c : Z) : Prop := 0 <= c < 0xD800 \/ 0xE000 <= c < 0x110000.

Definition in_range (lo hi b : Z) : bool := (lo <=? b) && (b <=? hi).

(** The next character of a byte string. [Bad rest]: the maximal prefix that is
    no character is dropped. *)
Inductive decoded := Char (c : Z) (rest : list Z) | Bad (rest : list Z).

(** The continuation bytes after a lead byte: the second byte's range depends on
    the lead, [n] more follow in [0x80, 0xBF]; [acc] is what was read so far. *)
Fixpoint continuation (n : nat) (acc : Z) (bs : list Z) : decoded :=
  match n with
  | O => Char acc bs
  | S n' =>
      match bs with
      | b :: rest =>
          if in_range 0x80 0xBF b then continuation n' (acc * 64 + (b - 0x80)) rest
          else Bad bs
      | [] => Bad []
      end
  end.

Definition second (lo hi : Z) (n : nat) (acc : Z) (bs : list Z) : decoded :=
  match bs with
  | b :: rest =>
      if in_range lo hi b then continuation n (acc * 64 + (b - 0x80)) rest else Bad bs
  | [] => Bad []
  end.

Definition decode1 (b : Z) (bs : list Z) : decoded :=
  if b <? 0x80 then Char b bs
  else if in_range 0xC2 0xDF b then second 0x80 0xBF 0 (b - 0xC0) bs
  else if b =? 0xE0 then second 0xA0 0xBF 1 0 bs
  else if b =? 0xED then second 0x80 0x9F 1 0xD bs
  else if in_range 0xE1 0xEF b then second 0x80 0xBF 1 (b - 0xE0) bs
  else if b =? 0xF0 then second 0x90 0xBF 2 0 bs
  else if in_range 0xF1 0xF3 b then second 0x80 0xBF 2 (b - 0xF0) bs
  else if b =? 0xF4 then second 0x80 0x8F 2 4 bs
  else Bad bs.

(** [n] bounds the number of characters: the length of the input is enough. *)
Fixpoint decode_fuel (n : nat) (bs : list Z) : option (list Z) :=
  match bs with
  | [] => Some []
  | b :: rest =>
      match n with
      | O => None
      | S n' =>
          match decode1 b rest with
          | Char c rest' => cons c <$> decode_fuel n' rest'
          | Bad _ => None
          end
      end
  end.

(** [bs.decode("utf-8")]; [None] is a [UnicodeDecodeError]. *)
Definition decode (bs : list Z) : option (list Z) := decode_fuel (length bs) bs.

Definition replacement : Z := 0xFFFD.

Fixpoint decode_replace_fuel (n : nat) (bs : list Z) : list Z :=
  match bs with
  | [] => []
  | b :: rest =>
      match n with
      | O => []
      | S n' =>
          match decode1 b rest with
          | Char c rest' => c :: decode_replace_fuel n' rest'
          | Bad rest' => replacement :: decode_replace_fuel n' rest'
          end
      end
  end.

(** [bs.decode(errors="replace")]. *)
Definition decode_replace (bs : list Z) : list Z := decode_replace_fuel (length bs) bs.

Definition encode1 (c : Z) : list Z :=
  if c <? 0x80 then [c]
  else if c <? 0x800 then [0xC0 + c / 64; 0x80 + c mod 64]
  else if c <? 0x10000 then
    [0xE0 + c / 4096; 0x80 + (c / 64) mod 64; 0x80 + c mod 64]
  else
    [0xF0 + c / 262144; 0x80 + (c / 4096) mod 64; 0x80 + (c / 64) mod 64; 0x80 + c mod 64].

(** [s.encode("utf-8")] for a string of scalar values. *)
Definition encode (s : list Z) : list Z := concat (map encode1 s).

(** The code points of an ASCII string. *)
Fixpoint of_string (s : string) : list Z :=
  match s with
  | EmptyString => []
  | String a s' => Z.of_nat (nat_of_ascii a) :: of_string s'
  end.

(** [str.isspace] on a code point. *)
Definition is_space (c : Z) : bool :=
  in_range 0x9 0xD c || in_range 0x1C 0x20 c || (c =? 0x85) || (c =? 0xA0) ||
  (c =? 0x1680) || in_range 0x2000 0x200A c || (c =? 0x2028) || (c =? 0x2029) ||
  (c =? 0x202F) || (c =? 0x205F) || (c =? 0x3000).

Fixpoint lstrip (s : list Z) : list Z :=
  match s with
  | [] => []
  | c :: s' => if is_space c then lstrip s' else s
  end.

Definition rstrip (s : list Z) : list Z := rev (lstrip (rev s)).
Definition strip (s : list Z) : list Z := rstrip (lstrip s).

(** [bs.split(bytes([sep]))]. *)
Fixpoint split_byte (sep : Z) (bs : list Z) : list (list Z) :=
  match bs with
  | [] => [[]]
  | b :: rest =>
      if b =? sep then [] :: split_byte sep rest
      else match split_byte sep rest with
           | [] => [[b]]
           | p :: ps => (b :: p) :: ps
           end
  end.

(** ** Decoding inverts encoding *)

Lemma in_range_true lo hi b : lo <= b <= hi -> in_range lo hi b = true.
Proof. unfold in_range. intros. apply andb_true_intro. lia. Qed.

Lemma in_range_false lo hi b : b < lo \/ hi < b -> in_range lo hi b = false.
Proof. unfold in_range. intros. apply andb_false_iff. lia. Qed.

Ltac range :=
  repeat match goal with
  | |- context [in_range ?lo ?hi ?b] =>
      first [rewrite (in_range_true lo hi b) by lia
            |rewrite (in_range_false lo hi b) by lia]
  | |- context [?a <? ?b] =>
      first [rewrite (proj2 (Z.ltb_lt a b)) by lia|rewrite (proj2 (Z.ltb_ge a b)) by lia]
  | |- context [?a =? ?b] =>
      first [rewrite (proj2 (Z.eqb_eq a b)) by lia|rewrite (proj2 (Z.eqb_neq a b)) by lia]
  end.

Lemma decode1_encode1 c rest :
  is_scalar c ->
  exists b bs, encode1 c = b :: bs /\ decode1 b (bs ++ rest) = Char c rest.
Proof.
  intros Hc. unfold is_scalar in Hc. unfold encode1.
  destruct (Z.ltb_spec c 0x80); [eexists _, _; split; [done |]; unfold decode1; by range |].
  pose proof (Z.div_mod c 64 ltac:(lia)). pose proof (Z.mod_pos_bound c 64 ltac:(lia)).
  destruct (Z.ltb_spec c 0x800).
  { eexists _, _; split; [done |]. unfold decode1, second. simpl. range.
    simpl. f_equal. lia. }
  pose proof (Z.div_mod (c / 64) 64 ltac:(lia)).
  pose proof (Z.mod_pos_bound (c / 64) 64 ltac:(lia)).
  assert (c / 64 / 64 = c / 4096) by (rewrite Z.div_div by lia; done).
  destruct (Z.ltb_spec c 0x10000).
  { eexists _, _; split; [done |]. unfold decode1. range.
    destruct (Z.eqb_spec (0xE0 + c / 4096) 0xE0); [unfold second; simpl; range; simpl; f_equal; lia |].
    destruct (Z.eqb_spec (0xE0 + c / 4096) 0xED); [unfold second; simpl; range; simpl; f_equal; lia |].
    unfold second; simpl; range; simpl; f_equal; lia. }
  pose proof (Z.div_mod (c / 4096) 64 ltac:(lia)).
  pose proof (Z.mod_pos_bound (c / 4096) 64 ltac:(lia)).
  assert (c / 4096 / 64 = c / 262144) by (rewrite Z.div_div by lia; done).
  eexists _, _; split; [done |]. unfold decode1. range.
  destruct (Z.eqb_spec (0xF0 + c / 262144) 0xF0); [unfold second; simpl; range; simpl; f_equal; lia |].
  destruct (Z.eqb_spec (0xF0 + c / 262144) 0xF4); [unfold second; simpl; range; simpl; f_equal; lia |].
  unfold second; simpl; range; simpl; f_equal; lia.
Qed.

Lemma decode_fuel_encode s n :
  Forall is_scalar s -> (length s <= n)%nat -> decode_fuel n (encode s) = Some s.
Proof.
  intros Hs. revert n. induction Hs as [|c s Hc Hs IH]; intros n Hn; simpl.
  - by destruct n.
  - destruct (decode1_encode1 c (encode s) Hc) as (b & bs & He & Hd).
    unfold encode in *. simpl. rewrite He. simpl. destruct n as [|n]; simpl in Hn; [lia |].
    simpl. rewrite Hd. rewrite IH by lia. done.
Qed.

Lemma encode1_length c : (1 <= length (encode1 c))%nat.
Proof. unfold encode1. repeat case_match; simpl; lia. Qed.

Lemma encode_length s : (length s <= length (encode s))%nat.
Proof.
  induction s as [|c s IH]; simpl; [lia |]. unfold encode in *. simpl.
  rewrite length_app. pose proof (encode1_length c). lia.
Qed.

Lemma decode_encode s : Forall is_scalar s -> decode (encode s) = Some s.
Proof. intros Hs. apply decode_fuel_encode; [done | apply encode_length]. Qed.

End Utf8.
