(* ===== verification/Enums.v ===== *)
(** * Status and log-source enumerations

    [common/enums.py]: [ExporterStatus] and [LogSource] are [IntEnum]s over the
    protobuf constants of [common.proto]. [from_proto] is the enum constructor,
    which raises [ValueError] on an integer that is no member: an [option]. *)

From stdpp Require Import base list strings.
From Stdlib Require Import ZArith Lia.
From S2P Require Import Prelude.

Inductive ExporterStatus :=
| UNSPECIFIED
| OFFLINE
| AVAILABLE
| BEFORE_LEASE_HOOK
| LEASE_READY
| AFTER_LEASE_HOOK
| BEFORE_LEASE_HOOK_FAILED
| AFTER_LEASE_HOOK_FAILED.

#[export] Instance ExporterStatus_eq_dec : EqDecision ExporterStatus.
Proof. solve_decision. Defined.

Module ExporterStatusOps.

Definition to_proto (s : ExporterStatus) : Z :=
  match s with
  | UNSPECIFIED => 0
  | OFFLINE => 1
  | AVAILABLE => 2
  | BEFORE_LEASE_HOOK => 3
  | LEASE_READY => 4
  | AFTER_LEASE_HOOK => 5
  | BEFORE_LEASE_HOOK_FAILED => 6
  | AFTER_LEASE_HOOK_FAILED => 7
  end.

Definition from_proto (value : Z) : option ExporterStatus :=
  match value with
  | 0%Z => Some UNSPECIFIED
  | 1%Z => Some OFFLINE
  | 2%Z => Some AVAILABLE
  | 3%Z => Some BEFORE_LEASE_HOOK
  | 4%Z => Some LEASE_READY
  | 5%Z => Some AFTER_LEASE_HOOK
  | 6%Z => Some BEFORE_LEASE_HOOK_FAILED
  | 7%Z => Some AFTER_LEASE_HOOK_FAILED
  | _ => None
  end.

(** [__str__] is the member's name. *)
Definition str (s : ExporterStatus) : string :=
  match s with
  | UNSPECIFIED => "UNSPECIFIED"
  | OFFLINE => "OFFLINE"
  | AVAILABLE => "AVAILABLE"
  | BEFORE_LEASE_HOOK => "BEFORE_LEASE_HOOK"
  | LEASE_READY => "LEASE_READY"
  | AFTER_LEASE_HOOK => "AFTER_LEASE_HOOK"
  | BEFORE_LEASE_HOOK_FAILED => "BEFORE_LEASE_HOOK_FAILED"
  | AFTER_LEASE_HOOK_FAILED => "AFTER_LEASE_HOOK_FAILED"
  end.

Lemma from_to_proto s : from_proto (to_proto s) = Some s.
Proof. by destruct s. Qed.

Lemma to_from_proto v s : from_proto v = Some s -> to_proto s = v.
Proof.
  destruct v as [|p|p]; [| do 3 (try destruct p as [p|p|]) |];
    simpl; intros H; by simplify_eq.
Qed.

Lemma from_proto_range v : is_some (from_proto v) = true <-> (0 <= v <= 7)%Z.
Proof.
  split.
  - rewrite is_some_true. intros [s Hs]. apply to_from_proto in Hs. subst.
    destruct s; simpl; lia.
  - intros H.
    assert (v = 0 \/ v = 1 \/ v = 2 \/ v = 3 \/ v = 4 \/ v = 5 \/ v = 6 \/ v = 7)%Z by lia.
    destruct_or!; by subst.
Qed.

End ExporterStatusOps.

Inductive LogSource :=
| LOG_UNSPECIFIED
| LOG_DRIVER
| LOG_BEFORE_LEASE_HOOK
| LOG_AFTER_LEASE_HOOK
| LOG_SYSTEM.

#[export] Instance LogSource_eq_dec : EqDecision LogSource.
Proof. solve_decision. Defined.

Module LogSourceOps.

Definition log_to_proto (s : LogSource) : Z :=
  match s with
  | LOG_UNSPECIFIED => 0
  | LOG_DRIVER => 1
  | LOG_BEFORE_LEASE_HOOK => 2
  | LOG_AFTER_LEASE_HOOK => 3
  | LOG_SYSTEM => 4
  end.

Definition log_from_proto (value : Z) : option LogSource :=
  match value with
  | 0%Z => Some LOG_UNSPECIFIED
  | 1%Z => Some LOG_DRIVER
  | 2%Z => Some LOG_BEFORE_LEASE_HOOK
  | 3%Z => Some LOG_AFTER_LEASE_HOOK
  | 4%Z => Some LOG_SYSTEM
  | _ => None
  end.

Definition log_str (s : LogSource) : string :=
  match s with
  | LOG_UNSPECIFIED => "UNSPECIFIED"
  | LOG_DRIVER => "DRIVER"
  | LOG_BEFORE_LEASE_HOOK => "BEFORE_LEASE_HOOK"
  | LOG_AFTER_LEASE_HOOK => "AFTER_LEASE_HOOK"
  | LOG_SYSTEM => "SYSTEM"
  end.

Lemma log_from_to_proto s : log_from_proto (log_to_proto s) = Some s.
Proof. by destruct s. Qed.

End LogSourceOps.
