(* ===== verification/Coroutine.v ===== *)
(** * Cooperative tasks

    The exporter and its hooks are [async] Python run by one event loop. A task
    runs without interruption until it awaits something that is not ready, so
    the code between two awaits is atomic. A coroutine is modelled as a finite
    tree [prog]:

    - [Atom f k]: plain code that changes the shared world by [f]; [k] sees the
      world before the change;
    - [Spawn n p]: [task_group.start_soon] of the task named [n];
    - [Wait c cond k]: suspend until [cond] holds ([k true]) or a cancel scope
      around the await is cancelled, which [c] tells ([k false]);
    - [Call c q k]: suspend on an external request [q] (an RPC, a subprocess);
      [k (Some a)] continues with the answer, [k None] when cancelled.

    An event loop step resumes one suspended task and runs it to its next
    suspension ([run]). [config] is the world with the live tasks and
    [sys_step] the interleaving of their steps.

    Two proof methods are provided: [guar R p], every atomic change of [p]
    satisfies the relation [R]; and [wp], a weakest precondition for an
    invariant [J] over the world and a count of ghost tokens held by the tasks,
    under a rely relation. [sys_invariant] lifts both to every reachable
    configuration. *)

From stdpp Require Import base list relations.
From Stdlib Require Import Lia.
From S2P Require Import Prelude.

Section Prog.

Context {W Q : Type} {answer : Q -> Type} {N : Type}.

Inductive prog (A : Type) : Type :=
| Ret (a : A)
| Atom (f : W -> W) (k : W -> prog A)
| Spawn (n : N) (p : prog A)
| Wait (c : W -> bool) (cond : W -> bool) (k : bool -> prog A)
| Call (c : W -> bool) (q : Q) (k : option (answer q) -> prog A).

Arguments Ret {A} a.
Arguments Atom {A} f k.
Arguments Spawn {A} n p.
Arguments Wait {A} c cond k.
Arguments Call {A} c q k.

Fixpoint pbind {A B} (p : prog A) (g : A -> prog B) : prog B :=
  match p with
  | Ret a => g a
  | Atom f k => Atom f (fun w => pbind (k w) g)
  | Spawn n p' => Spawn n (pbind p' g)
  | Wait c cond k => Wait c cond (fun b => pbind (k b) g)
  | Call c q k => Call c q (fun a => pbind (k a) g)
  end.

(** Change what may cancel the awaits of [p]: a shielded scope makes them
    uncancellable, a nested scope adds its own flag. *)
Fixpoint rescope {A} (g : (W -> bool) -> W -> bool) (p : prog A) : prog A :=
  match p with
  | Ret a => Ret a
  | Atom f k => Atom f (fun w => rescope g (k w))
  | Spawn n p' => Spawn n (rescope g p')
  | Wait c cond k => Wait (g c) cond (fun b => rescope g (k b))
  | Call c q k => Call (g c) q (fun a => rescope g (k a))
  end.

Definition shield {A} (p : prog A) : prog A := rescope (fun _ _ => false) p.

Definition in_scope {A} (cancelled : W -> bool) (p : prog A) : prog A :=
  rescope (fun c w => c w || cancelled w) p.

(** Run a task to its next suspension: the new world, the tasks it spawned and
    what is left of it (a [Ret], a [Wait] or a [Call]). *)
Fixpoint run {A} (p : prog A) (w : W) : W * list N * prog A :=
  match p with
  | Atom f k => run (k w) (f w)
  | Spawn n p' => let '(w', ns, p'') := run p' w in (w', n :: ns, p'')
  | _ => (w, [], p)
  end.

(** A coroutine run alone: conditions must hold when they are awaited (a timed
    wait times out), the [i]-th external request is answered by [o i]. [None]
    means that it blocks. The number of requests made comes with the result. *)
Fixpoint solo {A} (p : prog A) (o : nat -> forall q, answer q) (i : nat) (w : W)
    : option (A * W * nat) :=
  match p with
  | Ret a => Some (a, w, i)
  | Atom f k => solo (k w) o i (f w)
  | Spawn _ p' => solo p' o i w
  | Wait c cond k =>
      if cond w then solo (k true) o i w
      else if c w then solo (k false) o i w
      else None
  | Call _ q k => solo (k (Some (o i q))) o (S i) w
  end.

Lemma solo_bind {A B} (p : prog A) (g : A -> prog B) o i w :
  solo (pbind p g) o i w =
  match solo p o i w with
  | Some (a, w', i') => solo (g a) o i' w'
  | None => None
  end.
Proof.
  revert i w. induction p; intros i w; simpl; auto.
  destruct (cond w); [auto |]. destruct (c w); auto.
Qed.

(** One resumption of a suspended task. *)
Definition resume {A} (w : W) (p p' : prog A) : Prop :=
  match p with
  | Wait c cond k =>
      (cond w = true /\ p' = k true) \/ (c w = true /\ p' = k false)
  | Call c q k => (exists a, p' = k (Some a)) \/ (c w = true /\ p' = k None)
  | _ => False
  end.

Definition suspended {A} (p : prog A) : Prop :=
  match p with Atom _ _ | Spawn _ _ => False | _ => True end.

Lemma run_suspended {A} (p : prog A) w : suspended (run p w).2.
Proof.
  revert w. induction p; intros w; simpl; auto.
  specialize (IHp w). by destruct (run p w) as [[??]?].
Qed.

(** ** Every atomic change satisfies a relation

    [guar R S p]: every change [p] makes is in [R], every task it spawns in [S]. *)

Fixpoint guar {A} (R : W -> W -> Prop) (S : N -> Prop) (p : prog A) : Prop :=
  match p with
  | Ret _ => True
  | Atom f k => forall w, R w (f w) /\ guar R S (k w)
  | Spawn n p' => S n /\ guar R S p'
  | Wait _ _ k => forall b, guar R S (k b)
  | Call _ _ k => forall a, guar R S (k a)
  end.

Lemma guar_bind {A B} R S (p : prog A) (g : A -> prog B) :
  guar R S p -> (forall a, guar R S (g a)) -> guar R S (pbind p g).
Proof.
  intros Hp Hg. induction p; simpl in *; auto.
  - intros w. destruct (Hp w). auto.
  - destruct Hp. auto.
Qed.

Lemma guar_rescope {A} R S g (p : prog A) : guar R S p -> guar R S (rescope g p).
Proof.
  induction p; simpl; auto.
  - intros Hp w. destruct (Hp w). auto.
  - intros []. auto.
Qed.

Lemma guar_weaken {A} (R R' : W -> W -> Prop) (S S' : N -> Prop) (p : prog A) :
  (forall w w', R w w' -> R' w w') -> (forall n, S n -> S' n) ->
  guar R S p -> guar R' S' p.
Proof.
  intros HR HS. induction p; simpl; auto.
  - intros Hp w. destruct (Hp w). auto.
  - intros []. auto.
Qed.

Lemma guar_run {A} (R : W -> W -> Prop) (S : N -> Prop) (p : prog A) w :
  guar R S p -> rtc R w (run p w).1.1 /\ guar R S (run p w).2 /\ Forall S (run p w).1.2.
Proof.
  revert w. induction p as [a|f k IH|n p IH|c cond k IH|c q k IH]; intros w Hp; simpl in *;
    try (by split_and!; [apply rtc_refl | assumption | constructor]).
  - destruct (Hp w) as [Hf Hk]. destruct (IH w (f w) Hk) as (H1 & H2 & H3).
    split_and!; [by eapply rtc_l | done..].
  - destruct Hp as [Hn Hp]. specialize (IH w Hp).
    destruct (run p w) as [[w' ns] p'']. simpl in *. destruct_and!. auto.
Qed.

(** For a preorder the whole macro step is in the relation. *)
Lemma guar_run_preorder {A} (R : W -> W -> Prop) (S : N -> Prop) (p : prog A) w :
  (forall x, R x x) -> (forall x y z, R x y -> R y z -> R x z) -> guar R S p ->
  R w (run p w).1.1 /\ guar R S (run p w).2 /\ Forall S (run p w).1.2.
Proof.
  intros Hr Ht Hp. destruct (guar_run R S p w Hp) as (H1 & H2 & H3).
  split_and!; [| done..]. clear Hp H2 H3. revert H1. generalize (run p w).1.1.
  intros w' H1. induction H1; eauto.
Qed.

Lemma guar_resume {A} R S w (p p' : prog A) : resume w p p' -> guar R S p -> guar R S p'.
Proof.
  destruct p; simpl; try done; intros Hr Hg; [destruct Hr as [[_ ->] | [_ ->]] |
    destruct Hr as [[a ->] | [_ ->]]]; auto.
Qed.

(** ** Weakest precondition with ghost tokens

    [J t w]: the invariant when the tasks hold [t] tokens in total. During a
    macro step [r] is what the other tasks hold (spawned ones included). *)

Section Wp.

Context (J : nat -> W -> Prop) (Rely : W -> W -> Prop) (init : N -> nat).

Fixpoint wp {A} (p : prog A) (P : A -> nat -> W -> Prop) (r : nat) (w : W) : Prop :=
  match p with
  | Ret a => P a r w
  | Atom f k => wp (k w) P r (f w)
  | Spawn n p' => wp p' P (r + init n) w
  | Wait c cond k =>
      exists s, J (r + s) w /\
        forall r' w', Rely w w' -> J (r' + s) w' ->
          (cond w' = true -> wp (k true) P r' w') /\
          (c w' = true -> wp (k false) P r' w')
  | Call c q k =>
      exists s, J (r + s) w /\
        forall r' w', Rely w w' -> J (r' + s) w' ->
          (forall a, wp (k (Some a)) P r' w') /\
          (c w' = true -> wp (k None) P r' w')
  end.

(** The common case of the inductions below: a suspended task. *)
Ltac wp_suspend :=
  intros (s & HJ & Hk); exists s; split; [done |];
  intros r' w' HR Hr'; destruct (Hk r' w' HR Hr') as [Hk1 Hk2]; split; eauto.

Lemma wp_mono {A} (p : prog A) (P P' : A -> nat -> W -> Prop) r w :
  (forall a r w, P a r w -> P' a r w) -> wp p P r w -> wp p P' r w.
Proof.
  intros HP. revert r w. induction p; intros r w; simpl; eauto; wp_suspend.
Qed.

Lemma wp_bind {A B} (p : prog A) (g : A -> prog B) P r w :
  wp p (fun a r w => wp (g a) P r w) r w -> wp (pbind p g) P r w.
Proof.
  revert r w. induction p; intros r w; simpl; eauto; wp_suspend.
Qed.

(** An await needs no more than it needed under weaker cancellation. *)
Lemma wp_rescope {A} g (p : prog A) P r w :
  (forall c w, g c w = true -> c w = true) ->
  wp p P r w -> wp (rescope g p) P r w.
Proof.
  intros Hg. revert r w. induction p; intros r w; simpl; eauto; wp_suspend.
Qed.

(** A coroutine whose changes keep the invariant and whose children hold no
    token keeps its own [s] tokens and the invariant. *)
Lemma wp_frame {A} (R : W -> W -> Prop) (S : N -> Prop) s (p : prog A) P r w :
  (forall t w w', R w w' -> J t w -> J t w') -> (forall n, S n -> init n = 0) ->
  guar R S p -> J (r + s) w ->
  (forall a r' w', J (r' + s) w' -> P a r' w') -> wp p P r w.
Proof.
  intros HR HS Hp HJ HP. revert r w HJ.
  induction p as [a|f k IH|n p IH|c cond k IH|c q k IH]; intros r w HJ; simpl in *.
  - auto.
  - destruct (Hp w) as [Hf Hk]. eapply IH; eauto.
  - destruct Hp as [Hn Hp]. rewrite (HS n Hn), Nat.add_0_r. auto.
  - exists s. split; [done |]. intros r' w' _ HJ'. auto.
  - exists s. split; [done |]. intros r' w' _ HJ'. auto.
Qed.

Lemma wp_run {A} (p : prog A) P r w :
  wp p P r w ->
  wp (run p w).2 P (r + sum_list_with init (run p w).1.2) (run p w).1.1.
Proof.
  revert r w. induction p; intros r w Hp; simpl in *.
  - by rewrite Nat.add_0_r.
  - eauto.
  - specialize (IHp _ _ Hp). destruct (run p w) as [[w' ns] p'']. simpl in *.
    by rewrite Nat.add_assoc.
  - by rewrite Nat.add_0_r.
  - by rewrite Nat.add_0_r.
Qed.

End Wp.

(** ** A coroutine among others

    [completes Rely p w a w']: started in [w], the coroutine can end with [a] in
    [w'] while the other tasks change the world by [Rely] whenever it is
    suspended. *)

Inductive completes {A} (Rely : W -> W -> Prop) : prog A -> W -> A -> W -> Prop :=
| c_ret a w : completes Rely (Ret a) w a w
| c_atom f k w a w' : completes Rely (k w) (f w) a w' -> completes Rely (Atom f k) w a w'
| c_spawn n p w a w' : completes Rely p w a w' -> completes Rely (Spawn n p) w a w'
| c_resume p p' w w1 a w' :
    Rely w w1 -> resume w1 p p' -> completes Rely p' w1 a w' -> completes Rely p w a w'.

Lemma completes_ret {A} (Rely : W -> W -> Prop) (a b : A) w w' :
  completes Rely (Ret a) w b w' -> b = a /\ w' = w.
Proof. by inversion 1. Qed.

Lemma completes_bind {A B} (Rely : W -> W -> Prop) (p : prog A) (g : A -> prog B) w b w' :
  completes Rely (pbind p g) w b w' ->
  exists a w1, completes Rely p w a w1 /\ completes Rely (g a) w1 b w'.
Proof.
  remember (pbind p g) as pg eqn:E. intros Hc. revert p E.
  induction Hc as [b w|f k w b w' Hc IH|n q w b w' Hc IH|q q' w w1 b w' HR Hr Hc IH];
    intros p E.
  - destruct p; simplify_eq/=. exists a, w. split; [constructor |]. rewrite <- E. constructor.
  - destruct p as [a|f' k'| | |]; simplify_eq/=.
    + exists a, w. split; [constructor |]. rewrite <- E. by constructor.
    + destruct (IH _ eq_refl) as (a & w1 & H1 & H2). exists a, w1. by split; [constructor |].
  - destruct p as [a| |n' p'| |]; simplify_eq/=.
    + exists a, w. split; [constructor |]. rewrite <- E. by constructor.
    + destruct (IH _ eq_refl) as (a & w1 & H1 & H2). exists a, w1. by split; [constructor |].
  - destruct p as [a| | |c cond k|c r k]; simplify_eq/=; try done.
    + exists a, w. split; [constructor |]. by eapply c_resume.
    + destruct Hr as [[Hx ->] | [Hx ->]];
        destruct (IH _ eq_refl) as (a & w2 & H1 & H2); exists a, w2;
        (split; [eapply c_resume; [exact HR | | exact H1]; simpl; auto | done]).
    + destruct Hr as [[x ->] | [Hx ->]];
        destruct (IH _ eq_refl) as (a & w2 & H1 & H2); exists a, w2;
        (split; [eapply c_resume; [exact HR | | exact H1]; simpl; eauto | done]).
Qed.

(** Code with no await ends as [run] says. *)
Lemma completes_straight {A} (Rely : W -> W -> Prop) (p : prog A) w w1 ns a b w' :
  run p w = (w1, ns, Ret a) -> completes Rely p w b w' -> b = a /\ w' = w1.
Proof.
  intros Hrun Hc. revert w1 ns Hrun.
  induction Hc as [b w|f k w b w' _ IH|n p w b w' _ IH|p p' w w1 b w' HR Hr _ IH];
    intros w2 ns Hrun; simpl in Hrun.
  - by simplify_eq.
  - eauto.
  - destruct (run p w) as [[w3 ns3] p3] eqn:E. simplify_eq. eauto.
  - destruct p; simpl in *; try done; simplify_eq.
Qed.

Lemma run_completes {A} (Rely : W -> W -> Prop) (p : prog A) w b w' :
  completes Rely (run p w).2 (run p w).1.1 b w' -> completes Rely p w b w'.
Proof.
  revert w. induction p as [a|f k IH|n p IH|c cond k IH|c q k IH]; intros w Hc; try done.
  - constructor. apply IH. exact Hc.
  - constructor. apply IH. simpl in Hc. by destruct (run p w) as [[w3 ns3] p3].
Qed.

Lemma guar_completes {A} (R : W -> W -> Prop) (S : N -> Prop) (p : prog A) w a w' :
  (forall x, R x x) -> (forall x y z, R x y -> R y z -> R x z) ->
  guar R S p -> completes R p w a w' -> R w w'.
Proof.
  intros Hr Ht Hg Hc.
  induction Hc as [a w|f k w a w' _ IH|n p w a w' _ IH|p p' w w1 a w' HR Hres _ IH];
    simpl in *; auto.
  - destruct (Hg w). eauto.
  - destruct Hg. auto.
  - eauto using guar_resume.
Qed.

End Prog.

Arguments prog W {Q} answer N A.
Arguments Ret {W Q answer N A} a.
Arguments Atom {W Q answer N A} f k.
Arguments Spawn {W Q answer N A} n p.
Arguments Wait {W Q answer N A} c cond k.
Arguments Call {W Q answer N A} c q k.

(** ** The system: live tasks interleaved with an environment *)

Section System.

Context {W Q : Type} {answer : Q -> Type} {N : Type}.

Abbreviation task := (prog W answer N unit).

(** The coroutine a task name stands for, and the steps that are no task's: the
    main loop's and those of the outside. *)
Context (body : N -> task) (env_step : W -> W -> list N -> Prop).

(** [start_soon] makes the task ready: it runs at a later step of the loop. *)
Definition start (n : N) : task :=
  Wait (fun _ => false) (fun _ => true) (fun _ => body n).

Record config := Config { world : W; tasks : list task }.

Inductive sys_step : config -> config -> Prop :=
| step_task w ts1 p ts2 p' w' ns p'' :
    resume w p p' ->
    run p' w = (w', ns, p'') ->
    sys_step (Config w (ts1 ++ p :: ts2))
             (Config w' (ts1 ++ p'' :: ts2 ++ map start ns))
| step_env w ts w' ns :
    env_step w w' ns ->
    sys_step (Config w ts) (Config w' (ts ++ map start ns)).

Inductive reachable (w0 : W) (ns0 : list N) : config -> Prop :=
| reach_init : reachable w0 ns0 (Config w0 (map start ns0))
| reach_step c c' : reachable w0 ns0 c -> sys_step c c' -> reachable w0 ns0 c'.

(** The same steps as a function: a choice resumes the task at an index when it
    is ready, cancels it, or answers its call. *)
Inductive choice :=
| Resume (i : nat)
| Cancel (i : nat)
| Answer (i : nat) (oracle : forall q, answer q)
| Env (w' : W) (ns : list N).

Definition resume_with (ch : choice) (w : W) (p : task) : option task :=
  match p with
  | Wait c cond k =>
      match ch with
      | Resume _ => if cond w then Some (k true) else None
      | Cancel _ => if c w then Some (k false) else None
      | _ => None
      end
  | Call c q k =>
      match ch with
      | Answer _ oracle => Some (k (Some (oracle q)))
      | Cancel _ => if c w then Some (k None) else None
      | _ => None
      end
  | _ => None
  end.

Definition exec_task (ch : choice) (i : nat) (c : config) : option config :=
  match tasks c !! i with
  | Some p =>
      match resume_with ch (world c) p with
      | Some p' =>
          let '(w', ns, p'') := run p' (world c) in
          Some (Config w' (<[i := p'']> (tasks c) ++ map start ns))
      | None => None
      end
  | None => None
  end.

Definition exec (ch : choice) (c : config) : option config :=
  match ch with
  | Resume i | Cancel i | Answer i _ => exec_task ch i c
  | Env w' ns => Some (Config w' (tasks c ++ map start ns))
  end.

Lemma resume_with_sound ch w p p' : resume_with ch w p = Some p' -> resume w p p'.
Proof.
  destruct p, ch; simpl; intros H; try done;
    try (destruct (cond w) eqn:?); try (destruct (c w) eqn:?); simplify_eq; eauto.
Qed.

Lemma exec_task_sound ch i c c' : exec_task ch i c = Some c' -> sys_step c c'.
Proof.
  unfold exec_task. destruct c as [w ts]; simpl.
  destruct (ts !! i) as [p|] eqn:Hi; [| done].
  destruct (resume_with ch w p) as [p'|] eqn:Hr; [| done].
  destruct (run p' w) as [[w' ns] p''] eqn:Hrun. intros [= <-].
  apply resume_with_sound in Hr.
  rewrite insert_take_drop by (by eapply lookup_lt_Some).
  rewrite <- (take_drop_middle ts i p) at 1 by done.
  rewrite <- app_assoc. simpl. by econstructor.
Qed.

(** A schedule from the start, by the tasks alone. *)
Fixpoint exec_all (chs : list choice) (c : config) : option config :=
  match chs with
  | [] => Some c
  | (Resume i | Cancel i | Answer i _) as ch :: chs' =>
      match exec_task ch i c with Some c' => exec_all chs' c' | None => None end
  | Env _ _ :: _ => None
  end.

Lemma exec_all_reachable w0 ns0 chs c c' :
  reachable w0 ns0 c -> exec_all chs c = Some c' -> reachable w0 ns0 c'.
Proof.
  revert c. induction chs as [|ch chs IH]; intros c Hr Hex; simpl in Hex; [by simplify_eq |].
  destruct ch as [i|i|i o|w' ns]; [.. | done];
    (destruct (exec_task _ i c) as [c1|] eqn:E; [| done]);
    (eapply IH; [| exact Hex]); (eapply reach_step; [exact Hr | by eapply exec_task_sound]).
Qed.

Definition exec_from (w0 : W) (ns0 : list N) (chs : list choice) : option config :=
  exec_all chs (Config w0 (map start ns0)).

(** ** Invariants of every interleaving *)

Section Soundness.

Context (J : nat -> W -> Prop) (Rely : W -> W -> Prop) (init : N -> nat).
Context (Rely_refl : forall w, Rely w w).
Context (Rely_trans : forall w1 w2 w3, Rely w1 w2 -> Rely w2 w3 -> Rely w1 w3).
Context (body_guar : forall n, guar Rely (fun _ => True) (body n)).
Context (env_guar : forall w w' ns, env_step w w' ns -> Rely w w').
Context (body_wp : forall n r w, J (r + init n) w ->
           wp J Rely init (body n) (fun _ r w => J r w) r w).
Context (env_ok : forall t w w' ns, J t w -> env_step w w' ns ->
           J (t + sum_list_with init ns) w').

Definition finished {A} (p : prog W answer N A) : Prop :=
  match p with Ret _ => True | _ => False end.

(** A finished task holds no token. *)
Definition task_ok (w : W) (p : task) (g : nat) : Prop :=
  guar Rely (fun _ => True) p /\ (finished p -> g = 0) /\
  forall r' w', Rely w w' -> J (r' + g) w' ->
    forall p', resume w' p p' -> wp J Rely init p' (fun _ r w => J r w) r' w'.

Definition config_ok (c : config) : Prop :=
  exists gs, J (sum_list gs) (world c) /\ Forall2 (task_ok (world c)) (tasks c) gs.

Lemma start_ok w n : task_ok w (start n) (init n).
Proof.
  split; [simpl; auto using body_guar |]. split; [done |].
  intros r' w' _ HJ p' [[_ ->] | [? _]]; [auto | done].
Qed.

Lemma starts_ok w ns : Forall2 (task_ok w) (map start ns) (map init ns).
Proof. induction ns; simpl; constructor; auto using start_ok. Qed.

Lemma task_ok_rely w w' p g : Rely w w' -> task_ok w p g -> task_ok w' p g.
Proof.
  intros HR (Hg & Hf & Hp). split; [done |]. split; [done |].
  intros r2 w2 HR2 HJ p' Hr. apply (Hp r2 w2); eauto.
Qed.

Lemma suspended_ok p r w :
  guar Rely (fun _ => True) p -> suspended p ->
  wp J Rely init p (fun _ r w => J r w) r w ->
  exists s, J (r + s) w /\ task_ok w p s.
Proof.
  intros Hg Hs Hwp. unfold task_ok.
  destruct p as [a|f k|n p|c cond k|c q k]; simpl in Hwp, Hs; try done.
  - exists 0. rewrite Nat.add_0_r. by repeat split.
  - destruct Hwp as (s & HJ & Hk). exists s. split_and!; [done.. |].
    intros r' w' HR HJ' p' Hr. destruct (Hk r' w' HR HJ').
    destruct Hr as [[? ->] | [? ->]]; auto.
  - destruct Hwp as (s & HJ & Hk). exists s. split_and!; [done.. |].
    intros r' w' HR HJ' p' Hr. destruct (Hk r' w' HR HJ').
    destruct Hr as [[? ->] | [? ->]]; auto.
Qed.

Lemma config_ok_step c c' :
  config_ok c -> sys_step c c' -> config_ok c' /\ Rely (world c) (world c').
Proof.
  intros (gs & HJ & Hts) Hstep.
  destruct Hstep as [w ts1 p ts2 p' w' ns p'' Hr Hrun | w ts w' ns Henv]; simpl in *.
  - apply Forall2_app_inv_l in Hts as (gs1 & gs2 & Hts1 & Hts2 & ->).
    apply Forall2_cons_inv_l in Hts2 as (g & gs2' & Hp & Hts2 & ->).
    rewrite sum_list_with_app in HJ. simpl in HJ.
    set (r := sum_list gs1 + sum_list gs2').
    assert (J (r + g) w) as HJ' by (by replace (r + g) with
      (sum_list gs1 + (g + sum_list gs2')) by (unfold r; lia)).
    destruct Hp as (Hg & _ & Hp).
    pose proof (Hp r w (Rely_refl w) HJ' p' Hr) as Hwp.
    pose proof (guar_resume _ _ _ _ _ Hr Hg) as Hg'.
    apply wp_run in Hwp.
    destruct (guar_run_preorder Rely _ p' w Rely_refl Rely_trans Hg') as (HR & Hg'' & _).
    pose proof (run_suspended p' w) as Hsusp.
    rewrite Hrun in *. simpl in *.
    destruct (suspended_ok _ _ _ Hg'' Hsusp Hwp) as (s & HJ2 & Hok).
    split; [| done].
    exists (gs1 ++ s :: gs2' ++ map init ns). simpl. split.
    + rewrite sum_list_with_app. simpl. rewrite sum_list_with_app.
      replace (sum_list gs1 + _) with (r + sum_list_with init ns + s); [done |].
      unfold r. rewrite sum_list_map. simpl. lia.
    + apply Forall2_app; [eapply Forall2_impl; eauto using task_ok_rely |].
      constructor; [done |].
      apply Forall2_app; [eapply Forall2_impl; eauto using task_ok_rely | apply starts_ok].
  - pose proof (env_guar _ _ _ Henv) as HR. split; [| done].
    exists (gs ++ map init ns). simpl. split.
    + rewrite sum_list_with_app, sum_list_map. by apply (env_ok _ w).
    + apply Forall2_app; [eapply Forall2_impl; eauto using task_ok_rely | apply starts_ok].
Qed.

(** The invariant holds, for some number of tokens, in every reachable
    configuration, whatever the order in which the tasks are resumed. *)
Lemma sys_config_ok w0 ns0 c :
  J (sum_list_with init ns0) w0 -> reachable w0 ns0 c -> config_ok c /\ Rely w0 (world c).
Proof.
  intros H0 Hreach. induction Hreach as [|c c' Hreach [IH HR] Hstep].
  - split; [| apply Rely_refl]. exists (map init ns0). simpl.
    split; [by rewrite sum_list_map | apply starts_ok].
  - destruct (config_ok_step c c' IH Hstep). eauto.
Qed.

Lemma sys_invariant w0 ns0 c :
  J (sum_list_with init ns0) w0 -> reachable w0 ns0 c ->
  (exists t, J t (world c)) /\ Rely w0 (world c).
Proof.
  intros H0 Hreach. destruct (sys_config_ok w0 ns0 c H0 Hreach) as [(gs & HJ & _) HR]. eauto.
Qed.

(** When every task has finished, no token is left. *)
Lemma sys_quiescent w0 ns0 c :
  J (sum_list_with init ns0) w0 -> reachable w0 ns0 c -> Forall finished (tasks c) ->
  J 0 (world c).
Proof.
  intros H0 Hreach Hf. destruct (sys_config_ok w0 ns0 c H0 Hreach) as [(gs & HJ & Hts) _].
  assert (sum_list gs = 0) as E; [| by rewrite <- E].
  clear HJ. induction Hts as [|p g ts gs (_ & Hp & _) _ IH]; [done |].
  apply Forall_cons in Hf as [Hf1 Hf2]. simpl. rewrite (Hp Hf1), IH; auto.
Qed.

End Soundness.

End System.
