(* ===== verification/Session.v ===== *)
(** * Session: status tracking, log routing and the end-session request

    [exporter/session.py] and [exporter/logging.py]. A session serves one lease;
    what it keeps is the status with its version counter, the message of the
    day, the bounded log queue and the routing table of log sources. The gRPC
    servers, sockets and drivers are not part of this state. *)

From stdpp Require Import base list strings sets.
From Stdlib Require Import ZArith Lia.
From S2P Require Import Prelude Enums.

(** ** [LogHandler] *)

(** What [LogHandler.prepare] puts in a [LogStreamResponse] from the record:
    the severity, message and source, the optional first-class fields and the
    extra attributes that are not [None] ([str(val)] done by the caller). *)
Record LogRecord := mkLogRecord {
  rec_name : string;
  levelname : string;
  getMessage : string;
  rec_driver_type : option string;
  rec_operation : option string;
  extra : list (string * option string)
}.

Record LogStreamResponse := mkLogStreamResponse {
  severity : string;
  message : string;
  source : Z;
  driver_type : option string;
  operation : option string;
  structured_fields : list (string * string)
}.

Record LogHandler := mkLogHandler {
  log_queue : list LogStreamResponse;
  log_maxlen : nat;
  log_source : LogSource;
  child_handlers : list (string * LogSource)
}.

#[export] Instance set_log_queue : Setter log_queue := fun u r =>
  mkLogHandler (u
    (log_queue r)) (log_maxlen r) (log_source r) (child_handlers r).
#[export] Instance set_log_maxlen : Setter log_maxlen := fun u r =>
  mkLogHandler
    (log_queue r) (u (log_maxlen r)) (log_source r) (child_handlers r).
#[export] Instance set_log_source : Setter log_source := fun u r =>
  mkLogHandler
    (log_queue r) (log_maxlen r) (u (log_source r)) (child_handlers r).
#[export] Instance set_child_handlers : Setter child_handlers := fun u r =>
  mkLogHandler
    (log_queue r) (log_maxlen r) (log_source r) (u (child_handlers r)).

Definition add_child_handler (logger_name : string) (src : LogSource) (h : LogHandler)
    : LogHandler :=
  h <| child_handlers ::= dict_set logger_name src |>.

Definition remove_child_handler (logger_name : string) (h : LogHandler) : LogHandler :=
  h <| child_handlers ::= dict_pop logger_name |>.

(** The loop over the dictionary returns at the first mapped logger that is a
    prefix of the record's logger name. *)
Fixpoint find_source (logger_name : string) (d : list (string * LogSource))
    : option LogSource :=
  match d with
  | [] => None
  | (mapped_logger, src) :: d' =>
      if String.prefix mapped_logger logger_name then Some src
      else find_source logger_name d'
  end.

Definition get_source_for_record (h : LogHandler) (record : LogRecord) : LogSource :=
  default (log_source h) (find_source (rec_name record) (child_handlers h)).

(** [deque(maxlen=n).append]: a full queue drops its oldest entry. *)
Definition enqueue (h : LogHandler) (r : LogStreamResponse) : LogHandler :=
  h <| log_queue ::= fun q =>
         let q' := q ++ [r] in drop (length q' - log_maxlen h) q' |>.

Definition first_class_keys : list string := ["driver_type"; "operation"].

Fixpoint structured_of (attrs : list (string * option string)) : list (string * string) :=
  match attrs with
  | [] => []
  | (key, val) :: rest =>
      if bool_decide (key ∈ first_class_keys) then structured_of rest
      else match val with
           | Some v => (key, v) :: structured_of rest
           | None => structured_of rest
           end
  end.

Definition prepare (h : LogHandler) (record : LogRecord) : LogStreamResponse :=
  mkLogStreamResponse (levelname record) (getMessage record)
    (LogSourceOps.log_to_proto (get_source_for_record h record))
    (rec_driver_type record) (rec_operation record)
    (structured_of (extra record)).

Definition emit (h : LogHandler) (record : LogRecord) : LogHandler :=
  enqueue h (prepare h record).

(** [context_log_source]: the mapping is added on entry and removed on exit,
    whatever the body does to the handler meanwhile. *)
Definition context_log_source {A} (logger_name : string) (src : LogSource)
    (body : LogHandler -> LogHandler * A) (h : LogHandler) : LogHandler * A :=
  let '(h', a) := body (add_child_handler logger_name src h) in
  (remove_child_handler logger_name h', a).

(** ** [Session] *)

Record Session := mkSession {
  exporter_name : string;
  motd : option string;
  lease_context : option nat;
  logging_handler : LogHandler;
  current_status : ExporterStatus;
  status_message : string;
  status_version : Z;
  previous_status : option ExporterStatus
}.

#[export] Instance set_exporter_name : Setter exporter_name := fun u r =>
  mkSession
    (u (exporter_name r)) (motd r) (lease_context r) (logging_handler r)
    (current_status r) (status_message r) (status_version r) (previous_status r).
#[export] Instance set_motd : Setter motd := fun u r =>
  mkSession (exporter_name r)
    (u (motd r)) (lease_context r) (logging_handler r) (current_status r)
    (status_message r) (status_version r) (previous_status r).
#[export] Instance set_lease_context : Setter lease_context := fun u r =>
  mkSession
    (exporter_name r) (motd r) (u (lease_context r)) (logging_handler r)
    (current_status r) (status_message r) (status_version r) (previous_status r).
#[export] Instance set_logging_handler : Setter logging_handler := fun u r =>
  mkSession
    (exporter_name r) (motd r) (lease_context r) (u (logging_handler r))
    (current_status r) (status_message r) (status_version r) (previous_status r).
#[export] Instance set_current_status : Setter current_status := fun u r =>
  mkSession
    (exporter_name r) (motd r) (lease_context r) (logging_handler r) (u
    (current_status r)) (status_message r) (status_version r) (previous_status r).
#[export] Instance set_status_message : Setter status_message := fun u r =>
  mkSession
    (exporter_name r) (motd r) (lease_context r) (logging_handler r) (current_status r)
    (u (status_message r)) (status_version r) (previous_status r).
#[export] Instance set_status_version : Setter status_version := fun u r =>
  mkSession
    (exporter_name r) (motd r) (lease_context r) (logging_handler r) (current_status r)
    (status_message r) (u (status_version r)) (previous_status r).
#[export] Instance set_previous_status : Setter previous_status := fun u r =>
  mkSession
    (exporter_name r) (motd r) (lease_context r) (logging_handler r) (current_status r)
    (status_message r) (status_version r) (u (previous_status r)).

(** [__init__]: a queue of 256 entries, driver logs mapped to [DRIVER]. *)
Definition new_session (name : string) (motd0 : option string) : Session :=
  mkSession name motd0 None
    (add_child_handler "driver." LOG_DRIVER (mkLogHandler [] 256 LOG_SYSTEM []))
    AVAILABLE "" 0 None.

(** [update_status] is called with an [ExporterStatus], an [IntEnum]: it is an
    [int], so the value goes through [from_proto], which gives it back. *)
Definition update_status (status : ExporterStatus) (msg : string) (s : Session)
    : option Session :=
  match ExporterStatusOps.from_proto (ExporterStatusOps.to_proto status) with
  | None => None
  | Some new_status =>
      Some (s <| previous_status := Some (current_status s) |>
              <| current_status := new_status |>
              <| status_message := msg |>
              <| status_version ::= fun v => (v + 1)%Z |>)
  end.

(** [_check_status_for_driver_call]: [Some m] when it calls [context.abort] with
    [FAILED_PRECONDITION] and the details [m]. On an asyncio server [abort] is a
    coroutine function: the call creates a coroutine, which this function drops. *)
Definition allowed_statuses : list ExporterStatus :=
  [LEASE_READY; BEFORE_LEASE_HOOK; AFTER_LEASE_HOOK].

Definition check_status_for_driver_call (s : Session) : option string :=
  if bool_decide (current_status s ∈ allowed_statuses) then None
  else Some ("Exporter not ready for driver calls (status: "
             ++ ExporterStatusOps.str (current_status s) ++ ")")%string.

Record GetStatusResponse := mkGetStatusResponse {
  resp_status : Z;
  resp_message : string;
  resp_status_version : Z;
  resp_previous_status : option Z
}.

Definition GetStatus (s : Session) : GetStatusResponse :=
  mkGetStatusResponse (ExporterStatusOps.to_proto (current_status s))
    (status_message s) (status_version s)
    (ExporterStatusOps.to_proto <$> previous_status s).

Record EndSessionResponse := mkEndSessionResponse {
  end_success : bool;
  end_message : string
}.

(** [EndSession]: the lease context whose [end_session_requested] is set, if
    the session has one, and the response. *)
Definition EndSession (s : Session) : option nat * EndSessionResponse :=
  match lease_context s with
  | None => (None, mkEndSessionResponse false "No active lease context")
  | Some lid =>
      (Some lid, mkEndSessionResponse true
         "Session end triggered, afterLease hook running asynchronously")
  end.

(** One iteration of [LogStream]: the entry yielded, if there is one. *)
Definition log_stream_step (s : Session) : Session * option LogStreamResponse :=
  match log_queue (logging_handler s) with
  | [] => (s, None)
  | r :: q => (s <| logging_handler ::= fun h => h <| log_queue := q |> |>, Some r)
  end.

(** ** Properties *)

Lemma update_status_total st m s : exists s', update_status st m s = Some s'.
Proof. unfold update_status. rewrite ExporterStatusOps.from_to_proto. eauto. Qed.

Lemma update_status_eq st m s s' :
  update_status st m s = Some s' ->
  current_status s' = st /\ status_message s' = m /\
  status_version s' = (status_version s + 1)%Z /\
  previous_status s' = Some (current_status s) /\
  motd s' = motd s /\ lease_context s' = lease_context s /\
  logging_handler s' = logging_handler s.
Proof.
  unfold update_status. rewrite ExporterStatusOps.from_to_proto.
  intros [= <-]. by destruct s.
Qed.

(** The statuses a sequence of updates leads through, oldest first. *)
Fixpoint update_all (us : list (ExporterStatus * string)) (s : Session) : option Session :=
  match us with
  | [] => Some s
  | (st, m) :: us' =>
      match update_status st m s with Some s' => update_all us' s' | None => None end
  end.

Lemma update_all_version us s s' :
  update_all us s = Some s' ->
  status_version s' = (status_version s + Z.of_nat (length us))%Z.
Proof.
  revert s. induction us as [|[st m] us IH]; intros s; simpl.
  - intros [= <-]. lia.
  - destruct (update_status st m s) as [s1|] eqn:E; [| done].
    intros H. apply IH in H. apply update_status_eq in E. destruct E as (_ & _ & Hv & _). lia.
Qed.

(** A client that polled at version [v] and polls again at version [v'] missed
    exactly [v' - v - 1] intermediate statuses, and the status it reads is the
    last one set. *)
Lemma get_status_after us st m s s' :
  update_all (us ++ [(st, m)]) s = Some s' ->
  ExporterStatusOps.from_proto (resp_status (GetStatus s')) = Some st /\
  resp_message (GetStatus s') = m /\
  resp_status_version (GetStatus s') =
    (resp_status_version (GetStatus s) + Z.of_nat (length us) + 1)%Z /\
  resp_previous_status (GetStatus s') =
    Some (ExporterStatusOps.to_proto
            (match last us with Some u => u.1 | None => current_status s end)).
Proof.
  intros H. pose proof (update_all_version _ _ _ H) as Hv.
  revert s H Hv. induction us as [|[st1 m1] us IH]; intros s H Hv; simpl in *.
  - destruct (update_status st m s) as [s1|] eqn:E; [| done]. injection H as <-.
    apply update_status_eq in E. destruct E as (H1 & H2 & H3 & H4 & _).
    simpl. rewrite H1, H2, H4, ExporterStatusOps.from_to_proto. split_and!; [done.. | lia | done].
  - destruct (update_status st1 m1 s) as [s1|] eqn:E; [| done].
    pose proof (update_all_version _ _ _ H) as Hv1.
    apply update_status_eq in E. destruct E as (H1 & _ & H3 & _ & _).
    destruct (IH s1 H Hv1) as (? & ? & Hver & Hprev). split_and!; auto; [lia |].
    rewrite Hprev. destruct us as [|u us]; simpl; [by rewrite H1 |].
    destruct (last (u :: us)) eqn:El; [done |]. by apply last_None in El.
Qed.

Lemma driver_call_allowed s :
  check_status_for_driver_call s = None <->
  current_status s = LEASE_READY \/ current_status s = BEFORE_LEASE_HOOK \/
  current_status s = AFTER_LEASE_HOOK.
Proof.
  unfold check_status_for_driver_call, allowed_statuses.
  case_bool_decide as H; [| split; [done |]; intros; exfalso; apply H; set_solver].
  split; [set_solver | done].
Qed.

(** *** Log routing *)

Definition log_bounded (h : LogHandler) : Prop := length (log_queue h) <= log_maxlen h.

Lemma enqueue_bounded h r : log_bounded (enqueue h r).
Proof. unfold log_bounded. simpl. rewrite length_drop, length_app. simpl. lia. Qed.

Definition emit_all (rs : list LogRecord) (h : LogHandler) : LogHandler :=
  fold_left emit rs h.

Lemma emit_table h r :
  log_maxlen (emit h r) = log_maxlen h /\ log_source (emit h r) = log_source h /\
  child_handlers (emit h r) = child_handlers h.
Proof. done. Qed.

Lemma prepare_table h h' r :
  log_source h = log_source h' -> child_handlers h = child_handlers h' ->
  prepare h r = prepare h' r.
Proof. unfold prepare, get_source_for_record. by intros -> ->. Qed.

(** The queue holds the newest [maxlen] entries, in order. *)
Lemma emit_all_queue rs h :
  log_bounded h ->
  log_queue (emit_all rs h) =
    let all := log_queue h ++ map (prepare h) rs in
    drop (length all - log_maxlen h) all.
Proof.
  revert h. induction rs as [|r rs IH]; intros h Hb; simpl.
  - rewrite app_nil_r. unfold log_bounded in Hb.
    replace (length (log_queue h) - log_maxlen h) with 0 by lia. by rewrite drop_0.
  - unfold emit_all in *. simpl. rewrite IH by apply enqueue_bounded. simpl.
    set (q := log_queue h) in *. set (n := log_maxlen h) in *.
    set (x := prepare h r). set (ms := map (prepare h) rs).
    rewrite (map_ext _ (prepare h)) by (intros; by apply prepare_table). fold ms.
    rewrite !length_app, length_drop, length_app. simpl.
    rewrite <- (drop_app_le (q ++ [x]) ms) by (rewrite length_app; simpl; lia).
    rewrite drop_drop, <- app_assoc. simpl. f_equal.
    unfold log_bounded in Hb. fold q n in Hb. lia.
Qed.

Lemma context_log_source_restores {A} name src (body : LogHandler -> LogHandler * A) h :
  dict_get name (child_handlers h) = None ->
  (forall h0, child_handlers (body h0).1 = child_handlers h0) ->
  child_handlers (context_log_source name src body h).1 = child_handlers h.
Proof.
  intros Hnew Hbody. unfold context_log_source.
  pose proof (Hbody (add_child_handler name src h)) as Hb.
  destruct (body (add_child_handler name src h)) as [h' a]. simpl in *. rewrite Hb.
  revert Hnew. generalize (child_handlers h) as d. clear.
  induction d as [|[k v] d IH]; simpl.
  - by rewrite String.eqb_refl.
  - destruct (String.eqb_spec name k) as [->|Hne]; [done |]. intros Hnew. simpl.
    destruct (String.eqb_spec name k); [done |]. by rewrite IH.
Qed.
