(* ===== verification/StatusMonitor.v ===== *)
(** * The client's status monitor

    [client/status_monitor.py]: a background task polls [GetStatus], caches the
    status, counts the transitions it missed and wakes the tasks that wait for a
    status. An [Event] that is set and replaced at once is modelled by a
    generation: the event captured at generation [g] is set when the current
    generation is past [g].

    Times are in milliseconds. *)

From stdpp Require Import base list strings.
From Stdlib Require Import ZArith Lia.
From S2P Require Import Prelude Enums Session Coroutine.

Module Monitor.

Open Scope Z_scope.

(** ** State *)

Record StatusMonitor := mkStatusMonitor {
  poll_interval : Z;
  get_status_unsupported : bool;
  cur_status : option ExporterStatus;
  message : string;
  version : Z;
  prev_status : option ExporterStatus;
  status_events : list (ExporterStatus * nat);
  any_change : nat;
  missed_transitions : Z;
  callbacks : nat;
  running : bool;
  stop_event : list bool;
  poll_task_started : bool;
  active_waiters : Z;
  connection_lost : bool
}.

#[export] Instance set_poll_interval : Setter poll_interval := fun u r =>
  mkStatusMonitor (u (poll_interval r)) (get_status_unsupported r) (cur_status r)
    (message r) (version r) (prev_status r) (status_events r) (any_change r)
    (missed_transitions r) (callbacks r) (running r) (stop_event r)
    (poll_task_started r) (active_waiters r) (connection_lost r).
#[export] Instance set_get_status_unsupported : Setter get_status_unsupported := fun u r =>
  mkStatusMonitor (poll_interval r) (u (get_status_unsupported r)) (cur_status r)
    (message r) (version r) (prev_status r) (status_events r) (any_change r)
    (missed_transitions r) (callbacks r) (running r) (stop_event r)
    (poll_task_started r) (active_waiters r) (connection_lost r).
#[export] Instance set_cur_status : Setter cur_status := fun u r =>
  mkStatusMonitor (poll_interval r) (get_status_unsupported r) (u (cur_status r))
    (message r) (version r) (prev_status r) (status_events r) (any_change r)
    (missed_transitions r) (callbacks r) (running r) (stop_event r)
    (poll_task_started r) (active_waiters r) (connection_lost r).
#[export] Instance set_message : Setter message := fun u r =>
  mkStatusMonitor (poll_interval r) (get_status_unsupported r) (cur_status r) (u
    (message r)) (version r) (prev_status r) (status_events r) (any_change r)
    (missed_transitions r) (callbacks r) (running r) (stop_event r)
    (poll_task_started r) (active_waiters r) (connection_lost r).
#[export] Instance set_version : Setter version := fun u r =>
  mkStatusMonitor (poll_interval r) (get_status_unsupported r) (cur_status r)
    (message r) (u (version r)) (prev_status r) (status_events r) (any_change r)
    (missed_transitions r) (callbacks r) (running r) (stop_event r)
    (poll_task_started r) (active_waiters r) (connection_lost r).
#[export] Instance set_prev_status : Setter prev_status := fun u r =>
  mkStatusMonitor (poll_interval r) (get_status_unsupported r) (cur_status r)
    (message r) (version r) (u (prev_status r)) (status_events r) (any_change r)
    (missed_transitions r) (callbacks r) (running r) (stop_event r)
    (poll_task_started r) (active_waiters r) (connection_lost r).
#[export] Instance set_status_events : Setter status_events := fun u r =>
  mkStatusMonitor (poll_interval r) (get_status_unsupported r) (cur_status r)
    (message r) (version r) (prev_status r) (u (status_events r)) (any_change r)
    (missed_transitions r) (callbacks r) (running r) (stop_event r)
    (poll_task_started r) (active_waiters r) (connection_lost r).
#[export] Instance set_any_change : Setter any_change := fun u r =>
  mkStatusMonitor (poll_interval r) (get_status_unsupported r) (cur_status r)
    (message r) (version r) (prev_status r) (status_events r) (u (any_change r))
    (missed_transitions r) (callbacks r) (running r) (stop_event r)
    (poll_task_started r) (active_waiters r) (connection_lost r).
#[export] Instance set_missed_transitions : Setter missed_transitions := fun u r =>
  mkStatusMonitor (poll_interval r) (get_status_unsupported r) (cur_status r)
    (message r) (version r) (prev_status r) (status_events r) (any_change r) (u
    (missed_transitions r)) (callbacks r) (running r) (stop_event r)
    (poll_task_started r) (active_waiters r) (connection_lost r).
#[export] Instance set_callbacks : Setter callbacks := fun u r =>
  mkStatusMonitor (poll_interval r) (get_status_unsupported r) (cur_status r)
    (message r) (version r) (prev_status r) (status_events r) (any_change r)
    (missed_transitions r) (u (callbacks r)) (running r) (stop_event r)
    (poll_task_started r) (active_waiters r) (connection_lost r).
#[export] Instance set_running : Setter running := fun u r =>
  mkStatusMonitor (poll_interval r) (get_status_unsupported r) (cur_status r)
    (message r) (version r) (prev_status r) (status_events r) (any_change r)
    (missed_transitions r) (callbacks r) (u (running r)) (stop_event r)
    (poll_task_started r) (active_waiters r) (connection_lost r).
#[export] Instance set_stop_event : Setter stop_event := fun u r =>
  mkStatusMonitor (poll_interval r) (get_status_unsupported r) (cur_status r)
    (message r) (version r) (prev_status r) (status_events r) (any_change r)
    (missed_transitions r) (callbacks r) (running r) (u (stop_event r))
    (poll_task_started r) (active_waiters r) (connection_lost r).
#[export] Instance set_poll_task_started : Setter poll_task_started := fun u r =>
  mkStatusMonitor (poll_interval r) (get_status_unsupported r) (cur_status r)
    (message r) (version r) (prev_status r) (status_events r) (any_change r)
    (missed_transitions r) (callbacks r) (running r) (stop_event r) (u
    (poll_task_started r)) (active_waiters r) (connection_lost r).
#[export] Instance set_active_waiters : Setter active_waiters := fun u r =>
  mkStatusMonitor (poll_interval r) (get_status_unsupported r) (cur_status r)
    (message r) (version r) (prev_status r) (status_events r) (any_change r)
    (missed_transitions r) (callbacks r) (running r) (stop_event r)
    (poll_task_started r) (u (active_waiters r)) (connection_lost r).
#[export] Instance set_connection_lost : Setter connection_lost := fun u r =>
  mkStatusMonitor (poll_interval r) (get_status_unsupported r) (cur_status r)
    (message r) (version r) (prev_status r) (status_events r) (any_change r)
    (missed_transitions r) (callbacks r) (running r) (stop_event r)
    (poll_task_started r) (active_waiters r) (u (connection_lost r)).

Definition slow_poll_interval : Z := 5000.
Definition critical_poll_interval : Z := 100.

(** [__init__] *)
Definition new_monitor (interval : Z) (unsupported : bool) : StatusMonitor :=
  mkStatusMonitor interval unsupported None "" 0 None [] 0 0 0 false [false] false 0 false.

Definition on_status_change (m : StatusMonitor) : StatusMonitor := m <| callbacks ::= S |>.

(** [self._any_change_event.set(); self._any_change_event = Event()] *)
Definition fire_any_change (m : StatusMonitor) : StatusMonitor := m <| any_change ::= S |>.

Definition signal_unsupported (m : StatusMonitor) : StatusMonitor :=
  fire_any_change
    (m <| get_status_unsupported := true |> <| cur_status := Some LEASE_READY |>
       <| running := false |>).

(** The entry of [_status_events] for a status, set and replaced. *)
Definition fire_status_event (st : ExporterStatus) (m : StatusMonitor) : StatusMonitor :=
  m <| status_events ::= map (fun e => if decide (fst e = st) then (fst e, S (snd e)) else e) |>.

Definition add_status_event (st : ExporterStatus) (m : StatusMonitor) : StatusMonitor :=
  if existsb (fun e => bool_decide (fst e = st)) (status_events m) then m
  else m <| status_events ::= fun l => l ++ [(st, 0%nat)] |>.

(** ** One poll *)

Inductive code := UNIMPLEMENTED | UNAVAILABLE | DEADLINE_EXCEEDED | OTHER.

(** How [GetStatus] ended. *)
Inductive poll_result :=
| Response (r : GetStatusResponse)
| NotImplemented
| RpcFailed (c : code)
| Failed.

(** Consecutive failures, local to [_poll_loop]. *)
Record retries := mkRetries { deadline_retries : nat; unavailable_retries : nat }.

Inductive after_poll := PBreak | PContinue | PSleep.

(** A response that decodes: the cache is updated; the result tells the callbacks'
    arguments when the status changed. *)
Definition apply_response (new_status : ExporterStatus) (previous : option ExporterStatus)
    (r : GetStatusResponse) (m : StatusMonitor)
    : StatusMonitor * option (ExporterStatus * option ExporterStatus) :=
  let m := m <| connection_lost := false |> in
  let new_version := resp_status_version r in
  let m :=
    if (0 <? version m) && (version m + 1 <? new_version)
    then m <| missed_transitions ::= fun n => n + (new_version - version m - 1) |>
    else m in
  let old_status := cur_status m in
  let m := m <| cur_status := Some new_status |> <| message := resp_message r |>
             <| version := new_version |> <| prev_status := previous |> in
  if decide (old_status = Some new_status) then (m, None)
  else (fire_any_change (fire_status_event new_status m), Some (new_status, old_status)).

(** [ExporterStatus.from_proto] of both fields; it raises on an unknown value. *)
Definition decode_response (r : GetStatusResponse)
    : option (ExporterStatus * option ExporterStatus) :=
  match ExporterStatusOps.from_proto (resp_status r) with
  | None => None
  | Some st =>
      match resp_previous_status r with
      | None => Some (st, None)
      | Some p => match ExporterStatusOps.from_proto p with
                  | None => None
                  | Some pst => Some (st, Some pst)
                  end
      end
  end.

(** The [try] statement of the loop. *)
Definition poll (res : poll_result) (m : StatusMonitor) (c : retries)
    : StatusMonitor * retries * after_poll * option (ExporterStatus * option ExporterStatus) :=
  match res with
  | Response r =>
      match decode_response r with
      | None => (m, c, PSleep, None)
      | Some (st, previous) =>
          let '(m', change) := apply_response st previous r m in
          (m', mkRetries 0 0, PSleep, change)
      end
  | NotImplemented | RpcFailed UNIMPLEMENTED => (signal_unsupported m, c, PBreak, None)
  | RpcFailed UNAVAILABLE =>
      (m, mkRetries (deadline_retries c) (S (unavailable_retries c)), PSleep, None)
  | RpcFailed DEADLINE_EXCEEDED =>
      let c := mkRetries (S (deadline_retries c)) 0 in
      if (20 <=? deadline_retries c)%nat
      then (fire_any_change (m <| connection_lost := true |> <| running := false |>), c,
            PBreak, None)
      else (m, c, PContinue, None)
  | RpcFailed OTHER | Failed => (m, c, PSleep, None)
  end.

Definition interval_of (m : StatusMonitor) : Z :=
  if 0 <? active_waiters m then critical_poll_interval
  else if decide (cur_status m = Some LEASE_READY) then slow_poll_interval
  else poll_interval m.

(** ** The coroutines *)

Inductive mreq := QGetStatus | QCallback (i : nat) (change : ExporterStatus * option ExporterStatus).

(** A callback that raises is logged and swallowed: its answer says nothing. *)
Definition manswer (q : mreq) : Type :=
  match q with QGetStatus => poll_result | QCallback _ _ => unit end.

(** A waiter is named by [id]; [timed] tells whether it was given a timeout. A
    blocked one holds the event it captured, by its generation. *)
Inductive mtask :=
| TPollLoop
| TPoll (c : retries)
| TWaitForStatus (id : nat) (target : ExporterStatus) (timed : bool)
| TWaitForAnyOf (id : nat) (targets : list ExporterStatus) (timed : bool)
| TBlocked (id : nat) (target : ExporterStatus) (timed : bool) (captured : nat)
| TBlockedAny (id : nat) (targets : list ExporterStatus) (timed : bool) (captured : nat).

(** [RBool] is what [wait_for_status] returned, [RStatus] what [wait_for_any_of]
    did, with the cached status at that moment. *)
Inductive wait_result :=
| RBool (target : ExporterStatus) (b : bool) (cached : option ExporterStatus)
| RStatus (targets : list ExporterStatus) (s : option ExporterStatus)
    (cached : option ExporterStatus).

Record MWorld := mkMWorld { mon : StatusMonitor; results : list (nat * wait_result) }.

#[export] Instance set_mon : Setter mon := fun u r =>
  mkMWorld (u (mon r)) (results r).
#[export] Instance set_results : Setter results := fun u r =>
  mkMWorld (mon r) (u (results r)).

Definition P (A : Type) : Type := prog MWorld manswer mtask A.

Definition upd {A} (f : StatusMonitor -> StatusMonitor) (k : P A) : P A :=
  Atom (fun w => w <| mon ::= f |>) (fun _ => k).
Definition get {A B} (f : StatusMonitor -> A) (k : A -> P B) : P B :=
  Atom (fun w => w) (fun w => k (f (mon w))).
Definition never (w : MWorld) : bool := false.

(** *** [_poll_loop] *)

(** The loop condition; the next round is a further task. *)
Definition next_poll (c : retries) : P unit :=
  get running (fun r => if r then Spawn (TPoll c) (Ret tt) else Ret tt).

(** [for callback in self._on_status_change], those registered when it starts. *)
Fixpoint run_callbacks (n i : nat) (change : ExporterStatus * option ExporterStatus)
    (k : P unit) : P unit :=
  match n with
  | O => k
  | S n' => Call never (QCallback i change) (fun _ => run_callbacks n' (S i) change k)
  end.

(** Waiting for the next poll in chunks of half a second. The current stop event
    is captured at the start of each chunk. [n] rounds are enough when [n] is at
    least [remaining]. *)
Fixpoint sleep_loop (n : nat) (interval remaining : Z) (k : bool -> P unit) : P unit :=
  if remaining <=? 0 then k false
  else
    match n with
    | O => k false
    | S n' =>
        get (fun m => pred (length (stop_event m))) (fun i =>
        Wait (fun _ => true) (fun w => bool_decide (stop_event (mon w) !! i = Some true))
          (fun stopped =>
             if stopped then k true
             else get (fun m => (0 <? active_waiters m) && (critical_poll_interval <? interval))
                    (fun hurry =>
                       if hurry then k false
                       else sleep_loop n' interval (remaining - Z.min 500 remaining) k)))
    end.

Definition poll_sleep (c : retries) : P unit :=
  get interval_of (fun interval =>
    sleep_loop (Z.to_nat interval) interval interval
      (fun stop_requested => if stop_requested then Ret tt else next_poll c)).

Definition poll_round (c : retries) : P unit :=
  Call never QGetStatus (fun a =>
    match a with
    | None => Ret tt
    | Some res =>
        Atom (fun w => w <| mon ::= fun m => (poll res m c).1.1.1 |>) (fun w =>
          let '(m', c', next, change) := poll res (mon w) c in
          let continue_ := match next with
                           | PBreak => Ret tt
                           | PContinue => next_poll c'
                           | PSleep => poll_sleep c'
                           end in
          match change with
          | Some ch => run_callbacks (callbacks m') 0 ch continue_
          | None => continue_
          end)
    end).

Definition poll_loop : P unit :=
  upd (fun m => m <| poll_task_started := true |>)
    (get get_status_unsupported (fun u =>
       if u then upd signal_unsupported (Ret tt) else next_poll (mkRetries 0 0))).

(** *** Waiters *)

(** Leaving [wait_loop]: its [finally], then the result. *)
Definition keep_result (id : nat) (r : option ExporterStatus -> wait_result) : P unit :=
  Atom (fun w => w <| results ::= fun l => l ++ [(id, r (cur_status (mon w)))] |>)
    (fun _ => Ret tt).

Definition leave (id : nat) (r : option ExporterStatus -> wait_result) : P unit :=
  upd (fun m => m <| active_waiters ::= fun n => n - 1 |>) (keep_result id r).

(** The verification poll of a connection marked as lost: [inl] returns at once
    (with the status it found, if any), [inr] goes on. *)
Definition verify (k : (option ExporterStatus + unit) -> P unit) : P unit :=
  get connection_lost (fun lost =>
    if lost then
      Call never QGetStatus (fun a =>
        match a with
        | Some (Response r) =>
            upd (fun m => m <| connection_lost := false |>)
              (match ExporterStatusOps.from_proto (resp_status r) with
               | None => k (inl None)
               | Some st =>
                   upd (fun m => m <| cur_status := Some st |> <| message := resp_message r |>
                                   <| version := resp_status_version r |>)
                     (k (inl (Some st)))
               end)
        | Some (RpcFailed UNAVAILABLE) | Some (RpcFailed DEADLINE_EXCEEDED) => k (inl None)
        | Some (RpcFailed _) => k (inr tt)
        | Some NotImplemented | Some Failed => k (inl None)
        | None => Ret tt
        end)
    else k (inr tt)).

(** [wait_loop] of [wait_for_status], from one wake-up to the next. *)
Definition wait_loop (id : nat) (target : ExporterStatus) (timed : bool) : P unit :=
  get (fun m => running m && negb (connection_lost m)) (fun go =>
    if negb go then leave id (RBool target false)
    else
      get cur_status (fun s =>
        if decide (s = Some target) then leave id (RBool target true)
        else
          get any_change (fun current_event =>
          get cur_status (fun s =>
            if decide (s = Some target) then leave id (RBool target true)
            else
              get connection_lost (fun lost =>
                if lost then leave id (RBool target false)
                else Spawn (TBlocked id target timed current_event) (Ret tt)))))).

Definition blocked (id : nat) (target : ExporterStatus) (timed : bool) (captured : nat) : P unit :=
  Wait (fun _ => timed) (fun w => (captured <? any_change (mon w))%nat)
    (fun woken => if woken then wait_loop id target timed else leave id (RBool target false)).

Definition wait_for_status (id : nat) (target : ExporterStatus) (timed : bool) : P unit :=
  let wait :=
    get cur_status (fun s =>
      if decide (s = Some target) then keep_result id (RBool target true)
      else
        upd (add_status_event target)
          (upd (fun m => m <| active_waiters ::= fun n => n + 1 |>)
             (wait_loop id target timed))) in
  verify (fun v =>
    match v with
    | inl (Some st) => if decide (st = target) then keep_result id (RBool target true) else wait
    | inl None => keep_result id (RBool target false)
    | inr _ => wait
    end).

(** [for target in targets: if self._current_status == target: return target] *)
Definition first_target (targets : list ExporterStatus) (s : option ExporterStatus)
    : option ExporterStatus :=
  match s with
  | Some st => if bool_decide (st ∈ targets) then Some st else None
  | None => None
  end.

Definition wait_for_first (id : nat) (targets : list ExporterStatus) (timed : bool) : P unit :=
  get (fun m => running m && negb (connection_lost m)) (fun go =>
    if negb go then
      get cur_status (fun s => leave id (RStatus targets (first_target targets s)))
    else
      get cur_status (fun s =>
        match first_target targets s with
        | Some t => leave id (RStatus targets (Some t))
        | None =>
            get any_change (fun current_event =>
            get cur_status (fun s =>
              match first_target targets s with
              | Some t => leave id (RStatus targets (Some t))
              | None =>
                  get connection_lost (fun lost =>
                    if lost then leave id (RStatus targets None)
                    else Spawn (TBlockedAny id targets timed current_event) (Ret tt))
              end))
        end)).

Definition blocked_any (id : nat) (targets : list ExporterStatus) (timed : bool)
    (captured : nat) : P unit :=
  Wait (fun _ => timed) (fun w => (captured <? any_change (mon w))%nat)
    (fun woken => if woken then wait_for_first id targets timed
                  else leave id (RStatus targets None)).

Definition wait_for_any_of (id : nat) (targets : list ExporterStatus) (timed : bool) : P unit :=
  let wait :=
    get cur_status (fun s =>
      match first_target targets s with
      | Some t => keep_result id (RStatus targets (Some t))
      | None =>
          upd (fun m => fold_left (fun acc t => add_status_event t acc) targets m)
            (upd (fun m => m <| active_waiters ::= fun n => n + 1 |>)
               (wait_for_first id targets timed))
      end) in
  verify (fun v =>
    match v with
    | inl (Some st) =>
        if bool_decide (st ∈ targets) then keep_result id (RStatus targets (Some st)) else wait
    | inl None => keep_result id (RStatus targets None)
    | inr _ => wait
    end).

Definition mbody (n : mtask) : P unit :=
  match n with
  | TPollLoop => poll_loop
  | TPoll c => poll_round c
  | TWaitForStatus id target timed => wait_for_status id target timed
  | TWaitForAnyOf id targets timed => wait_for_any_of id targets timed
  | TBlocked id target timed g => blocked id target timed g
  | TBlockedAny id targets timed g => blocked_any id targets timed g
  end.

(** ** The client: it starts and stops the monitor and waits on it *)

Definition start_monitor (m : StatusMonitor) : StatusMonitor * list mtask :=
  if running m then (m, [])
  else (m <| running := true |> <| stop_event ::= fun l => l ++ [false] |>
          <| poll_task_started := false |>, [TPollLoop]).

Definition stop_monitor (m : StatusMonitor) : StatusMonitor :=
  m <| running := false |>
    <| stop_event ::= fun l => alter (fun _ => true) (pred (length l)) l |>.

Inductive client_step : MWorld -> MWorld -> list mtask -> Prop :=
| cs_start w : client_step w (w <| mon := fst (start_monitor (mon w)) |>)
                 (snd (start_monitor (mon w)))
| cs_stop w : client_step w (w <| mon ::= stop_monitor |>) []
| cs_callback w : client_step w (w <| mon ::= on_status_change |>) []
| cs_wait w id target timed : client_step w w [TWaitForStatus id target timed]
| cs_wait_any w id targets timed : client_step w w [TWaitForAnyOf id targets timed].

End Monitor.
