(* ===== verification/StatusMonitorCorrect.v ===== *)
(** * What the status monitor guarantees

    For every interleaving of the poll loop with the tasks that wait on it and with
    the client that starts and stops it: results are sound, waiters are counted
    exactly. For the poll itself: which failures mark the connection as lost, and
    that the missed transitions are those of the session it polls. *)

From stdpp Require Import base list strings.
From Stdlib Require Import ZArith Lia.
From S2P Require Import Prelude Enums Session Coroutine StatusMonitor.

Import Monitor.
Open Scope Z_scope.

(** ** Soundness of the results and the count of waiters *)

Definition result_ok (r : wait_result) : Prop :=
  match r with
  | RBool target true cached => cached = Some target
  | RBool _ false _ => True
  | RStatus targets (Some s) cached => cached = Some s /\ s ∈ targets
  | RStatus _ None _ => True
  end.

Definition results_ok (w : MWorld) : Prop := Forall (fun r => result_ok (snd r)) (results w).

(** One token for each blocked waiter. *)
Definition J_wait (t : nat) (w : MWorld) : Prop :=
  active_waiters (mon w) = Z.of_nat t /\ results_ok w.

Definition init_wait (n : mtask) : nat :=
  match n with TBlocked _ _ _ _ | TBlockedAny _ _ _ _ => 1 | _ => 0 end.

Abbreviation Rely_any := (fun _ _ : MWorld => True).
Abbreviation wpw := (wp J_wait Rely_any init_wait).

(** The poll loop touches neither. *)
Definition poll_keeps (w w' : MWorld) : Prop :=
  active_waiters (mon w') = active_waiters (mon w) /\ results w' = results w.

Definition no_waiter (n : mtask) : Prop := init_wait n = 0%nat.

Lemma poll_active res m c : active_waiters (poll res m c).1.1.1 = active_waiters m.
Proof.
  unfold poll. destruct res as [r| |[]|]; try done.
  - destruct (decode_response r) as [[st p]|]; [| done]. unfold apply_response.
    destruct (_ && _); simpl; by destruct (decide _).
  - by destruct (20 <=? _)%nat.
Qed.

Abbreviation quiet := (guar poll_keeps no_waiter).

Lemma quiet_next_poll c : quiet (next_poll c).
Proof. intros w. split; [done |]. by destruct (running (mon w)). Qed.

Lemma quiet_callbacks n i ch k : quiet k -> quiet (run_callbacks n i ch k).
Proof. intros Hk. revert i. induction n as [|n IH]; intros i; cbn [run_callbacks]; [done |]. intros a. apply IH. Qed.

Lemma quiet_sleep n interval remaining k :
  (forall b, quiet (k b)) -> quiet (sleep_loop n interval remaining k).
Proof.
  intros Hk. revert remaining. induction n as [|n IH]; intros remaining; cbn [sleep_loop];
    destruct (_ <=? _); auto.
  intros w. split; [done |]. intros [].
  - apply Hk.
  - intros w'. split; [done |]. destruct (_ && _); [apply Hk | apply IH].
Qed.

Lemma quiet_poll_round c : quiet (poll_round c).
Proof.
  intros [res|]; [| exact I]. intros w. split.
  - split; [apply poll_active | done].
  - destruct (poll res (mon w) c) as [[[m' c'] next] change].
    assert (quiet (match next with PBreak => Ret tt | PContinue => next_poll c'
                   | PSleep => poll_sleep c' end)) as Hk.
    { destruct next; [exact I | apply quiet_next_poll |].
      intros w'. split; [done |]. apply quiet_sleep. intros []; [exact I | apply quiet_next_poll]. }
    destruct change; [by apply quiet_callbacks | done].
Qed.

Lemma quiet_poll_loop : quiet poll_loop.
Proof.
  intros w. split; [done |]. intros w'. split; [done |].
  destruct (get_status_unsupported _); [| apply quiet_next_poll]. intros w2. by split.
Qed.

Lemma wp_quiet (p : P unit) r w : quiet p -> J_wait r w -> wpw p (fun _ r w => J_wait r w) r w.
Proof.
  intros Hp HJ. eapply (wp_frame _ _ _ poll_keeps no_waiter 0); try done.
  - intros t w1 w2 [H1 H2] [H3 H4]. unfold J_wait, results_ok. by rewrite H1, H2.
  - by rewrite Nat.add_0_r.
  - intros a r' w'. by rewrite Nat.add_0_r.
Qed.

(** Recording a result. *)
Lemma wp_keep id res r w :
  J_wait r w -> result_ok (res (cur_status (mon w))) ->
  wpw (keep_result id res) (fun _ r w => J_wait r w) r w.
Proof.
  intros [H1 H2] Hr. split; [done |]. unfold results_ok. simpl.
  apply Forall_app. split; [done |]. by constructor.
Qed.

Lemma wp_leave id res r w :
  J_wait (r + 1) w -> result_ok (res (cur_status (mon w))) ->
  wpw (leave id res) (fun _ r w => J_wait r w) r w.
Proof.
  intros [H1 H2] Hr. apply (wp_keep id res r (w <| mon ::= fun m => m <| active_waiters ::= fun n => n - 1 |> |>)).
  - split; [simpl; lia | done].
  - done.
Qed.

Lemma wp_wait_loop id target timed r w :
  J_wait (r + 1) w -> wpw (wait_loop id target timed) (fun _ r w => J_wait r w) r w.
Proof.
  intros HJ. unfold wait_loop, get. cbn [wp].
  destruct (negb _); [by apply wp_leave |]. cbn [wp].
  destruct (decide (cur_status (mon w) = Some target)); [by apply wp_leave |]. cbn [wp].
  destruct (decide (cur_status (mon w) = Some target)); [by apply wp_leave |]. cbn [wp].
  destruct (connection_lost (mon w)); [by apply wp_leave | done].
Qed.

Lemma first_target_ok targets s t :
  first_target targets s = Some t -> s = Some t /\ t ∈ targets.
Proof. unfold first_target. destruct s; [| done]. case_bool_decide; naive_solver. Qed.

Lemma wp_wait_for_first id targets timed r w :
  J_wait (r + 1) w -> wpw (wait_for_first id targets timed) (fun _ r w => J_wait r w) r w.
Proof.
  intros HJ. unfold wait_for_first, get. cbn [wp].
  destruct (negb _); cbn [wp].
  { apply wp_leave; [done |]. destruct (first_target _ _) eqn:E; [| done]. by apply first_target_ok. }
  destruct (first_target targets (cur_status (mon w))) eqn:E; cbn [wp].
  { apply wp_leave; [done |]. by apply first_target_ok. }
  destruct (first_target targets (cur_status (mon w))) eqn:E2; cbn [wp]; [done |].
  destruct (connection_lost (mon w)); [by apply wp_leave | done].
Qed.

(** The verification poll: it goes on in a world with the invariant, where the
    status it hands on is the cached one. *)
Lemma wp_verify k r w :
  (forall v r w, J_wait r w -> match v with inl (Some st) => cur_status (mon w) = Some st | _ => True end ->
     wpw (k v) (fun _ r w => J_wait r w) r w) ->
  J_wait r w -> wpw (verify k) (fun _ r w => J_wait r w) r w.
Proof.
  intros Hk HJ. unfold verify, get. cbn [wp]. destruct (connection_lost (mon w)); [| by apply Hk].
  cbn [wp]. exists 0%nat. rewrite Nat.add_0_r. split; [done |].
  intros r' w' _ HJ'. rewrite Nat.add_0_r in HJ'. split; [| done].
  intros res. destruct res as [resp| |[]|]; try (by apply Hk).
  unfold upd. cbn [wp].
  destruct (ExporterStatusOps.from_proto (resp_status resp)); [| by apply Hk].
  by apply Hk.
Qed.

Lemma add_event_active st m : active_waiters (add_status_event st m) = active_waiters m.
Proof. unfold add_status_event. by destruct (existsb _ _). Qed.

Lemma add_events_active targets m :
  active_waiters (fold_left (fun acc t => add_status_event t acc) targets m) = active_waiters m.
Proof.
  revert m. induction targets as [|t ts IH]; intros m; simpl; [done |].
  by rewrite IH, add_event_active.
Qed.

(** Entering the wait: the events are created and the waiter is counted. *)
Lemma wp_enter f r w (p : P unit) :
  (forall m, active_waiters (f m) = active_waiters m) ->
  (forall r w, J_wait (r + 1) w -> wpw p (fun _ r w => J_wait r w) r w) ->
  J_wait r w ->
  wpw (upd f (upd (fun m => m <| active_waiters ::= fun n => n + 1 |>) p))
    (fun _ r w => J_wait r w) r w.
Proof.
  intros Hf Hp [H1 H2]. apply Hp. split; [| done]. simpl. rewrite Hf. lia.
Qed.

Lemma wait_task n r w :
  J_wait (r + init_wait n) w -> wpw (mbody n) (fun _ r w => J_wait r w) r w.
Proof.
  destruct n as [|c|id target timed|id targets timed|id target timed g|id targets timed g];
    cbn [mbody init_wait]; rewrite ?Nat.add_0_r; intros HJ.
  - apply wp_quiet; [apply quiet_poll_loop | done].
  - apply wp_quiet; [apply quiet_poll_round | done].
  - apply wp_verify; [| done]. clear r w HJ. intros v r w HJ Hv.
    pose proof (wp_enter (add_status_event target) r w _ (add_event_active target)
      (wp_wait_loop id target timed) HJ) as Hwait.
    destruct v as [[st|]|]; [| by apply wp_keep |];
      [destruct (decide (st = target)) as [->|]; [by apply wp_keep |] |];
      unfold get; cbn [wp]; (destruct (decide _); [by apply wp_keep | exact Hwait]).
  - apply wp_verify; [| done]. clear r w HJ. intros v r w HJ Hv.
    pose proof (wp_enter _ r w _ (add_events_active targets)
      (wp_wait_for_first id targets timed) HJ) as Hwait.
    destruct v as [[st|]|]; [| by apply wp_keep |];
      [case_bool_decide; [by apply wp_keep |] |];
      unfold get; cbn [wp];
      (destruct (first_target _ _) eqn:E; [apply wp_keep; [done | by apply first_target_ok] |
                                           exact Hwait]).
  - exists 1%nat. split; [done |]. intros r' w' _ HJ'. split; intros _.
    + by apply wp_wait_loop.
    + by apply wp_leave.
  - exists 1%nat. split; [done |]. intros r' w' _ HJ'. split; intros _.
    + by apply wp_wait_for_first.
    + by apply wp_leave.
Qed.

Section System.

(** A new monitor: nothing runs yet. *)
Context (interval : Z) (unsupported : bool).

Definition initial : MWorld := mkMWorld (new_monitor interval unsupported) [].

Abbreviation reachable_of := (reachable mbody client_step initial []).

Lemma client_keeps t w w' ns :
  J_wait t w -> client_step w w' ns -> J_wait (t + sum_list_with init_wait ns) w'.
Proof.
  intros [H1 H2] Hs. destruct Hs; simpl; rewrite ?Nat.add_0_r; try by split.
  unfold start_monitor. destruct (running (mon w)); simpl; rewrite ?Nat.add_0_r; by split.
Qed.

Lemma guar_any n : guar Rely_any (fun _ => True) (mbody n).
Proof. generalize (mbody n). intros p. induction p; simpl; auto. Qed.

(** Whatever the interleaving, a wait that reports success reports the status
    the monitor holds at that moment: [wait_for_status] returns [True] only with the
    target cached, [wait_for_any_of] only one of its targets, the cached one. *)
Theorem wait_results_sound c id r :
  reachable_of c -> In (id, r) (results (world c)) -> result_ok r.
Proof.
  intros Hr Hin.
  destruct (sys_invariant mbody client_step J_wait Rely_any init_wait) with
    (w0 := initial) (ns0 := @nil mtask) (c := c) as [(t & _ & Hok) _];
    try done; try apply guar_any; try apply wait_task; try apply client_keeps.
  - split; [done | constructor].
  - unfold results_ok in Hok. rewrite Forall_forall in Hok.
    apply (Hok (id, r)). by apply list_elem_of_In.
Qed.

(** The count of active waiters, which drives the fast polling, is exact: it is
    never negative, and it is zero again whenever no task is left waiting, whichever
    way the waits ended (reached, timed out, stopped, connection lost). *)
Theorem active_waiters_balanced c :
  reachable_of c ->
  0 <= active_waiters (mon (world c)) /\
  (Forall finished (tasks c) -> active_waiters (mon (world c)) = 0).
Proof.
  intros Hr.
  assert (J_wait (sum_list_with init_wait []) initial) as H0 by (split; [done | constructor]).
  split.
  - destruct (sys_invariant mbody client_step J_wait Rely_any init_wait) with
      (w0 := initial) (ns0 := @nil mtask) (c := c) as [(t & Ht & _) _];
      try done; try apply guar_any; try apply wait_task; try apply client_keeps. lia.
  - intros Hf. destruct (sys_quiescent mbody client_step J_wait Rely_any init_wait) with
      (w0 := initial) (ns0 := @nil mtask) (c := c) as [Ht _];
      try done; try apply guar_any; try apply wait_task; try apply client_keeps.
Qed.

End System.

(** ** Losing the connection *)

(** A run of polls, up to the one that ends the loop. *)
Fixpoint poll_all (rs : list poll_result) (m : StatusMonitor) (c : retries)
    : StatusMonitor * retries :=
  match rs with
  | [] => (m, c)
  | res :: rs' =>
      let '(m', c', next, _) := poll res m c in
      match next with PBreak => (m', c') | _ => poll_all rs' m' c' end
  end.

(** Timeouts since the last response, counting on from [n]. *)
Definition count_timeout (n : nat) (res : poll_result) : nat :=
  match res with
  | Response r => match decode_response r with Some _ => 0 | None => n end
  | RpcFailed DEADLINE_EXCEEDED => S n
  | _ => n
  end.

Definition implemented (res : poll_result) : bool :=
  match res with NotImplemented | RpcFailed UNIMPLEMENTED => false | _ => true end.

Lemma poll_counts res m c m' c' next change :
  implemented res = true -> poll res m c = (m', c', next, change) ->
  deadline_retries c' = count_timeout (deadline_retries c) res /\
  (next = PBreak <-> res = RpcFailed DEADLINE_EXCEEDED /\ (20 <= deadline_retries c')%nat) /\
  (next = PBreak -> connection_lost m' = true) /\
  (next <> PBreak -> connection_lost m = false -> connection_lost m' = false).
Proof.
  intros Hi. unfold poll, count_timeout. destruct res as [r| |[]|]; simpl in Hi; try done.
  - destruct (decode_response r) as [[st p]|].
    + unfold apply_response. destruct (decide _), (_ && _); simpl; intros; simplify_eq;
        simpl; split_and!; naive_solver.
    + intros; simplify_eq; naive_solver.
  - intros; simplify_eq; naive_solver.
  - cbn [deadline_retries]. destruct (20 <=? S (deadline_retries c))%nat eqn:E;
      [apply Nat.leb_le in E | apply Nat.leb_gt in E]; intros; simplify_eq;
      cbn [deadline_retries connection_lost]; split_and!; naive_solver lia.
  - intros; simplify_eq; naive_solver.
  - intros; simplify_eq; naive_solver.
Qed.

Lemma lost_from rs m c :
  connection_lost m = false -> forallb implemented rs = true -> (deadline_retries c < 20)%nat ->
  connection_lost (fst (poll_all rs m c)) = true <->
  exists pre, pre `prefix_of` rs /\ fold_left count_timeout pre (deadline_retries c) = 20%nat.
Proof.
  revert m c. induction rs as [|res rs IH]; intros m c Hl Hi Hc; simpl in Hi.
  - simpl. rewrite Hl. split; [done |]. intros (pre & Hpre & Hn).
    apply prefix_nil_inv in Hpre as ->. simpl in Hn. lia.
  - apply andb_true_iff in Hi as [Hi1 Hi2]. cbn [poll_all].
    destruct (poll res m c) as [[[m' c'] next] change] eqn:E.
    destruct (poll_counts _ _ _ _ _ _ _ Hi1 E) as (Hcnt & Hbr & Hlost & Hok).
    assert (forall pre, fold_left count_timeout (res :: pre) (deadline_retries c) =
                        fold_left count_timeout pre (deadline_retries c')) as Hfold
      by (intros; simpl; by rewrite Hcnt).
    assert (next = PBreak \/ next <> PBreak) as [->|Hne] by (destruct next; auto).
    + simpl. rewrite Hlost by done. split; [intros _ | done].
      destruct Hbr as [Hbr _]. destruct (Hbr eq_refl) as [-> H20]. simpl in Hcnt.
      exists [RpcFailed DEADLINE_EXCEEDED]. split; [by exists rs |]. simpl. lia.
    + assert (deadline_retries c' < 20)%nat as Hc'.
      { destruct (decide (deadline_retries c' < 20)%nat); [done |]. exfalso. apply Hne, Hbr.
        destruct res as [r| |[]|]; simpl in Hcnt; try (exfalso; lia).
        - destruct (decode_response r); exfalso; lia.
        - split; [done | lia]. }
      assert (poll_all rs m' c' = match next with PBreak => (m', c') | _ => poll_all rs m' c' end)
        as <- by (by destruct next).
      rewrite IH by auto. split.
      * intros (pre & Hpre & Hn). exists (res :: pre). split; [by apply prefix_cons |].
        by rewrite Hfold.
      * intros (pre & Hpre & Hn). destruct pre as [|x pre]; [simpl in Hn; lia |].
        apply prefix_cons_inv_1 in Hpre as Hx. apply prefix_cons_inv_2 in Hpre. subst.
        exists pre. split; [done |]. by rewrite <- Hfold.
Qed.

(** The connection is marked as lost exactly when the 20th timeout since the
    last response comes in; no number of UNAVAILABLE or other errors does it. *)
Theorem lost_after_20_timeouts rs m :
  connection_lost m = false -> forallb implemented rs = true ->
  connection_lost (fst (poll_all rs m (mkRetries 0 0))) = true <->
  exists pre, pre `prefix_of` rs /\ fold_left count_timeout pre 0%nat = 20%nat.
Proof. intros Hl Hi. apply (lost_from rs m (mkRetries 0 0)); simpl; [done | done | lia]. Qed.

Lemma lost_after_20_timeouts_witness :
  connection_lost (fst (poll_all (replicate 20 (RpcFailed DEADLINE_EXCEEDED))
    (new_monitor 300 false) (mkRetries 0 0))) = true.
Proof.
  apply (lost_after_20_timeouts (replicate 20 (RpcFailed DEADLINE_EXCEEDED))
           (new_monitor 300 false)); [reflexivity | reflexivity |].
  exists (replicate 20 (RpcFailed DEADLINE_EXCEEDED)). split; [by exists [] | reflexivity].
Defined.

(** The timeouts need not be consecutive, as the comment and the log message of
    the loop say: UNAVAILABLE does not reset their count, so two runs of ten
    timeouts, with any number of UNAVAILABLE answers in between, mark the
    connection as lost. *)
Theorem timeouts_not_consecutive n :
  connection_lost (fst (poll_all
    (replicate 10 (RpcFailed DEADLINE_EXCEEDED) ++ replicate n (RpcFailed UNAVAILABLE) ++
     replicate 10 (RpcFailed DEADLINE_EXCEEDED)) (new_monitor 300 false) (mkRetries 0 0))) = true.
Proof.
  apply lost_from; [done | | simpl; lia |].
  - rewrite !forallb_app. simpl. rewrite andb_true_r. induction n; simpl; auto.
  - eexists. split; [reflexivity |]. rewrite !fold_left_app.
    assert (forall k, fold_left count_timeout (replicate n (RpcFailed UNAVAILABLE)) k = k) as ->.
    { intros k. induction n; simpl; auto. }
    reflexivity.
Qed.

(** ** Polling a session

    The two ends together: an exporter's session whose status is updated, polled by
    a client's monitor through [GetStatus]. *)

Fixpoint apply_updates (ups : list (ExporterStatus * string)) (s : Session) : Session :=
  match ups with
  | [] => s
  | (st, msg) :: ups' => apply_updates ups' (default s (update_status st msg s))
  end.

(** Rounds of updates, each followed by one poll. *)
Fixpoint watch (rounds : list (list (ExporterStatus * string))) (s : Session) (m : StatusMonitor)
    : Session * StatusMonitor :=
  match rounds with
  | [] => (s, m)
  | ups :: rounds' =>
      let s' := apply_updates ups s in
      watch rounds' s' (poll (Response (GetStatus s')) m (mkRetries 0 0)).1.1.1
  end.

Lemma apply_updates_version ups s :
  status_version (apply_updates ups s) = status_version s + Z.of_nat (length ups).
Proof.
  revert s. induction ups as [|[st msg] ups IH]; intros s; cbn [apply_updates]; [simpl; lia |].
  destruct (update_status_total st msg s) as [s' Hs]. rewrite Hs, IH. simpl default.
  destruct (update_status_eq _ _ _ _ Hs) as (_ & _ & Hv & _). rewrite Hv. simpl length. lia.
Qed.

Lemma decode_get_status s :
  decode_response (GetStatus s) = Some (current_status s, previous_status s).
Proof.
  unfold decode_response, GetStatus. simpl. rewrite ExporterStatusOps.from_to_proto.
  destruct (previous_status s); simpl; [by rewrite ExporterStatusOps.from_to_proto | done].
Qed.

Lemma poll_session s m c :
  let m' := (poll (Response (GetStatus s)) m c).1.1.1 in
  cur_status m' = Some (current_status s) /\ version m' = status_version s /\
  prev_status m' = previous_status s /\ message m' = status_message s /\
  missed_transitions m' = missed_transitions m +
    (if (0 <? version m) && (version m + 1 <? status_version s)
     then status_version s - version m - 1 else 0).
Proof.
  cbv zeta. unfold poll. rewrite decode_get_status. unfold apply_response.
  destruct (_ && _); simpl; destruct (decide _); simpl; split_and!; try done; lia.
Qed.

(** End to end, a monitor that has seen a session once keeps up with it: after
    each poll its cached status, version and message are the session's, and the
    transitions it counts as missed are exactly the updates between two polls that
    a later update of the same interval overwrote. *)
Theorem missed_transitions_exact rounds s m :
  0 < version m -> version m = status_version s ->
  cur_status m = Some (current_status s) -> message m = status_message s ->
  let '(s', m') := watch rounds s m in
  cur_status m' = Some (current_status s') /\ version m' = status_version s' /\
  message m' = status_message s' /\
  missed_transitions m' = missed_transitions m +
    foldr Z.add 0 (map (fun ups => Z.of_nat (pred (length ups))) rounds).
Proof.
  revert s m. induction rounds as [|ups rounds IH]; intros s m Hpos Hv Hc Hm; cbn [watch].
  - simpl. split_and!; try done. lia.
  - set (s1 := apply_updates ups s).
    destruct (poll_session s1 m (mkRetries 0 0)) as (H1 & H2 & _ & H4 & H5).
    pose proof (apply_updates_version ups s) as Hver. fold s1 in Hver.
    specialize (IH s1 (poll (Response (GetStatus s1)) m (mkRetries 0 0)).1.1.1).
    destruct (watch rounds s1 _) as [s' m'].
    destruct IH as (I1 & I2 & I3 & I4); [lia | done..|].
    split_and!; try done. rewrite I4, H5. simpl.
    destruct (0 <? version m) eqn:E1; [| lia].
    destruct (version m + 1 <? status_version s1) eqn:E2; simpl; [lia |]. lia.
Qed.

Lemma missed_transitions_exact_witness :
  let s := apply_updates [(AVAILABLE, ""%string)] (new_session "e" None) in
  let m := (poll (Response (GetStatus s)) (new_monitor 300 false) (mkRetries 0 0)).1.1.1 in
  missed_transitions (snd (watch [[(LEASE_READY, "a"%string); (AFTER_LEASE_HOOK, "b"%string);
    (AVAILABLE, "c"%string)]; []] s m)) = 2.
Proof.
  cbv zeta.
  pose proof (missed_transitions_exact [[(LEASE_READY, "a"%string); (AFTER_LEASE_HOOK, "b"%string);
    (AVAILABLE, "c"%string)]; []] (apply_updates [(AVAILABLE, ""%string)] (new_session "e" None))
    (poll (Response (GetStatus (apply_updates [(AVAILABLE, ""%string)] (new_session "e" None))))
       (new_monitor 300 false) (mkRetries 0 0)).1.1.1 eq_refl eq_refl eq_refl eq_refl)
    as (_ & _ & _ & H). exact H.
Defined.

(** ** Concrete schedules of the client *)

Module Schedule.

Inductive act :=
| Start
| Stop
| WaitFor (id : nat) (target : ExporterStatus) (timed : bool)
| WaitAny (id : nat) (targets : list ExporterStatus) (timed : bool)
| Do (ch : choice (W := MWorld) (answer := manswer) (N := mtask)).

Definition spawn_tasks (ns : list mtask) (w : MWorld) (c : config) : config :=
  Config w (tasks c ++ map (start mbody) ns).

Definition act_step (a : act) (c : config) : option config :=
  match a with
  | Start => Some (spawn_tasks (snd (start_monitor (mon (world c))))
                     (world c <| mon := fst (start_monitor (mon (world c))) |>) c)
  | Stop => Some (spawn_tasks [] (world c <| mon ::= stop_monitor |>) c)
  | WaitFor id target timed => Some (spawn_tasks [TWaitForStatus id target timed] (world c) c)
  | WaitAny id targets timed => Some (spawn_tasks [TWaitForAnyOf id targets timed] (world c) c)
  | Do ((Resume i | Cancel i | Answer i _) as ch) => exec_task mbody ch i c
  | Do (Env _ _) => None
  end.

Fixpoint act_all (acts : list act) (c : config) : option config :=
  match acts with
  | [] => Some c
  | a :: acts' => match act_step a c with Some c' => act_all acts' c' | None => None end
  end.

Lemma act_step_sound a c c' : act_step a c = Some c' -> sys_step mbody client_step c c'.
Proof.
  destruct c as [w ts]. destruct a as [| |id t b|id t b|[i|i|i o|]]; simpl; intros H;
    try (simplify_eq; apply step_env; constructor); try done.
  all: by eapply exec_task_sound.
Qed.

Definition c0 (unsupported : bool) : config (answer := manswer) (N := mtask) :=
  Config (initial 300 unsupported) [].

Definition final (acts : list act) : config (answer := manswer) (N := mtask) := default (c0 false) (act_all acts (c0 false)).

Lemma acts_reachable w0 acts c c' :
  reachable mbody client_step w0 [] c -> act_all acts c = Some c' ->
  reachable mbody client_step w0 [] c'.
Proof.
  revert c. induction acts as [|a acts IH]; intros c Hr H; simpl in H; [by simplify_eq |].
  destruct (act_step a c) as [c1|] eqn:E; [| done].
  eapply IH; [| exact H]. eapply reach_step; [exact Hr | by eapply act_step_sound].
Qed.

Lemma schedule_reachable acts :
  is_some (act_all acts (c0 false)) = true ->
  reachable mbody client_step (initial 300 false) [] (final acts).
Proof.
  intros H. eapply acts_reachable; [apply reach_init |]. by apply is_some_default.
Qed.

(** The answer of the exporter to a poll. *)
Definition says (res : poll_result) : forall q, manswer q := fun q =>
  match q with QGetStatus => res | QCallback _ _ => tt end.

(** A monitor is started, a task waits for LEASE_READY with no timeout, the monitor
    is stopped while it sleeps and its loop ends. *)
Definition stopped_while_waiting : list act :=
  [Start; Do (Resume 0); Do (Resume 1);
   Do (Answer 1 (says (Response (mkGetStatusResponse 2 "" 1 None))));
   WaitFor 7 LEASE_READY false; Do (Resume 2); Do (Resume 3); Stop; Do (Resume 1)].

(** The same wait, and one for any of two statuses, on an exporter that does not
    know GetStatus. *)
Definition unsupported_while_waiting : list act :=
  [Start; Do (Resume 0); WaitFor 7 LEASE_READY false; WaitAny 8 [LEASE_READY; AVAILABLE] false;
   Do (Resume 2); Do (Resume 3); Do (Resume 4); Do (Resume 5); Do (Resume 1);
   Do (Answer 1 (says (RpcFailed UNIMPLEMENTED))); Do (Resume 4); Do (Resume 5)].

End Schedule.

Import Schedule.

(** [stop] does not wake the tasks that wait for a status: there is a reachable
    state in which the poll loop has ended, every task but one has finished, and
    that one, a [wait_for_status] without a timeout, can never be resumed: nothing
    is left that could fire its event. *)
Theorem stop_leaves_waiter_blocked :
  let c := final stopped_while_waiting in
  reachable mbody client_step (initial 300 false) [] c /\
  running (mon (world c)) = false /\ results (world c) = [] /\
  (exists p, tasks c = [Ret tt; Ret tt; Ret tt; p] /\ forall p', ~ resume (world c) p p').
Proof.
  split; [apply schedule_reachable; vm_compute; reflexivity |].
  split; [vm_compute; reflexivity |]. split; [vm_compute; reflexivity |].
  eexists. split; [vm_compute; reflexivity |].
  intros p' [[H _] | [H _]]; vm_compute in H; discriminate.
Qed.

(** On an exporter without GetStatus the monitor assumes LEASE_READY and wakes
    its waiters, and the two kinds of wait disagree about it: [wait_for_any_of]
    returns LEASE_READY, [wait_for_status] for LEASE_READY returns [False] although
    that is the cached status. *)
Theorem unsupported_wait_disagrees :
  let c := final unsupported_while_waiting in
  reachable mbody client_step (initial 300 false) [] c /\
  results (world c) =
  [(7%nat, RBool LEASE_READY false (Some LEASE_READY));
   (8%nat, RStatus [LEASE_READY; AVAILABLE] (Some LEASE_READY) (Some LEASE_READY))].
Proof.
  split; [apply schedule_reachable; vm_compute; reflexivity | vm_compute; reflexivity].
Qed.

Lemma wait_results_sound_witness :
  results (world (final unsupported_while_waiting)) <> [] /\
  result_ok (RStatus [LEASE_READY; AVAILABLE] (Some LEASE_READY) (Some LEASE_READY)).
Proof.
  split; [vm_compute; discriminate |].
  apply (wait_results_sound 300 false (final unsupported_while_waiting) 8).
  - apply schedule_reachable. vm_compute. reflexivity.
  - vm_compute. auto.
Defined.

Lemma active_waiters_balanced_witness :
  active_waiters (mon (world (final unsupported_while_waiting))) = 0.
Proof.
  apply (active_waiters_balanced 300 false (final unsupported_while_waiting)).
  - apply schedule_reachable. vm_compute. reflexivity.
  - vm_compute. repeat constructor.
Defined.
