(* ===== verification/Selectors.v ===== *)
(** * Label selectors and conditions

    [client/selectors.py]: parsing of Kubernetes label selectors and the check that
    one selector meets the requirements of another; [common/condition.py]: lookup
    in a list of status conditions.

    Text is a list of code points; [Utf8.is_space] is Python's notion of white
    space, for [strip] and for [\s] in patterns alike. Each pattern of the source
    is matched by a function of its own: white space, key characters and the
    operators start with different characters, so the patterns have one way to
    match, apart from an optional second equal sign, whose choices are written out. *)

From stdpp Require Import base list sets strings.
From Stdlib Require Import ZArith Lia.
From S2P Require Import Prelude PyText.

Module Selector.

Open Scope Z_scope.

Abbreviation text := (list Z).

Definition COMMA : Z := 44.
Definition LPAREN : Z := 40.
Definition RPAREN : Z := 41.
Definition BANG : Z := 33.
Definition EQUALS : Z := 61.
Definition LF : Z := 10.

(** The character class of keys: letters, digits and [_./-]. *)
Definition is_key_char (c : Z) : bool :=
  ((97 <=? c) && (c <=? 122)) || ((65 <=? c) && (c <=? 90)) || ((48 <=? c) && (c <=? 57)) ||
  (c =? 95) || (c =? 46) || (c =? 47) || (c =? 45).

(** The longest prefix of characters with a property, and the rest. *)
Fixpoint span (p : Z -> bool) (s : text) : text * text :=
  match s with
  | [] => ([], [])
  | c :: s' => if p c then let '(a, b) := span p s' in (c :: a, b) else ([], s)
  end.

Definition skip_spaces (s : text) : text := snd (span Utf8.is_space s).

(** [\s+]: at least one. *)
Definition skip_spaces1 (s : text) : option text :=
  match span Utf8.is_space s with
  | ([], _) => None
  | (_, rest) => Some rest
  end.

(** A literal. *)
Fixpoint eat (lit s : text) : option text :=
  match lit, s with
  | [], _ => Some s
  | c :: lit', d :: s' => if c =? d then eat lit' s' else None
  | _ :: _, [] => None
  end.

(** The lookahead of the split: the next parenthesis, if any, is a closing one. *)
Fixpoint closes (s : text) : bool :=
  match s with
  | [] => false
  | c :: s' => if c =? RPAREN then true else if c =? LPAREN then false else closes s'
  end.

(** Split at the commas that are not inside parentheses. *)
Fixpoint split_parts (s : text) : list text :=
  match s with
  | [] => [[]]
  | c :: s' =>
      if (c =? COMMA) && negb (closes s') then [] :: split_parts s'
      else match split_parts s' with
           | [] => [[c]]
           | p :: ps => (c :: p) :: ps
           end
  end.

(** After an opening parenthesis: everything up to a closing one at the very end. *)
Definition in_parens (s : text) : option text :=
  match span (fun c => negb (c =? RPAREN)) s with
  | (values, [c]) => Some values
  | _ => None
  end.

(** One or more characters up to the end; a dot matches no line feed. *)
Definition dot_plus (s : text) : option text :=
  match s with
  | [] => None
  | _ => if existsb (fun c => c =? LF) s then None else Some s
  end.

Definition IN : text := [105; 110].
Definition NOTIN : text := [110; 111; 116; 105; 110].

(** [key in (v1, v2)] and [key notin (v1, v2)]. *)
Definition match_set (word part : text) : option (text * text) :=
  match span is_key_char part with
  | ([], _) => None
  | (key, rest) =>
      match skip_spaces1 rest with
      | None => None
      | Some rest =>
          match eat word rest with
          | None => None
          | Some rest =>
              match skip_spaces1 rest with
              | None => None
              | Some rest =>
                  match eat [LPAREN] rest with
                  | None => None
                  | Some rest =>
                      match in_parens rest with
                      | None => None
                      | Some values => Some (key, values)
                      end
                  end
              end
          end
      end
  end.

(** [!key] *)
Definition match_not_exists (part : text) : option text :=
  match eat [BANG] part with
  | None => None
  | Some rest =>
      match span is_key_char (skip_spaces rest) with
      | ([], _) => None
      | (key, []) => Some key
      | _ => None
      end
  end.

(** [key], spaces, an operator, spaces and a value. *)
Definition match_op (op part : text) : option (text * text) :=
  match span is_key_char part with
  | ([], _) => None
  | (key, rest) =>
      match eat op (skip_spaces rest) with
      | None => None
      | Some rest =>
          match dot_plus (skip_spaces rest) with
          | None => None
          | Some value => Some (key, value)
          end
      end
  end.

(** Two equal signs, or one when that fails. *)
Definition match_equals (part : text) : option (text * text) :=
  match match_op [EQUALS; EQUALS] part with
  | Some m => Some m
  | None => match_op [EQUALS] part
  end.

Definition match_exists (part : text) : bool :=
  match span is_key_char part with
  | (_ :: _, []) => true
  | _ => false
  end.

Inductive operator := OpIn | OpNotIn | OpNotExists | OpNotEqual | OpExists.

#[export] Instance operator_eq_dec : EqDecision operator.
Proof. solve_decision. Defined.

Record expression := mkExpression { e_key : text; e_op : operator; e_values : list text }.

(** Dictionaries of labels, in insertion order. *)
Fixpoint label_get (k : text) (d : list (text * text)) : option text :=
  match d with
  | [] => None
  | (k', v) :: d' => if decide (k = k') then Some v else label_get k d'
  end.

Fixpoint label_set (k v : text) (d : list (text * text)) : list (text * text) :=
  match d with
  | [] => [(k, v)]
  | (k', v') :: d' => if decide (k = k') then (k', v) :: d' else (k', v') :: label_set k v d'
  end.

Abbreviation parsed := (list (text * text) * list expression)%type.

(** The values between the parentheses. *)
Definition split_values (values : text) : list text :=
  map Utf8.strip (Utf8.split_byte COMMA values).

Definition parse_part (part : text) (acc : parsed) : parsed :=
  let '(labels, exprs) := acc in
  let part := Utf8.strip part in
  match part with
  | [] => acc
  | _ =>
      match match_set IN part with
      | Some (key, values) => (labels, exprs ++ [mkExpression key OpIn (split_values values)])
      | None =>
          match match_set NOTIN part with
          | Some (key, values) =>
              (labels, exprs ++ [mkExpression key OpNotIn (split_values values)])
          | None =>
              match match_not_exists part with
              | Some key => (labels, exprs ++ [mkExpression key OpNotExists []])
              | None =>
                  match match_op [BANG; EQUALS] part with
                  | Some (key, value) =>
                      (labels, exprs ++ [mkExpression key OpNotEqual [Utf8.strip value]])
                  | None =>
                      match match_equals part with
                      | Some (key, value) => (label_set key (Utf8.strip value) labels, exprs)
                      | None =>
                          if match_exists part
                          then (labels, exprs ++ [mkExpression part OpExists []])
                          else acc
                      end
                  end
              end
          end
      end
  end.

Definition parse_label_selector (selector : text) : parsed :=
  match Utf8.strip selector with
  | [] => ([], [])
  | _ => fold_left (fun acc part => parse_part part acc) (split_parts selector) ([], [])
  end.

(** [k=v] pairs joined with commas. *)
Fixpoint join_labels (d : list (text * text)) : text :=
  match d with
  | [] => []
  | [(k, v)] => k ++ [EQUALS] ++ v
  | (k, v) :: d' => k ++ [EQUALS] ++ v ++ [COMMA] ++ join_labels d'
  end.

Definition extract_match_labels_filter (selector : option text) : option text :=
  match selector with
  | None | Some [] => None
  | Some s =>
      match fst (parse_label_selector s) with
      | [] => None
      | labels => Some (join_labels labels)
      end
  end.

Definition mem (v : text) (l : list text) : bool := bool_decide (v ∈ l).

Definition label_satisfies_expression (sel_labels : list (text * text)) (e : expression) : bool :=
  match e_op e with
  | OpNotExists => negb (is_some (label_get (e_key e) sel_labels))
  | OpNotIn | OpNotEqual =>
      match label_get (e_key e) sel_labels with
      | None => true
      | Some v => negb (mem v (e_values e))
      end
  | OpIn =>
      match label_get (e_key e) sel_labels with
      | None => false
      | Some v => mem v (e_values e)
      end
  | OpExists => is_some (label_get (e_key e) sel_labels)
  end.

(** [set(s_vals) == set(r_vals)] *)
Definition same_values (a b : list text) : bool :=
  forallb (fun v => mem v b) a && forallb (fun v => mem v a) b.

Definition same_expression (s r : expression) : bool :=
  bool_decide (e_key s = e_key r) && bool_decide (e_op s = e_op r) &&
  same_values (e_values s) (e_values r).

Definition selector_contains (selector requirements : text) : bool :=
  match Utf8.strip requirements with
  | [] => true
  | _ =>
      let '(req_labels, req_exprs) := parse_label_selector requirements in
      let '(sel_labels, sel_exprs) := parse_label_selector selector in
      forallb (fun kv => bool_decide (label_get (fst kv) sel_labels = Some (snd kv))) req_labels &&
      forallb (fun r => existsb (fun s => same_expression s r) sel_exprs ||
                        label_satisfies_expression sel_labels r) req_exprs
  end.

(** ** Facts about the parser *)

Definition keys_ok (d : list (text * text)) : Prop :=
  NoDup d.*1 /\ Forall (fun kv => fst kv <> [] /\ Forall (fun c => is_key_char c = true) (fst kv)) d.

Lemma span_prefix p s : Forall (fun c => p c = true) (fst (span p s)).
Proof.
  induction s as [|c s IH]; simpl; [constructor |]. destruct (p c) eqn:E; [| constructor].
  destruct (span p s) as [a b]. simpl in *. by constructor.
Qed.

Lemma match_op_key op part key value :
  match_op op part = Some (key, value) ->
  key <> [] /\ Forall (fun c => is_key_char c = true) key.
Proof.
  unfold match_op. pose proof (span_prefix is_key_char part) as Hp.
  destruct (span is_key_char part) as [[|c k] rest]; [done |].
  destruct (eat op (skip_spaces rest)); [| done]. destruct (dot_plus _); [| done].
  intros [= <- _]. done.
Qed.

Lemma label_set_get k v d k' :
  label_get k' (label_set k v d) = if decide (k' = k) then Some v else label_get k' d.
Proof.
  induction d as [|[k2 v2] d IH]; simpl.
  - destruct (decide (k' = k)); done.
  - destruct (decide (k = k2)) as [->|Hne]; simpl.
    + by destruct (decide (k' = k2)).
    + rewrite IH. destruct (decide (k' = k2)), (decide (k' = k)); congruence.
Qed.

Lemma label_get_None k d : label_get k d = None <-> k ∉ d.*1.
Proof.
  induction d as [|[k2 v2] d IH]; simpl; [set_solver |].
  destruct (decide (k = k2)); [set_solver |]. rewrite IH. set_solver.
Qed.

Lemma label_set_keys_in k v d k' : k' ∈ (label_set k v d).*1 <-> k' = k \/ k' ∈ d.*1.
Proof.
  destruct (decide (k' ∈ (label_set k v d).*1)) as [H|H].
  - split; [intros _ | done]. destruct (decide (k' = k)); [by left | right].
    destruct (decide (k' ∈ d.*1)); [done |]. exfalso.
    apply label_get_None in n0. assert (label_get k' (label_set k v d) = None) as E.
    { rewrite label_set_get. by destruct (decide (k' = k)). }
    by apply label_get_None in E.
  - split; [done |]. apply label_get_None in H. rewrite label_set_get in H.
    destruct (decide (k' = k)); [done |]. intros [->|Hin]; [done |].
    by apply label_get_None in H.
Qed.

Lemma label_set_ok k v d :
  k <> [] -> Forall (fun c => is_key_char c = true) k -> keys_ok d -> keys_ok (label_set k v d).
Proof.
  intros Hk Hc [Hn Hf]. unfold keys_ok. induction d as [|[k2 v2] d IH]; simpl in *.
  - split; [apply NoDup_singleton | by repeat constructor].
  - apply NoDup_cons in Hn as [Hn1 Hn2]. apply Forall_cons in Hf as [Hf1 Hf2].
    destruct (decide (k = k2)) as [->|Hne]; simpl.
    + split; [by apply NoDup_cons | by constructor].
    + destruct (IH Hn2 Hf2) as [I1 I2]. split; [| by constructor].
      apply NoDup_cons. split; [| done]. rewrite label_set_keys_in. intros [->|?]; auto.
Qed.

Lemma parse_part_ok part acc : keys_ok (fst acc) -> keys_ok (fst (parse_part part acc)).
Proof.
  destruct acc as [labels exprs]. unfold parse_part, match_equals. intros H.
  destruct (Utf8.strip part) as [|c s]; [done |].
  destruct (match_set IN _) as [[]|]; [done |].
  destruct (match_set NOTIN _) as [[]|]; [done |].
  destruct (match_not_exists _); [done |].
  destruct (match_op [BANG; EQUALS] _) as [[]|]; [done |].
  destruct (match_op [EQUALS; EQUALS] _) as [[k v]|] eqn:E.
  - apply match_op_key in E as []. by apply label_set_ok.
  - destruct (match_op [EQUALS] _) as [[k v]|] eqn:E2.
    + apply match_op_key in E2 as []. by apply label_set_ok.
    + by destruct (match_exists _).
Qed.

Lemma parse_ok s : keys_ok (fst (parse_label_selector s)).
Proof.
  unfold parse_label_selector.
  assert (keys_ok []) as H0 by (split; constructor).
  destruct (Utf8.strip s); [done |].
  generalize (split_parts s). intros parts.
  change (keys_ok (fst (@nil (text * text), @nil expression))) in H0. revert H0.
  generalize (@nil (text * text), @nil expression). intros acc.
  revert acc. induction parts as [|p ps IH]; intros acc H; simpl; [done |].
  by apply IH, parse_part_ok.
Qed.

Lemma label_get_in k v d : NoDup d.*1 -> (k, v) ∈ d -> label_get k d = Some v.
Proof.
  induction d as [|[k2 v2] d IH]; simpl; [set_solver |].
  intros [Hn Hd]%NoDup_cons [[= -> ->]|Hin]%elem_of_cons; [by rewrite decide_True |].
  destruct (decide (k = k2)) as [->|]; [| auto].
  exfalso. apply Hn. apply list_elem_of_fmap. by exists (k2, v).
Qed.

Lemma forallb_elem {A} (f : A -> bool) l : forallb f l = true <-> (forall x, x ∈ l -> f x = true).
Proof. rewrite forallb_forall. split; intros H x Hx; apply H; by apply list_elem_of_In. Qed.

Lemma existsb_elem {A} (f : A -> bool) l :
  existsb f l = true <-> exists x, x ∈ l /\ f x = true.
Proof. rewrite existsb_exists. split; intros (x & Hx & H); exists x; split; auto; by apply list_elem_of_In. Qed.

Lemma same_values_iff a b : same_values a b = true <-> (forall v, v ∈ a <-> v ∈ b).
Proof.
  unfold same_values, mem. rewrite andb_true_iff, !forallb_elem. split.
  - intros [H1 H2] v. split; intros H; [apply H1 in H | apply H2 in H];
      by apply bool_decide_eq_true_1 in H.
  - intros H. split; intros v Hv; apply bool_decide_eq_true_2; by apply H.
Qed.

Lemma same_expression_sat L s r :
  same_expression s r = true ->
  label_satisfies_expression L s = label_satisfies_expression L r.
Proof.
  unfold same_expression. rewrite !andb_true_iff. intros [[Hk Ho] Hv].
  apply bool_decide_eq_true_1 in Hk, Ho. rewrite same_values_iff in Hv.
  unfold label_satisfies_expression. rewrite Hk, Ho.
  assert (forall v, mem v (e_values s) = mem v (e_values r)) as Hm
    by (intros v; unfold mem; apply bool_decide_ext, Hv).
  destruct (e_op r), (label_get (e_key r) L); rewrite ?Hm; done.
Qed.

(** ** Meaning *)

(** Every selector contains itself: a lease request with the same selector is
    always recognised as met. *)
Lemma selector_contains_refl s : selector_contains s s = true.
Proof.
  unfold selector_contains. destruct (Utf8.strip s); [done |].
  pose proof (parse_ok s) as [Hn _].
  destruct (parse_label_selector s) as [labels exprs]. simpl in Hn.
  apply andb_true_iff. split; apply forallb_elem.
  - intros [k v] Hin. apply bool_decide_eq_true_2. by apply label_get_in.
  - intros e He. apply orb_true_iff. left. apply existsb_elem. exists e. split; [done |].
    unfold same_expression. rewrite !bool_decide_eq_true_2 by done. simpl.
    by apply same_values_iff.
Qed.

(** A set of labels meets a parsed selector. *)
Definition satisfies (L : list (text * text)) (p : parsed) : Prop :=
  (forall k v, (k, v) ∈ fst p -> label_get k L = Some v) /\
  (forall e, e ∈ snd p -> label_satisfies_expression L e = true).

Definition positive (o : operator) : Prop := o = OpIn \/ o = OpExists.

(** Containment is sound for the requirements that ask for a label: when
    [selector_contains selector requirements] holds, every exporter whose labels
    match the selector has every label the requirements fix, meets every [in] and
    exists requirement, and meets any requirement the selector states itself. *)
Theorem selector_contains_sound selector requirements L :
  selector_contains selector requirements = true ->
  satisfies L (parse_label_selector selector) ->
  let req := parse_label_selector requirements in
  (forall k v, (k, v) ∈ fst req -> label_get k L = Some v) /\
  (forall e, e ∈ snd req ->
     positive (e_op e) \/
     existsb (fun s => same_expression s e) (snd (parse_label_selector selector)) = true ->
     label_satisfies_expression L e = true).
Proof.
  unfold selector_contains. intros Hc [Hl He].
  assert (Utf8.strip requirements = [] \/
    (let '(rl, re) := parse_label_selector requirements in
     let '(sl, se) := parse_label_selector selector in
     forallb (fun kv => bool_decide (label_get (fst kv) sl = Some (snd kv))) rl &&
     forallb (fun r => existsb (fun s => same_expression s r) se ||
                       label_satisfies_expression sl r) re) = true) as [Hempty | Hc'].
  { revert Hc. destruct (Utf8.strip requirements); [by left | by right]. }
  { unfold parse_label_selector at 1. rewrite Hempty. simpl.
    unfold parse_label_selector. rewrite Hempty. split; [set_solver |]. simpl. set_solver. }
  clear Hc. destruct (parse_label_selector requirements) as [rl re].
  destruct (parse_label_selector selector) as [sl se]. simpl in *.
  apply andb_true_iff in Hc' as [H1 H2]. rewrite forallb_elem in H1. rewrite forallb_elem in H2.
  assert (forall k v, label_get k sl = Some v -> label_get k L = Some v) as Hsub.
  { intros k v Hg. apply Hl. clear -Hg. induction sl as [|[k2 v2] sl IH]; simpl in Hg; [done |].
    destruct (decide (k = k2)); simplify_eq; set_solver. }
  split.
  - intros k v Hin. apply Hsub. specialize (H1 _ Hin). by apply bool_decide_eq_true_1 in H1.
  - intros e Hin Hcase.
    assert (existsb (fun s => same_expression s e) se = true ->
            label_satisfies_expression L e = true) as Hexact.
    { intros H. apply existsb_elem in H as (s & Hs & Hsame).
      rewrite <- (same_expression_sat L s e Hsame). by apply He. }
    destruct Hcase as [Hpos|]; [| by apply Hexact].
    specialize (H2 _ Hin). apply orb_true_iff in H2 as [?|H2]; [by apply Hexact |].
    unfold label_satisfies_expression in *. destruct Hpos as [Hop | Hop]; rewrite Hop in *;
      (destruct (label_get (e_key e) sl) eqn:E; [| done]); by rewrite (Hsub _ _ E).
Qed.

(** ** The filter sent to the server *)

Definition word (s : text) : Prop := s <> [] /\ Forall (fun c => is_key_char c = true) s.

Lemma key_char_facts c :
  is_key_char c = true ->
  Utf8.is_space c = false /\ c <> COMMA /\ c <> LPAREN /\ c <> RPAREN /\ c <> EQUALS /\
  c <> BANG /\ c <> LF.
Proof.
  unfold is_key_char, Utf8.is_space, Utf8.in_range, COMMA, LPAREN, RPAREN, EQUALS, BANG, LF.
  intros H.
  repeat (apply orb_true_iff in H as [H|H]); rewrite ?andb_true_iff, ?Z.leb_le, ?Z.eqb_eq in H;
    (split; [| lia]);
    repeat (apply orb_false_iff; split); rewrite ?andb_false_iff, ?Z.leb_gt, ?Z.eqb_neq; lia.
Qed.

Lemma strip_nospace s : Forall (fun c => Utf8.is_space c = false) s -> Utf8.strip s = s.
Proof.
  assert (forall t, Forall (fun c => Utf8.is_space c = false) t -> Utf8.lstrip t = t) as Hl
    by (intros [|c t] H; [done |]; simpl; apply Forall_cons in H as [-> _]; done).
  intros H. unfold Utf8.strip, Utf8.rstrip. rewrite (Hl s H).
  rewrite Hl; [apply rev_involutive |]. by apply Forall_rev.
Qed.

Lemma word_strip s : Forall (fun c => is_key_char c = true) s -> Utf8.strip s = s.
Proof.
  intros H. apply strip_nospace. eapply Forall_impl; [exact H |].
  intros c Hc. by apply key_char_facts in Hc as [? _].
Qed.

Lemma span_word p s rest :
  Forall (fun c => p c = true) s ->
  match rest with [] => True | c :: _ => p c = false end ->
  span p (s ++ rest) = (s, rest).
Proof.
  intros Hs Hr. induction Hs as [|c s Hc _ IH]; simpl.
  - destruct rest as [|c rest]; simpl; [done |]. by rewrite Hr.
  - by rewrite Hc, IH.
Qed.

Lemma match_op_word op k v :
  word k -> word v ->
  match_op op (k ++ [EQUALS] ++ v) =
  match eat op (EQUALS :: v) with
  | None => None
  | Some rest =>
      match dot_plus (skip_spaces rest) with None => None | Some value => Some (k, value) end
  end.
Proof.
  intros [Hk Hkc] _. unfold match_op. rewrite span_word; [| done | done].
  destruct k; [done |]. reflexivity.
Qed.

Lemma match_equals_word k v : word k -> word v -> match_equals (k ++ [EQUALS] ++ v) = Some (k, v).
Proof.
  intros Hk Hv. unfold match_equals. rewrite !match_op_word by done.
  destruct Hv as [Hv0 Hvc]. destruct v as [|c v]; [done |].
  pose proof Hvc as Hv'. apply Forall_cons in Hv' as [Hc _].
  apply key_char_facts in Hc as (Hsp & _ & _ & _ & He & _). cbn [eat].
  rewrite Z.eqb_refl. destruct (EQUALS =? c) eqn:E; [apply Z.eqb_eq in E; congruence |].
  unfold skip_spaces. cbn [span]. rewrite Hsp. cbn [snd]. unfold dot_plus.
  assert (existsb (fun c => c =? LF) (c :: v) = false) as ->; [| done].
  clear -Hvc. induction Hvc as [|x l Hx _ IH]; [done |]. cbn [existsb]. rewrite IH.
  apply key_char_facts in Hx as (_ & _ & _ & _ & _ & _ & Hlf).
  destruct (x =? LF) eqn:E; [apply Z.eqb_eq in E; congruence | done].
Qed.

Lemma parse_equals k v acc :
  word k -> word v ->
  parse_part (k ++ [EQUALS] ++ v) acc = (label_set k v (fst acc), snd acc).
Proof.
  intros Hk Hv. destruct acc as [labels exprs]. pose proof (match_equals_word k v Hk Hv) as Heq.
  pose proof (match_op_word [BANG; EQUALS] k v Hk Hv) as Hop.
  destruct Hk as [Hk0 Hkc]. destruct Hv as [Hv0 Hvc]. unfold parse_part.
  assert (Utf8.strip (k ++ [EQUALS] ++ v) = k ++ [EQUALS] ++ v) as ->.
  { apply strip_nospace. rewrite !Forall_app. split_and!; [| by repeat constructor |];
      (eapply Forall_impl; [eassumption |]); intros c Hc; by apply key_char_facts in Hc as [? _]. }
  assert (forall w, match_set w (k ++ [EQUALS] ++ v) = None) as Hset.
  { intros w. unfold match_set. rewrite span_word by done. by destruct k. }
  assert (match_not_exists (k ++ [EQUALS] ++ v) = None) as Hne.
  { unfold match_not_exists. destruct k as [|c k]; [done |]. cbn [app eat].
    apply Forall_cons in Hkc as [Hc _].
    apply key_char_facts in Hc as (_ & _ & _ & _ & _ & Hb & _).
    destruct (BANG =? c) eqn:E; [apply Z.eqb_eq in E; congruence | done]. }
  rewrite !Hset, Hne, Hop, Heq. cbn [eat].
  change (BANG =? EQUALS) with false. cbn iota. rewrite (word_strip v) by done.
  by destruct (k ++ [EQUALS] ++ v) as [|x l] eqn:E; [destruct k |].
Qed.

Definition words (d : list (text * text)) : Prop :=
  Forall (fun kv => word (fst kv) /\ word (snd kv)) d.

(** Neither a comma nor a parenthesis: part of one piece. *)
Definition plain (c : Z) : bool :=
  negb (c =? COMMA) && negb (c =? LPAREN) && negb (c =? RPAREN).

Lemma closes_plain s : Forall (fun c => c <> RPAREN) s -> closes s = false.
Proof.
  induction 1 as [|c s Hc _ IH]; simpl; [done |].
  destruct (c =? RPAREN) eqn:E; [apply Z.eqb_eq in E; congruence |]. by destruct (c =? LPAREN).
Qed.

Lemma split_parts_plain s rest :
  Forall (fun c => c <> COMMA) s -> Forall (fun c => c <> RPAREN) rest ->
  split_parts (s ++ COMMA :: rest) = s :: split_parts rest.
Proof.
  intros Hs Hr. induction Hs as [|c s Hc _ IH]; simpl.
  - by rewrite (closes_plain rest Hr).
  - destruct (c =? COMMA) eqn:E; [apply Z.eqb_eq in E; congruence |]. simpl. by rewrite IH.
Qed.

Lemma split_parts_one s : Forall (fun c => c <> COMMA) s -> split_parts s = [s].
Proof.
  induction 1 as [|c s Hc _ IH]; simpl; [done |].
  destruct (c =? COMMA) eqn:E; [apply Z.eqb_eq in E; congruence |]. simpl. by rewrite IH.
Qed.

Lemma pair_plain k v :
  word k -> word v ->
  Forall (fun c => c <> COMMA) (k ++ [EQUALS] ++ v) /\
  Forall (fun c => c <> RPAREN) (k ++ [EQUALS] ++ v).
Proof.
  intros [_ Hk] [_ Hv].
  split; rewrite !Forall_app; split_and!; try (by repeat constructor);
    (eapply Forall_impl; [eassumption |]); intros c Hc; apply key_char_facts in Hc; tauto.
Qed.

Lemma join_no_paren d : words d -> Forall (fun c => c <> RPAREN) (join_labels d).
Proof.
  induction 1 as [|[k v] d [Hk Hv] Hd IH]; [constructor |].
  destruct (pair_plain k v Hk Hv) as [_ H]. destruct d as [|kv d]; [done |].
  change (join_labels ((k, v) :: kv :: d)) with
    (k ++ [EQUALS] ++ v ++ [COMMA] ++ join_labels (kv :: d)).
  rewrite !(app_assoc k), !(app_assoc (k ++ [EQUALS])). rewrite <- (app_assoc k) in *.
  apply Forall_app. split; [done |]. by constructor.
Qed.

Lemma split_join d :
  words d -> d <> [] ->
  split_parts (join_labels d) = map (fun kv => fst kv ++ [EQUALS] ++ snd kv) d.
Proof.
  induction 1 as [|[k v] d [Hk Hv] Hd IH]; [done |]. intros _.
  destruct (pair_plain k v Hk Hv) as [H _]. destruct d as [|kv d].
  - by apply split_parts_one.
  - change (join_labels ((k, v) :: kv :: d)) with
      (k ++ [EQUALS] ++ v ++ COMMA :: join_labels (kv :: d)).
    rewrite (app_assoc [EQUALS]), (app_assoc k).
    rewrite split_parts_plain by (auto using join_no_paren). simpl map. by rewrite IH.
Qed.

Lemma label_set_new k v d : k ∉ d.*1 -> label_set k v d = d ++ [(k, v)].
Proof.
  induction d as [|[k2 v2] d IH]; simpl; [done |]. intros Hk.
  rewrite decide_False by set_solver. rewrite IH; [done | set_solver].
Qed.

Lemma parse_pairs d acc :
  words d -> NoDup (fst acc ++ d).*1 ->
  fold_left (fun acc part => parse_part part acc) (map (fun kv => fst kv ++ [EQUALS] ++ snd kv) d)
    acc = (fst acc ++ d, snd acc).
Proof.
  revert acc. induction d as [|[k v] d IH]; intros acc Hw Hn; cbn [map fold_left].
  - rewrite app_nil_r. by destruct acc.
  - apply Forall_cons in Hw as [[Hk Hv] Hw]. cbn [fst snd] in *. rewrite parse_equals by done.
    rewrite label_set_new.
    + rewrite IH; simpl; [by rewrite <- app_assoc | done |]. by rewrite <- app_assoc.
    + rewrite fmap_app in Hn. apply NoDup_app in Hn as (_ & Hn & _). intros Hin.
      apply (Hn k Hin). simpl. set_solver.
Qed.

Lemma parse_join d :
  words d -> NoDup d.*1 -> d <> [] -> parse_label_selector (join_labels d) = (d, []).
Proof.
  intros Hw Hn Hne. unfold parse_label_selector.
  rewrite split_join by done. rewrite (parse_pairs d ([], [])) by done.
  destruct (Utf8.strip (join_labels d)) as [|x l] eqn:E; [| done]. exfalso.
  (* the first character of the first key is no white space *)
  destruct d as [|[k v] d]; [done |]. apply Forall_cons in Hw as [[[Hk0 Hkc] _] _].
  destruct k as [|c k]; [done |]. apply Forall_cons in Hkc as [Hc _].
  apply key_char_facts in Hc as [Hs _].
  assert (exists t, join_labels ((c :: k, v) :: d) = c :: t) as [t Ht] by (destruct d; simpl; eauto).
  rewrite Ht in E. unfold Utf8.strip, Utf8.rstrip in E. cbn [Utf8.lstrip] in E. rewrite Hs in E.
  assert (forall s, Utf8.lstrip (s ++ [c]) <> []) as Hno.
  { intros s. induction s as [|y s IH]; simpl; [by rewrite Hs |]. by destruct (Utf8.is_space y). }
  cbn [rev] in E. apply (f_equal (@rev Z)) in E. rewrite rev_involutive in E. by apply Hno in E.
Qed.

(** The server-side filter keeps exactly the match labels: when the values are
    words (the characters Kubernetes allows in a label), the filter string built
    from a selector parses back to the same labels in the same order, with no
    expressions. *)
Theorem extract_filter_roundtrip s labels exprs filter :
  parse_label_selector s = (labels, exprs) -> Forall (fun kv => word (snd kv)) labels ->
  extract_match_labels_filter (Some s) = Some filter ->
  parse_label_selector filter = (labels, []).
Proof.
  intros Hp Hv He. pose proof (parse_ok s) as [Hn Hk]. rewrite Hp in Hn, Hk. simpl in Hn, Hk.
  unfold extract_match_labels_filter in He. destruct s as [|c s]; [done |]. rewrite Hp in He.
  cbn [fst] in He. destruct labels as [|kv d]; [done |].
  assert (filter = join_labels (kv :: d)) as -> by congruence.
  apply parse_join; [| done | done]. unfold words. apply Forall_forall. intros x Hx.
  rewrite Forall_forall in Hk, Hv. split; [apply Hk, Hx | apply Hv, Hx].
Qed.

(** ** Concrete selectors *)

Abbreviation t := Utf8.of_string.

Example parse_example :
  parse_label_selector (t "board = rpi,env in (dev, test), !gpu,zone!=eu,owner,x==1") =
  ([(t "board", t "rpi"); (t "x", t "1")],
   [mkExpression (t "env") OpIn [t "dev"; t "test"]; mkExpression (t "gpu") OpNotExists [];
    mkExpression (t "zone") OpNotEqual [t "eu"]; mkExpression (t "owner") OpExists []]).
Proof. vm_compute. reflexivity. Qed.

Lemma selector_contains_sound_witness :
  selector_contains (t "board=rpi,env=test") (t "env in (dev,test),board=rpi") = true /\
  label_get (t "board") [(t "board", t "rpi"); (t "env", t "test")] = Some (t "rpi").
Proof.
  split; [vm_compute; reflexivity |].
  apply (selector_contains_sound (t "board=rpi,env=test") (t "env in (dev,test),board=rpi")
           [(t "board", t "rpi"); (t "env", t "test")]).
  - vm_compute. reflexivity.
  - split.
    + intros k v Hin. vm_compute in Hin. apply elem_of_cons in Hin as [Hin|Hin];
        [by simplify_eq; vm_compute |].
      apply elem_of_cons in Hin as [Hin|Hin]; [by simplify_eq; vm_compute |].
      by apply elem_of_nil in Hin.
    + intros e Hin. vm_compute in Hin. by apply elem_of_nil in Hin.
  - vm_compute. apply elem_of_cons. left. reflexivity.
Defined.

Lemma extract_filter_roundtrip_witness :
  parse_label_selector (t "board=rpi,env=test") =
  ([(t "board", t "rpi"); (t "env", t "test")], []).
Proof.
  apply (extract_filter_roundtrip (t "board=rpi, !gpu ,env = test")
           [(t "board", t "rpi"); (t "env", t "test")] [mkExpression (t "gpu") OpNotExists []]).
  - vm_compute. reflexivity.
  - repeat constructor; vm_compute; try discriminate; reflexivity.
  - vm_compute. reflexivity.
Defined.

End Selector.

(** * Conditions *)

Module Conditions.

Open Scope string_scope.

Record Condition := mkCondition {
  type_ : string;
  status_ : string;
  reason_ : string;
  message_ : string
}.

Definition reason_matches (reason : option string) (c : Condition) : bool :=
  match reason with None => true | Some r => String.eqb (reason_ c) r end.

Fixpoint condition_present_and_equal (conditions : list Condition) (condition_type status : string)
    (reason : option string) : bool :=
  match conditions with
  | [] => false
  | c :: cs =>
      if String.eqb (type_ c) condition_type && reason_matches reason c
      then String.eqb (status_ c) status
      else condition_present_and_equal cs condition_type status reason
  end.

Fixpoint condition_message (conditions : list Condition) (condition_type : string)
    (reason : option string) : option string :=
  match conditions with
  | [] => None
  | c :: cs =>
      if String.eqb (type_ c) condition_type && reason_matches reason c
      then Some (message_ c)
      else condition_message cs condition_type reason
  end.

Definition condition_true (conditions : list Condition) (condition_type : string) : bool :=
  condition_present_and_equal conditions condition_type "True" None.

Definition condition_false (conditions : list Condition) (condition_type : string) : bool :=
  condition_present_and_equal conditions condition_type "False" None.

(** The condition both lookups are about. *)
Lemma condition_found cs ty st reason :
  condition_present_and_equal cs ty st reason =
    match List.find (fun c => String.eqb (type_ c) ty && reason_matches reason c) cs with
    | Some c => String.eqb (status_ c) st
    | None => false
    end /\
  condition_message cs ty reason =
    message_ <$> List.find (fun c => String.eqb (type_ c) ty && reason_matches reason c) cs.
Proof.
  induction cs as [|c cs [IH1 IH2]]; simpl; [done |]. by destruct (_ && _).
Qed.

(** A condition is never both true and false, and when it is either its message
    is found: both lookups stop at the first condition of that type. *)
Lemma condition_exclusive cs ty :
  (condition_true cs ty && condition_false cs ty = false) /\
  (condition_true cs ty || condition_false cs ty = true ->
   is_some (condition_message cs ty None) = true).
Proof.
  unfold condition_true, condition_false.
  destruct (condition_found cs ty "True" None) as [-> ->].
  destruct (condition_found cs ty "False" None) as [-> _].
  destruct (List.find _ cs) as [c|]; [| done]. simpl. split; [| done].
  destruct (String.eqb_spec (status_ c) "True") as [->|]; done.
Qed.

End Conditions.
