(* ===== verification/ClientLease.v ===== *)
(** * The client's lease

    [client/lease.py]: a client creates or adopts a lease, polls it until it is ready,
    dials the exporter, watches the time that is left and releases the lease at the end.

    The coroutine runs in one task. What it awaits (the controller's RPCs, sleeping) is a
    [req]; the [oracle], a parameter, gives the answer of each request and the time it
    takes, so that it stands for any controller and any network. Times are in
    milliseconds. [fail_after] is a deadline: an await that would end after it is
    cancelled at the deadline. The world keeps the lease object, the clock and the
    requests made. The spinner only displays and is left out; [tenacity]'s wait between
    two attempts is the parameter [backoff]. *)

From stdpp Require Import base list strings pretty.
From Stdlib Require Import ZArith Lia.
From S2P Require Import Prelude PyText Selectors.

Module ClientLease.

Import Conditions.
Open Scope Z_scope.

(** ** Data *)

(** The fields of the controller's answer that the code reads. *)
Record LeaseView := mkLeaseView {
  v_name : string;
  v_client : string;
  v_selector : string;
  v_exporter : string;
  v_conditions : list Condition;
  v_begin : option Z;
  v_end : option Z;
  v_duration : option Z
}.

Record Lease := mkLease {
  name : option string;
  selector : option string;
  client_name : option string;
  release : bool;
  acquisition_timeout : Z;
  dial_timeout : Z;
  exporter_name : string;
  exporter_labels : list (string * string);
  lease_ended : bool;
  lease_transferred : bool
}.

#[export] Instance set_name : Setter name := fun u r =>
  mkLease (u (name r)) (selector r) (client_name r) (release r) (acquisition_timeout r)
    (dial_timeout r) (exporter_name r) (exporter_labels r) (lease_ended r)
    (lease_transferred r).
#[export] Instance set_selector : Setter selector := fun u r =>
  mkLease (name r) (u (selector r)) (client_name r) (release r) (acquisition_timeout r)
    (dial_timeout r) (exporter_name r) (exporter_labels r) (lease_ended r)
    (lease_transferred r).
#[export] Instance set_client_name : Setter client_name := fun u r =>
  mkLease (name r) (selector r) (u (client_name r)) (release r) (acquisition_timeout r)
    (dial_timeout r) (exporter_name r) (exporter_labels r) (lease_ended r)
    (lease_transferred r).
#[export] Instance set_release : Setter release := fun u r =>
  mkLease (name r) (selector r) (client_name r) (u (release r)) (acquisition_timeout r)
    (dial_timeout r) (exporter_name r) (exporter_labels r) (lease_ended r)
    (lease_transferred r).
#[export] Instance set_acquisition_timeout : Setter acquisition_timeout := fun u r =>
  mkLease (name r) (selector r) (client_name r) (release r) (u (acquisition_timeout r))
    (dial_timeout r) (exporter_name r) (exporter_labels r) (lease_ended r)
    (lease_transferred r).
#[export] Instance set_dial_timeout : Setter dial_timeout := fun u r =>
  mkLease (name r) (selector r) (client_name r) (release r) (acquisition_timeout r) (u
    (dial_timeout r)) (exporter_name r) (exporter_labels r) (lease_ended r)
    (lease_transferred r).
#[export] Instance set_exporter_name : Setter exporter_name := fun u r =>
  mkLease (name r) (selector r) (client_name r) (release r) (acquisition_timeout r)
    (dial_timeout r) (u (exporter_name r)) (exporter_labels r) (lease_ended r)
    (lease_transferred r).
#[export] Instance set_exporter_labels : Setter exporter_labels := fun u r =>
  mkLease (name r) (selector r) (client_name r) (release r) (acquisition_timeout r)
    (dial_timeout r) (exporter_name r) (u (exporter_labels r)) (lease_ended r)
    (lease_transferred r).
#[export] Instance set_lease_ended : Setter lease_ended := fun u r =>
  mkLease (name r) (selector r) (client_name r) (release r) (acquisition_timeout r)
    (dial_timeout r) (exporter_name r) (exporter_labels r) (u (lease_ended r))
    (lease_transferred r).
#[export] Instance set_lease_transferred : Setter lease_transferred := fun u r =>
  mkLease (name r) (selector r) (client_name r) (release r) (acquisition_timeout r)
    (dial_timeout r) (exporter_name r) (exporter_labels r) (lease_ended r) (u
    (lease_transferred r)).

(** gRPC status codes, as far as the code tells them apart. *)
Inductive code := UNAVAILABLE | UNKNOWN | FAILED_PRECONDITION | OTHER.

Record rpc_error := mkRpcError { e_code : code; e_details : string }.

Inductive exn :=
| LeaseError (msg : string)
| ConnectionError (msg : string)
| ExporterUnreachableError (msg : string)
| TimeoutError
| Cancelled
| OutOfFuel.

Inductive req :=
| QGetLease (n : string)
| QCreateLease (lease_id : option string)
| QGetExporter (n : string)
| QDeleteLease (n : string)
| QDial (n : string)
| QSleep (ms : Z).

Definition answer (q : req) : Type :=
  match q with
  | QGetLease _ => rpc_error + LeaseView
  | QCreateLease _ => rpc_error + LeaseView
  | QGetExporter _ => rpc_error + list (string * string)
  | QDeleteLease _ => rpc_error + unit
  | QDial _ => rpc_error + unit
  | QSleep _ => unit
  end.

Record World := mkWorld {
  me : Lease;
  now : Z;
  requests : list req;
  notices : list Z
}.

#[export] Instance set_me : Setter me := fun u r =>
  mkWorld (u (me r)) (now r) (requests r) (notices r).
#[export] Instance set_now : Setter now := fun u r =>
  mkWorld (me r) (u (now r)) (requests r) (notices r).
#[export] Instance set_requests : Setter requests := fun u r =>
  mkWorld (me r) (now r) (u (requests r)) (notices r).
#[export] Instance set_notices : Setter notices := fun u r =>
  mkWorld (me r) (now r) (requests r) (u (notices r)).

(** ** The monad: a deadline, the world, an exception or a value *)

Definition M (A : Type) : Type := option Z -> World -> World * (exn + A).

Definition ret {A} (a : A) : M A := fun _ w => (w, inr a).
Definition raise {A} (e : exn) : M A := fun _ w => (w, inl e).
Definition gets {A} (f : World -> A) : M A := fun _ w => (w, inr (f w)).
Definition modify (f : World -> World) : M unit := fun _ w => (f w, inr tt).
Definition upd (f : Lease -> Lease) : M unit := modify (fun w => w <| me ::= f |>).

Definition bind {A B} (m : M A) (g : A -> M B) : M B := fun dl w =>
  match m dl w with
  | (w', inl e) => (w', inl e)
  | (w', inr a) => g a dl w'
  end.

Definition catch {A} (m : M A) (h : exn -> M A) : M A := fun dl w =>
  match m dl w with
  | (w', inl e) => h e dl w'
  | r => r
  end.

Declare Scope lease_scope.
Notation "x <- m ; g" := (bind m (fun x => g))
  (at level 20, m at level 100, g at level 200, only parsing) : lease_scope.
Notation "m ;; g" := (bind m (fun _ => g))
  (at level 100, g at level 200, right associativity, only parsing) : lease_scope.
Open Scope lease_scope.

(** [anyio.fail_after]: a cancellation by the own deadline is a [TimeoutError]. *)
Definition fail_after {A} (ms : Z) (m : M A) : M A := fun dl w =>
  let D := now w + ms in
  let dl' := match dl with Some D' => Z.min D' D | None => D end in
  match m (Some dl') w with
  | (w', inl Cancelled) => (w', inl (if D <=? now w' then TimeoutError else Cancelled))
  | r => r
  end.

(** Time passes, up to the deadline. *)
Definition elapse (d : Z) : M unit := fun dl w =>
  let t := now w + Z.max 0 d in
  match dl with
  | Some D => if D <? t then (w <| now := Z.max D (now w) |>, inl Cancelled)
              else (w <| now := t |>, inr tt)
  | None => (w <| now := t |>, inr tt)
  end.

Definition nm (l : Lease) : string := default "None" (name l).

(** [translate_grpc_exceptions] *)
Definition translate (e : rpc_error) : exn :=
  match e_code e with
  | UNAVAILABLE => ConnectionError ("grpc error: " ++ e_details e)
  | UNKNOWN => ConnectionError ("grpc controller responded: " ++ e_details e)
  | _ => ConnectionError "grpc error"
  end.

Section Client.

Context (oracle : forall q : req, nat -> Z * answer q) (backoff : nat -> Z).

Definition call (q : req) : M (answer q) :=
  w <- gets (fun w => w);
  let '(d, a) := oracle q (length (requests w)) in
  modify (fun w => w <| requests ::= fun l => (l ++ [q])%list |>);;
  elapse (match q with QSleep ms => Z.max ms d | _ => d end);;
  ret a.

Definition sleep (ms : Z) : M unit := call (QSleep ms).

Definition rpc {A} (r : rpc_error + A) : M A :=
  match r with inl e => raise (translate e) | inr a => ret a end.

(** ** Creating and reading the lease *)

Definition create : M unit :=
  l <- gets me;
  r <- call (QCreateLease (name l));
  v <- rpc r;
  upd (fun l => l <| name := Some (v_name v) |>).

Definition get : M LeaseView :=
  l <- gets me;
  r <- call (QGetLease (nm l));
  rpc r.

(** [_get_with_retry]: [ConnectionError] is retried for ever. *)
Fixpoint get_with_retry (n attempt : nat) : M LeaseView :=
  match n with
  | O => raise OutOfFuel
  | S n' =>
      catch get (fun e =>
        match e with
        | ConnectionError _ => sleep (backoff attempt);; get_with_retry n' (S attempt)
        | _ => raise e
        end)
  end.

Definition fetch_exporter_labels : M unit :=
  l <- gets me;
  r <- call (QGetExporter (exporter_name l));
  match r with
  | inr labels => upd (fun l => l <| exporter_labels := labels |>)
  | inl _ => upd (fun l => l <| exporter_labels := [] |>)
  end.

Fixpoint sleeps (n : nat) : M unit :=
  match n with O => ret tt | S n' => sleep 1000;; sleeps n' end.

Definition handle_no_exporter_retry : M unit := sleeps 5;; create.

(** What an answer of the controller means, in the order the code asks. *)
Inductive verdict :=
| VReady | VNoExporter | VUnsatisfiable (msg : string) | VInvalid (msg : string)
| VNotPending | VNotReady (msg : string) | VWait.

Definition message_of (cs : list Condition) (ty : string) : string :=
  default "None" (condition_message cs ty None).

Definition judge (cs : list Condition) : verdict :=
  if condition_true cs "Ready" then VReady
  else if condition_true cs "Unsatisfiable"
  then if condition_present_and_equal cs "Unsatisfiable" "True" (Some "NoExporter"%string)
       then VNoExporter else VUnsatisfiable (message_of cs "Unsatisfiable")
  else if condition_true cs "Invalid" then VInvalid (message_of cs "Invalid")
  else if condition_false cs "Pending" then VNotPending
  else if condition_false cs "Ready"
  then VNotReady (match condition_message cs "Ready" None with
                  | Some m => if truthy m then m else "lease is no longer active"
                  | None => "lease is no longer active"
                  end)
  else VWait.

(** The polling loop; [n] bounds its rounds and those of [get_with_retry]. *)
Fixpoint poll_lease (n : nat) : M unit :=
  match n with
  | O => raise OutOfFuel
  | S n' =>
      v <- get_with_retry n 0;
      l <- gets me;
      match judge (v_conditions v) with
      | VReady =>
          upd (fun l => l <| exporter_name := v_exporter v |>);; fetch_exporter_labels
      | VNoExporter => handle_no_exporter_retry;; poll_lease n'
      | VUnsatisfiable m => raise (LeaseError ("the lease cannot be satisfied: " ++ m))
      | VInvalid m => raise (LeaseError ("the lease is invalid: " ++ m))
      | VNotPending =>
          raise (LeaseError ("Lease " ++ nm l ++
            " is not in pending, but it isn't in Ready or Unsatisfiable state either"))
      | VNotReady m => raise (LeaseError ("lease " ++ nm l ++ ": " ++ m))
      | VWait => sleeps 5;; poll_lease n'
      end
  end.

Definition acquire (n : nat) : M unit :=
  l <- gets me;
  catch (fail_after (acquisition_timeout l) (poll_lease n)) (fun e =>
    match e with
    | TimeoutError =>
        l <- gets me;
        raise (LeaseError ("lease " ++ nm l ++ " acquisition timed out after " ++
                           pretty (acquisition_timeout l / 1000) ++ " seconds"))
    | _ => raise e
    end).

Definition request_async (n : nat) : M unit :=
  l <- gets me;
  (if bool_decide (truthy (default "" (name l)))
   then
     v <- get;
     if is_some (v_end v)
     then raise (LeaseError ("lease " ++ nm l ++ " has already ended"))
     else if truthy (default "" (client_name l)) && negb (String.eqb (v_client v) (default "" (client_name l)))
     then raise (LeaseError ("lease " ++ nm l ++ " belongs to client '" ++ v_client v ++
                  "', not the current client '" ++ default "" (client_name l) ++ "'"))
     else match selector l with
          | Some s => if String.eqb (v_selector v) s then ret tt
                      else upd (fun l => l <| name := None |>);; create
          | None => ret tt
          end
   else create);;
  acquire n.

(** ** Releasing it *)

(** The [finally] of [__asynccontextmanager__]: shielded from outer deadlines, at most 30
    seconds, and it never raises. *)
Definition release_lease : M unit := fun _ w =>
  let l := me w in
  if release l && truthy (default "" (name l))
  then catch (fail_after 30000 (get;;
                                l <- gets me;
                                r <- call (QDeleteLease (nm l));
                                rpc r))
         (fun e => match e with OutOfFuel => raise e | _ => ret tt end) None w
  else (w, inr tt).

(** [async with lease: body] *)
Definition with_lease (n : nat) (body : M unit) : M unit := fun dl w =>
  let '(w1, r) := bind (request_async n) (fun _ => body) dl w in
  let '(w2, _) := release_lease dl w1 in
  (w2, r).

(** ** Dialling the exporter *)

(** [f"{ms / 1000:.0f}"] *)
Definition seconds (ms : Z) : string :=
  let q := ms / 1000 in
  let r := ms mod 1000 in
  pretty (if r <? 500 then q else if 500 <? r then q + 1 else if Z.even q then q else q + 1).

Definition dial_delay (attempt : nat) (remaining : Z) : Z :=
  Z.min (Z.min (300 * 2 ^ Z.of_nat (Nat.min attempt 10)) 2000) remaining.

Definition not_ready (e : rpc_error) : bool :=
  match e_code e with FAILED_PRECONDITION => Str.str_contains "not ready" (e_details e) | _ => false end.

Definition unavailable (e : rpc_error) : bool :=
  match e_code e with UNAVAILABLE => true | _ => false end.

Definition permission_denied (e : rpc_error) : bool :=
  Str.str_contains "permission denied" (Str.lower (e_details e)).

Fixpoint dial_loop (n attempt : nat) (deadline : Z) : M unit :=
  match n with
  | O => raise OutOfFuel
  | S n' =>
      l <- gets me;
      r <- call (QDial (nm l));
      match r with
      | inr _ => ret tt
      | inl e =>
          t <- gets now;
          let remaining := deadline - t in
          let retry (what : string) :=
            if remaining <=? 0
            then raise (ExporterUnreachableError
                   ("Exporter " ++ exporter_name l ++ what ++ seconds (dial_timeout l) ++ "s"))
            else sleep (dial_delay attempt remaining);; dial_loop n' (S attempt) deadline in
          if not_ready e then retry " not ready after "%string
          else if unavailable e then retry " unavailable after "%string
          else if permission_denied e
          then upd (fun l => l <| lease_transferred := true |>);;
               raise (ExporterUnreachableError
                 ("Lease " ++ nm l ++ " transferred to another client"))
          else raise (ExporterUnreachableError
                 ("Connection to exporter " ++ exporter_name l ++ " lost: " ++ e_details e))
      end
  end.

Definition dial_with_retry (n : nat) : M unit :=
  t <- gets now;
  l <- gets me;
  dial_loop n 0 (t + dial_timeout l).

(** [_tunnel_handler]: each connection dials on its own, once. *)
Definition tunnel_dial : M unit :=
  l <- gets me;
  r <- call (QDial (nm l));
  match r with
  | inr _ => ret tt
  | inl e => raise (ExporterUnreachableError
      ("Per-connection Dial failed for " ++ exporter_name l ++ ": " ++ e_details e))
  end.

(** ** Watching the time that is left *)

Definition CHECK_INTERVAL : Z := 30000.

Definition get_lease_end_time (v : LeaseView) : option Z :=
  match v_end v with
  | Some e => Some e
  | None =>
      match v_begin v, v_duration v with
      | Some b, Some d => if d =? 0 then None else Some (b + d)
      | _, _ => None
      end
  end.

(** [_notify_lease_ending]; the callback's argument is recorded. *)
Definition notify_lease_ending (remaining : Z) : M unit :=
  (if remaining <=? 0 then upd (fun l => l <| lease_ended := true |>) else ret tt);;
  modify (fun w => w <| notices ::= fun l => (l ++ [remaining])%list |>).

(** [try: get() except Exception]: a cancellation is no [Exception]. *)
Definition try_get : M (option LeaseView) :=
  catch (v <- get; ret (Some v)) (fun e =>
    match e with Cancelled | OutOfFuel => raise e | _ => ret None end).

Fixpoint monitor (n : nat) (threshold : Z) (last_known_end_time : option Z) : M unit :=
  match n with
  | O => raise OutOfFuel
  | S n' =>
      o <- try_get;
      t <- gets now;
      match o with
      | None =>
          match last_known_end_time with
          | Some e =>
              if e - t <=? 0 then notify_lease_ending 0
              else sleep (Z.min CHECK_INTERVAL (e - t));; monitor n' threshold last_known_end_time
          | None => sleep CHECK_INTERVAL;; monitor n' threshold last_known_end_time
          end
      | Some v =>
          match get_lease_end_time v with
          | None => sleep 1000;; monitor n' threshold last_known_end_time
          | Some e =>
              let remain := e - t in
              if remain <? 0 then notify_lease_ending 0
              else
                (if (threshold - CHECK_INTERVAL <=? remain) && (remain <? threshold)
                 then notify_lease_ending remain else ret tt);;
                sleep (Z.min remain CHECK_INTERVAL);;
                monitor n' threshold (Some e)
          end
      end
  end.

End Client.

End ClientLease.
