(* ===== verification/ClientLeaseCorrect.v ===== *)
(** * Correctness of the client's lease

    Acquisition ends within its deadline ([acquire_terminates]) and only with a lease
    the controller called ready ([acquire_ready]); the requests made on release
    ([release_requests]); the dial loop ends and classifies errors ([dial_ends]); the
    monitor ends after the lease ([monitor_ends]). *)

From stdpp Require Import base list strings pretty.
From Stdlib Require Import ZArith Lia.
From S2P Require Import Prelude PyText Selectors ClientLease.

Import ClientLease Conditions.
Open Scope Z_scope.
Open Scope list_scope.

(** ** Time under a deadline *)

Section Timed.

Context (oracle : forall q : req, nat -> Z * answer q) (backoff : nat -> Z) (D : Z).

(** [m] moves the clock forward and not past the deadline; [Q] holds of what it
    returns. *)
Definition timed {A} (P : World -> Prop) (m : M A) (Q : exn + A -> World -> Prop) : Prop :=
  forall w, now w <= D -> P w ->
    let '(w', r) := m (Some D) w in now w <= now w' <= D /\ Q r w'.

Lemma timed_bind {A B} P (m : M A) (g : A -> M B) Q R :
  timed P m R ->
  (forall e w, R (inl e) w -> Q (inl e) w) ->
  (forall a, timed (R (inr a)) (g a) Q) -> timed P (bind m g) Q.
Proof.
  intros Hm He Hg w Hw Hp. specialize (Hm w Hw Hp). unfold bind.
  destruct (m (Some D) w) as [w1 [e|a]]; destruct Hm as [Ht HR]; [auto |].
  specialize (Hg a w1 ltac:(lia) HR). destruct (g a (Some D) w1) as [w2 r].
  destruct Hg. split; [lia | done].
Qed.

Lemma timed_catch {A} P (m : M A) (h : exn -> M A) Q R :
  timed P m R -> (forall a w, R (inr a) w -> Q (inr a) w) ->
  (forall e, timed (R (inl e)) (h e) Q) -> timed P (catch m h) Q.
Proof.
  intros Hm Ha Hh w Hw Hp. specialize (Hm w Hw Hp). unfold catch.
  destruct (m (Some D) w) as [w1 [e|a]]; destruct Hm as [Ht HR]; [| auto].
  specialize (Hh e w1 ltac:(lia) HR). destruct (h e (Some D) w1) as [w2 r].
  destruct Hh. split; [lia | done].
Qed.

Lemma timed_pure {A} P (m : M A) Q :
  (forall w, P w -> let '(w', r) := m (Some D) w in now w' = now w /\ Q r w') -> timed P m Q.
Proof.
  intros Hm w Hw Hp. specialize (Hm w Hp). destruct (m (Some D) w) as [w' r].
  destruct Hm. split; [lia | done].
Qed.

Lemma timed_weaken {A} (P P' : World -> Prop) (m : M A) (Q Q' : exn + A -> World -> Prop) :
  timed P' m Q' -> (forall w, P w -> P' w) -> (forall r w, Q' r w -> Q r w) -> timed P m Q.
Proof.
  intros Hm HP HQ w Hw Hp. specialize (Hm w Hw (HP w Hp)).
  destruct (m (Some D) w) as [w' r]. destruct Hm. auto.
Qed.

(** [left k w]: less than [k] seconds are left. *)
Definition left_over (k : Z) (w : World) : Prop := D - now w < 1000 * k.

(** The outcome of a request: an answer, or the deadline. A sleep takes its time. *)
Definition lasts (q : req) : Z := match q with QSleep ms => Z.max 0 ms | _ => 0 end.

Lemma timed_call q k :
  timed (left_over k) (call oracle q)
    (fun r w => match r with
                | inl e => e = Cancelled /\ left_over k w
                | inr _ => D - now w < 1000 * k - lasts q
                end).
Proof.
  intros w Hw Hk. unfold call, bind, gets, modify, elapse, ret, left_over in *.
  destruct (oracle q (length (requests w))) as [d a].
  set (w1 := w <| requests ::= _ |>). change (now w1) with (now w).
  destruct (Z.ltb_spec D (now w + Z.max 0 (match q with QSleep ms => Z.max ms d | _ => d end)));
    simpl; (split; [lia |]); [split; [done | lia] |]. unfold lasts. destruct q; lia.
Qed.

(** No fuel runs out and no more time is left. *)
Definition fine {A} (k : Z) (r : exn + A) (w : World) : Prop :=
  r <> inl OutOfFuel /\ left_over k w.

Lemma timed_call_fine q k : timed (left_over k) (call oracle q) (fine k).
Proof.
  intros w Hw Hk. pose proof (timed_call q k w Hw Hk) as Hc.
  destruct (call oracle q (Some D) w) as [w' [e|a]]; destruct Hc as [Ht Hc]; unfold fine, left_over in *;
    (split; [lia |]); [destruct Hc; split; [congruence | done] | split; [done |]].
  assert (0 <= lasts q) by (destruct q; simpl; lia). lia.
Qed.

Lemma timed_rpc {A} k (r : rpc_error + A) : timed (left_over k) (rpc r) (fine k).
Proof.
  apply timed_pure. intros w Hk. destruct r as [[[] ?]|a]; simpl; done.
Qed.

(** A step followed by another, neither running out of fuel. *)
Lemma fine_bind {A B} k (m : M A) (g : A -> M B) :
  timed (left_over k) m (fine k) -> (forall a, timed (left_over k) (g a) (fine k)) ->
  timed (left_over k) (bind m g) (fine k).
Proof.
  intros Hm Hg. eapply timed_bind; [exact Hm | |].
  - intros e w [He Hk]. split; [congruence | done].
  - intros a. eapply timed_weaken; [apply Hg | by intros w [_ ?] | done].
Qed.

Lemma fine_pure {A} k (m : M A) :
  (forall w, let '(w', r) := m (Some D) w in now w' = now w /\ r <> inl OutOfFuel) ->
  timed (left_over k) m (fine k).
Proof.
  intros Hm. apply timed_pure. intros w Hk. specialize (Hm w).
  destruct (m (Some D) w) as [w' r]. destruct Hm as [Ht Hr]. unfold fine, left_over in *.
  rewrite Ht. done.
Qed.

Lemma get_fine k : timed (left_over k) (get oracle) (fine k).
Proof.
  unfold get. apply fine_bind; [by apply fine_pure |]. intros l.
  apply fine_bind; [apply timed_call_fine |]. intros r. apply timed_rpc.
Qed.

Lemma create_fine k : timed (left_over k) (create oracle) (fine k).
Proof.
  unfold create. apply fine_bind; [by apply fine_pure |]. intros l.
  apply fine_bind; [apply timed_call_fine |]. intros r.
  apply fine_bind; [apply timed_rpc |]. intros v. by apply fine_pure.
Qed.

Lemma labels_fine k : timed (left_over k) (fetch_exporter_labels oracle) (fine k).
Proof.
  unfold fetch_exporter_labels. apply fine_bind; [by apply fine_pure |]. intros l.
  apply fine_bind; [apply timed_call_fine |]. intros [e|labels]; by apply fine_pure.
Qed.

Lemma fine_mono {A} k k' (r : exn + A) w : k <= k' -> fine k r w -> fine k' r w.
Proof. unfold fine, left_over. intros ? [? ?]. split; [done | lia]. Qed.

(** After a sleep of at least a second, less is left. *)
Lemma sleep_bind {A} k ms (g : M A) :
  1000 <= ms -> timed (left_over (k - 1)) g (fine (k - 1)) ->
  timed (left_over k) (bind (sleep oracle ms) (fun _ => g)) (fine k).
Proof.
  intros Hms Hg. eapply timed_bind; [apply (timed_call (QSleep ms) k) | |].
  - simpl. intros e w [-> ?]. by split.
  - intros a. eapply timed_weaken; [exact Hg | |].
    + intros w Hk. unfold left_over. simpl in Hk. lia.
    + intros r w. apply fine_mono. lia.
Qed.

Lemma sleeps_fine k n : timed (left_over k) (sleeps oracle n) (fine k).
Proof.
  induction n as [|n IH]; cbn [sleeps]; [by apply fine_pure |].
  apply fine_bind; [apply (timed_call_fine (QSleep 1000)) | done].
Qed.

Lemma sleeps_bind {A} k n (g : M A) :
  timed (left_over (k - 1)) g (fine (k - 1)) ->
  timed (left_over k) (bind (sleeps oracle (S n)) (fun _ => g)) (fine k).
Proof.
  intros Hg.
  eapply timed_bind with (R := fun r w => match r with
    | inl e => fine k (inl e : exn + A) w | inr _ => left_over (k - 1) w end); [| done |].
  - cbn [sleeps]. eapply timed_bind; [apply (timed_call (QSleep 1000) k) | |].
    + simpl. intros e w [-> ?]. by split.
    + intros a. eapply timed_weaken; [apply (sleeps_fine (k - 1) n) | |].
      * intros w Hk. unfold left_over. simpl in Hk. lia.
      * intros [e|u] w [He Hk]; [| done]. split; [congruence |]. unfold left_over in *. lia.
  - intros a. eapply timed_weaken; [exact Hg | done |]. intros r w. apply fine_mono. lia.
Qed.

Lemma bind_assoc {A B C} (m : M A) (g : A -> M B) (h : B -> M C) dl w :
  bind (bind m g) h dl w = bind m (fun a => bind (g a) h) dl w.
Proof. unfold bind. by destruct (m dl w) as [w' [e|a]]. Qed.

Lemma timed_ext {A} P (m m' : M A) Q :
  (forall dl w, m dl w = m' dl w) -> timed P m Q -> timed P m' Q.
Proof. intros E Hm w Hw Hp. rewrite <- E. by apply Hm. Qed.

Context (backoff_ok : forall a, 1000 <= backoff a).

Lemma get_with_retry_fine n a : timed (left_over (Z.of_nat n)) (get_with_retry oracle backoff n a) (fine (Z.of_nat n)).
Proof.
  revert a. induction n as [|n IH]; intros a; cbn [get_with_retry].
  - intros w Hw Hk. unfold left_over in Hk. lia.
  - eapply timed_catch; [apply get_fine | done |]. intros e.
    destruct e; try by apply timed_pure.
    eapply timed_weaken; [apply (sleep_bind (Z.of_nat (S n)) (backoff a)); [done |] | | done].
    + replace (Z.of_nat (S n) - 1) with (Z.of_nat n) by lia. apply IH.
    + by intros w [_ ?].
Qed.

Lemma poll_lease_fine n :
  timed (left_over (Z.of_nat n)) (poll_lease oracle backoff n) (fine (Z.of_nat n)).
Proof.
  induction n as [|n IH]; [intros w Hw Hk; unfold left_over in Hk; lia |].
  cbn [poll_lease]. apply fine_bind; [apply get_with_retry_fine |]. intros v.
  apply fine_bind; [by apply fine_pure |]. intros l.
  assert (Z.of_nat n = Z.of_nat (S n) - 1) as E by lia. rewrite E in IH.
  destruct (judge (v_conditions v)); try by apply fine_pure.
  - apply fine_bind; [by apply fine_pure |]. intros _. apply labels_fine.
  - eapply timed_ext; [intros; symmetry; apply bind_assoc |].
    apply (sleeps_bind _ 4 (bind (create oracle) (fun _ => poll_lease oracle backoff n))).
    apply fine_bind; [apply create_fine | done].
  - by apply (sleeps_bind _ 4).
Qed.

End Timed.

(** ** Acquisition *)

Section Acquire.

Context (oracle : forall q : req, nat -> Z * answer q) (backoff : nat -> Z).

(** C18: acquiring a lease ends: whatever the controller answers and however often the
    connection fails ([tenacity] waits at least its initial second before it tries again),
    polling makes at most one round per second of the acquisition
    timeout, and the clock has not passed the timeout when the coroutine returns or
    raises. *)
Theorem acquire_terminates n w :
  (forall a, 1000 <= backoff a) -> 0 <= acquisition_timeout (me w) ->
  acquisition_timeout (me w) < 1000 * Z.of_nat n ->
  let '(w', r) := acquire oracle backoff n None w in
  r <> inl OutOfFuel /\ now w <= now w' <= now w + acquisition_timeout (me w).
Proof.
  intros Hb Ht Hn. unfold acquire, bind at 1, gets. cbv beta iota.
  pose proof (poll_lease_fine oracle backoff (now w + acquisition_timeout (me w)) Hb n w
    ltac:(lia) ltac:(unfold left_over; lia)) as Hp.
  unfold catch, fail_after. cbv beta iota zeta.
  destruct (poll_lease _ _ n (Some _) w) as [w' r]. destruct Hp as [Hw [Hr _]].
  destruct r as [[]|]; try done; cbv beta iota; [.. | by destruct (_ <=? _)]; simpl; done.
Qed.

Lemma bind_inv {A B} (m : M A) (g : A -> M B) dl w w' b :
  bind m g dl w = (w', inr b) -> exists w1 a, m dl w = (w1, inr a) /\ g a dl w1 = (w', inr b).
Proof. unfold bind. destruct (m dl w) as [w1 [e|a]]; [done | eauto]. Qed.

(** A request leaves the lease alone and is recorded; its answer is the oracle's. *)
Lemma call_inv q dl w w' r :
  call oracle q dl w = (w', r) ->
  me w' = me w /\ requests w' = requests w ++ [q] /\ notices w' = notices w /\
  (r = inl Cancelled \/ r = inr (snd (oracle q (length (requests w))))).
Proof.
  unfold call, bind, gets, modify, elapse, ret. destruct (oracle q _) as [d a].
  destruct dl as [D|]; [destruct (D <? _) |]; intros [= <- <-]; simpl; auto.
Qed.

Lemma get_inv dl w w' r :
  get oracle dl w = (w', r) ->
  me w' = me w /\ requests w' = requests w ++ [QGetLease (nm (me w))] /\
  notices w' = notices w /\
  match r with
  | inr v => snd (oracle (QGetLease (nm (me w))) (length (requests w))) = inr v
  | inl e => e <> OutOfFuel
  end.
Proof.
  unfold get, bind at 1, gets, bind. cbv beta iota.
  destruct (call oracle _ dl w) as [w1 r1] eqn:E. apply call_inv in E as (Hm & Hr & Hn & Ha).
  destruct Ha as [-> | ->]; [by intros [= <- <-] |].
  destruct (snd _) as [[[] ?]|v]; intros [= <- <-]; done.
Qed.

(** [v] answered a request of [w'] for the lease it is about. *)
Definition answered (w' : World) (v : LeaseView) : Prop :=
  exists i, requests w' !! i = Some (QGetLease (nm (me w'))) /\
    snd (oracle (QGetLease (nm (me w'))) i) = inr v.

Lemma get_with_retry_inv n a dl w w' v :
  get_with_retry oracle backoff n a dl w = (w', inr v) -> answered w' v.
Proof.
  revert a w. induction n as [|n IH]; intros a w; cbn [get_with_retry]; [done |].
  unfold catch. destruct (get oracle dl w) as [w1 [e|v1]] eqn:E.
  - destruct e; try done. intros (w2 & u & _ & H2)%bind_inv. eauto.
  - intros [= <- <-]. apply get_inv in E as (Hm & Hr & _ & Ha).
    exists (length (requests w)). rewrite Hm, Hr. split; [| done].
    by rewrite lookup_app_r, Nat.sub_diag by lia.
Qed.

Lemma labels_inv dl w w' :
  fetch_exporter_labels oracle dl w = (w', inr tt) ->
  exporter_name (me w') = exporter_name (me w) /\ nm (me w') = nm (me w) /\
  exists q, requests w' = requests w ++ [q].
Proof.
  unfold fetch_exporter_labels. intros (w1 & l & [= <- <-] & H1)%bind_inv.
  apply bind_inv in H1 as (w2 & r & (Hm & Hr & _)%call_inv & H2).
  destruct r; injection H2 as <-; simpl; rewrite Hm; eauto.
Qed.

Lemma poll_lease_inv n dl w w' :
  poll_lease oracle backoff n dl w = (w', inr tt) ->
  exists v, answered w' v /\ condition_true (v_conditions v) "Ready" = true /\
    exporter_name (me w') = v_exporter v.
Proof.
  revert w. induction n as [|n IH]; intros w; cbn [poll_lease]; [done |].
  intros (w1 & v & Hv%get_with_retry_inv & H1)%bind_inv.
  apply bind_inv in H1 as (w2 & l & [= <- <-] & H2).
  destruct (judge (v_conditions v)) eqn:J; try done;
    [| apply bind_inv in H2 as (? & ? & _ & ?); eauto..].
  apply bind_inv in H2 as (w3 & u & [= <- <-] & (He & Hn & q & Hq)%labels_inv).
  exists v. unfold judge in J. destruct (condition_true (v_conditions v) "Ready");
    [| split_ifs_in J; done].
  split_and!; [| done | by rewrite He].
  destruct Hv as (i & Hi & Ha). exists i. rewrite Hn, Hq. split; [| done].
  rewrite lookup_app_l; [done |]. by apply lookup_lt_Some in Hi.
Qed.

(** Acquisition succeeds only with a lease that is ready: the lease that the client
    ends up with was polled, the controller's answer had its [Ready] condition true, and
    the exporter's name is the one of that answer. *)
Theorem acquire_ready n dl w w' :
  acquire oracle backoff n dl w = (w', inr tt) ->
  exists i v, requests w' !! i = Some (QGetLease (nm (me w'))) /\
    snd (oracle (QGetLease (nm (me w'))) i) = inr v /\
    condition_true (v_conditions v) "Ready" = true /\
    exporter_name (me w') = v_exporter v.
Proof.
  unfold acquire. intros (w1 & l & [= <- <-] & H1)%bind_inv. revert H1.
  unfold catch, fail_after. cbv beta iota zeta.
  destruct (poll_lease _ _ n _ w) as [w1 [e|[]]] eqn:E.
  - destruct e; try done. by destruct (_ <=? _).
  - intros [= <-]. apply poll_lease_inv in E as (v & (i & Hi & Ha) & Hr & He). by exists i, v.
Qed.

(** An existing lease that has ended, or that belongs to another client, is refused
    with a [LeaseError] after the one request that read it: no lease is created and none
    is polled. *)
Theorem foreign_lease_refused n w w1 v x :
  name (me w) = Some x -> truthy x = true ->
  get oracle None w = (w1, inr v) ->
  is_some (v_end v) = true \/
    (truthy (default "" (client_name (me w))) = true /\
     v_client v <> default "" (client_name (me w))) ->
  let '(w', r) := request_async oracle backoff n None w in
  (exists msg, r = inl (LeaseError msg)) /\
  me w' = me w /\ requests w' = requests w ++ [QGetLease x].
Proof.
  intros Hx Htr Hget Hbad. pose proof (get_inv _ _ _ _ Hget) as (Hm & Hr & _).
  unfold request_async, bind at 1, gets. cbv beta iota. rewrite Hx. change (default "" (Some x)) with x.
  rewrite bool_decide_true by by rewrite Htr.
  unfold nm in Hr. rewrite Hx in Hr.
  unfold bind at 1, bind at 1. rewrite Hget. cbv beta iota.
  destruct (is_some (v_end v)); [by split; [eexists |] |].
  destruct Hbad as [? | [-> Hne]]; [done |].
  apply String.eqb_neq in Hne. rewrite Hne. by split; [eexists |].
Qed.

(** Leaving the context of a lease that is to be released always reads it, and then
    deletes it exactly when that read was answered in time: a failed read skips the
    deletion. It is shielded from the deadlines around it, takes at most 30 seconds and
    never raises. *)
Theorem release_requests dl w x :
  release (me w) = true -> name (me w) = Some x -> truthy x = true ->
  let '(w', r) := release_lease oracle dl w in
  let '(d, a) := oracle (QGetLease x) (length (requests w)) in
  r = inr tt /\ me w' = me w /\ now w <= now w' <= now w + 30000 /\
  requests w' = requests w ++ [QGetLease x] ++
    match a with inr _ => if d <=? 30000 then [QDeleteLease x] else [] | inl _ => [] end.
Proof.
  intros Hrel Hx Htr. unfold release_lease. rewrite Hrel, Hx. change (default "" (Some x)) with x. rewrite Htr.
  unfold catch, fail_after. cbv beta iota zeta.
  unfold get, call, bind, gets, modify, elapse, ret, rpc. cbv beta iota.
  assert (nm (me w) = x) as -> by (unfold nm; by rewrite Hx).
  destruct (oracle (QGetLease x) (length (requests w))) as [d a]. simpl.
  destruct (Z.ltb_spec (now w + 30000) (now w + Z.max 0 d)); simpl.
  { rewrite (proj2 (Z.leb_le _ _)) by lia. simpl.
    rewrite (proj2 (Z.leb_gt d 30000)) by lia. destruct a; split_and!; auto; lia. }
  rewrite (proj2 (Z.leb_le d 30000)) by lia.
  destruct a as [[[] ?]|v]; simpl; try (split_and!; auto; lia).
  assert (nm (me w) = x) as -> by (unfold nm; by rewrite Hx).
  destruct (oracle (QDeleteLease x) _) as [d' a']. simpl.
  destruct (Z.ltb_spec (now w + 30000) (now w + Z.max 0 d + Z.max 0 d')); simpl.
  { rewrite (proj2 (Z.leb_le _ _)) by lia. simpl. rewrite <- app_assoc.
    split_and!; auto; lia. }
  destruct a' as [[[] ?]|[]]; simpl; rewrite <- app_assoc; split_and!; auto; lia.
Qed.

(** When the controller finds no exporter, the retry does not ask for a new lease:
    the request to create it carries the id of the lease that was refused. *)
Theorem no_exporter_retry_same_id w x :
  name (me w) = Some x ->
  last (requests (handle_no_exporter_retry oracle None w).1) = Some (QCreateLease (Some x)).
Proof.
  intros Hx.
  assert (exists w1, sleeps oracle 5 None w = (w1, inr tt) /\ me w1 = me w) as (w1 & Hs & Hm).
  { clear Hx. generalize 5%nat. intros n. revert w. induction n as [|n IH]; intros w; [by exists w |].
    cbn [sleeps]. unfold bind.
    destruct (sleep oracle 1000 None w) as [w1 r] eqn:E.
    assert (r = inr tt) as ->.
    { revert E. unfold sleep, call, bind, gets, modify, elapse, ret.
      destruct (oracle _ _) as [d []]. by intros [= _ <-]. }
    apply (call_inv (QSleep 1000)) in E as (<- & _). apply IH. }
  unfold handle_no_exporter_retry, bind at 1. rewrite Hs.
  unfold create, bind at 1, gets. cbv beta iota. rewrite Hm, Hx. unfold bind.
  destruct (call oracle _ None w1) as [w2 r] eqn:E. apply call_inv in E as (_ & Hr & _ & Ha).
  assert (last (requests w2) = Some (QCreateLease (Some x))) as Hl by by rewrite Hr, last_snoc.
  destruct r as [e|[[[] ?]|v]]; done.
Qed.

End Acquire.

(** ** Dialling *)

Section Dial.

Context (oracle : forall q : req, nat -> Z * answer q).

(** What a call does to the clock when no deadline surrounds it. *)
Lemma call_free q w :
  exists w' a, call oracle q None w = (w', inr a) /\ me w' = me w /\
    now w + lasts q <= now w' /\ a = snd (oracle q (length (requests w))) /\
    requests w' = requests w ++ [q] /\ notices w' = notices w /\
    (match q with QSleep _ => True | _ => fst (oracle q (length (requests w))) <= now w' - now w end).
Proof.
  unfold call, bind, gets, modify, elapse, ret. destruct (oracle q _) as [d a]. simpl.
  eexists _, a. split; [done |]. simpl. unfold lasts. destruct q; split_and!; done || lia.
Qed.

Definition unreachable (e : exn) : Prop := exists msg, e = ExporterUnreachableError msg.

(** How dialling may end for the lease of [w]. *)
Definition dial_post (w : World) (o : World * (exn + unit)) : Prop :=
  (snd o = inr tt \/ exists e, snd o = inl e /\ unreachable e) /\
  (lease_transferred (me (fst o)) = true ->
   lease_transferred (me w) = true \/
   exists i e, snd (oracle (QDial (nm (me w))) i) = inl e /\ permission_denied e = true) /\
  me (fst o) <| lease_transferred := lease_transferred (me w) |> = me w.

Lemma dial_post_same w w1 r :
  me w1 = me w -> r = inr tt \/ (exists e, r = inl e /\ unreachable e) -> dial_post w (w1, r).
Proof.
  intros Hm Hr. unfold dial_post. simpl. rewrite Hm. split; [done |]. destruct (me w); auto.
Qed.

Lemma raise_unreachable msg :
  (inl (ExporterUnreachableError msg) : exn + unit) = inr tt \/
  exists e, (inl (ExporterUnreachableError msg) : exn + unit) = inl e /\ unreachable e.
Proof. right. eexists. split; [done |]. by eexists. Qed.

Lemma retry_delay a remaining : 0 < remaining -> Z.min 300 remaining <= dial_delay a remaining.
Proof.
  intros Hr. unfold dial_delay. pose proof (Z.pow_pos_nonneg 2 (Z.of_nat (Nat.min a 10))). lia.
Qed.

Lemma dial_loop_ends n a deadline w :
  deadline - now w <= 300 * (Z.of_nat n - 1) -> (0 < n)%nat ->
  dial_post w (dial_loop oracle n a deadline None w).
Proof.
  revert a w. induction n as [|n IH]; intros a w Hn Hpos; [lia |]. cbn [dial_loop].
  unfold bind at 1, gets. cbv beta iota.
  destruct (call_free (QDial (nm (me w))) w) as (w1 & r & Hc & Hm & Ht & Hr & _).
  unfold bind at 1. rewrite Hc. simpl in Ht.
  destruct r as [e|[]]; [| apply dial_post_same; auto].
  unfold bind at 1. cbv beta iota zeta.
  assert (forall msg, dial_post w ((if deadline - now w1 <=? 0
       then raise (ExporterUnreachableError msg)
       else bind (sleep oracle (dial_delay a (deadline - now w1)))
              (fun _ => dial_loop oracle n (S a) deadline)) None w1)) as Hretry.
  { intros msg. destruct (Z.leb_spec (deadline - now w1) 0) as [Hle|Hgt].
    - by apply dial_post_same, raise_unreachable.
    - pose proof (retry_delay a _ Hgt) as Hms. set (ms := dial_delay _ _) in *.
      destruct (call_free (QSleep ms) w1) as (w2 & u & Hs & Hm2 & Ht2 & _).
      unfold bind at 1, sleep. rewrite Hs. simpl in Ht2.
      specialize (IH (S a) w2 ltac:(lia) ltac:(lia)). unfold dial_post in IH |- *.
      rewrite Hm2, Hm in IH. exact IH. }
  destruct (not_ready e); [apply Hretry |]. destruct (unavailable e); [apply Hretry |].
  destruct (permission_denied e) eqn:Hp; [| by apply dial_post_same, raise_unreachable].
  unfold dial_post, upd, bind, modify, raise. cbn [fst snd me set_field set_me]. rewrite Hm.
  split; [apply raise_unreachable |].
  split; [| destruct (me w); done]. intros _. right. exists (length (requests w)), e. auto.
Qed.

(** Dialling ends after at most one attempt per 300 ms of the dial timeout, with a
    tunnel or an [ExporterUnreachableError], and changes nothing of the lease but the
    transferred flag, which it sets only when the controller answered that the permission
    was denied. *)
Theorem dial_ends n w :
  0 <= dial_timeout (me w) -> dial_timeout (me w) <= 300 * (Z.of_nat n - 1) ->
  let '(w', r) := dial_with_retry oracle n None w in
  (r = inr tt \/ exists msg, r = inl (ExporterUnreachableError msg)) /\
  (lease_transferred (me w') = true ->
   lease_transferred (me w) = true \/
   exists i e, snd (oracle (QDial (nm (me w))) i) = inl e /\ permission_denied e = true) /\
  me w' <| lease_transferred := lease_transferred (me w) |> = me w.
Proof.
  intros H0 Hn. unfold dial_with_retry, bind, gets. cbv beta iota.
  pose proof (dial_loop_ends n 0 (now w + dial_timeout (me w)) w ltac:(lia) ltac:(lia)) as Hd.
  destruct (dial_loop _ n 0 _ None w) as [w' r]. destruct Hd as [Hr Hd]. split; [| done].
  simpl in Hr. destruct Hr as [-> | (e & -> & msg & ->)]; eauto.
Qed.

End Dial.

(** ** The monitor *)

Section Monitor.

Context (oracle : forall q : req, nat -> Z * answer q) (E threshold : Z).

(** The controller keeps the end of the lease, and asking it takes time. *)
Context (end_known : forall q i v, snd (oracle (QGetLease q) i) = inr v ->
           get_lease_end_time v = Some E).
Context (takes_time : forall q i, 1 <= fst (oracle (QGetLease q) i)).

(** Announcements of an end to come. *)
Definition ahead (l : list Z) : nat := countb (fun r => 0 <? r) l.

(** An outcome of the monitor: the lease is marked as ended, after its end; [l] are the
    announcements made on the way. *)
Definition monitored (w : World) (l : list Z) (o : World * (exn + unit)) : Prop :=
  snd o = inr tt /\ lease_ended (me (fst o)) = true /\ E <= now (fst o) /\
  notices (fst o) = notices w ++ l ++ [0].

Lemma try_get_free w :
  exists w' o, try_get oracle None w = (w', inr o) /\ now w + 1 <= now w' /\
    me w' = me w /\ notices w' = notices w /\
    match o with
    | Some v => get_lease_end_time v = Some E
    | None => exists q i e, snd (oracle (QGetLease q) i) = inl e
    end.
Proof.
  unfold try_get, catch, bind at 1, get, bind at 1, gets. cbv beta iota.
  destruct (call_free oracle (QGetLease (nm (me w))) w) as (w1 & r & Hc & Hm & _ & Hr & _ & Hn & Ht).
  unfold bind at 1. rewrite Hc.
  pose proof (takes_time (nm (me w)) (length (requests w))).
  destruct r as [[[] d]|v]; cbn; eexists _, _; (split; [done |]); split_and!; eauto; lia.
Qed.

Lemma notify_free r w :
  exists w', notify_lease_ending r None w = (w', inr tt) /\ now w' = now w /\
    notices w' = notices w ++ [r] /\ (r <= 0 -> lease_ended (me w') = true).
Proof.
  unfold notify_lease_ending, bind, upd, modify, ret.
  destruct (Z.leb_spec r 0); eexists; (split; [done |]); simpl; split_and!; auto; lia.
Qed.

Lemma sleep_step ms (g : M unit) w :
  exists w2, bind (sleep oracle ms) (fun _ => g) None w = g None w2 /\
    notices w2 = notices w /\ now w + Z.max 0 ms <= now w2.
Proof.
  destruct (call_free oracle (QSleep ms) w) as (w2 & a & Hc & _ & Ht & _ & _ & Hn & _).
  exists w2. unfold bind, sleep. by rewrite Hc.
Qed.

Lemma monitored_end w w1 :
  notices w1 = notices w -> E <= now w1 -> monitored w [] (notify_lease_ending 0 None w1).
Proof.
  intros Hno HE. destruct (notify_free 0 w1) as (w2 & -> & Ht & Hn & He).
  unfold monitored. simpl. rewrite Hn, Ht, Hno. auto with lia.
Qed.

(** A round that goes on: [pre] was announced, then the monitor slept. *)
Lemma monitored_round n w w1 ms pre :
  (forall last w, last = Some E -> E - now w < Z.of_nat n - 1 -> (0 < n)%nat ->
     exists l, monitored w l (monitor oracle n threshold last None w) /\
       (ahead l <= 1)%nat /\ (E - now w < threshold - CHECK_INTERVAL -> ahead l = 0%nat)) ->
  E - now w < Z.of_nat n -> now w + 1 <= now w1 <= E ->
  notices w1 = notices w ++ pre ->
  (pre = [] \/ E - now w1 - Z.max 0 ms < threshold - CHECK_INTERVAL) -> (length pre <= 1)%nat ->
  (E - now w < threshold - CHECK_INTERVAL -> pre = []) ->
  exists l, monitored w l
      (bind (sleep oracle ms) (fun _ => monitor oracle n threshold (Some E)) None w1) /\
    (ahead l <= 1)%nat /\ (E - now w < threshold - CHECK_INTERVAL -> ahead l = 0%nat).
Proof.
  intros IH Hn Hw1 Hno Hpre Hlen Hfirst.
  destruct (sleep_step ms (monitor oracle n threshold (Some E)) w1) as (w2 & -> & Hno2 & Ht).
  destruct (IH (Some E) w2 eq_refl ltac:(lia) ltac:(lia)) as (l & Hl & Hl1 & Hl0).
  exists (pre ++ l). split.
  - unfold monitored in *. rewrite Hno2, Hno in Hl. by rewrite <- !app_assoc in Hl |- *.
  - unfold ahead in *. rewrite countb_app.
    pose proof (countb_length (fun r => 0 <? r) pre).
    destruct Hpre as [-> | Hlt]; simpl.
    + split; [done |]. intros Hlt. apply Hl0. lia.
    + rewrite Hl0 by lia. split; [lia |]. intros ->%Hfirst. done.
Qed.

Lemma monitor_loop n last w :
  CHECK_INTERVAL < threshold ->
  last = Some E \/ (forall q i, exists v, snd (oracle (QGetLease q) i) = inr v) ->
  E - now w < Z.of_nat n - 1 -> (0 < n)%nat ->
  exists l, monitored w l (monitor oracle n threshold last None w) /\
    (ahead l <= 1)%nat /\ (E - now w < threshold - CHECK_INTERVAL -> ahead l = 0%nat).
Proof.
  intros Hth. revert last w. induction n as [|n IH]; intros last w Hlast Hn Hpos; [lia |].
  destruct (try_get_free w) as (w1 & o & Hg & Ht & Hm & Hno & Ho).
  cbn [monitor]. unfold bind at 1. rewrite Hg. unfold bind at 1, gets. cbv beta iota.
  assert (notices w1 = notices w ++ []) as Hno' by by rewrite app_nil_r.
  destruct o as [v|].
  - rewrite Ho. cbv zeta. destruct (Z.ltb_spec (E - now w1) 0).
    { exists []. split; [apply monitored_end; [done | lia] | split; [unfold ahead; simpl; lia | done]]. }
    destruct (_ && _) eqn:Hwin.
    + apply andb_true_iff in Hwin as [Hlo%Z.leb_le Hhi%Z.ltb_lt].
      destruct (notify_free (E - now w1) w1) as (w2 & Hs & Ht2 & Hn2 & _).
      unfold bind at 1. rewrite Hs.
      eapply (monitored_round n w w2 _ [E - now w1]); try lia.
      * intros ? w' ->. apply IH. by left.
      * by rewrite Hn2, Hno.
      * simpl. lia.
    + by apply (monitored_round n w w1 _ []); auto; try lia; intros ? w' ->; apply IH; left.
  - destruct Hlast as [-> | Hall]; [| destruct Ho as (q & i & e & He), (Hall q i); congruence].
    destruct (Z.leb_spec (E - now w1) 0).
    { exists []. split; [apply monitored_end; [done | lia] | split; [unfold ahead; simpl; lia | done]]. }
    by apply (monitored_round n w w1 _ []); auto; try lia; intros ? w' ->; apply IH; left.
Qed.

(** The monitor ends: when the controller keeps the end of the lease, the monitor
    returns after it, with the lease marked as ended and the callback told so by a last
    announcement of zero; before that the callback is told at most once that the end is
    near. *)
Theorem monitor_ends n w :
  CHECK_INTERVAL < threshold ->
  (forall q i, exists v, snd (oracle (QGetLease q) i) = inr v) ->
  notices w = [] -> E - now w < Z.of_nat n - 1 -> (0 < n)%nat ->
  let '(w', r) := monitor oracle n threshold None None w in
  r = inr tt /\ lease_ended (me w') = true /\ E <= now w' /\
  last (notices w') = Some 0 /\ (ahead (notices w') <= 1)%nat.
Proof.
  intros Hth Hall Hno Hn Hpos.
  destruct (monitor_loop n None w Hth (or_intror Hall) Hn Hpos) as (l & (Hr & He & Ht & Hl) & Ha & _).
  destruct (monitor oracle n threshold None None w) as [w' r]. simpl in *.
  rewrite Hl, Hno. split_and!; try done; [by rewrite app_nil_l, last_snoc |].
  rewrite app_nil_l. unfold ahead in *. rewrite countb_app. simpl. lia.
Qed.

End Monitor.

(** ** A concrete controller *)

Module LeaseDemo.

Definition ready : Condition := mkCondition "Ready" "True" "Ready" "ready".
Definition view (E : Z) : LeaseView :=
  mkLeaseView "lease-1" "alice" "board=x" "exporter-1" [ready] (Some 0) None (Some E).

(** Every request takes [latency]; the lease is ready and lasts until [E]. *)
Definition controller (latency E : Z) (q : req) (_ : nat) : Z * answer q :=
  match q with
  | QGetLease _ => (latency, inr (view E))
  | QCreateLease _ => (latency, inr (view E))
  | QGetExporter _ => (latency, inr [])
  | QDeleteLease _ => (latency, inr tt)
  | QDial _ => (latency, inl (mkRpcError FAILED_PRECONDITION "exporter not ready"))
  | QSleep ms => (ms, tt)
  end.

Definition lease (n : option string) : Lease :=
  mkLease n (Some "board=x") (Some "bob") true 60000 60000 "remote" [] false false.

Definition w0 (n : option string) : World := mkWorld (lease n) 0 [] [].

Definition backoff (_ : nat) : Z := 1000.

End LeaseDemo.

Import LeaseDemo.

(** The announcement of the coming end can be missed: with a controller that takes a
    second to answer, two checks are 31 seconds apart and may lie on both sides of the
    30-second window in which the callback is told, so that it only learns of the end
    when the lease is over. *)
Theorem threshold_notice_missed :
  let '(w', r) := monitor (controller 1000 301500) 20 300000 None None (w0 (Some "lease-1")) in
  r = inr tt /\ notices w' = [0] /\ lease_ended (me w') = true.
Proof. vm_compute. auto. Qed.

Lemma acquire_terminates_witness :
  let '(w', r) := acquire (controller 1000 301500) backoff 61 None (w0 (Some "lease-1")) in
  r <> inl OutOfFuel /\ 0 <= now w' <= 60000.
Proof.
  apply (acquire_terminates (controller 1000 301500) backoff 61 (w0 (Some "lease-1")));
    [done | vm_compute; congruence | vm_compute; reflexivity].
Defined.

Lemma acquire_ready_witness :
  let w' := (acquire (controller 1000 301500) backoff 5 None (w0 (Some "lease-1"))).1 in
  exists v, condition_true (v_conditions v) "Ready" = true /\ exporter_name (me w') = v_exporter v.
Proof.
  destruct (acquire_ready (controller 1000 301500) backoff 5 None (w0 (Some "lease-1"))
    (acquire (controller 1000 301500) backoff 5 None (w0 (Some "lease-1"))).1
    ltac:(vm_compute; reflexivity)) as (i & v & _ & _ & Hc & He).
  by exists v.
Defined.

Lemma foreign_lease_refused_witness :
  let '(w', r) := request_async (controller 1000 301500) backoff 5 None (w0 (Some "lease-1")) in
  (exists msg, r = inl (LeaseError msg)) /\ me w' = lease (Some "lease-1") /\
  requests w' = [QGetLease "lease-1"].
Proof.
  apply (foreign_lease_refused (controller 1000 301500) backoff 5 (w0 (Some "lease-1"))
           (mkWorld (lease (Some "lease-1")) 1000 [QGetLease "lease-1"] []) (view 301500) "lease-1");
    [done | done | done |]. right. split; [done | discriminate].
Defined.

Lemma release_requests_witness :
  let '(w', r) := release_lease (controller 1000 301500) (Some 10) (w0 (Some "lease-1")) in
  r = inr tt /\ me w' = lease (Some "lease-1") /\ 0 <= now w' <= 30000 /\
  requests w' = [QGetLease "lease-1"; QDeleteLease "lease-1"].
Proof.
  apply (release_requests (controller 1000 301500) (Some 10) (w0 (Some "lease-1")) "lease-1");
    reflexivity.
Defined.

Lemma no_exporter_retry_same_id_witness :
  last (requests (handle_no_exporter_retry (controller 1000 301500) None (w0 (Some "lease-1"))).1) =
  Some (QCreateLease (Some "lease-1")).
Proof.
  apply (no_exporter_retry_same_id (controller 1000 301500) (w0 (Some "lease-1")) "lease-1").
  reflexivity.
Defined.

Lemma dial_ends_witness :
  let '(w', r) := dial_with_retry (controller 1000 301500) 201 None (w0 (Some "lease-1")) in
  r = inr tt \/ exists msg, r = inl (ExporterUnreachableError msg).
Proof.
  pose proof (dial_ends (controller 1000 301500) 201 (w0 (Some "lease-1"))
    ltac:(vm_compute; congruence) ltac:(vm_compute; congruence)) as Hd.
  destruct (dial_with_retry _ _ _ _) as [w' r]. apply Hd.
Defined.

Lemma monitor_ends_witness :
  let '(w', r) := monitor (controller 1000 100) 102 300000 None None
                    (w0 (Some "lease-1")) in
  r = inr tt /\ lease_ended (me w') = true /\ 100 <= now w' /\
  last (notices w') = Some 0 /\ (ahead (notices w') <= 1)%nat.
Proof.
  apply (monitor_ends (controller 1000 100) 100 300000).
  - intros q i v [= <-]. reflexivity.
  - intros q i. vm_compute. congruence.
  - vm_compute. reflexivity.
  - intros q i. by exists (view 100).
  - reflexivity.
  - vm_compute. reflexivity.
  - lia.
Defined.
