(* ===== verification/Tftp.v ===== *)
(** * The TFTP server

    [jumpstarter-driver-tftp], [server.py]: read requests with option negotiation,
    and transfers that send a file block by block with retries. Datagrams are lists
    of bytes, text is a list of code points, times are in milliseconds.

    Parameters: Python's Unicode tables ([str.isprintable], [str.lower]), [int] of a
    string, the text of a decoding error, and the storage operator (OpenDAL). *)

From stdpp Require Import base list strings pretty.
From Stdlib Require Import ZArith Lia.
From S2P Require Import Prelude PyText Coroutine.

Module Tftp.

Open Scope Z_scope.

Abbreviation bytes := (list Z).
Abbreviation text := (list Z).

(** ** Packets *)

Inductive Opcode := RRQ | WRQ | DATA | ACK | ERROR | OACK.

Definition opcode_value (o : Opcode) : Z :=
  match o with RRQ => 1 | WRQ => 2 | DATA => 3 | ACK => 4 | ERROR => 5 | OACK => 6 end.

(** [Opcode(value)] raises [ValueError] on an unknown value. *)
Definition opcode_of (v : Z) : option Opcode :=
  match v with
  | 1 => Some RRQ | 2 => Some WRQ | 3 => Some DATA | 4 => Some ACK | 5 => Some ERROR
  | 6 => Some OACK | _ => None
  end.

Inductive TftpErrorCode :=
| NOT_DEFINED | FILE_NOT_FOUND | ACCESS_VIOLATION | DISK_FULL | ILLEGAL_OPERATION
| UNKNOWN_TID | FILE_EXISTS | NO_SUCH_USER.

Definition error_value (e : TftpErrorCode) : Z :=
  match e with
  | NOT_DEFINED => 0 | FILE_NOT_FOUND => 1 | ACCESS_VIOLATION => 2 | DISK_FULL => 3
  | ILLEGAL_OPERATION => 4 | UNKNOWN_TID => 5 | FILE_EXISTS => 6 | NO_SUCH_USER => 7
  end.

(** [v.to_bytes(2, "big")] for a value that fits. *)
Definition to_bytes2 (v : Z) : bytes := [v / 256; v mod 256].

(** [int.from_bytes(b, "big")] *)
Definition from_bytes (bs : bytes) : Z := fold_left (fun acc b => acc * 256 + b) bs 0.

Definition error_packet (code : TftpErrorCode) (message : text) : bytes :=
  to_bytes2 (opcode_value ERROR) ++ to_bytes2 (error_value code) ++ Utf8.encode message ++ [0].

Definition create_data_packet (block_num : Z) (data : bytes) : bytes :=
  to_bytes2 (opcode_value DATA) ++ to_bytes2 block_num ++ data.

(** Negotiated options: a dictionary with integer values. *)
Definition option_entry (o : string * Z) : bytes :=
  Utf8.of_string (fst o) ++ [0] ++ Utf8.of_string (pretty (snd o)) ++ [0].

Definition create_oack_packet (options : list (string * Z)) : bytes :=
  to_bytes2 (opcode_value OACK) ++ concat (map option_entry options).

(** ** Read requests *)

Section Requests.

Context (isprintable : Z -> bool) (lower : text -> text) (py_int : text -> option Z)
        (decode_error : bytes -> text).

Record TftpServer := mkTftpServer {
  srv_block_size : Z;
  srv_timeout : Z;
  srv_retries : nat;
  shutdown_event : bool
}.

Definition forbidden : text := Utf8.of_string "<>:/\|?*" ++ [34].

Definition filename_char_ok (c : Z) : bool :=
  isprintable c && negb (existsb (Z.eqb c) forbidden).

(** [x.decode("utf-8")], with the text of the exception. *)
Definition decode (bs : bytes) : text + text :=
  match Utf8.decode bs with Some t => inr t | None => inl (decode_error bs) end.

(** [_parse_options]: pairs of parts until one does not decode. *)
Fixpoint parse_options_loop (n : nat) (parts : list bytes) (options : list (text * text))
    : list (text * text) :=
  match n with
  | O => options
  | S n' =>
      match parts with
      | name :: value :: rest =>
          match Utf8.decode name, Utf8.decode value with
          | Some nm, Some v =>
              parse_options_loop n' rest
                ((fix set d := match d with
                               | [] => [(lower nm, v)]
                               | (k, x) :: d' => if decide (k = lower nm) then (k, v) :: d'
                                                 else (k, x) :: set d'
                               end) options)
          | _, _ => options
          end
      | _ => options
      end
  end.

Definition parse_options (parts : list bytes) : list (text * text) :=
  parse_options_loop (length parts) parts [].

(** [_parse_request]: the text of a [ValueError], or file name, mode and options. *)
Definition parse_request (data : bytes) : text + (text * text * list (text * text)) :=
  match Utf8.split_byte 0 (drop 2 data) with
  | p0 :: p1 :: rest =>
      match decode p0 with
      | inl e => inl e
      | inr filename =>
          if (255 <? Z.of_nat (length filename)) then inl (Utf8.of_string "Filename too long")
          else if negb (forallb filename_char_ok filename)
          then inl (Utf8.of_string "Invalid characters in filename")
          else if existsb (Z.eqb 0) filename then inl (Utf8.of_string "Null byte in filename")
          else match decode p1 with
               | inl e => inl e
               | inr mode => inr (filename, lower mode, parse_options rest)
               end
      end
  | _ => inl (Utf8.of_string "Invalid RRQ format")
  end.

Definition valid_mode (mode : text) : bool :=
  bool_decide (mode = Utf8.of_string "netascii") || bool_decide (mode = Utf8.of_string "octet").

(** [PurePosixPath(filename)]: its parts (empty ones and [.] are dropped) and
    whether it is absolute. *)
Definition path_parts (filename : text) : list text :=
  List.filter (fun p => negb (bool_decide (p = [])) && negb (bool_decide (p = [46])))
    (Utf8.split_byte 47 filename).

Definition is_absolute (filename : text) : bool :=
  match filename with c :: _ => c =? 47 | [] => false end.

(** Answers of [operator.stat]. *)
Inductive stat_result := StatNotFound | StatFile | StatOther | StatError (msg : text).

Definition traversal (filename : text) : bool :=
  existsb (fun p => bool_decide (p = [46; 46])) (path_parts filename) || is_absolute filename.

(** [_resolve_and_validate_path]: the error to send, the exception raised, or the
    path. *)
Inductive resolved := Rejected (code : TftpErrorCode) (msg : text) | Raised (msg : text)
| Resolved (path : text).

Definition resolve_and_validate_path (filename : text) (stat : stat_result) : resolved :=
  if traversal filename then Rejected ACCESS_VIOLATION (Utf8.of_string "Access violation")
  else
    match stat with
    | StatNotFound => Rejected FILE_NOT_FOUND (Utf8.of_string "File not found")
    | StatOther => Rejected FILE_NOT_FOUND (Utf8.of_string "Not a file")
    | StatError m => Raised m
    | StatFile => Resolved filename
    end.

Definition negotiate_block_size (srv : TftpServer) (requested : option text) : Z :=
  match requested with
  | None => srv_block_size srv
  | Some r =>
      match py_int r with
      | Some b => if (512 <=? b) && (b <=? 65464) then b else srv_block_size srv
      | None => srv_block_size srv
      end
  end.

Definition negotiate_timeout (srv : TftpServer) (requested : option text) : Z :=
  match requested with
  | None => srv_timeout srv
  | Some r =>
      match py_int r with
      | Some t => if (1 <=? t) && (t <=? 255) then 1000 * t else srv_timeout srv
      | None => srv_timeout srv
      end
  end.

Fixpoint option_get (k : text) (d : list (text * text)) : option text :=
  match d with
  | [] => None
  | (k', v) :: d' => if decide (k = k') then Some v else option_get k d'
  end.

Definition BLKSIZE : text := Utf8.of_string "blksize".
Definition TIMEOUT : text := Utf8.of_string "timeout".

(** [_negotiate_options]: what is acknowledged, the block size and the timeout. *)
Definition negotiate_options (srv : TftpServer) (options : list (text * text))
    : list (string * Z) * Z * Z :=
  let '(negotiated, blksize) :=
    match option_get BLKSIZE options with
    | Some r => let b := negotiate_block_size srv (Some r) in ([("blksize"%string, b)], b)
    | None => ([], srv_block_size srv)
    end in
  match option_get TIMEOUT options with
  | Some r =>
      let t := negotiate_timeout srv (Some r) in
      (negotiated ++ [("timeout"%string, Z.quot t 1000)], blksize, t)
  | None => (negotiated, blksize, srv_timeout srv)
  end.

(** What a request leads to: an error packet, nothing, or a transfer. *)
Inductive rrq_outcome :=
| NoReply
| SendError (code : TftpErrorCode) (msg : text)
| StartTransfer (path : text) (blksize timeout : Z) (negotiated : list (string * Z)).

Definition handle_read_request (srv : TftpServer) (data : bytes) (stat : text -> stat_result)
    : rrq_outcome :=
  match parse_request data with
  | inl e => SendError NOT_DEFINED e
  | inr (filename, mode, options) =>
      if negb (valid_mode mode)
      then SendError ILLEGAL_OPERATION (Utf8.of_string "Unsupported transfer mode")
      else
        match resolve_and_validate_path filename (stat filename) with
        | Rejected code msg => SendError code msg
        | Raised msg => SendError NOT_DEFINED msg
        | Resolved path =>
            if bool_decide (path = []) then NoReply
            else
              let '(negotiated, blksize, timeout) := negotiate_options srv options in
              StartTransfer path blksize timeout negotiated
        end
  end.

(** [datagram_received] of the server's protocol. *)
Inductive server_action := Ignore | Reply (packet : bytes) | HandleRead (data : bytes).

Definition server_datagram_received (srv : TftpServer) (data : bytes) : server_action :=
  if (length data <? 4)%nat
  then Reply (error_packet ILLEGAL_OPERATION (Utf8.of_string "Malformed packet"))
  else if shutdown_event srv then Ignore
  else
    match opcode_of (from_bytes (take 2 data)) with
    | None => Reply (error_packet ILLEGAL_OPERATION (Utf8.of_string "Unknown opcode"))
    | Some RRQ => HandleRead data
    | Some _ => Reply (error_packet ILLEGAL_OPERATION (Utf8.of_string "Unsupported operation"))
    end.

End Requests.

End Tftp.
