(* ===== verification/TftpTransfer.v ===== *)
(** * TFTP read transfers

    [TftpReadTransfer] and [TftpTransferProtocol] of [server.py]: one task per read
    request sends the file block by block and waits for the acknowledgement of each,
    while the protocol's callbacks handle the client's datagrams whenever the task is
    suspended.

    A transfer is a record of the object's attributes with the trace of the datagrams
    that crossed its socket. The coroutine is written in a state and exception monad
    [M]. Each [await] is a suspension: the environment [env], a parameter, says which
    events happen during it (datagrams, the server's shutdown, the server's clean-up)
    and whether a timed wait reaches its deadline. It sees the whole transfer, so that
    it stands for any client on any network. The storage operator is a parameter too: the
    class [Operator], with the laws of [OperatorLaws] where a theorem relies on them. *)

From stdpp Require Import base list strings pretty.
From Stdlib Require Import ZArith Lia.
From S2P Require Import Prelude PyText Tftp.

Module Transfer.

Import Tftp.
Open Scope Z_scope.

(** Datagrams on the socket of the transfer. *)
Inductive io := Out (packet : bytes) | In (data : bytes).

Record TftpReadTransfer := mkTransfer {
  filepath : text;
  block_size : Z;
  timeout : Z;
  retries : nat;
  negotiated_options : list (string * Z);
  transport : bool;
  block_num : Z;
  ack_received : bool;
  last_ack : Z;
  oack_confirmed : bool;
  current_packet : option bytes;
  registered : bool;
  server_timeout : Z;
  shutdown : bool;
  trace : list io
}.

#[export] Instance set_filepath : Setter filepath := fun u r =>
  mkTransfer (u (filepath r)) (block_size r) (timeout r) (retries r)
    (negotiated_options r) (transport r) (block_num r) (ack_received r) (last_ack r)
    (oack_confirmed r) (current_packet r) (registered r) (server_timeout r)
    (shutdown r) (trace r).
#[export] Instance set_block_size : Setter block_size := fun u r =>
  mkTransfer (filepath r) (u (block_size r)) (timeout r) (retries r)
    (negotiated_options r) (transport r) (block_num r) (ack_received r) (last_ack r)
    (oack_confirmed r) (current_packet r) (registered r) (server_timeout r)
    (shutdown r) (trace r).
#[export] Instance set_timeout : Setter timeout := fun u r =>
  mkTransfer (filepath r) (block_size r) (u (timeout r)) (retries r)
    (negotiated_options r) (transport r) (block_num r) (ack_received r) (last_ack r)
    (oack_confirmed r) (current_packet r) (registered r) (server_timeout r)
    (shutdown r) (trace r).
#[export] Instance set_retries : Setter retries := fun u r =>
  mkTransfer (filepath r) (block_size r) (timeout r) (u (retries r))
    (negotiated_options r) (transport r) (block_num r) (ack_received r) (last_ack r)
    (oack_confirmed r) (current_packet r) (registered r) (server_timeout r)
    (shutdown r) (trace r).
#[export] Instance set_negotiated_options : Setter negotiated_options := fun u r =>
  mkTransfer (filepath r) (block_size r) (timeout r) (retries r) (u
    (negotiated_options r)) (transport r) (block_num r) (ack_received r) (last_ack r)
    (oack_confirmed r) (current_packet r) (registered r) (server_timeout r)
    (shutdown r) (trace r).
#[export] Instance set_transport : Setter transport := fun u r =>
  mkTransfer (filepath r) (block_size r) (timeout r) (retries r) (negotiated_options r)
    (u (transport r)) (block_num r) (ack_received r) (last_ack r) (oack_confirmed r)
    (current_packet r) (registered r) (server_timeout r) (shutdown r) (trace r).
#[export] Instance set_block_num : Setter block_num := fun u r =>
  mkTransfer (filepath r) (block_size r) (timeout r) (retries r) (negotiated_options r)
    (transport r) (u (block_num r)) (ack_received r) (last_ack r) (oack_confirmed r)
    (current_packet r) (registered r) (server_timeout r) (shutdown r) (trace r).
#[export] Instance set_ack_received : Setter ack_received := fun u r =>
  mkTransfer (filepath r) (block_size r) (timeout r) (retries r) (negotiated_options r)
    (transport r) (block_num r) (u (ack_received r)) (last_ack r) (oack_confirmed r)
    (current_packet r) (registered r) (server_timeout r) (shutdown r) (trace r).
#[export] Instance set_last_ack : Setter last_ack := fun u r =>
  mkTransfer (filepath r) (block_size r) (timeout r) (retries r) (negotiated_options r)
    (transport r) (block_num r) (ack_received r) (u (last_ack r)) (oack_confirmed r)
    (current_packet r) (registered r) (server_timeout r) (shutdown r) (trace r).
#[export] Instance set_oack_confirmed : Setter oack_confirmed := fun u r =>
  mkTransfer (filepath r) (block_size r) (timeout r) (retries r) (negotiated_options r)
    (transport r) (block_num r) (ack_received r) (last_ack r) (u (oack_confirmed r))
    (current_packet r) (registered r) (server_timeout r) (shutdown r) (trace r).
#[export] Instance set_current_packet : Setter current_packet := fun u r =>
  mkTransfer (filepath r) (block_size r) (timeout r) (retries r) (negotiated_options r)
    (transport r) (block_num r) (ack_received r) (last_ack r) (oack_confirmed r) (u
    (current_packet r)) (registered r) (server_timeout r) (shutdown r) (trace r).
#[export] Instance set_registered : Setter registered := fun u r =>
  mkTransfer (filepath r) (block_size r) (timeout r) (retries r) (negotiated_options r)
    (transport r) (block_num r) (ack_received r) (last_ack r) (oack_confirmed r)
    (current_packet r) (u (registered r)) (server_timeout r) (shutdown r) (trace r).
#[export] Instance set_server_timeout : Setter server_timeout := fun u r =>
  mkTransfer (filepath r) (block_size r) (timeout r) (retries r) (negotiated_options r)
    (transport r) (block_num r) (ack_received r) (last_ack r) (oack_confirmed r)
    (current_packet r) (registered r) (u (server_timeout r)) (shutdown r) (trace r).
#[export] Instance set_shutdown : Setter shutdown := fun u r =>
  mkTransfer (filepath r) (block_size r) (timeout r) (retries r) (negotiated_options r)
    (transport r) (block_num r) (ack_received r) (last_ack r) (oack_confirmed r)
    (current_packet r) (registered r) (server_timeout r) (u (shutdown r)) (trace r).
#[export] Instance set_trace : Setter trace := fun u r =>
  mkTransfer (filepath r) (block_size r) (timeout r) (retries r) (negotiated_options r)
    (transport r) (block_num r) (ack_received r) (last_ack r) (oack_confirmed r)
    (current_packet r) (registered r) (server_timeout r) (shutdown r) (u (trace r)).

(** [_start_transfer]: the new object is registered, its task will run [start]. *)
Definition start_transfer (srv : TftpServer) (path : text) (blksize tmo : Z)
    (negotiated : list (string * Z)) : TftpReadTransfer :=
  mkTransfer path blksize tmo (srv_retries srv) negotiated false 0 false 0 false None true
    (srv_timeout srv) (shutdown_event srv) [].

Definition sent (p : bytes) (t : TftpReadTransfer) : TftpReadTransfer :=
  t <| trace ::= fun l => l ++ [Out p] |>.

(** ** The protocol's callbacks *)

(** [handle_ack]. [sendto(None)] raises in the callback and sends nothing. *)
Definition handle_ack (n : Z) (t : TftpReadTransfer) : TftpReadTransfer :=
  if negb (oack_confirmed t) && negb (bool_decide (negotiated_options t = [])) && (n =? 0)
  then t <| oack_confirmed := true |> <| last_ack := n |> <| ack_received := true |>
  else if n =? block_num t
  then t <| last_ack := n |> <| ack_received := true |>
  else if n =? block_num t - 1
  then match current_packet t with Some p => sent p t | None => t end
  else t.

Definition send_error (code : TftpErrorCode) (msg : text) (t : TftpReadTransfer)
    : TftpReadTransfer :=
  if transport t then sent (error_packet code msg) t else t.

Definition datagram_received (from_client : bool) (data : bytes) (t : TftpReadTransfer)
    : TftpReadTransfer :=
  if negb from_client then t
  else if (length data <? 4)%nat then t
  else
    match opcode_of (from_bytes (take 2 data)) with
    | None => send_error ILLEGAL_OPERATION (Utf8.of_string "Unknown opcode") t
    | Some ACK => handle_ack (from_bytes (take 2 (drop 2 data))) t
    | Some _ => send_error ILLEGAL_OPERATION (Utf8.of_string "Unexpected opcode") t
    end.

(** [TftpTransfer.cleanup] with [unregister_transfer]. *)
Definition cleanup (t : TftpReadTransfer) : TftpReadTransfer :=
  t <| transport := false |> <| registered := false |>.

(** ** What happens while the task is suspended *)

Inductive event :=
| Datagram (from_client : bool) (data : bytes)
| Shutdown
| ServerCleanup.

(** A closed socket receives nothing; the server's [_cleanup] calls [cleanup] of the
    registered transfers. *)
Definition handle_event (t : TftpReadTransfer) (e : event) : TftpReadTransfer :=
  match e with
  | Datagram c d =>
      if transport t
      then datagram_received c d (if c then t <| trace ::= fun l => l ++ [In d] |> else t)
      else t
  | Shutdown => t <| shutdown := true |>
  | ServerCleanup => if registered t then cleanup t else t
  end.

(** ** The server's side *)

Record Server := mkServer {
  server_conf : TftpServer;
  server_transport : bool;
  transfers : list TftpReadTransfer
}.

Definition active_transfers (s : Server) : list TftpReadTransfer :=
  List.filter registered (transfers s).

(** [TftpServer.shutdown]: the flag is shared with every transfer. *)
Definition server_shutdown (s : Server) : Server :=
  let c := server_conf s in
  mkServer (mkTftpServer (srv_block_size c) (srv_timeout c) (srv_retries c) true)
    (server_transport s) (map (fun t => handle_event t Shutdown) (transfers s)).

(** [TftpServer._cleanup] *)
Definition server_cleanup (s : Server) : Server :=
  mkServer (server_conf s) false (map (fun t => handle_event t ServerCleanup) (transfers s)).

(** ** The transfer's task *)

Inductive exn := KeyError | AttributeError | OSError | OperatorError | OutOfFuel.

Definition M (A : Type) : Type := TftpReadTransfer -> TftpReadTransfer * (exn + A).

Definition mret {A} (a : A) : M A := fun t => (t, inr a).
Definition raise {A} (e : exn) : M A := fun t => (t, inl e).
Definition get : M TftpReadTransfer := fun t => (t, inr t).
Definition modify (f : TftpReadTransfer -> TftpReadTransfer) : M unit := fun t => (f t, inr tt).

Definition mbind {A B} (m : M A) (g : A -> M B) : M B := fun t =>
  match m t with
  | (t', inl e) => (t', inl e)
  | (t', inr a) => g a t'
  end.

Declare Scope tftp_scope.
Notation "x <- m ; g" := (mbind m (fun x => g))
  (at level 20, m at level 100, g at level 200, only parsing) : tftp_scope.
Notation "m ;; g" := (mbind m (fun _ => g))
  (at level 100, g at level 200, right associativity, only parsing) : tftp_scope.
Open Scope tftp_scope.

(** The storage operator (OpenDAL's [AsyncOperator]), as far as a transfer uses it:
    [None] stands for an exception. *)
Class Operator := {
  handle : Type;
  open_file : text -> option handle;
  read : handle -> Z -> option (bytes * handle)
}.

(** What the transfers rely on: an open file has contents, and a read returns a prefix of
    what is left, not longer than asked for, and nothing only at the end. *)
Class OperatorLaws `{Operator} := {
  contents : handle -> bytes;
  read_prefix : forall f size c f', 0 < size -> read f size = Some (c, f') ->
    contents f = c ++ contents f' /\ Z.of_nat (length c) <= size /\ (c = [] -> contents f = [])
}.

(** The suspension points of the code. *)
Inductive point := Endpoint | AckWait | FileOp.

Section Task.

Context (env : point -> TftpReadTransfer -> list event * bool)
        (endpoint_ok : bool)
        `{Operator}.

(** An [await]: the events of the suspension; the answer tells whether a deadline
    passed. *)
Definition await (p : point) : M bool := fun t =>
  let '(evs, expired) := env p t in (fold_left handle_event evs t, inr expired).

Definition send_packet (packet : bytes) : M unit :=
  t <- get;
  if transport t then modify (sent packet) else raise AttributeError.

(** The loop [for attempt in range(1, retries + 1)]. *)
Fixpoint send_attempts (n : nat) (packet : bytes) (expected : Z) : M bool :=
  match n with
  | O => mret false
  | S n' =>
      send_packet packet;;
      modify (fun t => t <| ack_received := false |>);;
      expired <- await AckWait;
      t <- get;
      if negb expired && ack_received t && (last_ack t =? expected) then mret true
      else send_attempts n' packet expected
  end.

Definition send_with_retries (packet : bytes) (is_oack : bool) : M bool :=
  modify (fun t => t <| current_packet := Some packet |>);;
  t <- get;
  send_attempts (retries t) packet (if is_oack then 0 else block_num t).

(** The condition under which an OACK is sent; a missing key raises [KeyError], the
    second key is read only when the block size is 512. *)
Definition needs_oack (t : TftpReadTransfer) : exn + bool :=
  if bool_decide (negotiated_options t = []) then inr false
  else
    match dict_get "blksize" (negotiated_options t) with
    | None => inl KeyError
    | Some b =>
        if negb (b =? 512) then inr true
        else
          match dict_get "timeout" (negotiated_options t) with
          | None => inl KeyError
          | Some s => inr (negb (1000 * s =? server_timeout t))
          end
    end.

(** [create_datagram_endpoint]: [connection_made] stores the transport, events may
    follow before the coroutine resumes and stores it again. *)
Definition create_endpoint : M unit :=
  await Endpoint;;
  if endpoint_ok
  then modify (fun t => t <| transport := true |>);;
       await Endpoint;;
       modify (fun t => t <| transport := true |>)
  else raise OSError.

Definition initialize_transfer : M bool :=
  create_endpoint;;
  t <- get;
  match needs_oack t with
  | inl e => raise e
  | inr false => modify (fun t => t <| block_num := 1 |>);; mret true
  | inr true =>
      ok <- send_with_retries (create_oack_packet (negotiated_options t)) true;
      if (ok : bool) then modify (fun t => t <| block_num := 1 |>);; mret true
      else mret false
  end.

(** [_handle_data_block] *)
Definition handle_data_block (data : bytes) : M bool :=
  t <- get;
  if bool_decide (data = []) && (block_num t =? 1)
  then send_with_retries (create_data_packet (block_num t) []) false;; mret false
  else if negb (bool_decide (data = []))
  then
    success <- send_with_retries (create_data_packet (block_num t) data) false;
    if negb success then mret false
    else
      modify (fun t => t <| block_num ::= fun b => b + 1 |>);;
      modify (fun t => t <| block_num ::= fun b => b mod 65536 |>);;
      t <- get;
      mret (negb (Z.of_nat (length data) <? block_size t))
  else send_with_retries (create_data_packet (block_num t) []) false;; mret false.

(** Read a full block or until the end of the file. A chunk that is not empty
    adds at least a byte, so [block_size] rounds are enough. *)
Fixpoint read_block (n : nat) (f : handle) (data : bytes) : M (bytes * handle) :=
  t <- get;
  if negb (Z.of_nat (length data) <? block_size t) then mret (data, f)
  else
    match n with
    | O => raise OutOfFuel
    | S n' =>
        await FileOp;;
        match read f (block_size t - Z.of_nat (length data)) with
        | None => raise OperatorError
        | Some ([], f') => mret (data, f')
        | Some (chunk, f') => read_block n' f' (data ++ chunk)
        end
    end.

(** The loop of [_perform_transfer]; [n] bounds the number of blocks. *)
Fixpoint transfer_blocks (n : nat) (f : handle) : M unit :=
  match n with
  | O => raise OutOfFuel
  | S n' =>
      t <- get;
      if shutdown t then mret tt
      else
        block <- read_block (Z.to_nat (block_size t)) f [];
        continue <- handle_data_block (fst block);
        if (continue : bool) then transfer_blocks n' (snd block) else mret tt
  end.

(** The end of [async with]: the file is closed whatever the outcome. *)
Definition closing (m : M unit) : M unit := fun t =>
  let '(t', r) := m t in ((await FileOp t').1, r).

Definition perform_transfer (n : nat) : M unit :=
  t <- get;
  await FileOp;;
  match open_file (filepath t) with
  | None => raise OperatorError
  | Some f => closing (transfer_blocks n f)
  end.

(** [except Exception] logs, [finally] cleans up. [OutOfFuel] is no exception of the
    code and stays visible. *)
Definition try_finally (m : M unit) : M unit := fun t =>
  match m t with
  | (t', inl OutOfFuel) => (cleanup t', inl OutOfFuel)
  | (t', _) => (cleanup t', inr tt)
  end.

Definition start (n : nat) : M unit :=
  ok <- initialize_transfer;
  if negb ok then mret tt
  else
    try_finally
      (t <- get;
       (if bool_decide (negotiated_options t = [])
        then modify (fun t => t <| oack_confirmed := true |>) else mret tt);;
       perform_transfer n).

End Task.

End Transfer.
