(* ===== verification/TftpCorrect.v ===== *)
(** * Correctness of the TFTP server

    [Spec] is the contract of a transfer, stop-and-wait over a plan: the packets to
    send with the block number that acknowledges each. [run_spec] accepts a trace when
    every packet is the current one of the plan, the next one after an acknowledgement
    of the current one, or an error packet. The transfers of [TftpTransfer] implement
    it whatever the client and the network do ([transfer_refines]), and reach the end
    of the plan with a client that answers ([transfer_complete]). *)

From stdpp Require Import base list strings pretty.
From Stdlib Require Import ZArith Lia.
From S2P Require Import Prelude PyText Tftp TftpTransfer.

Import Tftp Transfer.
Open Scope Z_scope.

(** ** The contract *)

Module Spec.

(** The block number of an acknowledgement. *)
Definition ack_of (d : bytes) : option Z :=
  if (length d <? 4)%nat then None
  else match opcode_of (from_bytes (take 2 d)) with
       | Some ACK => Some (from_bytes (take 2 (drop 2 d)))
       | _ => None
       end.

Definition is_error (p : bytes) : bool := bool_decide (take 2 p = [0; 5]).

(** The number of packets of the plan sent so far, and whether the last one was
    acknowledged. *)
Record state := mkState { cur : nat; acked : bool }.

Definition sending (plan : list (bytes * Z)) (s : state) : option (bytes * Z) :=
  match cur s with O => None | S i => plan !! i end.

Definition may_advance (s : state) : bool := (cur s =? 0)%nat || acked s.

Definition step (plan : list (bytes * Z)) (s : state) (x : io) : option state :=
  match x with
  | In d =>
      match sending plan s, ack_of d with
      | Some (_, n), Some a => Some (mkState (cur s) (acked s || (a =? n)))
      | _, _ => Some s
      end
  | Out p =>
      if bool_decide (fst <$> sending plan s = Some p) then Some s
      else if may_advance s && bool_decide (fst <$> plan !! cur s = Some p)
      then Some (mkState (S (cur s)) false)
      else if is_error p then Some s else None
  end.

Definition run_spec (plan : list (bytes * Z)) (tr : list io) : option state :=
  fold_left (fun o x => match o with Some s => step plan s x | None => None end) tr
    (Some (mkState 0 false)).

(** The blocks of a file: full ones, then a shorter one that may be empty. *)
Definition block (bs : nat) (file : bytes) (k : nat) : bytes := take bs (drop (k * bs) file).
Definition last_block (bs : nat) (file : bytes) : nat := (length file / bs)%nat.
Definition number (k : nat) : Z := (Z.of_nat k + 1) mod 65536.

Definition data_entry (bs : nat) (file : bytes) (k : nat) : bytes * Z :=
  (create_data_packet (number k) (block bs file k), number k).

Definition data_plan (bs : nat) (file : bytes) : list (bytes * Z) :=
  map (data_entry bs file) (seq 0 (S (last_block bs file))).

Definition oack_plan (t : TftpReadTransfer) : list (bytes * Z) :=
  match needs_oack t with
  | inr true => [(create_oack_packet (negotiated_options t), 0)]
  | _ => []
  end.

Definition transfer_plan (t : TftpReadTransfer) (file : bytes) : list (bytes * Z) :=
  oack_plan t ++ data_plan (Z.to_nat (block_size t)) file.

Lemma run_spec_snoc plan tr x :
  run_spec plan (tr ++ [x]) =
  match run_spec plan tr with Some s => step plan s x | None => None end.
Proof. unfold run_spec. by rewrite fold_left_app. Qed.

Lemma step_current plan s p n :
  sending plan s = Some (p, n) -> step plan s (Out p) = Some s.
Proof. intros E. simpl. rewrite E. simpl. by rewrite bool_decide_true. Qed.

Lemma step_error plan s p : is_error p = true ->
  exists s', step plan s (Out p) = Some s' /\
    (s' = s \/ (may_advance s = true /\ fst <$> plan !! cur s = Some p)).
Proof.
  intros Hp. simpl. case_bool_decide; [eauto |].
  destruct (may_advance s) eqn:?; simpl; [case_bool_decide; eauto |]; rewrite Hp; eauto.
Qed.

Lemma step_in plan s d :
  exists s', step plan s (In d) = Some s' /\ cur s' = cur s /\
    (acked s = true -> acked s' = true) /\
    forall p n, sending plan s = Some (p, n) -> ack_of d = Some n -> acked s' = true.
Proof.
  simpl. destruct (sending plan s) as [[p n]|] eqn:E; [| by exists s].
  destruct (ack_of d) as [a|]; [| by exists s].
  eexists; split_and!; [done | done | |]; simpl.
  - by intros ->.
  - intros p' n' [= -> ->] [= ->]. rewrite Z.eqb_refl. apply orb_true_r.
Qed.

Lemma data_plan_lookup bs file k :
  (k <= last_block bs file)%nat -> data_plan bs file !! k = Some (data_entry bs file k).
Proof.
  intros Hk. unfold data_plan. rewrite list_lookup_fmap, lookup_seq_lt by lia. done.
Qed.

(** The blocks put together are the file. *)
Lemma blocks_prefix bs file n :
  concat (map (block bs file) (seq 0 n)) = take (n * bs) file.
Proof.
  induction n as [|n IH]; [done |].
  rewrite seq_S, map_app, concat_app, IH. simpl. rewrite app_nil_r. unfold block.
  rewrite take_take_drop. f_equal. lia.
Qed.

Lemma blocks_concat bs file : (0 < bs)%nat ->
  concat (map (block bs file) (seq 0 (S (last_block bs file)))) = file.
Proof.
  intros Hbs. rewrite blocks_prefix. apply take_ge. unfold last_block.
  pose proof (Nat.div_mod (length file) bs ltac:(lia)).
  pose proof (Nat.mod_upper_bound (length file) bs ltac:(lia)). nia.
Qed.

End Spec.

Import Spec.

(** ** Transfers implement the contract *)

Section Refinement.

Context (plan : list (bytes * Z)) (bs : nat) (conf : list (string * Z) * Z).
Context (plan_data : forall p n, (p, n) ∈ plan -> is_error p = false).

(** The transfer [t], with [b] as its block number, follows the plan and is in the
    state [s] of the contract. *)
Record follows (b : Z) (s : state) (t : TftpReadTransfer) : Prop := {
  f_run : run_spec plan (trace t) = Some s;
  f_packet : current_packet t = fst <$> sending plan s;
  f_ack : ack_received t = true -> forall p n,
            sending plan s = Some (p, n) -> last_ack t = n -> acked s = true;
  f_block : block_num t = b;
  f_size : block_size t = Z.of_nat bs;
  f_retries : (0 < retries t)%nat;
  f_conf : (negotiated_options t, server_timeout t) = conf
}.

Definition safe (t : TftpReadTransfer) : Prop := exists s, run_spec plan (trace t) = Some s.

(** What the contract's state may do while the task is suspended. *)
Definition later (s s' : state) : Prop :=
  cur s' = cur s /\ (acked s = true -> acked s' = true).

Lemma later_trans s1 s2 s3 : later s1 s2 -> later s2 s3 -> later s1 s3.
Proof. unfold later. intros [-> ?] [-> ?]. auto. Qed.

Lemma later_sending s s' : later s s' -> sending plan s' = sending plan s.
Proof. unfold later, sending. by intros [-> _]. Qed.

Lemma not_in_plan i p : is_error p = true -> fst <$> plan !! i <> Some p.
Proof.
  intros Hp Hi. destruct (plan !! i) as [[q n]|] eqn:E; simplify_eq/=.
  apply list_elem_of_lookup_2, plan_data in E. congruence.
Qed.

(** Sending the current packet again, or an error packet. *)
Lemma follows_resend b s t p :
  follows b s t -> current_packet t = Some p -> follows b s (sent p t).
Proof.
  intros [Hr Hp Ha Hb Hz Hq Hconf] Hc. constructor; simpl; auto.
  rewrite run_spec_snoc, Hr. rewrite Hp in Hc.
  destruct (sending plan s) as [[q n]|] eqn:E; simplify_eq/=. by eapply step_current.
Qed.

Lemma follows_error b s t code msg :
  follows b s t -> follows b s (sent (error_packet code msg) t).
Proof.
  intros [Hr Hp Ha Hb Hz Hq Hconf]. constructor; simpl; auto.
  rewrite run_spec_snoc, Hr.
  destruct (step_error plan s (error_packet code msg)) as (s' & -> & [-> | [_ Hn]]); auto.
  exfalso. revert Hn. by apply not_in_plan.
Qed.

Lemma follows_in b s t d :
  follows b s t ->
  exists s', later s s' /\ follows b s' (t <| trace ::= fun l => l ++ [In d] |>) /\
    forall n, ack_of d = Some n -> forall p, sending plan s' = Some (p, n) -> acked s' = true.
Proof.
  intros [Hr Hp Ha Hb Hz Hq Hconf]. destruct (step_in plan s d) as (s' & Hs & Hc & Hm & Hn).
  assert (later s s') as Hl by done. pose proof (later_sending _ _ Hl) as He.
  exists s'. split_and!; [done | |].
  - constructor; simpl; auto.
    + by rewrite run_spec_snoc, Hr.
    + by rewrite He.
    + rewrite He. intros Hack p n Hsend Hlast. eauto.
  - intros n Hd p. rewrite He. eauto.
Qed.

Lemma follows_handle_ack b s t n :
  follows b s t -> (forall p, sending plan s = Some (p, n) -> acked s = true) ->
  follows b s (handle_ack n t).
Proof.
  intros Hf Hn. pose proof Hf as [Hr Hp Ha Hb Hz Hq Hconf].
  unfold handle_ack. split_ifs; auto.
  - constructor; simpl; auto. intros _ p m Hs ->. eauto.
  - constructor; simpl; auto. intros _ p m Hs ->. eauto.
  - by apply follows_resend.
Qed.

Lemma follows_event b s t e :
  follows b s t -> exists s', later s s' /\ follows b s' (handle_event t e).
Proof.
  intros Hf. assert (later s s) as Hrefl by done.
  destruct e as [c d| |]; simpl.
  - destruct (transport t) eqn:Htr; [| eauto].
    unfold datagram_received. destruct c; simpl; [| eauto].
    destruct (follows_in b s t d Hf) as (s' & Hl & Hf' & Hn).
    exists s'. split; [done |].
    unfold ack_of in Hn. destruct (length d <? 4)%nat; [done |].
    unfold send_error. simpl. rewrite Htr.
    destruct (opcode_of _) as [[]|]; try by apply follows_error.
    apply follows_handle_ack; [done |]. eauto.
  - exists s. split; [done |]. destruct Hf; by constructor.
  - exists s. split; [done |]. destruct Hf. destruct (registered t); by constructor.
Qed.

Lemma follows_events b evs s t :
  follows b s t -> exists s', later s s' /\ follows b s' (fold_left handle_event evs t).
Proof.
  revert s t. induction evs as [|e evs IH]; intros s t Hf; simpl; [by exists s |].
  destruct (follows_event b s t e Hf) as (s1 & Hl1 & Hf1).
  destruct (IH s1 _ Hf1) as (s2 & Hl2 & Hf2). eauto using later_trans.
Qed.

(** A transfer that will send no new packet of the plan: it follows the plan, or its
    socket is closed. *)
Definition settled (t : TftpReadTransfer) : Prop :=
  (exists b s, follows b s t) \/ (transport t = false /\ safe t).

Lemma settled_safe t : settled t -> safe t.
Proof. intros [(b & s & [Hr _ _ _ _ _ _]) | [_ Hs]]; [by exists s | done]. Qed.

Lemma closed_events evs t :
  transport t = false ->
  transport (fold_left handle_event evs t) = false /\
  trace (fold_left handle_event evs t) = trace t.
Proof.
  revert t. induction evs as [|e evs IH]; intros t Ht; [done |]. simpl.
  assert (transport (handle_event t e) = false /\ trace (handle_event t e) = trace t)
    as [Ht' <-].
  { destruct e; simpl; [by rewrite Ht | done | by destruct (registered t)]. }
  by apply IH.
Qed.

Lemma settled_events evs t : settled t -> settled (fold_left handle_event evs t).
Proof.
  intros [(b & s & Hf) | [Ht [s Hs]]].
  - left. destruct (follows_events b evs s t Hf) as (s' & _ & Hf'). eauto.
  - right. destruct (closed_events evs t Ht) as [Ht' E]. split; [done |]. exists s. by rewrite E.
Qed.

(** Partial correctness of the monad, with a postcondition for exceptions. *)
Definition triple {A} (P : TftpReadTransfer -> Prop) (m : M A)
    (Q : A -> TftpReadTransfer -> Prop) : Prop :=
  forall t, P t ->
    match m t with
    | (t', inr a) => Q a t'
    | (t', inl e) => settled t' /\ e <> OutOfFuel
    end.

Lemma triple_bind {A B} P (m : M A) Q (g : A -> M B) R :
  triple P m Q -> (forall a, triple (Q a) (g a) R) -> triple P (mbind m g) R.
Proof.
  intros Hm Hg t Ht. specialize (Hm t Ht). unfold mbind.
  destruct (m t) as [t' [e|a]]; [done |]. by apply Hg.
Qed.

Lemma triple_get {B} P (g : TftpReadTransfer -> M B) R :
  (forall u, triple (fun t => P t /\ t = u) (g u) R) -> triple P (mbind get g) R.
Proof. intros Hg t Ht. by apply (Hg t). Qed.

Lemma triple_modify {B} P f (g : unit -> M B) (Q : TftpReadTransfer -> Prop) R :
  (forall t, P t -> Q (f t)) -> triple Q (g tt) R -> triple P (mbind (modify f) g) R.
Proof. intros Hf Hg t Ht. by apply Hg, Hf. Qed.

Lemma triple_ret {A} (P : TftpReadTransfer -> Prop) (a : A) (Q : A -> TftpReadTransfer -> Prop) :
  (forall t, P t -> Q a t) -> triple P (mret a) Q.
Proof. intros HQ t Ht. by apply HQ. Qed.

Lemma triple_raise {A} (P : TftpReadTransfer -> Prop) e (Q : A -> TftpReadTransfer -> Prop) :
  e <> OutOfFuel -> (forall t, P t -> settled t) -> triple P (raise e) Q.
Proof. intros He HP t Ht. split; [by apply HP | done]. Qed.

Lemma triple_pre {A} (P P' : TftpReadTransfer -> Prop) (m : M A) Q :
  (forall t, P t -> P' t) -> triple P' m Q -> triple P m Q.
Proof. intros HP Hm t Ht. by apply Hm, HP. Qed.

Lemma follows_settled b s t : follows b s t -> settled t.
Proof. left. eauto. Qed.

Context (env : point -> TftpReadTransfer -> list event * bool) (endpoint_ok : bool)
        `{OperatorLaws}.

(** Between two packets: [c] of them were sent, the last one was acknowledged. *)
Definition between (b : Z) (c : nat) (t : TftpReadTransfer) : Prop :=
  exists s, follows b s t /\ cur s = c /\ may_advance s = true.

(** The [c]-th packet was sent. *)
Definition waiting (b : Z) (c : nat) (t : TftpReadTransfer) : Prop :=
  exists s, follows b s t /\ cur s = S c.

Lemma between_settled b c t : between b c t -> settled t.
Proof. intros (s & Hf & _). eauto using follows_settled. Qed.

Lemma waiting_settled b c t : waiting b c t -> settled t.
Proof. intros (s & Hf & _). eauto using follows_settled. Qed.

Lemma between_events b c evs t :
  between b c t -> between b c (fold_left handle_event evs t).
Proof.
  intros (s & Hf & Hc & Ha). destruct (follows_events b evs s t Hf) as (s' & [Hl1 Hl2] & Hf').
  exists s'. split_and!; [done | congruence |].
  unfold may_advance in *. rewrite Hl1. destruct (acked s); [| by destruct (cur s)].
  rewrite Hl2 by done. apply orb_true_r.
Qed.

Lemma triple_await b c p {B} (g : bool -> M B) R :
  (forall x, triple (between b c) (g x) R) -> triple (between b c) (mbind (await env p) g) R.
Proof.
  intros Hg. eapply triple_bind with (Q := fun _ => between b c); [| done].
  intros t Ht. unfold await. destruct (env p t) as [evs x]. by apply between_events.
Qed.

(** Sending the next packet of the plan, or the current one again, and clearing the
    event. *)
Lemma send_next b c t p n :
  between b c t -> plan !! c = Some (p, n) -> fst <$> sending plan (mkState c true) <> Some p ->
  waiting b c (sent p (t <| current_packet := Some p |>) <| ack_received := false |>).
Proof.
  intros (s & Hf & Hc & Ha) Hp Hnew. destruct Hf as [Hr Hk _ Hb Hz Hq Hconf].
  exists (mkState (S c) false). split; [| done].
  constructor; simpl; auto; [| unfold sending; simpl; by rewrite Hp].
  rewrite run_spec_snoc, Hr. cbn [step]. subst c. rewrite bool_decide_false; [| done].
  rewrite Ha, bool_decide_true; [done |]. by rewrite Hp.
Qed.

Lemma send_again b c t p n :
  waiting b c t -> plan !! c = Some (p, n) ->
  waiting b c (sent p t <| ack_received := false |>).
Proof.
  intros (s & Hf & Hc) Hp. exists s. split; [| done].
  assert (current_packet t = Some p) as Hk.
  { rewrite (f_packet _ _ _ Hf). unfold sending. rewrite Hc. by rewrite Hp. }
  destruct (follows_resend b s t p Hf Hk). by constructor.
Qed.

(** The packet [p] is about to be sent for the first time, or was sent. *)
Definition primed (b : Z) (c : nat) (p : bytes) (t : TftpReadTransfer) : Prop :=
  (exists t0, between b c t0 /\ t = t0 <| current_packet := Some p |>) \/ waiting b c t.

(** Neighbours in the plan differ. *)
Context (plan_next : forall i p n, plan !! S i = Some (p, n) -> fst <$> plan !! i <> Some p).

Lemma send_primed b c t p n :
  primed b c p t -> plan !! c = Some (p, n) ->
  waiting b c (sent p t <| ack_received := false |>).
Proof.
  intros [(t0 & Ht0 & ->) | Ht] Hp; [| by eapply send_again].
  eapply send_next; [done.. |]. destruct c as [|c]; [done |]. by eapply plan_next.
Qed.

Lemma primed_closed b c t p : primed b c p t -> transport t = false -> settled t.
Proof.
  intros [(t0 & (s & Hf & _) & ->) | Ht] Hc; [| by eapply waiting_settled].
  right. split; [done |]. exists s. apply Hf.
Qed.

Lemma waiting_events b c evs t :
  waiting b c t -> waiting b c (fold_left handle_event evs t).
Proof.
  intros (s & Hf & Hc). destruct (follows_events b evs s t Hf) as (s' & [Hl1 _] & Hf').
  exists s'. split; [done | congruence].
Qed.

Lemma waiting_acked b c t p n :
  waiting b c t -> plan !! c = Some (p, n) -> ack_received t = true -> last_ack t = n ->
  between b (S c) t.
Proof.
  intros (s & Hf & Hc) Hp Ha Hl. exists s. split_and!; [done.. |]. unfold may_advance.
  rewrite (f_ack _ _ _ Hf Ha p n), orb_true_r; [done | | done].
  unfold sending. by rewrite Hc.
Qed.

Definition sent_or_settled (b : Z) (c : nat) (ok : bool) (t : TftpReadTransfer) : Prop :=
  if ok then between b (S c) t else settled t.

Lemma attempt_ok b c p n (again : M bool) :
  plan !! c = Some (p, n) ->
  triple (waiting b c) again (sent_or_settled b c) ->
  triple (primed b c p)
    (mbind (send_packet p) (fun _ =>
     mbind (modify (fun t => t <| ack_received := false |>)) (fun _ =>
     mbind (await env AckWait) (fun expired =>
     mbind get (fun t =>
       if negb expired && ack_received t && (last_ack t =? n) then mret true else again)))))
    (sent_or_settled b c).
Proof.
  intros Hp Hagain t Ht. unfold send_packet, mbind, get, modify, raise, await.
  destruct (transport t) eqn:Htr; [| eauto using primed_closed].
  pose proof (send_primed b c t p n Ht Hp) as Hw.
  set (t1 := sent p t <| ack_received := false |>) in *.
  destruct (env AckWait t1) as [evs expired].
  pose proof (waiting_events b c evs t1 Hw) as Hw'.
  destruct (_ && _) eqn:E; [| by apply Hagain].
  apply andb_true_iff in E as [[_ Ha]%andb_true_iff Hl%Z.eqb_eq].
  simpl. by eapply waiting_acked.
Qed.

Lemma attempts_ok b c p n k :
  plan !! c = Some (p, n) ->
  triple (waiting b c) (send_attempts env k p n) (sent_or_settled b c).
Proof.
  intros Hp. induction k as [|k IH]; cbn [send_attempts].
  - apply triple_ret. apply waiting_settled.
  - eapply triple_pre; [| by apply attempt_ok]. by right.
Qed.

Lemma send_with_retries_ok b c p n (is_oack : bool) :
  plan !! c = Some (p, n) -> n = (if is_oack then 0 else b) ->
  triple (between b c) (send_with_retries env p is_oack) (sent_or_settled b c).
Proof.
  intros Hp Hn. unfold send_with_retries.
  eapply triple_modify with (Q := fun t => primed b c p t /\ (0 < retries t)%nat /\ block_num t = b).
  { intros t Ht. split; [left; eauto |]. destruct Ht as (s & Hf & _). split; apply Hf. }
  apply triple_get. intros u t [(Hpr & Hr & Hb) ->].
  destruct (retries u) as [|k]; [lia |]. rewrite Hb, <- Hn.
  eapply (attempt_ok b c p n); [done | by apply attempts_ok | done].
Qed.

(** *** Reading a block *)

Lemma follows_bs b c t : between b c t -> block_size t = Z.of_nat bs.
Proof. intros (s & Hf & _). apply Hf. Qed.

Lemma read_block_ok b c k f data rest :
  (0 < bs)%nat -> (bs <= length data + k)%nat -> (length data <= bs)%nat -> rest = contents f ->
  triple (between b c) (read_block env k f data)
    (fun r t => between b c t /\
       fst r = data ++ take (bs - length data) rest /\
       contents (snd r) = drop (bs - length data) rest).
Proof.
  intros Hbs. revert f data rest.
  induction k as [|k IH]; intros f data rest Hk Hd ->; cbn [read_block];
    apply triple_get; intros u; apply triple_pre with (P' := fun t => between b c t /\ t = u);
    auto; intros t [Ht ->]; rewrite (follows_bs _ _ _ Ht).
  - rewrite (proj2 (Z.ltb_ge _ _)) by lia. simpl.
    replace (bs - length data)%nat with 0%nat by lia. by rewrite app_nil_r.
  - destruct (Z.ltb_spec (Z.of_nat (length data)) (Z.of_nat bs)) as [Hlt|Hge]; simpl.
    + revert u Ht. change (triple (between b c)
        (mbind (await env FileOp) (fun _ =>
           match read f (Z.of_nat bs - Z.of_nat (length data)) with
           | None => raise OperatorError
           | Some ([], f') => mret (data, f')
           | Some (chunk, f') => read_block env k f' (data ++ chunk)
           end))
        (fun r t => between b c t /\ fst r = data ++ take (bs - length data) (contents f) /\
           contents (snd r) = drop (bs - length data) (contents f))).
      apply triple_await. intros _.
      destruct (read f _) as [[chunk f']|] eqn:E;
        [| apply triple_raise; [done | apply between_settled]].
      apply read_prefix in E as (Hc & Hl & He); [| lia].
      destruct chunk as [|x chunk].
      * apply triple_ret. intros t Ht. rewrite He in * by done. simpl.
        rewrite take_nil, drop_nil, app_nil_r. by rewrite app_nil_l in Hc.
      * specialize (IH f' (data ++ x :: chunk) (contents f')).
        rewrite length_app in IH. rewrite Hc.
        set (ch := x :: chunk) in *. assert (1 <= length ch)%nat by (simpl; lia).
        rewrite take_app_ge, drop_app_ge by lia. rewrite app_assoc.
        replace (bs - length data - length ch)%nat
          with (bs - (length data + length ch))%nat by lia.
        apply IH; [lia | lia | done].
    + replace (bs - length data)%nat with 0%nat by lia. by rewrite app_nil_r.
Qed.

(** *** The blocks of the file *)

Context (off : nat) (file : bytes).
Context (plan_blocks : forall k, (k <= last_block bs file)%nat ->
           plan !! (off + k)%nat = Some (data_entry bs file k)).

(** The [k]-th block is the next one to send and [f] is at its start. *)
Definition at_block (k : nat) (f : handle) (t : TftpReadTransfer) : Prop :=
  between (number k) (off + k) t /\ contents f = drop (k * bs) file /\
  (k <= last_block bs file)%nat.

Lemma full_block k :
  (0 < bs)%nat -> (k <= last_block bs file)%nat -> length (block bs file k) = bs ->
  (S k <= last_block bs file)%nat.
Proof.
  unfold block, last_block. intros Hbs Hk. rewrite length_take, length_drop. intros Hl.
  apply Nat.div_le_lower_bound; lia.
Qed.

Lemma between_block_num b c t b' :
  between b c t -> between b' c (t <| block_num := b' |>).
Proof.
  intros (s & [Hr Hp Ha Hb Hz Hq Hconf] & Hc & Hm). exists s. split; [| done]. by constructor.
Qed.

Lemma number_S k : number (S k) = (number k + 1) mod 65536.
Proof. unfold number. rewrite Zplus_mod_idemp_l. f_equal. lia. Qed.

Lemma handle_data_block_ok k :
  (0 < bs)%nat -> (k <= last_block bs file)%nat ->
  triple (between (number k) (off + k)) (handle_data_block env (block bs file k))
    (fun r t => if (r : bool)
                then between (number (S k)) (off + S k) t /\ length (block bs file k) = bs
                else settled t).
Proof.
  intros Hbs Hk. set (data := block bs file k).
  assert (triple (between (number k) (off + k))
            (send_with_retries env (create_data_packet (number k) data) false)
            (sent_or_settled (number k) (off + k))) as Hsend.
  { eapply send_with_retries_ok; [by apply plan_blocks | done]. }
  assert (triple (between (number k) (off + k))
            (mbind (send_with_retries env (create_data_packet (number k) data) false)
               (fun _ => mret false))
            (fun r t => if (r : bool)
                then between (number (S k)) (off + S k) t /\ length data = bs
                else settled t)) as Hlast.
  { eapply triple_bind; [exact Hsend |]. intros r. apply triple_ret. intros t.
    destruct r; simpl; [apply between_settled | done]. }
  unfold handle_data_block. apply triple_get. intros u t [Ht ->].
  assert (block_num u = number k) as -> by (destruct Ht as (s & Hf & _); apply Hf).
  destruct (bool_decide_reflect (data = [])) as [Hnil|Hne]; simpl.
  - replace (create_data_packet (number k) []) with (create_data_packet (number k) data)
      by by rewrite Hnil.
    destruct (_ =? 1); by apply Hlast.
  - revert u Ht. apply (triple_bind _ _ _ _ _ Hsend). intros [|] t Ht; simpl; [| done].
    unfold mbind, modify, get, mret. simpl.
    assert (block_size t = Z.of_nat bs) as -> by by eapply follows_bs.
    assert (length data <= bs)%nat as Hle by (unfold data, block; rewrite length_take; lia).
    assert (block_num t = number k) as Hn by (destruct Ht as (s & Hf & _); apply Hf).
    apply (between_block_num _ _ _ (number (S k))) in Ht as Ht'.
    rewrite number_S, <- Hn in Ht'.
    destruct (Z.ltb_spec (Z.of_nat (length data)) (Z.of_nat bs)); simpl.
    + eapply between_settled. exact Ht'.
    + split; [| lia]. rewrite Nat.add_succ_r, number_S, <- Hn. exact Ht'.
Qed.

Lemma transfer_blocks_ok n k f :
  (0 < bs)%nat -> (last_block bs file < n + k)%nat -> contents f = drop (k * bs) file ->
  (k <= last_block bs file)%nat ->
  triple (between (number k) (off + k)) (transfer_blocks env n f) (fun _ => settled).
Proof.
  intros Hbs. revert k f. induction n as [|n IH]; intros k f Hn Hf Hk; [lia |].
  cbn [transfer_blocks]. apply triple_get. intros u t [Ht ->].
  destruct (shutdown u); [by eapply between_settled |].
  rewrite (follows_bs _ _ _ Ht), Nat2Z.id. revert u Ht.
  eapply triple_bind.
  { apply (read_block_ok _ _ bs f [] (drop (k * bs) file) Hbs);
      [simpl; lia | simpl; lia | done]. }
  intros [data f']. simpl. rewrite Nat.sub_0_r.
  intros t (Ht & Hd & Hf'). fold (block bs file k) in Hd. subst data. revert t Ht.
  eapply triple_bind; [by apply handle_data_block_ok |].
  intros [|] t Ht; [| by apply Ht]. destruct Ht as [Ht Hl].
  pose proof (full_block k Hbs Hk Hl). revert t Ht. apply IH; [lia | | done].
  rewrite Hf', drop_drop. f_equal. lia.
Qed.

Lemma perform_transfer_ok n :
  (0 < bs)%nat -> (last_block bs file < n)%nat ->
  (forall path f, open_file path = Some f -> contents f = file) ->
  triple (between 1 off) (perform_transfer env n) (fun _ => settled).
Proof.
  intros Hbs Hn Hopen. unfold perform_transfer. apply triple_get. intros u t [Ht ->].
  generalize (filepath u). intros path. revert u Ht. apply triple_await. intros _.
  destruct (open_file path) as [f|] eqn:E; [| apply triple_raise; [done | apply between_settled]].
  intros t Ht.
  pose proof (transfer_blocks_ok n 0 f Hbs ltac:(lia) (Hopen _ _ E) ltac:(lia)) as Hm.
  rewrite Nat.add_0_r in Hm. specialize (Hm t Ht). unfold closing, await.
  destruct (transfer_blocks env n f t) as [t' r]. simpl.
  destruct (env FileOp t') as [evs x]. simpl.
  destruct r as [e|[]]; [destruct Hm as [Hm ?]; split; [| done] |]; by apply settled_events.
Qed.

(** *** Initialisation *)

Lemma triple_set_transport b c {B} (g : unit -> M B) R :
  triple (between b c) (g tt) R ->
  triple (between b c) (mbind (modify (fun t => t <| transport := true |>)) g) R.
Proof.
  apply triple_modify. intros t (s & [Hr Hp Ha Hb Hz Hq Hconf] & Hs).
  exists s. split; [by constructor | done].
Qed.

Lemma create_endpoint_ok {B} (g : unit -> M B) R :
  triple (between 0 0) (g tt) R ->
  triple (between 0 0) (mbind (create_endpoint env endpoint_ok) g) R.
Proof.
  intros Hg. apply triple_bind with (Q := fun _ => between 0 0); [| by intros []].
  unfold create_endpoint. apply triple_await. intros _.
  destruct endpoint_ok; [| apply triple_raise; [done | apply between_settled]].
  apply triple_set_transport, triple_await. intros _ t (s & [Hr Hp Ha Hb Hz Hq Hconf] & Hs).
  exists s. split; [by constructor | done].
Qed.

Definition conf_transfer (t : TftpReadTransfer) : Prop :=
  oack_plan t = take off plan /\ length (oack_plan t) = off.

Lemma initialize_ok :
  (forall t, (negotiated_options t, server_timeout t) = conf -> conf_transfer t) ->
  triple (between 0 0) (initialize_transfer env endpoint_ok)
    (fun r t => if (r : bool) then between 1 off t else settled t).
Proof.
  intros Hconf. unfold initialize_transfer. apply create_endpoint_ok.
  apply triple_get. intros u t [Ht ->].
  destruct (Hconf u) as [Hplan Hlen]; [destruct Ht as (s & Hf & _); apply Hf |].
  unfold oack_plan in *. destruct (needs_oack u) as [e|[|]] eqn:E.
  - split; [by eapply between_settled |]. unfold needs_oack in E. split_ifs_in E; congruence.
  - simpl in Hlen. rewrite <- Hlen in Hplan |- *.
    assert (plan !! 0%nat = Some (create_oack_packet (negotiated_options u), 0)) as Hp.
    { rewrite <- (lookup_take_lt plan 1) by lia. by rewrite <- Hplan. }
    pose proof (send_with_retries_ok 0 0 _ 0 true Hp eq_refl u Ht) as Hs.
    unfold mbind at 1. destruct (send_with_retries _ _ _ u) as [t' [e|[|]]]; [done | | done].
    simpl in Hs |- *. by eapply between_block_num.
  - simpl in Hlen. rewrite <- Hlen. simpl. by eapply between_block_num.
Qed.

Lemma start_follows n :
  (0 < bs)%nat -> (last_block bs file < n)%nat ->
  (forall path f, open_file path = Some f -> contents f = file) ->
  (forall t, (negotiated_options t, server_timeout t) = conf -> conf_transfer t) ->
  triple (between 0 0) (start env endpoint_ok n) (fun _ => safe).
Proof.
  intros Hbs Hn Hopen Hconf. unfold start.
  eapply triple_bind; [by apply initialize_ok |].
  intros [|]; simpl; [| apply triple_ret, settled_safe].
  intros t Ht.
  assert (triple (between 1 off) (perform_transfer env n) (fun _ => settled))
    as Hp by by apply perform_transfer_ok.
  set (t1 := if bool_decide (negotiated_options t = []) then t <| oack_confirmed := true |> else t).
  assert (between 1 off t1) as Ht1.
  { unfold t1. destruct Ht as (s & [Hr Hpk Ha Hb Hz Hq Hcf] & Hs).
    exists s. split; [| done]. case_bool_decide; by constructor. }
  unfold try_finally.
  match goal with |- context [mbind get ?g t] =>
    assert (mbind get g t = perform_transfer env n t1) as -> end.
  { unfold t1, mbind at 1, get. by case_bool_decide. }
  specialize (Hp t1 Ht1). destruct (perform_transfer _ n t1) as [t' [e|[]]].
  - destruct Hp as [Hp%settled_safe He]. by destruct e.
  - by apply settled_safe in Hp.
Qed.

End Refinement.

(** ** The plan of a transfer *)

Lemma to_bytes2_inj a b : to_bytes2 a = to_bytes2 b -> a = b.
Proof.
  unfold to_bytes2. intros [= H1 H2].
  rewrite (Z.div_mod a 256), (Z.div_mod b 256) by lia. congruence.
Qed.

Lemma number_next k : number (S k) <> number k.
Proof. unfold number. intros E. Z.div_mod_to_equations. lia. Qed.

Lemma data_plan_number bs file k e :
  data_plan bs file !! k = Some e -> e = data_entry bs file k.
Proof.
  unfold data_plan. rewrite list_lookup_fmap. intros (i & Hi & ->)%fmap_Some.
  apply lookup_seq in Hi as [-> _]. done.
Qed.

Lemma oack_plan_conf t t' :
  (negotiated_options t, server_timeout t) = (negotiated_options t', server_timeout t') ->
  needs_oack t = needs_oack t' /\ oack_plan t = oack_plan t'.
Proof. unfold oack_plan, needs_oack. by intros [= -> ->]. Qed.

Section Plan.

Context (t : TftpReadTransfer) (file : bytes).

Lemma oack_plan_lookup i e :
  oack_plan t !! i = Some e ->
  i = 0%nat /\ length (oack_plan t) = 1%nat /\
  e = (create_oack_packet (negotiated_options t), 0).
Proof.
  unfold oack_plan. destruct (needs_oack t) as [|[|]]; try done.
  destruct i; [by intros [= <-] | done].
Qed.

Lemma plan_lookup i e :
  transfer_plan t file !! i = Some e ->
  (i = 0%nat /\ length (oack_plan t) = 1%nat /\
     e = (create_oack_packet (negotiated_options t), 0)) \/
  exists k, i = (length (oack_plan t) + k)%nat /\
    e = data_entry (Z.to_nat (block_size t)) file k.
Proof.
  unfold transfer_plan. intros [Hi | [Hge Hi]]%lookup_app_Some.
  - left. by apply oack_plan_lookup.
  - right. apply data_plan_number in Hi. exists (i - length (oack_plan t))%nat.
    split; [lia | done].
Qed.

Lemma plan_not_error p n : (p, n) ∈ transfer_plan t file -> is_error p = false.
Proof.
  intros [i [(_ & _ & [= -> _]) | (k & _ & [= -> _])]%plan_lookup]%list_elem_of_lookup;
    unfold is_error; by rewrite bool_decide_false.
Qed.

Lemma plan_neighbours i p n :
  transfer_plan t file !! S i = Some (p, n) -> fst <$> transfer_plan t file !! i <> Some p.
Proof.
  intros [(? & _) | (k & Hk & [= -> ->])]%plan_lookup; [done |].
  destruct (transfer_plan t file !! i) as [[q m]|] eqn:E; [| done]. simpl. intros [= ->].
  apply plan_lookup in E as [(_ & _ & E) | (k' & Hk' & E)]; [by injection E |].
  assert (k = S k') as -> by lia. injection E as E1 E2 _ _.
  apply (number_next k'), to_bytes2_inj. unfold to_bytes2. congruence.
Qed.

Lemma plan_blocks_lookup k :
  (k <= last_block (Z.to_nat (block_size t)) file)%nat ->
  transfer_plan t file !! (length (oack_plan t) + k)%nat =
  Some (data_entry (Z.to_nat (block_size t)) file k).
Proof.
  intros Hk. unfold transfer_plan. rewrite lookup_app_r by lia.
  rewrite Nat.add_comm, Nat.add_sub. by apply data_plan_lookup.
Qed.

End Plan.

(** ** A client that answers

    It acknowledges every packet, nothing is lost, and the server stays up. *)

Definition ack_packet (n : Z) : bytes := to_bytes2 (opcode_value ACK) ++ to_bytes2 n.

Definition answer_to (p : bytes) : Z :=
  if bool_decide (take 2 p = to_bytes2 (opcode_value DATA))
  then from_bytes (take 2 (drop 2 p)) else 0.

Definition ideal_client (p : point) (t : TftpReadTransfer) : list event * bool :=
  match p, last (trace t) with
  | AckWait, Some (Out q) => ([Datagram true (ack_packet (answer_to q))], false)
  | _, _ => ([], false)
  end.

Definition exchange (e : bytes * Z) : list io := [Out (fst e); In (ack_packet (snd e))].

Lemma from_to_bytes2 n : from_bytes (to_bytes2 n) = n.
Proof. unfold from_bytes, to_bytes2. simpl. pose proof (Z.div_mod n 256). lia. Qed.

Section Live.

Context `{OperatorLaws}.
Context (read_total : forall f size, 0 < size -> is_some (read f size) = true).

(** [t'] is [t] after the exchanges [tr], with [b] as its block number. *)
Definition advanced (t t' : TftpReadTransfer) (b : Z) (tr : list io) : Prop :=
  trace t' = trace t ++ tr /\ block_num t' = b /\ transport t' = transport t /\
  shutdown t' = shutdown t /\ block_size t' = block_size t /\ retries t' = retries t /\
  filepath t' = filepath t /\ negotiated_options t' = negotiated_options t.

Lemma advanced_trans t1 t2 t3 b b' tr tr' :
  advanced t1 t2 b tr -> advanced t2 t3 b' tr' -> advanced t1 t3 b' (tr ++ tr').
Proof.
  unfold advanced. intros (-> & _ & -> & -> & -> & -> & -> & ->) (-> & -> & -> & -> & -> & -> & -> & ->).
  by rewrite app_assoc.
Qed.

Lemma handle_ack_live t :
  exists c, handle_ack (block_num t) t =
    t <| oack_confirmed := c |> <| last_ack := block_num t |> <| ack_received := true |>.
Proof.
  unfold handle_ack. destruct (_ && _ && _); [by exists true |].
  rewrite Z.eqb_refl. exists (oack_confirmed t). by destruct t.
Qed.

Lemma datagram_live t :
  datagram_received true (ack_packet (block_num t)) t = handle_ack (block_num t) t.
Proof.
  unfold datagram_received. cbn [negb ack_packet length app to_bytes2 Nat.ltb Nat.leb].
  change (take 2 (drop 2 _)) with (to_bytes2 (block_num t)). by rewrite from_to_bytes2.
Qed.

Lemma attempt_live t p k :
  transport t = true -> answer_to p = block_num t ->
  exists t', send_attempts ideal_client (S k) p (block_num t) t = (t', inr true) /\
    advanced t t' (block_num t) (exchange (p, block_num t)).
Proof.
  intros Htr Hp. cbn [send_attempts].
  unfold send_packet, mbind, get, modify, await, raise. rewrite Htr.
  set (t1 := sent p t <| ack_received := false |>).
  assert (ideal_client AckWait t1 = ([Datagram true (ack_packet (block_num t1))], false)) as ->.
  { unfold ideal_client. cbn [trace t1 sent set_field set_trace set_ack_received].
    by rewrite last_snoc, Hp. }
  cbn [fold_left handle_event]. change (transport t1) with (transport t). rewrite Htr.
  set (t2 := t1 <| trace ::= _ |>). change (block_num t1) with (block_num t2).
  rewrite datagram_live. destruct (handle_ack_live t2) as [c ->]. simpl.
  rewrite Z.eqb_refl. eexists. split; [done |].
  unfold advanced. simpl. by rewrite <- app_assoc.
Qed.

Lemma send_live t p (is_oack : bool) :
  transport t = true -> (0 < retries t)%nat -> answer_to p = block_num t ->
  (is_oack = true -> block_num t = 0) ->
  exists t', send_with_retries ideal_client p is_oack t = (t', inr true) /\
    advanced t t' (block_num t) (exchange (p, block_num t)).
Proof.
  intros Htr Hr Hp Hb. unfold send_with_retries, modify, get, mbind.
  set (t1 := t <| current_packet := Some p |>).
  change (retries t1) with (retries t). change (block_num t1) with (block_num t).
  destruct (retries t) as [|k]; [lia |].
  assert ((if is_oack then 0 else block_num t) = block_num t1) as ->
    by (destruct is_oack; [by rewrite <- Hb | done]).
  by apply (attempt_live t1).
Qed.

Lemma read_block_live k f data t :
  (0 < block_size t) -> block_size t <= Z.of_nat (length data + k) ->
  Z.of_nat (length data) <= block_size t ->
  exists f', read_block ideal_client k f data t =
    (t, inr (data ++ take (Z.to_nat (block_size t) - length data) (contents f), f')) /\
    contents f' = drop (Z.to_nat (block_size t) - length data) (contents f).
Proof.
  intros Hbs. revert f data. induction k as [|k IH]; intros f data Hk Hd; cbn [read_block];
    unfold mbind, get; (destruct (Z.ltb_spec (Z.of_nat (length data)) (block_size t)) as [Hlt|Hge];
      [| exists f; replace (Z.to_nat (block_size t) - length data)%nat with 0%nat by lia;
         by rewrite app_nil_r]); [lia |].
  simpl negb. cbv iota. unfold await. cbn [ideal_client fold_left].
  pose proof (read_total f (block_size t - Z.of_nat (length data)) ltac:(lia)) as Htot.
  destruct (read f _) as [[chunk f']|] eqn:E; [clear Htot | done].
  apply read_prefix in E as (Hc & Hl & He); [| lia].
  set (m := (Z.to_nat (block_size t) - length data)%nat) in *.
  destruct chunk as [|x chunk].
  - exists f'. pose proof (He eq_refl) as Hf. rewrite Hf in Hc |- *.
    rewrite take_nil, drop_nil, app_nil_r. by split.
  - destruct (IH f' (data ++ x :: chunk)) as (f'' & Hr & Hf'');
      rewrite ?length_app in *; simpl length in *; [lia.. |].
    exists f''. rewrite Hc, take_app_ge, drop_app_ge by (simpl length; lia). simpl length.
    replace (m - S (length chunk))%nat
      with (Z.to_nat (block_size t) - (length data + S (length chunk)))%nat by lia.
    split; [| exact Hf'']. etrans; [exact Hr |]. by rewrite <- app_assoc.
Qed.

Context (file : bytes).

Lemma answer_to_data n d : answer_to (create_data_packet n d) = n.
Proof. unfold answer_to. rewrite bool_decide_true by done. apply from_to_bytes2. Qed.

(** The end of the file comes with the last block. *)
Lemma block_length t k :
  let bs := Z.to_nat (block_size t) in
  0 < block_size t -> (k <= last_block bs file)%nat ->
  (Z.of_nat (length (block bs file k)) <? block_size t) = (last_block bs file <=? k)%nat.
Proof.
  intros bs Hbs. unfold block, last_block. rewrite length_take, length_drop. intros Hk.
  pose proof (Nat.div_mod (length file) bs ltac:(lia)).
  pose proof (Nat.mod_upper_bound (length file) bs ltac:(lia)).
  destruct (Nat.leb_spec (length file / bs) k); [apply Z.ltb_lt | apply Z.ltb_ge]; nia.
Qed.

Lemma handle_block_live t k :
  let bs := Z.to_nat (block_size t) in
  0 < block_size t -> (k <= last_block bs file)%nat ->
  transport t = true -> (0 < retries t)%nat -> block_num t = number k ->
  exists t' b, handle_data_block ideal_client (block bs file k) t =
      (t', inr (negb (last_block bs file <=? k)%nat)) /\
    advanced t t' b (exchange (data_entry bs file k)) /\
    ((last_block bs file <=? k)%nat = false -> b = number (S k)).
Proof.
  intros bs Hbs Hk Htr Hr Hb. pose proof (block_length t k Hbs Hk) as Hlen. fold bs in Hlen.
  destruct (send_live t (create_data_packet (number k) (block bs file k)) false)
    as (t' & Hs & Ha); try done; [rewrite Hb; apply answer_to_data |].
  rewrite Hb in Ha. change (exchange _) with (exchange (data_entry bs file k)) in Ha.
  unfold handle_data_block, mbind, get. rewrite Hb.
  destruct (bool_decide_reflect (block bs file k = [])) as [E|E].
  - rewrite E in Hs, Hlen. change (Z.of_nat _) with 0 in Hlen.
    rewrite (proj2 (Z.ltb_lt _ _) Hbs) in Hlen.
    rewrite <- Hlen. simpl. exists t', (number k).
    destruct (number k =? 1); by rewrite Hs.
  - simpl. rewrite Hs. simpl. eexists _, (number (S k)). unfold modify, mret.
    pose proof Ha as (? & Hb' & ? & ? & Hz & ?). simpl. rewrite Hz, Hlen.
    split_and!; [done | | done].
    destruct_and!. unfold advanced. simpl. rewrite Hb', number_S.
    split_and!; done.
Qed.

Lemma blocks_live n k f t :
  let bs := Z.to_nat (block_size t) in
  0 < block_size t -> (k <= last_block bs file)%nat -> (last_block bs file < n + k)%nat ->
  contents f = drop (k * bs) file ->
  transport t = true -> shutdown t = false -> (0 < retries t)%nat -> block_num t = number k ->
  exists t', transfer_blocks ideal_client n f t = (t', inr tt) /\
    trace t' = trace t ++
      concat (map (fun i => exchange (data_entry bs file i)) (seq k (S (last_block bs file) - k))).
Proof.
  intros bs. revert k f t bs. induction n as [|n IH]; intros k f t bs Hbs Hk Hn Hf Htr Hsh Hr Hb;
    [lia |].
  cbn [transfer_blocks]. unfold mbind at 1, get. rewrite Hsh.
  destruct (read_block_live (Z.to_nat (block_size t)) f [] t) as (f' & Hrd & Hf');
    [done | simpl; lia | simpl; lia |].
  rewrite Nat.sub_0_r, Hf in Hrd. rewrite Nat.sub_0_r, Hf, drop_drop in Hf'.
  unfold mbind at 1. rewrite Hrd. cbn [app fst snd]. fold bs. fold (block bs file k).
  destruct (handle_block_live t k Hbs Hk Htr Hr Hb) as (t1 & b & Hh & Ha & Hb1).
  fold bs in Hh, Ha, Hb1. unfold mbind. rewrite Hh.
  replace (S (last_block bs file) - k)%nat with (S (last_block bs file - k)) by lia.
  cbn [seq map concat]. fold bs.
  destruct (Nat.leb_spec (last_block bs file) k) as [Hle|Hlt].
  - exists t1. replace (last_block bs file - k)%nat with 0%nat by lia.
    destruct Ha as [-> _]. by split.
  - destruct Ha as (Ht1 & Hbn & Htr1 & Hsh1 & Hz1 & Hr1 & _). cbn [negb].
    specialize (Hb1 eq_refl).
    destruct (IH (S k) f' t1) as (t' & Hrun & Htrace); rewrite ?Hz1; fold bs;
      try congruence; try lia; [rewrite Hf'; f_equal; unfold bs; lia |].
    exists t'. split; [exact Hrun |]. rewrite Htrace, Ht1, Hz1. fold bs.
    rewrite <- !app_assoc. simpl. done.
Qed.

End Live.

(** ** The theorems *)

Section Theorems.

Context `{OperatorLaws}.

(** C15: whatever the client sends, however datagrams are lost, repeated or reordered,
    and whenever the server shuts down or the storage fails, a read transfer follows the
    stop-and-wait contract: the trace of its socket is accepted for the plan made of the
    OACK (when it is due) and the blocks of the file in order, numbered from 1 modulo
    65536, so that no block is skipped, altered, or sent before the one before it was
    acknowledged; and its loops end within the number of blocks of the file. *)
Theorem transfer_refines env endpoint_ok srv path blksize tmo negotiated file n :
  (forall p f, open_file p = Some f -> contents f = file) ->
  0 < blksize -> (0 < srv_retries srv)%nat ->
  (length file / Z.to_nat blksize < n)%nat ->
  let t0 := start_transfer srv path blksize tmo negotiated in
  let '(t, r) := start env endpoint_ok n t0 in
  (exists s, run_spec (transfer_plan t0 file) (trace t) = Some s) /\ r <> inl OutOfFuel.
Proof.
  intros Hopen Hbs Hret Hn t0.
  pose proof (start_follows (transfer_plan t0 file) (Z.to_nat blksize)
    (negotiated, srv_timeout srv) (plan_not_error t0 file) env endpoint_ok
    (plan_neighbours t0 file) (length (oack_plan t0)) file
    (plan_blocks_lookup t0 file) n ltac:(lia) Hn Hopen) as Hs.
  assert (between (transfer_plan t0 file) (Z.to_nat blksize) (negotiated, srv_timeout srv) 0 0 t0)
    as Hb.
  { exists (mkState 0 false). split; [| done]. constructor; simpl; try done; lia. }
  assert (forall t, (negotiated_options t, server_timeout t) = (negotiated, srv_timeout srv) ->
            conf_transfer (transfer_plan t0 file) (length (oack_plan t0)) t) as Hconf.
  { intros t [_ E]%(oack_plan_conf t t0). unfold conf_transfer, transfer_plan.
    by rewrite E, take_app_length. }
  specialize (Hs Hconf t0 Hb).
  destruct (start _ _ n t0) as [t [e|[]]]; [| by split].
  destruct Hs as [Hs ?]. split; [by eapply settled_safe | congruence].
Qed.

(** The start of a transfer with a quiet client. *)
Lemma create_endpoint_quiet env t :
  (forall t, fst (env Endpoint t) = []) ->
  create_endpoint env true t = (t <| transport := true |>, inr tt).
Proof.
  intros Henv. unfold create_endpoint, mbind, await, modify.
  pose proof (Henv t) as H1. destruct (env Endpoint t) as [evs x]. simpl in H1. subst evs.
  cbn [fold_left]. set (t1 := t <| transport := true |>).
  pose proof (Henv t1) as H1. destruct (env Endpoint t1) as [evs y]. simpl in H1. by subst evs.
Qed.

Lemma initialize_live t o :
  needs_oack t = inr o -> (0 < retries t)%nat -> block_num t = 0 -> trace t = [] ->
  exists t', initialize_transfer ideal_client true t = (t', inr true) /\
    advanced (t <| transport := true |>) t' 1 (concat (map exchange (oack_plan t))).
Proof.
  intros Ho Hr Hb Htr. unfold initialize_transfer, mbind at 1.
  rewrite create_endpoint_quiet by done. unfold mbind at 1, get.
  set (t1 := t <| transport := true |>).
  destruct (oack_plan_conf t1 t eq_refl) as [-> _]. unfold oack_plan. rewrite Ho.
  destruct o.
  - destruct (send_live t1 (create_oack_packet (negotiated_options t1)) true) as (t' & Hs & Ha);
      [done | done | by change (block_num t1) with (block_num t); rewrite Hb | by intros _ |].
    unfold mbind, modify. rewrite Hs. eexists. split; [done |].
    unfold advanced in *. simpl in *. rewrite Hb in Ha. by destruct_and!.
  - eexists. split; [done |]. unfold advanced. simpl. by rewrite app_nil_r.
Qed.

Lemma start_initialized env endpoint_ok n t t1 :
  initialize_transfer env endpoint_ok t = (t1, inr true) ->
  start env endpoint_ok n t =
  try_finally (perform_transfer env n)
    (if bool_decide (negotiated_options t1 = []) then t1 <| oack_confirmed := true |> else t1).
Proof.
  intros Hi. unfold start, mbind at 1. rewrite Hi.
  unfold try_finally, negb, mbind, get, modify, mret. by case_bool_decide.
Qed.

(** The negotiated options that [_initialize_transfer] can read: none at all, or a block
    size, together with a timeout when the block size is the default one. *)
Definition readable_options (negotiated : list (string * Z)) : Prop :=
  negotiated = [] \/
  exists b, dict_get "blksize" negotiated = Some b /\
    (b <> 512 \/ is_some (dict_get "timeout" negotiated) = true).

Lemma readable_needs_oack t :
  readable_options (negotiated_options t) -> exists o, needs_oack t = inr o.
Proof.
  unfold needs_oack. intros [->|(b & -> & Hb)]; [by eexists |].
  case_bool_decide; [by eexists |]. destruct (Z.eqb_spec b 512) as [->|]; [| by eexists].
  destruct Hb as [Hb|Hb]; [done |]. destruct (dict_get "timeout" _); [by eexists | done].
Qed.

(** C16: with a client that acknowledges every packet and a storage operator that
    answers, a transfer whose negotiated options are none, or a block size other than
    512, or the block size 512 together with a timeout, runs to its end (on a server that
    makes at least one attempt and is not shutting down): its socket carries the whole
    plan, each packet once with its acknowledgement, the payloads put together are the
    file byte for byte, and the transfer is closed and no longer registered. A timeout
    without a block size, or the block size 512 alone, is excluded: there the start of
    the transfer fails ([timeout_option_alone_fails]). *)
Theorem transfer_complete srv path blksize tmo negotiated f n :
  (forall f size, 0 < size -> is_some (read f size) = true) ->
  open_file path = Some f ->
  0 < blksize -> (0 < srv_retries srv)%nat -> shutdown_event srv = false ->
  let t0 := start_transfer srv path blksize tmo negotiated in
  let bs := Z.to_nat blksize in
  readable_options negotiated ->
  (last_block bs (contents f) < n)%nat ->
  exists t,
    start ideal_client true n t0 = (t, inr tt) /\
    trace t = concat (map exchange (transfer_plan t0 (contents f))) /\
    concat (map (block bs (contents f)) (seq 0 (S (last_block bs (contents f))))) = contents f /\
    registered t = false /\ transport t = false.
Proof.
  intros Htot Hopen Hbs Hret Hsh t0 bs Hneg Hn.
  destruct (readable_needs_oack t0 Hneg) as [o Ho].
  destruct (initialize_live t0 o Ho Hret eq_refl eq_refl) as (t1 & Hi & Ha).
  rewrite (start_initialized _ _ _ _ _ Hi).
  set (t2 := if bool_decide (negotiated_options t1 = []) then t1 <| oack_confirmed := true |> else t1).
  assert (advanced (t0 <| transport := true |>) t2 1 (concat (map exchange (oack_plan t0)))) as Ha2
    by (unfold t2; by case_bool_decide).
  clear Hi Ha. clearbody t2. destruct Ha2 as (Htr & Hb & Hop & Hs & Hz & Hr & Hp & _).
  unfold try_finally, perform_transfer, mbind, get, await. cbn [ideal_client fold_left].
  rewrite Hp. change (filepath _) with path. rewrite Hopen. unfold closing.
  assert (Z.to_nat (block_size t2) = bs) as Hz' by by rewrite Hz.
  destruct (blocks_live Htot (contents f) n 0 f t2)
    as (t3 & Hrun & Htrace); rewrite ?Hz', ?Hz, ?Hs, ?Hr; try done; try lia.
  rewrite Hrun. eexists. split; [done |]. cbn [trace cleanup fst].
  split_and!; [| apply blocks_concat; lia | done | done].
  unfold await. cbn [ideal_client fold_left fst cleanup]. simpl. rewrite Htrace, Htr, Hz'.
  unfold transfer_plan, data_plan. rewrite map_app, concat_app, map_map.
  by rewrite Nat.sub_0_r.
Qed.

(** A client that asks for the [timeout] option without [blksize] gets no file: the
    options negotiated for it lack the key that [_initialize_transfer] reads first, the
    [KeyError] leaves [start] before its [try], nothing is sent, and the transfer stays
    registered with its socket open. *)
Theorem timeout_option_alone_fails py_int srv path options v env n :
  option_get BLKSIZE options = None -> option_get TIMEOUT options = Some v ->
  (forall t, fst (env Endpoint t) = []) ->
  let '(negotiated, blksize, tmo) := negotiate_options py_int srv options in
  let '(t, r) := start env true n (start_transfer srv path blksize tmo negotiated) in
  r = inl KeyError /\ trace t = [] /\ registered t = true /\ transport t = true.
Proof.
  intros Hb Ht Henv. unfold negotiate_options. rewrite Hb, Ht.
  unfold start, mbind at 1, initialize_transfer, mbind at 1.
  by rewrite create_endpoint_quiet by done.
Qed.

Lemma silent_attempts env k p n t :
  transport t = true -> (forall q t, fst (env q t) = []) ->
  let '(t', r) := send_attempts env k p n t in
  r = inr false /\ trace t' = trace t ++ replicate k (Out p) /\
  registered t' = registered t /\ transport t' = true.
Proof.
  intros Htr Henv. revert t Htr. induction k as [|k IH]; intros t Htr; cbn [send_attempts].
  - simpl. by rewrite app_nil_r.
  - unfold send_packet, mbind, get, modify, await. rewrite Htr.
    set (t1 := sent p t <| ack_received := false |>).
    pose proof (Henv AckWait t1) as He. destruct (env AckWait t1) as [evs x]. simpl in He. subst.
    cbn [fold_left]. change (ack_received t1) with false. rewrite andb_false_r. cbn [andb].
    specialize (IH t1 Htr). destruct (send_attempts env k p n t1) as [t' r].
    destruct IH as (-> & -> & -> & ->). split_and!; try done.
    simpl. by rewrite <- app_assoc.
Qed.

(** An OACK that nobody answers is sent exactly as many times as the server's
    retries; then [start] returns without its [finally]: the socket stays open and the
    transfer registered. *)
Theorem unanswered_oack_leaks srv path blksize tmo negotiated env n :
  (forall q t, fst (env q t) = []) ->
  let t0 := start_transfer srv path blksize tmo negotiated in
  needs_oack t0 = inr true ->
  let '(t, r) := start env true n t0 in
  r = inr tt /\
  trace t = replicate (srv_retries srv) (Out (create_oack_packet negotiated)) /\
  registered t = true /\ transport t = true.
Proof.
  intros Henv t0 Ho. unfold start, mbind at 1, initialize_transfer, mbind at 1.
  rewrite create_endpoint_quiet by done. unfold mbind at 1, get.
  change (needs_oack (t0 <| transport := true |>)) with (needs_oack t0). rewrite Ho.
  unfold send_with_retries, mbind, modify, get.
  set (t1 := t0 <| transport := true |> <| current_packet := _ |>).
  pose proof (silent_attempts env (retries t1) (create_oack_packet negotiated) 0 t1 eq_refl Henv)
    as Hs.
  change (negotiated_options (t0 <| transport := true |>)) with negotiated in t1 |- *.
  destruct (send_attempts env (retries t1) _ 0 t1) as [t r].
  by destruct Hs as (-> & ? & ? & ?).
Qed.

End Theorems.

(** ** Read requests *)

Section Requests.

Context (isprintable : Z -> bool) (lower : text -> text) (py_int : text -> option Z)
        (decode_error : bytes -> text).

Lemma parse_request_chars data name mode opts :
  parse_request isprintable lower decode_error data = inr (name, mode, opts) ->
  (length name <= 255)%nat /\ Forall (fun c => c ∉ forbidden) name.
Proof.
  unfold parse_request. intros E. split_ifs_in E; try done. injection E as <- <- <-.
  rename select ((255 <? _) = false) into Hl. apply Z.ltb_ge in Hl. split; [lia |].
  rename select (negb _ = false) into Hf. apply negb_false_iff in Hf.
  apply Forall_forall. intros c Hc Hin. rewrite forallb_forall in Hf.
  apply list_elem_of_In, Hf, andb_true_iff in Hc as [_ Hc]. apply negb_true_iff in Hc.
  assert (existsb (Z.eqb c) forbidden = true) as Hx; [| congruence].
  apply existsb_exists. exists c. by rewrite Z.eqb_refl, <- list_elem_of_In.
Qed.

Lemma block_size_range srv r :
  negotiate_block_size py_int srv r = srv_block_size srv \/
  512 <= negotiate_block_size py_int srv r <= 65464.
Proof.
  unfold negotiate_block_size. split_ifs; auto.
  right. apply andb_true_iff in Heqb as [?%Z.leb_le ?%Z.leb_le]. lia.
Qed.

Lemma timeout_range srv r :
  negotiate_timeout py_int srv r = srv_timeout srv \/
  1000 <= negotiate_timeout py_int srv r <= 255000.
Proof.
  unfold negotiate_timeout. split_ifs; auto.
  right. apply andb_true_iff in Heqb as [?%Z.leb_le ?%Z.leb_le]. lia.
Qed.

Lemma negotiate_values srv opts negotiated blksize tmo :
  negotiate_options py_int srv opts = (negotiated, blksize, tmo) ->
  (blksize = srv_block_size srv \/ 512 <= blksize <= 65464) /\
  (tmo = srv_timeout srv \/ 1000 <= tmo <= 255000) /\
  (forall b, dict_get "blksize" negotiated = Some b -> b = blksize) /\
  (forall s, dict_get "timeout" negotiated = Some s -> s = Z.quot tmo 1000).
Proof.
  unfold negotiate_options.
  pose proof (block_size_range srv (option_get BLKSIZE opts)).
  pose proof (timeout_range srv (option_get TIMEOUT opts)).
  destruct (option_get BLKSIZE opts), (option_get TIMEOUT opts); intros [= <- <- <-];
    split_and!; auto; simpl; intros; congruence.
Qed.

(** C17: a read request that starts a transfer names a regular file of the storage root:
    its path is not empty, has no separator of either kind and is not the parent directory, whatever
    bytes the client sent; the block size and the timeout are the server's own or in the
    range of the option's RFC; and the OACK tells the client the values in effect. *)
Theorem read_request_confined srv data stat path blksize tmo negotiated :
  handle_read_request isprintable lower py_int decode_error srv data stat =
    StartTransfer path blksize tmo negotiated ->
  ((47 ∉ path) /\ (92 ∉ path) /\ path <> [46; 46] /\ (0 < length path <= 255)%nat /\
   stat path = StatFile) /\
  (blksize = srv_block_size srv \/ 512 <= blksize <= 65464) /\
  (tmo = srv_timeout srv \/ 1000 <= tmo <= 255000) /\
  (forall b, dict_get "blksize" negotiated = Some b -> b = blksize) /\
  (forall s, dict_get "timeout" negotiated = Some s -> s = Z.quot tmo 1000).
Proof.
  unfold handle_read_request. intros E.
  destruct (parse_request _ _ _ data) as [|[[name mode] opts]] eqn:Hparse; [done |].
  destruct (negb (valid_mode mode)); [done |].
  unfold resolve_and_validate_path in E.
  destruct (traversal name) eqn:Htr; [done |]. destruct (stat name) eqn:Hst; try done.
  apply parse_request_chars in Hparse as [Hlen Hch]. rewrite Forall_forall in Hch.
  case_bool_decide as Hne; [done |].
  destruct (negotiate_options py_int srv opts) as [[ng b] tm] eqn:N. injection E as -> -> -> ->.
  split.
  - split_and!; [| | | | done | done].
    4: destruct path; [done | simpl; lia].
    + intros Hin. apply (Hch _ Hin), list_elem_of_In. vm_compute. tauto.
    + intros Hin. apply (Hch _ Hin), list_elem_of_In. vm_compute. tauto.
    + intros ->. done.
  - by eapply negotiate_values.
Qed.

End Requests.

(** ** A concrete server *)

Module Demo.

Definition file : bytes := [104; 101; 108; 108; 111].
#[export] Instance operator : Operator := {|
  handle := bytes;
  open_file := fun _ => Some file;
  read := fun f size => Some (take (Z.to_nat size) f, drop (Z.to_nat size) f)
|}.

#[export] Instance operator_laws : OperatorLaws.
Proof.
  refine {| contents := fun f : @handle operator => f |}.
  intros f size c f' Hs [= <- <-]. rewrite take_drop, length_take.
  split_and!; [done | lia |]. intros E.
  destruct f; [done |]. destruct (Z.to_nat size) eqn:?; [lia | done].
Defined.

Definition srv : TftpServer := mkTftpServer 512 5000 3 false.

(** A client that answers the first packet, repeats itself, then goes silent. *)
Definition lossy (p : point) (t : TftpReadTransfer) : list event * bool :=
  if (length (trace t) <? 4)%nat
  then ([Datagram true (ack_packet (block_num t)); Datagram true (ack_packet (block_num t - 1))], false)
  else ([], true).

Definition silent (_ : point) (_ : TftpReadTransfer) : list event * bool := ([], true).

(** [RRQ] for [a.txt] in octet mode with a block size of 1024. *)
Definition rrq : bytes :=
  [0; 1] ++ Utf8.of_string "a.txt" ++ [0] ++ Utf8.of_string "octet" ++ [0] ++
  Utf8.of_string "blksize" ++ [0] ++ Utf8.of_string "1024" ++ [0].

Definition digits (t : text) : option Z := Some (fold_left (fun acc d => acc * 10 + (d - 48)) t 0).

End Demo.

Import Demo.

Lemma transfer_refines_witness :
  let t0 := start_transfer Demo.srv [] 2 5000 [] in
  let '(t, r) := start Demo.lossy true 10 t0 in
  (exists s, run_spec (transfer_plan t0 Demo.file) (trace t) = Some s) /\ r <> inl OutOfFuel.
Proof.
  apply (transfer_refines Demo.lossy true Demo.srv []
           2 5000 [] Demo.file 10).
  - by intros p f [= <-].
  - lia.
  - simpl; lia.
  - vm_compute; lia.
Defined.

Lemma transfer_complete_witness :
  exists t,
    start ideal_client true 10
      (start_transfer Demo.srv [] 1024 5000 [("blksize"%string, 1024)]) = (t, inr tt) /\
    registered t = false.
Proof.
  assert (readable_options [("blksize"%string, 1024)]) as Hneg
    by (right; exists 1024; split; [reflexivity | left; lia]).
  destruct (transfer_complete Demo.srv [] 1024 5000
              [("blksize"%string, 1024)] (Demo.file : @handle operator) 10 (fun _ _ _ => eq_refl)
              eq_refl ltac:(lia) ltac:(simpl; lia) eq_refl Hneg ltac:(vm_compute; lia))
    as (t & Hs & _ & _ & Hr & _).
  by exists t.
Defined.

Lemma timeout_option_alone_fails_witness :
  let '(negotiated, blksize, tmo) :=
    negotiate_options Demo.digits Demo.srv [(TIMEOUT, Utf8.of_string "3")] in
  let '(t, r) := start Demo.silent true 10
                   (start_transfer Demo.srv [] blksize tmo negotiated) in
  r = inl KeyError /\ trace t = [] /\ registered t = true /\ transport t = true.
Proof.
  apply (timeout_option_alone_fails Demo.digits Demo.srv []
           [(TIMEOUT, Utf8.of_string "3")] (Utf8.of_string "3") Demo.silent 10); done.
Defined.

Lemma unanswered_oack_leaks_witness :
  let '(t, r) := start Demo.silent true 10
                   (start_transfer Demo.srv [] 1024 5000 [("blksize"%string, 1024)]) in
  r = inr tt /\
  trace t = replicate 3 (Out (create_oack_packet [("blksize"%string, 1024)])) /\
  registered t = true /\ transport t = true.
Proof.
  apply (unanswered_oack_leaks Demo.srv [] 1024 5000
           [("blksize"%string, 1024)] Demo.silent 10); done.
Defined.

Lemma read_request_confined_witness :
  handle_read_request (fun _ => true) (fun t => t) Demo.digits (fun _ => []) Demo.srv Demo.rrq
    (fun _ => StatFile) =
    StartTransfer (Utf8.of_string "a.txt") 1024 5000 [("blksize"%string, 1024)] /\
  (47 ∉ Utf8.of_string "a.txt").
Proof.
  split; [vm_compute; reflexivity |].
  apply (read_request_confined (fun _ => true) (fun t => t) Demo.digits (fun _ => []) Demo.srv
           Demo.rrq (fun _ => StatFile) (Utf8.of_string "a.txt") 1024 5000
           [("blksize"%string, 1024)]).
  vm_compute. reflexivity.
Defined.
