(* ===== verification/LeaseContext.v ===== *)
(** * Lease contexts and hook configuration

    [exporter/lease_context.py]: the resources of one lease. Its [anyio.Event]s
    are set once and never cleared, so each is a boolean. [config/exporter.py]:
    the configuration of the lifecycle hooks. *)

From stdpp Require Import base list strings.
From Stdlib Require Import ZArith Lia.
From S2P Require Import Prelude Enums Session.

(** ** Hook configuration *)

Inductive OnFailure := warn | endLease | exit.

#[export] Instance OnFailure_eq_dec : EqDecision OnFailure.
Proof. solve_decision. Defined.

Record HookInstanceConfigV1Alpha1 := mkHookInstance {
  exec_ : option string;
  script : string;
  timeout : Z;
  on_failure : OnFailure
}.

Record HookConfigV1Alpha1 := mkHookConfig {
  before_lease : option HookInstanceConfigV1Alpha1;
  after_lease : option HookInstanceConfigV1Alpha1
}.

(** ** [LeaseContext] *)

Record LeaseContext := mkLeaseContext {
  lease_name : string;
  before_lease_hook : bool;
  end_session_requested : bool;
  after_lease_hook_started : bool;
  after_lease_hook_done : bool;
  lease_ended : bool;
  session : option Session;
  socket_path : string;
  hook_socket_path : string;
  client_name : string;
  lc_current_status : ExporterStatus;
  lc_status_message : string;
  skip_after_lease_hook : bool
}.

#[export] Instance set_lease_name : Setter lease_name := fun u r =>
  mkLeaseContext (u (lease_name r)) (before_lease_hook r) (end_session_requested r)
    (after_lease_hook_started r) (after_lease_hook_done r) (lease_ended r) (session r)
    (socket_path r) (hook_socket_path r) (client_name r) (lc_current_status r)
    (lc_status_message r) (skip_after_lease_hook r).
#[export] Instance set_before_lease_hook : Setter before_lease_hook := fun u r =>
  mkLeaseContext (lease_name r) (u (before_lease_hook r)) (end_session_requested r)
    (after_lease_hook_started r) (after_lease_hook_done r) (lease_ended r) (session r)
    (socket_path r) (hook_socket_path r) (client_name r) (lc_current_status r)
    (lc_status_message r) (skip_after_lease_hook r).
#[export] Instance set_end_session_requested : Setter end_session_requested := fun u r =>
  mkLeaseContext (lease_name r) (before_lease_hook r) (u (end_session_requested r))
    (after_lease_hook_started r) (after_lease_hook_done r) (lease_ended r) (session r)
    (socket_path r) (hook_socket_path r) (client_name r) (lc_current_status r)
    (lc_status_message r) (skip_after_lease_hook r).
#[export] Instance set_after_lease_hook_started : Setter after_lease_hook_started := fun u r =>
  mkLeaseContext (lease_name r) (before_lease_hook r) (end_session_requested r) (u
    (after_lease_hook_started r)) (after_lease_hook_done r) (lease_ended r) (session r)
    (socket_path r) (hook_socket_path r) (client_name r) (lc_current_status r)
    (lc_status_message r) (skip_after_lease_hook r).
#[export] Instance set_after_lease_hook_done : Setter after_lease_hook_done := fun u r =>
  mkLeaseContext (lease_name r) (before_lease_hook r) (end_session_requested r)
    (after_lease_hook_started r) (u (after_lease_hook_done r)) (lease_ended r)
    (session r) (socket_path r) (hook_socket_path r) (client_name r)
    (lc_current_status r) (lc_status_message r) (skip_after_lease_hook r).
#[export] Instance set_lease_ended : Setter lease_ended := fun u r =>
  mkLeaseContext (lease_name r) (before_lease_hook r) (end_session_requested r)
    (after_lease_hook_started r) (after_lease_hook_done r) (u (lease_ended r))
    (session r) (socket_path r) (hook_socket_path r) (client_name r)
    (lc_current_status r) (lc_status_message r) (skip_after_lease_hook r).
#[export] Instance set_session : Setter session := fun u r =>
  mkLeaseContext (lease_name r) (before_lease_hook r) (end_session_requested r)
    (after_lease_hook_started r) (after_lease_hook_done r) (lease_ended r) (u
    (session r)) (socket_path r) (hook_socket_path r) (client_name r)
    (lc_current_status r) (lc_status_message r) (skip_after_lease_hook r).
#[export] Instance set_socket_path : Setter socket_path := fun u r =>
  mkLeaseContext (lease_name r) (before_lease_hook r) (end_session_requested r)
    (after_lease_hook_started r) (after_lease_hook_done r) (lease_ended r) (session r)
    (u (socket_path r)) (hook_socket_path r) (client_name r) (lc_current_status r)
    (lc_status_message r) (skip_after_lease_hook r).
#[export] Instance set_hook_socket_path : Setter hook_socket_path := fun u r =>
  mkLeaseContext (lease_name r) (before_lease_hook r) (end_session_requested r)
    (after_lease_hook_started r) (after_lease_hook_done r) (lease_ended r) (session r)
    (socket_path r) (u (hook_socket_path r)) (client_name r) (lc_current_status r)
    (lc_status_message r) (skip_after_lease_hook r).
#[export] Instance set_client_name : Setter client_name := fun u r =>
  mkLeaseContext (lease_name r) (before_lease_hook r) (end_session_requested r)
    (after_lease_hook_started r) (after_lease_hook_done r) (lease_ended r) (session r)
    (socket_path r) (hook_socket_path r) (u (client_name r)) (lc_current_status r)
    (lc_status_message r) (skip_after_lease_hook r).
#[export] Instance set_lc_current_status : Setter lc_current_status := fun u r =>
  mkLeaseContext (lease_name r) (before_lease_hook r) (end_session_requested r)
    (after_lease_hook_started r) (after_lease_hook_done r) (lease_ended r) (session r)
    (socket_path r) (hook_socket_path r) (client_name r) (u (lc_current_status r))
    (lc_status_message r) (skip_after_lease_hook r).
#[export] Instance set_lc_status_message : Setter lc_status_message := fun u r =>
  mkLeaseContext (lease_name r) (before_lease_hook r) (end_session_requested r)
    (after_lease_hook_started r) (after_lease_hook_done r) (lease_ended r) (session r)
    (socket_path r) (hook_socket_path r) (client_name r) (lc_current_status r) (u
    (lc_status_message r)) (skip_after_lease_hook r).
#[export] Instance set_skip_after_lease_hook : Setter skip_after_lease_hook := fun u r =>
  mkLeaseContext (lease_name r) (before_lease_hook r) (end_session_requested r)
    (after_lease_hook_started r) (after_lease_hook_done r) (lease_ended r) (session r)
    (socket_path r) (hook_socket_path r) (client_name r) (lc_current_status r)
    (lc_status_message r) (u (skip_after_lease_hook r)).

(** The dataclass constructor with its defaults; [__post_init__] asserts a
    non-empty name. *)
Definition new_lease_context (name : string) : option LeaseContext :=
  if truthy name then
    Some (mkLeaseContext name false false false false false None "" "" ""
            AVAILABLE "" false)
  else None.

Definition is_ready (c : LeaseContext) : bool :=
  is_some (session c) && negb (String.eqb (socket_path c) "").

Definition is_active (c : LeaseContext) : bool := truthy (lease_name c).

Definition has_client (c : LeaseContext) : bool := truthy (client_name c).

Definition update_client (name : string) (c : LeaseContext) : LeaseContext :=
  c <| client_name := name |>.

Definition clear_client (c : LeaseContext) : LeaseContext :=
  c <| client_name := "" |>.

(** The status is kept in the context and, when the session exists, passed on
    to it ([Session.update_status] cannot fail on a member of the enum:
    [update_status_total]). *)
Definition lc_update_status (status : ExporterStatus) (msg : string) (c : LeaseContext)
    : LeaseContext :=
  let c' := c <| lc_current_status := status |> <| lc_status_message := msg |> in
  match session c' with
  | Some s => c' <| session := Some (default s (update_status status msg s)) |>
  | None => c'
  end.

Definition drivers_ready (c : LeaseContext) : bool := before_lease_hook c.

(** ** Evolution of a context

    What every operation of the exporter may do to a context it already has:
    events are only ever set, the name never changes. *)

Definition lc_mono (c c' : LeaseContext) : Prop :=
  lease_name c' = lease_name c /\
  (before_lease_hook c = true -> before_lease_hook c' = true) /\
  (end_session_requested c = true -> end_session_requested c' = true) /\
  (after_lease_hook_started c = true -> after_lease_hook_started c' = true) /\
  (after_lease_hook_done c = true -> after_lease_hook_done c' = true) /\
  (lease_ended c = true -> lease_ended c' = true) /\
  (is_some (session c) = true -> is_some (session c') = true) /\
  (skip_after_lease_hook c = true -> skip_after_lease_hook c' = true).

#[export] Instance lc_mono_preorder : PreOrder lc_mono.
Proof.
  split.
  - intros c. by repeat split.
  - intros c1 c2 c3 H1 H2. unfold lc_mono in *. destruct_and!. split_and!; auto. congruence.
Qed.

Lemma lc_update_status_mono st m c : lc_mono c (lc_update_status st m c).
Proof.
  unfold lc_update_status. destruct c as [? ? ? ? ? ? [s|]]; by repeat split.
Qed.

Lemma lc_update_status_eq st m c :
  let c' := lc_update_status st m c in
  lc_current_status c' = st /\ lc_status_message c' = m /\
  (forall s', session c' = Some s' ->
     current_status s' = st /\ status_message s' = m) /\
  is_some (session c') = is_some (session c).
Proof.
  unfold lc_update_status. destruct c as [? ? ? ? ? ? [s|]]; simpl.
  - destruct (update_status_total st m s) as [s1 Hs]. rewrite Hs. simpl.
    split_and!; try done. intros s' [= <-].
    by destruct (update_status_eq _ _ _ _ Hs) as (? & ? & _).
  - by split_and!.
Qed.

#[export] Hint Resolve lc_update_status_mono : jmp.
