(* ===== verification/ExporterState.v ===== *)
(** * State of the exporter and the monad of its coroutines

    [exporter/exporter.py]: the fields of [Exporter], the messages it exchanges
    with the controller and the shared world its tasks run on. Lease contexts
    are shared objects: they live in a store and are referred to by their
    index, so that [self._lease_context is lease_ctx] is equality of indices. *)

From stdpp Require Import base list strings.
From Stdlib Require Import ZArith Lia.
From S2P Require Import Prelude Enums Session LeaseContext Coroutine.

(** ** gRPC *)

Inductive StatusCode :=
| OK | CANCELLED | UNKNOWN | INVALID_ARGUMENT | DEADLINE_EXCEEDED | NOT_FOUND
| ALREADY_EXISTS | PERMISSION_DENIED | RESOURCE_EXHAUSTED | FAILED_PRECONDITION
| ABORTED | OUT_OF_RANGE | UNIMPLEMENTED | INTERNAL | UNAVAILABLE | DATA_LOSS
| UNAUTHENTICATED.

#[export] Instance StatusCode_eq_dec : EqDecision StatusCode.
Proof. solve_decision. Defined.

Definition code_in (c : StatusCode) (l : list StatusCode) : bool := bool_decide (c ∈ l).

Definition TRANSIENT_GRPC_CODES : list StatusCode := [UNAVAILABLE; DEADLINE_EXCEEDED].
Definition RPC_MAX_RETRIES : nat := 20.
Definition RPC_BACKOFF_BASE : Z := 1.
Definition RPC_BACKOFF_CAP : Z := 30.
Definition RPC_TIMEOUT : Z := 30.
Definition LEASE_FINISHED_WATCHDOG : Z := 30.

Definition RELEASE_LEASE_UNSUPPORTED_CODES : list StatusCode :=
  [PERMISSION_DENIED; INVALID_ARGUMENT; UNAUTHENTICATED; UNIMPLEMENTED].

(** Messages of the controller service. An unset optional string reads as [""]. *)

Record StatusResponse := mkStatusResponse {
  st_leased : bool;
  st_lease_name : string;
  st_client_name : string;
  st_context : list (string * string)
}.

Record ListenResponse := mkListenResponse {
  router_endpoint : string;
  router_token : string
}.

Record ReportStatusRequest := mkReportStatusRequest {
  rs_status : Z;
  rs_message : string;
  rs_release_lease : bool
}.

Inductive rpc :=
| ReportStatus (r : ReportStatusRequest)
| ReleaseLease (name : string)
| Unregister (reason : string).

Inductive rpc_result :=
| RpcOk
| RpcError (code : StatusCode) (details : string)
| RpcException (msg : string).

Inductive stream_id := StatusStream | ListenStream (lid : nat).

Definition stream_item (s : stream_id) : Type :=
  match s with StatusStream => StatusResponse | ListenStream _ => ListenResponse end.

Inductive stream_event (A : Type) := Item (x : A) | StreamEnd | StreamError (msg : string).
Arguments Item {A} x.
Arguments StreamEnd {A}.
Arguments StreamError {A} msg.

(** ** Exceptions *)

Inductive HookType := before_lease_t | after_lease_t.

Inductive exn :=
| HookExecutionError (message : string) (on_failure : OnFailure) (hook_type : HookType)
| PyError (message : string)
| Cancelled.

Definition exn_str (e : exn) : string :=
  match e with
  | HookExecutionError m _ _ => m
  | PyError m => m
  | Cancelled => ""
  end.

(** ** Fields of [Exporter] *)

(** Configuration, constant while the exporter runs. *)
Record ExporterConfig := mkExporterConfig {
  cfg_exporter_name : string;
  cfg_motd : option string;
  hook_executor : option HookConfigV1Alpha1;
  exit_on_lease_end : bool
}.

(** Internal state. [tg] is the task group of [serve], with whether its cancel
    scope has been cancelled; [slot] is [_lease_context]. *)
Record Exporter := mkExporter {
  registered : bool;
  unregister : bool;
  stop_requested : bool;
  deferred_unregister : bool;
  started : bool;
  tg : option bool;
  exporter_status : ExporterStatus;
  exit_code : option Z;
  standalone : bool;
  last_completed_lease : option string;
  pending_lease_status : option StatusResponse;
  control_tx : bool;
  slot : option nat;
  release_lease_unsupported : bool;
  status_drain_active : bool;
  pending_status_request : option ReportStatusRequest;
  status_rpc_event : bool
}.

#[export] Instance set_registered : Setter registered := fun u r =>
  mkExporter (u (registered r)) (unregister r) (stop_requested r)
    (deferred_unregister r) (started r) (tg r) (exporter_status r) (exit_code r)
    (standalone r) (last_completed_lease r) (pending_lease_status r) (control_tx r)
    (slot r) (release_lease_unsupported r) (status_drain_active r)
    (pending_status_request r) (status_rpc_event r).
#[export] Instance set_unregister : Setter unregister := fun u r =>
  mkExporter (registered r) (u (unregister r)) (stop_requested r)
    (deferred_unregister r) (started r) (tg r) (exporter_status r) (exit_code r)
    (standalone r) (last_completed_lease r) (pending_lease_status r) (control_tx r)
    (slot r) (release_lease_unsupported r) (status_drain_active r)
    (pending_status_request r) (status_rpc_event r).
#[export] Instance set_stop_requested : Setter stop_requested := fun u r =>
  mkExporter (registered r) (unregister r) (u (stop_requested r))
    (deferred_unregister r) (started r) (tg r) (exporter_status r) (exit_code r)
    (standalone r) (last_completed_lease r) (pending_lease_status r) (control_tx r)
    (slot r) (release_lease_unsupported r) (status_drain_active r)
    (pending_status_request r) (status_rpc_event r).
#[export] Instance set_deferred_unregister : Setter deferred_unregister := fun u r =>
  mkExporter (registered r) (unregister r) (stop_requested r) (u
    (deferred_unregister r)) (started r) (tg r) (exporter_status r) (exit_code r)
    (standalone r) (last_completed_lease r) (pending_lease_status r) (control_tx r)
    (slot r) (release_lease_unsupported r) (status_drain_active r)
    (pending_status_request r) (status_rpc_event r).
#[export] Instance set_started : Setter started := fun u r =>
  mkExporter (registered r) (unregister r) (stop_requested r) (deferred_unregister r)
    (u (started r)) (tg r) (exporter_status r) (exit_code r) (standalone r)
    (last_completed_lease r) (pending_lease_status r) (control_tx r) (slot r)
    (release_lease_unsupported r) (status_drain_active r) (pending_status_request r)
    (status_rpc_event r).
#[export] Instance set_tg : Setter tg := fun u r =>
  mkExporter (registered r) (unregister r) (stop_requested r) (deferred_unregister r)
    (started r) (u (tg r)) (exporter_status r) (exit_code r) (standalone r)
    (last_completed_lease r) (pending_lease_status r) (control_tx r) (slot r)
    (release_lease_unsupported r) (status_drain_active r) (pending_status_request r)
    (status_rpc_event r).
#[export] Instance set_exporter_status : Setter exporter_status := fun u r =>
  mkExporter (registered r) (unregister r) (stop_requested r) (deferred_unregister r)
    (started r) (tg r) (u (exporter_status r)) (exit_code r) (standalone r)
    (last_completed_lease r) (pending_lease_status r) (control_tx r) (slot r)
    (release_lease_unsupported r) (status_drain_active r) (pending_status_request r)
    (status_rpc_event r).
#[export] Instance set_exit_code : Setter exit_code := fun u r =>
  mkExporter (registered r) (unregister r) (stop_requested r) (deferred_unregister r)
    (started r) (tg r) (exporter_status r) (u (exit_code r)) (standalone r)
    (last_completed_lease r) (pending_lease_status r) (control_tx r) (slot r)
    (release_lease_unsupported r) (status_drain_active r) (pending_status_request r)
    (status_rpc_event r).
#[export] Instance set_standalone : Setter standalone := fun u r =>
  mkExporter (registered r) (unregister r) (stop_requested r) (deferred_unregister r)
    (started r) (tg r) (exporter_status r) (exit_code r) (u (standalone r))
    (last_completed_lease r) (pending_lease_status r) (control_tx r) (slot r)
    (release_lease_unsupported r) (status_drain_active r) (pending_status_request r)
    (status_rpc_event r).
#[export] Instance set_last_completed_lease : Setter last_completed_lease := fun u r =>
  mkExporter (registered r) (unregister r) (stop_requested r) (deferred_unregister r)
    (started r) (tg r) (exporter_status r) (exit_code r) (standalone r) (u
    (last_completed_lease r)) (pending_lease_status r) (control_tx r) (slot r)
    (release_lease_unsupported r) (status_drain_active r) (pending_status_request r)
    (status_rpc_event r).
#[export] Instance set_pending_lease_status : Setter pending_lease_status := fun u r =>
  mkExporter (registered r) (unregister r) (stop_requested r) (deferred_unregister r)
    (started r) (tg r) (exporter_status r) (exit_code r) (standalone r)
    (last_completed_lease r) (u (pending_lease_status r)) (control_tx r) (slot r)
    (release_lease_unsupported r) (status_drain_active r) (pending_status_request r)
    (status_rpc_event r).
#[export] Instance set_control_tx : Setter control_tx := fun u r =>
  mkExporter (registered r) (unregister r) (stop_requested r) (deferred_unregister r)
    (started r) (tg r) (exporter_status r) (exit_code r) (standalone r)
    (last_completed_lease r) (pending_lease_status r) (u (control_tx r)) (slot r)
    (release_lease_unsupported r) (status_drain_active r) (pending_status_request r)
    (status_rpc_event r).
#[export] Instance set_slot : Setter slot := fun u r =>
  mkExporter (registered r) (unregister r) (stop_requested r) (deferred_unregister r)
    (started r) (tg r) (exporter_status r) (exit_code r) (standalone r)
    (last_completed_lease r) (pending_lease_status r) (control_tx r) (u (slot r))
    (release_lease_unsupported r) (status_drain_active r) (pending_status_request r)
    (status_rpc_event r).
#[export] Instance set_release_lease_unsupported : Setter release_lease_unsupported := fun u r =>
  mkExporter (registered r) (unregister r) (stop_requested r) (deferred_unregister r)
    (started r) (tg r) (exporter_status r) (exit_code r) (standalone r)
    (last_completed_lease r) (pending_lease_status r) (control_tx r) (slot r) (u
    (release_lease_unsupported r)) (status_drain_active r) (pending_status_request r)
    (status_rpc_event r).
#[export] Instance set_status_drain_active : Setter status_drain_active := fun u r =>
  mkExporter (registered r) (unregister r) (stop_requested r) (deferred_unregister r)
    (started r) (tg r) (exporter_status r) (exit_code r) (standalone r)
    (last_completed_lease r) (pending_lease_status r) (control_tx r) (slot r)
    (release_lease_unsupported r) (u (status_drain_active r))
    (pending_status_request r) (status_rpc_event r).
#[export] Instance set_pending_status_request : Setter pending_status_request := fun u r =>
  mkExporter (registered r) (unregister r) (stop_requested r) (deferred_unregister r)
    (started r) (tg r) (exporter_status r) (exit_code r) (standalone r)
    (last_completed_lease r) (pending_lease_status r) (control_tx r) (slot r)
    (release_lease_unsupported r) (status_drain_active r) (u
    (pending_status_request r)) (status_rpc_event r).
#[export] Instance set_status_rpc_event : Setter status_rpc_event := fun u r =>
  mkExporter (registered r) (unregister r) (stop_requested r) (deferred_unregister r)
    (started r) (tg r) (exporter_status r) (exit_code r) (standalone r)
    (last_completed_lease r) (pending_lease_status r) (control_tx r) (slot r)
    (release_lease_unsupported r) (status_drain_active r) (pending_status_request r) (u
    (status_rpc_event r)).

Inductive LeaseState := IDLE | LEASED.

Definition lease_state (e : Exporter) : LeaseState :=
  match slot e with Some _ => LEASED | None => IDLE end.

(** [stop]: cancel the task group at once, or remember the request. *)
Definition stop (wait_for_lease_exit should_unregister : bool) (code : option Z)
    (e : Exporter) : Exporter :=
  let e := match code with Some c => e <| exit_code := Some c |> | None => e end in
  if (negb (started e) || negb wait_for_lease_exit) && is_some (tg e) then
    e <| unregister := should_unregister |> <| tg := Some true |>
  else if negb (stop_requested e) then
    e <| stop_requested := true |> <| deferred_unregister := should_unregister |>
  else e.

Definition check_stop_requested (e : Exporter) : Exporter * bool :=
  if stop_requested e then (stop false (deferred_unregister e) None e, true)
  else (e, false).

(** ** The world *)

(** A lease context with what its [handle_lease] keeps: the buffered [Listen]
    responses, whether [conn_tg] is cancelled, its live children and the first
    error one of them raised. *)
Record lease_cell := mkLeaseCell {
  ctx : LeaseContext;
  listen_buf : list ListenResponse;
  conn_cancelled : bool;
  conn_live : nat;
  conn_error : option string
}.

#[export] Instance set_ctx : Setter ctx := fun u r =>
  mkLeaseCell (u (ctx r)) (listen_buf r) (conn_cancelled r) (conn_live r)
    (conn_error r).
#[export] Instance set_listen_buf : Setter listen_buf := fun u r =>
  mkLeaseCell (ctx r) (u (listen_buf r)) (conn_cancelled r) (conn_live r)
    (conn_error r).
#[export] Instance set_conn_cancelled : Setter conn_cancelled := fun u r =>
  mkLeaseCell (ctx r) (listen_buf r) (u (conn_cancelled r)) (conn_live r)
    (conn_error r).
#[export] Instance set_conn_live : Setter conn_live := fun u r =>
  mkLeaseCell (ctx r) (listen_buf r) (conn_cancelled r) (u (conn_live r))
    (conn_error r).
#[export] Instance set_conn_error : Setter conn_error := fun u r =>
  mkLeaseCell (ctx r) (listen_buf r) (conn_cancelled r) (conn_live r) (u
    (conn_error r)).

Definition new_cell (c : LeaseContext) : lease_cell := mkLeaseCell c [] false 0 None.

Inductive control_msg := Status (s : StatusResponse) | LeaseFinished (lid : nat).

(** What the outside can observe of the exporter, in order. *)
Inductive obs :=
| OStatus (st : ExporterStatus) (msg : string)
| ORpc (r : rpc)
| OSleep (ms : Z)
| OHook (lid : nat) (src : LogSource)
| OAfterRun (lid : nat)
| OBeforeRun (lid : nat)
| OClient (lid : nat) (r : ListenResponse)
| OWarnStuck (lid : nat).

Record World := mkWorld {
  ex : Exporter;
  leases : list lease_cell;
  control_queue : list control_msg;
  control_closed : bool;
  log_context : list (string * string);
  trace : list obs
}.

#[export] Instance set_ex : Setter ex := fun u r =>
  mkWorld (u (ex r)) (leases r) (control_queue r) (control_closed r) (log_context r)
    (trace r).
#[export] Instance set_leases : Setter leases := fun u r =>
  mkWorld (ex r) (u (leases r)) (control_queue r) (control_closed r) (log_context r)
    (trace r).
#[export] Instance set_control_queue : Setter control_queue := fun u r =>
  mkWorld (ex r) (leases r) (u (control_queue r)) (control_closed r) (log_context r)
    (trace r).
#[export] Instance set_control_closed : Setter control_closed := fun u r =>
  mkWorld (ex r) (leases r) (control_queue r) (u (control_closed r)) (log_context r)
    (trace r).
#[export] Instance set_log_context : Setter log_context := fun u r =>
  mkWorld (ex r) (leases r) (control_queue r) (control_closed r) (u (log_context r))
    (trace r).
#[export] Instance set_trace : Setter trace := fun u r =>
  mkWorld (ex r) (leases r) (control_queue r) (control_closed r) (log_context r) (u
    (trace r)).

Definition dummy_context : LeaseContext :=
  mkLeaseContext "" false false false false false None "" "" "" AVAILABLE "" false.

Definition cell (lid : nat) (w : World) : lease_cell :=
  default (new_cell dummy_context) (leases w !! lid).

Definition lc (lid : nat) (w : World) : LeaseContext := ctx (cell lid w).

Definition upd_cell (lid : nat) (f : lease_cell -> lease_cell) (w : World) : World :=
  w <| leases ::= alter f lid |>.

Definition upd_lc (lid : nat) (f : LeaseContext -> LeaseContext) : World -> World :=
  upd_cell lid (fun c => c <| ctx ::= f |>).

Definition upd_ex (f : Exporter -> Exporter) (w : World) : World := w <| ex ::= f |>.

Definition observe (o : obs) (w : World) : World := w <| trace ::= fun t => t ++ [o] |>.

(** ** Requests to the outside *)

Inductive session_result := SessionUp (main hook : string) | SessionFail (msg : string).

(** How the hook subprocess of [_execute_hook_process] ended: the PTY or the
    process could not be created, the timeout fired, or it exited. *)
Inductive proc_outcome :=
| PtyFailed (msg : string)
| SpawnFailed (msg : string)
| TimedOut
| Exited (returncode : Z).

(** A hook process is answered with its outcome and with what a regular file at
    [$JMP_MOTD_FILE] holds when it has ended. *)
Inductive request :=
| QRpc (r : rpc)
| QStream (s : stream_id)
| QSession
| QSessionClose
| QHookProcess (lid : nat) (cmd : list string) (env : list (string * string)) (seconds : Z)
| QChannel.

Definition answer (q : request) : Type :=
  match q with
  | QRpc _ => rpc_result
  | QStream s => stream_event (stream_item s)
  | QSession => session_result
  | QSessionClose => unit
  | QHookProcess _ _ _ _ => proc_outcome * option string
  | QChannel => option string
  end.

(** ** Tasks *)

Inductive task_name :=
| TControlLoop
| TDrainStatus
| TRetryStatus (retries_left : nat) (received_data : bool)
| TRunBeforeLeaseHook (lid : nat)
| THandleLease (lid : nat)
| THandleEndSession (lid : nat)
| TRetryListen (lid : nat) (retries_left : nat) (received_data : bool)
| TWaitForLeaseEnd (lid : nat)
| TProcessConnections (lid : nat) (hook_awaited : bool)
| THandleClientConn (lid : nat) (r : ListenResponse)
| TLeaseFinishedWatchdog (lid : nat).

(** ** The monad *)

Definition M (A : Type) : Type := prog World answer task_name (exn + A).

Definition ret {A} (a : A) : M A := Ret (inr a).
Definition raise {A} (e : exn) : M A := Ret (inl e).

Definition bind {A B} (m : M A) (k : A -> M B) : M B :=
  pbind m (fun r => match r with inl e => Ret (inl e) | inr a => k a end).

Notation "'let*' x := m 'in' k" := (bind m (fun x => k))
  (at level 10, x name, m at level 100, k at level 200).
Notation "m >> k" := (bind m (fun _ => k)) (at level 100, right associativity).

Definition modify (f : World -> World) : M unit := Atom f (fun _ => Ret (inr tt)).
Definition gets {A} (f : World -> A) : M A := Atom (fun w => w) (fun w => Ret (inr (f w))).
Definition spawn (n : task_name) : M unit := Spawn n (Ret (inr tt)).

Definition tg_cancelled (w : World) : bool :=
  match tg (ex w) with Some b => b | None => false end.

(** Wait for a condition; [sleep] is a timed one; [wait_timeout] is a wait under
    [move_on_after], which tells whether the condition came first. *)
Definition await (cond : World -> bool) : M unit :=
  Wait tg_cancelled cond (fun b => if b then Ret (inr tt) else Ret (inl Cancelled)).

Definition sleep (ms : Z) : M unit := modify (observe (OSleep ms)) >> await (fun _ => true).

Definition wait_timeout (cond : World -> bool) : M bool :=
  Wait (fun _ => true) cond (fun b => Ret (inr b)).

Definition call (q : request) : M (answer q) :=
  Call tg_cancelled q
    (fun a => match a with Some x => Ret (inr x) | None => Ret (inl Cancelled) end).

(** [except Exception] does not catch a cancellation. *)
Definition try_except {A} (m : M A) (h : exn -> M A) : M A :=
  pbind m (fun r => match r with
                    | inl Cancelled => Ret (inl Cancelled)
                    | inl e => h e
                    | inr a => Ret (inr a)
                    end).

Definition try_finally {A} (m : M A) (fin : M unit) : M A :=
  pbind m (fun r => pbind fin (fun rf => match rf with
                                         | inl e => Ret (inl e)
                                         | inr _ => Ret r
                                         end)).

(** A block under [move_on_after], outside any other cancel scope: the timeout
    may fire at any of its awaits and leaves the block quietly. *)
Definition move_on_after (m : M unit) : M unit :=
  pbind (in_scope (fun _ => true) m)
    (fun r => match r with inl Cancelled => Ret (inr tt) | _ => Ret r end).

Definition when (b : bool) (m : M unit) : M unit := if b then m else ret tt.
