(* ===== verification/Rpc.v ===== *)
(** * Talking to the controller

    [exporter/exporter.py]: unary RPCs with retries, status reports and the
    release of a lease. *)

From stdpp Require Import base list strings.
From Stdlib Require Import ZArith Lia.
From S2P Require Import Prelude PyText Enums Session LeaseContext Coroutine ExporterState.

(** ** [_retry_rpc] *)

(** [min(_RPC_BACKOFF_BASE * 2**attempt, _RPC_BACKOFF_CAP)], in seconds; every
    value is an integer. *)
Definition rpc_backoff (attempt : nat) : Z :=
  Z.min (RPC_BACKOFF_BASE * 2 ^ Z.of_nat attempt) RPC_BACKOFF_CAP.

(** The [for attempt in range(_RPC_MAX_RETRIES + 1)] loop: [n] iterations are
    left. Falling out of the loop would return [None], which no caller can
    unpack. *)
Fixpoint retry_rpc_loop (r : rpc) (non_retryable_codes : list StatusCode)
    (n attempt : nat) : M (bool * option StatusCode) :=
  match n with
  | O => raise (PyError "cannot unpack non-iterable NoneType object")
  | S n' =>
      modify (observe (ORpc r)) >>
      let* a := call (QRpc r) in
      match a with
      | RpcOk => ret (true, None)
      | RpcError code _ =>
          if code_in code non_retryable_codes then ret (false, Some code)
          else if code_in code TRANSIENT_GRPC_CODES && (attempt <? RPC_MAX_RETRIES) then
            sleep (1000 * rpc_backoff attempt) >>
            retry_rpc_loop r non_retryable_codes n' (S attempt)
          else ret (false, Some code)
      | RpcException _ => ret (false, None)
      end
  end.

Definition retry_rpc (r : rpc) (non_retryable_codes : list StatusCode)
    : M (bool * option StatusCode) :=
  retry_rpc_loop r non_retryable_codes (S RPC_MAX_RETRIES) 0.

(** ** Status reports *)

Definition send_report_status_rpc (request : ReportStatusRequest) : M bool :=
  let* res := retry_rpc (ReportStatus request) [UNIMPLEMENTED] in
  ret (fst res).

(** One round of the endless loop of [_drain_status_reports]; the task goes on
    by spawning its next round. The pending request is read, not cleared. *)
Definition drain_status_reports : M unit :=
  await (fun w => status_rpc_event (ex w)) >>
  modify (upd_ex (fun e => e <| status_rpc_event := false |>)) >>
  let* request := gets (fun w => pending_status_request (ex w)) in
  match request with
  | Some rq => let* _ := send_report_status_rpc rq in ret tt
  | None => ret tt
  end >>
  spawn TDrainStatus.

Definition report_status (status : ExporterStatus) (msg : string) : M unit :=
  modify (observe (OStatus status msg)) >>
  modify (upd_ex (fun e => e <| exporter_status := status |>)) >>
  let* s := gets (fun w => slot (ex w)) in
  match s with
  | Some lid => modify (upd_lc lid (lc_update_status status msg))
  | None => ret tt
  end >>
  let* alone := gets (fun w => standalone (ex w)) in
  if alone then ret tt
  else
    let request := mkReportStatusRequest (ExporterStatusOps.to_proto status) msg false in
    let* draining := gets (fun w => status_drain_active (ex w)) in
    if draining then
      modify (upd_ex (fun e => e <| pending_status_request := Some request |>)) >>
      modify (upd_ex (fun e => e <| status_rpc_event := true |>))
    else
      let* _ := send_report_status_rpc request in ret tt.

(** ** Releasing the lease *)

Definition send_compat_release (name : string) : M unit :=
  let* current := gets (fun w => exporter_status (ex w)) in
  let release_status :=
    if decide (current = AVAILABLE) then AFTER_LEASE_HOOK else current in
  let* _ := send_report_status_rpc
    (mkReportStatusRequest (ExporterStatusOps.to_proto release_status)
       "Lease released (compat: ReportStatus with release_lease)" true) in
  ret tt.

(** [self._lease_context.lease_ended.set()] of the current slot, when it is not
    set already. *)
Definition end_current_lease : M unit :=
  let* s := gets (fun w => slot (ex w)) in
  match s with
  | Some lid =>
      let* ended := gets (fun w => lease_ended (lc lid w)) in
      when (negb ended) (modify (upd_lc lid (fun c => c <| lease_ended := true |>)))
  | None => ret tt
  end.

(** The body of [_request_lease_release] once there is a live lease to release. *)
Definition release_lease (lid : nat) : M unit :=
  let* name := gets (fun w => lease_name (lc lid w)) in
  let* unsupported := gets (fun w => release_lease_unsupported (ex w)) in
  (if unsupported then send_compat_release name
   else
     let* res := retry_rpc (ReleaseLease name) RELEASE_LEASE_UNSUPPORTED_CODES in
     if fst res then ret tt
     else
       match snd res with
       | Some code =>
           if code_in code RELEASE_LEASE_UNSUPPORTED_CODES then
             modify (upd_ex (fun e => e <| release_lease_unsupported := true |>)) >>
             send_compat_release name
           else ret tt
       | None => ret tt
       end) >>
  report_status AVAILABLE "Exporter available after lease release" >>
  end_current_lease.

Definition request_lease_release : M unit :=
  let* s := gets (fun w => slot (ex w)) in
  match s with
  | None => ret tt
  | Some lid =>
      let* name := gets (fun w => lease_name (lc lid w)) in
      if negb (truthy name) then ret tt
      else
        let* ended := gets (fun w => lease_ended (lc lid w)) in
        if ended then ret tt
        else
          let* alone := gets (fun w => standalone (ex w)) in
          if alone then modify (upd_lc lid (fun c => c <| lease_ended := true |>))
          else release_lease lid
  end.

(** ** [_unregister_with_controller]

    Runs after [serve], with [_status_drain_active] off. A failure to get a
    channel or to unregister is logged and swallowed. *)
Definition unregister_with_controller : M unit :=
  let* go := gets (fun w => registered (ex w) && unregister (ex w)) in
  if negb go then ret tt
  else
    try_except
      (move_on_after
         (let* failed := call QChannel in
          match failed with
          | Some m => raise (PyError m)
          | None =>
              report_status OFFLINE "Exporter shutting down" >>
              modify (observe (ORpc (Unregister "Exporter shutdown"))) >>
              let* a := call (QRpc (Unregister "Exporter shutdown")) in
              match a with
              | RpcOk => ret tt
              | RpcError _ details => raise (PyError details)
              | RpcException m => raise (PyError m)
              end
          end))
      (fun _ => ret tt).

(** [__asynccontextmanager__]: leaving the exporter's context unregisters it,
    after whatever its body did, without masking the body's exception. *)
Definition exporter_context (body : M unit) : M unit :=
  try_finally body (try_except unregister_with_controller (fun _ => ret tt)).

(** ** [_retry_stream]

    The endless loop of [_retry_stream], one stream event at a time:
    [next left received] goes on with the counters as a further round of the
    task, [send] puts an item into the channel. *)
Definition STREAM_RETRIES : nat := 5.
Definition STREAM_BACKOFF_MS : Z := 1000.

Definition stream_retry_delay (error_str : string) : Z :=
  if Str.str_contains "Stream removed" error_str || Str.str_contains "UNAVAILABLE" error_str
  then 500 else STREAM_BACKOFF_MS.

Definition retry_stream (s : stream_id) (send : stream_item s -> M unit)
    (next : nat -> bool -> M bool) (retries_left : nat) (received_data : bool) : M bool :=
  let* ev := call (QStream s) in
  match ev with
  | Item x => send x >> next retries_left true
  | StreamEnd => next STREAM_RETRIES false
  | StreamError error_str =>
      let left := if received_data then STREAM_RETRIES else retries_left in
      match left with
      | S left' => sleep (stream_retry_delay error_str) >> next left' false
      | O => raise (PyError error_str)
      end
  end.
