(* ===== verification/RpcCorrect.v ===== *)
(** * What the RPC layer of the exporter guarantees

    [_retry_rpc] as a specification over the answers of the controller, and the
    operations built on it: status reports and the release of a lease, with its
    fallback for controllers that do not know ReleaseLease. *)

From stdpp Require Import base list strings.
From Stdlib Require Import ZArith Lia.
From S2P Require Import Prelude Enums Session LeaseContext Coroutine ExporterState Rpc.

(** ** [_retry_rpc] *)

Definition retriable (codes : list StatusCode) (a : rpc_result) : bool :=
  match a with
  | RpcError code _ => negb (code_in code codes) && code_in code TRANSIENT_GRPC_CODES
  | _ => false
  end.

Definition verdict (a : rpc_result) : bool * option StatusCode :=
  match a with
  | RpcOk => (true, None)
  | RpcError code _ => (false, Some code)
  | RpcException _ => (false, None)
  end.

(** The attempts [attempt .. attempt + k], with the waits in between. *)
Fixpoint rpc_trace (r : rpc) (k attempt : nat) : list obs :=
  match k with
  | O => [ORpc r]
  | S k' => [ORpc r; OSleep (1000 * rpc_backoff attempt)] ++ rpc_trace r k' (S attempt)
  end.

Definition slept (t : list obs) : Z :=
  foldr Z.add 0%Z (map (fun o => match o with OSleep ms => ms | _ => 0%Z end) t).

Abbreviation with_trace t w := (w <| trace ::= fun l => l ++ t |>).

Lemma observe_app o t w : with_trace t (observe o w) = with_trace (o :: t) w.
Proof. destruct w. unfold observe. simpl. unfold set_trace. simpl. by rewrite <- app_assoc. Qed.

Lemma retry_rpc_loop_solo r codes (o : nat -> forall q, answer q) n attempt i w :
  attempt + n = S RPC_MAX_RETRIES -> 0 < n ->
  exists k, k < n /\
    (forall j, j < k -> retriable codes (o (i + j) (QRpc r)) = true) /\
    (attempt + k = RPC_MAX_RETRIES \/ retriable codes (o (i + k) (QRpc r)) = false) /\
    solo (retry_rpc_loop r codes n attempt) o i w =
    Some (inr (verdict (o (i + k) (QRpc r))), with_trace (rpc_trace r k attempt) w, i + k + 1).
Proof.
  revert attempt i w. induction n as [|n IH]; intros attempt i w Hn Hpos; [lia |].
  cbn [retry_rpc_loop]. unfold bind. cbn [pbind modify call solo].
  destruct (o i (QRpc r)) as [|code d|m] eqn:Ho; cbn [pbind solo].
  - exists 0. rewrite !Nat.add_0_r, Ho. split_and!; [lia | lia | by right |].
    by rewrite Nat.add_1_r.
  - destruct (code_in code codes) eqn:Hc; cbn [solo ret].
    { exists 0. rewrite !Nat.add_0_r, Ho. split_and!; [lia | lia | right; simpl; by rewrite Hc |].
      by rewrite Nat.add_1_r. }
    destruct (code_in code TRANSIENT_GRPC_CODES) eqn:Ht; cbn [andb].
    2: { exists 0. rewrite !Nat.add_0_r, Ho.
         split_and!; [lia | lia | right; simpl; by rewrite Hc, Ht |]. by rewrite Nat.add_1_r. }
    destruct (attempt <? RPC_MAX_RETRIES)%nat eqn:Ha.
    + apply Nat.ltb_lt in Ha. unfold sleep, bind. cbn [pbind modify await solo].
      destruct (IH (S attempt) (S i) (observe (OSleep (1000 * rpc_backoff attempt))
                                        (observe (ORpc r) w))) as (k & Hk & Hj & Hend & Hs);
        [lia | lia |].
      exists (S k). replace (i + S k) with (S i + k) by lia. split_and!; [lia | | |].
      * intros [|j] Hlt; [rewrite Nat.add_0_r, Ho; simpl; by rewrite Hc, Ht |].
        rewrite Nat.add_succ_r. apply (Hj j). lia.
      * destruct Hend as [Hend|Hend]; [left; lia | by right].
      * rewrite Hs, !observe_app. done.
    + apply Nat.ltb_ge in Ha. exists 0. rewrite !Nat.add_0_r, Ho.
      split_and!; [lia | lia | left; lia |]. by rewrite Nat.add_1_r.
  - exists 0. rewrite !Nat.add_0_r, Ho. split_and!; [lia | lia | by right |].
    by rewrite Nat.add_1_r.
Qed.

Lemma rpc_backoff_range attempt : (1 <= rpc_backoff attempt <= 30)%Z.
Proof.
  unfold rpc_backoff, RPC_BACKOFF_BASE, RPC_BACKOFF_CAP.
  assert (0 < 2 ^ Z.of_nat attempt)%Z by (apply Z.pow_pos_nonneg; lia). lia.
Qed.

(** [_retry_rpc] always returns a pair (it never falls out of its loop): the
    verdict on the first answer that is not a transient error, after at most 21
    attempts of the same call, waiting 1, 2, 4, 8, 16 and then 30 seconds between
    them, never more than 481 seconds in total. *)
Theorem retry_rpc_spec r codes (o : nat -> forall q, answer q) i w :
  exists k, k <= RPC_MAX_RETRIES /\
    (forall j, j < k -> retriable codes (o (i + j) (QRpc r)) = true) /\
    (k = RPC_MAX_RETRIES \/ retriable codes (o (i + k) (QRpc r)) = false) /\
    solo (retry_rpc r codes) o i w =
    Some (inr (verdict (o (i + k) (QRpc r))), with_trace (rpc_trace r k 0) w, i + k + 1) /\
    (slept (rpc_trace r k 0) <= 481000)%Z.
Proof.
  destruct (retry_rpc_loop_solo r codes o (S RPC_MAX_RETRIES) 0 i w) as (k & Hk & Hj & Hend & Hs);
    [done | lia |].
  exists k. split_and!; [lia | done | by destruct Hend; auto | exact Hs |].
  assert (k <= 20) as Hk20 by (unfold RPC_MAX_RETRIES in *; lia). clear -Hk20.
  do 21 (destruct k as [|k]; [vm_compute; discriminate |]). lia.
Qed.

(** ** Status reports *)

(** A report branches on two fields that it does not change. *)
Ltac serving :=
  match goal with
  | Ha : standalone (ex ?w) = _, Hd : status_drain_active (ex ?w) = _
    |- context [run (if standalone (ex ?v) then _ else _)] =>
      change (standalone (ex v)) with (standalone (ex w)); rewrite Ha; cbn [run];
      match goal with
      | |- context [run (if status_drain_active (ex ?u) then _ else _)] =>
          change (status_drain_active (ex u)) with (status_drain_active (ex w)); rewrite Hd
      end
  end.

(** The effect of a report made while the drain task runs. *)
Lemma report_status_run st m w :
  standalone (ex w) = false -> status_drain_active (ex w) = true ->
  exists w', run (report_status st m) w = (w', [], Ret (inr tt)) /\
    (exporter_status (ex w') = st /\ slot (ex w') = slot (ex w) /\
     length (leases w') = length (leases w) /\
     release_lease_unsupported (ex w') = release_lease_unsupported (ex w) /\
     trace w' = trace w ++ [OStatus st m] /\
     standalone (ex w') = standalone (ex w) /\
     status_drain_active (ex w') = status_drain_active (ex w) /\
     exit_code (ex w') = exit_code (ex w) /\
     forall l, is_some (session (lc l w')) = is_some (session (lc l w))) /\
    pending_status_request (ex w') =
      Some (mkReportStatusRequest (ExporterStatusOps.to_proto st) m false) /\
    status_rpc_event (ex w') = true /\
    (forall lid, slot (ex w) = Some lid -> lid < length (leases w) ->
       lc_current_status (lc lid w') = st /\ lc_status_message (lc lid w') = m /\
       forall s, session (lc lid w') = Some s -> current_status s = st /\ status_message s = m).
Proof.
  intros Ha Hd. unfold report_status, bind. cbn [pbind modify gets run].
  change (slot (ex (upd_ex _ (observe _ w)))) with (slot (ex w)).
  destruct (slot (ex w)) as [lid|] eqn:Hs; cbn [pbind modify ret run].
  - serving.
    eexists. split; [reflexivity |].
    split.
    { split_and!; try done; [simpl; by rewrite length_alter |]. intros l.
      unfold lc, cell, upd_lc, upd_cell. simpl. destruct (decide (l = lid)) as [->|Hne].
      - rewrite list_lookup_alter_eq. destruct (leases w !! lid) as [c|]; [| done]. simpl.
        by destruct (lc_update_status_eq st m (ctx c)) as (_ & _ & _ & ?).
      - by rewrite list_lookup_alter_ne. }
    split; [done |]. split; [done |]. intros l [= <-] Hl.
    unfold lc at 1 2 3, cell, upd_lc, upd_cell. simpl.
    rewrite list_lookup_alter_eq. destruct (lookup_lt_is_Some_2 _ _ Hl) as [c ->]. simpl.
    destruct (lc_update_status_eq st m (ctx c)) as (? & ? & ? & _). by split_and!.
  - serving.
    eexists. split; [reflexivity |]. by split_and!.
Qed.

(** During [serve] a status report never suspends and never fails; when it
    returns, the exporter, the context of the lease in the slot and that lease's
    session all show the new status and message, and the request waiting for the
    drain task is the new one (latest wins). *)
Theorem report_status_visible st m w :
  standalone (ex w) = false -> status_drain_active (ex w) = true ->
  exists w', run (report_status st m) w = (w', [], Ret (inr tt)) /\
    exporter_status (ex w') = st /\ slot (ex w') = slot (ex w) /\
    pending_status_request (ex w') =
      Some (mkReportStatusRequest (ExporterStatusOps.to_proto st) m false) /\
    status_rpc_event (ex w') = true /\
    (forall lid, slot (ex w) = Some lid -> lid < length (leases w) ->
       lc_current_status (lc lid w') = st /\ lc_status_message (lc lid w') = m /\
       forall s, session (lc lid w') = Some s -> current_status s = st /\ status_message s = m).
Proof.
  intros Ha Hd. destruct (report_status_run st m w Ha Hd) as (w' & Hr & (? & ? & _) & ? & ? & ?).
  exists w'. by split_and!.
Qed.

(** ** Releasing a lease *)

Lemma retry_rpc_total r codes (o : nat -> forall q, answer q) i w :
  exists k, k <= RPC_MAX_RETRIES /\
    solo (retry_rpc r codes) o i w =
    Some (inr (verdict (o (i + k) (QRpc r))), with_trace (rpc_trace r k 0) w, i + k + 1).
Proof.
  destruct (retry_rpc_loop_solo r codes o (S RPC_MAX_RETRIES) 0 i w) as (k & ? & _ & _ & ?);
    [done | lia |]. exists k. split; [lia | done].
Qed.

Lemma solo_mbind {A B} (m : M A) (k : A -> M B) o i w :
  solo (bind m k) o i w =
  match solo m o i w with
  | Some (inr a, w', i') => solo (k a) o i' w'
  | Some (inl e, w', i') => Some (inl e, w', i')
  | None => None
  end.
Proof. unfold bind. rewrite solo_bind. by destruct (solo m o i w) as [[[[]]]|]. Qed.

Definition is_compat_release (ob : obs) : bool :=
  match ob with
  | ORpc (ReportStatus rq) =>
      rs_release_lease rq && negb (Z.eqb (rs_status rq) (ExporterStatusOps.to_proto AVAILABLE))
  | _ => false
  end.

Lemma rpc_trace_head r k attempt : In (ORpc r) (rpc_trace r k attempt).
Proof. destruct k; simpl; auto. Qed.

(** The fallback: a status report that asks for the release and never says that the
    exporter is available. *)
Lemma compat_release_solo name (o : nat -> forall q, answer q) i w :
  exists i' t, solo (send_compat_release name) o i w = Some (inr tt, with_trace t w, i') /\
    i' <= i + S RPC_MAX_RETRIES /\ existsb is_compat_release t = true.
Proof.
  unfold send_compat_release, send_report_status_rpc. rewrite solo_mbind. cbn [solo gets].
  rewrite !solo_mbind.
  destruct (retry_rpc_total (ReportStatus (mkReportStatusRequest
      (ExporterStatusOps.to_proto (if decide (exporter_status (ex w) = AVAILABLE)
         then AFTER_LEASE_HOOK else exporter_status (ex w)))
      "Lease released (compat: ReportStatus with release_lease)" true)) [UNIMPLEMENTED] o i w)
    as (k & Hk & ->).
  cbn [solo ret]. eexists _, _. split; [reflexivity |]. split; [lia |].
  apply existsb_exists. eexists. split; [apply rpc_trace_head |].
  simpl. destruct (exporter_status (ex w)); done.
Qed.

Section Release.

Context (o : nat -> forall q, answer q) (lid : nat).

(** What the exporter did about a lease by [w']: it is ended in any case. *)
Definition released (w w' : World) : Prop :=
  slot (ex w') = slot (ex w) /\ standalone (ex w') = standalone (ex w) /\
  lease_ended (lc lid w') = true.

Lemma end_current_lease_run w :
  slot (ex w) = Some lid -> lid < length (leases w) ->
  exists w', run end_current_lease w = (w', [], Ret (inr tt)) /\ released w w' /\
             trace w' = trace w /\
             release_lease_unsupported (ex w') = release_lease_unsupported (ex w).
Proof.
  intros Hs Hl. unfold released, end_current_lease, bind. cbn [pbind gets run]. rewrite Hs.
  cbn [pbind run]. destruct (lease_ended (lc lid w)) eqn:He; cbn [negb when].
  - exists w. by split_and!.
  - eexists. split; [reflexivity |]. split_and!; try done.
    unfold lc, cell, upd_lc, upd_cell. simpl. rewrite list_lookup_alter_eq.
    by destruct (lookup_lt_is_Some_2 _ _ Hl) as [c ->].
Qed.

Lemma solo_run {A} (m : M A) i w w' ns a :
  run m w = (w', ns, Ret a) -> solo m o i w = Some (a, w', i).
Proof.
  unfold M in m. revert w ns. induction m as [b|f k IH|n p IH|c cond k IH|c q k IH]; intros w ns; simpl; try done.
  - by intros [= -> _ ->].
  - apply IH.
  - destruct (run p w) as [[w1 ns1] p1] eqn:E. intros [= -> _ ->]. by eapply IH.
Qed.

(** The RPCs of [release_lease]. *)
Definition release_rpcs (name : string) (unsupported : bool) : M unit :=
  if unsupported then send_compat_release name
  else
    let* res := retry_rpc (ReleaseLease name) RELEASE_LEASE_UNSUPPORTED_CODES in
    if fst res then ret tt
    else
      match snd res with
      | Some code =>
          if code_in code RELEASE_LEASE_UNSUPPORTED_CODES then
            modify (upd_ex (fun e => e <| release_lease_unsupported := true |>)) >>
            send_compat_release name
          else ret tt
      | None => ret tt
      end.

(** An answer that says that the controller does not offer ReleaseLease to exporters. *)
Definition not_offered (a : rpc_result) : bool :=
  match a with
  | RpcError (PERMISSION_DENIED | INVALID_ARGUMENT | UNAUTHENTICATED | UNIMPLEMENTED) _ => true
  | _ => false
  end.

Lemma not_offered_verdict a :
  not_offered a =
  negb (fst (verdict a)) &&
  match snd (verdict a) with
  | Some code => code_in code RELEASE_LEASE_UNSUPPORTED_CODES
  | None => false
  end.
Proof. by destruct a as [|[] ?|?]. Qed.

(** The [k]-th call of ReleaseLease is the last one: the earlier ones were answered by
    transient errors, and this answer is final or the retries are exhausted. *)
Definition last_release (name : string) (i k : nat) : Prop :=
  k <= RPC_MAX_RETRIES /\
  (forall j, j < k ->
     retriable RELEASE_LEASE_UNSUPPORTED_CODES (o (i + j) (QRpc (ReleaseLease name))) = true) /\
  (k = RPC_MAX_RETRIES \/
   retriable RELEASE_LEASE_UNSUPPORTED_CODES (o (i + k) (QRpc (ReleaseLease name))) = false).

(** What the last answer to ReleaseLease makes the exporter do. *)
Definition falls_back (name : string) (i : nat) (before after : bool) (t : list obs) : Prop :=
  if before then after = true /\ existsb is_compat_release t = true
  else
    exists k, last_release name i k /\
      after = not_offered (o (i + k) (QRpc (ReleaseLease name))) /\
      existsb is_compat_release t = not_offered (o (i + k) (QRpc (ReleaseLease name))).

Lemma rpc_trace_no_compat name k attempt :
  existsb is_compat_release (rpc_trace (ReleaseLease name) k attempt) = false.
Proof. revert attempt. by induction k as [|k IH]; intros attempt; simpl; rewrite ?IH. Qed.

Lemma release_retries name i w :
  exists k, last_release name i k /\
    solo (retry_rpc (ReleaseLease name) RELEASE_LEASE_UNSUPPORTED_CODES) o i w =
    Some (inr (verdict (o (i + k) (QRpc (ReleaseLease name)))),
          with_trace (rpc_trace (ReleaseLease name) k 0) w, i + k + 1).
Proof.
  destruct (retry_rpc_loop_solo (ReleaseLease name) RELEASE_LEASE_UNSUPPORTED_CODES o
              (S RPC_MAX_RETRIES) 0 i w) as (k & ? & ? & ? & ?); [done | lia |].
  exists k. split; [| done]. by split_and!; [lia | |].
Qed.

Lemma release_rpcs_solo name i w :
  let unsupported := release_lease_unsupported (ex w) in
  exists w' i' t,
    solo (release_rpcs name unsupported) o i w = Some (inr tt, w', i') /\
    i' <= i + 2 * S RPC_MAX_RETRIES /\
    leases w' = leases w /\ slot (ex w') = slot (ex w) /\
    standalone (ex w') = standalone (ex w) /\
    status_drain_active (ex w') = status_drain_active (ex w) /\
    trace w' = trace w ++ t /\
    falls_back name i unsupported (release_lease_unsupported (ex w')) t.
Proof.
  cbv zeta. destruct (release_lease_unsupported (ex w)) eqn:Hu; unfold release_rpcs.
  - destruct (compat_release_solo name o i w) as (i' & t & -> & Hi & Ht).
    eexists _, _, t. split; [reflexivity |]. split_and!; try done. lia.
  - rewrite solo_mbind. destruct (release_retries name i w) as (k & Hk & ->).
    assert (k <= RPC_MAX_RETRIES) by apply Hk.
    pose proof (not_offered_verdict (o (i + k) (QRpc (ReleaseLease name)))) as Hv.
    assert (not_offered (o (i + k) (QRpc (ReleaseLease name))) = false ->
            falls_back name i false false (rpc_trace (ReleaseLease name) k 0)) as Hno.
    { intros Hf. exists k. rewrite Hf, rpc_trace_no_compat. by split_and!. }
    destruct (verdict _) as [[] [code|]]; cbn [fst snd negb andb] in Hv |- *;
      try (eexists _, _, (rpc_trace _ k 0); split; [reflexivity |];
           split_and!; try done; try lia; simpl; rewrite ?Hu; by apply Hno).
    destruct (code_in code RELEASE_LEASE_UNSUPPORTED_CODES);
      [| eexists _, _, (rpc_trace _ k 0); split; [reflexivity |];
         split_and!; try done; try lia; simpl; rewrite ?Hu; by apply Hno].
    rewrite solo_mbind. cbn [solo modify].
    match goal with |- context [solo (send_compat_release name) o ?j ?v] =>
      destruct (compat_release_solo name o j v) as (i' & t & -> & Hi & Ht) end.
    eexists _, _, (rpc_trace (ReleaseLease name) k 0 ++ t). split; [reflexivity |].
    split_and!; try done; [lia | simpl; by rewrite app_assoc |].
    exists k. rewrite Hv, existsb_app, Ht, orb_true_r. by split_and!.
Qed.

(** The status report that follows is not a request to release. *)
Lemma falls_back_status name i before after t st m :
  falls_back name i before after t -> falls_back name i before after (t ++ [OStatus st m]).
Proof.
  unfold falls_back. assert (existsb is_compat_release (t ++ [OStatus st m]) =
                             existsb is_compat_release t) as ->; [| done].
  rewrite existsb_app. simpl. apply orb_false_r.
Qed.

(** C10: releasing the lease in the slot during [serve] always ends it locally,
    whatever the controller answers: [_request_lease_release] returns after at most
    42 RPCs with the lease-ended event of that lease set. A standalone exporter sends
    nothing. Another one that has not yet found ReleaseLease to be unsupported calls
    it until an answer is not a transient error, at most 21 times; exactly when that
    last answer is PERMISSION_DENIED, INVALID_ARGUMENT, UNAUTHENTICATED or
    UNIMPLEMENTED, it remembers that ReleaseLease is unsupported and asks with a status
    report that carries the release flag and is not AVAILABLE; one that remembered it
    sends that report directly and still remembers it. *)
Theorem release_ends_lease i w :
  slot (ex w) = Some lid -> lid < length (leases w) -> lease_name (lc lid w) <> "" ->
  lease_ended (lc lid w) = false ->
  (standalone (ex w) = false -> status_drain_active (ex w) = true) ->
  exists w' i' t,
    solo request_lease_release o i w = Some (inr tt, w', i') /\
    i' <= i + 2 * S RPC_MAX_RETRIES /\
    lease_ended (lc lid w') = true /\ slot (ex w') = Some lid /\
    trace w' = trace w ++ t /\
    (standalone (ex w) = true -> t = []) /\
    (standalone (ex w) = false ->
     falls_back (lease_name (lc lid w)) i (release_lease_unsupported (ex w))
       (release_lease_unsupported (ex w')) t).
Proof.
  intros Hs Hl Hn He Hd. unfold request_lease_release.
  rewrite solo_mbind. cbn [solo gets]. rewrite Hs.
  rewrite solo_mbind. cbn [solo gets].
  assert (truthy (lease_name (lc lid w)) = true) as -> by (by destruct (lease_name (lc lid w))).
  cbn [negb]. rewrite solo_mbind. cbn [solo gets]. rewrite He.
  rewrite solo_mbind. cbn [solo gets].
  destruct (standalone (ex w)) eqn:Ha.
  { eexists _, i, []. split; [reflexivity |]. rewrite app_nil_r.
    split_and!; try done; [lia |].
    unfold lc, cell, upd_lc, upd_cell. simpl. rewrite list_lookup_alter_eq.
    by destruct (lookup_lt_is_Some_2 _ _ Hl) as [c ->]. }
  specialize (Hd eq_refl). unfold release_lease.
  rewrite !solo_mbind. cbn [solo gets]. rewrite solo_mbind. cbn [solo gets].
  fold (release_rpcs (lease_name (lc lid w)) (release_lease_unsupported (ex w))).
  rewrite solo_mbind.
  destruct (release_rpcs_solo (lease_name (lc lid w)) i w)
    as (w1 & i1 & t & -> & Hi & Hl1 & Hs1 & Ha1 & Hd1 & Ht & Hu). rewrite solo_mbind.
  destruct (report_status_run AVAILABLE "Exporter available after lease release" w1)
    as (w2 & Hr & (_ & Hs2 & Hl2 & Hu2 & Ht2 & _) & _); [congruence.. |].
  erewrite solo_run by exact Hr.
  destruct (end_current_lease_run w2) as (w3 & Hr3 & (Hs3 & _ & He3) & Ht3 & Hu3);
    [congruence | congruence |].
  erewrite solo_run by exact Hr3.
  eexists _, _, (t ++ [_]). split; [reflexivity |].
  split_and!; [done | done | congruence | by rewrite Ht3, Ht2, Ht, app_assoc | done |].
  intros _. rewrite Hu3, Hu2. by apply falls_back_status.
Qed.

End Release.

(** ** Concrete instances *)

Definition serving_exporter : Exporter :=
  mkExporter true false false true true (Some false) LEASE_READY None false None None true
    (Some 0) false true None false.

Definition serving_world : World :=
  mkWorld serving_exporter [new_cell (dummy_context <| lease_name := "A" |>)] [] false [] [].

(** A controller that does not know ReleaseLease. *)
Definition old_controller (n : nat) (q : request) : answer q :=
  match q with
  | QRpc (ReleaseLease _) => RpcError UNIMPLEMENTED "unknown method"
  | QRpc _ => RpcOk
  | QStream _ => StreamEnd
  | QSession => SessionFail ""
  | QSessionClose => tt
  | QHookProcess _ _ _ _ => (TimedOut, None)
  | QChannel => None
  end.

Lemma report_status_visible_witness :
  exists w', run (report_status AVAILABLE "free") serving_world = (w', [], Ret (inr tt)) /\
    exporter_status (ex w') = AVAILABLE.
Proof.
  destruct (report_status_visible AVAILABLE "free" serving_world eq_refl eq_refl)
    as (w' & Hr & Hs & _). by exists w'.
Defined.

Lemma release_ends_lease_witness :
  exists w' i' t,
    solo request_lease_release old_controller 0 serving_world = Some (inr tt, w', i') /\
    i' = 2 /\ lease_ended (lc 0 w') = true /\ trace w' = [] ++ t /\
    release_lease_unsupported (ex w') = true /\ existsb is_compat_release t = true.
Proof.
  destruct (release_ends_lease old_controller 0 0 serving_world)
    as (w' & i' & t & Hs & _ & He & _ & Ht & _ & Hc); try reflexivity; try discriminate.
  - vm_compute. lia.
  - exists w', i', t. assert (i' = 2) as -> by (vm_compute in Hs; by simplify_eq).
    destruct (Hc eq_refl) as (k & _ & Hu & Hr). by split_and!.
Defined.
