(* ===== verification/Hooks.v ===== *)
(** * Lifecycle hooks

    [exporter/hooks.py]: the environment and command line of a hook, the reading
    of its output, the failure policy, and the orchestration of the beforeLease
    and afterLease hooks around a lease. The subprocess itself (PTY, [Popen],
    signals) is an external request whose outcome is a [proc_outcome]. *)

From stdpp Require Import base list strings pretty.
From Stdlib Require Import ZArith Lia Ascii.
From S2P Require Import Prelude PyText Enums Session LeaseContext Coroutine ExporterState.

(** ** Reading the output of a hook *)

Module Output.

Definition MAX_DRAIN_BYTES : Z := 256 * 1024.
Definition DRAIN_MAX_EMPTY_POLLS : nat := 10.
Definition NL : Z := 10.

Definition decode_line (line : list Z) : list Z := Utf8.rstrip (Utf8.decode_replace line).

(** [buffer.split(b"\n", 1)] when there is a newline. *)
Fixpoint split_once (sep : Z) (bs : list Z) : option (list Z * list Z) :=
  match bs with
  | [] => None
  | b :: rest =>
      if Z.eqb b sep then Some ([], rest)
      else match split_once sep rest with
           | Some (line, rest') => Some (b :: line, rest')
           | None => None
           end
  end.

Definition append_line (line_decoded : list Z) (output_lines : list (list Z))
    : list (list Z) :=
  match line_decoded with [] => output_lines | _ => output_lines ++ [line_decoded] end.

(** The loop of [_flush_lines]; [n] rounds are enough when [n] is the length of
    the buffer. *)
Fixpoint flush_lines_loop (n : nat) (buffer : list Z) (output_lines : list (list Z))
    : list Z * list (list Z) :=
  match n with
  | O => (buffer, output_lines)
  | S n' =>
      match split_once NL buffer with
      | None => (buffer, output_lines)
      | Some (line, buffer') =>
          flush_lines_loop n' buffer' (append_line (decode_line line) output_lines)
      end
  end.

Definition flush_lines (buffer : list Z) (output_lines : list (list Z))
    : list Z * list (list Z) :=
  flush_lines_loop (length buffer) buffer output_lines.

(** What one turn of the reader sees: the stop flag, data, no data yet, the end
    of the file or an [OSError]. *)
Inductive read_event := Stop | Data (chunk : list Z) | NoData | Eof | ReadError.

Fixpoint read_loop (evs : list read_event) (buffer : list Z) (out : list (list Z))
    : list Z * list (list Z) :=
  match evs with
  | [] | Stop :: _ | Eof :: _ | ReadError :: _ => (buffer, out)
  | NoData :: evs' => read_loop evs' buffer out
  | Data chunk :: evs' =>
      match chunk with
      | [] => (buffer, out)
      | _ => let '(buffer', out') := flush_lines (buffer ++ chunk) out in
             read_loop evs' buffer' out'
      end
  end.

(** What one turn of the drain sees: the deadline passed, [select] failed or
    found nothing, or the read after it returned data (empty at the end of the
    file) or failed. *)
Inductive drain_event := Deadline | SelectError | NotReadable | Drained (chunk : list Z)
| DrainReadError.

Fixpoint drain_loop (evs : list drain_event) (drained : Z) (consecutive_empty : nat)
    (buffer : list Z) : list Z :=
  if negb (Z.ltb drained MAX_DRAIN_BYTES) then buffer
  else
    match evs with
    | [] | Deadline :: _ | SelectError :: _ | DrainReadError :: _ => buffer
    | NotReadable :: evs' =>
        if (DRAIN_MAX_EMPTY_POLLS <=? S consecutive_empty)%nat then buffer
        else drain_loop evs' drained (S consecutive_empty) buffer
    | Drained chunk :: evs' =>
        match chunk with
        | [] => buffer
        | _ => drain_loop evs' (drained + Z.of_nat (length chunk)) 0 (buffer ++ chunk)
        end
    end.

(** [read_pty_output]: the loop, the drain and the last incomplete line. *)
Definition read_pty_output (reads : list read_event) (drains : list drain_event)
    : list (list Z) :=
  let '(buffer, out) := read_loop reads [] [] in
  let buffer := drain_loop drains 0 0 buffer in
  let '(buffer, out) := flush_lines buffer out in
  match buffer with
  | [] => out
  | _ => append_line (decode_line buffer) out
  end.

End Output.

(** ** Hook environment and command line *)

(** The operating system: the exporter's own environment, which paths are
    regular files, the Python interpreter, and what [mkstemp] does for the motd file of
    a lease's beforeLease hook: the path it returns, or the message of its [OSError]. *)
Record OS := mkOS {
  environ : list (string * string);
  isfile : string -> bool;
  sys_executable : string;
  mkstemp : nat -> string + string
}.

Section Hooks.

Context (os : OS).

Definition JUMPSTARTER_HOST : string := "JUMPSTARTER_HOST".
Definition JMP_DRIVERS_ALLOW : string := "JMP_DRIVERS_ALLOW".
Definition JMP_MOTD_FILE : string := "JMP_MOTD_FILE".
Definition HOOK_WARNING_PREFIX : string := "[HOOK_WARNING] ".

Definition or_str (a b : string) : string := if truthy a then a else b.

Definition create_hook_env (c : LeaseContext) : list (string * string) :=
  let socket := or_str (hook_socket_path c) (socket_path c) in
  let hook_env := dict_update (environ os)
    [(JUMPSTARTER_HOST, socket);
     (JMP_DRIVERS_ALLOW, "UNSAFE");
     ("LEASE_NAME", lease_name c);
     ("CLIENT_NAME", client_name c);
     ("TERM", "dumb");
     ("DEBIAN_FRONTEND", "noninteractive");
     ("GIT_TERMINAL_PROMPT", "0")] in
  dict_pop "PS1" hook_env.

(** [os.path.splitext(p)[1]]: what follows the last dot of the last component,
    leading dots apart, with the dot; empty when there is none. *)
Fixpoint strip_dots (s : string) : string :=
  match s with
  | String "."%char s' => strip_dots s'
  | _ => s
  end.

Fixpoint last_dot (s : string) : string :=
  match s with
  | EmptyString => EmptyString
  | String a s' =>
      if truthy (last_dot s') then last_dot s'
      else if Ascii.eqb a "."%char then s else EmptyString
  end.

Definition splitext_ext (p : string) : string :=
  last_dot (strip_dots (default EmptyString (last (Str.split_char "/"%char p)))).

(** The interpreter and arguments [_execute_hook_process] runs. *)
Definition hook_command (hook_config : HookInstanceConfigV1Alpha1) : list string :=
  let command := script hook_config in
  let script_stripped := Str.strip command in
  let is_file := negb (Str.has_char Str.newline script_stripped) && isfile os script_stripped in
  let interpreter :=
    match exec_ hook_config with
    | Some i => i
    | None =>
        if is_file then
          if String.eqb (Str.lower (splitext_ext script_stripped)) ".py"
          then sys_executable os else "/bin/sh"
        else "/bin/sh"
    end in
  if is_file then [interpreter; script_stripped] else [interpreter; "-c"; command].

(** ** Failure policy *)

Definition should_shutdown_exporter (on_failure : OnFailure) : bool :=
  bool_decide (on_failure = exit).

Definition should_end_lease (on_failure : OnFailure) : bool :=
  bool_decide (on_failure = endLease) || bool_decide (on_failure = exit).

(** [_handle_hook_failure] returns the warning or raises. *)
Definition handle_hook_failure (error_msg : string) (on_failure : OnFailure)
    (hook_type : HookType) : M (option string) :=
  if decide (on_failure = warn) then ret (Some error_msg)
  else raise (HookExecutionError error_msg on_failure hook_type).

(** ** Executing one hook *)

Definition upd_session (lid : nat) (f : Session -> Session) : World -> World :=
  upd_lc lid (fun c => c <| session ::= fmap f |>).

Definition HOOKS_LOGGER : string := "jumpstarter.exporter.hooks".

Definition in_log_source {A} (lid : nat) (src : LogSource) (m : M A) : M A :=
  modify (upd_session lid (fun s =>
    s <| logging_handler ::= add_child_handler HOOKS_LOGGER src |>)) >>
  try_finally m
    (modify (upd_session lid (fun s =>
       s <| logging_handler ::= remove_child_handler HOOKS_LOGGER |>))).

(** The result comes with the content of the motd file, which
    [_append_hook_motd] reads after the process has ended. *)
Definition execute_hook_process (hook_config : HookInstanceConfigV1Alpha1) (lid : nat)
    (log_source : LogSource) (hook_env : list (string * string)) (hook_type : HookType)
    : M (option string * option string) :=
  in_log_source lid log_source
    (modify (observe (OHook lid log_source)) >>
     let* answer := call (QHookProcess lid (hook_command hook_config) hook_env
                            (timeout hook_config)) in
     let fail error_msg :=
       let* warning := handle_hook_failure error_msg (on_failure hook_config) hook_type in
       ret (warning, snd answer) in
     match fst answer with
     | PtyFailed msg => raise (PyError msg)
     | Exited 0 => ret (None, snd answer)
     | Exited returncode => fail ("Hook failed with exit code " ++ pretty returncode)%string
     | TimedOut =>
         fail ("Hook timed out after " ++ pretty (timeout hook_config) ++ " seconds")%string
     | SpawnFailed msg => fail ("Error executing hook: " ++ msg)%string
     end).

Definition MAX_MOTD_BYTES : Z := 64 * 1024.

(** [os.read(fd, n)]: at most [n] bytes. *)
Fixpoint read_at_most (n : Z) (s : string) : string :=
  match s with
  | EmptyString => EmptyString
  | String a s' => if Z.leb n 0 then EmptyString else String a (read_at_most (n - 1) s')
  end.

(** ["\n".join(filter(None, [session.motd, content]))]. *)
Definition append_motd (content : string) (s : Session) : Session :=
  s <| motd := Some (Str.join (String Str.newline EmptyString)
         (List.filter truthy [default EmptyString (motd s); content])) |>.

(** [_append_hook_motd]: no content when the file cannot be opened or read, or
    is no regular file. *)
Definition append_hook_motd (lid : nat) (file_content : option string) : M unit :=
  match file_content with
  | None => ret tt
  | Some raw =>
      let content := Str.strip (read_at_most MAX_MOTD_BYTES raw) in
      when (truthy content) (modify (upd_session lid (append_motd content)))
  end.

Definition execute_hook (hook_config : HookInstanceConfigV1Alpha1) (lid : nat)
    (log_source : LogSource) : M (option string) :=
  let command := script hook_config in
  if negb (truthy (Str.strip command)) then ret None
  else
    let hook_type :=
      if decide (log_source = LOG_BEFORE_LEASE_HOOK) then before_lease_t else after_lease_t in
    let* no_session := gets (fun w => negb (is_some (session (lc lid w)))) in
    if no_session then raise (PyError "Cannot execute hook: lease_scope.session is None")
    else
      let* env := gets (fun w => create_hook_env (lc lid w)) in
      let hook_env := dict_pop JMP_MOTD_FILE env in
      match hook_type with
      | before_lease_t =>
          match mkstemp os lid with
          | inl msg => raise (PyError msg)
          | inr motd_file =>
              let* result := execute_hook_process hook_config lid log_source
                               (dict_set JMP_MOTD_FILE motd_file hook_env) hook_type in
              append_hook_motd lid (snd result) >> ret (fst result)
          end
      | after_lease_t =>
          let* result := execute_hook_process hook_config lid log_source hook_env hook_type in
          ret (fst result)
      end.

Definition execute_before_lease_hook (config : HookConfigV1Alpha1) (lid : nat)
    : M (option string) :=
  match before_lease config with
  | None => ret None
  | Some h => execute_hook h lid LOG_BEFORE_LEASE_HOOK
  end.

Definition execute_after_lease_hook (config : HookConfigV1Alpha1) (lid : nat)
    : M (option string) :=
  match after_lease config with
  | None => ret None
  | Some h => execute_hook h lid LOG_AFTER_LEASE_HOOK
  end.

(** ** Orchestration around a lease

    The exporter passes its own methods as callbacks. *)

Section Orchestration.

Context (config : HookConfigV1Alpha1)
        (report_status : ExporterStatus -> string -> M unit)
        (shutdown : bool -> bool -> option Z -> M unit)
        (request_lease_release : option (M unit)).

Definition set_before_lease_hook (lid : nat) : M unit :=
  modify (upd_lc lid (fun c => c <| before_lease_hook := true |>)).

Definition set_skip_after_lease_hook (lid : nat) : M unit :=
  modify (upd_lc lid (fun c => c <| skip_after_lease_hook := true |>)).

Definition safe_release_lease : M unit :=
  match request_lease_release with
  | None => ret tt
  | Some m => try_except m (fun _ => ret tt)
  end.

(** [_wait_for_lease_ready]: [elapsed] counts tenths of a second. The source adds
    0.1 in floating point and compares with 30; it too makes 300 steps before
    it gives up, which [n] bounds. *)
Fixpoint wait_for_lease_ready_loop (n : nat) (elapsed : Z) (lid : nat) : M bool :=
  let* ready := gets (fun w => is_ready (lc lid w)) in
  if ready then ret true
  else
    let* ended := gets (fun w => lease_ended (lc lid w)) in
    if ended then set_skip_after_lease_hook lid >> ret false
    else if Z.leb 300 elapsed then
      report_status BEFORE_LEASE_HOOK_FAILED "Timeout waiting for lease scope to be ready" >>
      set_before_lease_hook lid >>
      ret false
    else
      match n with
      | O => ret false
      | S n' => sleep 100 >> wait_for_lease_ready_loop n' (elapsed + 1) lid
      end.

Definition wait_for_lease_ready (lid : nat) : M bool := wait_for_lease_ready_loop 300 0 lid.

(** The [try] block of [run_before_lease_hook]. *)
Definition before_lease_try (lid : nat) : M unit :=
  let* ready := wait_for_lease_ready lid in
  if negb ready then ret tt
  else
    match before_lease config with
    | None => report_status LEASE_READY "Ready for commands"
    | Some hook_config =>
        let* ended := gets (fun w => lease_ended (lc lid w)) in
        if ended then set_skip_after_lease_hook lid
        else
          report_status BEFORE_LEASE_HOOK "Running beforeLease hook" >>
          modify (observe (OBeforeRun lid)) >>
          let* warning := execute_hook hook_config lid LOG_BEFORE_LEASE_HOOK in
          let* ended := gets (fun w => lease_ended (lc lid w)) in
          if ended then ret tt
          else
            report_status LEASE_READY
              (match warning with
               | Some m => if truthy m
                           then HOOK_WARNING_PREFIX ++ "beforeLease hook warning: " ++ m
                           else "Ready for commands"
               | None => "Ready for commands"
               end)%string
    end.

(** Its [except] clauses. The result tells whether [should_release] is set when
    the clause is left, and the exception it is left with, if any. *)
Definition leave {A} (flag : A) (m : M unit) : M (A * option exn) :=
  pbind m (fun r => Ret (inr (flag, match r with inl e => Some e | inr _ => None end))).

Definition before_lease_except (lid : nat) (e : exn) : M (bool * option exn) :=
  match e with
  | Cancelled => ret (false, Some Cancelled)
  | HookExecutionError m on_failure _ =>
      if should_shutdown_exporter on_failure then
        leave false
          (set_skip_after_lease_hook lid >>
           report_status BEFORE_LEASE_HOOK_FAILED
             ("beforeLease hook failed (on_failure=exit, shutting down): " ++ m)%string >>
           report_status OFFLINE "Exporter shutting down due to beforeLease hook failure" >>
           shutdown true true (Some 1%Z))
      else
        leave true
          (set_skip_after_lease_hook lid >>
           report_status BEFORE_LEASE_HOOK_FAILED
             ("beforeLease hook failed (on_failure=endLease): " ++ m)%string)
  | PyError m =>
      leave false
        (report_status BEFORE_LEASE_HOOK_FAILED ("beforeLease hook failed: " ++ m)%string)
  end.

(** Run the [except] clauses after the [try] block, then the [finally] block with
    the flag they leave, then go on with the pending exception. *)
Definition try_except_finally {A} (flag0 : A) (m : M unit)
    (handlers : exn -> M (A * option exn)) (fin : A -> M unit) : M unit :=
  pbind (pbind m (fun r => match r with
                           | inl e => handlers e
                           | inr _ => Ret (inr (flag0, None))
                           end))
    (fun r => match r with
              | inl e => Ret (inl e)
              | inr (flag, pending) =>
                  pbind (fin flag) (fun rf =>
                    match rf with
                    | inl e => Ret (inl e)
                    | inr _ => match pending with
                               | Some e => Ret (inl e)
                               | None => Ret (inr tt)
                               end
                    end)
              end).

Definition run_before_lease_hook (lid : nat) : M unit :=
  try_except_finally false (before_lease_try lid) (before_lease_except lid)
    (fun should_release =>
       set_before_lease_hook lid >>
       when should_release (shield (sleep 1000 >> safe_release_lease))).

(** The [try] block of [run_after_lease_hook]. *)
Definition after_lease_try (lid : nat) : M unit :=
  let* ready := gets (fun w => is_ready (lc lid w)) in
  if negb ready then report_status AVAILABLE "Available for new lease"
  else
    match after_lease config with
    | None => report_status AVAILABLE "Available for new lease"
    | Some hook_config =>
        report_status AFTER_LEASE_HOOK "Running afterLease hooks" >>
        let* warning := execute_hook hook_config lid LOG_AFTER_LEASE_HOOK in
        report_status AVAILABLE
          (match warning with
           | Some m => if truthy m
                       then HOOK_WARNING_PREFIX ++ "afterLease hook warning: " ++ m
                       else "Available for new lease"
           | None => "Available for new lease"
           end)%string
    end.

(** The flag is [shutdown_called]. *)
Definition after_lease_except (e : exn) : M (bool * option exn) :=
  match e with
  | Cancelled => ret (false, Some Cancelled)
  | HookExecutionError m on_failure _ =>
      if should_shutdown_exporter on_failure then
        pbind
          (report_status AFTER_LEASE_HOOK_FAILED
             ("afterLease hook failed (on_failure=exit, shutting down): " ++ m)%string >>
           report_status OFFLINE "Exporter shutting down due to afterLease hook failure" >>
           shutdown true true (Some 1%Z))
          (fun r => match r with
                    | inl e' => ret (false, Some e')
                    | inr _ => ret (true, None)
                    end)
      else
        leave false
          (report_status AFTER_LEASE_HOOK_FAILED
             ("afterLease hook failed (on_failure=endLease): " ++ m)%string)
  | PyError m =>
      leave false
        (report_status AFTER_LEASE_HOOK_FAILED ("afterLease hook failed: " ++ m)%string)
  end.

Definition run_after_lease_hook (lid : nat) : M unit :=
  modify (observe (OAfterRun lid)) >>
  try_except_finally false (after_lease_try lid) after_lease_except
    (fun shutdown_called =>
       sleep 1000 >>
       match request_lease_release with
       | None => ret tt
       | Some m => when (negb shutdown_called) (try_except m (fun _ => ret tt))
       end).

End Orchestration.

End Hooks.
