(* ===== verification/HandleLease.v ===== *)
(** * Serving one lease

    [exporter/exporter.py]: [handle_lease] and the tasks it starts, the
    EndSession handler and the cleanup that runs the afterLease hook. Logging
    and the proxying of client connections are left out. *)

From stdpp Require Import base list strings.
From Stdlib Require Import ZArith Lia.
From S2P Require Import Prelude Enums Session LeaseContext Coroutine ExporterState Rpc Hooks.

(** Event setters of a lease context. *)

Definition set_lease_ended (lid : nat) : M unit :=
  modify (upd_lc lid (fun c => c <| lease_ended := true |>)).

Definition set_after_lease_hook_started (lid : nat) : M unit :=
  modify (upd_lc lid (fun c => c <| after_lease_hook_started := true |>)).

Definition set_after_lease_hook_done (lid : nat) : M unit :=
  modify (upd_lc lid (fun c => c <| after_lease_hook_done := true |>)).

Section Lease.

Context (cfg : ExporterConfig) (os : OS).

(** The callbacks the exporter gives to its hook executor. *)
Definition exporter_stop (wait_for_lease_exit should_unregister : bool) (code : option Z)
    : M unit :=
  modify (upd_ex (stop wait_for_lease_exit should_unregister code)).

Definition exporter_before_hook (config : HookConfigV1Alpha1) (lid : nat) : M unit :=
  run_before_lease_hook os config report_status exporter_stop
    (Some request_lease_release) lid.

Definition exporter_after_hook (config : HookConfigV1Alpha1) (lid : nat) : M unit :=
  run_after_lease_hook os config report_status exporter_stop
    (Some request_lease_release) lid.

(** ** [_handle_end_session] *)

Definition end_session_body (lid : nat) : M unit :=
  let* already := gets (fun w => after_lease_hook_started (lc lid w)) in
  if already then await (fun w => after_lease_hook_done (lc lid w))
  else
    set_after_lease_hook_started lid >>
    let* runnable := gets (fun w => has_client (lc lid w) &&
                                    negb (skip_after_lease_hook (lc lid w))) in
    match hook_executor cfg with
    | Some config =>
        if runnable then shield (exporter_after_hook config lid)
        else report_status AVAILABLE "Available for new lease"
    | None => report_status AVAILABLE "Available for new lease"
    end.

(** The two waiters of [wait_tg] cancel each other: a wait for either event. *)
Definition handle_end_session (lid : nat) : M unit :=
  await (fun w => end_session_requested (lc lid w) || lease_ended (lc lid w)) >>
  let* no_end_session := gets (fun w => lease_ended (lc lid w) &&
                                        negb (end_session_requested (lc lid w))) in
  if no_end_session then ret tt
  else
    try_finally (try_except (end_session_body lid) (fun _ => ret tt))
      (set_after_lease_hook_done lid).

(** ** [_cleanup_after_lease] *)

(** After the wait for the beforeLease hook. *)
Definition cleanup_after_before_hook (lid : nat) : M unit :=
  let* already := gets (fun w => after_lease_hook_started (lc lid w)) in
  if already then await (fun w => after_lease_hook_done (lc lid w))
  else
    set_after_lease_hook_started lid >>
    let* runnable := gets (fun w => (has_client (lc lid w) || standalone (ex w)) &&
                                    negb (skip_after_lease_hook (lc lid w))) in
    let no_hook :=
      let* stopping := gets (fun w => stop_requested (ex w)) in
      when (negb stopping) (report_status AVAILABLE "Available for new lease") in
    match hook_executor cfg with
    | Some config => if runnable then exporter_after_hook config lid else no_hook
    | None => no_hook
    end >>
    let* done := gets (fun w => after_lease_hook_done (lc lid w)) in
    when (negb done) (set_after_lease_hook_done lid).

(** The timeout of the first wait is the hook's own timeout plus 30 seconds, or
    15 seconds; when it fires the event is forced. *)
Definition cleanup_after_lease (lid : nat) : M unit :=
  let* in_time := wait_timeout (fun w => before_lease_hook (lc lid w)) in
  shield (when (negb in_time) (set_before_lease_hook lid) >>
          cleanup_after_before_hook lid).

(** ** [_skip_stale_lease] *)

Definition skip_stale_lease (lid : nat) : M bool :=
  let* ended := gets (fun w => lease_ended (lc lid w)) in
  if negb ended then ret false
  else
    set_skip_after_lease_hook lid >>
    set_before_lease_hook lid >>
    let* stopping := gets (fun w => stop_requested (ex w)) in
    when (negb stopping) (report_status AVAILABLE "Available for new lease") >>
    set_after_lease_hook_done lid >>
    ret true.

(** ** [handle_lease] *)

Definition conn_is_cancelled (lid : nat) (w : World) : bool := conn_cancelled (cell lid w).

(** The session is created, attached to the context and given its status. *)
Definition attach_session (lid : nat) (main hook : string) (c : LeaseContext) : LeaseContext :=
  let s := (new_session (cfg_exporter_name cfg) (cfg_motd cfg))
             <| lease_context := Some lid |> in
  c <| session := Some (default s (update_status (lc_current_status c)
                                     (lc_status_message c) s)) |>
    <| socket_path := main |>
    <| hook_socket_path := hook |>.

(** Leaving [conn_tg]: a body that raised cancels the children; the exit waits
    for all of them; an error of a child or a cancellation from outside is
    raised on, a cancellation of [conn_tg] itself is swallowed. *)
Definition conn_tg_exit (lid : nat) (r : exn + unit) : M unit :=
  match r with
  | inl _ => modify (upd_cell lid (fun c => c <| conn_cancelled := true |>))
  | inr _ => ret tt
  end >>
  Wait (fun _ => false) (fun w => (conn_live (cell lid w) =? 0)%nat)
    (fun _ => Ret (inr tt)) >>
  let* err := gets (fun w => conn_error (cell lid w)) in
  match err with
  | Some m => raise (PyError m)
  | None =>
      let* outer := gets tg_cancelled in
      if outer then raise Cancelled
      else match r with
           | inl (PyError m) => raise (PyError m)
           | inl (HookExecutionError m f t) => raise (HookExecutionError m f t)
           | _ => ret tt
           end
  end.

(** [async with create_task_group() as conn_tg]: three children, and the report
    of [LEASE_READY] when there is no hook executor. *)
Definition conn_tg_block (lid : nat) : M unit :=
  modify (upd_cell lid (fun c => c <| conn_live := 3 |>)) >>
  spawn (TRetryListen lid STREAM_RETRIES false) >>
  spawn (TWaitForLeaseEnd lid) >>
  spawn (TProcessConnections lid false) >>
  pbind
    (in_scope (conn_is_cancelled lid)
       (match hook_executor cfg with
        | None => report_status LEASE_READY "Ready for commands" >>
                  set_before_lease_hook lid
        | Some _ => ret tt
        end))
    (conn_tg_exit lid).

(** The [finally] after [conn_tg]. *)
Definition conn_finally (lid : nat) : M unit :=
  match hook_executor cfg with
  | None =>
      let* set := gets (fun w => before_lease_hook (lc lid w)) in
      when (negb set) (set_before_lease_hook lid)
  | Some _ => ret tt
  end >>
  cleanup_after_lease lid.

(** The body of [async with self.session_for_lease()]. *)
Definition lease_session (lid : nat) (main hook : string) : M unit :=
  modify (upd_lc lid (attach_session lid main hook)) >>
  let* stale := skip_stale_lease lid in
  if stale then ret tt
  else
    spawn (THandleEndSession lid) >>
    try_finally (conn_tg_block lid) (conn_finally lid).

Definition session_for_lease (body : string -> string -> M unit) : M unit :=
  let* up := call QSession in
  match up with
  | SessionFail m => raise (PyError m)
  | SessionUp main hook =>
      try_finally (body main hook) (let* _ := call QSessionClose in ret tt)
  end.

Definition handle_lease_try (lid : nat) : M unit :=
  sleep 0 >>
  let* stale := skip_stale_lease lid in
  if stale then ret tt else session_for_lease (lease_session lid).

(** The outer [finally]: it never suspends. *)
Definition post_lease_finished (lid : nat) (w : World) : World :=
  if control_tx (ex w) && negb (control_closed w)
  then w <| control_queue ::= fun q => q ++ [LeaseFinished lid] |>
  else w.

Definition handle_lease_finally (lid : nat) : M unit :=
  let* set := gets (fun w => before_lease_hook (lc lid w)) in
  when (negb set) (set_before_lease_hook lid) >>
  let* done := gets (fun w => after_lease_hook_done (lc lid w)) in
  when (negb done) (set_after_lease_hook_done lid) >>
  modify (post_lease_finished lid).

Definition handle_lease (lid : nat) : M unit :=
  try_finally (handle_lease_try lid) (handle_lease_finally lid).

(** ** The children of [conn_tg]

    Each runs in the cancel scope of [conn_tg]; an error cancels the scope. The
    result tells whether the task goes on as a further round. *)

Definition conn_child (lid : nat) (m : M bool)
    : prog World answer task_name unit :=
  pbind (in_scope (conn_is_cancelled lid) m) (fun r =>
    match r with
    | inr true => Ret tt
    | _ =>
        let fail c :=
          match r with
          | inl Cancelled | inr _ => c
          | inl e => c <| conn_error := Some (exn_str e) |> <| conn_cancelled := true |>
          end in
        Atom (upd_cell lid (fun c => fail (c <| conn_live ::= pred |>))) (fun _ => Ret tt)
    end).

(** The [Listen] stream: a buffer of ten requests. *)
Definition listen_stream (lid retries_left : nat) (received_data : bool) : M bool :=
  retry_stream (ListenStream lid)
    (fun r => await (fun w => (length (listen_buf (cell lid w)) <? 10)%nat) >>
              modify (upd_cell lid (fun c => c <| listen_buf ::= fun l => l ++ [r] |>)))
    (fun left received => spawn (TRetryListen lid left received) >> ret true)
    retries_left received_data.

Definition wait_for_lease_end (lid : nat) : M bool :=
  await (fun w => lease_ended (lc lid w)) >>
  modify (upd_cell lid (fun c => c <| conn_cancelled := true |>)) >>
  ret false.

Definition process_connections (lid : nat) (hook_awaited : bool) : M bool :=
  (if hook_awaited then ret tt else await (fun w => before_lease_hook (lc lid w))) >>
  await (fun w => negb (length (listen_buf (cell lid w)) =? 0)%nat) >>
  let* next := gets (fun w => head (listen_buf (cell lid w))) in
  match next with
  | Some r =>
      modify (upd_cell lid (fun c => c <| listen_buf ::= tail |>)) >>
      spawn (THandleClientConn lid r) >>
      spawn (TProcessConnections lid true) >>
      ret true
  | None => ret false
  end.

End Lease.
