(* ===== verification/ControlPlane.v ===== *)
(** * The control plane

    [exporter/exporter.py]: [serve], the loop that is the only writer of
    [_lease_context], and the tasks of its task group. A handler of the loop
    never suspends: it runs to its end before any other task does. *)

From stdpp Require Import base list strings.
From Stdlib Require Import ZArith Lia.
From S2P Require Import Prelude Enums Session LeaseContext Coroutine ExporterState Rpc Hooks HandleLease.

Section ControlPlane.

Context (cfg : ExporterConfig) (os : OS).

(** ** Handlers *)

(** [_lease_log_context] *)
Definition lease_log_context (status : StatusResponse) : list (string * string) :=
  dict_update [("lease_id", st_lease_name status); ("exporter", cfg_exporter_name cfg)]
    (st_context status).

(** [set_log_context] binds its keyword arguments in the context of the loop task. *)
Definition set_log_context (kw : list (string * string)) : M unit :=
  modify (fun w => w <| log_context ::= fun d => dict_update d kw |>).

Definition clear_log_context : M unit := modify (fun w => w <| log_context := [] |>).

Definition on_lease_acquired (status : StatusResponse) : M unit :=
  modify (upd_ex (fun e => e <| started := true |>)) >>
  match new_lease_context (st_lease_name status) with
  | None => raise (PyError "LeaseScope requires a non-empty lease_name")
  | Some c =>
      let* lid := gets (fun w => length (leases w)) in
      modify (fun w => w <| leases ::= fun l => l ++ [new_cell c] |>) >>
      modify (upd_ex (fun e => e <| slot := Some lid |>)) >>
      set_log_context (lease_log_context status) >>
      match hook_executor cfg with
      | Some _ => spawn (TRunBeforeLeaseHook lid)
      | None => ret tt
      end >>
      spawn (THandleLease lid)
  end.

Definition on_lease_update (status : StatusResponse) : M unit :=
  let* s := gets (fun w => slot (ex w)) in
  match s with
  | Some lid =>
      modify (upd_lc lid (update_client (st_client_name status))) >>
      when (truthy (st_client_name status))
        (set_log_context [("client", st_client_name status)])
  | None => ret tt
  end.

(** [_check_stop_requested] *)
Definition check_stop : M bool :=
  let* stopping := gets (fun w => snd (check_stop_requested (ex w))) in
  modify (upd_ex (fun e => fst (check_stop_requested e))) >>
  ret stopping.

Definition on_lease_released (previous_state : LeaseState) : M unit :=
  let* s := gets (fun w => slot (ex w)) in
  match previous_state, s with
  | LEASED, Some lid =>
      when (exit_on_lease_end cfg)
        (modify (upd_ex (fun e => e <| stop_requested := true |>))) >>
      let* ended := gets (fun w => lease_ended (lc lid w)) in
      when (negb ended)
        (set_lease_ended lid >> spawn (TLeaseFinishedWatchdog lid))
  | _, _ => ret tt
  end.

(** [self._control_tx.send_nowait(pending)], skipped when the channel is closed. *)
Definition replay_status (pending : StatusResponse) (w : World) : World :=
  if control_tx (ex w) && negb (control_closed w)
  then w <| control_queue ::= fun q => q ++ [Status pending] |>
  else w.

Definition on_lease_finished (lid : nat) : M bool :=
  let* s := gets (fun w => slot (ex w)) in
  if negb (bool_decide (s = Some lid)) then check_stop
  else
    let* name := gets (fun w => lease_name (lc lid w)) in
    modify (upd_ex (fun e => e <| last_completed_lease := Some name |>)) >>
    modify (upd_ex (fun e => e <| slot := None |>)) >>
    when (exit_on_lease_end cfg)
      (modify (upd_ex (fun e => e <| stop_requested := true |>))) >>
    clear_log_context >>
    set_log_context [("exporter", cfg_exporter_name cfg)] >>
    let* pending := gets (fun w => pending_lease_status (ex w)) in
    match pending with
    | Some p =>
        modify (upd_ex (fun e => e <| pending_lease_status := None |>)) >>
        modify (replay_status p)
    | None => ret tt
    end >>
    check_stop.

(** A status for another lease than the one in the slot. *)
Definition on_lease_reassigned (status : StatusResponse) (lid : nat) : M unit :=
  modify (upd_ex (fun e => e <| pending_lease_status := Some status |>)) >>
  let* ended := gets (fun w => lease_ended (lc lid w)) in
  when (negb ended)
    (set_lease_ended lid >> spawn (TLeaseFinishedWatchdog lid)).

Definition apply_status (status : StatusResponse) : M bool :=
  let* previous_state := gets (fun w => lease_state (ex w)) in
  when (negb (st_leased status))
    (modify (upd_ex (fun e => e <| last_completed_lease := None |>))) >>
  if st_leased status then
    let* s := gets (fun w => slot (ex w)) in
    let* completed := gets (fun w => last_completed_lease (ex w)) in
    match s with
    | None =>
        if truthy (st_lease_name status) then
          if bool_decide (Some (st_lease_name status) = completed) then ret false
          else on_lease_acquired status >> on_lease_update status >> ret false
        else on_lease_update status >> ret false
    | Some lid =>
        let* name := gets (fun w => lease_name (lc lid w)) in
        if negb (String.eqb name (st_lease_name status)) then
          on_lease_reassigned status lid >> ret false
        else on_lease_update status >> ret false
    end
  else
    on_lease_released previous_state >>
    let* s := gets (fun w => slot (ex w)) in
    match s with
    | Some _ => ret false
    | None => check_stop
    end.

Definition lease_finished_watchdog (lid : nat) : M unit :=
  sleep (1000 * LEASE_FINISHED_WATCHDOG) >>
  let* s := gets (fun w => slot (ex w)) in
  when (bool_decide (s = Some lid)) (modify (observe (OWarnStuck lid))).

(** ** The loop of [_run_control_plane], one message at a time *)

Definition dispatch (msg : control_msg) : M bool :=
  match msg with
  | LeaseFinished lid => on_lease_finished lid
  | Status status => apply_status status
  end.

Definition control_loop : M unit :=
  await (fun w => negb (length (control_queue w) =? 0)%nat) >>
  let* next := gets (fun w => head (control_queue w)) in
  match next with
  | None => ret tt
  | Some msg =>
      modify (fun w => w <| control_queue ::= tail |>) >>
      let* break := dispatch msg in
      when (negb break) (spawn TControlLoop)
  end.

(** The status stream feeds the same, unbounded channel. *)
Definition status_stream (retries_left : nat) (received_data : bool) : M bool :=
  retry_stream StatusStream
    (fun s => modify (fun w => w <| control_queue ::= fun q => q ++ [Status s] |>))
    (fun left received => spawn (TRetryStatus left received) >> ret true)
    retries_left received_data.

(** ** The task group

    A task that raises cancels the whole group. *)

Definition tg_child {A} (m : M A) : prog World answer task_name unit :=
  pbind m (fun r =>
    match r with
    | inl Cancelled | inr _ => Ret tt
    | inl _ => Atom (upd_ex (fun e => e <| tg := Some true |>)) (fun _ => Ret tt)
    end).

Definition body (n : task_name) : prog World answer task_name unit :=
  match n with
  | TControlLoop => tg_child control_loop
  | TDrainStatus => tg_child drain_status_reports
  | TRetryStatus n received => tg_child (status_stream n received)
  | TRunBeforeLeaseHook lid =>
      match hook_executor cfg with
      | Some config => tg_child (exporter_before_hook os config lid)
      | None => Ret tt
      end
  | THandleLease lid => tg_child (handle_lease cfg os lid)
  | THandleEndSession lid => tg_child (handle_end_session cfg os lid)
  | TRetryListen lid n received => conn_child lid (listen_stream lid n received)
  | TWaitForLeaseEnd lid => conn_child lid (wait_for_lease_end lid)
  | TProcessConnections lid b => conn_child lid (process_connections lid b)
  | THandleClientConn lid r => Atom (observe (OClient lid r)) (fun _ => Ret tt)
  | TLeaseFinishedWatchdog lid => tg_child (lease_finished_watchdog lid)
  end.

(** The start of [_run_control_plane]. *)
Definition run_control_plane_start (w : World) : World :=
  upd_ex (fun e => e <| tg := Some false |> <| control_tx := true |>
                     <| status_rpc_event := false |> <| pending_status_request := None |>
                     <| status_drain_active := true |>) w.

Definition control_plane_tasks : list task_name :=
  [TDrainStatus; TRetryStatus STREAM_RETRIES false; TControlLoop].

(** The [finally] of [serve]. *)
Definition serve_finally (w : World) : World :=
  upd_ex (fun e => e <| tg := None |> <| status_drain_active := false |>) w
    <| log_context := [] |>.

(** The outside: a client ends its session, or the process asks the exporter to
    stop. *)
Inductive outside : World -> World -> list task_name -> Prop :=
| out_end_session w lid s :
    session (lc lid w) = Some s ->
    outside w (match fst (EndSession s) with
               | Some l => upd_lc l (fun c => c <| end_session_requested := true |>) w
               | None => w
               end) []
| out_stop w wait unreg code : outside w (upd_ex (stop wait unreg code) w) [].

End ControlPlane.

(** A fresh exporter, as its dataclass fields start, after registration. *)
Definition new_exporter : Exporter :=
  mkExporter true false false true false None AVAILABLE None false None None false
    None false false None false.

Definition new_world : World := mkWorld new_exporter [] [] false [] [].
