(* ===== verification/HookCorrect.v ===== *)
(** * What running a hook guarantees

    The lines read from a hook's terminal, the environment and command line it is
    given, and what each failure policy makes of its outcome. *)

From stdpp Require Import base list strings pretty.
From Stdlib Require Import ZArith Lia Ascii.
From S2P Require Import Prelude PyText Enums Session LeaseContext Coroutine ExporterState Rpc RpcCorrect Hooks HandleLease ControlPlane.

(** ** The lines of the output *)

Import Output.

(** Non-empty decoded lines, in order. *)
Definition clean (lines : list (list Z)) : list (list Z) :=
  List.filter (fun l => negb (bool_decide (l = []))) (map decode_line lines).

Abbreviation segments := (Utf8.split_byte NL).

Lemma append_line_app l a b : append_line l (a ++ b) = a ++ append_line l b.
Proof. destruct l; simpl; [done | by rewrite app_assoc]. Qed.

Lemma append_clean l out : append_line (decode_line l) out = out ++ clean [l].
Proof. unfold clean. simpl. destruct (decode_line l); simpl; [by rewrite app_nil_r | done]. Qed.

Lemma clean_app a b : clean (a ++ b) = clean a ++ clean b.
Proof. unfold clean. by rewrite map_app, List.filter_app. Qed.

Lemma segments_nonempty bs : segments bs <> [].
Proof. induction bs as [|b bs IH]; simpl; [done |]. destruct (Z.eqb b NL), (segments bs); done. Qed.

Definition last_segment (bs : list Z) : list Z := List.last (segments bs) [].

Lemma segments_split_once bs :
  match split_once NL bs with
  | Some (line, rest) => segments bs = line :: segments rest /\ (length rest < length bs)%nat
  | None => segments bs = [bs]
  end.
Proof.
  induction bs as [|b bs IH]; simpl; [done |].
  destruct (Z.eqb b NL); [split; [done | lia] |].
  destruct (split_once NL bs) as [[line rest]|].
  - destruct IH as [-> Hl]. split; [done | lia].
  - by rewrite IH.
Qed.

Lemma flush_loop_spec n bs out :
  (length bs <= n)%nat ->
  flush_lines_loop n bs out = (last_segment bs, out ++ clean (removelast (segments bs))).
Proof.
  revert bs out. induction n as [|n IH]; intros bs out Hn.
  - destruct bs; [| simpl in Hn; lia]. simpl. by rewrite app_nil_r.
  - simpl. unfold last_segment. pose proof (segments_split_once bs) as Hs.
    destruct (split_once NL bs) as [[line rest]|].
    + destruct Hs as [-> Hl]. rewrite IH by lia.
      pose proof (segments_nonempty rest) as Hne. unfold last_segment.
      destruct (segments rest) as [|x l] eqn:E; [done |].
      change (removelast (line :: x :: l)) with (line :: removelast (x :: l)).
      change (line :: removelast (x :: l)) with ([line] ++ removelast (x :: l)).
      by rewrite clean_app, append_clean, app_assoc.
    + rewrite Hs. simpl. by rewrite app_nil_r.
Qed.

Lemma flush_spec bs out :
  flush_lines bs out = (last_segment bs, out ++ clean (removelast (segments bs))).
Proof. by apply flush_loop_spec. Qed.

Lemma segments_app a b :
  segments (a ++ b) = removelast (segments a) ++ segments (last_segment a ++ b).
Proof.
  unfold last_segment. induction a as [|x a IH]; simpl; [done |].
  pose proof (segments_nonempty a) as Hne.
  destruct (Z.eqb x NL) eqn:Hx.
  - rewrite IH. destruct (segments a) as [|y l]; [done |]. done.
  - rewrite IH. destruct (segments a) as [|y l] eqn:E; [done |].
    destruct l as [|z l]; [| done]. simpl. rewrite Hx. done.
Qed.

(** The bytes the reader took in before it stopped, and those of the drain. *)
Fixpoint received (evs : list read_event) : list Z :=
  match evs with
  | NoData :: evs' => received evs'
  | Data ((_ :: _) as chunk) :: evs' => chunk ++ received evs'
  | _ => []
  end.

Definition drained_bytes (evs : list drain_event) : list Z := drain_loop evs 0 0 [].

Lemma last_app_nonempty {A} (l1 l2 : list A) d :
  l2 <> [] -> List.last (l1 ++ l2) d = List.last l2 d.
Proof.
  intros Hl. induction l1 as [|x l1 IH]; simpl; [done |].
  destruct (l1 ++ l2) eqn:E; [| done]. apply app_eq_nil in E as [_ ->]. done.
Qed.

Lemma last_segment_app a b : last_segment (a ++ b) = last_segment (last_segment a ++ b).
Proof.
  unfold last_segment at 1. rewrite segments_app.
  apply last_app_nonempty, segments_nonempty.
Qed.

Lemma last_segment_one a : segments (last_segment a) = [last_segment a].
Proof.
  unfold last_segment. induction a as [|x a IH]; simpl; [done |].
  pose proof (segments_nonempty a) as Hne.
  destruct (Z.eqb x NL) eqn:Hx; destruct (segments a) as [|y l] eqn:E; try done.
  destruct l; [| done]. simpl in *. by rewrite Hx, IH.
Qed.

Lemma read_loop_spec evs buffer out :
  segments buffer = [buffer] ->
  let all := buffer ++ received evs in
  read_loop evs buffer out = (last_segment all, out ++ clean (removelast (segments all))).
Proof.
  revert buffer out. induction evs as [|ev evs IH]; intros buffer out Hb; simpl.
  - unfold last_segment. rewrite app_nil_r, Hb. simpl. by rewrite app_nil_r.
  - destruct ev as [|[|c chunk]| | |]; simpl;
      try (unfold last_segment; rewrite app_nil_r, Hb; simpl; by rewrite app_nil_r); [| by apply IH].
    rewrite flush_spec, IH by apply last_segment_one. simpl.
    change (c :: chunk ++ received evs) with ((c :: chunk) ++ received evs).
    rewrite (app_assoc buffer). set (a := buffer ++ c :: chunk).
    rewrite (last_segment_app a), (segments_app a).
    rewrite removelast_app by apply segments_nonempty. by rewrite clean_app, app_assoc.
Qed.

Lemma drain_loop_app evs drained empty buffer :
  drain_loop evs drained empty buffer = buffer ++ drain_loop evs drained empty [].
Proof.
  revert drained empty buffer. induction evs as [|ev evs IH]; intros drained empty buffer; cbn [drain_loop].
  - destruct (negb _); by rewrite app_nil_r.
  - destruct (negb _); [by rewrite app_nil_r |].
    destruct ev as [| | |[|c chunk]|]; rewrite ?app_nil_r; try done.
    + destruct (_ <=? _)%nat; [by rewrite app_nil_r | apply IH].
    + rewrite (IH _ 0 (buffer ++ c :: chunk)), (IH _ 0 (c :: chunk)). by rewrite app_assoc.
Qed.

(** What one event brings, and whether the loop goes on after it. *)
Definition read_chunk (ev : read_event) : list Z := match ev with Data c => c | _ => [] end.

Definition reads_on (ev : read_event) : Prop :=
  match ev with Data c => c <> [] | NoData => True | _ => False end.

Definition drain_chunk (ev : drain_event) : list Z := match ev with Drained c => c | _ => [] end.

Definition drains_on (ev : drain_event) : Prop :=
  match ev with Drained c => c <> [] | NotReadable => True | _ => False end.

(** The loop stops before [evs]: there is nothing, or an event that ends it. *)
Definition stops_at {E} (on : E -> Prop) (evs : list E) : Prop :=
  match evs with [] => True | ev :: _ => ~ on ev end.

(** The bytes of a sequence of events, and the polls without data it ends with, on top
    of [e] of them before it. *)
Definition drained_of (evs : list drain_event) : list Z := concat (map drain_chunk evs).

Definition empty_polls (e : nat) (evs : list drain_event) : nat :=
  foldl (fun n ev => match ev with NotReadable => S n | _ => 0 end) e evs.

(** The drain has enough: 256 KiB, or ten polls in a row without data. *)
Definition enough (d : Z) (e : nat) (evs : list drain_event) : Prop :=
  (256 * 1024 <= d + Z.of_nat (length (drained_of evs)))%Z \/ 10 <= empty_polls e evs.

(** [taken] is what the drain takes in of [evs]: the shortest beginning that is enough, or
    else everything before the event that ends it. *)
Definition drain_takes (d : Z) (e : nat) (evs taken : list drain_event) : Prop :=
  exists rest, evs = taken ++ rest /\ Forall drains_on taken /\
    (forall p q, taken = p ++ q -> q <> [] -> ~ enough d e p) /\
    (enough d e taken \/ stops_at drains_on rest).

Definition read_takes (evs taken : list read_event) : Prop :=
  exists rest, evs = taken ++ rest /\ Forall reads_on taken /\ stops_at reads_on rest.

Lemma read_takes_received evs :
  exists taken, read_takes evs taken /\ received evs = concat (map read_chunk taken).
Proof.
  induction evs as [|ev evs (taken & (rest & -> & Ht & Hs) & Hr)]; [by exists []; split; [exists [] |] |].
  destruct ev as [|[|c chunk]| | |];
    try (exists []; split; [eexists; split_and!; [reflexivity | done | simpl; tauto] | done]).
  - exists (Data (c :: chunk) :: taken). split; [| simpl; by rewrite Hr].
    exists rest. split_and!; [done | by constructor | done].
  - exists (NoData :: taken). split; [| simpl; by rewrite Hr].
    exists rest. split_and!; [done | by constructor | done].
Qed.

Lemma drain_takes_nil d e evs :
  enough d e [] \/ stops_at drains_on evs -> drain_takes d e evs [].
Proof.
  intros H. exists evs. split_and!; [done | done | | done].
  by intros [|? ?] [|? ?].
Qed.

(** One event of the drain changes the counters and goes on. *)
Lemma drain_takes_cons d e ev evs taken :
  drains_on ev -> ~ enough d e [] ->
  drain_takes (d + Z.of_nat (length (drain_chunk ev))) (empty_polls e [ev]) evs taken ->
  drain_takes d e (ev :: evs) (ev :: taken).
Proof.
  intros Hon Hne (rest & -> & Ht & Hp & Hs).
  assert (forall p, enough d e (ev :: p) <->
    enough (d + Z.of_nat (length (drain_chunk ev))) (empty_polls e [ev]) p) as He.
  { intros p. unfold enough, drained_of, empty_polls. simpl. rewrite length_app. split; intros []; lia. }
  exists rest. split_and!; [done | by constructor | | by rewrite He].
  intros [|x p] q Hq Hqn; [done |]. injection Hq as <- Hq. rewrite He. by apply (Hp p q).
Qed.

Lemma drain_loop_takes evs d e :
  e < 10 ->
  exists taken, drain_takes d e evs taken /\ drain_loop evs d e [] = drained_of taken.
Proof.
  revert d e. induction evs as [|ev evs IH]; intros d e He; cbn [drain_loop].
  { exists []. split; [apply drain_takes_nil; by right | by destruct (negb _)]. }
  destruct (Z.ltb_spec d MAX_DRAIN_BYTES) as [Hlt|Hge]; cbn [negb].
  2: { exists []. split; [| done]. apply drain_takes_nil. left. left.
       unfold MAX_DRAIN_BYTES in Hge. simpl. lia. }
  assert (~ enough d e []) as Hne
    by (unfold enough, MAX_DRAIN_BYTES in *; simpl; lia).
  destruct ev as [| | |[|c chunk]|];
    try (exists []; split; [apply drain_takes_nil; right; simpl; tauto | done]).
  - destruct (Nat.leb_spec DRAIN_MAX_EMPTY_POLLS (S e)) as [Hle|Hgt].
    + exists [NotReadable]. split; [| done].
      apply drain_takes_cons; [done | done |]. apply drain_takes_nil. left. right.
      unfold DRAIN_MAX_EMPTY_POLLS in Hle. simpl. lia.
    + destruct (IH d (S e)) as (taken & Ht & Hr); [unfold DRAIN_MAX_EMPTY_POLLS in Hgt; lia |].
      exists (NotReadable :: taken). split; [| done].
      apply drain_takes_cons; [done | done |]. by rewrite Z.add_0_r.
  - rewrite app_nil_l, drain_loop_app.
    destruct (IH (d + Z.of_nat (length (c :: chunk)))%Z 0) as (taken & Ht & Hr); [lia |].
    exists (Drained (c :: chunk) :: taken). split; [by apply drain_takes_cons |].
    by rewrite Hr.
Qed.

Lemma output_lines_received reads drains :
  read_pty_output reads drains =
  clean (segments (received reads ++ drained_bytes drains)).
Proof.
  unfold read_pty_output, drained_bytes. rewrite read_loop_spec by done. simpl.
  rewrite drain_loop_app, flush_spec. simpl.
  set (a := received reads). set (b := drain_loop drains 0 0 []).
  rewrite (segments_app a), clean_app.
  assert (clean (segments (last_segment a ++ b)) =
          clean (removelast (segments (last_segment a ++ b))) ++
          clean [last_segment (last_segment a ++ b)]) as ->
    by (rewrite <- clean_app; f_equal; apply app_removelast_last, segments_nonempty).
  rewrite app_assoc.
  generalize (clean (removelast (segments a)) ++
              clean (removelast (segments (last_segment a ++ b)))) as out.
  intros out. destruct (last_segment (last_segment a ++ b)) as [|c s]; [by rewrite app_nil_r |].
  apply append_clean.
Qed.

(** C14: the lines reported for a hook depend only on the bytes that are taken in, not on
    how the reads cut them: they are the non-empty lines of those bytes, each decoded
    with replacement and stripped on the right, the last one even without a newline. The
    bytes taken in are all those read until the reader is told to stop or meets the end
    of the file or an error, followed by those of the final drain: all until its
    deadline, the end of the file or an error, or the first point at which it has
    256 KiB or more, or ten polls in a row had no data. *)
Theorem read_pty_output_lines reads drains :
  exists rs ds, read_takes reads rs /\ drain_takes 0 0 drains ds /\
    read_pty_output reads drains =
    clean (segments (concat (map read_chunk rs) ++ drained_of ds)).
Proof.
  destruct (read_takes_received reads) as (rs & Hrs & Er).
  destruct (drain_loop_takes drains 0 0) as (ds & Hds & Ed); [lia |].
  exists rs, ds. split_and!; [done | done |]. rewrite output_lines_received, Er.
  unfold drained_bytes. by rewrite Ed.
Qed.

(** The drain is bounded: with reads of at most 4096 bytes it never takes in
    more than the limit and one read. *)
Theorem drain_bounded evs :
  Forall (fun ev => match ev with Drained c => (Z.of_nat (length c) <= 4096)%Z | _ => True end) evs ->
  (Z.of_nat (length (drained_bytes evs)) < MAX_DRAIN_BYTES + 4096)%Z.
Proof.
  intros Hevs. unfold drained_bytes.
  assert (forall drained empty, (0 <= drained < MAX_DRAIN_BYTES + 4096)%Z ->
    (drained + Z.of_nat (length (drain_loop evs drained empty [])) < MAX_DRAIN_BYTES + 4096)%Z)
    as H; [| by apply (H 0%Z 0)].
  induction Hevs as [|ev evs Hev _ IH]; intros drained empty Hd; cbn [drain_loop].
  - destruct (negb _); simpl; lia.
  - destruct (Z.ltb drained MAX_DRAIN_BYTES) eqn:Hlt; cbn [negb]; [| simpl; lia]. apply Z.ltb_lt in Hlt.
    destruct ev as [| | |[|c chunk]|]; try (simpl; lia).
    + destruct (_ <=? _)%nat; simpl; [lia |]. by apply IH.
    + change (Z.of_nat (length (c :: chunk)) <= 4096)%Z in Hev. rewrite app_nil_l.
      specialize (IH (drained + Z.of_nat (length (c :: chunk)))%Z 0).
      rewrite drain_loop_app, length_app, Nat2Z.inj_add. lia.
Qed.

(** ** The environment of a hook *)

(** What a hook sees beside the exporter's own environment. *)
Definition hook_overrides (c : LeaseContext) : list (string * string) :=
  [(JUMPSTARTER_HOST, if truthy (hook_socket_path c) then hook_socket_path c else socket_path c);
   (JMP_DRIVERS_ALLOW, "UNSAFE");
   ("LEASE_NAME", lease_name c);
   ("CLIENT_NAME", client_name c);
   ("TERM", "dumb");
   ("DEBIAN_FRONTEND", "noninteractive");
   ("GIT_TERMINAL_PROMPT", "0")].

(** A hook's environment is the exporter's, without [PS1], with the lease, its
    client and the hook's own socket (the main one only when there is none) in
    place of whatever the exporter's environment had there. *)
Theorem hook_env_lookup os c k :
  dict_wf (environ os) ->
  dict_get k (create_hook_env os c) =
  if String.eqb k "PS1" then None
  else match dict_get k (hook_overrides c) with
       | Some v => Some v
       | None => dict_get k (environ os)
       end.
Proof.
  intros Hwf. unfold create_hook_env. fold (or_str (hook_socket_path c) (socket_path c)).
  change [(JUMPSTARTER_HOST, or_str (hook_socket_path c) (socket_path c));
          (JMP_DRIVERS_ALLOW, "UNSAFE"); _; _; _; _; _] with (hook_overrides c).
  assert (dict_wf (hook_overrides c)) as Ho.
  { unfold dict_wf. simpl. apply (bool_decide_unpack _). vm_compute. exact I. }
  destruct (String.eqb_spec k "PS1") as [->|Hne].
  - by apply dict_get_pop_same, dict_update_wf.
  - rewrite dict_get_pop_other by congruence. by apply dict_get_update.
Qed.

(** ** Failure policy *)

Lemma stop_facts wait unreg code e :
  let e' := stop wait unreg (Some code) e in
  exporter_status e' = exporter_status e /\ exit_code e' = Some code /\
  (stop_requested e' = true \/ tg e' = Some true).
Proof.
  unfold stop. destruct e as [? ? sr ? st t]. simpl. destruct t; simpl.
  - rewrite andb_true_r. destruct (negb st || negb wait); simpl; [auto |].
    destruct sr; simpl; auto.
  - rewrite andb_false_r. destruct sr; simpl; auto.
Qed.

Section Policy.

Context (os : OS) (o : nat -> forall q, answer q) (lid : nat).

(** What the policy of a hook makes of how its process ended. *)
Definition hook_result (h : HookInstanceConfigV1Alpha1) (hook_type : HookType)
    (out : proc_outcome) : exn + option string :=
  let fail m := match on_failure h with
                | warn => inr (Some m)
                | p => inl (HookExecutionError m p hook_type)
                end in
  match out with
  | PtyFailed m => inl (PyError m)
  | Exited 0 => inr None
  | Exited rc => fail ("Hook failed with exit code " ++ pretty rc)%string
  | TimedOut => fail ("Hook timed out after " ++ pretty (timeout h) ++ " seconds")%string
  | SpawnFailed m => fail ("Error executing hook: " ++ m)%string
  end.

Definition hook_type_of (src : LogSource) : HookType :=
  if decide (src = LOG_BEFORE_LEASE_HOOK) then before_lease_t else after_lease_t.

(** What running a hook leaves alone. *)
Definition hook_keeps (src : LogSource) (w w' : World) : Prop :=
  ex w' = ex w /\ length (leases w') = length (leases w) /\
  trace w' = trace w ++ [OHook lid src].

(** The file for the message of the day, which only a beforeLease hook is given: the
    message of the error when it cannot be made. *)
Definition temp_file (src : LogSource) : string + option string :=
  match hook_type_of src with
  | before_lease_t =>
      match mkstemp os lid with inl m => inl m | inr path => inr (Some path) end
  | after_lease_t => inr None
  end.

(** The request that runs the process. *)
Definition hook_request (h : HookInstanceConfigV1Alpha1) (motd : option string) (w : World)
    : request :=
  let env := dict_pop JMP_MOTD_FILE (create_hook_env os (lc lid w)) in
  QHookProcess lid (hook_command os h)
    (match motd with Some path => dict_set JMP_MOTD_FILE path env | None => env end)
    (timeout h).

Lemma solo_handle_failure m p t i w :
  solo (handle_hook_failure m p t) o i w =
  Some (match p with warn => inr (Some m) | _ => inl (HookExecutionError m p t) end, w, i).
Proof. unfold handle_hook_failure. by destruct p. Qed.

Lemma solo_try_finally {A} (m : M A) fin i w :
  solo (try_finally m fin) o i w =
  match solo m o i w with
  | Some (r, w', i') =>
      match solo fin o i' w' with
      | Some (inr _, w2, i2) => Some (r, w2, i2)
      | Some (inl e, w2, i2) => Some (inl e, w2, i2)
      | None => None
      end
  | None => None
  end.
Proof.
  unfold try_finally. rewrite solo_bind. destruct (solo m o i w) as [[[r w'] i']|]; [| done].
  rewrite solo_bind. by destruct (solo fin o i' w') as [[[[e|u] w2] i2]|].
Qed.

Lemma execute_process_solo h src env t i w :
  let q := QHookProcess lid (hook_command os h) env (timeout h) in
  exists w',
    solo (execute_hook_process os h lid src env t) o i w =
    Some (match hook_result h t (fst (o i q)) with
          | inl e => inl e
          | inr r => inr (r, snd (o i q))
          end, w', S i) /\
    hook_keeps src w w'.
Proof.
  cbv zeta. unfold execute_hook_process, in_log_source. rewrite solo_mbind.
  cbn [solo modify]. rewrite solo_try_finally. rewrite solo_mbind. cbn [solo modify].
  rewrite solo_mbind. cbn [solo call].
  set (w1 := observe (OHook lid src) _).
  set (q := QHookProcess lid (hook_command os h) env (timeout h)).
  assert (forall r : exn + (option string * option string), exists w', match solo (modify (upd_session lid (fun s =>
       s <| logging_handler ::= remove_child_handler HOOKS_LOGGER |>))) o (S i) w1 with
      | Some (inr _, w2, i2) => Some (r, w2, i2)
      | Some (inl e, w2, i2) => Some (inl e, w2, i2)
      | None => None
      end = Some (r, w', S i) /\ hook_keeps src w w') as Hfin.
  { intros r. eexists. split; [reflexivity |]. unfold hook_keeps, w1. simpl.
    by rewrite !length_alter. }
  destruct (o i q) as [out motd] eqn:Ho. cbn [fst snd].
  destruct out as [m|m| |rc]; cbn [hook_result].
  - apply Hfin.
  - rewrite solo_mbind, solo_handle_failure. destruct (on_failure h); apply Hfin.
  - rewrite solo_mbind, solo_handle_failure. destruct (on_failure h); apply Hfin.
  - destruct rc; [apply Hfin | |]; rewrite solo_mbind, solo_handle_failure;
      destruct (on_failure h); apply Hfin.
Qed.

Lemma append_motd_solo c i w :
  exists w', solo (append_hook_motd lid c) o i w = Some (inr tt, w', i) /\
    ex w' = ex w /\ length (leases w') = length (leases w) /\ trace w' = trace w.
Proof.
  unfold append_hook_motd. destruct c as [raw|]; [| by exists w]. unfold when.
  destruct (truthy _); [| by exists w]. eexists. split; [reflexivity |]. simpl.
  by rewrite length_alter.
Qed.

Lemma execute_hook_solo h src i w :
  truthy (Str.strip (script h)) = true -> is_some (session (lc lid w)) = true ->
  match temp_file src with
  | inl m => solo (execute_hook os h lid src) o i w = Some (inl (PyError m), w, i)
  | inr motd =>
      exists w',
        solo (execute_hook os h lid src) o i w =
        Some (hook_result h (hook_type_of src) (fst (o i (hook_request h motd w))), w', S i) /\
        hook_keeps src w w'
  end.
Proof.
  intros Hscript Hsess. unfold execute_hook, hook_request, temp_file. rewrite Hscript. cbn [negb].
  fold (hook_type_of src). rewrite solo_mbind. cbn [solo gets]. rewrite Hsess. cbn [negb].
  rewrite solo_mbind. cbn [solo gets].
  destruct (hook_type_of src) eqn:Ht; [destruct (mkstemp os lid) as [m|path]; [done |] |];
    rewrite solo_mbind.
  - set (env := dict_set JMP_MOTD_FILE path _).
    destruct (execute_process_solo h src env before_lease_t i w) as (w1 & -> & Hk).
    destruct (hook_result _ _ _) as [e|r]; [by exists w1 |].
    rewrite solo_mbind. cbn [fst snd].
    destruct (append_motd_solo (snd (o i (QHookProcess lid (hook_command os h) env (timeout h))))
                (S i) w1) as (w2 & -> & He & Hl & Htr).
    exists w2. split; [done |]. destruct Hk as (H1 & H2 & H3). unfold hook_keeps. by rewrite He, Hl, Htr.
  - destruct (execute_process_solo h src
        (dict_pop JMP_MOTD_FILE (create_hook_env os (lc lid w))) after_lease_t i w)
      as (w1 & -> & Hk).
    destruct (hook_result _ _ _) as [e|r]; by exists w1.
Qed.

(** C13: a hook with a script and a session is run exactly once, unless it is a
    beforeLease hook whose temporary file for the message of the day cannot be made:
    that error is raised whatever the policy and nothing is run. Of the hook that is run,
    exit code 0 is a success, and every other way to end (a failing exit code, the
    timeout, an interpreter that does not start) is a warning under [warn] and an error
    that names its policy under [endLease] and [exit]; only a terminal that cannot be
    opened is raised whatever the policy. *)
Theorem execute_hook_policy h src i w :
  truthy (Str.strip (script h)) = true -> is_some (session (lc lid w)) = true ->
  match temp_file src with
  | inl m => solo (execute_hook os h lid src) o i w = Some (inl (PyError m), w, i)
  | inr motd =>
      exists w',
        solo (execute_hook os h lid src) o i w =
        Some (hook_result h (hook_type_of src) (fst (o i (hook_request h motd w))), w', S i) /\
        ex w' = ex w /\ trace w' = trace w ++ [OHook lid src]
  end.
Proof.
  intros Hscript Hsess. pose proof (execute_hook_solo h src i w Hscript Hsess) as Hx.
  destruct (temp_file src) as [m|motd]; [exact Hx |]. destruct Hx as (w' & Hs & Hk).
  exists w'. split; [exact Hs |]. by destruct Hk as (? & _ & ?).
Qed.

(** When an afterLease hook with policy [exit] fails, the exporter reports the
    failure and OFFLINE, stops with exit code 1 (now or, during a lease, deferred)
    and does not release the lease: the only request to the outside is the hook
    itself. *)
Theorem after_hook_exit_no_release config h i w rc :
  after_lease config = Some h -> on_failure h = exit ->
  truthy (Str.strip (script h)) = true -> is_ready (lc lid w) = true ->
  standalone (ex w) = false -> status_drain_active (ex w) = true ->
  rc <> 0%Z -> (forall cmd env secs, fst (o i (QHookProcess lid cmd env secs)) = Exited rc) ->
  exists w' t,
    solo (exporter_after_hook os config lid) o i w = Some (inr tt, w', S i) /\
    exporter_status (ex w') = OFFLINE /\ exit_code (ex w') = Some 1%Z /\
    (stop_requested (ex w') = true \/ tg (ex w') = Some true) /\
    trace w' = trace w ++ t /\
    forallb (fun ob => match ob with ORpc _ => false | _ => true end) t = true.
Proof.
  intros Hcfg Hpol Hscript Hready Ha Hd Hrc Ho.
  unfold exporter_after_hook, run_after_lease_hook. rewrite solo_mbind. cbn [solo modify].
  set (w0 := observe (OAfterRun lid) w).
  unfold try_except_finally. rewrite !solo_bind.
  unfold after_lease_try. rewrite solo_mbind. cbn [solo gets].
  change (lc lid w0) with (lc lid w). rewrite Hready, Hcfg. cbn [negb].
  destruct (report_status_run AFTER_LEASE_HOOK "Running afterLease hooks" w0)
    as (w1 & Hr1 & (_ & _ & _ & _ & Ht1 & Ha1 & Hd1 & _ & Hss1) & _); [done.. |].
  change (ex w0) with (ex w) in Ha1, Hd1.
  rewrite solo_mbind. erewrite solo_run by exact Hr1.
  destruct (execute_hook_solo h LOG_AFTER_LEASE_HOOK i w1) as (w2 & Hx & Hk); [done | |].
  { rewrite Hss1. by apply andb_true_iff in Hready as [? _]. }
  rewrite solo_mbind, Hx. unfold hook_request. rewrite Ho. cbn [hook_result]. rewrite Hpol.
  destruct Hk as (He2 & _ & Ht2).
  assert (forall A (x : A) y, match rc with Z0 => x | _ => y end = y) as Hmatch
    by (by intros; destruct rc).
  cbn zeta. rewrite Hmatch. cbn [after_lease_except].
  change (should_shutdown_exporter exit) with true. cbn iota.
  rewrite solo_bind.
  destruct (report_status_run AFTER_LEASE_HOOK_FAILED
    ("afterLease hook failed (on_failure=exit, shutting down): " ++
     ("Hook failed with exit code " ++ pretty rc))%string w2)
    as (w3 & Hr3 & (_ & _ & _ & _ & Ht3 & Ha3 & Hd3 & _) & _); [congruence.. |].
  rewrite solo_mbind. erewrite solo_run by exact Hr3.
  destruct (report_status_run OFFLINE "Exporter shutting down due to afterLease hook failure" w3)
    as (w4 & Hr4 & (Hst4 & _ & _ & _ & Ht4 & _) & _); [congruence.. |].
  rewrite solo_mbind. erewrite solo_run by exact Hr4.
  cbn [solo exporter_stop modify ret]. rewrite solo_bind, solo_mbind. cbn [solo sleep].
  destruct (stop_facts true true 1%Z (ex w4)) as (Hs1 & Hs2 & Hs3).
  eexists _, _. split; [reflexivity |].
  split; [simpl; congruence |]. split; [exact Hs2 |]. split; [exact Hs3 |]. split.
  - simpl. rewrite Ht4, Ht3, Ht2, Ht1. unfold w0. simpl. rewrite <- !app_assoc. reflexivity.
  - reflexivity.
Qed.

End Policy.

(** ** Concrete instances *)

Definition os1 : OS := mkOS [("PS1", "$"); ("HOME", "/root")] (fun _ => false) "python3" (fun _ => inr "/tmp/motd").

Lemma hook_env_lookup_witness :
  dict_get "HOME" (create_hook_env os1 dummy_context) = Some "/root"%string /\
  dict_get "PS1" (create_hook_env os1 dummy_context) = None.
Proof.
  assert (dict_wf (environ os1)) as Hwf
    by (unfold dict_wf; apply (bool_decide_unpack _); vm_compute; exact I).
  split; [exact (hook_env_lookup os1 dummy_context "HOME" Hwf) |
          exact (hook_env_lookup os1 dummy_context "PS1" Hwf)].
Defined.

Lemma drain_bounded_witness :
  (Z.of_nat (length (drained_bytes [Drained [104%Z; 105%Z]; NotReadable])) <
   MAX_DRAIN_BYTES + 4096)%Z.
Proof. apply (drain_bounded [Drained [104%Z; 105%Z]; NotReadable]). repeat constructor; simpl; lia. Defined.

Definition exit_hook : HookInstanceConfigV1Alpha1 := mkHookInstance None "false" 10 exit.

(** A lease whose session is up. *)
Definition ready_world : World :=
  serving_world <| leases := [new_cell (dummy_context <| lease_name := "A" |>
    <| session := Some (new_session "e" None) |> <| socket_path := "/s" |>)] |>.

Definition failing_hook (n : nat) (q : request) : answer q :=
  match q with
  | QRpc _ => RpcOk
  | QStream _ => StreamEnd
  | QSession => SessionFail ""
  | QSessionClose => tt
  | QHookProcess _ _ _ _ => (Exited 3, None)
  | QChannel => None
  end.

Lemma execute_hook_policy_witness :
  exists w', solo (execute_hook os1 exit_hook 0 LOG_AFTER_LEASE_HOOK) failing_hook 0 ready_world =
    Some (inl (HookExecutionError "Hook failed with exit code 3" exit after_lease_t), w', 1).
Proof.
  destruct (execute_hook_policy os1 failing_hook 0 exit_hook LOG_AFTER_LEASE_HOOK 0 ready_world
              eq_refl eq_refl) as (w' & Hs & _).
  exists w'. exact Hs.
Defined.

Lemma after_hook_exit_no_release_witness :
  exists w' t, solo (exporter_after_hook os1 (mkHookConfig None (Some exit_hook)) 0)
                 failing_hook 0 ready_world = Some (inr tt, w', 1) /\
    trace w' = trace ready_world ++ t /\ exit_code (ex w') = Some 1%Z.
Proof.
  destruct (after_hook_exit_no_release os1 failing_hook 0 (mkHookConfig None (Some exit_hook))
              exit_hook 0 ready_world 3) as (w' & t & Hs & _ & He & _ & Ht & _);
    try reflexivity; try discriminate.
  by exists w', t.
Defined.
