(* ===== verification/Footprint.v ===== *)
(** * What each task of the exporter may change

    The atomic changes of the exporter's coroutines, classified: [prim q] are the
    changes a task with permission [q] makes. [footprint] shows that every task
    keeps to the permission of its name: the control-plane loop alone writes the
    lease slot, [handle_lease] alone posts [LeaseFinished], events are only set. *)

From stdpp Require Import base list strings.
From Stdlib Require Import ZArith Lia.
From S2P Require Import Prelude Enums Session LeaseContext Coroutine ExporterState Rpc Hooks HandleLease ControlPlane.

Inductive perm :=
| PLease
| PEndSession (lid : nat)
| PServe (lid : nat)
| PHandle (lid : nat)
| PFeed
| PLoop.

Definition can_start (q : perm) (lid : nat) : Prop :=
  match q with PEndSession l | PServe l | PHandle l => l = lid | _ => False end.

Definition is_after_run (o : obs) : bool := match o with OAfterRun _ => true | _ => false end.

(** Changes of the exporter's fields outside the loop leave its lease slot alone. *)
Definition ex_keeps (e e' : Exporter) : Prop :=
  control_tx e' = control_tx e /\ status_drain_active e' = status_drain_active e /\
  standalone e' = standalone e.

Definition slot_keeps (e e' : Exporter) : Prop :=
  slot e' = slot e /\ pending_lease_status e' = pending_lease_status e /\
  last_completed_lease e' = last_completed_lease e.

Inductive prim (q : perm) : World -> World -> Prop :=
| p_id w : prim q w w
| p_observe o w : is_after_run o = false -> prim q w (observe o w)
| p_after_run lid w : can_start q lid -> prim q w (observe (OAfterRun lid) w)
| p_ex f w : (forall e, ex_keeps e (f e) /\ slot_keeps e (f e)) -> prim q w (upd_ex f w)
| p_lc lid f w :
    (forall c, lc_mono c (f c) /\
               after_lease_hook_started (f c) = after_lease_hook_started c /\
               (q <> PLoop -> client_name (f c) = client_name c)) ->
    prim q w (upd_lc lid f w)
| p_start lid w :
    can_start q lid ->
    prim q w (upd_lc lid (fun c => c <| after_lease_hook_started := true |>) w)
| p_cell lid f w : (forall c, ctx (f c) = ctx c) -> prim q w (upd_cell lid f w)
| p_post lid w : q = PHandle lid -> prim q w (post_lease_finished lid w)
| p_feed s w : q = PFeed -> prim q w (w <| control_queue ::= fun l => l ++ [Status s] |>)
| p_loop_ex f w : q = PLoop -> (forall e, ex_keeps e (f e)) -> prim q w (upd_ex f w)
| p_loop_new c w : q = PLoop -> prim q w (w <| leases ::= fun l => l ++ [c] |>)
| p_loop_pop w : q = PLoop -> prim q w (w <| control_queue ::= tail |>)
| p_loop_replay s w : q = PLoop -> prim q w (replay_status s w)
| p_loop_log f w : q = PLoop -> prim q w (w <| log_context ::= f |>).

(** Only the loop starts [handle_lease] and its own next round; a lease's own tasks start its EndSession
    handler. *)
Definition may_spawn (q : perm) (n : task_name) : Prop :=
  match n with
  | THandleLease _ | TRunBeforeLeaseHook _ | TControlLoop => q = PLoop
  | THandleEndSession lid => q = PServe lid \/ q = PHandle lid
  | _ => True
  end.

Create HintDb guar.

Section GuarLemmas.

Context (q : perm).

Abbreviation ok := (guar (prim q) (may_spawn q)).

Lemma ok_ret {A} (a : A) : ok (ret a).
Proof. exact I. Qed.

Lemma ok_raise {A} e : ok (raise e : M A).
Proof. exact I. Qed.

Lemma ok_bind {A B} (m : M A) (k : A -> M B) : ok m -> (forall a, ok (k a)) -> ok (bind m k).
Proof. intros Hm Hk. apply guar_bind; [done |]. intros [e|a]; [exact I | apply Hk]. Qed.

Lemma ok_modify f : (forall w, prim q w (f w)) -> ok (modify f).
Proof. intros Hf w. split; [apply Hf | exact I]. Qed.

Lemma ok_gets {A} (f : World -> A) : ok (gets f).
Proof. intros w. split; [apply p_id | exact I]. Qed.

Lemma ok_spawn n : may_spawn q n -> ok (spawn n).
Proof. intros Hn. split; [done | exact I]. Qed.

Lemma ok_await cond : ok (await cond).
Proof. intros []; exact I. Qed.

Lemma ok_wait_timeout cond : ok (wait_timeout cond).
Proof. intros []; exact I. Qed.

Lemma ok_call r : ok (call r).
Proof. intros []; exact I. Qed.

Lemma ok_sleep ms : ok (sleep ms).
Proof.
  apply ok_bind; [| intros; apply ok_await]. apply ok_modify. intros w. by apply p_observe.
Qed.

Lemma ok_try_except {A} (m : M A) h : ok m -> (forall e, ok (h e)) -> ok (try_except m h).
Proof. intros Hm Hh. apply guar_bind; [done |]. intros [[]|]; try exact I; apply Hh. Qed.

Lemma ok_try_finally {A} (m : M A) fin : ok m -> ok fin -> ok (try_finally m fin).
Proof.
  intros Hm Hf. apply guar_bind; [done |]. intros r. apply guar_bind; [done |].
  intros []; exact I.
Qed.

Lemma ok_when b m : (b = true -> ok m) -> ok (when b m).
Proof. intros Hm. destruct b; [by apply Hm | exact I]. Qed.

Lemma ok_leave {A} (flag : A) m : ok m -> ok (leave flag m).
Proof. intros Hm. apply guar_bind; [done |]. intros []; exact I. Qed.

Lemma ok_try_except_finally {A} (flag0 : A) m h fin :
  ok m -> (forall e, ok (h e)) -> (forall b, ok (fin b)) ->
  ok (try_except_finally flag0 m h fin).
Proof.
  intros Hm Hh Hf. apply guar_bind.
  - apply guar_bind; [done |]. intros []; [apply Hh | exact I].
  - intros [e|[b pe]]; [exact I |]. apply guar_bind; [apply Hf |].
    intros []; [exact I |]. destruct pe; exact I.
Qed.

Lemma ok_shield {A} (p : M A) : ok p -> ok (shield p).
Proof. apply guar_rescope. Qed.

Lemma ok_in_scope {A} c (p : M A) : ok p -> ok (in_scope c p).
Proof. apply guar_rescope. Qed.

(** The changes of a lease context that keep [after_lease_hook_started]. *)
Lemma ok_modify_lc lid f :
  (forall c, lc_mono c (f c) /\
             after_lease_hook_started (f c) = after_lease_hook_started c /\
             (q <> PLoop -> client_name (f c) = client_name c)) ->
  ok (modify (upd_lc lid f)).
Proof. intros Hf. apply ok_modify. intros w. by apply p_lc. Qed.

End GuarLemmas.

#[export] Hint Resolve ok_ret ok_raise ok_gets ok_await ok_wait_timeout ok_call ok_sleep : guar.

(** The proof that a coroutine keeps to a permission follows its text. *)
Ltac lc_change := intros []; repeat split; simpl; auto; discriminate.

Ltac ok_step :=
  match goal with
  | |- guar _ _ (if ?b then _ else _) => destruct b eqn:?
  | |- guar _ _ (match ?x with _ => _ end) => destruct x eqn:?
  | |- guar _ _ (let _ := _ in _) => cbv zeta
  | |- guar _ _ _ => solve [eauto with guar]
  | |- guar _ _ (bind _ _) => apply ok_bind; [| intros]
  | |- guar _ _ (try_except _ _) => apply ok_try_except; [| intros]
  | |- guar _ _ (try_finally _ _) => apply ok_try_finally
  | |- guar _ _ (try_except_finally _ _ _ _) => apply ok_try_except_finally; intros
  | |- guar _ _ (when _ _) => apply ok_when; intros
  | |- guar _ _ (leave _ _) => apply ok_leave
  | |- guar _ _ (shield _) => apply ok_shield
  | |- guar _ _ (in_scope _ _) => apply ok_in_scope
  | |- guar _ _ (spawn _) => apply ok_spawn; simpl; auto
  | |- guar _ _ (modify (upd_lc _ _)) => apply ok_modify_lc; lc_change
  | |- guar _ _ (modify (observe _)) => apply ok_modify; intros; by apply p_observe
  | |- guar _ _ (modify (upd_ex _)) =>
      apply ok_modify; intros; apply p_ex; intros []; by repeat split
  | |- guar _ _ (modify (upd_cell _ _)) =>
      apply ok_modify; intros; apply p_cell; by intros []
  | |- guar _ _ (Ret _) => exact I
  | |- guar _ _ (pbind _ _) => apply guar_bind; [| intros]
  end.

Ltac ok_solve := repeat ok_step.

Section Coroutines.

Context (q : perm).

Abbreviation ok := (guar (prim q) (may_spawn q)).

Lemma ok_retry_rpc_loop r codes n attempt : ok (retry_rpc_loop r codes n attempt).
Proof. revert attempt. induction n as [|n IH]; intros attempt; cbn [retry_rpc_loop]; ok_solve; apply IH. Qed.

Lemma ok_retry_rpc r codes : ok (retry_rpc r codes).
Proof. apply ok_retry_rpc_loop. Qed.
Hint Resolve ok_retry_rpc : guar.

Lemma ok_send_report_status_rpc r : ok (send_report_status_rpc r).
Proof. unfold send_report_status_rpc. ok_solve. Qed.
Hint Resolve ok_send_report_status_rpc : guar.

Lemma ok_lc_update_status st m lid : ok (modify (upd_lc lid (lc_update_status st m))).
Proof.
  apply ok_modify_lc. intros c. split; [apply lc_update_status_mono |].
  unfold lc_update_status. by destruct c as [? ? ? ? ? ? []].
Qed.
Hint Resolve ok_lc_update_status : guar.

Lemma ok_report_status st m : ok (report_status st m).
Proof. unfold report_status. ok_solve. Qed.
Hint Resolve ok_report_status : guar.

Lemma ok_send_compat_release name : ok (send_compat_release name).
Proof. unfold send_compat_release. ok_solve. Qed.
Hint Resolve ok_send_compat_release : guar.

Lemma ok_request_lease_release : ok request_lease_release.
Proof. unfold request_lease_release, release_lease, end_current_lease. ok_solve. Qed.
Hint Resolve ok_request_lease_release : guar.

Lemma ok_drain : ok drain_status_reports.
Proof. unfold drain_status_reports. ok_solve. Qed.

(** *** Hooks *)

Lemma stop_keeps wait unreg code e :
  ex_keeps e (stop wait unreg code e) /\ slot_keeps e (stop wait unreg code e).
Proof. unfold stop. destruct code, e; simpl; split_ifs; by repeat split. Qed.

Lemma ok_exporter_stop wait unreg code : ok (exporter_stop wait unreg code).
Proof. apply ok_modify. intros w. apply p_ex. intros e. apply stop_keeps. Qed.
Hint Resolve ok_exporter_stop : guar.

Lemma ok_upd_session lid f : ok (modify (upd_session lid f)).
Proof.
  apply ok_modify_lc. intros c. destruct c as [? ? ? ? ? ? []]; by repeat split.
Qed.
Hint Resolve ok_upd_session : guar.

Lemma ok_in_log_source {A} lid src (m : M A) : ok m -> ok (in_log_source lid src m).
Proof. intros Hm. unfold in_log_source. ok_solve. Qed.

Context (os : OS).

Lemma ok_execute_hook h lid src : ok (execute_hook os h lid src).
Proof.
  unfold execute_hook, execute_hook_process, append_hook_motd, handle_hook_failure.
  ok_solve; apply ok_in_log_source; ok_solve.
Qed.
Hint Resolve ok_execute_hook : guar.

Lemma ok_wait_for_lease_ready n elapsed lid :
  ok (wait_for_lease_ready_loop report_status n elapsed lid).
Proof.
  revert elapsed. induction n as [|n IH]; intros elapsed;
    cbn [wait_for_lease_ready_loop];
    unfold set_skip_after_lease_hook, set_before_lease_hook; ok_solve; apply IH.
Qed.
Hint Resolve ok_wait_for_lease_ready : guar.

Lemma ok_before_lease_try config lid : ok (before_lease_try os config report_status lid).
Proof.
  unfold before_lease_try, wait_for_lease_ready, set_skip_after_lease_hook. ok_solve.
Qed.
Hint Resolve ok_before_lease_try : guar.

Lemma ok_before_lease_except lid e : ok (before_lease_except report_status exporter_stop lid e).
Proof. unfold before_lease_except, set_skip_after_lease_hook. ok_solve. Qed.
Hint Resolve ok_before_lease_except : guar.

(** The [finally] block after the event is set. *)
Lemma ok_before_release b :
  ok (when b (shield (sleep 1000 >> safe_release_lease (Some request_lease_release)))).
Proof. unfold safe_release_lease. ok_solve. Qed.
Hint Resolve ok_before_release : guar.

Lemma ok_before_hook config lid : ok (exporter_before_hook os config lid).
Proof. unfold exporter_before_hook, run_before_lease_hook, set_before_lease_hook. ok_solve. Qed.
Hint Resolve ok_before_hook : guar.

(** [run_after_lease_hook] after the observation that it was entered. *)
Definition after_hook_rest (config : HookConfigV1Alpha1) (lid : nat) : M unit :=
  try_except_finally false
    (after_lease_try os config report_status lid)
    (after_lease_except report_status exporter_stop)
    (fun shutdown_called =>
       sleep 1000 >>
       when (negb shutdown_called) (try_except request_lease_release (fun _ => ret tt))).

Lemma after_hook_eq config lid :
  exporter_after_hook os config lid =
  (modify (observe (OAfterRun lid)) >> after_hook_rest config lid).
Proof. done. Qed.

Lemma ok_after_hook_rest config lid : ok (after_hook_rest config lid).
Proof. unfold after_hook_rest, after_lease_try, after_lease_except. ok_solve. Qed.
Hint Resolve ok_after_hook_rest : guar.

Lemma ok_after_hook config lid : can_start q lid -> ok (exporter_after_hook os config lid).
Proof.
  intros Hq. rewrite after_hook_eq. ok_solve. apply ok_modify. intros w. by apply p_after_run.
Qed.
Hint Resolve ok_after_hook : guar.

(** *** One lease *)

Context (cfg : ExporterConfig).

Lemma ok_set_started lid : can_start q lid -> ok (set_after_lease_hook_started lid).
Proof. intros Hq. apply ok_modify. intros w. by apply p_start. Qed.
Hint Resolve ok_set_started : guar.

Lemma ok_set_done lid : ok (set_after_lease_hook_done lid).
Proof. unfold set_after_lease_hook_done. ok_solve. Qed.
Hint Resolve ok_set_done : guar.

Lemma ok_set_before lid : ok (set_before_lease_hook lid).
Proof. unfold set_before_lease_hook. ok_solve. Qed.
Hint Resolve ok_set_before : guar.

Lemma ok_set_ended lid : ok (set_lease_ended lid).
Proof. unfold set_lease_ended. ok_solve. Qed.
Hint Resolve ok_set_ended : guar.

Lemma ok_end_session_body lid : can_start q lid -> ok (end_session_body cfg os lid).
Proof. intros Hq. unfold end_session_body. ok_solve. Qed.

Lemma ok_handle_end_session lid : can_start q lid -> ok (handle_end_session cfg os lid).
Proof. intros Hq. unfold handle_end_session, end_session_body. ok_solve. Qed.

Lemma ok_cleanup lid : can_start q lid -> ok (cleanup_after_lease cfg os lid).
Proof. intros Hq. unfold cleanup_after_lease, cleanup_after_before_hook. ok_solve. Qed.
Hint Resolve ok_cleanup : guar.

Lemma ok_skip_stale_lease lid : ok (skip_stale_lease lid).
Proof. unfold skip_stale_lease, set_skip_after_lease_hook. ok_solve. Qed.
Hint Resolve ok_skip_stale_lease : guar.

Lemma ok_attach_session lid main hook : ok (modify (upd_lc lid (attach_session cfg lid main hook))).
Proof. apply ok_modify_lc. intros []. by repeat split. Qed.
Hint Resolve ok_attach_session : guar.

Lemma ok_conn_tg_exit lid r : ok (conn_tg_exit lid r).
Proof.
  unfold conn_tg_exit. ok_solve. intros b. exact I.
Qed.
Hint Resolve ok_conn_tg_exit : guar.

Lemma ok_conn_tg_block lid : ok (conn_tg_block cfg lid).
Proof. unfold conn_tg_block. ok_solve. Qed.
Hint Resolve ok_conn_tg_block : guar.

Lemma ok_conn_child lid m :
  ok m -> guar (prim q) (may_spawn q) (conn_child lid m).
Proof.
  intros Hm. unfold conn_child. apply guar_bind; [by apply ok_in_scope |].
  intros [e|[]]; try exact I; intros w; (split; [| exact I]); apply p_cell;
    intros c; destruct c; simpl; [by destruct e | done].
Qed.

Lemma ok_tg_child {A} (m : M A) : ok m -> guar (prim q) (may_spawn q) (tg_child m).
Proof.
  intros Hm. unfold tg_child. apply guar_bind; [done |].
  intros [[]|]; try exact I; intros w; (split; [| exact I]); apply p_ex; intros [];
    by repeat split.
Qed.

Lemma ok_listen_stream lid n b : ok (listen_stream lid n b).
Proof. unfold listen_stream, retry_stream. ok_solve. Qed.

Lemma ok_wait_for_lease_end lid : ok (wait_for_lease_end lid).
Proof. unfold wait_for_lease_end. ok_solve. Qed.

Lemma ok_process_connections lid b : ok (process_connections lid b).
Proof. unfold process_connections. ok_solve. Qed.

Lemma ok_watchdog lid : ok (lease_finished_watchdog lid).
Proof. unfold lease_finished_watchdog. ok_solve. Qed.

Lemma ok_conn_finally lid : can_start q lid -> ok (conn_finally cfg os lid).
Proof. intros Hq. unfold conn_finally. ok_solve. Qed.

Lemma ok_handle_lease_try lid :
  q = PServe lid \/ q = PHandle lid -> ok (handle_lease_try cfg os lid).
Proof.
  intros Hq. assert (can_start q lid) by (by destruct Hq; subst).
  unfold handle_lease_try, session_for_lease, lease_session. ok_solve.
  by apply ok_conn_finally.
Qed.

Lemma ok_handle_lease lid : q = PHandle lid -> ok (handle_lease cfg os lid).
Proof.
  intros Hq. unfold handle_lease, handle_lease_finally.
  apply ok_try_finally; [by apply ok_handle_lease_try; right |]. ok_solve.
  apply ok_modify. intros w. by apply p_post.
Qed.

Lemma ok_status_stream n b : q = PFeed -> ok (status_stream n b).
Proof.
  intros Hq. unfold status_stream, retry_stream. ok_solve.
  apply ok_modify. intros w. by apply p_feed.
Qed.

(** *** The loop *)

Lemma ok_loop_ex f : q = PLoop -> (forall e, ex_keeps e (f e)) -> ok (modify (upd_ex f)).
Proof. intros Hq Hf. apply ok_modify. intros w. by apply p_loop_ex. Qed.

Lemma ok_check_stop : ok check_stop.
Proof.
  unfold check_stop. ok_solve. apply ok_modify. intros w. apply p_ex. intros e.
  unfold check_stop_requested. destruct (stop_requested e); [apply stop_keeps | by repeat split].
Qed.

Lemma ok_update_client lid n : q = PLoop -> ok (modify (upd_lc lid (update_client n))).
Proof. intros Hq. apply ok_modify_lc. intros []. repeat split; simpl; auto. by intros []. Qed.

Lemma ok_control_loop : q = PLoop -> ok (control_loop cfg).
Proof.
  intros Hq.
  assert (forall c, ok (modify (fun w => w <| leases ::= fun l => l ++ [c] |>))) as Hnew
    by (intros; apply ok_modify; intros; by apply p_loop_new).
  assert (ok (modify (fun w => w <| control_queue ::= tail |>))) as Hpop
    by (apply ok_modify; intros; by apply p_loop_pop).
  assert (forall s, ok (modify (replay_status s))) as Hre
    by (intros; apply ok_modify; intros; by apply p_loop_replay).
  assert (forall kw, ok (set_log_context kw)) as Hlog
    by (intros; apply ok_modify; intros; by apply p_loop_log).
  assert (ok clear_log_context) as Hclr
    by (apply ok_modify; intros w; by apply (p_loop_log _ (fun _ => []))).
  pose proof ok_check_stop as Hstop. pose proof (fun l n => ok_update_client l n Hq) as Hcl.
  unfold control_loop, dispatch, apply_status, on_lease_finished, on_lease_acquired,
    on_lease_update, on_lease_released, on_lease_reassigned.
  ok_solve; apply ok_modify; intros; apply p_loop_ex; try done; intros []; by repeat split.
Qed.

End Coroutines.

(** ** Every task *)

Definition perm_of (n : task_name) : perm :=
  match n with
  | TControlLoop => PLoop
  | TRetryStatus _ _ => PFeed
  | THandleLease lid => PHandle lid
  | THandleEndSession lid => PEndSession lid
  | _ => PLease
  end.

Lemma footprint cfg os n :
  guar (prim (perm_of n)) (may_spawn (perm_of n)) (body cfg os n).
Proof.
  destruct n; cbn [body perm_of].
  - by apply ok_tg_child, ok_control_loop.
  - apply ok_tg_child, ok_drain.
  - by apply ok_tg_child, ok_status_stream.
  - destruct (hook_executor cfg); [apply ok_tg_child, ok_before_hook | exact I].
  - by apply ok_tg_child, ok_handle_lease.
  - by apply ok_tg_child, ok_handle_end_session.
  - apply ok_conn_child, ok_listen_stream.
  - apply ok_conn_child, ok_wait_for_lease_end.
  - apply ok_conn_child, ok_process_connections.
  - intros w. split; [by apply p_observe | exact I].
  - apply ok_tg_child, ok_watchdog.
Qed.

(** ** What no task undoes

    Lease contexts are never dropped, their events only set; the trace grows;
    the channel and the mode of the exporter stay. *)

Definition world_mono (w w' : World) : Prop :=
  length (leases w) <= length (leases w') /\
  (forall lid, lid < length (leases w) -> lc_mono (lc lid w) (lc lid w')) /\
  ex_keeps (ex w) (ex w') /\
  control_closed w' = control_closed w /\
  exists l, trace w' = trace w ++ l.

#[export] Instance world_mono_preorder : PreOrder world_mono.
Proof.
  split.
  - intros w. split_and!; try done. exists []. by rewrite app_nil_r.
  - intros w1 w2 w3 (L1 & C1 & (?&?&?) & D1 & l1 & T1) (L2 & C2 & (?&?&?) & D2 & l2 & T2).
    split; [lia |]. split; [| split; [by repeat split; etrans | split; [congruence |]]].
    + intros lid Hl. etrans; [by apply C1 | apply C2; lia].
    + exists (l1 ++ l2). by rewrite T2, T1, app_assoc.
Qed.

Lemma cell_upd_cell l lid f w :
  cell l (upd_cell lid f w) =
  if bool_decide (l = lid /\ lid < length (leases w)) then f (cell l w) else cell l w.
Proof.
  unfold cell, upd_cell. simpl. case_bool_decide as H.
  - destruct H as [-> H]. rewrite list_lookup_alter_eq.
    destruct (lookup_lt_is_Some_2 _ _ H) as [c ->]. done.
  - destruct (decide (l = lid)) as [->|Hne].
    + rewrite list_lookup_alter_eq, lookup_ge_None_2; [done |]. lia.
    + by rewrite list_lookup_alter_ne.
Qed.

Lemma lc_upd_lc l lid f w :
  lc l (upd_lc lid f w) =
  if bool_decide (l = lid /\ lid < length (leases w)) then f (lc l w) else lc l w.
Proof.
  unfold lc, upd_lc. rewrite cell_upd_cell. by case_bool_decide.
Qed.

Lemma length_upd_cell lid f w : length (leases (upd_cell lid f w)) = length (leases w).
Proof. apply length_alter. Qed.

Lemma world_mono_ex f w : (forall e, ex_keeps e (f e)) -> world_mono w (upd_ex f w).
Proof.
  intros Hf. split; [done |]. split; [done |]. split; [apply Hf |]. split; [done |].
  exists []. by rewrite app_nil_r.
Qed.

Lemma world_mono_queue f w : world_mono w (w <| control_queue ::= f |>).
Proof. split_and!; try done. exists []. by rewrite app_nil_r. Qed.

Lemma world_mono_cell lid f w :
  (forall c, lc_mono (ctx c) (ctx (f c))) -> world_mono w (upd_cell lid f w).
Proof.
  intros Hf. split_and!; try done.
  - by rewrite length_upd_cell.
  - intros l _. unfold lc. rewrite cell_upd_cell. by case_bool_decide.
  - exists []. by rewrite app_nil_r.
Qed.

Lemma prim_mono q w w' : prim q w w' -> world_mono w w'.
Proof.
  destruct 1 as [w|o w _|lid w _|f w Hf|lid f w Hf|lid w _|lid f w Hf|lid w _|s w _|f w _ Hf|c w _|w _|s w _|f w _].
  - done.
  - split_and!; try done. by eexists.
  - split_and!; try done. by eexists.
  - apply world_mono_ex. intros e. apply Hf.
  - apply world_mono_cell. intros c. apply Hf.
  - apply world_mono_cell. intros [c]. simpl. revert c. lc_change.
  - apply world_mono_cell. intros c. by rewrite Hf.
  - unfold post_lease_finished. split_ifs; [apply world_mono_queue | done].
  - apply world_mono_queue.
  - by apply world_mono_ex.
  - split_and!; try done.
    + simpl. rewrite length_app. lia.
    + intros lid Hl. unfold lc, cell. simpl. by rewrite lookup_app_l.
    + exists []. by rewrite app_nil_r.
  - apply world_mono_queue.
  - unfold replay_status. split_ifs; [apply world_mono_queue | done].
  - split_and!; try done. exists []. by rewrite app_nil_r.
Qed.

Lemma body_mono cfg os n : guar world_mono (fun _ => True) (body cfg os n).
Proof. eapply guar_weaken; [apply prim_mono | done | apply footprint]. Qed.

Lemma outside_mono w w' ns : outside w w' ns -> world_mono w w' /\ ns = [].
Proof.
  destruct 1 as [w lid s Hs|w wait unreg code]; (split; [| done]).
  - destruct (EndSession s).1; [| done]. apply world_mono_cell. intros [c]. simpl. revert c. lc_change.
  - apply world_mono_ex. intros e. apply stop_keeps.
Qed.
