(* ===== verification/LeaseMachine.v ===== *)
(** * The lease machine

    What the control-plane loop promises, as a state machine over the lease slot:
    at most one lease, served until it is ended, ended until its handler reports
    back, with one stashed reassignment. [dispatch_run] shows that every
    handler of [ControlPlane.v] runs to its end without suspending or raising and
    takes the step of the machine. *)

From stdpp Require Import base list strings.
From Stdlib Require Import ZArith Lia.
From S2P Require Import Prelude Enums Session LeaseContext Coroutine ExporterState Rpc Hooks HandleLease ControlPlane Footprint.

Module Machine.

Inductive slot_state :=
| Idle
| Serving (lid : nat) (name client : string)
| Ending (lid : nat) (name client : string).

Record machine := mkMachine {
  m_slot : slot_state;
  m_next : nat;
  m_completed : option string;
  m_pending : option StatusResponse
}.

Inductive effect :=
| EAcquire (lid : nat)
| EEnd (lid : nat)
| EReplay (s : StatusResponse)
| EStopRequested
| ECheckStop.

(** A tick of the controller. *)
Definition on_tick (exit_on_end : bool) (st : StatusResponse) (m : machine)
    : machine * list effect :=
  let '(mkMachine s next completed pending) := m in
  let name := st_lease_name st in
  let client := st_client_name st in
  let stop_effect := if exit_on_end then [EStopRequested] else [] in
  match st_leased st, s with
  | true, Idle =>
      if String.eqb name "" || bool_decide (Some name = completed) then (m, [])
      else (mkMachine (Serving next name client) (S next) completed pending, [EAcquire next])
  | true, Serving lid n c =>
      if String.eqb n name then (mkMachine (Serving lid n client) next completed pending, [])
      else (mkMachine (Ending lid n c) next completed (Some st), [EEnd lid])
  | true, Ending lid n c =>
      if String.eqb n name then (mkMachine (Ending lid n client) next completed pending, [])
      else (mkMachine (Ending lid n c) next completed (Some st), [])
  | false, Idle => (mkMachine Idle next None pending, [ECheckStop])
  | false, Serving lid n c =>
      (mkMachine (Ending lid n c) next None pending, stop_effect ++ [EEnd lid])
  | false, Ending lid n c => (mkMachine (Ending lid n c) next None pending, stop_effect)
  end.

Definition owner (s : slot_state) : option (nat * string) :=
  match s with Idle => None | Serving lid n _ | Ending lid n _ => Some (lid, n) end.

(** The handler of a lease reports that it has finished. *)
Definition on_finished (exit_on_end : bool) (lid : nat) (m : machine)
    : machine * list effect :=
  let '(mkMachine s next completed pending) := m in
  match owner s with
  | Some (l, n) =>
      if bool_decide (l = lid) then
        (mkMachine Idle next (Some n) None,
         (if exit_on_end then [EStopRequested] else []) ++
         match pending with Some p => [EReplay p] | None => [] end ++ [ECheckStop])
      else (m, [ECheckStop])
  | None => (m, [ECheckStop])
  end.

Definition step (exit_on_end : bool) (msg : control_msg) (m : machine)
    : machine * list effect :=
  match msg with
  | Status st => on_tick exit_on_end st m
  | LeaseFinished lid => on_finished exit_on_end lid m
  end.

End Machine.

Import Machine.

(** ** What the effects are in the exporter *)

Definition effect_tasks (cfg : ExporterConfig) (e : effect) : list task_name :=
  match e with
  | EAcquire lid =>
      match hook_executor cfg with Some _ => [TRunBeforeLeaseHook lid] | None => [] end ++
      [THandleLease lid]
  | EEnd lid => [TLeaseFinishedWatchdog lid]
  | _ => []
  end.

Definition effect_queue (e : effect) : list control_msg :=
  match e with EReplay s => [Status s] | _ => [] end.

Definition is_stop_requested (e : effect) : bool :=
  match e with EStopRequested => true | _ => false end.

Definition is_check_stop (e : effect) : bool :=
  match e with ECheckStop => true | _ => false end.

(** The machine a world is in. *)
Definition abs_slot (w : World) : slot_state :=
  match slot (ex w) with
  | None => Idle
  | Some lid =>
      let c := lc lid w in
      if lease_ended c then Ending lid (lease_name c) (client_name c)
      else Serving lid (lease_name c) (client_name c)
  end.

Definition abs (w : World) : machine :=
  mkMachine (abs_slot w) (length (leases w)) (last_completed_lease (ex w))
    (pending_lease_status (ex w)).

(** The slot names an existing context and the channel is open. *)
Definition plane_wf (w : World) : Prop :=
  (forall lid, slot (ex w) = Some lid -> lid < length (leases w)) /\
  control_tx (ex w) = true /\ control_closed w = false.

(** What a handler did: the machine's step, the tasks and messages that go with
    its effects, and [stop] acted on when it was asked for. *)
Definition handled (cfg : ExporterConfig) (msg : control_msg) (w : World)
    (w' : World) (ns : list task_name) (break : bool) : Prop :=
  let '(m', effs) := step (exit_on_lease_end cfg) msg (abs w) in
  let stopping := stop_requested (ex w) || existsb is_stop_requested effs in
  abs w' = m' /\
  ns = concat (map (effect_tasks cfg) effs) /\
  control_queue w' = control_queue w ++ concat (map effect_queue effs) /\
  break = existsb is_check_stop effs && stopping /\
  (break = false -> stop_requested (ex w') = stopping) /\
  (break = true -> tg (ex w) = Some false -> tg (ex w') = Some true) /\
  trace w' = trace w /\
  plane_wf w'.

(** ** The handlers, run to their end *)

Section Run.

Context {W Q : Type} {answer : Q -> Type} {N : Type}.

Lemma run_pbind {A B} (p : prog W answer N A) (g : A -> prog W answer N B) w w1 ns1 a :
  run p w = (w1, ns1, Ret a) ->
  run (pbind p g) w =
  let '(w2, ns2, p2) := run (g a) w1 in (w2, ns1 ++ ns2, p2).
Proof.
  revert w ns1. induction p as [b|f k IH|n p IH|c cond k IH|c q k IH];
    intros w ns1; simpl; try done.
  - intros [= -> <- ->]. by destruct (run (g a) w1) as [[]].
  - apply IH.
  - destruct (run p w) as [[w' ns] p''] eqn:E. intros [= -> <- ->].
    erewrite IH by exact E. by destruct (run (g a) w1) as [[]].
Qed.

End Run.

Lemma run_bind {A B} (m : M A) (k : A -> M B) w w1 ns1 a w2 ns2 p2 :
  run m w = (w1, ns1, Ret (inr a)) -> run (k a) w1 = (w2, ns2, p2) ->
  run (bind m k) w = (w2, ns1 ++ ns2, p2).
Proof. intros Hm Hk. unfold bind. erewrite run_pbind by exact Hm. cbn beta iota. by rewrite Hk. Qed.

(** [_check_stop_requested] with the task group running. *)
Lemma check_stop_run w :
  run check_stop w =
  (upd_ex (fun e => fst (check_stop_requested e)) w, [], Ret (inr (stop_requested (ex w)))).
Proof.
  unfold check_stop, check_stop_requested. simpl. by destruct (stop_requested (ex w)).
Qed.

Definition sets_only_stop (e e' : Exporter) : Prop :=
  slot e' = slot e /\ pending_lease_status e' = pending_lease_status e /\
  last_completed_lease e' = last_completed_lease e /\ control_tx e' = control_tx e.

Lemma check_stop_effect e :
  let e' := fst (check_stop_requested e) in
  sets_only_stop e e' /\
  (stop_requested e = false -> stop_requested e' = false) /\
  (stop_requested e = true -> tg e = Some false -> tg e' = Some true).
Proof.
  unfold check_stop_requested, stop, sets_only_stop.
  destruct e as [? ? [] ? [] [[]|]]; simpl; by split_and!.
Qed.

Lemma lc_upd_self lid f w : lid < length (leases w) -> lc lid (upd_lc lid f w) = f (lc lid w).
Proof. intros H. rewrite lc_upd_lc. by rewrite bool_decide_eq_true_2. Qed.

Lemma lc_upd_ex lid f w : lc lid (upd_ex f w) = lc lid w.
Proof. done. Qed.

Lemma lc_log lid f w : lc lid (ExporterState.set_log_context f w) = lc lid w.
Proof. done. Qed.

Lemma lc_new l c w : leases w = l ++ [c] -> lc (length l) w = ctx c.
Proof. intros Hl. unfold lc, cell. by rewrite Hl, lookup_app_r, Nat.sub_diag by lia. Qed.

Lemma length_upd_lc lid f w : length (leases (upd_lc lid f w)) = length (leases w).
Proof. apply length_upd_cell. Qed.

(** Straight-line code, run. *)
Ltac go :=
  cbn [run pbind bind gets modify spawn ret when raise negb fst snd
       set_log_context clear_log_context set_lease_ended on_lease_update
       on_lease_acquired on_lease_released on_lease_reassigned on_lease_finished].

Lemma abs_slot_some w lid c :
  slot (ex w) = Some lid -> lc lid w = c ->
  abs_slot w = if lease_ended c then Ending lid (lease_name c) (client_name c)
               else Serving lid (lease_name c) (client_name c).
Proof. intros Hs Hc. unfold abs_slot. by rewrite Hs, Hc. Qed.

Lemma abs_slot_none w : slot (ex w) = None -> abs_slot w = Idle.
Proof. intros Hs. unfold abs_slot. by rewrite Hs. Qed.

Lemma abs_slot_keep w w' :
  slot (ex w') = slot (ex w) -> leases w' = leases w -> abs_slot w' = abs_slot w.
Proof. intros Hs Hl. unfold abs_slot, lc, cell. by rewrite Hs, Hl. Qed.

(** The end of a branch: nothing is left to run and the worlds are compared. *)
Ltac abs_simpl :=
  simpl; rewrite ?length_alter, ?length_app, ?app_nil_r, ?orb_false_r; simpl.

Ltac branch_done :=
  eexists _, _, _; split; [reflexivity |]; unfold abs, plane_wf; abs_simpl.

Ltac own_context :=
  erewrite abs_slot_some; [| done | repeat first [rewrite lc_log | rewrite lc_upd_ex | rewrite lc_upd_self by (simpl; auto; lia)]; reflexivity];
  simpl.

#[local] Opaque check_stop_requested.

(** The same when [_check_stop_requested] was the last call. *)
Ltac stop_branch :=
  match goal with
  | |- context [check_stop_requested ?e] =>
      destruct (check_stop_effect e) as ((?&?&?&?)&Hrun&?); simpl in *;
      rewrite abs_slot_none by (simpl in *; congruence);
      rewrite ?orb_true_r; split_and!; try congruence; auto;
      try (intros Hf; rewrite Hf; auto); try (intros ? Hf; simpl in *; congruence)
  end.

Lemma tick_idle cfg st w :
  plane_wf w -> st_leased st = true -> slot (ex w) = None ->
  exists w' ns break,
    run (apply_status cfg st) w = (w', ns, Ret (inr break)) /\
    handled cfg (Status st) w w' ns break.
Proof.
  intros (Hslot & Htx & Hclosed) Hl Hs. unfold apply_status, handled, step, abs.
  rewrite (abs_slot_none w) by done. cbn [on_tick]. rewrite Hl. go. rewrite Hs. go.
  destruct (st_lease_name st) as [|a n] eqn:Hn; cbn [truthy String.eqb orb].
  { go. rewrite Hs. go. branch_done. rewrite abs_slot_none by done. by split_and!. }
  rewrite <- Hn. case_bool_decide as Hc; go.
  { branch_done. rewrite abs_slot_none by done. by split_and!. }
  unfold new_lease_context. rewrite Hn. cbn [truthy]. rewrite <- Hn. go.
  destruct (hook_executor cfg) eqn:Hh; go; simpl slot; go;
    (destruct (truthy (st_client_name st)) eqn:?; go; branch_done; rewrite ?Hh;
      (erewrite abs_slot_some; [| done | rewrite ?lc_log, lc_upd_self by (simpl; rewrite length_app; simpl; lia);
        erewrite (lc_new (leases w)) by reflexivity; reflexivity]);
      split_and!; try done; first [by intros ? [= <-]; lia | by simpl; f_equal; lia]).
Qed.

Lemma tick_owned cfg st w lid :
  plane_wf w -> st_leased st = true -> slot (ex w) = Some lid ->
  exists w' ns break,
    run (apply_status cfg st) w = (w', ns, Ret (inr break)) /\
    handled cfg (Status st) w w' ns break.
Proof.
  intros (Hslot & Htx & Hclosed) Hl Hs. unfold apply_status, handled, step, abs.
  pose proof (Hslot _ Hs) as Hlt.
  rewrite (abs_slot_some w lid _ Hs eq_refl).
  go. rewrite Hl. go. rewrite Hs. go.
  destruct (lease_ended (lc lid w)) eqn:He; cbn [on_tick]; rewrite Hl;
    destruct (String.eqb _ _) eqn:Hn; go; rewrite ?lc_upd_ex, ?He, ?Hs; go.
  all: try (unfold when; destruct (truthy _); go).
  all: branch_done; own_context; rewrite ?He; by split_and!.
Qed.

Lemma tick_released cfg st w :
  plane_wf w -> st_leased st = false ->
  exists w' ns break,
    run (apply_status cfg st) w = (w', ns, Ret (inr break)) /\
    handled cfg (Status st) w w' ns break.
Proof.
  intros (Hslot & Htx & Hclosed) Hl. unfold apply_status, handled, step, abs, lease_state.
  destruct (slot (ex w)) as [lid|] eqn:Hs.
  - pose proof (Hslot _ eq_refl) as Hlt. rewrite (abs_slot_some w lid _ Hs eq_refl).
    go. rewrite Hl. go. rewrite Hs. simpl slot. go. rewrite ?Hs. go.
    destruct (exit_on_lease_end cfg); go; rewrite ?lc_upd_ex;
    destruct (lease_ended (lc lid w)) eqn:He; cbn [on_tick]; rewrite Hl; go;
    simpl slot; rewrite ?Hs; go.
    all: branch_done; own_context; rewrite ?He; rewrite ?orb_true_r, ?Hs; by split_and!.
  - rewrite (abs_slot_none w) by done. cbn [on_tick]. rewrite Hl. go.
    rewrite Hs. simpl slot. go. rewrite ?Hs. go. simpl slot. rewrite ?Hs.
    rewrite check_stop_run. branch_done. stop_branch.
Qed.

Lemma finished_case cfg lid w :
  plane_wf w ->
  exists w' ns break,
    run (on_lease_finished cfg lid) w = (w', ns, Ret (inr break)) /\
    handled cfg (LeaseFinished lid) w w' ns break.
Proof.
  intros (Hslot & Htx & Hclosed). unfold handled, step, abs. go.
  destruct (decide (slot (ex w) = Some lid)) as [Hs|Hs].
  - rewrite (abs_slot_some w lid _ Hs eq_refl). rewrite bool_decide_eq_true_2 by done.
    unfold on_finished.
    assert (forall s, owner (if lease_ended (lc lid w) then Ending lid (lease_name (lc lid w)) s
       else Serving lid (lease_name (lc lid w)) s) = Some (lid, lease_name (lc lid w)))
      as -> by (by destruct (lease_ended (lc lid w))).
    rewrite bool_decide_eq_true_2 by done. go.
    destruct (exit_on_lease_end cfg); go; simpl pending_lease_status;
    destruct (pending_lease_status (ex w)) eqn:Hp; go;
    unfold replay_status; simpl control_tx; simpl control_closed; rewrite ?Htx, ?Hclosed; simpl andb; cbn iota;
    rewrite check_stop_run; branch_done.
    all: stop_branch.
  - assert (owner (abs_slot w) = match slot (ex w) with
            | Some l => Some (l, lease_name (lc l w)) | None => None end) as Ho.
    { unfold abs_slot. destruct (slot (ex w)); [| done]. by destruct (lease_ended _). }
    unfold on_finished. rewrite Ho, bool_decide_eq_false_2 by done. go.
    rewrite check_stop_run. branch_done.
    destruct (check_stop_effect (ex w)) as ((Hs'&?&?&?)&?&?).
    rewrite (abs_slot_keep w (upd_ex _ w)) by done.
    destruct (slot (ex w)) as [l|] eqn:Hl;
      [rewrite bool_decide_eq_false_2 by congruence |]; simpl; rewrite orb_false_r, app_nil_r;
      split_and!; try congruence; auto; try (intros Hf; rewrite Hf; by auto).
    intros ? Hf. apply Hslot. congruence.
Qed.

Lemma dispatch_run cfg msg w :
  plane_wf w ->
  exists w' ns break,
    run (dispatch cfg msg) w = (w', ns, Ret (inr break)) /\ handled cfg msg w w' ns break.
Proof.
  intros Hwf. destruct msg as [st|lid]; [| by apply finished_case].
  cbn [dispatch]. destruct (st_leased st) eqn:Hl; [| by apply tick_released].
  destruct (slot (ex w)) eqn:Hs; [by eapply tick_owned | by apply tick_idle].
Qed.
