(* ===== verification/Simulation.v ===== *)
(** * Every interleaving refines the lease machine

    The tasks of the exporter run interleaved in any order, with clients ending
    their sessions and stop requests in between. Each step of that system is a
    step of the machine of [LeaseMachine.v], or none: the loop's messages, and the
    end of a lease that the exporter releases itself. Invariants of the machine,
    by induction on its steps, are then facts about the exporter. *)

From stdpp Require Import base list strings relations.
From Stdlib Require Import ZArith Lia.
From S2P Require Import Prelude Enums Session LeaseContext Coroutine ExporterState Rpc Hooks HandleLease ControlPlane Footprint LeaseMachine.

Import Machine.

(** ** Steps of the machine *)

Inductive machine_step (exit_on_end : bool) : machine -> machine -> Prop :=
| ms_message msg m : machine_step exit_on_end m (fst (step exit_on_end msg m))
| ms_end lid n c next completed pending :
    machine_step exit_on_end
      (mkMachine (Serving lid n c) next completed pending)
      (mkMachine (Ending lid n c) next completed pending).

(** A reassignment is stashed only while a lease is ending; the owner of the slot
    is older than the next context. *)
Definition machine_inv (m : machine) : Prop :=
  match m_slot m with
  | Idle | Serving _ _ _ => m_pending m = None
  | Ending _ _ _ => True
  end /\
  match owner (m_slot m) with Some (lid, _) => lid < m_next m | None => True end.

Lemma step_inv b msg m : machine_inv m -> machine_inv (fst (step b msg m)).
Proof.
  destruct m as [s next completed pending]. unfold machine_inv. simpl. intros [Hp Ho].
  destruct msg as [st|l]; simpl.
  - destruct (st_leased st), s; simpl in *; repeat case_match; simpl in *; simplify_eq; auto.
  - destruct (owner s) as [[l' n]|] eqn:E; [| by simpl; rewrite ?E].
    case_bool_decide; simpl; [done | by rewrite ?E].
Qed.

Lemma machine_invariant b m m' : rtc (machine_step b) m m' -> machine_inv m -> machine_inv m'.
Proof.
  induction 1 as [|m1 m2 m3 Hs _ IH]; [done |]. intros H. apply IH.
  destruct Hs as [msg m|]; [by apply step_inv |]. by destruct H.
Qed.

(** ** Tasks other than the loop *)

Lemma prim_slot q w w' :
  q <> PLoop -> prim q w w' -> slot_keeps (ex w) (ex w') /\ length (leases w') = length (leases w).
Proof.
  intros Hq. destruct 1; try (by split; [repeat split |]); try congruence.
  - split; [apply H | done].
  - split; [by repeat split | apply length_upd_cell].
  - split; [by repeat split | apply length_upd_cell].
  - split; [by repeat split | apply length_upd_cell].
  - unfold post_lease_finished. split_ifs; (split; [by repeat split | done]).
Qed.

(** What such a task may do to a lease context. *)
Lemma prim_lc q w w' lid :
  q <> PLoop -> prim q w w' ->
  lease_name (lc lid w') = lease_name (lc lid w) /\
  client_name (lc lid w') = client_name (lc lid w) /\
  (lease_ended (lc lid w) = true -> lease_ended (lc lid w') = true).
Proof.
  intros Hq. destruct 1 as [w|o w _|l w _|f w Hf|l f w Hf|l w _|l f w Hf|l w _|s w _|f w ? Hf|c w ?|w ?|s w ?|f w ?];
    try (by repeat split); try congruence.
  - rewrite lc_upd_lc. case_bool_decide; [| done].
    destruct (Hf (lc lid w)) as ((?&?&?&?&?&?&?)&?&?). split_and!; auto.
  - rewrite lc_upd_lc. by case_bool_decide.
  - unfold lc. rewrite cell_upd_cell. case_bool_decide; [by rewrite Hf | done].
  - unfold post_lease_finished. by split_ifs.
Qed.

Lemma prim_refines exit_on_end q w w' :
  q <> PLoop -> prim q w w' -> plane_wf w ->
  plane_wf w' /\ rtc (machine_step exit_on_end) (abs w) (abs w').
Proof.
  intros Hq Hp (Hwf & Htx & Hcl).
  destruct (prim_slot q w w' Hq Hp) as ((Hs & Hpend & Hcomp) & Hlen).
  destruct (prim_mono q w w' Hp) as (_ & _ & (Htx' & _) & Hcl' & _).
  split.
  { split; [| split; congruence]. intros lid. rewrite Hs, Hlen. apply Hwf. }
  unfold abs. rewrite Hlen, Hpend, Hcomp. unfold abs_slot. rewrite Hs.
  destruct (slot (ex w)) as [lid|]; [| done].
  destruct (prim_lc q w w' lid Hq Hp) as (-> & -> & He).
  destruct (lease_ended (lc lid w)); [by rewrite He |].
  destruct (lease_ended (lc lid w')); [apply rtc_once, ms_end | done].
Qed.

Lemma prims_refine exit_on_end q w w' :
  q <> PLoop -> rtc (prim q) w w' -> plane_wf w ->
  plane_wf w' /\ rtc (machine_step exit_on_end) (abs w) (abs w').
Proof.
  intros Hq. induction 1 as [|w1 w2 w3 H12 _ IH]; [done |]. intros Hwf.
  destruct (prim_refines exit_on_end q w1 w2 Hq H12 Hwf) as [Hwf2 H].
  destruct (IH Hwf2). split; [done | by etrans].
Qed.

Lemma outside_refines exit_on_end w w' ns :
  outside w w' ns -> plane_wf w ->
  plane_wf w' /\ rtc (machine_step exit_on_end) (abs w) (abs w').
Proof.
  destruct 1 as [w lid s Hs|w wait unreg code].
  - destruct (EndSession s).1 as [l|]; [| done].
    apply (prim_refines _ PLease); [done |]. apply p_lc. lc_change.
  - apply (prim_refines _ PLease); [done |]. apply p_ex. intros e. apply stop_keeps.
Qed.

Section System.

Context (cfg : ExporterConfig) (os : OS).

(** ** The loop *)

Definition pop (w : World) : World := w <| control_queue ::= tail |>.

Lemma loop_resumed w p' :
  plane_wf w -> resume w (body cfg os TControlLoop) p' ->
  (exists w' ns break msg rest,
     control_queue w = msg :: rest /\ handled cfg msg (pop w) w' ns break /\
     run p' w = (w', ns ++ (if break then [] else [TControlLoop]), Ret tt)) \/
  (tg_cancelled w = true /\ p' = Ret tt).
Proof.
  intros Hwf [[Hcond ->] | [Hc ->]]; [left | by right].
  destruct (control_queue w) as [|msg rest] eqn:Hq; [done |].
  assert (plane_wf (pop w)) as Hwf' by exact Hwf.
  destruct (dispatch_run cfg msg (pop w) Hwf') as (w' & ns & b & Hrun & Hh).
  exists w', ns, b, msg, rest. split_and!; [done.. |].
  cbn [run pbind bind control_loop tg_child gets modify]. rewrite Hq.
  cbn [head pbind run]. change (w <| control_queue ::= tail |>) with (pop w).
  assert (run (when (negb b) (spawn TControlLoop)) w' =
          (w', if b then [] else [TControlLoop], Ret (inr tt))) as Hnext by (by destruct b).
  erewrite run_pbind by (eapply run_bind; [exact Hrun | exact Hnext]).
  simpl. by rewrite app_nil_r.
Qed.

(** ** The live tasks: one of the others, or the loop between two messages *)

Definition task_kind (p : prog World answer task_name unit) : Prop :=
  (exists q, q <> PLoop /\ guar (prim q) (may_spawn q) p) \/
  p = start (body cfg os) TControlLoop \/
  p = body cfg os TControlLoop.

Lemma ret_kind : task_kind (Ret tt).
Proof. left. by exists PLease. Qed.

Lemma start_kind n : task_kind (start (body cfg os) n).
Proof.
  assert (n = TControlLoop \/ perm_of n <> PLoop) as [-> | Hn] by (destruct n; auto).
  - by right; left.
  - left. exists (perm_of n). split; [done |]. intros b. apply footprint.
Qed.

Lemma starts_kind ns : Forall task_kind (map (start (body cfg os)) ns).
Proof. induction ns; simpl; constructor; auto using start_kind. Qed.

(** One step of a task that is resumed. *)
Lemma task_refines w p p' w' ns p'' :
  plane_wf w -> task_kind p -> resume w p p' -> run p' w = (w', ns, p'') ->
  plane_wf w' /\ rtc (machine_step (exit_on_lease_end cfg)) (abs w) (abs w') /\ task_kind p''.
Proof.
  intros Hwf [(q & Hq & Hg) | [-> | ->]] Hr Hrun.
  - apply (guar_resume _ _ _ _ _ Hr) in Hg.
    destruct (guar_run _ _ p' w Hg) as (H1 & H2 & _). rewrite Hrun in *. simpl in *.
    destruct (prims_refine (exit_on_lease_end cfg) q w w' Hq H1 Hwf).
    split_and!; [done.. |]. left. by exists q.
  - destruct Hr as [[_ ->] | [? _]]; [| done].
    change (run (body cfg os TControlLoop) w) with (w, @nil task_name, body cfg os TControlLoop) in Hrun.
    simplify_eq. split_and!; [done.. |]. by right; right.
  - destruct (loop_resumed w p' Hwf Hr) as [(w1 & ns1 & b & msg & rest & Hq & Hh & Hrun1) | [_ ->]].
    + rewrite Hrun1 in Hrun. simplify_eq. unfold handled in Hh.
      destruct (step _ msg (abs (pop w))) as [m effs] eqn:Hs.
      destruct Hh as (Habs & _ & _ & _ & _ & _ & _ & Hwf'). split_and!; [done | | apply ret_kind].
      rewrite Habs. apply rtc_once. change (abs (pop w)) with (abs w) in Hs.
      pose proof (ms_message (exit_on_lease_end cfg) msg (abs w)) as Hm. by rewrite Hs in Hm.
    + simpl in Hrun. simplify_eq. split_and!; [done.. | apply ret_kind].
Qed.

Lemma task_kind_mono w p p' w' ns p'' :
  task_kind p -> resume w p p' -> run p' w = (w', ns, p'') -> world_mono w w'.
Proof.
  intros Hk Hr Hrun.
  assert (exists q, guar (prim q) (may_spawn q) p) as [q Hg].
  { destruct Hk as [(q & _ & Hg) | [-> | ->]]; [by exists q | |]; exists PLoop.
    - intros b. apply (footprint cfg os TControlLoop).
    - apply (footprint cfg os TControlLoop). }
  apply (guar_resume _ _ _ _ _ Hr) in Hg.
  destruct (guar_run _ _ p' w Hg) as (H1 & _). rewrite Hrun in H1. simpl in H1. clear -H1.
  induction H1 as [|w1 w2 w3 H _ IH]; [done |]. etrans; [by eapply prim_mono | done].
Qed.

Abbreviation step_of := (sys_step (body cfg os) outside).

Definition plane_ok (c : config) : Prop := plane_wf (world c) /\ Forall task_kind (tasks c).

Lemma step_refines c c' :
  plane_ok c -> step_of c c' ->
  plane_ok c' /\ rtc (machine_step (exit_on_lease_end cfg)) (abs (world c)) (abs (world c')).
Proof.
  intros [Hwf Hts] Hstep.
  destruct Hstep as [w ts1 p ts2 p' w' ns p'' Hr Hrun|w ts w' ns Hout]; simpl in *.
  - apply Forall_app in Hts as [H1 H2]. apply Forall_cons in H2 as [Hp H2].
    destruct (task_refines w p p' w' ns p'' Hwf Hp Hr Hrun) as (Hwf' & Hm & Hp').
    split; [| done]. split; [done |]. simpl.
    apply Forall_app. split; [done |]. constructor; [done |].
    apply Forall_app. split; [done | apply starts_kind].
  - destruct (outside_refines (exit_on_lease_end cfg) w w' ns Hout Hwf).
    split; [| done]. split; [done |]. apply Forall_app. split; [done | apply starts_kind].
Qed.

(** The start of [serve]: a fresh exporter and the tasks of its control plane. *)
Definition serve_world : World := run_control_plane_start new_world.

Abbreviation reachable_of := (reachable (body cfg os) outside serve_world control_plane_tasks).

Lemma reachable_ok c :
  reachable_of c ->
  plane_ok c /\ rtc (machine_step (exit_on_lease_end cfg)) (abs serve_world) (abs (world c)).
Proof.
  induction 1 as [|c c' _ [IH IHm] Hstep].
  - split; [| done]. split; [by split_and! | apply starts_kind].
  - destruct (step_refines c c' IH Hstep). split; [done | by etrans].
Qed.

End System.
