(* ===== verification/Invariants.v ===== *)
(** * Invariants of the running exporter

    Facts about every configuration the exporter can reach, whatever the order in
    which its tasks run: a [LeaseFinished] message is always about the lease in
    the slot, the afterLease hook of a lease runs at most once, a lease that is
    finished has all its events set. Each is a [wp] proof per task, lifted by
    [sys_invariant]. *)

From stdpp Require Import base list strings relations.
From Stdlib Require Import ZArith Lia.
From S2P Require Import Prelude Enums Session LeaseContext Coroutine ExporterState Rpc Hooks HandleLease ControlPlane Footprint LeaseMachine Simulation.

Import Machine.

(** ** A straight-line coroutine *)

Lemma wp_straight {W Q} {answer : Q -> Type} {N A} (J : nat -> W -> Prop) Rely init
    (p : prog W answer N A) (P : A -> nat -> W -> Prop) r w w' ns a :
  run p w = (w', ns, Ret a) -> P a (r + sum_list_with init ns) w' -> wp J Rely init p P r w.
Proof.
  revert r w ns. induction p as [b|f k IH|n p IH|c cond k IH|c q k IH];
    intros r w ns; simpl; try done.
  - intros [= -> <- ->]. by rewrite Nat.add_0_r.
  - apply IH.
  - destruct (run p w) as [[w1 ns1] p1] eqn:E. intros [= -> <- ->]. simpl. intros HP.
    eapply IH; [exact E |]. by rewrite <- Nat.add_assoc.
Qed.

Section Lift.

Context (cfg : ExporterConfig) (os : OS).
Context (J : nat -> World -> Prop) (init : task_name -> nat).
Context (J_wf : forall t w, J t w -> plane_wf w).

(** The loop keeps an invariant that its handlers keep. *)
Context (init_loop : init TControlLoop = 0).
Context (J_handled : forall r w msg rest w' ns break,
  J r w -> control_queue w = msg :: rest -> handled cfg msg (pop w) w' ns break ->
  rtc (prim PLoop) w w' -> J (r + sum_list_with init ns) w').

Lemma wp_loop Rely r w :
  J r w -> wp J Rely init (body cfg os TControlLoop) (fun _ r w => J r w) r w.
Proof.
  intros HJ.
  assert (forall r' w' p', J r' w' -> resume w' (body cfg os TControlLoop) p' ->
    wp J Rely init p' (fun _ r w => J r w) r' w') as Hk.
  { intros r' w' p' HJ' Hr. pose proof (J_wf _ _ HJ') as Hwf.
    destruct (loop_resumed cfg os w' p' Hwf Hr) as
      [(w1 & ns & b & msg & rest & Hq & Hh & Hrun) | [_ ->]]; [| done].
    eapply wp_straight; [exact Hrun |]. rewrite sum_list_with_app.
    assert (sum_list_with init (if b then [] else [TControlLoop]) = 0) as ->
      by (destruct b; simpl; lia).
    rewrite Nat.add_0_r. eapply J_handled; try done.
    pose proof (guar_resume _ _ _ _ _ Hr (footprint cfg os TControlLoop)) as Hg.
    apply (guar_run _ _ _ w') in Hg as [Hg _]. by rewrite Hrun in Hg. }
  exists 0. rewrite Nat.add_0_r. split; [done |].
  intros r' w' _ HJ'. rewrite Nat.add_0_r in HJ'.
  split; intros H; apply Hk; try done; [left | right]; done.
Qed.

End Lift.

(** ** The end of [handle_lease] *)

Definition mark_before (l : nat) (w : World) : World :=
  if before_lease_hook (lc l w) then w
  else upd_lc l (fun c => c <| before_lease_hook := true |>) w.

Definition mark_done (l : nat) (w : World) : World :=
  if after_lease_hook_done (lc l w) then w
  else upd_lc l (fun c => c <| after_lease_hook_done := true |>) w.

Lemma finally_run l w :
  run (handle_lease_finally l) w =
  (post_lease_finished l (mark_done l (mark_before l w)), [], Ret (inr tt)).
Proof.
  unfold handle_lease_finally, mark_done, mark_before, set_before_lease_hook,
    set_after_lease_hook_done. go.
  destruct (before_lease_hook (lc l w)); go; by destruct (after_lease_hook_done _).
Qed.

Lemma mark_before_prim q l w : prim q w (mark_before l w).
Proof. unfold mark_before. destruct (before_lease_hook _); [apply p_id | apply p_lc; lc_change]. Qed.

Lemma mark_done_prim q l w : prim q w (mark_done l w).
Proof. unfold mark_done. destruct (after_lease_hook_done _); [apply p_id | apply p_lc; lc_change]. Qed.

Lemma marked l w :
  l < length (leases w) ->
  let w' := mark_done l (mark_before l w) in
  before_lease_hook (lc l w') = true /\ after_lease_hook_done (lc l w') = true.
Proof.
  intros Hl. simpl.
  assert (before_lease_hook (lc l (mark_before l w)) = true /\
          l < length (leases (mark_before l w))) as [Hb Hl'].
  { unfold mark_before. destruct (before_lease_hook (lc l w)) eqn:Hb; [done |].
    rewrite length_upd_lc. split; [by rewrite lc_upd_self | done]. }
  unfold mark_done. destruct (after_lease_hook_done _) eqn:Hd; [done |].
  by rewrite lc_upd_self.
Qed.

(** ** The slot and its handler

    One token for [handle_lease]: it holds it until it posts [LeaseFinished]. *)

Section Slot.

Context (cfg : ExporterConfig) (os : OS) (lid : nat).

Definition is_finished (m : control_msg) : bool :=
  match m with LeaseFinished l => bool_decide (l = lid) | Status _ => false end.

Definition owns (w : World) : nat := if bool_decide (slot (ex w) = Some lid) then 1 else 0.

Definition J_slot (t : nat) (w : World) : Prop :=
  plane_wf w /\ t + countb is_finished (control_queue w) = owns w.

Definition init_slot (n : task_name) : nat :=
  match n with THandleLease l => if bool_decide (l = lid) then 1 else 0 | _ => 0 end.

Lemma owner_abs w : fst <$> owner (abs_slot w) = slot (ex w).
Proof. unfold abs_slot. destruct (slot (ex w)); [| done]. by destruct (lease_ended _). Qed.

Definition owned (m : machine) : nat :=
  if bool_decide (fst <$> owner (m_slot m) = Some lid) then 1 else 0.

(** A tick creates the handler with the slot's owner and posts no
    [LeaseFinished]. *)
Lemma tick_tokens b st m :
  let '(m', effs) := on_tick b st m in
  sum_list_with init_slot (concat (map (effect_tasks cfg) effs)) + owned m = owned m' /\
  countb is_finished (concat (map effect_queue effs)) = 0.
Proof.
  destruct m as [[|l n c|l n c] next completed pending]; unfold on_tick, owned;
    destruct (st_leased st); simpl.
  - destruct (_ || _); simpl; [by split |].
    destruct (hook_executor cfg); simpl; (split; [| done]);
      repeat case_bool_decide; simplify_eq; lia.
  - by split.
  - destruct (String.eqb _ _); by split.
  - destruct b; by split.
  - destruct (String.eqb _ _); by split.
  - destruct b; by split.
Qed.

Lemma finished_tokens b l m :
  let '(m', effs) := on_finished b l m in
  sum_list_with init_slot (concat (map (effect_tasks cfg) effs)) = 0 /\
  countb is_finished (concat (map effect_queue effs)) = 0 /\
  if bool_decide (fst <$> owner (m_slot m) = Some l) then owned m' = 0 else m' = m.
Proof.
  destruct m as [s next completed pending]. unfold on_finished, owned. simpl.
  destruct (owner s) as [[l' n]|] eqn:Ho; simpl; [| by split_and!].
  case_bool_decide as Hl.
  - subst. rewrite bool_decide_eq_true_2 by done.
    destruct b, pending; simpl; by split_and!.
  - simpl. rewrite bool_decide_eq_false_2 by congruence. by split_and!.
Qed.

Lemma slot_handled r w msg rest w' ns break :
  J_slot r w -> control_queue w = msg :: rest -> handled cfg msg (pop w) w' ns break ->
  J_slot (r + sum_list_with init_slot ns) w'.
Proof.
  unfold J_slot, handled, owns. intros [_ HJ] Hq.
  rewrite <- (owner_abs w), Hq in HJ. rewrite <- (owner_abs w').
  change (abs (pop w)) with (abs w). change (stop_requested (ex (pop w))) with (stop_requested (ex w)).
  destruct (step _ msg _) as [m effs] eqn:Hs.
  intros (Habs & Hns & Hqueue & _ & _ & _ & _ & Hwf). split; [done |].
  simpl in Hqueue. rewrite Hq in Hqueue. simpl in Hqueue. rewrite Hqueue, countb_app, Hns.
  change (abs_slot w') with (m_slot (abs w')). change (abs_slot w) with (m_slot (abs w)) in HJ.
  rewrite Habs. fold (owned m). fold (owned (abs w)) in HJ.
  destruct msg as [st|l]; cbn [step] in Hs; simpl in HJ.
  - pose proof (tick_tokens (exit_on_lease_end cfg) st (abs w)) as Ht. rewrite Hs in Ht. lia.
  - pose proof (finished_tokens (exit_on_lease_end cfg) l (abs w)) as Ht. rewrite Hs in Ht.
    destruct Ht as (Hsum & Hcnt & Hm). rewrite Hsum, Hcnt. clear Hs.
    case_bool_decide as Hown; rewrite Hm; [unfold owned in HJ; rewrite Hown in HJ |];
      repeat case_bool_decide; try congruence; try lia.
    exfalso. unfold owned in HJ. case_bool_decide; [congruence | lia].
Qed.

(** The others leave both sides alone. *)
Lemma slot_prim q t w w' :
  q <> PLoop -> (forall l, q <> PHandle l) -> prim q w w' -> J_slot t w -> J_slot t w'.
Proof.
  intros Hq Hh Hp [Hwf HJ].
  destruct (prim_refines true q w w' Hq Hp Hwf) as [Hwf' _]. split; [done |].
  destruct (prim_slot q w w' Hq Hp) as ((Hs & _) & _). unfold owns. rewrite Hs. fold (owns w).
  rewrite <- HJ. f_equal. destruct Hp; try done; try congruence.
  simpl. rewrite countb_app. simpl. lia.
Qed.

Lemma spawn_no_token q n : q <> PLoop -> may_spawn q n -> init_slot n = 0.
Proof. intros Hq. by destruct n. Qed.

Lemma wp_slot_frame q n s r w (p : prog World answer task_name n) P :
  q <> PLoop -> (forall l, q <> PHandle l) -> guar (prim q) (may_spawn q) p ->
  J_slot (r + s) w -> (forall a r' w', J_slot (r' + s) w' -> P a r' w') ->
  wp J_slot world_mono init_slot p P r w.
Proof.
  intros Hq Hh Hp HJ HP. eapply wp_frame; eauto using spawn_no_token.
  intros t w1 w2. by apply slot_prim.
Qed.

Lemma slot_post l r w :
  J_slot (r + init_slot (THandleLease l)) w -> J_slot r (post_lease_finished l w).
Proof.
  intros [Hwf HJ]. unfold post_lease_finished. destruct Hwf as (Hs & Htx & Hcl).
  rewrite Htx, Hcl. split; [done |]. simpl. rewrite countb_app. simpl.
  unfold owns in *. simpl in *. lia.
Qed.

Lemma wp_handle_lease l r w :
  J_slot (r + init_slot (THandleLease l)) w ->
  wp J_slot world_mono init_slot (body cfg os (THandleLease l)) (fun _ r w => J_slot r w) r w.
Proof.
  intros HJ. apply wp_bind, wp_bind.
  eapply (wp_slot_frame (PServe l)); [done.. | by apply ok_handle_lease_try; left | exact HJ |].
  intros res r' w' HJ'. apply wp_bind.
  eapply wp_straight; [apply finally_run |]. simpl sum_list_with. rewrite Nat.add_0_r.
  assert (J_slot r' (post_lease_finished l (mark_done l (mark_before l w')))) as HJ1.
  { apply slot_post. eapply (slot_prim PLease); [done.. | apply mark_done_prim |].
    eapply (slot_prim PLease); [done.. | apply mark_before_prim | done]. }
  destruct res as [[]|]; simpl; try done; (eapply (slot_prim PLease); [done.. | | exact HJ1]);
    apply p_ex; intros []; by repeat split.
Qed.

Lemma slot_task n r w :
  J_slot (r + init_slot n) w ->
  wp J_slot world_mono init_slot (body cfg os n) (fun _ r w => J_slot r w) r w.
Proof.
  intros HJ.
  assert (n = TControlLoop \/ (exists l, n = THandleLease l) \/
          perm_of n <> PLoop /\ (forall l, perm_of n <> PHandle l) /\ init_slot n = 0)
    as [-> | [[l ->] | (H1 & H2 & H3)]] by (destruct n; naive_solver).
  - apply wp_loop; try done.
    + intros t w1 HJ1. apply HJ1.
    + intros. by eapply slot_handled.
    + simpl in HJ. by rewrite Nat.add_0_r in HJ.
  - by apply wp_handle_lease.
  - eapply (wp_slot_frame (perm_of n)); [done.. | apply footprint | exact HJ |].
    intros a r' w'. by rewrite H3, Nat.add_0_r.
Qed.

Lemma slot_invariant c :
  reachable (body cfg os) outside serve_world control_plane_tasks c ->
  exists t, J_slot t (world c).
Proof.
  intros Hr. eapply (sys_invariant (body cfg os) outside J_slot world_mono init_slot) in Hr;
    [by apply Hr | done | by intros ??? -> | apply body_mono | | apply slot_task | |].
  - intros w w' ns Ho. by apply outside_mono in Ho as [? _].
  - intros t w w' ns HJ Ho. destruct (outside_mono w w' ns Ho) as [_ ->]. simpl.
    rewrite Nat.add_0_r. destruct Ho as [w l s Hs|].
    + destruct (EndSession s).1; [| done]. eapply (slot_prim PLease); [done.. | | done].
      apply p_lc. lc_change.
    + eapply (slot_prim PLease); [done.. | | done]. apply p_ex. intros e. apply stop_keeps.
  - split; [by split_and! | done].
Qed.

End Slot.

(** ** One lease

    Its two handlers hold a token each, which stands for the lease context being
    in the store. *)

Section Lease.

Context (cfg : ExporterConfig) (os : OS) (lid : nat).

Definition is_after_run_of (o : obs) : bool :=
  match o with OAfterRun l => bool_decide (l = lid) | _ => false end.

Definition J_lease (t : nat) (w : World) : Prop :=
  plane_wf w /\
  (0 < t -> lid < length (leases w)) /\
  countb is_after_run_of (trace w) <= Nat.b2n (after_lease_hook_started (lc lid w)) /\
  (0 < countb (is_finished lid) (control_queue w) ->
   before_lease_hook (lc lid w) = true /\ after_lease_hook_done (lc lid w) = true).

Definition init_lease (n : task_name) : nat :=
  match n with
  | THandleLease l | THandleEndSession l => if bool_decide (l = lid) then 1 else 0
  | _ => 0
  end.

(** What no task but these two changes. *)
Definition J_stable (w w' : World) : Prop :=
  world_mono w w' /\
  countb is_after_run_of (trace w') = countb is_after_run_of (trace w) /\
  countb (is_finished lid) (control_queue w') <= countb (is_finished lid) (control_queue w).

#[export] Instance J_stable_preorder : PreOrder J_stable.
Proof.
  split; [intros w; by split_and! |].
  intros w1 w2 w3 (H1 & H2 & H3) (H4 & H5 & H6). split; [by etrans |]. split; [congruence | lia].
Qed.

Lemma prim_stable q w w' : ~ can_start q lid -> prim q w w' -> J_stable w w'.
Proof.
  intros Hq Hp. split; [by eapply prim_mono |].
  destruct Hp as [w|o w Ho|l w Hl|f w Hf|l f w Hf|l w _|l f w Hf|l w Hl|s w _|f w ? Hf|c w ?|w ?|s w ?|f w ?];
    simpl; try (by split); rewrite ?countb_app; simpl; try (split; [done | lia]).
  - split; [| done]. destruct o; simpl in *; try done; lia.
  - split; [| done]. rewrite bool_decide_eq_false_2; [lia |]. by intros ->.
  - unfold post_lease_finished. split_ifs; simpl; [| by split]. split; [done |].
    rewrite countb_app. simpl. rewrite bool_decide_eq_false_2; [lia |].
    intros ->. by subst.
  - split; [done |]. destruct (control_queue w); simpl; lia.
  - unfold replay_status. split_ifs; simpl; [| by split]. split; [done |].
    rewrite countb_app. simpl. lia.
Qed.

Lemma events_valid w : 0 < Nat.b2n (before_lease_hook (lc lid w)) -> lid < length (leases w).
Proof.
  intros H. destruct (decide (lid < length (leases w))); [done |].
  unfold lc, cell in H. rewrite lookup_ge_None_2 in H by lia. simpl in H. lia.
Qed.

Lemma lease_stable t w w' :
  plane_wf w' -> J_stable w w' -> J_lease t w -> J_lease t w'.
Proof.
  intros Hwf (Hm & Ha & Hf) (_ & Hv & Hc & He). pose proof Hm as (Hlen & Hlc & _).
  split; [done |]. split; [intros Ht; specialize (Hv Ht); lia |].
  split.
  - rewrite Ha. destruct (decide (lid < length (leases w))) as [Hl|Hl].
    + destruct (Hlc lid Hl) as (_ & _ & _ & Hs & _).
      destruct (after_lease_hook_started (lc lid w)); simpl in *; [rewrite Hs by done; simpl |]; lia.
    + unfold lc, cell in Hc. rewrite lookup_ge_None_2 in Hc by lia. simpl in Hc. lia.
  - intros Hpos. destruct He as [Hb Hd]; [lia |].
    assert (lid < length (leases w)) as Hl by (apply events_valid; rewrite Hb; simpl; lia).
    destruct (Hlc lid Hl) as (_ & ? & _ & _ & ? & _). auto.
Qed.

Lemma lease_prim q t w w' :
  q <> PLoop -> ~ can_start q lid -> prim q w w' -> J_lease t w -> J_lease t w'.
Proof.
  intros Hq Hs Hp HJ. destruct (prim_refines true q w w' Hq Hp) as [Hwf _]; [apply HJ |].
  eapply lease_stable; [done | by eapply prim_stable | done].
Qed.

Lemma step_tasks_valid b msg m m' effs :
  step b msg m = (m', effs) ->
  0 < sum_list_with init_lease (concat (map (effect_tasks cfg) effs)) -> lid < m_next m'.
Proof.
  intros Hs. destruct m as [s next completed pending]. destruct msg as [st|l]; simpl in Hs.
  - destruct (st_leased st), s; simplify_eq; simpl; try lia;
      repeat case_match; simplify_eq; simpl; try lia.
    clear -cfg. destruct (hook_executor cfg); simpl; case_bool_decide; subst; lia.
  - repeat case_match; simplify_eq; simpl; lia.
Qed.

Lemma lease_handled r w msg rest w' ns break :
  J_lease r w -> control_queue w = msg :: rest -> handled cfg msg (pop w) w' ns break ->
  rtc (prim PLoop) w w' -> J_lease (r + sum_list_with init_lease ns) w'.
Proof.
  intros HJ Hq Hh Hp. unfold handled in Hh.
  destruct (step _ msg _) as [m effs] eqn:Hs.
  destruct Hh as (Habs & Hns & _ & _ & _ & _ & _ & Hwf).
  assert (J_stable w w') as Hst.
  { clear -Hp. induction Hp as [|w1 w2 w3 H _ IH]; [done |].
    etrans; [| exact IH]. apply (prim_stable PLoop); [by intros [] | done]. }
  destruct (lease_stable r w w' Hwf Hst HJ) as (_ & Hv & Hrest).
  split; [done |]. split; [| done]. intros Ht.
  destruct (decide (0 < r)) as [Hr|Hr]; [by apply Hv |].
  apply step_tasks_valid in Hs; [by rewrite <- Habs in Hs |]. rewrite <- Hns. lia.
Qed.

(** *** Coroutines that hold their token throughout *)

Abbreviation wpl := (wp J_lease world_mono init_lease).

Definition keeps {A} (p : prog World answer task_name A) : Prop :=
  forall r w, J_lease (r + 1) w -> wpl p (fun _ r w => J_lease (r + 1) w) r w.

Lemma keeps_pbind {A B} (p : prog World answer task_name A) (g : A -> prog World answer task_name B) :
  keeps p -> (forall a, keeps (g a)) -> keeps (pbind p g).
Proof.
  intros Hp Hg r w HJ. apply wp_bind. eapply wp_mono; [| by apply Hp].
  intros a r' w' HJ'. by apply Hg.
Qed.

Lemma keeps_bind {A B} (m : M A) (k : A -> M B) : keeps m -> (forall a, keeps (k a)) -> keeps (bind m k).
Proof. intros Hm Hk. apply keeps_pbind; [done |]. intros [e|a]; [intros r w HJ; done | apply Hk]. Qed.

Lemma keeps_ret {A} (a : A) : keeps (Ret a).
Proof. intros r w HJ. done. Qed.

Lemma keeps_try_finally {A} (m : M A) fin : keeps m -> keeps fin -> keeps (try_finally m fin).
Proof.
  intros Hm Hf. apply keeps_pbind; [done |]. intros r. apply keeps_pbind; [done |].
  intros []; apply keeps_ret.
Qed.

Lemma keeps_try_except {A} (m : M A) h : keeps m -> (forall e, keeps (h e)) -> keeps (try_except m h).
Proof. intros Hm Hh. apply keeps_pbind; [done |]. intros [[]|]; try apply keeps_ret; apply Hh. Qed.

Lemma keeps_rescope {A} g (p : prog World answer task_name A) :
  (forall c w, g c w = true -> c w = true) -> keeps p -> keeps (rescope g p).
Proof. intros Hg Hp r w HJ. apply wp_rescope; [done |]. by apply Hp. Qed.

(** A coroutine with no claim on this lease. *)
Lemma keeps_quiet {A} (p : prog World answer task_name A) :
  guar (prim PLease) (may_spawn PLease) p -> keeps p.
Proof.
  intros Hp r w HJ. eapply (wp_frame _ _ _ (prim PLease) (may_spawn PLease) 1); try done.
  - intros t w1 w2. apply lease_prim; [done | by intros []].
  - intros [] Hn; try done; simpl in *; try congruence. by destruct Hn.
Qed.

(** *** The claim on the afterLease hook *)

(** The hook may run: it was just claimed and has not run. *)
Definition J_claimed (t : nat) (w : World) : Prop :=
  J_lease t w /\ after_lease_hook_started (lc lid w) = true /\
  countb is_after_run_of (trace w) = 0.

Lemma claim r w :
  J_lease (r + 1) w -> after_lease_hook_started (lc lid w) = false ->
  J_claimed (r + 1) (upd_lc lid (fun c => c <| after_lease_hook_started := true |>) w).
Proof.
  intros (Hwf & Hv & Hc & He) Hs. rewrite Hs in Hc. simpl in Hc.
  assert (lid < length (leases w)) as Hl by (apply Hv; lia).
  unfold J_claimed, J_lease. rewrite lc_upd_self by done. simpl.
  split; [| split; [done | lia]].
  split; [| rewrite length_alter; split; [done | split; [lia | done]]].
  destruct Hwf as (? & ? & ?). split_and!; try done. intros l. simpl. rewrite length_alter. auto.
Qed.

Lemma wp_after_hook config r w :
  J_claimed (r + 1) w ->
  wpl (exporter_after_hook os config lid) (fun _ r w => J_lease (r + 1) w) r w.
Proof.
  intros ((Hwf & Hv & Hc & He) & Hs & Hz). rewrite after_hook_eq. apply wp_bind. simpl.
  eapply keeps_quiet; [apply ok_after_hook_rest |].
  split_and!; try done. simpl. rewrite countb_app, Hz. simpl.
  rewrite bool_decide_eq_true_2 by done. change (lc lid (observe _ w)) with (lc lid w).
  rewrite Hs. simpl. lia.
Qed.

(** Claiming the hook and running it, as both handlers do: the test and the set
    of [after_lease_hook_started] and the entry into the hook have no await in
    between. *)
Lemma keeps_claim {A} (f : World -> A) (waiting : M unit) (after : A -> M unit) :
  keeps waiting ->
  (forall a r w, J_claimed (r + 1) w -> wpl (after a) (fun _ r w => J_lease (r + 1) w) r w) ->
  keeps (let* already := gets (fun w => after_lease_hook_started (lc lid w)) in
         if already then waiting
         else set_after_lease_hook_started lid >> let* a := gets f in after a).
Proof.
  intros Hwait Hafter r w HJ. apply wp_bind. cbn [wp gets].
  destruct (after_lease_hook_started (lc lid w)) eqn:Hs; [by apply Hwait |].
  apply wp_bind. cbn [wp set_after_lease_hook_started modify].
  apply wp_bind. cbn [wp gets]. apply Hafter. by apply claim.
Qed.

Lemma keeps_end_session_body : keeps (end_session_body cfg os lid).
Proof.
  unfold end_session_body. apply keeps_claim; [apply keeps_quiet, ok_await |].
  intros runnable r w HJ. destruct (hook_executor cfg) as [config|].
  - destruct runnable.
    + apply wp_rescope; [done |]. by apply wp_after_hook.
    + eapply keeps_quiet; [apply ok_report_status | apply HJ].
  - eapply keeps_quiet; [apply ok_report_status | apply HJ].
Qed.

Lemma keeps_handle_end_session : keeps (handle_end_session cfg os lid).
Proof.
  unfold handle_end_session. apply keeps_bind; [apply keeps_quiet, ok_await |]. intros _.
  apply keeps_bind; [apply keeps_quiet, ok_gets |]. intros []; [apply keeps_ret |].
  apply keeps_try_finally; [| apply keeps_quiet, ok_set_done].
  apply keeps_try_except; [apply keeps_end_session_body | intros; apply keeps_ret].
Qed.

Lemma keeps_cleanup : keeps (cleanup_after_lease cfg os lid).
Proof.
  unfold cleanup_after_lease. apply keeps_bind; [apply keeps_quiet, ok_wait_timeout |].
  intros in_time. apply keeps_rescope; [done |].
  apply keeps_bind; [apply keeps_quiet, ok_when; intros; apply ok_set_before |]. intros _.
  unfold cleanup_after_before_hook. apply keeps_claim; [apply keeps_quiet, ok_await |].
  intros runnable r w HJ. apply wp_bind.
  apply (wp_mono _ _ _ _ (fun _ r w => J_lease (r + 1) w)).
  - intros [e|[]] r' w' HJ'; [done |]. eapply keeps_quiet; [| exact HJ'].
    apply ok_bind; [apply ok_gets |]. intros []; [exact I | apply ok_set_done].
  - assert (guar (prim PLease) (may_spawn PLease)
      (let* stopping := gets (fun w => stop_requested (ex w)) in
       when (negb stopping) (report_status AVAILABLE "Available for new lease"))) as Hno
      by (apply ok_bind; [apply ok_gets |]; intros; apply ok_when; intros; apply ok_report_status).
    destruct (hook_executor cfg) as [config|]; [destruct runnable |].
    + by apply wp_after_hook.
    + eapply keeps_quiet; [exact Hno | apply HJ].
    + eapply keeps_quiet; [exact Hno | apply HJ].
Qed.

Lemma keeps_spawn_end_session : keeps (spawn (THandleEndSession lid)).
Proof.
  intros r w HJ. simpl. rewrite bool_decide_eq_true_2 by done.
  destruct HJ as (Hwf & Hv & Hrest). split; [done |]. split; [| done]. intros _. apply Hv. lia.
Qed.

Lemma keeps_handle_lease_try : keeps (handle_lease_try cfg os lid).
Proof.
  unfold handle_lease_try, session_for_lease, lease_session.
  apply keeps_bind; [apply keeps_quiet, ok_sleep |]. intros _.
  apply keeps_bind; [apply keeps_quiet, ok_skip_stale_lease |]. intros []; [apply keeps_ret |].
  apply keeps_bind; [apply keeps_quiet, ok_call |]. intros [main hook|m]; [| apply keeps_ret].
  apply keeps_try_finally;
    [| apply keeps_quiet, ok_bind; [apply ok_call | intros; exact I]].
  apply keeps_bind; [apply keeps_quiet, ok_attach_session |]. intros _.
  apply keeps_bind; [apply keeps_quiet, ok_skip_stale_lease |]. intros []; [apply keeps_ret |].
  apply keeps_bind; [apply keeps_spawn_end_session |]. intros _.
  apply keeps_try_finally; [apply keeps_quiet, ok_conn_tg_block |].
  unfold conn_finally. apply keeps_bind; [| intros; apply keeps_cleanup].
  apply keeps_quiet. destruct (hook_executor cfg); [exact I |].
  apply ok_bind; [apply ok_gets |]. intros. apply ok_when. intros. apply ok_set_before.
Qed.

(** *** The tasks *)

Lemma lease_drop t w : J_lease (t + 1) w -> J_lease t w.
Proof. intros (Hwf & Hv & Hrest). split; [done |]. split; [| done]. intros. apply Hv. lia. Qed.

Lemma tg_child_drop {A} (m : M A) r w :
  keeps m -> J_lease (r + 1) w -> wpl (tg_child m) (fun _ r w => J_lease r w) r w.
Proof.
  intros Hm HJ. apply (wp_mono _ _ _ _ (fun _ r w => J_lease (r + 1) w)).
  { intros [] r' w'. apply lease_drop. }
  assert (keeps (tg_child m)) as Hk; [| by apply Hk].
  apply keeps_pbind; [done |]. intros [[]|]; try apply keeps_ret; apply keeps_quiet;
    intros w1; (split; [| exact I]); apply p_ex; intros []; by repeat split.
Qed.

Lemma keeps_finally : keeps (handle_lease_finally lid).
Proof.
  intros r w HJ. eapply wp_straight; [apply finally_run |]. simpl. rewrite Nat.add_0_r.
  pose proof (mark_before_prim PLease lid w) as H1.
  pose proof (mark_done_prim PLease lid (mark_before lid w)) as H2.
  assert (J_lease (r + 1) (mark_done lid (mark_before lid w))) as HJ'.
  { eapply (lease_prim PLease); [done | by intros [] | exact H2 |].
    eapply (lease_prim PLease); [done | by intros [] | exact H1 | done]. }
  destruct HJ as (_ & Hv & _). destruct (marked lid w) as [Hb Hd]; [apply Hv; lia |].
  destruct HJ' as (Hwf & Hv' & Hc & _). unfold post_lease_finished.
  destruct (_ && _); (split; [done |]); split_and!; done.
Qed.

Lemma lease_task n r w :
  J_lease (r + init_lease n) w ->
  wpl (body cfg os n) (fun _ r w => J_lease r w) r w.
Proof.
  intros HJ.
  assert (n = TControlLoop \/ n = THandleLease lid \/ n = THandleEndSession lid \/
          perm_of n <> PLoop /\ ~ can_start (perm_of n) lid /\ init_lease n = 0)
    as [-> | [-> | [-> | (H1 & H2 & H3)]]].
  { destruct n as [| | | |l|l| | | | |]; simpl; auto; 
      try (right; right; right; split_and!; [done | by intros [] | done]);
      (destruct (decide (l = lid)) as [->|Hl]; [auto |]);
      rewrite bool_decide_eq_false_2 by done; right; right; right; by split_and!. }
  - apply wp_loop; try done.
    + intros t w1 HJ1. apply HJ1.
    + intros. by eapply lease_handled.
    + simpl in HJ. by rewrite Nat.add_0_r in HJ.
  - simpl in HJ. rewrite bool_decide_eq_true_2 in HJ by done.
    apply tg_child_drop; [| done].
    apply keeps_try_finally; [apply keeps_handle_lease_try | apply keeps_finally].
  - simpl in HJ. rewrite bool_decide_eq_true_2 in HJ by done.
    apply tg_child_drop; [apply keeps_handle_end_session | done].
  - rewrite H3 in HJ.
    eapply (wp_frame _ _ _ (prim (perm_of n)) (may_spawn (perm_of n)) 0); [| | apply footprint | done |].
    + intros t w1 w2. by apply lease_prim.
    + intros m Hm. destruct m; simpl in *; try done; case_bool_decide; try done; subst;
        exfalso; apply H2; by destruct Hm as [-> | ->].
    + intros a r' w'. by rewrite Nat.add_0_r.
Qed.

Lemma lease_invariant c :
  reachable (body cfg os) outside serve_world control_plane_tasks c ->
  exists t, J_lease t (world c).
Proof.
  intros Hr. eapply (sys_invariant (body cfg os) outside J_lease world_mono init_lease) in Hr;
    [by apply Hr | done | by intros ??? -> | apply body_mono | | apply lease_task | |].
  - intros w w' ns Ho. by apply outside_mono in Ho as [? _].
  - intros t w w' ns HJ Ho. destruct (outside_mono w w' ns Ho) as [_ ->]. simpl.
    rewrite Nat.add_0_r. destruct Ho as [w l s Hs|].
    + destruct (EndSession s).1; [| done].
      eapply (lease_prim PLease); [done | by intros [] | | done]. apply p_lc. lc_change.
    + eapply (lease_prim PLease); [done | by intros [] | | done].
      apply p_ex. intros e. apply stop_keeps.
  - split; [by split_and! |]. split_and!; simpl; try done; lia.
Qed.

End Lease.
