(* ===== verification/ExporterCorrect.v ===== *)
(** * Correctness of the exporter's lease lifecycle

    The theorems about the running exporter: its control plane, the handlers of a
    lease and the hooks, over every interleaving of their tasks. Two concrete
    schedules, run by [exec_from], are the witnesses. *)

From stdpp Require Import base list strings relations.
From Stdlib Require Import ZArith Lia.
From S2P Require Import Prelude Enums Session LeaseContext Coroutine ExporterState Rpc Hooks HandleLease ControlPlane Footprint LeaseMachine Simulation Invariants.

Import Machine.

(** ** Concrete schedules *)

Module Scenario.

Definition os0 : OS := mkOS [("PS1", "$")] (fun _ => false) "python3" (fun _ => inr "/tmp/motd").

Definition hook0 : HookInstanceConfigV1Alpha1 := mkHookInstance None "echo hi" 10 warn.

Definition with_hooks : ExporterConfig :=
  mkExporterConfig "e" None (Some (mkHookConfig (Some hook0) (Some hook0))) false.

Definition without_hooks : ExporterConfig := mkExporterConfig "e" None None false.

Definition leased (name : string) : StatusResponse := mkStatusResponse true name "client" [].
Definition not_leased : StatusResponse := mkStatusResponse false "" "" [].

(** The outside: RPCs and hooks succeed, the status stream sends [s]. *)
Definition outside_answers (s : StatusResponse) : forall q, answer q := fun q =>
  match q with
  | QRpc _ => RpcOk
  | QStream StatusStream => Item s
  | QStream (ListenStream _) => StreamError "closed"
  | QSession => SessionUp "/main" "/hook"
  | QSessionClose => tt
  | QHookProcess _ _ _ _ => (Exited 0, None)
  | QChannel => None
  end.

Abbreviation schedule := (list (choice (W := World) (answer := answer) (N := task_name))).

Abbreviation sends s := (outside_answers s).

(** A lease with both hooks, ended by the controller while the beforeLease hook
    runs, up to the [LeaseFinished] message. *)
Definition one_lease : schedule :=
  [Resume 1; Answer 1 (sends (leased "A")); Resume 3; Answer 3 (sends not_leased); Resume 4;
   Resume 2; Resume 2; Resume 5; Resume 6; Resume 6; Answer 6 (sends not_leased); Resume 5;
   Answer 5 (sends not_leased); Resume 7; Resume 7; Resume 10; Resume 10; Resume 9; Cancel 9;
   Resume 11; Cancel 11; Resume 6; Resume 6; Answer 6 (sends not_leased); Resume 6;
   Answer 6 (sends not_leased)].

(** A lease A, then a reassignment to B, then not leased, with no hooks: up to the
    end of A and the replay. *)
Definition reassigned : schedule :=
  [Resume 1; Answer 1 (sends (leased "A")); Resume 3; Answer 3 (sends (leased "B")); Resume 4;
   Answer 4 (sends not_leased); Resume 5; Resume 2; Resume 2; Resume 7; Resume 7; Resume 9;
   Resume 9].

Definition replayed : schedule :=
  reassigned ++ [Resume 6; Resume 6; Resume 10; Resume 10; Resume 11; Resume 11].

Definition final (cfg : ExporterConfig) (s : schedule) : config :=
  default (Config serve_world []) (exec_from (body cfg os0) serve_world control_plane_tasks s).

(** A schedule that runs reaches its final configuration. *)
Lemma final_reachable cfg s :
  is_some (exec_from (body cfg os0) serve_world control_plane_tasks s) = true ->
  reachable (body cfg os0) outside serve_world control_plane_tasks (final cfg s).
Proof.
  unfold final. destruct (exec_from _ _ _ s) as [c|] eqn:E; [| done]. intros _.
  eapply exec_all_reachable; [apply reach_init | exact E].
Qed.

End Scenario.

(** The [except] clauses of [run_before_lease_hook] hand on what they leave with. *)
Lemma before_except_returns Rely lid e w r w' :
  completes Rely (before_lease_except report_status exporter_stop lid e) w r w' ->
  exists flag pe, r = inr (flag, pe).
Proof.
  assert (forall (m : M unit) b, completes Rely (leave b m) w r w' ->
            exists flag pe, r = inr (flag, pe)) as Hleave.
  { intros m b Hc. apply completes_bind in Hc as (x & w1 & _ & Hc).
    apply completes_ret in Hc as [-> _]. eauto. }
  unfold before_lease_except. destruct e; [destruct (should_shutdown_exporter _) | |]; intros Hc;
    [by eapply Hleave.. |]. apply completes_ret in Hc as [-> _]. eauto.
Qed.

Section Theorems.

Context (cfg : ExporterConfig) (os : OS).

Abbreviation reachable_of := (reachable (body cfg os) outside serve_world control_plane_tasks).

Lemma countb_in lid l :
  In (LeaseFinished lid) l -> 1 <= countb (is_finished lid) l.
Proof. intros Hin. eapply countb_pos; [exact Hin |]. by apply bool_decide_eq_true_2. Qed.

(** C2: the sole-writer argument of [_on_lease_finished]: in every reachable state
    a [LeaseFinished] message in the control channel is about the lease that owns
    the slot, and there is at most one for each lease, so the defensive branch
    (the message's lease is not the current one) is never taken. *)
Theorem finished_is_current c lid :
  reachable_of c ->
  (In (LeaseFinished lid) (control_queue (world c)) -> slot (ex (world c)) = Some lid) /\
  countb (is_finished lid) (control_queue (world c)) <= 1.
Proof.
  intros Hr. destruct (slot_invariant cfg os lid c Hr) as (t & _ & HJ). unfold owns in HJ.
  case_bool_decide as Hs; split; try done; try lia.
  intros Hin. apply countb_in in Hin. lia.
Qed.

(** C3: the afterLease hook of a lease is entered at most once, although the
    EndSession handler and the cleanup of [handle_lease] race for it. *)
Theorem after_hook_once c lid :
  reachable_of c -> countb (is_after_run_of lid) (trace (world c)) <= 1.
Proof.
  intros Hr. destruct (lease_invariant cfg os lid c Hr) as (t & _ & _ & Hc & _).
  destruct (after_lease_hook_started _); simpl in Hc; lia.
Qed.

(** C5: when [LeaseFinished] is posted nobody can be left waiting on the lease:
    its beforeLease event and its afterLease-done event are both set. *)
Theorem finished_events_set c lid :
  reachable_of c -> In (LeaseFinished lid) (control_queue (world c)) ->
  before_lease_hook (lc lid (world c)) = true /\ after_lease_hook_done (lc lid (world c)) = true.
Proof.
  intros Hr Hin. destruct (lease_invariant cfg os lid c Hr) as (t & _ & _ & _ & He).
  apply He. apply countb_in in Hin. lia.
Qed.

(** C1: the control plane refines the lease machine: whatever task or outside event
    runs, the world's abstraction takes steps of the machine, or none. *)
Theorem control_plane_refines c c' :
  reachable_of c -> sys_step (body cfg os) outside c c' ->
  rtc (machine_step (exit_on_lease_end cfg)) (abs (world c)) (abs (world c')).
Proof.
  intros Hr Hs. destruct (reachable_ok cfg os c Hr) as [Hok _].
  by destruct (step_refines cfg os c c' Hok Hs).
Qed.

(** C6: no task but the control-plane loop changes the lease slot, the stashed
    reassignment or the name of the last completed lease. *)
Theorem sole_writer n :
  n <> TControlLoop ->
  guar (fun w w' => slot_keeps (ex w) (ex w')) (fun _ => True) (body cfg os n).
Proof.
  intros Hn. eapply guar_weaken; [| done | apply footprint].
  intros w w' Hp. eapply prim_slot; [| exact Hp]. by destruct n.
Qed.

(** Once set, no event of a lease is ever cleared, its name never changes and
    its context is never dropped, from any reachable state onwards. *)
Lemma events_stay c c' lid :
  reachable_of c -> rtc (sys_step (body cfg os) outside) c c' ->
  lid < length (leases (world c)) -> lc_mono (lc lid (world c)) (lc lid (world c')).
Proof.
  intros Hr Hs Hl. enough (world_mono (world c) (world c')) as (_ & Hm & _) by auto.
  clear Hl. induction Hs as [|c1 c2 c3 H _ IH]; [done |].
  etrans; [| apply IH; by eapply reach_step].
  destruct H as [w ts1 p ts2 p' w' ns p'' Hres Hrun|w ts w' ns Ho]; simpl.
  - destruct (reachable_ok cfg os _ Hr) as [[_ Hts] _]. simpl in Hts.
    apply Forall_app in Hts as [_ Hts]. apply Forall_cons in Hts as [Hk _].
    eapply task_kind_mono; eauto.
  - by apply outside_mono in Ho as [? _].
Qed.

(** C7: a reassignment is only ever stashed while the current lease is ending, so
    the [LeaseFinished] that releases the slot finds it; it is never left behind
    in an idle exporter. *)
Theorem stash_only_while_ending c p :
  reachable_of c -> pending_lease_status (ex (world c)) = Some p ->
  exists lid, slot (ex (world c)) = Some lid /\ lease_ended (lc lid (world c)) = true.
Proof.
  intros Hr Hp. destruct (reachable_ok cfg os c Hr) as [_ Hm].
  apply machine_invariant in Hm as [Hinv _]; [| by split].
  unfold abs in Hinv. simpl in Hinv. unfold abs_slot in Hinv. rewrite Hp in Hinv.
  destruct (slot (ex (world c))) as [lid|]; [| done].
  exists lid. destruct (lease_ended (lc lid (world c))); [done | discriminate].
Qed.

(** C8: [run_before_lease_hook] always ends with the beforeLease event of its lease
    set, whatever the other tasks do meanwhile and wherever it is cancelled, so the
    clients that wait on it are never blocked for good. *)
Theorem before_hook_unblocks config lid w res w' :
  lid < length (leases w) ->
  completes world_mono (exporter_before_hook os config lid) w res w' ->
  before_lease_hook (lc lid w') = true.
Proof.
  intros Hl Hc. unfold exporter_before_hook, run_before_lease_hook, try_except_finally in Hc.
  apply completes_bind in Hc as (r & w1 & H1 & H2).
  apply completes_bind in H1 as (r0 & w0 & Htry & Hex).
  assert (world_mono w w1) as Hm.
  { etrans; (eapply guar_completes; [done | by intros ??? -> | | ]); [| exact Htry | | exact Hex].
    - eapply guar_weaken; [apply (prim_mono PLease) | done | apply ok_before_lease_try].
    - eapply guar_weaken; [apply (prim_mono PLease) | done |].
      destruct r0; [apply ok_before_lease_except | exact I]. }
  assert (exists flag pe, r = inr (flag, pe)) as (flag & pe & ->).
  { destruct r0 as [e|[]]; [by eapply before_except_returns |].
    apply completes_ret in Hex as [-> _]. eauto. }
  destruct Hm as (Hlen & _). apply completes_bind in H2 as (rf & w2 & Hfin & Hend).
  assert (w' = w2) as -> by (destruct rf, pe; by apply completes_ret in Hend as [_ ->]).
  apply completes_bind in Hfin as (ru & w3 & Hset & Hrest).
  inversion Hset; subst; [| done]. simplify_eq. rename select (completes _ (Ret _) _ _ _) into Hs.
  apply completes_ret in Hs as [-> ->].
  apply (guar_completes _ (fun _ => True)) in Hrest;
    [| done | by intros ??? -> |
     eapply guar_weaken; [apply (prim_mono PLease) | done | apply ok_before_release]].
  destruct Hrest as (_ & Hlc & _). destruct (Hlc lid) as (_ & Hb & _).
  - rewrite length_upd_lc. lia.
  - apply Hb. rewrite lc_upd_self by lia. done.
Qed.

(** C4: [handle_lease] hands the slot back on every exit path: however it ends
    (normally, with an error, cancelled), the events of its lease are set and,
    the control channel being open, the last thing it does is to post its
    [LeaseFinished]. *)
Theorem handle_lease_posts lid w res w' :
  lid < length (leases w) -> control_tx (ex w) = true -> control_closed w = false ->
  completes world_mono (handle_lease cfg os lid) w res w' ->
  before_lease_hook (lc lid w') = true /\ after_lease_hook_done (lc lid w') = true /\
  exists q, control_queue w' = q ++ [LeaseFinished lid].
Proof.
  intros Hl Htx Hcl Hc. apply completes_bind in Hc as (r & w1 & Htry & Hfin).
  assert (world_mono w w1) as (Hlen & _ & (Htx1 & _) & Hcl1 & _).
  { eapply guar_completes; [done | by intros ??? -> | | exact Htry].
    eapply guar_weaken; [apply (prim_mono (PServe lid)) | done |].
    by apply ok_handle_lease_try; left. }
  apply completes_bind in Hfin as (rf & w2 & Hfin & Hend).
  assert (w' = w2) as -> by (destruct rf; by apply completes_ret in Hend as [_ ->]).
  pose proof (finally_run lid w1) as Hrun.
  destruct (completes_straight _ _ _ _ _ _ _ _ Hrun Hfin) as [_ ->].
  destruct (marked lid w1) as [Hb Hd]; [lia |].
  destruct (prim_mono PLease _ _ (mark_before_prim PLease lid w1)) as (_ & _ & (E1 & _) & C1 & _).
  destruct (prim_mono PLease _ _ (mark_done_prim PLease lid (mark_before lid w1)))
    as (_ & _ & (E2 & _) & C2 & _).
  unfold post_lease_finished. rewrite E2, E1, Htx1, Htx, C2, C1, Hcl1, Hcl. simpl.
  split_and!; [done.. | by eexists].
Qed.

Lemma await_cancelled cond w e w' :
  completes world_mono (await cond) w (inl e) w' -> e = Cancelled /\ tg_cancelled w' = true.
Proof.
  unfold await. intros Hc. inversion Hc as [| | |p p' v w1 b v' _ Hr Hk]; subst. cbn in Hr.
  destruct Hr as [[Hx ->]|[Hx ->]]; apply completes_ret in Hk as [[=] ->]. by subst.
Qed.

(** C9: EndSession does not leave a client waiting: when [_handle_end_session] ends after an
    EndSession request, by returning, by an exception or by a cancellation at any of its awaits,
    and however the hook went, the afterLease-done event of the lease is set. The one exception
    is a cancellation of the exporter that reaches the handler while it still waits for the
    request, before it has seen it (the cleanup of [handle_lease] then sets the event). *)
Theorem end_session_releases lid w r w' :
  lid < length (leases w) -> end_session_requested (lc lid w) = true ->
  completes world_mono (handle_end_session cfg os lid) w r w' ->
  after_lease_hook_done (lc lid w') = true \/
  r = inl Cancelled /\ tg_cancelled w' = true /\
  completes world_mono (await (fun w => end_session_requested (lc lid w) || lease_ended (lc lid w))) w r w'.
Proof.
  intros Hl He Hc. apply completes_bind in Hc as ([e|[]] & w1 & Hw & Hc).
  { apply completes_ret in Hc as [-> ->]. right.
    destruct (await_cancelled _ _ _ _ Hw) as [-> Ht]. done. }
  left. assert (world_mono w w1) as Hm1.
  { eapply guar_completes; [done | by intros ??? -> | | exact Hw].
    eapply guar_weaken; [apply (prim_mono PLease) | done | apply ok_await]. }
  destruct Hm1 as (Hlen & Hlc & _). destruct (Hlc lid Hl) as (_ & _ & He1 & _).
  specialize (He1 He).
  apply completes_bind in Hc as (b & w2 & Hg & Hc).
  assert (b = inr false /\ w2 = w1) as [-> ->].
  { inversion Hg; subst; [| done]. simplify_eq.
    rename select (completes _ (Ret _) _ _ _) into Hs. apply completes_ret in Hs as [-> ->].
    by rewrite He1, andb_false_r. }
  apply completes_bind in Hc as (rb & w3 & Hbody & Hc).
  assert (world_mono w1 w3) as (Hlen3 & _).
  { eapply guar_completes; [done | by intros ??? -> | | exact Hbody].
    eapply guar_weaken; [apply (prim_mono (PEndSession lid)) | done |].
    apply ok_try_except; [by apply ok_end_session_body | intros; exact I]. }
  apply completes_bind in Hc as (rf & w4 & Hset & Hc).
  assert (run (set_after_lease_hook_done lid) w3 =
    (upd_lc lid (fun c => c <| after_lease_hook_done := true |>) w3, [], Ret (inr tt)))
    as Hrun by reflexivity.
  destruct (completes_straight _ _ _ _ _ _ _ _ Hrun Hset) as [-> ->].
  apply completes_ret in Hc as [_ ->].
  rewrite lc_upd_self by lia. done.
Qed.

End Theorems.

(** ** The theorems on the concrete schedules *)

Import Scenario.

Abbreviation c_finished := (final with_hooks one_lease).

Lemma c_finished_reachable :
  reachable (body with_hooks os0) outside serve_world control_plane_tasks c_finished.
Proof. apply final_reachable. vm_compute. reflexivity. Qed.

Lemma finished_is_current_witness :
  control_queue (world c_finished) = [LeaseFinished 0] /\ slot (ex (world c_finished)) = Some 0.
Proof.
  split; [vm_compute; reflexivity |].
  apply (finished_is_current with_hooks os0 c_finished 0 c_finished_reachable).
  vm_compute. auto.
Defined.

Lemma after_hook_once_witness :
  countb (is_after_run_of 0) (trace (world c_finished)) = 1 /\
  countb (is_after_run_of 0) (trace (world c_finished)) <= 1.
Proof.
  split; [vm_compute; reflexivity |].
  apply (after_hook_once with_hooks os0 c_finished 0 c_finished_reachable).
Defined.

Lemma finished_events_set_witness :
  before_lease_hook (lc 0 (world c_finished)) = true /\
  after_lease_hook_done (lc 0 (world c_finished)) = true.
Proof.
  apply (finished_events_set with_hooks os0 c_finished 0 c_finished_reachable).
  vm_compute. auto.
Defined.

(** The loop takes the message: from ending to idle. *)
Definition c_before_loop : config := final with_hooks (one_lease ++ [Resume 13]).

Definition c_after_loop : config :=
  default c_before_loop (exec_task (body with_hooks os0) (Resume 13) 13 c_before_loop).

Lemma control_plane_refines_witness :
  abs (world c_before_loop) = mkMachine (Ending 0 "A" "client") 1 None None /\
  rtc (machine_step false) (abs (world c_before_loop))
    (mkMachine Idle 1 (Some "A") None).
Proof.
  split; [vm_compute; reflexivity |].
  assert (abs (world c_after_loop) = mkMachine Idle 1 (Some "A"%string) None) as <-
    by (vm_compute; reflexivity).
  apply (control_plane_refines with_hooks os0).
  - apply final_reachable. vm_compute. reflexivity.
  - apply (exec_task_sound _ _ (Resume 13) 13), is_some_default. vm_compute. reflexivity.
Defined.

Lemma sole_writer_witness :
  guar (fun w w' => slot_keeps (ex w) (ex w')) (fun _ => True)
    (body with_hooks os0 (THandleLease 0)).
Proof. apply (sole_writer with_hooks os0). discriminate. Defined.

Lemma stash_only_while_ending_witness :
  pending_lease_status (ex (world (final without_hooks reassigned))) = Some (leased "B") /\
  exists lid, slot (ex (world (final without_hooks reassigned))) = Some lid /\
              lease_ended (lc lid (world (final without_hooks reassigned))) = true.
Proof.
  split; [vm_compute; reflexivity |].
  apply (stash_only_while_ending without_hooks os0 _ (leased "B")).
  - apply final_reachable. vm_compute. reflexivity.
  - vm_compute. reflexivity.
Defined.

(** A world with one lease that has ended before its session came up. *)
Definition one_ended_lease : World :=
  serve_world <| leases := [new_cell (dummy_context <| lease_name := "A" |>
                                        <| lease_ended := true |>
                                        <| end_session_requested := true |>)] |>.

Lemma before_hook_unblocks_witness :
  exists w', completes world_mono
    (exporter_before_hook os0 (mkHookConfig (Some hook0) None) 0) one_ended_lease (inr tt) w' /\
    before_lease_hook (lc 0 w') = true.
Proof.
  eexists. split; [apply run_completes; vm_compute; constructor |].
  eapply (before_hook_unblocks os0 (mkHookConfig (Some hook0) None) 0 one_ended_lease (inr tt));
    [vm_compute; lia |].
  apply run_completes. vm_compute. constructor.
Defined.

Lemma handle_lease_posts_witness :
  exists w', completes world_mono (handle_lease with_hooks os0 0) one_ended_lease (inr tt) w' /\
    exists q, control_queue w' = q ++ [LeaseFinished 0].
Proof.
  assert (exists w', completes world_mono (handle_lease with_hooks os0 0) one_ended_lease
                       (inr tt) w') as [w' Hc].
  { eexists. apply run_completes. eapply c_resume; [reflexivity | left; split; reflexivity |].
    apply run_completes. vm_compute. constructor. }
  exists w'. split; [exact Hc |].
  apply (handle_lease_posts with_hooks os0 0 one_ended_lease (inr tt) w'); try exact Hc;
    [vm_compute; lia | reflexivity | reflexivity].
Defined.

Lemma end_session_releases_witness :
  exists w', completes world_mono (handle_end_session without_hooks os0 0) one_ended_lease
               (inr tt) w' /\ after_lease_hook_done (lc 0 w') = true.
Proof.
  assert (exists w', completes world_mono (handle_end_session without_hooks os0 0)
                       one_ended_lease (inr tt) w') as [w' Hc].
  { eexists. eapply c_resume; [reflexivity | left; split; reflexivity |].
    apply run_completes. vm_compute. constructor. }
  exists w'. split; [exact Hc |].
  destruct (end_session_releases without_hooks os0 0 one_ended_lease (inr tt) w') as [H|[[=] _]];
    [vm_compute; lia | reflexivity | exact Hc | exact H].
Defined.

(** ** A reassignment that outlives its lease *)

(** C38: the stashed reassignment is not dropped by a later not-leased status: the
    controller sends leased A, leased B, not leased; the exporter then finishes A,
    replays the stale B and ends up serving lease B with nothing left to read,
    although the last status it received said that it is not leased. *)
Theorem stale_reassignment :
  let before := final without_hooks reassigned in
  let after := final without_hooks replayed in
  reachable (body without_hooks os0) outside serve_world control_plane_tasks after /\
  (control_queue (world before) = [] /\
   abs (world before) = mkMachine (Ending 0 "A" "client") 1 None (Some (leased "B"))) /\
  (control_queue (world after) = [] /\
   abs (world after) = mkMachine (Serving 1 "B" "client") 2 (Some "A") None).
Proof.
  split; [apply final_reachable; vm_compute; reflexivity |].
  split; (split; [vm_compute; reflexivity | vm_compute; reflexivity]).
Qed.
