(* ===== verification/Standalone.v ===== *)
(** * Registration and standalone serving

    [exporter/exporter.py]: [_register_with_controller] with [_setup_telemetry], the shutdown
    of the runtime sidecar, and [serve_standalone_tcp], which serves one session on a TCP port
    without a controller. The standalone exporter is two tasks of one event loop: its own
    coroutine, here under the name [THandleLease], and the EndSession handler. Starting the
    session with its server is one request, and so is closing it. *)

From stdpp Require Import base list strings relations.
From Stdlib Require Import ZArith Lia Ascii.
From S2P Require Import Prelude PyText Enums Session LeaseContext Coroutine ExporterState Rpc RpcCorrect Hooks HandleLease ControlPlane Footprint LeaseMachine Invariants.

Open Scope list_scope.

(** * Registration *)

(** ** Telemetry *)

(** Python's logging levels. *)
Definition SEVERITY_MAP : list (string * Z) :=
  [("debug", 10); ("info", 20); ("warning", 30); ("error", 40); ("critical", 50)]%Z%string.

Definition severity_to_level (severity : string) : Z :=
  default 20%Z (dict_get (Str.lower severity) SEVERITY_MAP).

Record TelemetryEndpoint := mkTelemetryEndpoint {
  ep_endpoint : string;
  ep_certificate : string;
  ep_min_severity : string
}.

(** How a channel to the telemetry service is secured. *)
Inductive telemetry_channel :=
| WithCertificate (endpoint certificate : string)
| Plaintext (endpoint : string)
| SystemRoots (endpoint : string).

(** [_setup_telemetry]: the channel and the level of the handler. [endpoints] is the answer
    of GetServiceEndpoints, [None] when it failed with an RPC error. *)
Definition setup_telemetry (handler : option (telemetry_channel * Z)) (tls_insecure : bool)
    (environ : list (string * string)) (endpoints : option (list TelemetryEndpoint))
    : option (telemetry_channel * Z) :=
  match handler, endpoints with
  | Some h, _ => Some h
  | None, None | None, Some [] => None
  | None, Some (ep :: _) =>
      let set_to_1 k := bool_decide (dict_get k environ = Some "1"%string) in
      let grpc_insecure := tls_insecure || set_to_1 "JMP_GRPC_INSECURE"%string
                           || set_to_1 "JUMPSTARTER_GRPC_INSECURE"%string in
      Some (if truthy (ep_certificate ep) then WithCertificate (ep_endpoint ep) (ep_certificate ep)
            else if grpc_insecure then Plaintext (ep_endpoint ep)
            else SystemRoots (ep_endpoint ep),
            severity_to_level (ep_min_severity ep))
  end.

(** ** [_register_with_controller] *)

Section Register.

Context {Report : Type}.

Record RegisterRequest := mkRegisterRequest {
  rr_labels : list (string * string);
  rr_reports : list Report
}.

(** [reports] is what the local session answers to GetReport, [register] what the controller
    answers; the status report goes through the exporter's monad. *)
Definition register_with_controller (labels : list (string * string))
    (reports : string + list Report) (register : RegisterRequest -> rpc_result) : M unit :=
  match reports with
  | inl m => raise (PyError m)
  | inr rs =>
      match register (mkRegisterRequest labels rs) with
      | RpcError _ details => raise (PyError details)
      | RpcException m => raise (PyError m)
      | RpcOk =>
          modify (upd_ex (fun e => e <| registered := true |>)) >>
          let* s := gets (fun w => slot (ex w)) in
          match s with
          | None => report_status AVAILABLE "Exporter registered and available"
          | Some _ => ret tt
          end
      end
  end.

End Register.

Arguments RegisterRequest : clear implicits.

(** ** [shutdown_runtime_sidecar] *)

Inductive run_result := RunFailed | RunTimedOut | RunExited (returncode : Z).

(** [Path(sock).parent / name], for a path in normal form. *)
Definition sibling (sock name : string) : string :=
  match Str.rsplit1 "/"%char sock with
  | Some (d, _) => (d ++ "/" ++ name)%string
  | None => name
  end.

Definition DEFAULT_JMP_EXEC : string := "/shared/jumpstarter-exec".

Definition or_else (s : option string) (d : option string) : option string :=
  match s with Some x => if truthy x then Some x else d | None => d end.

(** The command that is run, if any, and the result. *)
Definition shutdown_runtime_sidecar (isfile : string -> bool) (run : list string -> run_result)
    (environ : list (string * string)) (socket_path binary : option string)
    : option (list string) * bool :=
  match or_else socket_path (or_else (dict_get "JUMPSTARTER_LAUNCHER_SOCKET" environ) None) with
  | None => (None, false)
  | Some sock =>
      let exec_bin := default DEFAULT_JMP_EXEC (or_else binary None) in
      let candidate := sibling sock "jumpstarter-exec" in
      let found := if isfile exec_bin then Some exec_bin
                   else if isfile candidate then Some candidate else None in
      match found with
      | None => (None, false)
      | Some b =>
          let cmd := [b; "shutdown"; "--socket"; sock]%string in
          (Some cmd, match run cmd with RunExited c => Z.eqb c 0 | _ => false end)
      end
  end.

(** * Standalone serving *)

Section Serve.

Context (cfg : ExporterConfig) (os : OS).

(** The session is attached to the lease context, with one socket for the hooks. *)
Definition attach_standalone (lid : nat) (hook_path : string) (c : LeaseContext) : LeaseContext :=
  c <| session := Some ((new_session (cfg_exporter_name cfg) (cfg_motd cfg))
                          <| lease_context := Some lid |>) |>
    <| socket_path := hook_path |>
    <| hook_socket_path := hook_path |>.

(** What the body of the task group does before it waits to be cancelled. *)
Definition standalone_body (lid : nat) : M unit :=
  match hook_executor cfg with
  | Some config => exporter_before_hook os config lid
  | None => report_status LEASE_READY "Ready for commands" >> set_before_lease_hook lid
  end >>
  await (fun _ => false).

(** Leaving the task group: it is cancelled, its child is waited for, and its own
    cancellation is swallowed. *)
Definition standalone_exit (lid : nat) (r : exn + unit) : M unit :=
  modify (upd_ex (fun e => e <| tg := Some true |>)) >>
  Wait (fun _ => false) (fun w => (conn_live (cell lid w) =? 0)%nat) (fun _ => Ret (inr tt)) >>
  match r with
  | inl Cancelled | inr _ => ret tt
  | inl e => raise e
  end.

Definition standalone_block (lid : nat) : M unit :=
  modify (upd_ex (fun e => e <| tg := Some false |>)) >>
  modify (upd_cell lid (fun c => c <| conn_live := 1 |>)) >>
  spawn (THandleEndSession lid) >>
  pbind (standalone_body lid) (standalone_exit lid).

(** The body of [async with session.serve_tcp_and_unix_async]. *)
Definition standalone_session (lid : nat) (hook_path : string) : M unit :=
  modify (upd_lc lid (attach_standalone lid hook_path)) >>
  try_finally (standalone_block lid) (cleanup_after_lease cfg os lid).

Definition close_session : M unit := let* _ := shield (call QSessionClose) in ret tt.

(** [serve_standalone_tcp] once the lease context is in the slot. *)
Definition standalone_serving (lid : nat) : M unit :=
  let* up := call QSession in
  match up with
  | SessionFail m => raise (PyError m)
  | SessionUp hook_path _ => try_finally (standalone_session lid hook_path) close_session
  end >>
  modify (upd_ex (fun e => e <| slot := None |> <| tg := None |>)).

Definition serve_standalone_tcp : M unit :=
  modify (upd_ex (fun e => e <| standalone := true |>)) >>
  match new_lease_context "standalone" with
  | None => raise (PyError "LeaseScope requires a non-empty lease_name")
  | Some c =>
      let* lid := gets (fun w => length (leases w)) in
      modify (fun w => w <| leases ::= fun l => l ++ [new_cell c] |>) >>
      modify (upd_ex (fun e => e <| slot := Some lid |>)) >>
      set_log_context [("exporter", cfg_exporter_name cfg); ("lease_id", "standalone")]%string >>
      standalone_serving lid
  end.

(** The child of the task group counts itself out when it ends. *)
Definition standalone_child (lid : nat) (m : M unit) : prog World answer task_name unit :=
  pbind (tg_child m) (fun _ => Atom (upd_cell lid (fun c => c <| conn_live ::= pred |>)) (fun _ => Ret tt)).

Definition standalone_task (n : task_name) : prog World answer task_name unit :=
  match n with
  | THandleLease _ => pbind serve_standalone_tcp (fun _ => Ret tt)
  | THandleEndSession lid => standalone_child lid (handle_end_session cfg os lid)
  | _ => Ret tt
  end.

End Serve.

(** * Theorems *)

(** ** Nothing goes to a controller

    [offline p]: run in standalone mode, the coroutine stays in it, makes no RPC and starts
    only EndSession handlers. *)

Definition is_rpc (o : obs) : bool := match o with ORpc _ => true | _ => false end.
Definition rpcs (t : list obs) : list obs := List.filter is_rpc t.

Definition quiet (w w' : World) : Prop :=
  standalone (ex w') = standalone (ex w) /\ rpcs (trace w') = rpcs (trace w).

Fixpoint offline {A} (p : prog World answer task_name A) : Prop :=
  match p with
  | Ret _ => True
  | Atom f k => forall w, standalone (ex w) = true -> quiet w (f w) /\ offline (k w)
  | Spawn n p' => (exists lid, n = THandleEndSession lid) /\ offline p'
  | Wait _ _ k => forall b, offline (k b)
  | Call _ q k => (forall r, q <> QRpc r) /\ forall a, offline (k a)
  end.

Create HintDb offline.

Lemma offline_pbind {A B} (p : prog World answer task_name A) (g : A -> prog World answer task_name B) :
  offline p -> (forall a, offline (g a)) -> offline (pbind p g).
Proof.
  intros Hp Hg. induction p as [a|f k IH|n p IH|c cond k IH|c q k IH]; cbn [pbind offline] in *.
  - apply Hg.
  - intros w Hw. destruct (Hp w Hw). auto.
  - destruct Hp. auto.
  - auto.
  - destruct Hp. auto.
Qed.

Lemma offline_rescope {A} g (p : prog World answer task_name A) : offline p -> offline (rescope g p).
Proof.
  intros Hp. induction p as [a|f k IH|n p IH|c cond k IH|c q k IH]; cbn [rescope offline] in *; auto.
  - intros w Hw. destruct (Hp w Hw). auto.
  - destruct Hp. auto.
  - destruct Hp. auto.
Qed.

Lemma off_bind {A B} (m : M A) (k : A -> M B) : offline m -> (forall a, offline (k a)) -> offline (bind m k).
Proof. intros Hm Hk. apply offline_pbind; [done |]. intros [e|a]; [exact I | apply Hk]. Qed.

(** Reading the state tells which branch is taken. *)
Lemma off_gets {A B} (f : World -> A) (k : A -> M B) :
  (forall w, standalone (ex w) = true -> offline (k (f w))) -> offline (bind (gets f) k).
Proof. intros Hk w Hw. split; [by split | by apply Hk]. Qed.

Lemma off_modify f : (forall w, quiet w (f w)) -> offline (modify f).
Proof. intros Hf w _. split; [apply Hf | exact I]. Qed.

Lemma off_observe o : is_rpc o = false -> offline (modify (observe o)).
Proof.
  intros Ho. apply off_modify. intros w. split; [done |]. unfold rpcs, observe. cbn.
  rewrite List.filter_app. cbn. rewrite Ho. by rewrite app_nil_r.
Qed.

Lemma off_await cond : offline (await cond).
Proof. intros []; exact I. Qed.

Lemma off_wait_timeout cond : offline (wait_timeout cond).
Proof. intros b. exact I. Qed.

Lemma off_call q : (forall r, q <> QRpc r) -> offline (call q).
Proof. intros Hq. split; [done |]. intros []; exact I. Qed.

Lemma off_sleep ms : offline (sleep ms).
Proof. apply off_bind; [by apply off_observe | intros; apply off_await]. Qed.

Lemma off_try_except {A} (m : M A) h : offline m -> (forall e, offline (h e)) -> offline (try_except m h).
Proof. intros Hm Hh. apply offline_pbind; [done |]. intros [[]|]; try exact I; apply Hh. Qed.

Lemma off_try_finally {A} (m : M A) fin : offline m -> offline fin -> offline (try_finally m fin).
Proof.
  intros Hm Hf. apply offline_pbind; [done |]. intros r. apply offline_pbind; [done |].
  intros []; exact I.
Qed.

Lemma off_try_except_finally {A} (flag0 : A) m h fin :
  offline m -> (forall e, offline (h e)) -> (forall b, offline (fin b)) ->
  offline (try_except_finally flag0 m h fin).
Proof.
  intros Hm Hh Hf. apply offline_pbind.
  - apply offline_pbind; [done |]. intros []; [apply Hh | exact I].
  - intros [e|[b pe]]; [exact I |]. apply offline_pbind; [apply Hf |].
    intros []; [exact I |]. destruct pe; exact I.
Qed.

Lemma off_leave {A} (flag : A) m : offline m -> offline (leave flag m).
Proof. intros Hm. apply offline_pbind; [done |]. intros []; exact I. Qed.

#[export] Hint Resolve off_await off_wait_timeout off_sleep : offline.

(** The proof follows the text of a coroutine; a read of the mode rules out the branch that
    talks to the controller. *)
Ltac off_step :=
  match goal with
  | |- offline (if standalone (ex ?w) then _ else _) =>
      match goal with H : standalone (ex w) = true |- _ => rewrite H end
  | |- offline (if ?b then _ else _) => destruct b
  | |- offline (match ?x with _ => _ end) => destruct x
  | |- offline (Ret _) => exact I
  | |- offline (ret _) => exact I
  | |- offline (raise _) => exact I
  | |- offline _ => solve [eauto with offline]
  | |- offline (bind (gets _) _) => apply off_gets; intros
  | |- offline (bind _ _) => apply off_bind; [| intros]
  | |- offline (try_except _ _) => apply off_try_except; [| intros]
  | |- offline (try_finally _ _) => apply off_try_finally
  | |- offline (try_except_finally _ _ _ _) => apply off_try_except_finally; intros
  | |- offline (leave _ _) => apply off_leave
  | |- offline (when ?b _) => destruct b; cbn [when]
  | |- offline (shield _) => apply offline_rescope
  | |- offline (in_scope _ _) => apply offline_rescope
  | |- offline (call _) => apply off_call; discriminate
  | |- offline (modify (observe _)) => by apply off_observe
  | |- offline (modify _) => apply off_modify; intros; by split
  | |- offline (pbind _ _) => apply offline_pbind; [| intros]
  end.

Ltac off_solve := repeat off_step.

Lemma stop_standalone wait unreg code e : standalone (stop wait unreg code e) = standalone e.
Proof. unfold stop. destruct code, e; cbn; split_ifs; done. Qed.

Lemma off_report_status st m : offline (report_status st m).
Proof. unfold report_status. off_solve. Qed.
#[local] Hint Resolve off_report_status : offline.

Lemma off_request_lease_release : offline request_lease_release.
Proof. unfold request_lease_release. off_solve. Qed.
#[local] Hint Resolve off_request_lease_release : offline.

Lemma off_exporter_stop wait unreg code : offline (exporter_stop wait unreg code).
Proof. apply off_modify. intros w. split; [apply stop_standalone | done]. Qed.
#[local] Hint Resolve off_exporter_stop : offline.

(** The setters of a lease context's events. *)
Lemma off_set_started lid : offline (set_after_lease_hook_started lid).
Proof. unfold set_after_lease_hook_started. off_solve. Qed.

Lemma off_set_done lid : offline (set_after_lease_hook_done lid).
Proof. unfold set_after_lease_hook_done. off_solve. Qed.

Lemma off_set_before lid : offline (set_before_lease_hook lid).
Proof. unfold set_before_lease_hook. off_solve. Qed.
#[local] Hint Resolve off_set_started off_set_done off_set_before : offline.

Section Offline.

Context (cfg : ExporterConfig) (os : OS).

Lemma off_execute_hook h lid src : offline (execute_hook os h lid src).
Proof.
  unfold execute_hook, execute_hook_process, append_hook_motd, handle_hook_failure, in_log_source.
  off_solve.
Qed.
#[local] Hint Resolve off_execute_hook : offline.

Lemma off_wait_for_lease_ready n elapsed lid : offline (wait_for_lease_ready_loop report_status n elapsed lid).
Proof.
  revert elapsed. induction n as [|n IH]; intros elapsed; cbn [wait_for_lease_ready_loop];
    unfold set_skip_after_lease_hook, set_before_lease_hook; off_solve; apply IH.
Qed.
#[local] Hint Resolve off_wait_for_lease_ready : offline.

Lemma off_before_hook config lid : offline (exporter_before_hook os config lid).
Proof.
  unfold exporter_before_hook, run_before_lease_hook, before_lease_try, before_lease_except,
    wait_for_lease_ready, set_skip_after_lease_hook, set_before_lease_hook, safe_release_lease.
  off_solve.
Qed.
#[local] Hint Resolve off_before_hook : offline.

Lemma off_after_hook config lid : offline (exporter_after_hook os config lid).
Proof.
  unfold exporter_after_hook, run_after_lease_hook, after_lease_try, after_lease_except. off_solve.
Qed.
#[local] Hint Resolve off_after_hook : offline.

Lemma off_cleanup lid : offline (cleanup_after_lease cfg os lid).
Proof. unfold cleanup_after_lease, cleanup_after_before_hook. off_solve. Qed.
#[local] Hint Resolve off_cleanup : offline.

Lemma off_end_session lid : offline (standalone_child lid (handle_end_session cfg os lid)).
Proof.
  unfold standalone_child, tg_child, handle_end_session, end_session_body. off_solve; intros w _; by repeat split.
Qed.

Lemma off_serving lid : offline (standalone_serving cfg os lid).
Proof.
  unfold standalone_serving, standalone_session, standalone_block, standalone_exit, standalone_body,
    close_session, set_before_lease_hook. off_solve.
  - split; [by eexists | exact I].
  - intros b. exact I.
Qed.

(** Running an offline coroutine to its next await. *)
Lemma offline_run {A} (p : prog World answer task_name A) w w' ns p' :
  offline p -> standalone (ex w) = true -> run p w = (w', ns, p') ->
  quiet w w' /\ offline p' /\ Forall (fun n => exists lid, n = THandleEndSession lid) ns.
Proof.
  revert w w' ns p'. induction p as [a|f k IH|n p IH|c cond k IH|c q k IH]; intros w w' ns p' Hp Hw; cbn [run];
    try (intros [= <- <- <-]; split_and!; [by split | done | constructor]).
  - intros Hr. destruct (Hp w Hw) as [[H1 H2] H3].
    destruct (IH w (f w) w' ns p' H3 ltac:(congruence) Hr) as ([H4 H5] & H6 & H7).
    split_and!; try done. split; congruence.
  - destruct (run p w) as [[w1 ns1] p1] eqn:Er. intros [= <- <- <-]. destruct Hp as [Hn Hp].
    destruct (IH w w1 ns1 p1 Hp Hw Er) as (H1 & H2 & H3). split_and!; try done. by constructor.
Qed.

Lemma offline_resume w (p p' : prog World answer task_name unit) : offline p -> resume w p p' -> offline p'.
Proof.
  destruct p; cbn; try done.
  - intros H [[_ ->]|[_ ->]]; apply H.
  - intros [_ H] [[a ->]|[_ ->]]; apply H.
Qed.

Lemma offline_start lid : offline (start (standalone_task cfg os) (THandleEndSession lid)).
Proof. intros b. apply off_end_session. Qed.

(** Before the exporter's own coroutine runs, and from then on. *)
Definition offline_config (l : nat) (c : config) : Prop :=
  rpcs (trace (world c)) = [] /\
  (tasks c = [start (standalone_task cfg os) (THandleLease l)] \/
   standalone (ex (world c)) = true /\ Forall offline (tasks c)).

Lemma outside_quiet w w' ns : outside w w' ns -> quiet w w' /\ ns = [].
Proof.
  destruct 1 as [w lid s Hs|w wait unreg code]; (split; [| done]).
  - by destruct (EndSession s).1.
  - split; [apply stop_standalone | done].
Qed.

(** The first run of the exporter's coroutine, up to the start of its session. *)
Lemma serve_start w :
  exists w1 p1, run (standalone_task cfg os (THandleLease 0)) w = (w1, [], p1) /\
    standalone (ex w1) = true /\ trace w1 = trace w /\ offline p1.
Proof.
  eexists _, _. split; [reflexivity |]. split; [done |]. split; [done |].
  refine (conj _ _); [discriminate |]. intros a.
  pose proof (off_serving (length (leases w))) as [_ H]. apply offline_pbind; [apply (H a) | intros; exact I].
Qed.

Lemma offline_config_step l c c' :
  sys_step (standalone_task cfg os) outside c c' -> offline_config l c -> offline_config l c'.
Proof.
  intros Hs [Ht Hc]. destruct Hs as [w ts1 p ts2 p' w' ns p'' Hres Hrun|w ts w' ns Ho]; cbn [world tasks] in *.
  - destruct Hc as [Hc|[Hw Hts]].
    + destruct ts1 as [|x ts1]; [| by destruct ts1]. cbn in Hc. injection Hc as -> ->.
      destruct Hres as [[_ ->]|[? _]]; [| done].
      destruct (serve_start w) as (w1 & p1 & H1 & H2 & H3 & H4).
      change (run (standalone_task cfg os (THandleLease 0)) w = (w', ns, p'')) in Hrun.
      rewrite H1 in Hrun. injection Hrun as <- <- <-. cbn. split; [by rewrite <- H3 in Ht |].
      right. split; [done |]. by constructor.
    + apply Forall_app in Hts as [Hts1 Hts2]. apply Forall_cons in Hts2 as [Hp Hts2].
      pose proof (offline_resume _ _ _ Hp Hres) as Hp'.
      destruct (offline_run _ _ _ _ _ Hp' Hw Hrun) as ([H1 H2] & H3 & H4). split; [cbn; congruence |].
      right. split; [cbn; congruence |]. cbn. apply Forall_app. split; [done |]. constructor; [done |].
      apply Forall_app. split; [done |]. apply Forall_map. eapply Forall_impl; [exact H4 |].
      intros n [lid ->]. apply offline_start.
  - apply outside_quiet in Ho as [[H1 H2] ->]. cbn. rewrite app_nil_r. split; [cbn; congruence |].
    destruct Hc as [Hc|[Hw Hts]]; [by left | right]. split; [cbn; congruence | done].
Qed.

(** A standalone exporter never talks to a controller: in every state it can reach, with
    any hooks and whatever clients and signals do, no RPC has been sent and no task waits for
    the answer of one. *)
Theorem standalone_offline w l c :
  trace w = [] -> reachable (standalone_task cfg os) outside w [THandleLease l] c ->
  rpcs (trace (world c)) = [] /\
  Forall (fun p => forall s r k, p <> Call s (QRpc r) k) (tasks c).
Proof.
  intros Hw Hr. assert (offline_config l c) as [Ht Hc].
  { induction Hr as [|c c' _ IH Hs]; [| by eapply offline_config_step].
    split; [cbn; by rewrite Hw | by left]. }
  split; [done |]. destruct Hc as [-> |[_ Hts]].
  - by constructor.
  - eapply Forall_impl; [exact Hts |]. intros p Hp s r k ->. by destruct Hp as [Hp _]; eapply Hp.
Qed.

End Offline.

(** ** The end of standalone serving *)

Lemma completes_atom {A} Rely f (k : World -> prog World answer task_name A) w a w' :
  completes Rely (Atom f k) w a w' -> completes Rely (k w) (f w) a w'.
Proof. inversion 1; by simplify_eq. Qed.

Lemma completes_rescope_bind {A B} Rely g (p : prog World answer task_name A)
    (k : A -> prog World answer task_name B) w b w' :
  completes Rely (rescope g (pbind p k)) w b w' ->
  exists a w1, completes Rely (rescope g p) w a w1 /\ completes Rely (rescope g (k a)) w1 b w'.
Proof.
  remember (rescope g (pbind p k)) as pg eqn:E. intros Hc. revert p E.
  induction Hc as [b w|f h w b w' Hc IH|n q w b w' Hc IH|q q' w w1 b w' HR Hr Hc IH]; intros p E.
  - destruct p; simplify_eq/=. exists a, w. split; [constructor |]. rewrite <- E. constructor.
  - destruct p as [a|f' k'| | |]; simplify_eq/=.
    + exists a, w. split; [constructor |]. rewrite <- E. by constructor.
    + destruct (IH _ eq_refl) as (a & w1 & H1 & H2). exists a, w1. by split; [constructor |].
  - destruct p as [a| |n' p'| |]; simplify_eq/=.
    + exists a, w. split; [constructor |]. rewrite <- E. by constructor.
    + destruct (IH _ eq_refl) as (a & w1 & H1 & H2). exists a, w1. by split; [constructor |].
  - destruct p as [a| | |c cond h|c r h]; simplify_eq/=; try done.
    + exists a, w. split; [constructor |]. by eapply c_resume.
    + destruct Hr as [[Hx ->] | [Hx ->]];
        destruct (IH _ eq_refl) as (a & w2 & H1 & H2); exists a, w2;
        (split; [eapply c_resume; [exact HR | | exact H1]; simpl; auto | done]).
    + destruct Hr as [[x ->] | [Hx ->]];
        destruct (IH _ eq_refl) as (a & w2 & H1 & H2); exists a, w2;
        (split; [eapply c_resume; [exact HR | | exact H1]; simpl; eauto | done]).
Qed.

Lemma mono_completes {A} q (m : M A) w a w' :
  guar (prim q) (may_spawn q) m -> completes world_mono m w a w' -> world_mono w w'.
Proof.
  intros Hg Hc. eapply guar_completes; [done | by intros ??? -> | | exact Hc].
  eapply guar_weaken; [apply prim_mono | done | exact Hg].
Qed.

Lemma lc_mono_at w w' lid : world_mono w w' -> lid < length (leases w) -> lc_mono (lc lid w) (lc lid w').
Proof. intros (_ & H & _). apply H. Qed.

Section Ends.

Context (cfg : ExporterConfig) (os : OS).

(** After the wait for the beforeLease hook, under the shield. *)
Lemma cleanup_rest_done lid w w' :
  lid < length (leases w) ->
  completes world_mono (shield (cleanup_after_before_hook cfg os lid)) w (inr tt) w' ->
  after_lease_hook_done (lc lid w') = true.
Proof.
  intros Hl Hc. apply completes_rescope_bind in Hc as (r & w1 & H1 & H2).
  apply completes_atom, completes_ret in H1 as [-> ->].
  destruct (after_lease_hook_started (lc lid w)).
  - inversion H2 as [| | |p p' wa wb a wc Hrel Hres Hcc]; subst.
    destruct Hres as [[Hd ->]|[? _]]; [| done]. by apply completes_ret in Hcc as [_ ->].
  - apply completes_rescope_bind in H2 as (r & w1 & H1 & H2).
    assert (world_mono w w1) as Hm1.
    { eapply (mono_completes (PServe lid)); [| exact H1]. apply ok_shield. by apply ok_set_started. }
    destruct r as [e|[]]; [by apply completes_ret in H2 as [? _] |].
    apply completes_rescope_bind in H2 as (r & w2 & H3 & H2).
    apply completes_atom, completes_ret in H3 as [-> ->].
    apply completes_rescope_bind in H2 as (r & w3 & H3 & H2).
    assert (world_mono w1 w3) as Hm3.
    { eapply (mono_completes (PServe lid)); [| exact H3]. apply ok_shield.
      ok_solve; [by apply ok_after_hook | apply ok_report_status ..]. }
    destruct r as [e|[]]; [by apply completes_ret in H2 as [? _] |].
    apply completes_rescope_bind in H2 as (r & w4 & H4 & H2).
    apply completes_atom, completes_ret in H4 as [-> ->].
    destruct Hm1 as (L1 & _), Hm3 as (L3 & _).
    destruct (after_lease_hook_done (lc lid w3)) eqn:Ed; cbn [negb when] in H2.
    + by apply completes_ret in H2 as [_ ->].
    + apply completes_atom, completes_ret in H2 as [_ ->]. by rewrite lc_upd_self by lia.
Qed.

Lemma cleanup_done lid w w' :
  lid < length (leases w) -> completes world_mono (cleanup_after_lease cfg os lid) w (inr tt) w' ->
  before_lease_hook (lc lid w') = true /\ after_lease_hook_done (lc lid w') = true.
Proof.
  intros Hl Hc. apply completes_bind in Hc as (r & w1 & H1 & H2).
  assert (world_mono w w1 /\ (r = inr false \/ r = inr true /\ before_lease_hook (lc lid w1) = true)) as [Hm1 Hr].
  { inversion H1 as [| | |p p' wa wb a wc Hrel Hres Hcc]; subst.
    destruct Hres as [[Hb ->]|[_ ->]]; apply completes_ret in Hcc as [-> ->]; eauto. }
  assert (exists b, r = inr b /\ (b = true -> before_lease_hook (lc lid w1) = true)) as (b & -> & Hb)
    by (destruct Hr as [->|[-> ?]]; eexists; split; eauto; done).
  destruct Hm1 as (L1 & _).
  apply completes_rescope_bind in H2 as (r & w2 & H3 & H2).
  assert (world_mono w1 w2 /\ r = inr tt /\ before_lease_hook (lc lid w2) = true) as (Hm2 & -> & Hb2).
  { destruct b; cbn [negb when] in H3.
    - apply completes_ret in H3 as [-> ->]. split_and!; [done | done | by apply Hb].
    - apply completes_atom, completes_ret in H3 as [-> ->].
      assert (world_mono w1 (upd_lc lid (fun c => c <| before_lease_hook := true |>) w1)) as Hm
        by (apply (prim_mono PLease), p_lc; lc_change).
      split_and!; [done | done |]. by rewrite lc_upd_self by lia. }
  assert (lid < length (leases w2)) as L2 by (destruct Hm2; lia).
  split; [| by eapply cleanup_rest_done].
  assert (world_mono w2 w') as Hm3.
  { eapply (mono_completes (PServe lid)); [| exact H2]. apply ok_shield.
    unfold cleanup_after_before_hook. ok_solve;
      first [by apply ok_after_hook | by apply ok_report_status | by apply ok_set_started | apply ok_set_done]. }
  destruct (lc_mono_at _ _ lid Hm3 L2) as (_ & H & _). auto.
Qed.

(** Standalone serving that ends regularly (it was stopped) leaves the exporter without
    a lease and without a task group, and nobody waiting: the beforeLease event and the
    afterLease-done event of its lease are set, whatever the other task did meanwhile. *)
Theorem standalone_ends w w' :
  completes world_mono (serve_standalone_tcp cfg os) w (inr tt) w' ->
  let lid := length (leases w) in
  slot (ex w') = None /\ tg (ex w') = None /\
  before_lease_hook (lc lid w') = true /\ after_lease_hook_done (lc lid w') = true.
Proof.
  intros Hc lid. do 5 apply completes_atom in Hc. fold lid in Hc.
  match type of Hc with completes _ _ ?v _ _ => set (w1 := v) in Hc end.
  assert (lid < length (leases w1)) as L1 by (cbn; rewrite length_app; cbn; subst lid; lia).
  clearbody w1. change (completes world_mono (standalone_serving cfg os lid) w1 (inr tt) w') in Hc.
  apply completes_bind in Hc as (up & w2 & H1 & Hc).
  assert (world_mono w1 w2) as (L2 & _) by (eapply (mono_completes PLease), H1; apply ok_call).
  destruct up as [e|up]; [by apply completes_ret in Hc as [? _] |].
  apply completes_bind in Hc as (r & w3 & H2 & Hc).
  destruct r as [e|[]]; [by apply completes_ret in Hc as [? _] |].
  apply completes_atom, completes_ret in Hc as [_ ->].
  change (lc lid (upd_ex _ w3)) with (lc lid w3).
  split; [done |]. split; [done |].
  destruct up as [path hook|m]; [| by apply completes_ret in H2 as [? _]].
  apply completes_bind in H2 as (r & w4 & H2 & H3).
  apply completes_bind in H3 as (rc & w5 & H4 & H3).
  assert (world_mono w4 w3) as Hm4.
  { assert (world_mono w4 w5) as Hm
      by (eapply (mono_completes PLease), H4; unfold close_session; ok_solve).
    destruct rc; by apply completes_ret in H3 as [_ ->]. }
  assert (r = inr tt) as -> by (destruct rc; by apply completes_ret in H3 as [? _]).
  apply completes_atom in H2.
  match type of H2 with completes _ _ ?v _ _ => set (w6 := v) in H2 end.
  assert (lid < length (leases w6)) as L6 by (unfold w6; rewrite length_upd_lc; lia).
  clearbody w6. apply completes_bind in H2 as (rb & w7 & H5 & H2).
  assert (world_mono w6 w7) as (L7 & _).
  { eapply (mono_completes (PServe lid)), H5. unfold standalone_block, standalone_body, standalone_exit.
    ok_solve; first [apply ok_before_hook | apply ok_report_status | apply ok_set_before | by intros b | idtac]. }
  apply completes_bind in H2 as (rf & w8 & H6 & H2).
  destruct rf as [e|[]]; [by apply completes_ret in H2 as [? _] |].
  apply completes_ret in H2 as [_ ->].
  destruct (cleanup_done lid w7 w8 ltac:(lia) H6) as [Hb Hd].
  assert (lid < length (leases w8)) as L8.
  { assert (world_mono w7 w8) as (L & _) by (eapply (mono_completes (PServe lid)), H6; by apply ok_cleanup). lia. }
  destruct (lc_mono_at _ _ lid Hm4 L8) as (_ & Hb' & _ & _ & Hd' & _). auto.
Qed.

End Ends.

(** ** EndSession in standalone mode

    A standalone session has no client name. The cleanup runs the afterLease hook all the
    same, but the EndSession handler does not: it marks the hook as started without running
    it, and the cleanup then leaves it alone. *)

(** Since a hook that is entered is observed, its absence from the trace is its absence. *)
Theorem end_session_skips_hook cfg os o i w lid :
  lid < length (leases w) -> standalone (ex w) = true -> slot (ex w) = Some lid ->
  has_client (lc lid w) = false -> end_session_requested (lc lid w) = true ->
  before_lease_hook (lc lid w) = true -> after_lease_hook_started (lc lid w) = false ->
  exists w1 w2,
    solo (handle_end_session cfg os lid) o i w = Some (inr tt, w1, i) /\
    solo (cleanup_after_lease cfg os lid) o i w1 = Some (inr tt, w2, i) /\
    trace w2 = trace w ++ [OStatus AVAILABLE "Available for new lease"].
Proof.
  intros Hl Ha Hs Hc He Hb Hst.
  set (w0 := upd_lc lid (fun c => c <| after_lease_hook_started := true |>) w).
  set (wr := upd_lc lid (lc_update_status AVAILABLE "Available for new lease")
               (upd_ex (fun e => e <| exporter_status := AVAILABLE |>)
                  (observe (OStatus AVAILABLE "Available for new lease") w0))).
  set (w1 := upd_lc lid (fun c => c <| after_lease_hook_done := true |>) wr).
  assert (solo (report_status AVAILABLE "Available for new lease") o i w0 = Some (inr tt, wr, i)) as Hrep.
  { unfold report_status. cbn. change (slot (ex w0)) with (slot (ex w)). rewrite Hs. cbn.
    change (standalone (ex w0)) with (standalone (ex w)). by rewrite Ha. }
  assert (solo (handle_end_session cfg os lid) o i w = Some (inr tt, w1, i)) as H1.
  { unfold handle_end_session. rewrite solo_mbind. cbn [solo await]. rewrite He. cbn [orb solo].
    rewrite solo_mbind. cbn [solo gets]. rewrite He, andb_false_r. unfold try_finally, try_except.
    rewrite !solo_bind. unfold end_session_body. rewrite solo_mbind. cbn [solo gets]. rewrite Hst.
    rewrite solo_mbind. cbn [solo set_after_lease_hook_started modify]. fold w0.
    rewrite solo_mbind. cbn [solo gets]. assert (has_client (lc lid w0) = false) as ->
      by (unfold w0; by rewrite lc_upd_self). cbn [andb].
    destruct (hook_executor cfg); rewrite Hrep; reflexivity. }
  assert (lid < length (leases w0)) as L0 by (unfold w0; by rewrite length_upd_lc).
  assert (lid < length (leases wr)) as Lr by (unfold wr; rewrite length_upd_lc; exact L0).
  assert (after_lease_hook_done (lc lid w1) = true) as Hd by (unfold w1; by rewrite lc_upd_self).
  assert (lc_mono (lc lid w) (lc lid wr)) as (_ & Hb' & _).
  { unfold wr. rewrite lc_upd_self by exact L0. etrans; [| apply lc_update_status_mono].
    change (lc_mono (lc lid w) (lc lid w0)). unfold w0. rewrite lc_upd_self by done.
    destruct (lc lid w). by repeat split. }
  assert (before_lease_hook (lc lid w1) = true) as Hb1 by (unfold w1; rewrite lc_upd_self by done; by apply Hb').
  exists w1, w1. split; [exact H1 |]. split; [| done].
  unfold cleanup_after_lease. rewrite solo_mbind. cbn [solo wait_timeout]. rewrite Hb1. cbn [solo].
  unfold shield. cbn -[lc]. 
  assert (after_lease_hook_started (lc lid w1) = true) as ->.
  { unfold w1. rewrite lc_upd_self by done. unfold wr. rewrite lc_upd_self by exact L0.
    change (lc lid (upd_ex _ _)) with (lc lid w0). unfold w0. rewrite lc_upd_self by done.
    unfold lc_update_status. by destruct (lc lid w) as [? ? ? ? ? ? []]. }
  cbn -[lc]. by rewrite Hd.
Qed.

(** ** Registration *)

(** Registering sends the labels with all reports of the local session once and reports
    AVAILABLE exactly when no lease is served; when the session or the controller fails, the
    exporter is not marked as registered, nothing is reported, and the failure is raised. *)
Theorem registration_exact {Report} labels (reports : string + list Report) register o i w :
  standalone (ex w) = false -> status_drain_active (ex w) = true ->
  match reports, register (mkRegisterRequest labels (match reports with inr rs => rs | inl _ => [] end)) with
  | inr _, RpcOk =>
      exists w', solo (register_with_controller labels reports register) o i w = Some (inr tt, w', i) /\
        registered (ex w') = true /\
        trace w' = trace w ++ (if is_some (slot (ex w)) then []
                               else [OStatus AVAILABLE "Exporter registered and available"])
  | _, _ => exists e, solo (register_with_controller labels reports register) o i w = Some (inl e, w, i)
  end.
Proof.
  intros Ha Hd. unfold register_with_controller. destruct reports as [m|rs]; [by eexists |].
  destruct (register _) as [|c d|m]; [| by eexists | by eexists].
  rewrite solo_mbind. cbn [solo modify]. rewrite solo_mbind. cbn [solo gets].
  change (slot (ex (upd_ex (fun e => e <| registered := true |>) w))) with (slot (ex w)).
  destruct (slot (ex w)) eqn:Es.
  - eexists. split; [reflexivity |]. split; [done |]. by rewrite app_nil_r.
  - unfold report_status. cbn. rewrite Es. cbn. rewrite Ha. cbn. rewrite Hd. cbn. by eexists.
Qed.

(** Telemetry is set up once and only over TLS, unless the configuration or the environment
    asks for plaintext and the controller gave no certificate. *)
Theorem telemetry_secured handler tls_insecure environ endpoints ch level :
  setup_telemetry handler tls_insecure environ endpoints = Some (ch, level) ->
  setup_telemetry (Some (ch, level)) tls_insecure environ endpoints = Some (ch, level) /\
  (handler = None ->
   exists ep, (endpoints ≫= head) = Some ep /\ (level ∈ map snd SEVERITY_MAP) /\
   match ch with
   | Plaintext _ => ep_certificate ep = ""%string /\
       (tls_insecure = true \/ dict_get "JMP_GRPC_INSECURE" environ = Some "1"%string \/
        dict_get "JUMPSTARTER_GRPC_INSECURE" environ = Some "1"%string)
   | WithCertificate _ c => c = ep_certificate ep
   | SystemRoots _ => ep_certificate ep = ""%string
   end).
Proof.
  intros H. split; [done |]. intros ->. destruct endpoints as [[|ep eps]|]; try done.
  cbn in H. exists ep. split; [done |]. injection H as Hc Hl.
  assert (truthy (ep_certificate ep) = false -> ep_certificate ep = ""%string) as Ht
    by (by destruct (ep_certificate ep)).
  split.
  - rewrite <- Hl. unfold severity_to_level, SEVERITY_MAP. cbn [dict_get map snd].
    repeat (destruct (String.eqb _ _); [set_solver |]). set_solver.
  - destruct (truthy (ep_certificate ep)); [by subst |].
    destruct (tls_insecure || _ || _) eqn:E; subst; [| by apply Ht]. split; [by apply Ht |].
    apply orb_true_iff in E as [E|E]; [apply orb_true_iff in E as [E|E] |]; [by left | |];
      apply bool_decide_eq_true in E; auto.
Qed.

(** The sidecar is told to shut down only when a launcher socket is known, with a binary that
    exists, and the result is true exactly when that command ran and exited with 0. *)
Theorem sidecar_exact isfile run environ socket_path binary :
  let (cmd, ok) := shutdown_runtime_sidecar isfile run environ socket_path binary in
  (ok = true <-> exists c, cmd = Some c /\ run c = RunExited 0) /\
  (forall c, cmd = Some c -> exists b sock, c = [b; "shutdown"; "--socket"; sock]%string /\
     isfile b = true /\ truthy sock = true /\
     (socket_path = Some sock \/ dict_get "JUMPSTARTER_LAUNCHER_SOCKET" environ = Some sock)).
Proof.
  unfold shutdown_runtime_sidecar. set (env := dict_get _ environ).
  destruct (or_else socket_path (or_else env None)) as [sock|] eqn:Es; [| by split; [split; [|intros (?&?&?)] |]].
  assert (truthy sock = true /\ (socket_path = Some sock \/ env = Some sock)) as [Ht Hs].
  { unfold or_else in Es. destruct socket_path as [s|]; [destruct (truthy s) eqn:E; [simplify_eq; by eauto |] |];
      (destruct env as [v|]; [destruct (truthy v) eqn:E2; simplify_eq; eauto | done]). }
  set (exec_bin := default _ _). set (cand := sibling _ _).
  assert (forall b, (if isfile exec_bin then Some exec_bin else if isfile cand then Some cand else None) = Some b ->
    isfile b = true) as Hf by (intros b; destruct (isfile exec_bin) eqn:?, (isfile cand) eqn:?; intros; by simplify_eq).
  destruct (if isfile exec_bin then _ else _) as [b|]; [| by split; [split; [|intros (?&?&?)] |]].
  split.
  - split; [| by intros (c & [= <-] & ->)]. intros H. eexists. split; [done |].
    destruct (run _) as [| |c]; try done. apply Z.eqb_eq in H. by subst.
  - intros c [= <-]. exists b, sock. split_and!; auto.
Qed.

(** ** Witnesses *)

Module StandaloneScenario.

Definition os0 : OS := mkOS [("PS1", "$")]%string (fun _ => false) "python3" (fun _ => inr "/tmp/motd"%string).

Definition hook0 : HookInstanceConfigV1Alpha1 := mkHookInstance None "echo hi" 10 warn.

Definition with_hooks : ExporterConfig :=
  mkExporterConfig "e" None (Some (mkHookConfig (Some hook0) (Some hook0))) false.

Definition answers : forall q, answer q := fun q =>
  match q with
  | QRpc _ => RpcOk
  | QStream StatusStream => StreamEnd
  | QStream (ListenStream _) => StreamEnd
  | QSession => SessionUp "/tmp/hook" ""
  | QSessionClose => tt
  | QHookProcess _ _ _ _ => (Exited 0, None)
  | QChannel => None
  end.

(** The session is started and the beforeLease hook has run. *)
Definition served : list (choice (W := World) (answer := answer) (N := task_name)) :=
  [Resume 0; Answer 0 answers; Answer 0 answers].

Definition final cfg (s : list (choice (W := World) (answer := answer) (N := task_name))) : config :=
  default (Config new_world []) (exec_from (standalone_task cfg os0) new_world [THandleLease 0] s).

Lemma standalone_final_reachable cfg s :
  is_some (exec_from (standalone_task cfg os0) new_world [THandleLease 0] s) = true ->
  reachable (standalone_task cfg os0) outside new_world [THandleLease 0] (final cfg s).
Proof.
  unfold final. destruct (exec_from _ _ _ s) as [c|] eqn:E; [| done]. intros _.
  eapply exec_all_reachable; [apply reach_init | exact E].
Qed.

End StandaloneScenario.

Import StandaloneScenario.

Lemma standalone_offline_witness :
  let c := final with_hooks served in
  map (fun o => match o with OStatus s _ => Some s | _ => None end) (trace (world c)) =
    [Some BEFORE_LEASE_HOOK; None; None; Some LEASE_READY] /\
  rpcs (trace (world c)) = [].
Proof.
  split; [vm_compute; reflexivity |].
  apply (standalone_offline with_hooks os0 new_world 0 (final with_hooks served) eq_refl).
  apply standalone_final_reachable. vm_compute. reflexivity.
Defined.
