(* ===== verification/Auth.v ===== *)
(** * Passphrase authentication

    [exporter/auth.py]: the server interceptor that rejects calls without the right
    passphrase, and the client interceptors that attach it to the metadata of a call.
    The theorems say which calls reach the service and that a rejection keeps the type
    of the call. *)

From stdpp Require Import base list strings.
From S2P Require Import Prelude PyText.

(** ** Handlers and calls *)

Definition Metadata := list (string * string).

Definition PASSPHRASE_METADATA_KEY : string := "x-jumpstarter-passphrase".

(** What a handler does with a call: run the service's method, or abort it. *)
Inductive behaviour :=
| Serve (method : string)
| AbortUnauthenticated (details : string).

Record RpcMethodHandler := mkHandler {
  request_streaming : bool;
  response_streaming : bool;
  handler_behaviour : behaviour
}.

Record HandlerCallDetails := mkCallDetails {
  call_method : string;
  invocation_metadata : option Metadata
}.

(** The last value of a repeated key wins, as in [dict(pairs)]. *)
Definition dict_of_pairs (m : Metadata) : Metadata := dict_update [] m.

(** [hmac.compare_digest] on two [str]: [TypeError] unless both are ASCII. *)
Definition compare_digest (a b : string) : option bool :=
  if Str.isascii a && Str.isascii b then Some (String.eqb a b) else None.

(** The outcome of an interceptor: a handler (or none, when the method is unknown),
    or an exception. *)
Inductive intercepted := Handler (h : option RpcMethodHandler) | InterceptRaised.

(** ** The server side *)

Definition abort_unauthenticated : behaviour :=
  AbortUnauthenticated "invalid or missing passphrase".

Definition stream_stream_rpc_method_handler (b : behaviour) := mkHandler true true b.
Definition stream_unary_rpc_method_handler (b : behaviour) := mkHandler true false b.
Definition unary_stream_rpc_method_handler (b : behaviour) := mkHandler false true b.
Definition unary_unary_rpc_method_handler (b : behaviour) := mkHandler false false b.

Definition rejection_handler_for (handler : RpcMethodHandler) : RpcMethodHandler :=
  if request_streaming handler && response_streaming handler then
    stream_stream_rpc_method_handler abort_unauthenticated
  else if request_streaming handler then
    stream_unary_rpc_method_handler abort_unauthenticated
  else if response_streaming handler then
    unary_stream_rpc_method_handler abort_unauthenticated
  else unary_unary_rpc_method_handler abort_unauthenticated.

Section Server.

(** The rest of the interceptor chain: the handler registered for the call. *)
Context (continuation : HandlerCallDetails -> option RpcMethodHandler).

Definition reject (details : HandlerCallDetails) : intercepted :=
  match continuation details with
  | None => Handler None
  | Some handler => Handler (Some (rejection_handler_for handler))
  end.

Definition intercept_service (passphrase : string) (details : HandlerCallDetails)
    : intercepted :=
  let metadata := dict_of_pairs (default [] (invocation_metadata details)) in
  match dict_get PASSPHRASE_METADATA_KEY metadata with
  | None => reject details
  | Some provided =>
      match compare_digest provided passphrase with
      | None => InterceptRaised
      | Some false => reject details
      | Some true => Handler (continuation details)
      end
  end.

(** A server created with [interceptors]: [None] or one passphrase interceptor. *)
Definition serve_call (interceptors : option string) (details : HandlerCallDetails)
    : intercepted :=
  match interceptors with
  | None => Handler (continuation details)
  | Some passphrase => intercept_service passphrase details
  end.

End Server.

(** ** The client side *)

Inductive rpc_kind := UnaryUnary | UnaryStream | StreamUnary | StreamStream.

Definition handler_kind (h : RpcMethodHandler) : rpc_kind :=
  match request_streaming h, response_streaming h with
  | false, false => UnaryUnary
  | false, true => UnaryStream
  | true, false => StreamUnary
  | true, true => StreamStream
  end.

Record ClientCallDetails := mkClientCallDetails {
  ccd_method : string;
  ccd_timeout : option Z;
  ccd_metadata : option Metadata;
  ccd_credentials : option string;
  ccd_wait_for_ready : option bool
}.

Definition inject_metadata (details : ClientCallDetails) (extra_metadata : Metadata)
    : ClientCallDetails :=
  mkClientCallDetails (ccd_method details) (ccd_timeout details)
    (Some (default [] (ccd_metadata details) ++ extra_metadata))
    (ccd_credentials details) (ccd_wait_for_ready details).

(** An interceptor object serves the calls of one kind. *)
Record ClientInterceptor := mkInterceptor { ci_kind : rpc_kind; ci_extra : Metadata }.

Definition passphrase_client_interceptors (passphrase : string) : list ClientInterceptor :=
  let extra := [(PASSPHRASE_METADATA_KEY, passphrase)] in
  [mkInterceptor UnaryUnary extra; mkInterceptor UnaryStream extra;
   mkInterceptor StreamStream extra].

#[export] Instance rpc_kind_eq_dec : EqDecision rpc_kind.
Proof. solve_decision. Defined.

(** The details of a call of kind [k] as a channel with these interceptors sends it. *)
Definition channel_call (interceptors : list ClientInterceptor) (k : rpc_kind)
    (details : ClientCallDetails) : ClientCallDetails :=
  fold_left
    (fun d i => if bool_decide (ci_kind i = k) then inject_metadata d (ci_extra i) else d)
    interceptors details.

(** What the server sees of it. *)
Definition received (details : ClientCallDetails) : HandlerCallDetails :=
  mkCallDetails (ccd_method details) (ccd_metadata details).

(** ** Lemmas *)

Lemma dict_of_pairs_last m k v : dict_get k (dict_of_pairs (m ++ [(k, v)])) = Some v.
Proof.
  unfold dict_of_pairs, dict_update. rewrite fold_left_app. simpl. apply dict_get_set_same.
Qed.

(** The last value given for a key. *)
Fixpoint last_value (k : string) (m : Metadata) : option string :=
  match m with
  | [] => None
  | (k', v) :: m' =>
      match last_value k m' with
      | Some v' => Some v'
      | None => if String.eqb k k' then Some v else None
      end
  end.

Lemma dict_of_pairs_get k m : dict_get k (dict_of_pairs m) = last_value k m.
Proof.
  unfold dict_of_pairs, dict_update.
  assert (forall d, dict_get k (fold_left (fun acc kv => dict_set kv.1 kv.2 acc) m d) =
    match last_value k m with Some v => Some v | None => dict_get k d end) as H.
  { induction m as [|[k' v] m IH]; intros d; simpl; [done |].
    rewrite IH. destruct (last_value k m); [done |].
    destruct (String.eqb_spec k k') as [->|Hne].
    - by rewrite dict_get_set_same.
    - rewrite dict_get_set_other; congruence. }
  rewrite H. by destruct (last_value k m).
Qed.

Lemma rejection_keeps_kind h : handler_kind (rejection_handler_for h) = handler_kind h.
Proof. by destruct h as [[] [] b]. Qed.

Lemma rejection_aborts h : handler_behaviour (rejection_handler_for h) = abort_unauthenticated.
Proof. by destruct h as [[] [] b]. Qed.

Lemma compare_digest_true a b : compare_digest a b = Some true <->
  a = b /\ Str.isascii a = true.
Proof.
  unfold compare_digest. destruct (Str.isascii a) eqn:Ea; simpl.
  - destruct (String.eqb_spec a b) as [->|Hne].
    + by rewrite Ea.
    + destruct (Str.isascii b); split; [done | by intros [? _] | done | by intros [? _]].
  - split; [done | by intros [_ ?]].
Qed.

#[export] Hint Rewrite rejection_keeps_kind rejection_aborts dict_of_pairs_last : jmp.

(** ** What the server lets through *)

(** C20: with a passphrase configured, a call runs the service's method exactly when the
    last passphrase in its metadata is the configured one; any other call the
    interceptor answers is aborted as unauthenticated by a handler of the call's own
    type, and the service's method does not run. *)
Theorem passphrase_gate continuation p d h :
  continuation d = Some h ->
  match intercept_service continuation p d with
  | Handler (Some h') =>
      handler_kind h' = handler_kind h /\
      (h' = h /\ last_value PASSPHRASE_METADATA_KEY (default [] (invocation_metadata d)) = Some p
       \/ handler_behaviour h' = abort_unauthenticated /\
          last_value PASSPHRASE_METADATA_KEY (default [] (invocation_metadata d)) <> Some p)
  | Handler None => False
  | InterceptRaised =>
      exists q, last_value PASSPHRASE_METADATA_KEY (default [] (invocation_metadata d)) = Some q /\
        Str.isascii q && Str.isascii p = false
  end.
Proof.
  intros Hc. unfold intercept_service, reject. rewrite dict_of_pairs_get, Hc.
  destruct (last_value _ _) as [q|]; [| by autorewrite with jmp; auto].
  destruct (compare_digest q p) as [[]|] eqn:E.
  - apply compare_digest_true in E as [-> _]. auto.
  - autorewrite with jmp. split; [done |]. right. split; [done |].
    intros [= ->]. unfold compare_digest in E.
    destruct (Str.isascii p); simpl in E; [by rewrite String.eqb_refl in E | done].
  - exists q. split; [done |]. unfold compare_digest in E. by destruct (_ && _).
Qed.

(** A client that attaches the passphrase is let through whatever metadata the call
    already had, for each of the three kinds of call it intercepts; a call of the
    fourth kind is sent as it is. *)
Theorem passphrase_roundtrip continuation p k d :
  Str.isascii p = true ->
  let sent := channel_call (passphrase_client_interceptors p) k d in
  if decide (k = StreamUnary) then sent = d
  else intercept_service continuation p (received sent) = Handler (continuation (received sent)).
Proof.
  intros Hp. destruct k; simpl; try done;
    unfold intercept_service, received; simpl; rewrite dict_of_pairs_last;
    by rewrite (proj2 (compare_digest_true p p) (conj eq_refl Hp)).
Qed.

(** ** Concrete instances *)

Definition demo_continuation (d : HandlerCallDetails) : option RpcMethodHandler :=
  Some (mkHandler false true (Serve (call_method d))).

Lemma passphrase_gate_witness :
  match intercept_service demo_continuation "s3cret"
          (mkCallDetails "LogStream" (Some [(PASSPHRASE_METADATA_KEY, "guess")])) with
  | Handler (Some h') => handler_kind h' = UnaryStream /\ handler_behaviour h' = abort_unauthenticated
  | _ => False
  end.
Proof.
  pose proof (passphrase_gate demo_continuation "s3cret"
    (mkCallDetails "LogStream" (Some [(PASSPHRASE_METADATA_KEY, "guess")]))
    (mkHandler false true (Serve "LogStream")) eq_refl) as H.
  vm_compute in H |- *. destruct H as [Hk [[_ Hl] | [Hb _]]]; [discriminate | auto].
Defined.

Lemma passphrase_roundtrip_witness :
  intercept_service demo_continuation "s3cret"
    (received (channel_call (passphrase_client_interceptors "s3cret") UnaryStream
      (mkClientCallDetails "LogStream" None (Some [(PASSPHRASE_METADATA_KEY, "old")]) None None))) =
  Handler (Some (mkHandler false true (Serve "LogStream"))).
Proof.
  exact (passphrase_roundtrip demo_continuation "s3cret" UnaryStream
    (mkClientCallDetails "LogStream" None (Some [(PASSPHRASE_METADATA_KEY, "old")]) None None)
    eq_refl).
Defined.
