(* ===== verification/Connect.v ===== *)
(** * Connecting to an exporter

    How a client process reaches the exporter it was started for:
    [client/client.py] ([client_from_path]), [utils/env.py] ([env_async],
    [ExporterMetadata.from_env]), [common/utils.py] (the environment and the command of
    [jmp shell]) and the server side of it, [Session.serve_tcp_and_unix_async].
    The theorems relate the environment a shell is given to what [env()] reads back, and
    follow a hook's [j] command to the server of a standalone exporter. *)

From stdpp Require Import base list strings sets sorting pretty.
From Stdlib Require Import ZArith Lia Ascii.
From S2P Require Import Prelude PyText LeaseContext Hooks Auth.

(** ** Environment variables *)

Definition JMP_LEASE : string := "JMP_LEASE".
Definition JMP_EXPORTER : string := "JMP_EXPORTER".
Definition JMP_EXPORTER_LABELS : string := "JMP_EXPORTER_LABELS".
Definition JMP_GRPC_INSECURE : string := "JMP_GRPC_INSECURE".
Definition JUMPSTARTER_GRPC_INSECURE : string := "JUMPSTARTER_GRPC_INSECURE".
Definition JMP_GRPC_PASSPHRASE : string := "JMP_GRPC_PASSPHRASE".

Definition environment := list (string * string).

(** [os.environ.get(k, d)] and [os.environ.get(k) or None]. *)
Definition getenv (k d : string) (env : environment) : string := default d (dict_get k env).

Definition getenv_or_none (k : string) (env : environment) : option string :=
  match dict_get k env with
  | Some v => if truthy v then Some v else None
  | None => None
  end.

(** ** The channel of a client *)

Definition is_tcp_address (path : string) : bool :=
  match Str.rsplit1 ":"%char path with
  | None => false
  | Some (_, port_str) =>
      match Str.py_int port_str with
      | Some port => (1 <=? port)%Z && (port <=? 65535)%Z
      | None => false
      end
  end.

Inductive channel :=
| InsecureChannel (target : string) (interceptors : option (list ClientInterceptor))
| SecureChannel (target : string) (interceptors : option (list ClientInterceptor))
| LocalChannel (target : string).

(** The channel [client_from_path] opens. *)
Definition client_from_path (path : string) (insecure : bool) (passphrase : option string)
    : channel :=
  let interceptors :=
    match passphrase with
    | Some p => if truthy p then Some (passphrase_client_interceptors p) else None
    | None => None
    end in
  if is_tcp_address path then
    if insecure then InsecureChannel path interceptors
    else SecureChannel path interceptors
  else LocalChannel ("unix://" ++ path).

Definition channel_interceptors (c : channel) : list ClientInterceptor :=
  match c with
  | InsecureChannel _ i | SecureChannel _ i => default [] i
  | LocalChannel _ => []
  end.

Inductive env_error := EnvironmentVariableNotSetError.

(** [env_async]: the channel for the shell or hook this process runs in. *)
Definition env_async (env : environment) : env_error + channel :=
  match dict_get JUMPSTARTER_HOST env with
  | None => inl EnvironmentVariableNotSetError
  | Some host =>
      let insecure := String.eqb (getenv JMP_GRPC_INSECURE "" env) "1"
                      || String.eqb (getenv JUMPSTARTER_GRPC_INSECURE "" env) "1" in
      inr (client_from_path host insecure (getenv_or_none JMP_GRPC_PASSPHRASE env))
  end.

(** ** The server of a standalone exporter *)

Inductive port := InsecurePort (address : string) | SecurePort (address : string).

Record server := mkServer { server_ports : list port; server_interceptors : option string }.

Definition add_tcp_port (host : string) (port_number : Z) (tls_credentials : bool) : port :=
  let address := (host ++ ":" ++ pretty port_number)%string in
  if tls_credentials then SecurePort address else InsecurePort address.

(** One server, hence one chain of interceptors, for all its ports. *)
Definition serve_tcp_and_unix_async (host : string) (port_number : Z) (unix_path : string)
    (tls_credentials : bool) (interceptors : option string) : server :=
  mkServer [InsecurePort ("unix://" ++ unix_path); add_tcp_port host port_number tls_credentials]
    interceptors.

(** A call of kind [k] made over [c] to a method of the server's services. *)
Definition call_over (c : channel) (s : server)
    (continuation : HandlerCallDetails -> option RpcMethodHandler) (k : rpc_kind)
    (d : ClientCallDetails) : intercepted :=
  serve_call continuation (server_interceptors s)
    (received (channel_call (channel_interceptors c) k d)).

(** ** The environment of a shell *)

(** What [_lease_env_vars] reads of a lease. *)
Record LeaseInfo := mkLeaseInfo {
  li_exporter_name : string;
  li_name : string;
  li_exporter_labels : list (string * string)
}.

(** [sorted(d.items())]: the keys of a dictionary are distinct, so they decide. *)
Definition key_le (a b : string * string) : Prop := String.leb a.1 b.1 = true.

#[export] Instance key_le_dec a b : Decision (key_le a b).
Proof. unfold key_le. apply _. Defined.

Definition sorted_items (d : list (string * string)) : list (string * string) :=
  merge_sort key_le d.

Definition label_pair (kv : string * string) : string := (kv.1 ++ "=" ++ kv.2)%string.

Definition lease_env_vars (lease : LeaseInfo) : environment :=
  let env_vars := [(JMP_EXPORTER, li_exporter_name lease)] in
  let env_vars := if truthy (li_name lease)
                  then dict_set JMP_LEASE (li_name lease) env_vars else env_vars in
  match li_exporter_labels lease with
  | [] => env_vars
  | labels => dict_set JMP_EXPORTER_LABELS
                (Str.join "," (map label_pair (sorted_items labels))) env_vars
  end.

Definition build_common_env (environ : environment) (host : string) (allow : list string)
    (unsafe : bool) (lease : option LeaseInfo) (insecure : bool) (passphrase : option string)
    : environment :=
  let env := dict_update environ
    [(JUMPSTARTER_HOST, host);
     (JMP_DRIVERS_ALLOW, if unsafe then "UNSAFE"%string else Str.join "," allow);
     ("_JMP_SUPPRESS_DRIVER_WARNINGS"%string, "1"%string)] in
  let env := if insecure then dict_update env [(JMP_GRPC_INSECURE, "1"%string)] else env in
  let env := match passphrase with
             | Some p => if truthy p then dict_update env [(JMP_GRPC_PASSPHRASE, p)] else env
             | None => env
             end in
  match lease with
  | Some l => dict_update env (lease_env_vars l)
  | None => env
  end.

(** ** Reading it back *)

Record ExporterMetadata := mkExporterMetadata {
  em_name : string;
  em_labels : list (string * string);
  em_lease : option string
}.

Definition add_label (labels : list (string * string)) (pair : string) : list (string * string) :=
  match Str.split1 "="%char pair with
  | Some (k, v) => if truthy k then dict_set k v labels else labels
  | None => labels
  end.

Definition parse_labels (raw : string) : list (string * string) :=
  if truthy raw then fold_left add_label (Str.split_char ","%char raw) [] else [].

Definition from_env (env : environment) : ExporterMetadata :=
  mkExporterMetadata (getenv JMP_EXPORTER "" env)
    (parse_labels (getenv JMP_EXPORTER_LABELS "" env))
    (getenv_or_none JMP_LEASE env).

(** ** The command of a shell *)

(** [os.path.basename]. *)
Definition basename (path : string) : string :=
  match Str.rsplit1 "/"%char path with Some (_, t) => t | None => path end.

Definition endswith (s suffix : string) : bool := Str.startswith (Str.srev suffix) (Str.srev s).

(** How [Popen] can fail. *)
Inductive popen_error := PopenFileNotFound | PopenPermission | PopenOSError.

(** [_run_process] without the lease callback: the exit code of the process, or the one
    a shell would give. *)
Definition run_process (popen : list string -> environment -> popen_error + Z)
    (cmd : list string) (env : environment) : Z :=
  match popen cmd env with
  | inl PopenFileNotFound => 127
  | inl PopenPermission => 126
  | inl PopenOSError => 126
  | inr returncode => returncode
  end.

Definition quote : string := String (ascii_of_nat 34) EmptyString.

Definition quoted (s : string) : string := (quote ++ s ++ quote)%string.

Definition fish_fn (context : string) : string :=
  ("function fish_prompt; set_color grey; printf " ++ quoted "%s" ++ " (basename $PWD); "
   ++ "set_color yellow; printf " ++ quoted "⚡" ++ "; set_color white; printf "
   ++ quoted context ++ "; set_color yellow; printf " ++ quoted "➤ "
   ++ "; set_color normal; end")%string.

Definition ANSI_GRAY : string := "\[\e[90m\]".
Definition ANSI_YELLOW : string := "\[\e[93m\]".
Definition ANSI_WHITE : string := "\[\e[97m\]".
Definition ANSI_RESET : string := "\[\e[0m\]".
Definition PROMPT_CWD : string := "\W".

Definition bash_ps1 (context : string) : string :=
  (ANSI_GRAY ++ PROMPT_CWD ++ " " ++ ANSI_YELLOW ++ "⚡" ++ ANSI_WHITE ++ context ++ " "
   ++ ANSI_YELLOW ++ "➤" ++ ANSI_RESET ++ " ")%string.

Definition zsh_ps1 (context : string) : string :=
  ("%F{8}%1~ %F{yellow}⚡%F{white}" ++ context ++ " %F{yellow}➤%f ")%string.

(** The command and the environment [launch_shell] runs; [home] is the
    expansion of the tilde, an empty list a missing command. *)
Definition shell_command (environ : environment) (home context : string) (use_profiles : bool)
    (command : list string) (common_env : environment) : list string * environment :=
  let shell := getenv "SHELL" "bash" environ in
  let shell_name := basename shell in
  match command with
  | _ :: _ => (command, common_env)
  | [] =>
      if endswith shell_name "bash" then
        (shell :: (if use_profiles then [] else ["--norc"; "--noprofile"]),
         dict_update common_env [("PS1", bash_ps1 context)])
      else if String.eqb shell_name "fish" then
        ([shell; "--init-command"; fish_fn context], common_env)
      else if String.eqb shell_name "zsh" then
        let env := dict_update common_env [("PS1", zsh_ps1 context)] in
        let env := if is_some (dict_get "HISTFILE" env) then env
                   else dict_set "HISTFILE" (home ++ "/.zsh_history")%string env in
        (shell :: (if use_profiles then [] else ["--no-rcs"])
           ++ ["-o"; "inc_append_history"; "-o"; "share_history"], env)
      else ([shell], common_env)
  end.

Definition launch_shell (popen : list string -> environment -> popen_error + Z)
    (environ : environment) (home host context : string) (allow : list string)
    (unsafe use_profiles : bool) (command : list string) (lease : option LeaseInfo)
    (insecure : bool) (passphrase : option string) : Z :=
  let common_env := build_common_env environ host allow unsafe lease insecure passphrase in
  let '(cmd, env) := shell_command environ home context use_profiles command common_env in
  run_process popen cmd env.

(** ** Lemmas *)

Lemma get_update1 k k' (v : string) d :
  dict_get k (dict_update d [(k', v)]) = if String.eqb k k' then Some v else dict_get k d.
Proof.
  unfold dict_update. simpl. destruct (String.eqb_spec k k') as [->|].
  - apply dict_get_set_same.
  - apply dict_get_set_other. congruence.
Qed.

Lemma dict_get_perm k (d d' : list (string * string)) :
  dict_wf d -> Permutation d d' -> dict_get k d = dict_get k d'.
Proof.
  intros Hd HP. induction HP as [|[k1 v1] d d' HP IH|[k1 v1] [k2 v2] d|d d' d'' H1 IH1 H2 IH2].
  - done.
  - unfold dict_wf in *. simpl in *. apply NoDup_cons in Hd as [_ Hd].
    destruct (String.eqb k k1); [done | by apply IH].
  - unfold dict_wf in Hd. simpl in *. apply NoDup_cons in Hd as [Hn _].
    destruct (String.eqb_spec k k1) as [E1|], (String.eqb_spec k k2) as [E2|]; try done.
    subst. set_solver.
  - rewrite IH1 by done. apply IH2. unfold dict_wf in *. by rewrite <- H1.
Qed.

(** Labels that survive their textual form. *)
Definition plain_label (kv : string * string) : Prop :=
  truthy kv.1 = true /\ Str.has_char "="%char kv.1 = false /\
  Str.has_char ","%char kv.1 = false /\ Str.has_char ","%char kv.2 = false.

Lemma add_plain_label labels kv : plain_label kv ->
  add_label labels (label_pair kv) = dict_set kv.1 kv.2 labels.
Proof.
  destruct kv as [k v]. intros (Ht & He & _ & _). unfold add_label, label_pair. simpl in *.
  change ("=" ++ v)%string with (String "="%char v).
  by rewrite Str.split1_app, Ht.
Qed.

Lemma parse_joined_labels l : l <> [] -> Forall plain_label l ->
  parse_labels (Str.join "," (map label_pair l)) = dict_update [] l.
Proof.
  intros Hne H. unfold parse_labels.
  assert (truthy (Str.join "," (map label_pair l)) = true) as ->.
  { destruct H as [|[[|a k] v] l (Ht & _)]; [done | done |]. by destruct l. }
  rewrite Str.split_char_join.
  - unfold dict_update. generalize (@nil (string * string)) as acc. clear Hne.
    induction H as [|kv l Hkv Hl IH]; intros acc; simpl; [done |].
    by rewrite add_plain_label.
  - by destruct l.
  - apply Forall_map. eapply Forall_impl; [exact H |]. intros [k v] (_ & _ & Hk & Hv).
    simpl in *. unfold label_pair. simpl. by rewrite !Str.has_char_app, Hk, Hv.
Qed.

Lemma sorted_items_perm d : Permutation (sorted_items d) d.
Proof. apply merge_sort_Permutation. Qed.

Lemma lease_env_lookup l k :
  dict_get k (lease_env_vars l) =
  if String.eqb k JMP_EXPORTER_LABELS then
    match li_exporter_labels l with
    | [] => None
    | labels => Some (Str.join "," (map label_pair (sorted_items labels)))
    end
  else if String.eqb k JMP_LEASE then
    if truthy (li_name l) then Some (li_name l) else None
  else if String.eqb k JMP_EXPORTER then Some (li_exporter_name l) else None.
Proof.
  unfold lease_env_vars.
  destruct (String.eqb_spec k JMP_EXPORTER_LABELS) as [->|H1];
    [| destruct (String.eqb_spec k JMP_LEASE) as [->|H2];
       [| destruct (String.eqb_spec k JMP_EXPORTER) as [->|H3]]];
    destruct (li_exporter_labels l), (truthy (li_name l)); simpl;
    rewrite ?dict_get_set_same; try done;
    repeat (rewrite dict_get_set_other by (by unfold JMP_LEASE, JMP_EXPORTER_LABELS, JMP_EXPORTER in *; congruence));
    simpl; repeat (match goal with |- context [String.eqb ?a ?b] => destruct (String.eqb_spec a b) end);
    try done; try congruence.
Qed.

(** The environment a shell is given, key by key. *)
Lemma common_env_lease_lookup environ host allow unsafe l insecure p k :
  dict_wf environ ->
  dict_get k (build_common_env environ host allow unsafe (Some l) insecure p) =
  match dict_get k (lease_env_vars l) with
  | Some v => Some v
  | None => dict_get k (build_common_env environ host allow unsafe None insecure p)
  end.
Proof.
  intros Hwf. unfold build_common_env. rewrite dict_get_update; [done |].
  unfold lease_env_vars, dict_wf.
  destruct (li_exporter_labels l), (truthy (li_name l)); apply (bool_decide_unpack _); vm_compute; exact I.
Qed.

(** The variables a lease sets are not touched by the rest. *)
Lemma common_env_frame environ host allow unsafe insecure p k :
  dict_wf environ ->
  k <> JUMPSTARTER_HOST -> k <> JMP_DRIVERS_ALLOW -> k <> JMP_GRPC_INSECURE ->
  k <> JMP_GRPC_PASSPHRASE -> k <> "_JMP_SUPPRESS_DRIVER_WARNINGS"%string ->
  dict_get k (build_common_env environ host allow unsafe None insecure p) = dict_get k environ.
Proof.
  intros Hwf H1 H2 H3 H4 H5.
  assert (dict_get k (dict_update environ
    [(JUMPSTARTER_HOST, host);
     (JMP_DRIVERS_ALLOW, if unsafe then "UNSAFE"%string else Str.join "," allow);
     ("_JMP_SUPPRESS_DRIVER_WARNINGS"%string, "1"%string)]) = dict_get k environ) as E.
  { unfold dict_update. simpl. rewrite !dict_get_set_other; congruence. }
  unfold build_common_env. destruct insecure, p as [p|]; try destruct (truthy p);
    rewrite ?get_update1, ?E;
    repeat match goal with |- context [String.eqb ?a ?b] => destruct (String.eqb_spec a b); try congruence end;
    done.
Qed.

(** ** The environment round trip *)

(** What [env_with_metadata()] reads in a shell is the lease the shell was started
    for: the exporter's name, the lease's name and its labels as a map, for every label
    whose key is not empty and that contains no separator. A lease without a name or
    without labels leaves the variable of the surrounding process in place. *)
Theorem shell_metadata_roundtrip environ host allow unsafe l insecure p :
  dict_wf environ -> dict_wf (li_exporter_labels l) ->
  Forall plain_label (li_exporter_labels l) ->
  let m := from_env (build_common_env environ host allow unsafe (Some l) insecure p) in
  em_name m = li_exporter_name l /\
  em_lease m = (if truthy (li_name l) then Some (li_name l) else getenv_or_none JMP_LEASE environ) /\
  (forall k, dict_get k (em_labels m) =
     match li_exporter_labels l with
     | [] => dict_get k (parse_labels (getenv JMP_EXPORTER_LABELS "" environ))
     | _ => dict_get k (li_exporter_labels l)
     end).
Proof.
  intros He Hl Hp. unfold from_env, getenv, getenv_or_none. cbn [em_name em_lease em_labels].
  rewrite !common_env_lease_lookup, !lease_env_lookup, !common_env_frame by done. cbn [String.eqb].
  split_and!; [done | by destruct (li_name l) |].
  intros k. destruct (li_exporter_labels l) as [|kv ls] eqn:El; [done |].
  rewrite String.eqb_refl. cbn [from_option id].
  pose proof (sorted_items_perm (kv :: ls)) as HP.
  rewrite parse_joined_labels.
  - rewrite dict_get_update by (unfold dict_wf in *; by rewrite HP).
    rewrite (dict_get_perm k (kv :: ls) (sorted_items (kv :: ls))) by (done || by symmetry).
    by destruct (dict_get k (sorted_items _)).
  - intros E. rewrite E in HP. apply Permutation_nil in HP. done.
  - by rewrite HP.
Qed.

(** ** A hook's [j] command and a passphrase *)

Lemma hook_host os c : dict_wf (environ os) ->
  dict_get JUMPSTARTER_HOST (create_hook_env os c) =
  Some (or_str (hook_socket_path c) (socket_path c)).
Proof.
  intros Hwf. unfold create_hook_env. rewrite dict_get_pop_other by done.
  unfold dict_update. simpl.
  rewrite !dict_get_set_other by done. apply dict_get_set_same.
Qed.

Lemma hook_channel os c : dict_wf (environ os) ->
  is_tcp_address (or_str (hook_socket_path c) (socket_path c)) = false ->
  env_async (create_hook_env os c) =
  inr (LocalChannel ("unix://" ++ or_str (hook_socket_path c) (socket_path c))).
Proof.
  intros Hwf Ht. unfold env_async. rewrite hook_host by done.
  unfold client_from_path. by rewrite Ht.
Qed.

(** On a standalone exporter with a passphrase, every call of a hook's [j] command is
    rejected as unauthenticated, whatever environment the hook inherits (the passphrase
    in it included): the command reaches the server over the Unix socket, the interceptors apply
    to that port too, and the channel to a Unix socket attaches no passphrase. *)
Theorem hook_call_rejected os c host port_number tls p continuation k d h :
  dict_wf (environ os) ->
  is_tcp_address (or_str (hook_socket_path c) (socket_path c)) = false ->
  last_value PASSPHRASE_METADATA_KEY (default [] (ccd_metadata d)) = None ->
  continuation (received d) = Some h ->
  exists ch,
    env_async (create_hook_env os c) = inr ch /\
    call_over ch (serve_tcp_and_unix_async host port_number (hook_socket_path c) tls (Some p))
      continuation k d = Handler (Some (rejection_handler_for h)).
Proof.
  intros Hwf Ht Hm Hc. eexists. split; [by apply hook_channel |].
  unfold call_over, intercept_service. simpl. unfold intercept_service.
  rewrite dict_of_pairs_get. simpl. rewrite Hm. unfold reject. by rewrite Hc.
Qed.

(** ** Concrete instances *)

Definition demo_lease : LeaseInfo :=
  mkLeaseInfo "exp1" "lease-7" [("board", "rpi4"); ("arch", "arm=64")].

Lemma shell_metadata_roundtrip_witness :
  dict_get "arch" (em_labels (from_env
    (build_common_env [("JMP_EXPORTER_LABELS", "board=old")] "/s" [] true (Some demo_lease)
       false None))) = Some "arm=64"%string.
Proof.
  assert (dict_wf [("JMP_EXPORTER_LABELS", "board=old")]) as H1
    by (apply (bool_decide_unpack _); vm_compute; exact I).
  assert (dict_wf (li_exporter_labels demo_lease)) as H2
    by (apply (bool_decide_unpack _); vm_compute; exact I).
  assert (Forall plain_label (li_exporter_labels demo_lease)) as H3
    by (repeat constructor).
  destruct (shell_metadata_roundtrip _ "/s" [] true demo_lease false None H1 H2 H3) as (_ & _ & H).
  exact (H "arch"%string).
Defined.

Definition demo_os : OS :=
  mkOS [("JMP_GRPC_PASSPHRASE", "s3cret")] (fun _ => false) "python3" (fun _ => inr "/tmp/motd").

Definition demo_context : LeaseContext :=
  mkLeaseContext "standalone" false false false false false None "/tmp/h/socket" "/tmp/h/socket" ""
    Enums.AVAILABLE "" false.

Lemma hook_call_rejected_witness :
  exists ch, env_async (create_hook_env demo_os demo_context) = inr ch /\
    call_over ch (serve_tcp_and_unix_async "0.0.0.0" 8443 "/tmp/h/socket" true (Some "s3cret"%string))
      demo_continuation UnaryStream (mkClientCallDetails "LogStream" None None None None) =
    Handler (Some (mkHandler false true abort_unauthenticated)).
Proof.
  assert (dict_wf (environ demo_os)) as H1
    by (apply (bool_decide_unpack _); vm_compute; exact I).
  exact (hook_call_rejected demo_os demo_context "0.0.0.0" 8443 true "s3cret" demo_continuation
    UnaryStream (mkClientCallDetails "LogStream" None None None None)
    (mkHandler false true (Serve "LogStream")) H1 eq_refl eq_refl eq_refl).
Defined.
