(* ===== verification/Supervisor.v ===== *)
(** * The supervisor of an exporter: [jmp run]

    [jumpstarter_cli/run.py]: the options of the command, the child process with its
    signal handler and its exit code, the parent that waits for it, forwards signals and
    reaps orphans, and the loop that restarts the child.

    Signals and processes are events: the theorems quantify over the order in which they
    arrive. Exit statuses are the integers [waitpid] returns. *)

From stdpp Require Import base list strings sets.
From Stdlib Require Import ZArith Lia Ascii.
From S2P Require Import Prelude PyText Enums LeaseContext ExporterState Auth.

Open Scope Z_scope.

(** ** Options *)

Inductive usage_error :=
| ConfigRequired
| ListenerRequired
| InsecureWithCertificate
| TlsRequired
| PortNotInteger (port_str : string)
| PortOutOfRange (port : Z)
| ConfigIsNone.

Definition parse_listener_bind (value : string) : usage_error + string * Z :=
  let '(host, port_str) :=
    match Str.rsplit1 ":"%char value with
    | Some (host, port_str) =>
        (if truthy (Str.strip host) then Str.strip host else "0.0.0.0"%string, port_str)
    | None => ("0.0.0.0"%string, value)
    end in
  match Str.py_int port_str with
  | None => inl (PortNotInteger port_str)
  | Some port =>
      if negb ((1 <=? port) && (port <=? 65535)) then inl (PortOutOfRange port)
      else inr (host, port)
  end.

Record run_options := mkRunOptions {
  config_given : bool;
  listener_bind : option string;
  tls_insecure : bool;
  tls_cert : option string;
  tls_key : option string;
  passphrase : option string;
  exit_on_lease_end_flag : bool
}.

(** The truth value of an optional string. *)
Definition given (o : option string) : bool :=
  match o with Some s => truthy s | None => false end.

(** [run] up to the call of [_serve_with_exc_handling]: the parsed listener. *)
Definition run_checks (o : run_options) : usage_error + option (string * Z) :=
  if is_some (listener_bind o) && negb (config_given o) then inl ConfigRequired
  else if negb (is_some (listener_bind o)) &&
          (tls_insecure o || given (tls_cert o) || given (tls_key o) || given (passphrase o))
  then inl ListenerRequired
  else if is_some (listener_bind o) && tls_insecure o && (given (tls_cert o) || given (tls_key o))
  then inl InsecureWithCertificate
  else if is_some (listener_bind o) && negb (tls_insecure o) &&
          negb (given (tls_cert o) && given (tls_key o))
  then inl TlsRequired
  else if exit_on_lease_end_flag o && negb (config_given o) then inl ConfigIsNone
  else match listener_bind o with
       | None => inr None
       | Some value =>
           match parse_listener_bind value with
           | inl e => inl e
           | inr bind => inr (Some bind)
           end
       end.

(** How [_handle_child] sets the standalone server up: the certificate and key it reads,
    the passphrase of its interceptor. *)
Definition standalone_credentials (o : run_options)
    : option (string * string) * option string :=
  let tls_credentials :=
    if tls_insecure o then None
    else if given (tls_cert o) && given (tls_key o) then
      match tls_cert o, tls_key o with
      | Some cert, Some key => Some (cert, key)
      | _, _ => None
      end
    else None in
  let interceptors := if given (passphrase o) then passphrase o else None in
  (tls_credentials, interceptors).

(** ** The child *)

Inductive signal := SIGHUP | SIGINT | SIGQUIT | SIGTERM.

#[export] Instance signal_eq_dec : EqDecision signal.
Proof. solve_decision. Defined.

Definition signum (s : signal) : Z :=
  match s with SIGHUP => 1 | SIGINT => 2 | SIGQUIT => 3 | SIGTERM => 15 end.

(** The variables [signal_handler] and [serve_with_graceful_shutdown] share; a
    received signal of 0 is none. *)
Record child := mkChild {
  received_signal : Z;
  signal_handled : bool;
  exporter : option Exporter;
  exporter_exit_code : option Z
}.

#[export] Instance set_received_signal : Setter received_signal := fun u r =>
  mkChild (u (received_signal r)) (signal_handled r) (exporter r) (exporter_exit_code r).
#[export] Instance set_signal_handled : Setter signal_handled := fun u r =>
  mkChild (received_signal r) (u (signal_handled r)) (exporter r) (exporter_exit_code r).
#[export] Instance set_exporter : Setter exporter := fun u r =>
  mkChild (received_signal r) (signal_handled r) (u (exporter r)) (exporter_exit_code r).
#[export] Instance set_exporter_exit_code : Setter exporter_exit_code := fun u r =>
  mkChild (received_signal r) (signal_handled r) (exporter r) (u (exporter_exit_code r)).

Definition new_child : child := mkChild 0 false None None.

(** One round of [signal_handler]. *)
Definition on_signal (s : signal) (c : child) : child :=
  if signal_handled c then c
  else
    let c := c <| received_signal := signum s |> in
    match exporter c with
    | None => c
    | Some e =>
        let c := if decide (s = SIGHUP) then c else c <| signal_handled := true |> in
        c <| exporter := Some (stop (bool_decide (s = SIGHUP)) true None e) |>
    end.

(** What happens in the child, in the order in which it happens: the exporter object is
    created, it makes progress of its own, its [serve] ends (and the exit code is read),
    a signal arrives. *)
Inductive child_event :=
| Created (e : Exporter)
| Progress (f : Exporter -> Exporter)
| ServeEnded
| Signalled (s : signal).

Definition child_step (c : child) (ev : child_event) : child :=
  match ev with
  | Created e => c <| exporter := Some e |>
  | Progress f => c <| exporter ::= option_map f |>
  | ServeEnded =>
      match exporter c with
      | Some e => c <| exporter_exit_code := exit_code e |>
      | None => c
      end
  | Signalled s => on_signal s c
  end.

Definition child_run (evs : list child_event) : child := fold_left child_step evs new_child.

(** The value [serve_with_graceful_shutdown] returns. *)
Definition child_exit_code (c : child) : Z :=
  if negb (received_signal c =? 0) then 128 + received_signal c
  else match exporter_exit_code c with Some code => code | None => 0 end.

(** ** Exit statuses *)

(** The status of a process that called [sys.exit(code)], and of one a signal killed
    ([core] for a core dump). *)
Definition exited_status (code : Z) : Z := Z.shiftl (Z.land code 255) 8.
Definition killed_status (sig : Z) (core : bool) : Z := Z.lor sig (if core then 128 else 0).

Definition WTERMSIG (status : Z) : Z := Z.land status 127.
Definition WIFEXITED (status : Z) : bool := WTERMSIG status =? 0.
Definition WEXITSTATUS (status : Z) : Z := Z.land (Z.shiftr status 8) 255.
Definition WIFSIGNALED (status : Z) : bool :=
  negb (WTERMSIG status =? 0) && negb (WTERMSIG status =? 127).

(** ** The parent *)

(** The processes the kernel keeps for the parent: the live ones and, in order, the dead
    ones nobody waited for yet. *)
Record parent := mkParent {
  live : list Z;
  zombies : list (Z * Z);
  child_pid : Z;
  child_status : option Z;
  is_init : bool;
  forwarded : list (Z * signal)
}.

#[export] Instance set_live : Setter live := fun u r =>
  mkParent (u (live r)) (zombies r) (child_pid r) (child_status r) (is_init r) (forwarded r).
#[export] Instance set_zombies : Setter zombies := fun u r =>
  mkParent (live r) (u (zombies r)) (child_pid r) (child_status r) (is_init r) (forwarded r).
#[export] Instance set_child_status : Setter child_status := fun u r =>
  mkParent (live r) (zombies r) (child_pid r) (u (child_status r)) (is_init r) (forwarded r).
#[export] Instance set_forwarded : Setter forwarded := fun u r =>
  mkParent (live r) (zombies r) (child_pid r) (child_status r) (is_init r) (u (forwarded r)).

Definition new_parent (pid : Z) (others : list Z) (init : bool) : parent :=
  mkParent (pid :: others) [] pid None init [].

(** [os.waitpid(-1, WNOHANG)]: a dead child, or none (live ones, or none at all). *)
Definition waitpid_any (p : parent) : option (Z * Z) * parent :=
  match zombies p with
  | [] => (None, p)
  | z :: zs => (Some z, p <| zombies := zs |>)
  end.

(** [_reap_zombie_processes(capture_child)], one round per dead child. *)
Fixpoint reap_loop (fuel : nat) (p : parent) : parent :=
  match fuel with
  | O => p
  | S fuel' =>
      match waitpid_any p with
      | (None, p) => p
      | (Some (pid, status), p) =>
          reap_loop fuel'
            (if pid =? child_pid p then p <| child_status := Some status |> else p)
      end
  end.

Definition reap_zombie_processes (p : parent) : parent := reap_loop (S (length (zombies p))) p.

Inductive parent_signal := SIGCHLD | Other (s : signal).

Definition parent_signal_handler (s : parent_signal) (p : parent) : parent :=
  match s with
  | SIGCHLD => if is_init p then reap_zombie_processes p else p
  | Other s => if 0 <? child_pid p then p <| forwarded ::= fun l => l ++ [(child_pid p, s)] |> else p
  end.

(** What happens while the parent waits: an orphan is adopted, a process dies, a signal
    handler runs (signals coalesce, so a handler runs at any time). *)
Inductive parent_event :=
| Adopted (pid : Z)
| Died (pid status : Z)
| Handled (s : parent_signal).

Definition parent_step (p : parent) (ev : parent_event) : parent :=
  match ev with
  | Adopted pid => p <| live ::= cons pid |>
  | Died pid status =>
      if bool_decide (pid ∈ live p)
      then p <| live ::= filter (fun q => q <> pid) |> <| zombies ::= fun z => z ++ [(pid, status)] |>
      else p
  | Handled s => parent_signal_handler s p
  end.

(** [_wait_for_child]: [None] while the child lives. *)
Definition wait_for_child (p : parent) : option (option Z) :=
  match list_find (fun z => z.1 = child_pid p) (zombies p) with
  | Some (_, (_, status)) => Some (Some status)
  | None =>
      if bool_decide (child_pid p ∈ live p) then None
      else Some (child_status p)
  end.

(** [_handle_parent] from the status on: the exit code of [jmp run], or [None] to restart. *)
Definition parent_result (status : option Z) : option Z :=
  match status with
  | None => None
  | Some status =>
      if WIFEXITED status then
        let child_exit_code := WEXITSTATUS status in
        if child_exit_code =? 0 then None else Some child_exit_code
      else
        let child_exit_signal := if WIFSIGNALED status then WTERMSIG status else 0 in
        Some (128 + child_exit_signal)
  end.

(** [_handle_parent]: [None] while it blocks. *)
Definition handle_parent (pid : Z) (others : list Z) (init : bool) (evs : list parent_event)
    : option (option Z) :=
  option_map parent_result
    (wait_for_child (fold_left parent_step evs (new_parent pid others init))).

(** ** The restart loop *)

Record FailureDetection := mkFailureDetection {
  max_rapid_failures : Z;
  rapid_failure_window : Z
}.

(** One child: what [_handle_parent] returned and how long it ran, in milliseconds. *)
Record run_result := mkRunResult { rr_exit : option Z; rr_elapsed : Z }.

(** [_serve_with_exc_handling] over the children it forks: the exit code, or [None] while
    it goes on restarting. *)
Fixpoint serve_loop (fd : FailureDetection) (exit_on_lease_end : bool) (rapid_failure_count : Z)
    (runs : list run_result) : option Z :=
  match runs with
  | [] => None
  | r :: runs' =>
      match rr_exit r with
      | Some code => Some code
      | None =>
          if exit_on_lease_end then Some 0
          else if rr_elapsed r <? rapid_failure_window fd * 1000 then
            let rapid_failure_count := rapid_failure_count + 1 in
            if max_rapid_failures fd <=? rapid_failure_count then Some 1
            else serve_loop fd exit_on_lease_end rapid_failure_count runs'
          else serve_loop fd exit_on_lease_end 0 runs'
      end
  end.

Definition serve_with_exc_handling (fd : FailureDetection) (exit_on_lease_end : bool)
    (runs : list run_result) : option Z := serve_loop fd exit_on_lease_end 0 runs.

(** ** Options: what a listener is started with *)

Lemma parse_listener_bind_range value host port :
  parse_listener_bind value = inr (host, port) -> 1 <= port <= 65535 /\ host <> EmptyString.
Proof.
  unfold parse_listener_bind. intros H. destruct (Str.rsplit1 _ value) as [[h t]|].
  - destruct (Str.py_int t) as [n|]; [| done].
    destruct ((1 <=? n) && (n <=? 65535)) eqn:E; [| done]. simpl in H. injection H as <- <-.
    apply andb_true_iff in E as [?%Z.leb_le ?%Z.leb_le].
    destruct (Str.strip h) eqn:Es; simpl; done.
  - destruct (Str.py_int value) as [n|]; [| done].
    destruct ((1 <=? n) && (n <=? 65535)) eqn:E; [| done]. simpl in H. injection H as <- <-.
    by apply andb_true_iff in E as [?%Z.leb_le ?%Z.leb_le].
Qed.

(** When [jmp run] goes on to serve, a listener has a valid port and is either
    explicitly insecure or has both certificate and key, in which case the server really
    gets them; a passphrase is only accepted with a listener and then always becomes the
    server's interceptor. *)
Theorem run_listener_secured o bind :
  run_checks o = inr bind ->
  match bind with
  | Some (host, port) =>
      1 <= port <= 65535 /\ host <> EmptyString /\
      (if tls_insecure o then fst (standalone_credentials o) = None /\
                              given (tls_cert o) = false /\ given (tls_key o) = false
       else exists cert key, tls_cert o = Some cert /\ tls_key o = Some key /\
              fst (standalone_credentials o) = Some (cert, key)) /\
      (forall p, passphrase o = Some p -> p <> EmptyString ->
         snd (standalone_credentials o) = Some p)
  | None => tls_insecure o = false /\ given (tls_cert o) = false /\
            given (tls_key o) = false /\ given (passphrase o) = false
  end.
Proof.
  unfold run_checks. destruct o as [cfg lb ins cert key pass eole]; simpl.
  destruct lb as [value|]; simpl.
  - destruct (parse_listener_bind value) as [err|[h q]] eqn:Eb;
      [intros H; split_ifs_in H; discriminate |].
    apply parse_listener_bind_range in Eb as [Hq Hh].
    intros H. destruct cfg; simpl in H; [| discriminate].
    destruct ins; simpl in H.
    + destruct (given cert) eqn:Ec, (given key) eqn:Ek; simpl in H; try discriminate.
      rewrite andb_false_r in H. injection H as <-. split_and!; try (done || lia).
      intros p -> Hp. simpl. by destruct p.
    + destruct (given cert) eqn:Ec, (given key) eqn:Ek; simpl in H; try discriminate.
      rewrite andb_false_r in H. injection H as <-.
      destruct cert as [cert|], key as [key|]; try discriminate.
      split_and!; try (done || lia).
      * by exists cert, key.
      * intros p -> Hp. simpl. by destruct p.
  - intros H. destruct (ins || given cert || given key || given pass) eqn:E; [discriminate |].
    rewrite !orb_false_iff in E. destruct E as [[[-> ->] ->] ->].
    destruct (eole && negb cfg); [discriminate |]. simpl in H. by injection H as <-.
Qed.

(** ** Exit codes *)

Lemma exited_roundtrip code :
  WIFEXITED (exited_status code) = true /\ WEXITSTATUS (exited_status code) = code mod 256.
Proof.
  unfold exited_status, WIFEXITED, WEXITSTATUS, WTERMSIG.
  change 255 with (Z.ones 8). rewrite !Z.land_ones by lia. change 127 with (Z.ones 7).
  rewrite Z.shiftl_mul_pow2, Z.shiftr_div_pow2, Z.div_mul, Z.mod_mod, Z.land_ones by lia.
  split; [| done]. apply Z.eqb_eq.
  replace (code mod 2 ^ 8 * 2 ^ 8) with (code mod 2 ^ 8 * 2 * 2 ^ 7) by lia.
  by rewrite Z.mod_mul by lia.
Qed.

(** ** The parent keeps the status of its child *)

(** The status the child dies with in a sequence of events. *)
Fixpoint death (pid : Z) (evs : list parent_event) : option Z :=
  match evs with
  | [] => None
  | Died q st :: evs' => if q =? pid then Some st else death pid evs'
  | _ :: evs' => death pid evs'
  end.

Definition never_adopted (pid : Z) (evs : list parent_event) : Prop := Adopted pid ∉ evs.

(** Where the status of the child is: the child lives, it is a zombie, or it was reaped
    and its status captured. *)
Inductive child_place (p : parent) : option Z -> Prop :=
| place_live : child_pid p ∈ live p -> child_pid p ∉ (zombies p).*1 -> child_place p None
| place_zombie st : child_pid p ∉ live p -> (child_pid p, st) ∈ zombies p ->
    (forall st', (child_pid p, st') ∈ zombies p -> st' = st) -> child_place p (Some st)
| place_captured st : child_pid p ∉ live p -> child_pid p ∉ (zombies p).*1 ->
    child_status p = Some st -> child_place p (Some st).

Lemma reap_loop_spec fuel p : (length (zombies p) < fuel)%nat ->
  let p' := reap_loop fuel p in
  zombies p' = [] /\ live p' = live p /\ child_pid p' = child_pid p /\
  (child_pid p ∉ (zombies p).*1 -> child_status p' = child_status p) /\
  (forall st, child_pid p ∈ (zombies p).*1 ->
     (forall st', (child_pid p, st') ∈ zombies p -> st' = st) -> child_status p' = Some st).
Proof.
  revert p. induction fuel as [|fuel IH]; intros p Hlt; simpl in *; [lia |].
  unfold waitpid_any. destruct (zombies p) as [|[q st] zs] eqn:Ez; simpl in *.
  { rewrite Ez. split_and!; try done. intros st' Hin. set_solver. }
  set (p1 := if q =? child_pid p then _ else _).
  assert (zombies p1 = zs /\ live p1 = live p /\ child_pid p1 = child_pid p /\
          child_status p1 = if q =? child_pid p then Some st else child_status p)
    as (E1 & E2 & E3 & E4) by (subst p1; by destruct (q =? child_pid p)).
  destruct (IH p1) as (H1 & H2 & H3 & H4 & H5); [rewrite E1; lia |].
  rewrite E1, E3, E4 in *. rewrite E2 in H2. clearbody p1.
  split_and!; try done.
  - intros Hn. rewrite H4 by set_solver.
    destruct (Z.eqb_spec q (child_pid p)); [set_solver | done].
  - intros st0 Hin Hall.
    destruct (decide (child_pid p ∈ zs.*1)) as [Hz|Hz].
    + apply H5; [done |]. intros st' ?. apply Hall. set_solver.
    + rewrite H4 by done. apply elem_of_cons in Hin as [<-|Hin]; [| done].
      rewrite Z.eqb_refl. f_equal. apply Hall. set_solver.
Qed.

Arguments reap_zombie_processes : simpl never.

Ltac keep_place Hp :=
  destruct Hp; [by apply place_live | by apply place_zombie | by apply place_captured].

Lemma child_place_step p ev d :
  child_place p d -> ev <> Adopted (child_pid p) ->
  child_pid (parent_step p ev) = child_pid p /\
  child_place (parent_step p ev)
    match d with Some st => Some st | None => death (child_pid p) [ev] end.
Proof.
  intros Hp Hev. destruct ev as [q|q st|[|s]]; simpl.
  - split; [done |]. assert (q <> child_pid p) by congruence.
    destruct Hp; [apply place_live | apply place_zombie | apply place_captured]; simpl; set_solver.
  - destruct (bool_decide_reflect (q ∈ live p)) as [Hq|Hq]; simpl.
    + split; [done |]. destruct (Z.eqb_spec q (child_pid p)) as [->|Hne].
      * destruct Hp as [Hl Hz|st' Hl|st' Hl]; [| done | done].
        constructor; simpl.
        -- rewrite list_elem_of_filter. naive_solver.
        -- set_solver.
        -- intros st' [Hin|Hin]%elem_of_app; [| set_solver].
           exfalso. apply Hz. by apply (list_elem_of_fmap_2 fst) in Hin.
      * destruct Hp as [Hl Hz|st' Hl Hin Hall|st' Hl Hz Hs];
          [apply place_live | apply place_zombie | apply place_captured]; simpl;
          rewrite ?list_elem_of_filter, ?fmap_app; try set_solver; try naive_solver.
    + split; [done |]. destruct (Z.eqb_spec q (child_pid p)) as [->|Hne]; [| keep_place Hp].
      destruct Hp; [done | by apply place_zombie | by apply place_captured].
  - destruct (is_init p); [| split; [done | keep_place Hp]].
    destruct (reap_loop_spec (S (length (zombies p))) p) as (H1 & H2 & H3 & H4 & H5); [lia |].
    fold (reap_zombie_processes p) in *. split; [done |].
    destruct Hp as [Hl Hz|st' Hl Hin Hall|st' Hl Hz Hs].
    + apply place_live; rewrite H3, ?H2, ?H1; [done | set_solver].
    + apply place_captured; rewrite ?H3, ?H2, ?H1; [done | set_solver |].
      apply H5; [| done]. by apply (list_elem_of_fmap_2 fst) in Hin.
    + apply place_captured; rewrite ?H3, ?H2, ?H1; [done | set_solver |]. by rewrite H4.
  - destruct (0 <? child_pid p); simpl; (split; [done |]); keep_place Hp.
Qed.

Lemma child_place_run evs p d :
  child_place p d -> never_adopted (child_pid p) evs ->
  let p' := fold_left parent_step evs p in
  child_pid p' = child_pid p /\
  child_place p' match d with Some st => Some st | None => death (child_pid p) evs end.
Proof.
  revert p d. induction evs as [|ev evs IH]; intros p d Hp Hn; simpl.
  { split; [done |]. by destruct d. }
  unfold never_adopted in *. rewrite not_elem_of_cons in Hn. destruct Hn as [Hne Hn].
  destruct (child_place_step p ev d Hp) as [E Hp1]; [congruence |].
  destruct (IH (parent_step p ev) _ Hp1) as [E2 Hp2]; [by rewrite E |].
  rewrite E in *. split; [done |].
  destruct d as [st|]; [done |]. simpl in Hp2. destruct ev as [| q st |]; try done.
  by destruct (q =? child_pid p).
Qed.

Lemma wait_for_child_place p d : child_place p d -> wait_for_child p = option_map Some d.
Proof.
  unfold wait_for_child. intros [Hl Hz|st Hl Hin Hall|st Hl Hz Hs].
  - destruct (list_find _ (zombies p)) as [[i [q st]]|] eqn:E.
    + apply list_find_Some in E as (Hi & Hq & _). simpl in Hq. subst q.
      exfalso. apply Hz. apply (list_elem_of_fmap_2 fst _ (child_pid p, st)).
      by eapply list_elem_of_lookup_2.
    + by rewrite bool_decide_eq_true_2.
  - destruct (list_find _ (zombies p)) as [[i [q st']]|] eqn:E.
    + apply list_find_Some in E as (Hi & Hq & _). simpl in Hq. subst q.
      rewrite (Hall st'); [done |]. by eapply list_elem_of_lookup_2.
    + apply list_find_None in E. rewrite Forall_forall in E. by apply E in Hin.
  - destruct (list_find _ (zombies p)) as [[i [q st']]|] eqn:E.
    + apply list_find_Some in E as (Hi & Hq & _). simpl in Hq. subst q.
      exfalso. apply Hz. apply (list_elem_of_fmap_2 fst _ (child_pid p, st')).
      by eapply list_elem_of_lookup_2.
    + rewrite bool_decide_eq_false_2 by done. by rewrite Hs.
Qed.

Lemma handle_parent_death pid others init evs :
  never_adopted pid evs ->
  handle_parent pid others init evs = option_map (fun st => parent_result (Some st)) (death pid evs).
Proof.
  intros Hn. unfold handle_parent.
  destruct (child_place_run evs (new_parent pid others init) None) as [_ Hp].
  { apply place_live; simpl; set_solver. }
  { done. }
  rewrite (wait_for_child_place _ _ Hp). simpl. by destruct (death pid evs).
Qed.

(** The signal of a child is one of the four it handles. *)
Lemma child_signal_range evs :
  received_signal (child_run evs) = 0 \/ exists s, received_signal (child_run evs) = signum s.
Proof.
  unfold child_run. induction evs as [|ev evs IH] using rev_ind; [by left |].
  rewrite fold_left_app. simpl. set (c := fold_left _ _ _) in *. clearbody c.
  destruct ev as [e|f| |s]; simpl; try done.
  - by destruct (exporter c).
  - unfold on_signal. destruct (signal_handled c); [done |].
    right. exists s. destruct c as [? ? [e|] ?]; [| done].
    cbn -[stop]. by destruct (decide (s = SIGHUP)).
Qed.

(** However the child's life and the parent's are interleaved with signals, deaths of
    orphans and runs of the reaping handler, the parent sees the child's own exit: a
    signal the child received is passed on as 128 plus its number, else the exporter's
    exit code modulo 256; a restart happens exactly when that is zero; and the parent
    blocks as long as the child lives. *)
Theorem child_exit_observed child_evs pid others init evs :
  never_adopted pid evs ->
  let c := child_run child_evs in
  (death pid evs = None -> handle_parent pid others init evs = None) /\
  (death pid evs = Some (exited_status (child_exit_code c)) ->
   handle_parent pid others init evs =
   Some (if negb (received_signal c =? 0) then Some (128 + received_signal c)
         else match exporter_exit_code c with
              | None => None
              | Some code => if code mod 256 =? 0 then None else Some (code mod 256)
              end)).
Proof.
  intros Hn c. rewrite handle_parent_death by done. split; intros E; rewrite E; [done |]. simpl.
  destruct (exited_roundtrip (child_exit_code c)) as [-> ->].
  unfold child_exit_code.
  destruct (child_signal_range child_evs) as [Hs|[s Hs]]; fold c in Hs; rewrite Hs.
  - simpl. by destruct (exporter_exit_code c) as [code|].
  - by destruct s.
Qed.

(** ** What a signal does to the exporter *)

Lemma on_signal_cancels rs xc s e b : tg e = Some b -> s <> SIGHUP ->
  let c := on_signal s (mkChild rs false (Some e) xc) in
  exists e2, exporter c = Some e2 /\ tg e2 = Some true /\ unregister e2 = true /\
    received_signal c = signum s /\ forall s', on_signal s' c = c.
Proof.
  intros Ht Hs. destruct s; [done | ..]; simpl; (eexists; split; [reflexivity |]);
    unfold stop; simpl; rewrite orb_true_r, Ht; done.
Qed.

Lemma on_sighup rs xc e b : tg e = Some b ->
  let c := on_signal SIGHUP (mkChild rs false (Some e) xc) in
  exists e1, c = mkChild 1 false (Some e1) xc /\
    (if started e then stop_requested e1 = true /\ tg e1 = Some b else tg e1 = Some true).
Proof.
  intros Ht. eexists. split; [reflexivity |]. unfold stop. simpl. rewrite orb_false_r, Ht.
  destruct (started e); simpl; [| done]. by destruct (stop_requested e) eqn:E; simpl.
Qed.

(** While the exporter serves, SIGINT, SIGQUIT and SIGTERM cancel it at once, also
    after a SIGHUP, and further signals are ignored; a SIGHUP cancels an exporter that has
    not started and otherwise marks it to stop when its lease ends. *)
Theorem signals_stop c e b s :
  signal_handled c = false -> exporter c = Some e -> tg e = Some b -> s <> SIGHUP ->
  exists e1, exporter (on_signal SIGHUP c) = Some e1 /\
    signal_handled (on_signal SIGHUP c) = false /\
    (if started e then stop_requested e1 = true /\ tg e1 = Some b else tg e1 = Some true) /\
  forall c', c' = c \/ c' = on_signal SIGHUP c ->
    exists e2, exporter (on_signal s c') = Some e2 /\ tg e2 = Some true /\ unregister e2 = true /\
      received_signal (on_signal s c') = signum s /\
      forall s', on_signal s' (on_signal s c') = on_signal s c'.
Proof.
  intros Hh He Ht Hs. destruct c as [rs sh ex xc]. simpl in Hh, He. subst sh ex.
  destruct (on_sighup rs xc e b Ht) as (e1 & -> & H1). exists e1.
  split_and!; try done. intros c' [-> | ->].
  - by apply (on_signal_cancels rs xc s e b).
  - destruct (started e); [destruct H1 as [_ H1] |]; by eapply on_signal_cancels.
Qed.

(** A SIGTERM that arrives after the exporter object exists and before [serve] has its
    task group (while it registers) is treated as a SIGHUP, with only a mark to stop when
    the lease ends, and every later signal is ignored, so that it can no longer be
    overridden. *)
Theorem early_sigterm_deferred c e :
  signal_handled c = false -> exporter c = Some e -> tg e = None ->
  exists e1, exporter (on_signal SIGTERM c) = Some e1 /\
    tg e1 = None /\ stop_requested e1 = true /\
    forall f s, child_step (child_step (on_signal SIGTERM c) (Progress f)) (Signalled s) =
                child_step (on_signal SIGTERM c) (Progress f).
Proof.
  intros Hh He Ht. destruct c as [rs sh ex xc]. simpl in Hh, He. subst sh ex.
  eexists. split; [reflexivity |]. unfold stop. simpl. rewrite Ht, orb_true_r. simpl.
  by destruct (stop_requested e) eqn:E; simpl.
Qed.

(** ** The restart loop *)

Definition rapid (fd : FailureDetection) (r : run_result) : bool :=
  rr_elapsed r <? rapid_failure_window fd * 1000.

(** The length of the run of rapid failures that ends a sequence of children. *)
Definition streak (fd : FailureDetection) (count : Z) (runs : list run_result) : Z :=
  fold_left (fun n r => if rapid fd r then n + 1 else 0) runs count.

(** A child after which the loop goes on, given the children before it. *)
Definition restarts (fd : FailureDetection) (count : Z) (before : list run_result)
    (r : run_result) : bool :=
  negb (is_some (rr_exit r)) &&
  (negb (rapid fd r) || (streak fd count (before ++ [r]) <? max_rapid_failures fd)).

Lemma serve_loop_first fd count before r rest :
  (forall i x, before !! i = Some x -> restarts fd count (take i before) x = true) ->
  serve_loop fd false count (before ++ r :: rest) =
  serve_loop fd false (streak fd count before) (r :: rest).
Proof.
  revert count. induction before as [|x before IH]; intros count H; [done |].
  pose proof (H 0%nat x eq_refl) as Hx. unfold restarts in Hx. simpl in Hx.
  apply andb_true_iff in Hx as [Hx1 Hx2].
  assert (forall i y, before !! i = Some y ->
    restarts fd (streak fd count [x]) (take i before) y = true) as H'
    by (intros i y Hy; exact (H (S i) y Hy)).
  simpl. simpl in H', Hx2. destruct (rr_exit x); [done |]. fold (rapid fd x).
  destruct (rapid fd x) eqn:Er; simpl in Hx2.
  - apply Z.ltb_lt in Hx2. destruct (Z.leb_spec (max_rapid_failures fd) (count + 1)); [lia |].
    by apply IH.
  - by apply IH.
Qed.

(** The loop ends with the first child that decides it: its exit code when it has
    one, and 1 exactly when it completes [max_rapid_failures] children in a row (at least
    one) that all exited within the window. A child that ran longer resets the count. *)
Theorem restart_loop_decides fd before r rest :
  (forall i x, before !! i = Some x -> restarts fd 0 (take i before) x = true) ->
  serve_with_exc_handling fd false (before ++ r :: rest) =
  match rr_exit r with
  | Some code => Some code
  | None =>
      if restarts fd 0 before r
      then serve_loop fd false (streak fd 0 (before ++ [r])) rest
      else Some 1
  end.
Proof.
  intros H. unfold serve_with_exc_handling. rewrite serve_loop_first by done. simpl.
  unfold restarts. destruct (rr_exit r) as [code|]; [done |].
  unfold streak. rewrite fold_left_app. simpl. fold (streak fd 0 before). unfold rapid.
  destruct (rr_elapsed r <? rapid_failure_window fd * 1000); simpl; [| done].
  destruct (Z.leb_spec (max_rapid_failures fd) (streak fd 0 before + 1)),
    (Z.ltb_spec (streak fd 0 before + 1) (max_rapid_failures fd)); try lia; done.
Qed.

Lemma serve_loop_rapid fd eole count runs :
  Forall (fun r => rapid fd r = true) runs ->
  max_rapid_failures fd <= count + Z.of_nat (length runs) -> runs <> [] ->
  is_some (serve_loop fd eole count runs) = true.
Proof.
  intros Hr. revert count. induction Hr as [|r runs Hx Hr IH]; intros count Hle Hne; [done |].
  simpl. destruct (rr_exit r); [done |]. destruct eole; [done |].
  unfold rapid in Hx. rewrite Hx.
  destruct (Z.leb_spec (max_rapid_failures fd) (count + 1)); [done |].
  apply IH; [simpl in Hle; lia |]. intros ->. simpl in Hle. lia.
Qed.

Lemma serve_loop_app fd eole count l1 l2 :
  exists count', 0 <= count -> 0 <= count' /\
    (serve_loop fd eole count (l1 ++ l2) = serve_loop fd eole count' l2 \/
     is_some (serve_loop fd eole count (l1 ++ l2)) = true).
Proof.
  revert count. induction l1 as [|r l1 IH]; intros count; [exists count; auto |].
  simpl. destruct (rr_exit r); [exists 0; auto with lia |]. destruct eole; [exists 0; auto with lia |].
  destruct (_ <? _).
  - destruct (_ <=? _); [exists 0; auto with lia |].
    destruct (IH (count + 1)) as [c' H]. exists c'. intros. apply H. lia.
  - destruct (IH 0) as [c' H]. exists c'. intros. apply H. lia.
Qed.

(** The loop does not restart a child that keeps failing for ever: whatever happened
    before, it has ended after [max_rapid_failures] (at least one) children in a row that
    exited within the window. *)
Theorem rapid_failures_end fd eole before runs :
  Forall (fun r => rapid fd r = true) runs -> runs <> [] ->
  max_rapid_failures fd <= Z.of_nat (length runs) ->
  is_some (serve_with_exc_handling fd eole (before ++ runs)) = true.
Proof.
  intros Hr Hne Hle. unfold serve_with_exc_handling.
  destruct (serve_loop_app fd eole 0 before runs) as [c H].
  destruct (H ltac:(lia)) as [Hc [-> | ?]]; [| done].
  apply serve_loop_rapid; [done | lia | done].
Qed.

(** ** Concrete instances *)

Lemma run_listener_secured_witness :
  run_checks (mkRunOptions true (Some "8443"%string) false (Some "c.pem"%string)
    (Some "k.pem"%string) (Some "s3cret"%string) false) = inr (Some ("0.0.0.0"%string, 8443)) /\
  snd (standalone_credentials (mkRunOptions true (Some "8443"%string) false (Some "c.pem"%string)
    (Some "k.pem"%string) (Some "s3cret"%string) false)) = Some "s3cret"%string.
Proof.
  split; [reflexivity |].
  destruct (run_listener_secured (mkRunOptions true (Some "8443"%string) false
    (Some "c.pem"%string) (Some "k.pem"%string) (Some "s3cret"%string) false)
    (Some ("0.0.0.0"%string, 8443)) eq_refl) as (_ & _ & _ & H).
  apply H; [reflexivity | discriminate].
Defined.

(** An exporter that has its task group and a lease, one that registers. *)
Definition serving_exporter : Exporter :=
  mkExporter true false false true true (Some false) LEASE_READY None false None None true (Some 0%nat)
    false false None false.
Definition registering_exporter : Exporter :=
  mkExporter false false false true false None OFFLINE None false None None false None
    false false None false.

Lemma signals_stop_witness :
  exists e2, exporter (on_signal SIGTERM (mkChild 0 false (Some serving_exporter) None)) = Some e2 /\
    tg e2 = Some true.
Proof.
  destruct (signals_stop (mkChild 0 false (Some serving_exporter) None) serving_exporter false SIGTERM
    eq_refl eq_refl eq_refl ltac:(discriminate)) as (e1 & _ & _ & _ & H).
  destruct (H _ (or_introl eq_refl)) as (e2 & H1 & H2 & _). eauto.
Defined.

Lemma early_sigterm_deferred_witness :
  exists e1, exporter (on_signal SIGTERM (mkChild 0 false (Some registering_exporter) None)) = Some e1 /\
    tg e1 = None /\ stop_requested e1 = true.
Proof.
  destruct (early_sigterm_deferred (mkChild 0 false (Some registering_exporter) None)
    registering_exporter eq_refl eq_refl eq_refl) as (e1 & H1 & H2 & H3 & _). eauto.
Defined.

(** The child gets a SIGTERM while an orphan dies and is reaped. *)
Definition demo_child : list child_event :=
  [Created serving_exporter; Signalled SIGTERM; ServeEnded].
Definition demo_parent : list parent_event :=
  [Adopted 40; Handled (Other SIGTERM); Died 40 0; Handled SIGCHLD;
   Died 7 (exited_status (child_exit_code (child_run demo_child))); Handled SIGCHLD].

Lemma child_exit_observed_witness : handle_parent 7 [] true demo_parent = Some (Some 143).
Proof.
  destruct (child_exit_observed demo_child 7 [] true demo_parent) as [_ H].
  - unfold never_adopted, demo_parent. rewrite !not_elem_of_cons.
    repeat split; try discriminate. apply not_elem_of_nil.
  - exact (H eq_refl).
Defined.

Definition demo_fd : FailureDetection := mkFailureDetection 2 60.

Lemma restart_loop_decides_witness :
  serve_with_exc_handling demo_fd false
    ([mkRunResult None 500; mkRunResult None 90000] ++ mkRunResult None 10 :: [mkRunResult None 20]) = Some 1.
Proof.
  rewrite (restart_loop_decides demo_fd [mkRunResult None 500; mkRunResult None 90000]
    (mkRunResult None 10) [mkRunResult None 20]); [reflexivity |].
  intros [|[|i]] x [= <-]; reflexivity.
Defined.

Lemma rapid_failures_end_witness :
  is_some (serve_with_exc_handling demo_fd false
    ([mkRunResult None 90000] ++ [mkRunResult None 10; mkRunResult None 20])) = true.
Proof.
  apply (rapid_failures_end demo_fd false [mkRunResult None 90000]
    [mkRunResult None 10; mkRunResult None 20]); [repeat constructor | discriminate | vm_compute; discriminate].
Defined.
