(* ===== verification/CliErrors.v ===== *)
(** * Errors of the command line

    [jumpstarter_cli_common/exceptions.py]: how the exceptions of a command, alone or in
    nested exception groups, become messages for the user, and the decorator that
    authenticates again and retries once when a token has expired.

    An exception carries the classes it is an instance of; a command and the login
    function are external and answer call by call. *)

From stdpp Require Import base list strings pretty.
From Stdlib Require Import ZArith Lia.
From S2P Require Import Prelude PyText.

(** ** Exceptions *)

(** The classes the code asks for. *)
Inductive exc_class :=
| CTimeoutError | CSSLCertVerificationError | CSSLError | Cgaierror | CConnectionRefusedError
| CFileNotFoundError | CPermissionError | CJSONDecodeError | CAbort | COSError
| CJumpstarterException | CConnectionError | CClickException | CReauthSucceeded
| CKeyboardInterrupt | CException
| CAioRpcError | CDriverError | CExporterUnreachableError | CExporterOfflineError | CLeaseError
| CUsageError | CCancelled | CClosedResourceError.

#[export] Instance exc_class_eq_dec : EqDecision exc_class.
Proof. solve_decision. Defined.

(** What reading an attribute and calling it gives. *)
Inductive attr := NoAttr | NotCallable | CallRaises | Returns (s : string).

(** An exception: the classes it is an instance of, its text, what [exc.code()] (the name
    of the status) and [exc.details()] give; or a group. *)
#[warnings="-register-all"]
Inductive exc :=
| Leaf (classes : list exc_class) (str : string) (code details : attr)
| Group (message : string) (exceptions : list exc).

Definition isinstance (e : exc) (c : exc_class) : bool :=
  match e with
  | Leaf classes _ _ _ => bool_decide (c ∈ classes)
  | Group _ _ => false
  end.

Arguments isinstance : simpl never.

(** [str(e)]. *)
Definition exc_text (e : exc) : string :=
  match e with
  | Leaf _ s _ _ => s
  | Group m es =>
      (m ++ " (" ++ pretty (length es) ++ " sub-exception"
       ++ (if (length es =? 1)%nat then EmptyString else "s") ++ ")")%string
  end.

Definition ClickExceptionRed (message : string) : exc :=
  Leaf [CClickException; CException] message NoAttr NoAttr.

(** The leaves of a group, nested groups flattened in order. *)
Fixpoint leaves (e : exc) : list exc :=
  match e with
  | Leaf _ _ _ _ => [e]
  | Group _ es => (fix go (l : list exc) : list exc :=
                   match l with [] => [] | x :: l' => leaves x ++ go l' end) es
  end.

Definition leaf_exceptions (exceptions : list exc) : list exc := flat_map leaves exceptions.

Definition find_exception_in_group (exceptions : list exc) (c : exc_class) : option exc :=
  find (fun e => isinstance e c) (leaf_exceptions exceptions).

(** ** Messages *)

Definition append_details (base_message details : string) : string :=
  if truthy details then (base_message ++ " Details: " ++ details)%string else base_message.

Definition contains (needle haystack : string) : bool := Str.str_contains needle haystack.

Definition map_runtime_exception (e : exc) (message message_lower : string) : option exc :=
  if isinstance e CTimeoutError then
    Some (ClickExceptionRed (append_details
      "Operation timed out. Check connectivity and retry. If this happened while flashing, verify the board is reachable/in flashing mode and increase retries or timeout." message))
  else if isinstance e CSSLCertVerificationError
          || (isinstance e CSSLError && contains "certificate verify failed" message_lower) then
    Some (ClickExceptionRed (append_details
      "TLS certificate validation failed. Verify the endpoint certificate chain or configure the correct CA certificate. Use insecure TLS only for testing." message))
  else if isinstance e Cgaierror then
    Some (ClickExceptionRed ("Could not resolve host name. Check the endpoint DNS name and network settings. Details: " ++ message))
  else if isinstance e CConnectionRefusedError then
    Some (ClickExceptionRed ("Connection was refused by the remote endpoint. Verify endpoint/port and that the service is running. Details: " ++ message))
  else if isinstance e CFileNotFoundError then
    Some (ClickExceptionRed ("File not found. Verify the path and retry. Details: " ++ message))
  else if isinstance e CPermissionError then
    Some (ClickExceptionRed ("Permission denied while accessing a required resource. Details: " ++ message))
  else if isinstance e CJSONDecodeError then
    Some (ClickExceptionRed ("Received invalid JSON data from a remote endpoint. Verify the service/proxy response. Details: " ++ message))
  else if isinstance e CAbort then Some (ClickExceptionRed "Aborted by user.")
  else if isinstance e COSError then
    Some (ClickExceptionRed ("Local system error while performing the operation. Details: " ++ message))
  else None.

Definition extract_grpc_code_and_details (e : exc) : option string * string :=
  match e with
  | Leaf _ _ code details =>
      (match code with Returns name => Some name | _ => None end,
       match details with Returns s => s | _ => EmptyString end)
  | Group _ _ => (None, EmptyString)
  end.

Definition map_grpc_exception (e : exc) : option exc :=
  let '(code, details) := extract_grpc_code_and_details e in
  let details_lower := Str.lower details in
  let is_code name := match code with Some c => String.eqb c name | None => false end in
  if is_code "DEADLINE_EXCEEDED" then
    Some (ClickExceptionRed (append_details
      "Operation timed out while waiting for a response from the service." details))
  else if is_code "UNAVAILABLE" &&
          (contains "certificate verify failed" details_lower
           || contains "certificate" details_lower || contains "tls" details_lower) then
    Some (ClickExceptionRed (append_details
      "TLS connection failed while connecting to the service. Verify certificates/CA settings." details))
  else if is_code "UNAVAILABLE" then
    Some (ClickExceptionRed (append_details
      "Service is temporarily unavailable or unreachable. Verify endpoint/network and retry." details))
  else if is_code "UNAUTHENTICATED" || is_code "PERMISSION_DENIED" then
    Some (ClickExceptionRed (append_details
      "Authentication or authorization failed. Run 'jmp login' and verify access permissions." details))
  else if is_code "INVALID_ARGUMENT" then
    Some (ClickExceptionRed (append_details
      "Invalid request arguments were sent to the service. Verify command options and configuration." details))
  else if is_code "FAILED_PRECONDITION" then
    Some (ClickExceptionRed (append_details
      "A precondition for the requested operation was not met. Check resource state and retry." details))
  else None.

Definition map_common_exception (e : exc) : option exc :=
  let message := exc_text e in
  let message_lower := Str.lower message in
  match map_runtime_exception e message message_lower with
  | Some mapped => Some mapped
  | None => map_grpc_exception e
  end.

Definition map_cli_exception (e : exc) : option exc :=
  match map_common_exception e with
  | Some common_exc => Some common_exc
  | None =>
      if isinstance e CJumpstarterException then Some (ClickExceptionRed (exc_text e))
      else if isinstance e CKeyboardInterrupt then Some (ClickExceptionRed "Cancelled by user.")
      else if isinstance e CClickException then Some e
      else None
  end.

(** ** Decorators without re-authentication *)

(** A group is an [Exception] when all its leaves are. *)
Definition is_exception (e : exc) : bool :=
  forallb (fun l => isinstance l CException) (leaves e).

Fixpoint first_mapped (es : list exc) : option exc :=
  match es with
  | [] => None
  | e :: es' => match map_cli_exception e with Some m => Some m | None => first_mapped es' end
  end.

(** The exception [async_handle_exceptions] raises for [e]. *)
Definition async_handle_exceptions (e : exc) : exc :=
  match e with
  | Group _ es => default e (first_mapped (leaf_exceptions es))
  | Leaf _ _ _ _ =>
      if isinstance e CException || isinstance e CKeyboardInterrupt
      then default e (map_cli_exception e) else e
  end.

Definition handle_exceptions (e : exc) : exc :=
  if is_exception e || isinstance e CKeyboardInterrupt
  then default e (map_cli_exception e) else e.

(** ** Re-authentication *)

(** The external calls made so far: of the command, of the login function. *)
Record calls := mkCalls { func_calls : nat; login_calls : nat }.

Section Reauth.

Context {A : Type}.

(** The outcome of the [n]-th call of the command and of the login function. *)
Context (func : nat -> exc + A) (login_func : nat -> option exc).

Definition M (B : Type) : Type := calls -> (exc + B) * calls.

Definition ReauthSucceeded : exc :=
  Leaf [CReauthSucceeded; CException] EmptyString NoAttr NoAttr.

(** Handlers raise or return. *)
Definition handle_connection_error_with_reauth (e : exc) : M unit := fun st =>
  if contains "expired" (Str.lower (exc_text e)) then
    let st' := mkCalls (func_calls st) (S (login_calls st)) in
    match login_func (login_calls st) with
    | Some reauth_exc =>
        if is_exception reauth_exc
        then (inl (ClickExceptionRed ("Re-authentication failed: " ++ exc_text reauth_exc)), st')
        else (inl reauth_exc, st')
    | None => (inl ReauthSucceeded, st')
    end
  else (inl (ClickExceptionRed (exc_text e)), st).

Definition handle_single_exception_with_reauth (e : exc) : M unit := fun st =>
  if isinstance e CConnectionError then handle_connection_error_with_reauth e st
  else match map_cli_exception e with
       | Some cli_exc => (inl cli_exc, st)
       | None => (inr tt, st)
       end.

Fixpoint handle_leaves (es : list exc) (st : calls) : (exc + unit) * calls :=
  match es with
  | [] => (inr tt, st)
  | e :: es' =>
      match handle_single_exception_with_reauth e st with
      | (inl e', st) => (inl e', st)
      | (inr _, st) => handle_leaves es' st
      end
  end.

Definition handle_exception_group_with_reauth (eg : exc) (es : list exc) : M unit := fun st =>
  match handle_leaves (leaf_exceptions es) st with
  | (inl e', st) => (inl e', st)
  | (inr _, st) => (inl eg, st)
  end.

(** [True] when the handler authenticated again. *)
Definition try_reauth_or_handle (handler : M unit) (allow_reauth : bool) : M bool := fun st =>
  match handler st with
  | (inl e, st) =>
      if allow_reauth && isinstance e CReauthSucceeded then (inr true, st) else (inl e, st)
  | (inr _, st) => (inr false, st)
  end.

(** The result ([None] without one) and whether to retry. *)
Definition call_with_exception_handling (allow_reauth : bool) : M (option A * bool) := fun st =>
  let st1 := mkCalls (S (func_calls st)) (login_calls st) in
  let retry_or_none (r : (exc + bool) * calls) : (exc + option A * bool) * calls :=
    match r with
    | (inl e, st) => (inl e, st)
    | (inr needs_retry, st) => (inr (None, needs_retry), st)
    end in
  match func (func_calls st) with
  | inr result => (inr (Some result, false), st1)
  | inl e =>
      if isinstance e CReauthSucceeded then
        (inl (ClickExceptionRed "Unexpected re-auth signal"), st1)
      else match e with
      | Group _ es =>
          retry_or_none (try_reauth_or_handle (handle_exception_group_with_reauth e es) allow_reauth st1)
      | Leaf _ _ _ _ =>
          if isinstance e CConnectionError || isinstance e CJumpstarterException
             || isinstance e CClickException then
            if isinstance e CConnectionError && negb allow_reauth
            then (inl (ClickExceptionRed (exc_text e)), st1)
            else retry_or_none
                   (try_reauth_or_handle (handle_single_exception_with_reauth e) allow_reauth st1)
          else if isinstance e CException || isinstance e CKeyboardInterrupt
          then (inl (default e (map_cli_exception e)), st1)
          else (inl e, st1)
      end
  end.

(** The decorated command, called once. *)
Definition handle_exceptions_with_reauthentication : M (option A) := fun st =>
  match call_with_exception_handling true st with
  | (inl e, st) => (inl e, st)
  | (inr (result, false), st) => (inr result, st)
  | (inr (_, true), st) =>
      match call_with_exception_handling false st with
      | (inl e, st) => (inl e, st)
      | (inr (result, _), st) => (inr result, st)
      end
  end.

End Reauth.

(** ** Lemmas *)

Definition click (e : exc) : Prop := isinstance e CClickException = true.

Lemma click_red m : click (ClickExceptionRed m).
Proof. done. Qed.

#[export] Hint Resolve click_red : jmp.

Lemma map_runtime_click e m l e' : map_runtime_exception e m l = Some e' -> click e'.
Proof. unfold map_runtime_exception. intros H. split_ifs_in H; try done; injection H as <-; done. Qed.

Lemma map_grpc_click e e' : map_grpc_exception e = Some e' -> click e'.
Proof.
  unfold map_grpc_exception. destruct (extract_grpc_code_and_details e) as [code details].
  intros H. split_ifs_in H; try done; injection H as <-; done.
Qed.

Lemma map_cli_click e e' : map_cli_exception e = Some e' -> click e'.
Proof.
  unfold map_cli_exception, map_common_exception. intros H.
  destruct (map_runtime_exception _ _ _) eqn:E1.
  { injection H as <-. by eapply map_runtime_click. }
  destruct (map_grpc_exception e) eqn:E2.
  { injection H as <-. by eapply map_grpc_click. }
  destruct (isinstance e CJumpstarterException); [by injection H as <- |].
  destruct (isinstance e CKeyboardInterrupt); [by injection H as <- |].
  destruct (isinstance e CClickException) eqn:E; [| done]. by injection H as <-.
Qed.

(** The classes of errors the user is told about. *)
Definition reported (e : exc) : bool :=
  existsb (isinstance e)
    [CTimeoutError; CSSLCertVerificationError; Cgaierror; CConnectionRefusedError;
     CFileNotFoundError; CPermissionError; CJSONDecodeError; CAbort; COSError;
     CJumpstarterException; CKeyboardInterrupt; CClickException].

Lemma reported_mapped e : reported e = true -> exists e', map_cli_exception e = Some e'.
Proof.
  unfold map_cli_exception. destruct (map_common_exception e) as [m|] eqn:Em; [eauto |].
  unfold map_common_exception in Em.
  destruct (map_runtime_exception e _ _) as [m|] eqn:Er; [done |]. clear Em.
  unfold map_runtime_exception in Er. unfold reported. simpl.
  repeat match type of Er with context [if ?b then _ else _] => destruct b eqn:?; [done |] end.
  repeat match goal with H : _ || _ = false |- _ => apply orb_false_iff in H as [? ?] end.
  repeat match goal with H : isinstance e _ = false |- _ => rewrite H; clear H end. simpl.
  destruct (isinstance e CJumpstarterException); [eauto |].
  destruct (isinstance e CKeyboardInterrupt); [eauto |].
  destruct (isinstance e CClickException); [eauto | done].
Qed.

(** The class hierarchy, as far as the handlers rely on it. *)
Definition well_classed (e : exc) : Prop :=
  (isinstance e CConnectionError = true -> isinstance e CJumpstarterException = true) /\
  (isinstance e CJumpstarterException = true -> isinstance e CException = true) /\
  (isinstance e CClickException = true -> isinstance e CException = true).

Definition is_leaf (e : exc) : bool := match e with Leaf _ _ _ _ => true | Group _ _ => false end.

Lemma leaf_is_exception e : is_leaf e = true -> is_exception e = isinstance e CException.
Proof. destruct e; [| done]. intros _. unfold is_exception. simpl. by rewrite andb_true_r. Qed.

(** What the user sees of an error that is not retried. *)
Definition surface (e : exc) : exc :=
  if isinstance e CConnectionError then ClickExceptionRed (exc_text e) else handle_exceptions e.

Definition expired (e : exc) : bool :=
  isinstance e CConnectionError && contains "expired" (Str.lower (exc_text e)).

(** A mapped error is the re-authentication signal only when the error was. *)
Lemma mapped_no_signal e m :
  isinstance e CReauthSucceeded = false -> map_cli_exception e = Some m ->
  isinstance m CReauthSucceeded = false.
Proof.
  intros Hr Hm. unfold map_cli_exception, map_common_exception in Hm.
  destruct (map_runtime_exception e _ _) eqn:E1.
  { unfold map_runtime_exception in E1. split_ifs_in E1; try done;
      injection E1 as <-; injection Hm as <-; done. }
  destruct (map_grpc_exception e) eqn:E2.
  { unfold map_grpc_exception in E2. destruct (extract_grpc_code_and_details e).
    split_ifs_in E2; try done; injection E2 as <-; injection Hm as <-; done. }
  split_ifs_in Hm; try done; injection Hm as <-; done.
Qed.

Section ReauthFacts.

Context {A : Type} (func : nat -> exc + A) (login_func : nat -> option exc).

(** An error that is neither retried nor in a group. *)
Lemma call_leaf_surfaces allow e st :
  func (func_calls st) = inl e -> is_leaf e = true -> well_classed e ->
  isinstance e CReauthSucceeded = false -> allow && expired e = false ->
  call_with_exception_handling func login_func allow st =
    (inl (surface e), mkCalls (S (func_calls st)) (login_calls st)).
Proof.
  intros Hf Hl (W1 & W2 & W3) Hr Hx. unfold call_with_exception_handling. rewrite Hf, Hr.
  destruct e as [cl s code det|]; [| done]. set (e := Leaf cl s code det) in *.
  unfold surface, handle_exceptions. rewrite leaf_is_exception by done.
  destruct (isinstance e CConnectionError) eqn:Ec; simpl.
  - destruct allow; simpl in *; [| done].
    unfold try_reauth_or_handle, handle_single_exception_with_reauth,
      handle_connection_error_with_reauth.
    rewrite Ec. unfold expired in Hx. rewrite Ec in Hx. cbn [andb] in Hx. by rewrite Hx.
  - destruct (isinstance e CJumpstarterException || isinstance e CClickException) eqn:Ej.
    + assert (isinstance e CException = true) as -> by (apply orb_true_iff in Ej as [?|?]; auto).
      simpl. destruct (reported_mapped e) as [m Hm].
      { unfold reported. simpl. apply orb_true_iff in Ej as [-> | ->]; rewrite ?orb_true_r; done. }
      unfold try_reauth_or_handle, handle_single_exception_with_reauth. rewrite Ec, Hm. simpl.
      rewrite (mapped_no_signal e m) by done. by rewrite andb_false_r.
    + by destruct (isinstance e CException || isinstance e CKeyboardInterrupt).
Qed.

Lemma call_returns allow a st : func (func_calls st) = inr a ->
  call_with_exception_handling func login_func allow st =
    (inr (Some a, false), mkCalls (S (func_calls st)) (login_calls st)).
Proof. intros H. unfold call_with_exception_handling. by rewrite H. Qed.

Lemma call_expired e st :
  func (func_calls st) = inl e -> is_leaf e = true -> isinstance e CReauthSucceeded = false ->
  expired e = true ->
  call_with_exception_handling func login_func true st =
    (match login_func (login_calls st) with
     | None => inr (None, true)
     | Some x => inl (if is_exception x
                      then ClickExceptionRed ("Re-authentication failed: " ++ exc_text x) else x)
     end, mkCalls (S (func_calls st)) (S (login_calls st))) \/
  exists x, login_func (login_calls st) = Some x /\ isinstance x CReauthSucceeded = true.
Proof.
  intros Hf Hl Hr Hx. unfold expired in Hx. apply andb_true_iff in Hx as [Hc Ht].
  unfold call_with_exception_handling. rewrite Hf, Hr. destruct e as [cl s code det|]; [| done].
  rewrite Hc. simpl. unfold try_reauth_or_handle, handle_single_exception_with_reauth,
    handle_connection_error_with_reauth. rewrite Hc, Ht. simpl.
  destruct (login_func (login_calls st)) as [x|]; [| by left].
  destruct (isinstance x CReauthSucceeded) eqn:Ex; [by right; exists x |].
  left. destruct (is_exception x); simpl; [done |]. by rewrite Ex.
Qed.

End ReauthFacts.

(** ** The decorated command *)

Section ReauthBounds.

Context {A : Type} (func : nat -> exc + A) (login_func : nat -> option exc).

(** The calls made between two states. *)
Definition within (n : nat) (st st' : calls) : Prop :=
  func_calls st' = func_calls st /\ login_calls st <= login_calls st' <= login_calls st + n.

Lemma handle_single_within e st : within 1 st (snd (handle_single_exception_with_reauth login_func e st)).
Proof.
  unfold handle_single_exception_with_reauth, handle_connection_error_with_reauth, within.
  split_ifs; simpl; lia.
Qed.

Lemma handle_leaves_within es st : within 1 st (snd (handle_leaves login_func es st)).
Proof.
  revert st. induction es as [|e es IH]; intros st; simpl; [unfold within; simpl; lia |].
  pose proof (handle_single_within e st) as H.
  unfold handle_single_exception_with_reauth, handle_connection_error_with_reauth in *.
  destruct (isinstance e CConnectionError); [| by destruct (map_cli_exception e)].
  destruct (contains _ _); [| done].
  destruct (login_func _) as [x|]; [| done]. by destruct (is_exception x).
Qed.

Lemma call_within allow st :
  let '(r, st') := call_with_exception_handling func login_func allow st in
  func_calls st' = S (func_calls st) /\ login_calls st <= login_calls st' <= S (login_calls st) /\
  (forall x, r = inr (x, true) -> allow = true).
Proof.
  unfold call_with_exception_handling. destruct (func (func_calls st)) as [e|a]; [| simpl; split_and!; try lia; done].
  destruct (isinstance e CReauthSucceeded); [simpl; split_and!; try lia; done |].
  destruct e as [cl s code det|m es].
  - set (e := Leaf cl s code det).
    destruct (isinstance e CConnectionError || _ || _).
    + destruct (isinstance e CConnectionError && negb allow); [simpl; split_and!; try lia; done |].
      unfold try_reauth_or_handle.
      pose proof (handle_single_within e (mkCalls (S (func_calls st)) (login_calls st))) as [H1 H2].
      destruct (handle_single_exception_with_reauth _ _ _) as [[x|[]] st'] eqn:E; simpl in *; [| split_and!; try lia; done].
      destruct (allow && isinstance x CReauthSucceeded) eqn:Ea; simpl in *; split_and!; try lia; try done.
      by apply andb_true_iff in Ea as [-> _].
    + destruct (_ || _); simpl; split_and!; try lia; done.
  - unfold try_reauth_or_handle, handle_exception_group_with_reauth.
    pose proof (handle_leaves_within (leaf_exceptions es) (mkCalls (S (func_calls st)) (login_calls st))) as [H1 H2].
    destruct (handle_leaves _ _ _) as [[x|[]] st'] eqn:E; simpl in *.
    + destruct (allow && isinstance x CReauthSucceeded) eqn:Ea; simpl in *; split_and!; try lia; try done.
      by apply andb_true_iff in Ea as [-> _].
    + destruct (allow && _) eqn:Ea; simpl in *; split_and!; try lia; try done.
      apply andb_true_iff in Ea as [_ Ea]. by unfold isinstance in Ea.
Qed.

End ReauthBounds.

(** One call of a decorated command runs the command at most twice and logs in at most
    once per run, whatever the command and the login do. A lone error is retried exactly
    when it is a connection error that mentions an expired token and the login succeeds;
    the retry's outcome is final, and every other lone error is surfaced at once without a
    login. *)
Theorem reauth_retries_once {A} (func : nat -> exc + A) login_func :
  let '(r, st) := handle_exceptions_with_reauthentication func login_func (mkCalls 0 0) in
  1 <= func_calls st <= 2 /\ login_calls st <= func_calls st /\
  forall e,
    func 0 = inl e -> is_leaf e = true -> well_classed e -> isinstance e CReauthSucceeded = false ->
    (forall x, login_func 0 = Some x -> isinstance x CReauthSucceeded = false) ->
    (forall e2, func 1 = inl e2 ->
       is_leaf e2 = true /\ well_classed e2 /\ isinstance e2 CReauthSucceeded = false) ->
    (r, st) =
    if expired e then
      match login_func 0 with
      | None => match func 1 with
                | inr a => (inr (Some a), mkCalls 2 1)
                | inl e2 => (inl (surface e2), mkCalls 2 1)
                end
      | Some x => (inl (if is_exception x
                        then ClickExceptionRed ("Re-authentication failed: " ++ exc_text x) else x),
                   mkCalls 1 1)
      end
    else (inl (surface e), mkCalls 1 0).
Proof.
  assert (forall e, func 0 = inl e -> is_leaf e = true -> well_classed e ->
    isinstance e CReauthSucceeded = false ->
    (forall x, login_func 0 = Some x -> isinstance x CReauthSucceeded = false) ->
    (forall e2, func 1 = inl e2 ->
       is_leaf e2 = true /\ well_classed e2 /\ isinstance e2 CReauthSucceeded = false) ->
    handle_exceptions_with_reauthentication func login_func (mkCalls 0 0) =
    if expired e then
      match login_func 0 with
      | None => match func 1 with
                | inr a => (inr (Some a), mkCalls 2 1)
                | inl e2 => (inl (surface e2), mkCalls 2 1)
                end
      | Some x => (inl (if is_exception x
                        then ClickExceptionRed ("Re-authentication failed: " ++ exc_text x) else x),
                   mkCalls 1 1)
      end
    else (inl (surface e), mkCalls 1 0)) as Hspec.
  { intros e Hf Hl Hw Hr Hlog H2. unfold handle_exceptions_with_reauthentication.
    destruct (expired e) eqn:Ex.
    - destruct (call_expired func login_func e (mkCalls 0 0)) as [-> | (x & Hx & Hx')]; try done.
      + simpl. destruct (login_func 0) as [x|]; [done |].
        destruct (func 1) as [e2|a] eqn:E1.
        * destruct (H2 e2 eq_refl) as (? & ? & ?).
          by rewrite (call_leaf_surfaces func login_func false e2 (mkCalls 1 1)).
        * by rewrite (call_returns func login_func false a (mkCalls 1 1)).
      + simpl in Hx. by rewrite (Hlog x Hx) in Hx'.
    - rewrite (call_leaf_surfaces func login_func true e (mkCalls 0 0)); done. }
  destruct (handle_exceptions_with_reauthentication func login_func (mkCalls 0 0)) as [r st] eqn:E.
  split; [| split; [| done]]; unfold handle_exceptions_with_reauthentication in E;
    pose proof (call_within func login_func true (mkCalls 0 0)) as H1;
    destruct (call_with_exception_handling func login_func true _) as [[x|[y []]] st1];
    destruct H1 as (F1 & L1 & _); simpl in F1, L1;
    try (injection E as <- <-; simpl; lia);
    pose proof (call_within func login_func false st1) as H2;
    destruct (call_with_exception_handling func login_func false st1) as [[x2|[y2 b2]] st2];
    destruct H2 as (F2 & L2 & _); injection E as <- <-; simpl in *; lia.
Qed.

Lemma first_mapped_click es e : first_mapped es = Some e -> click e.
Proof.
  induction es as [|x es IH]; simpl; [done |].
  destruct (map_cli_exception x) eqn:E; [| done]. intros [= <-]. by eapply map_cli_click.
Qed.

Lemma first_mapped_reported es : existsb reported es = true -> exists e, first_mapped es = Some e.
Proof.
  induction es as [|x es IH]; simpl; [done |]. intros [H|H]%orb_true_iff.
  - destruct (reported_mapped x H) as [m ->]. eauto.
  - destruct (map_cli_exception x); eauto.
Qed.

(** An error that the login is not tried for: no expired token, and not the signal of a
    login that succeeded. *)
Definition no_login (e : exc) : Prop :=
  well_classed e /\ isinstance e CReauthSucceeded = false /\ expired e = false.

(** The first handled leaf of a group surfaces. *)
Lemma handle_leaves_click login_func es st :
  Forall no_login es -> existsb reported es = true ->
  exists e', handle_leaves login_func es st = (inl e', st) /\ click e' /\
             isinstance e' CReauthSucceeded = false.
Proof.
  induction 1 as [|e es (_ & Hs & Hx) _ IH]; simpl; [done |]. intros Hr.
  unfold handle_single_exception_with_reauth, handle_connection_error_with_reauth.
  unfold expired in Hx. destruct (isinstance e CConnectionError); simpl in Hx.
  { rewrite Hx. by eexists. }
  destruct (map_cli_exception e) as [m|] eqn:Em.
  { exists m. split_and!; [done | by eapply map_cli_click | by eapply mapped_no_signal]. }
  apply orb_true_iff in Hr as [Hr|Hr]; [| by apply IH].
  destruct (reported_mapped e Hr). congruence.
Qed.

Lemma reported_group m es :
  existsb reported (leaves (Group m es)) = existsb reported (leaf_exceptions es).
Proof.
  unfold leaf_exceptions. simpl. induction es as [|x es IH]; simpl; [done |].
  by rewrite !existsb_app, IH.
Qed.

Lemma leaves_group m es : leaves (Group m es) = leaf_exceptions es.
Proof. unfold leaf_exceptions. simpl. induction es as [|x es IH]; simpl; [done |]. by rewrite IH. Qed.

(** The decorator that may log in again, on a group. *)
Lemma reauth_group_click {A} (func : nat -> exc + A) login_func m es :
  func 0 = inl (Group m es) -> existsb reported (leaf_exceptions es) = true ->
  Forall no_login (leaf_exceptions es) ->
  exists e', handle_exceptions_with_reauthentication func login_func (mkCalls 0 0) =
               (inl e', mkCalls 1 0) /\ click e'.
Proof.
  intros Hf Hr Hn.
  destruct (handle_leaves_click login_func _ (mkCalls 1 0) Hn Hr) as (e' & Hl & Hk & Hs).
  exists e'. split; [| done].
  unfold handle_exceptions_with_reauthentication, call_with_exception_handling. simpl. rewrite Hf.
  change (isinstance (Group m es) CReauthSucceeded) with false. cbn iota.
  unfold try_reauth_or_handle, handle_exception_group_with_reauth. by rewrite Hl, Hs.
Qed.

(** C23: an error the user can do something about (a timeout, a TLS, DNS, file, permission or
    system error, any error of Jumpstarter itself, an interrupt) reaches the command line as
    a [ClickException] and not as a traceback. With the decorator for asynchronous commands
    this holds also when it is one of many in groups nested to any depth; with the plain
    decorator, for an error that is not a group; with the one that logs in again, for errors
    and groups in which nothing reports an expired token, and then the command is run once
    and no login is made. (Expired tokens are [reauth_retries_once]; a group with an expired
    token may leak, [expired_group_leaks].) *)
Theorem reported_errors_surface {A} (func : nat -> exc + A) login_func e :
  existsb reported (leaves e) = true ->
  (is_leaf e = true -> isinstance e CException || isinstance e CKeyboardInterrupt = true) ->
  click (async_handle_exceptions e) /\
  (is_leaf e = true -> click (handle_exceptions e)) /\
  (func 0 = inl e -> Forall no_login (leaves e) ->
   exists e', handle_exceptions_with_reauthentication func login_func (mkCalls 0 0) =
                (inl e', mkCalls 1 0) /\ click e').
Proof.
  intros Hr Hc. destruct e as [cl s code det|m es].
  - set (e := Leaf cl s code det) in *.
    assert (reported e = true) as Hr' by (simpl in Hr; by rewrite orb_false_r in Hr).
    destruct (reported_mapped e Hr') as [m Hm]. pose proof (map_cli_click _ _ Hm) as Hk.
    assert (handle_exceptions e = m) as Hh.
    { unfold handle_exceptions. rewrite leaf_is_exception, (Hc eq_refl) by done. by rewrite Hm. }
    split_and!; [| by rewrite Hh |].
    + unfold async_handle_exceptions. subst e. by rewrite (Hc eq_refl), Hm.
    + intros Hf (Hw & Hs & Hx)%Forall_inv. exists (surface e). split.
      * unfold handle_exceptions_with_reauthentication.
        by rewrite (call_leaf_surfaces func login_func true e (mkCalls 0 0)).
      * unfold surface. rewrite Hh. by destruct (isinstance e CConnectionError).
  - rewrite reported_group in Hr. rewrite leaves_group.
    split_and!; [| done | intros Hf Hn; by apply (reauth_group_click func login_func m es)].
    destruct (first_mapped_reported _ Hr) as [x Hx]. simpl. rewrite Hx. simpl.
    by eapply first_mapped_click.
Qed.

Lemma call_group_expired {A} (func : nat -> exc + A) login_func allow m e st :
  func (func_calls st) = inl (Group m [e]) -> is_leaf e = true -> expired e = true ->
  login_func (login_calls st) = None ->
  call_with_exception_handling func login_func allow st =
    (if allow then inr (None, true) else inl ReauthSucceeded,
     mkCalls (S (func_calls st)) (S (login_calls st))).
Proof.
  intros F L [C X]%andb_true_iff G. destruct e as [cl s code det|]; [| done].
  unfold call_with_exception_handling. rewrite F.
  change (isinstance (Group _ _) _) with false. cbn iota.
  unfold try_reauth_or_handle, handle_exception_group_with_reauth, leaf_exceptions.
  cbn [flat_map leaves app handle_leaves].
  unfold handle_single_exception_with_reauth, handle_connection_error_with_reauth.
  rewrite C, X. simpl. rewrite G. simpl. by destruct allow.
Qed.

(** When the command fails twice with a group whose first handled error is an expired
    token, the login runs a second time and what reaches the caller is the internal
    re-authentication signal, which is not a [ClickException]. *)
Theorem expired_group_leaks {A} (func : nat -> exc + A) login_func m1 m2 e1 e2 :
  func 0 = inl (Group m1 [e1]) -> func 1 = inl (Group m2 [e2]) ->
  is_leaf e1 = true -> is_leaf e2 = true -> expired e1 = true -> expired e2 = true ->
  login_func 0 = None -> login_func 1 = None ->
  handle_exceptions_with_reauthentication func login_func (mkCalls 0 0) =
    (inl ReauthSucceeded, mkCalls 2 2) /\ ~ click ReauthSucceeded.
Proof.
  intros F0 F1 L1 L2 X1 X2 G0 G1. split; [| done].
  unfold handle_exceptions_with_reauthentication.
  rewrite (call_group_expired func login_func true m1 e1 (mkCalls 0 0)) by done. simpl.
  by rewrite (call_group_expired func login_func false m2 e2 (mkCalls 1 1)).
Qed.

(** ** Concrete instances *)

Definition expired_error : exc :=
  Leaf [CConnectionError; CJumpstarterException; CException] "token is Expired" NoAttr NoAttr.

Definition offline_error : exc :=
  Leaf [CConnectionError; CJumpstarterException; CException] "offline" NoAttr NoAttr.

Lemma well_classed_expired : well_classed expired_error.
Proof. by split_and!. Qed.

Lemma reauth_retries_once_witness :
  handle_exceptions_with_reauthentication
    (fun n => if n =? 0 then inl expired_error else inr 7) (fun _ => None) (mkCalls 0 0) =
  (inr (Some 7), mkCalls 2 1).
Proof.
  pose proof (reauth_retries_once (fun n => if n =? 0 then inl expired_error else inr 7)
    (fun _ => None)) as H.
  destruct (handle_exceptions_with_reauthentication _ _ _) as [r st].
  destruct H as (_ & _ & H).
  rewrite (H expired_error eq_refl eq_refl well_classed_expired eq_refl
    ltac:(discriminate) ltac:(discriminate)). reflexivity.
Defined.

Definition nested_error : exc :=
  Group "g" [Leaf [CException] "x" NoAttr NoAttr; Group "h" [offline_error]].

Lemma reported_errors_surface_witness :
  click (async_handle_exceptions nested_error) /\
  exists e', handle_exceptions_with_reauthentication (A := nat) (fun _ => inl nested_error)
               (fun _ => None) (mkCalls 0 0) = (inl e', mkCalls 1 0) /\ click e'.
Proof.
  destruct (reported_errors_surface (A := nat) (fun _ => inl nested_error) (fun _ => None)
              nested_error eq_refl ltac:(discriminate)) as (H1 & _ & H3).
  split; [exact H1 |]. apply H3; [reflexivity |].
  repeat (constructor; [by split_and! |]). constructor.
Defined.

Lemma expired_group_leaks_witness :
  handle_exceptions_with_reauthentication (A := nat)
    (fun _ => inl (Group "unhandled errors in a TaskGroup" [expired_error])) (fun _ => None) (mkCalls 0 0) =
  (inl ReauthSucceeded, mkCalls 2 2).
Proof.
  exact (proj1 (expired_group_leaks (A := nat)
    (fun _ => inl (Group "unhandled errors in a TaskGroup" [expired_error])) (fun _ => None)
    _ _ expired_error expired_error eq_refl eq_refl eq_refl eq_refl eq_refl eq_refl eq_refl eq_refl)).
Defined.
