(* ===== verification/DriverCalls.v ===== *)
(** * Driver calls

    A call of a driver's method from end to end: [driver/decorators.py] ([export]),
    [driver/base.py] ([DriverCall], [StreamingDriverCall], the lookup and the error
    table), [exporter/session.py] (dispatch to the driver) and [client/core.py]
    ([call_async], [streamingcall_async]).

    Python values [V], their wire form [W] and the conversions (pydantic and protobuf)
    are parameters; a conversion may raise. *)

From stdpp Require Import base list strings.
From Stdlib Require Import ZArith Lia.
From S2P Require Import Prelude PyText Enums Session ExporterState.

(** ** Exceptions of a driver *)

Inductive py_class :=
| PNotImplementedError | PValueError | PTimeoutError | PConnectionError | POSError
| PKeyError | PException.

#[export] Instance py_class_eq_dec : EqDecision py_class.
Proof. solve_decision. Defined.

(** An exception: [context.abort]'s own, an instance of the given classes, or one that is
    no [Exception] (a cancellation). *)
Inductive driver_exn :=
| AbortError (code : StatusCode) (details : string)
| PyExn (classes : list py_class) (text : string)
| BaseExn.

Definition is_class (c : py_class) (e : driver_exn) : bool :=
  match e with PyExn cs _ => bool_decide (c ∈ cs) | _ => false end.

Definition exn_text (e : driver_exn) : string :=
  match e with PyExn _ s => s | _ => EmptyString end.

Inductive ErrorType :=
| not_implemented | validation_error | timeout_error | connection_error | device_error
| internal_error.

(** [_DRIVER_CALL_ERRORS]. *)
Definition DRIVER_CALL_ERRORS : list (py_class * ErrorType * StatusCode) :=
  [(PNotImplementedError, not_implemented, UNIMPLEMENTED);
   (PValueError, validation_error, INVALID_ARGUMENT);
   (PTimeoutError, timeout_error, DEADLINE_EXCEEDED);
   (PConnectionError, connection_error, UNAVAILABLE);
   (POSError, device_error, INTERNAL)].

(** ** Methods and their markers *)

Inductive fun_kind := AsyncGenFunction | GeneratorFunction | CoroutineFunction | PlainFunction | NotFunction.

#[export] Instance fun_kind_eq_dec : EqDecision fun_kind.
Proof. solve_decision. Defined.

Definition MARKER_MAGIC : string := "07c9b9cc".
Definition MARKER_DRIVERCALL : string := "marker_drivercall".
Definition MARKER_STREAMCALL : string := "marker_streamcall".
Definition MARKER_STREAMING_DRIVERCALL : string := "marker_streamingdrivercall".

(** [operation], [result = "success"] and the error type of one metrics record. *)
Inductive op_result := Success | Failure (e : ErrorType).
Definition metric := (string * op_result)%type.

Section Calls.

Context {V W : Type}.
Context (encode_value : V -> driver_exn + W) (decode_value : W -> driver_exn + V).

(** A function: what it yields and how it ends on its arguments. *)
Record method := mkMethod {
  m_kind : fun_kind;
  m_markers : list (string * string);
  m_body : list V -> list V * (driver_exn + V)
}.

Definition set_marker (marker : string) (m : method) : method :=
  mkMethod (m_kind m) (dict_set marker MARKER_MAGIC (m_markers m)) (m_body m).

(** The decorators; [export] raises [ValueError] on what is no function. *)
Definition export (m : method) : option method :=
  match m_kind m with
  | AsyncGenFunction | GeneratorFunction => Some (set_marker MARKER_STREAMING_DRIVERCALL m)
  | CoroutineFunction | PlainFunction => Some (set_marker MARKER_DRIVERCALL m)
  | NotFunction => None
  end.

Definition exportstream (m : method) : method := set_marker MARKER_STREAMCALL m.

(** What [getattr(self, name, None)] finds. *)
Inductive attribute := Missing | GetterRaises (e : driver_exn) | Attr (m : method).

Definition driver := string -> attribute.

(** ** The driver's side *)

(** How an RPC ends: a response, a status, or an exception gRPC reports as [UNKNOWN]. *)
Inductive rpc_end (R : Type) := Responded (r : R) | Aborted (code : StatusCode) (details : string) | Escaped.
Arguments Responded {R} r.
Arguments Aborted {R} code details.
Arguments Escaped {R}.

Definition lookup_drivercall (d : driver) (name marker : string) : driver_exn + method :=
  match d name with
  | GetterRaises e => inl e
  | Missing => inl (AbortError NOT_FOUND ("method " ++ name ++ " not found on driver"))
  | Attr m =>
      if bool_decide (dict_get marker (m_markers m) = Some MARKER_MAGIC) then inr m
      else inl (AbortError NOT_FOUND ("method " ++ name ++ " missing marker " ++ marker))
  end.

(** [_handle_driver_exception]: the record it makes and the status it aborts with. *)
Definition error_status (e : driver_exn) : ErrorType * StatusCode :=
  match find (fun row => is_class row.1.1 e) DRIVER_CALL_ERRORS with
  | Some (_, error_type, status) => (error_type, status)
  | None => (internal_error, UNKNOWN)
  end.

Definition handle_driver_exception (e : driver_exn) (op : string) : metric * StatusCode * string :=
  let '(error_type, status) := error_status e in
  ((op, Failure error_type), status, exn_text e).

(** The [except] clauses of both calls. *)
Definition call_except {R} (e : driver_exn) (op : string) : rpc_end R * list metric :=
  match e with
  | AbortError code details => (Aborted code details, [])
  | PyExn _ _ =>
      let '(m, status, details) := handle_driver_exception e op in
      (Aborted status details, [m])
  | BaseExn => (Escaped, [])
  end.

Fixpoint decode_args (args : list W) : driver_exn + list V :=
  match args with
  | [] => inr []
  | a :: args' =>
      match decode_value a with
      | inl e => inl e
      | inr v => match decode_args args' with inl e => inl e | inr vs => inr (v :: vs) end
      end
  end.

Definition DriverCall (d : driver) (op : string) (args : list W) : rpc_end W * list metric :=
  match lookup_drivercall d op MARKER_DRIVERCALL with
  | inl e => call_except e op
  | inr m =>
      match decode_args args with
      | inl e => call_except e op
      | inr vs =>
          match snd (m_body m vs) with
          | inl e => call_except e op
          | inr result =>
              match encode_value result with
              | inl e => call_except e op
              | inr w => (Responded w, [(op, Success)])
              end
          end
      end
  end.

(** The responses yielded, then how the stream ends. *)
Fixpoint encode_all (vs : list V) : list W * option driver_exn :=
  match vs with
  | [] => ([], None)
  | v :: vs' =>
      match encode_value v with
      | inl e => ([], Some e)
      | inr w => let '(ws, e) := encode_all vs' in (w :: ws, e)
      end
  end.

Definition StreamingDriverCall (d : driver) (op : string) (args : list W)
    : list W * rpc_end unit * list metric :=
  let fail e ws := let '(r, ms) := call_except e op in (ws, r, ms) in
  match lookup_drivercall d op MARKER_STREAMING_DRIVERCALL with
  | inl e => fail e []
  | inr m =>
      match decode_args args with
      | inl e => fail e []
      | inr vs =>
          let '(yields, final) := m_body m vs in
          match encode_all yields with
          | (ws, Some e) => fail e ws
          | (ws, None) =>
              match final with
              | inl e => fail e ws
              | inr _ => (ws, Responded tt, [(op, Success)])
              end
          end
      end
  end.

(** ** The session's side *)

(** [Session.mapping], from the drivers' identifiers. *)
Definition mapping := list (string * driver).

(** [Session.DriverCall]: the check creates an abort at most, the call goes on. *)
Definition session_driver_call (s : Session) (ds : mapping) (uuid op : string) (args : list W)
    : rpc_end W * list metric :=
  let _ := check_status_for_driver_call s in
  match dict_get uuid ds with
  | None => (Escaped, [])
  | Some d => DriverCall d op args
  end.

Definition session_streaming_call (s : Session) (ds : mapping) (uuid op : string) (args : list W)
    : list W * rpc_end unit * list metric :=
  let _ := check_status_for_driver_call s in
  match dict_get uuid ds with
  | None => ([], Escaped, [])
  | Some d => StreamingDriverCall d op args
  end.

(** ** The client's side *)

(** The exceptions of a driver client. *)
Inductive client_exn :=
| ExporterNotReady (msg : string)
| DriverMethodNotImplemented (msg : string)
| DriverInvalidArgument (msg : string)
| DriverError (msg : string)
| ValueConversion (e : driver_exn).

Definition code_name (c : StatusCode) : string :=
  match c with
  | OK => "OK" | CANCELLED => "CANCELLED" | UNKNOWN => "UNKNOWN"
  | INVALID_ARGUMENT => "INVALID_ARGUMENT" | DEADLINE_EXCEEDED => "DEADLINE_EXCEEDED"
  | NOT_FOUND => "NOT_FOUND" | ALREADY_EXISTS => "ALREADY_EXISTS"
  | PERMISSION_DENIED => "PERMISSION_DENIED" | RESOURCE_EXHAUSTED => "RESOURCE_EXHAUSTED"
  | FAILED_PRECONDITION => "FAILED_PRECONDITION" | ABORTED => "ABORTED"
  | OUT_OF_RANGE => "OUT_OF_RANGE" | UNIMPLEMENTED => "UNIMPLEMENTED" | INTERNAL => "INTERNAL"
  | UNAVAILABLE => "UNAVAILABLE" | DATA_LOSS => "DATA_LOSS" | UNAUTHENTICATED => "UNAUTHENTICATED"
  end.

Definition format_rpc_error (method_name : string) (code : StatusCode) (details : string) : string :=
  ("DriverCall '" ++ method_name ++ "' failed with gRPC " ++ code_name code ++ ": "
   ++ (if truthy details then details else "<no details>"))%string.

(** The exception [call_async] raises for an [AioRpcError]. *)
Definition call_error (method_name : string) (code : StatusCode) (details : string) : client_exn :=
  let error_message := format_rpc_error method_name code details in
  match code with
  | FAILED_PRECONDITION => ExporterNotReady details
  | NOT_FOUND => DriverMethodNotImplemented error_message
  | UNIMPLEMENTED => DriverMethodNotImplemented error_message
  | INVALID_ARGUMENT => DriverInvalidArgument error_message
  | UNKNOWN => DriverError error_message
  | _ => DriverError error_message
  end.

(** The one [streamingcall_async] raises. *)
Definition streaming_call_error (code : StatusCode) (details : string) : client_exn :=
  match code with
  | FAILED_PRECONDITION => ExporterNotReady details
  | UNIMPLEMENTED => DriverMethodNotImplemented details
  | INVALID_ARGUMENT => DriverInvalidArgument details
  | UNKNOWN => DriverError details
  | _ => DriverError details
  end.

Fixpoint encode_args (args : list V) : driver_exn + list W :=
  match args with
  | [] => inr []
  | a :: args' =>
      match encode_value a with
      | inl e => inl e
      | inr w => match encode_args args' with inl e => inl e | inr ws => inr (w :: ws) end
      end
  end.

(** The details gRPC gives a call whose servicer raised. *)
Context (unexpected : string).

(** [call_async] against a session. *)
Definition call_async (s : Session) (ds : mapping) (uuid op : string) (args : list V)
    : client_exn + V :=
  match encode_args args with
  | inl e => inl (ValueConversion e)
  | inr ws =>
      match fst (session_driver_call s ds uuid op ws) with
      | Responded w => match decode_value w with inl e => inl (ValueConversion e) | inr v => inr v end
      | Aborted code details => inl (call_error op code details)
      | Escaped => inl (call_error op UNKNOWN unexpected)
      end
  end.

(** What an iteration of [streamingcall_async] yields, and the exception that ends it. *)
Fixpoint decode_all (ws : list W) : list V * option driver_exn :=
  match ws with
  | [] => ([], None)
  | w :: ws' =>
      match decode_value w with
      | inl e => ([], Some e)
      | inr v => let '(vs, e) := decode_all ws' in (v :: vs, e)
      end
  end.

Definition streamingcall_async (s : Session) (ds : mapping) (uuid op : string) (args : list V)
    : list V * option client_exn :=
  match encode_args args with
  | inl e => ([], Some (ValueConversion e))
  | inr ws =>
      let '(rs, fin, _) := session_streaming_call s ds uuid op ws in
      match decode_all rs with
      | (vs, Some e) => (vs, Some (ValueConversion e))
      | (vs, None) =>
          (vs, match fin with
               | Responded _ => None
               | Aborted code details => Some (streaming_call_error code details)
               | Escaped => Some (streaming_call_error UNKNOWN unexpected)
               end)
      end
  end.

End Calls.

Arguments Responded {R} r.
Arguments Aborted {R} code details.
Arguments Escaped {R}.

(** ** Theorems *)

Section CallFacts.

Context {V W : Type}.
Context (encode_value : V -> driver_exn + W) (decode_value : W -> driver_exn + V).
Context (unexpected : string).

(** A value that survives the wire. *)
Definition transportable (v : V) : Prop :=
  exists w, encode_value v = inr w /\ decode_value w = inr v.

Lemma args_roundtrip args : Forall transportable args ->
  exists ws, encode_args encode_value args = inr ws /\ decode_args decode_value ws = inr args.
Proof.
  induction 1 as [|v args (w & E & D) _ (ws & IE & ID)]; simpl; [by exists [] |].
  exists (w :: ws). rewrite E, IE. simpl. by rewrite D, ID.
Qed.

Lemma stream_roundtrip vs : Forall transportable vs ->
  exists ws, encode_all encode_value vs = (ws, None) /\ decode_all decode_value ws = (vs, None).
Proof.
  induction 1 as [|v vs (w & E & D) _ (ws & IE & ID)]; simpl; [by exists [] |].
  exists (w :: ws). rewrite E, IE. simpl. by rewrite D, ID.
Qed.

(** The client's view of an exception of a driver method. *)
Definition remote_error (op : string) (e : driver_exn) : client_exn :=
  match e with
  | AbortError code details => call_error op code details
  | BaseExn => call_error op UNKNOWN unexpected
  | PyExn _ text =>
      let msg code := format_rpc_error op code text in
      if is_class PNotImplementedError e then DriverMethodNotImplemented (msg UNIMPLEMENTED)
      else if is_class PValueError e then DriverInvalidArgument (msg INVALID_ARGUMENT)
      else if is_class PTimeoutError e then DriverError (msg DEADLINE_EXCEEDED)
      else if is_class PConnectionError e then DriverError (msg UNAVAILABLE)
      else if is_class POSError e then DriverError (msg INTERNAL)
      else DriverError (msg UNKNOWN)
  end.

Lemma call_except_remote R op e ms (r : rpc_end R) :
  call_except e op = (r, ms) ->
  match r with
  | Responded _ => False
  | Aborted code details => call_error op code details = remote_error op e
  | Escaped => call_error op UNKNOWN unexpected = remote_error op e
  end.
Proof.
  unfold call_except, handle_driver_exception, error_status, DRIVER_CALL_ERRORS, remote_error.
  destruct e as [c d|cs t|]; [by intros [= <- <-] | | by intros [= <- <-]]. simpl.
  repeat (case_bool_decide; [by intros [= <- <-] |]). by intros [= <- <-].
Qed.

(** The error type of a call is that of its most specific class. *)
Lemma error_status_classes e :
  error_status e =
  if is_class PNotImplementedError e then (not_implemented, UNIMPLEMENTED)
  else if is_class PValueError e then (validation_error, INVALID_ARGUMENT)
  else if is_class PTimeoutError e then (timeout_error, DEADLINE_EXCEEDED)
  else if is_class PConnectionError e then (connection_error, UNAVAILABLE)
  else if is_class POSError e then (device_error, INTERNAL)
  else (internal_error, UNKNOWN).
Proof. unfold error_status, DRIVER_CALL_ERRORS. simpl. by split_ifs. Qed.

Definition callable_kind (k : fun_kind) : bool :=
  match k with CoroutineFunction | PlainFunction => true | _ => false end.

Definition generator_kind (k : fun_kind) : bool :=
  match k with AsyncGenFunction | GeneratorFunction => true | _ => false end.

Lemma export_marked (m m' : method (V := V)) : export m = Some m' ->
  m_kind m' = m_kind m /\ m_body m' = m_body m /\
  dict_get (if generator_kind (m_kind m) then MARKER_STREAMING_DRIVERCALL else MARKER_DRIVERCALL)
    (m_markers m') = Some MARKER_MAGIC /\
  (m_markers m = [] ->
   dict_get (if generator_kind (m_kind m) then MARKER_DRIVERCALL else MARKER_STREAMING_DRIVERCALL)
     (m_markers m') = None).
Proof.
  unfold export. destruct m as [k ms b]; destruct k; intros [= <-]; simpl; (split_and!; [done | done | apply dict_get_set_same |]);
    by intros ->.
Qed.

(** C11: in a status in which driver calls are allowed (lease ready, or one of the two
    hooks running), a call of an exported method that is not a generator, with
    arguments and a result that the protobuf encoding can carry, returns at the client
    what the method returned on the exporter, or raises the client exception of the
    class the method raised: not implemented, invalid argument, and a driver error with
    the gRPC status of its kind otherwise. (What the session does with a call in another
    status is [status_check_ineffective].) *)
Theorem driver_call_end_to_end s (ds : mapping (V := V)) uuid (d : driver (V := V)) op m0 m args :
  current_status s = LEASE_READY \/ current_status s = BEFORE_LEASE_HOOK \/
    current_status s = AFTER_LEASE_HOOK ->
  dict_get uuid ds = Some d -> export m0 = Some m -> d op = Attr m ->
  callable_kind (m_kind m0) = true -> Forall transportable args ->
  (forall v, snd (m_body m0 args) = inr v -> transportable v) ->
  call_async encode_value decode_value unexpected s ds uuid op args =
  match snd (m_body m0 args) with
  | inr v => inr v
  | inl e => inl (remote_error op e)
  end.
Proof.
  intros _ Hd Hm Ha Hk Hargs Hres. unfold call_async, session_driver_call, DriverCall, lookup_drivercall.
  destruct (args_roundtrip args Hargs) as (ws & -> & Hws).
  destruct (export_marked m0 m Hm) as (_ & Hb & Hmark & _).
  assert (generator_kind (m_kind m0) = false) as Hg by (by destruct (m_kind m0)).
  rewrite Hg in Hmark. rewrite Hd, Ha, bool_decide_eq_true_2, Hws, Hb by done.
  destruct (snd (m_body m0 args)) as [e|v] eqn:Eb.
  - destruct (call_except e op) as [r ms] eqn:Ec. apply call_except_remote in Ec.
    destruct r; cbn [fst]; [done | by rewrite Ec | by rewrite Ec].
  - destruct (Hres v eq_refl) as (w & -> & Hw). simpl. by rewrite Hw.
Qed.

(** A method runs only when it is exported for the kind of call that names it: an
    attribute without the marker, also a method exported for the other kind of call, is
    refused as not found whatever it would do, and nothing is recorded; and a metric is
    only ever recorded under the name of an attribute the driver has. *)
Theorem only_exported_run (d : driver (V := V)) op args :
  (forall m marker, d op = Attr m -> dict_get marker (m_markers m) <> Some MARKER_MAGIC ->
     let details := ("method " ++ op ++ " missing marker " ++ marker)%string in
     (marker = MARKER_DRIVERCALL ->
      DriverCall encode_value decode_value d op args = (Aborted NOT_FOUND details, [])) /\
     (marker = MARKER_STREAMING_DRIVERCALL ->
      StreamingDriverCall encode_value decode_value d op args =
        ([], Aborted NOT_FOUND details, []))) /\
  (forall o r, In (o, r) (snd (DriverCall encode_value decode_value d op args)) \/
               In (o, r) (snd (StreamingDriverCall encode_value decode_value d op args)) ->
     o = op /\ d op <> Missing).
Proof.
  split.
  - intros m marker Ha Hn. simpl. split; intros ->;
      unfold DriverCall, StreamingDriverCall, lookup_drivercall;
      by rewrite Ha, bool_decide_eq_false_2.
  - assert (forall e o r R, In (o, r) (snd (call_except (R := R) e op)) -> o = op) as Hex.
    { intros e o r R. unfold call_except, handle_driver_exception.
      destruct e as [| |]; simpl; [done | | done].
      destruct (error_status _) as [et st]. simpl. intros [[= <- <-]|[]]. done. }
    intros o r. unfold DriverCall, StreamingDriverCall, lookup_drivercall.
    destruct (d op) as [|e|m]; [by intros [[]|[]] | |];
      repeat match goal with
      | |- context [bool_decide ?P] => destruct (bool_decide P)
      | |- context [match ?x with _ => _ end] => destruct x eqn:?
      end; simpl; intros [H|H];
      repeat match goal with
      | H : call_except ?e op = (?r, ?ms), H' : In _ ?ms |- _ =>
          apply (f_equal snd) in H; simpl in H; rewrite <- H in H'; apply Hex in H'
      end; try (apply Hex in H); naive_solver.
Qed.

(** The status check of a session refuses nothing: in a status in which driver calls
    are meant to be refused, a call still runs the exported method and returns what it
    would return in any other status. *)
Theorem status_check_ineffective s (ds : mapping (V := V)) uuid (d : driver (V := V)) op m0 m v :
  current_status s ∉ allowed_statuses ->
  dict_get uuid ds = Some d -> export m0 = Some m -> d op = Attr m ->
  callable_kind (m_kind m0) = true -> snd (m_body m0 []) = inr v -> transportable v ->
  is_some (check_status_for_driver_call s) = true /\
  call_async encode_value decode_value unexpected s ds uuid op [] = inr v.
Proof.
  intros Hs Hd Hm Ha Hk Hb Hv. split.
  - unfold check_status_for_driver_call. by rewrite bool_decide_eq_false_2.
  - unfold call_async, session_driver_call, DriverCall, lookup_drivercall. simpl.
    destruct (export_marked m0 m Hm) as (_ & Hb' & Hmark & _).
    assert (generator_kind (m_kind m0) = false) as Hg by (by destruct (m_kind m0)).
    rewrite Hg in Hmark. rewrite Hd, Ha, bool_decide_eq_true_2, Hb', Hb by done.
    destruct Hv as (w & -> & Hw). simpl. by rewrite Hw.
Qed.

(** A streaming call of an exported generator yields at the client, in order, exactly
    the values the generator yields before it ends or raises. *)
Theorem streaming_call_end_to_end s (ds : mapping (V := V)) uuid (d : driver (V := V)) op m0 m args :
  dict_get uuid ds = Some d -> export m0 = Some m -> d op = Attr m ->
  generator_kind (m_kind m0) = true -> Forall transportable args ->
  Forall transportable (fst (m_body m0 args)) ->
  exists fin, streamingcall_async encode_value decode_value unexpected s ds uuid op args =
    (fst (m_body m0 args), fin) /\
    (fin = None <-> exists v, snd (m_body m0 args) = inr v).
Proof.
  intros Hd Hm Ha Hk Hargs Hys.
  unfold streamingcall_async, session_streaming_call, StreamingDriverCall, lookup_drivercall.
  destruct (args_roundtrip args Hargs) as (ws & -> & Hws).
  destruct (export_marked m0 m Hm) as (_ & Hb & Hmark & _). rewrite Hk in Hmark.
  rewrite Hd, Ha, bool_decide_eq_true_2, Hws, Hb by done.
  destruct (m_body m0 args) as [ys final]. simpl in *.
  destruct (stream_roundtrip ys Hys) as (wys & -> & Hwys).
  destruct final as [e|v].
  - destruct (call_except e op) as [r ms] eqn:Ec. rewrite Hwys.
    apply call_except_remote in Ec.
    destruct r; [done | |]; (eexists; split; [reflexivity |]); split; try done; by intros [v ?].
  - rewrite Hwys. eexists. split; [reflexivity |]. split; [eauto | done].
Qed.

(** The two kinds of call disagree on a method the driver does not have: a call raises
    [DriverMethodNotImplemented], a streaming call the generic [DriverError]. *)
Theorem missing_method_disagrees s (ds : mapping (V := V)) uuid (d : driver (V := V)) op :
  dict_get uuid ds = Some d -> d op = Missing ->
  (exists msg, call_async encode_value decode_value unexpected s ds uuid op [] =
     inl (DriverMethodNotImplemented msg)) /\
  (exists msg, streamingcall_async encode_value decode_value unexpected s ds uuid op [] =
     ([], Some (DriverError msg))).
Proof.
  intros Hd Ha. unfold call_async, streamingcall_async, session_driver_call,
    session_streaming_call, DriverCall, StreamingDriverCall, lookup_drivercall.
  simpl. rewrite Hd, Ha. simpl. split; eauto.
Qed.

End CallFacts.

(** ** Concrete instances *)

Module DriverDemo.

(** Values are integers; negative ones cannot be sent. *)
Definition encode (v : Z) : driver_exn + Z :=
  if (v <? 0)%Z then inl (PyExn [PValueError; PException] "negative") else inr v.
Definition decode (w : Z) : driver_exn + Z := inr w.

Definition double : method :=
  mkMethod PlainFunction [] (fun args => ([], match args with
    | [v] => inr (v * 2)%Z | [] => inr 1%Z
    | _ => inl (PyExn [PValueError; PException] "one argument") end)).
Definition count : method := mkMethod GeneratorFunction [] (fun _ => ([1; 2; 3]%Z, inr 0%Z)).

Definition demo_driver : driver := fun name =>
  if String.eqb name "double" then Attr (set_marker MARKER_DRIVERCALL double)
  else if String.eqb name "count" then Attr (set_marker MARKER_STREAMING_DRIVERCALL count)
  else if String.eqb name "secret" then Attr double
  else Missing.

Definition demo_mapping : mapping := [("u1"%string, demo_driver)].
Definition demo_session : Session := new_session "exp" None.

Definition ready_session : Session := demo_session <| current_status := LEASE_READY |>.

End DriverDemo.

Lemma driver_call_end_to_end_witness :
  call_async DriverDemo.encode DriverDemo.decode "" DriverDemo.ready_session DriverDemo.demo_mapping
    "u1" "double" [21%Z] = inr 42%Z.
Proof.
  refine (driver_call_end_to_end DriverDemo.encode DriverDemo.decode "" DriverDemo.ready_session
    DriverDemo.demo_mapping "u1" DriverDemo.demo_driver "double" DriverDemo.double _ [21%Z]
    (or_introl eq_refl) eq_refl eq_refl eq_refl eq_refl _ _).
  - constructor; [by exists 21%Z | constructor].
  - intros v [= <-]. by exists 42%Z.
Defined.

Lemma only_exported_run_witness :
  DriverCall DriverDemo.encode DriverDemo.decode DriverDemo.demo_driver "secret" [] =
    (Aborted NOT_FOUND "method secret missing marker marker_drivercall", []).
Proof.
  destruct (only_exported_run DriverDemo.encode DriverDemo.decode DriverDemo.demo_driver "secret" [])
    as [H _].
  destruct (H DriverDemo.double MARKER_DRIVERCALL eq_refl ltac:(discriminate)) as [H1 _].
  exact (H1 eq_refl).
Defined.

Lemma status_check_ineffective_witness :
  call_async DriverDemo.encode DriverDemo.decode "" DriverDemo.demo_session DriverDemo.demo_mapping
    "u1" "double" [] = inr 1%Z.
Proof.
  refine (proj2 (status_check_ineffective DriverDemo.encode DriverDemo.decode "" DriverDemo.demo_session
    DriverDemo.demo_mapping "u1" DriverDemo.demo_driver "double" DriverDemo.double _ 1%Z
    _ eq_refl eq_refl eq_refl eq_refl eq_refl _)).
  - apply (bool_decide_unpack _). vm_compute. exact I.
  - by exists 1%Z.
Defined.

Lemma streaming_call_end_to_end_witness :
  exists fin, streamingcall_async DriverDemo.encode DriverDemo.decode "" DriverDemo.demo_session
    DriverDemo.demo_mapping "u1" "count" [] = ([1; 2; 3]%Z, fin).
Proof.
  destruct (streaming_call_end_to_end DriverDemo.encode DriverDemo.decode "" DriverDemo.demo_session
    DriverDemo.demo_mapping "u1" DriverDemo.demo_driver "count" DriverDemo.count _ []
    eq_refl eq_refl eq_refl eq_refl (Forall_nil_2 _)) as (fin & H & _).
  - simpl. repeat constructor; eexists; split; reflexivity.
  - exists fin. exact H.
Defined.

Lemma missing_method_disagrees_witness :
  exists msg, streamingcall_async DriverDemo.encode DriverDemo.decode "" DriverDemo.demo_session
    DriverDemo.demo_mapping "u1" "nope" [] = ([], Some (DriverError msg)).
Proof.
  exact (proj2 (missing_method_disagrees DriverDemo.encode DriverDemo.decode "" DriverDemo.demo_session
    DriverDemo.demo_mapping "u1" DriverDemo.demo_driver "nope" eq_refl eq_refl)).
Defined.
