(* ===== verification/DriverTree.v ===== *)
(** * The driver tree and its clients

    [driver/base.py] ([report], [enumerate]), [Session.GetReport], and what the client
    makes of the answer: [common/importlib.py] ([import_class] with its allow list) and
    [client/client.py] ([client_from_channel]), with the part of [graphlib] and [fnmatch]
    they use. The main theorem says that the client's tree mirrors the driver's. *)

From stdpp Require Import base list strings sets.
From Stdlib Require Import ZArith Lia Ascii.
From S2P Require Import Prelude PyText.

(** ** Drivers *)

Definition labels_t := list (string * string).

(** What the tree functions read of a driver; [d_client] is [client()]. *)
#[warnings="-register-all"]
Inductive driver_node := DriverNode
  (d_uuid : string) (d_labels d_extra_labels : labels_t) (d_client : string)
  (d_description : option string) (d_methods : labels_t)
  (d_children : list (string * driver_node)).

Definition d_uuid (d : driver_node) : string := let '(DriverNode u _ _ _ _ _ _) := d in u.
Definition d_children (d : driver_node) := let '(DriverNode _ _ _ _ _ _ cs) := d in cs.

Record report_t := mkReport {
  r_uuid : string;
  r_parent_uuid : string;
  r_labels : labels_t;
  r_description : option string;
  r_methods : labels_t
}.

Definition LABEL_CLIENT : string := "jumpstarter.dev/client".
Definition LABEL_NAME : string := "jumpstarter.dev/name".

Definition or_none (o : option string) : option string :=
  match o with Some s => if truthy s then Some s else None | None => None end.

(** [report]; an unset [parent_uuid] reads as the empty string. *)
Definition report (d : driver_node) (parent : option string) (name : option string) : report_t :=
  let '(DriverNode uuid labels extra client description methods _) := d in
  mkReport uuid (default EmptyString parent)
    (dict_update (dict_update (dict_update labels extra) [(LABEL_CLIENT, client)])
       match or_none name with Some n => [(LABEL_NAME, n)] | None => [] end)
    (or_none description) methods.

(** [enumerate]: the driver, then its children's subtrees, each with the identifier of
    its parent and its name. *)
Fixpoint enumerate (d : driver_node) (parent name : option string)
    : list (driver_node * option string * option string) :=
  (d, parent, name) ::
  let '(DriverNode uuid _ _ _ _ _ cs) := d in
  (fix go (l : list (string * driver_node)) :=
     match l with
     | [] => []
     | (cname, c) :: l' => enumerate c (Some uuid) (Some cname) ++ go l'
     end) cs.

(** [GetReport]. *)
Definition GetReport (root : driver_node) : list report_t :=
  map (fun '(d, parent, name) => report d parent name) (enumerate root None None).

(** ** [fnmatch.fnmatchcase] *)

Inductive glob := GStar | GAny | GLit (c : ascii) | GSet (negated : bool) (ranges : list (ascii * ascii)).

(** The items of a character set: ranges, and single characters. *)
Fixpoint set_items (s : list ascii) : list (ascii * ascii) :=
  match s with
  | [] => []
  | a :: s' =>
      match s' with
      | "-"%char :: b :: s'' => (a, b) :: set_items s''
      | _ => (a, a) :: set_items s'
      end
  end.

(** The characters up to the closing bracket, and what follows it. *)
Fixpoint until_bracket (s : list ascii) : option (list ascii * list ascii) :=
  match s with
  | [] => None
  | "]"%char :: s' => Some ([], s')
  | a :: s' => match until_bracket s' with Some (h, t) => Some (a :: h, t) | None => None end
  end.

(** The set that starts after an opening bracket: a leading exclamation mark negates it, a
    bracket in first place is a member. *)
Definition parse_set (s : list ascii) : option (glob * list ascii) :=
  let '(neg, s) := match s with "!"%char :: s' => (true, s') | _ => (false, s) end in
  let r := match s with
           | "]"%char :: s' => match until_bracket s' with
                               | Some (h, t) => Some ("]"%char :: h, t) | None => None end
           | _ => until_bracket s
           end in
  match r with
  | Some (h, t) => Some (GSet neg (set_items h), t)
  | None => None
  end.

Fixpoint glob_tokens (fuel : nat) (s : list ascii) : list glob :=
  match fuel with
  | O => []
  | S fuel' =>
      match s with
      | [] => []
      | "*"%char :: s' => GStar :: glob_tokens fuel' s'
      | "?"%char :: s' => GAny :: glob_tokens fuel' s'
      | "["%char :: s' =>
          match parse_set s' with
          | Some (g, t) => g :: glob_tokens fuel' t
          | None => GLit "["%char :: glob_tokens fuel' s'
          end
      | a :: s' => GLit a :: glob_tokens fuel' s'
      end
  end.

Definition in_set (ranges : list (ascii * ascii)) (c : ascii) : bool :=
  let n := nat_of_ascii c in
  existsb (fun r => (nat_of_ascii r.1 <=? n) && (n <=? nat_of_ascii r.2)) ranges.

Fixpoint glob_match (g : list glob) (s : list ascii) : bool :=
  match g with
  | [] => match s with [] => true | _ => false end
  | GStar :: g' =>
      (fix star (s : list ascii) : bool :=
         glob_match g' s || match s with [] => false | _ :: s' => star s' end) s
  | t :: g' =>
      match s with
      | [] => false
      | a :: s' =>
          match t with
          | GStar => false
          | GAny => true
          | GLit c => Ascii.eqb a c
          | GSet neg ranges => xorb neg (in_set ranges a)
          end && glob_match g' s'
      end
  end.

Definition fnmatchcase (name pat : string) : bool :=
  let p := String.list_ascii_of_string pat in
  glob_match (glob_tokens (S (length p)) p) (String.list_ascii_of_string name).

(** ** [import_class] *)

(** What importing [module.class] can do here: a class, a missing module or class, or any
    other error while the module loads. *)
Inductive import_outcome := ImportedClass | ModuleNotFound | AttributeMissing | ImportFails.

Inductive client_class := Imported (path : string) | StubDriverClient.

Inductive import_result := ClassOk (c : client_class) | MissingDriver | ImportErr.

Section Client.

Context (cached_import : string -> string -> import_outcome).
Context (allow : list string) (unsafe : bool).

Definition allowed (class_path : string) : bool :=
  unsafe || existsb (fnmatchcase class_path) allow.

Definition import_class (class_path : string) : import_result :=
  if negb (allowed class_path) then MissingDriver
  else match Str.rsplit1 "."%char class_path with
       | None => ImportErr
       | Some (module_path, class_name) =>
           match cached_import module_path class_name with
           | ImportedClass => ClassOk (Imported class_path)
           | ModuleNotFound => MissingDriver
           | AttributeMissing => MissingDriver
           | ImportFails => ImportErr
           end
       end.

(** ** [graphlib.TopologicalSorter] *)

(** A graph is the list of the predecessors of each node. *)
Definition graph := list (list nat).

Definition preds (g : graph) (i : nat) : list nat := default [] (g !! i).

(** The nodes in the order in which [add] first sees them. *)
Definition node_order (g : graph) : list nat :=
  let seen := flat_map (fun i => i :: preds g i) (seq 0 (length g)) in
  fold_left (fun acc x => if bool_decide (x ∈ acc) then acc else acc ++ [x]) seen [].

Definition successors (g : graph) (x : nat) : list nat :=
  List.filter (fun i => bool_decide (x ∈ preds g i)) (seq 0 (length g)).

(** The number of predecessors of a node not yet marked done. *)
Definition pending (g : graph) (finished : list nat) (i : nat) : nat :=
  length (List.filter (fun j => bool_decide (j ∉ finished)) (preds g i)).

(** [done(x)]: the successors it makes ready. *)
Definition done1 (g : graph) (st : list nat * list nat) (x : nat) : list nat * list nat :=
  let '(finished, ready) := st in
  let finished := finished ++ [x] in
  (finished, ready ++ List.filter (fun s => pending g finished s =? 0) (successors g x)).

(** [static_order]: take the ready nodes, yield them, mark them done. *)
Fixpoint static_loop (fuel : nat) (g : graph) (finished ready : list nat) : list nat :=
  match fuel with
  | O => []
  | S fuel' =>
      match ready with
      | [] => []
      | _ => let '(finished', ready') := fold_left (done1 g) ready (finished, []) in
             ready ++ static_loop fuel' g finished' ready'
      end
  end.

Definition static_order (g : graph) : list nat :=
  static_loop (S (length g)) g [] (List.filter (fun i => pending g [] i =? 0) (node_order g)).

(** ** [client_from_channel] *)

#[warnings="-register-all"]
Inductive client_node := ClientNode
  (c_uuid : string) (c_labels : labels_t) (c_class : client_class)
  (c_description : option string) (c_methods : labels_t)
  (c_children : list (string * client_node)).

(** A label of a report; a protobuf map gives the empty string for a missing key. *)
Definition label (k : string) (r : report_t) : string := default EmptyString (dict_get k (r_labels r)).

(** The first loop: the graph, and the index each identifier was last seen at; [None] is
    the [KeyError] of a parent that was not seen. *)
Definition topo_step (st : option (graph * list (string * nat))) (r : report_t)
    : option (graph * list (string * nat)) :=
  match st with
  | None => None
  | Some (topo, last_seen) =>
      let index := length topo in
      let topo := topo ++ [[]] in
      let last_seen := dict_set (r_uuid r) index last_seen in
      if truthy (r_parent_uuid r) then
        match dict_get (r_parent_uuid r) last_seen with
        | None => None
        | Some parent_index => Some (alter (fun l => l ++ [index]) parent_index topo, last_seen)
        end
      else Some (topo, last_seen)
  end.

Definition build_topo (reports : list report_t) : option (graph * list (string * nat)) :=
  fold_left topo_step reports (Some ([], [])).

Inductive client_error := ParentKeyError | ClientImportError | ChildKeyError | NoReports.

(** The children of a client: a dictionary from their names. *)
Fixpoint gather (reports : list report_t) (clients : list (nat * client_node)) (ks : list nat)
    (acc : list (string * client_node)) : option (list (string * client_node)) :=
  match ks with
  | [] => Some acc
  | k :: ks' =>
      match reports !! k, list_find (fun p => p.1 = k) clients with
      | Some r, Some (_, (_, c)) => gather reports clients ks' (dict_set (label LABEL_NAME r) c acc)
      | _, _ => None
      end
  end.

Definition client_class_of (r : report_t) : option client_class :=
  match import_class (label LABEL_CLIENT r) with
  | ClassOk c => Some c
  | MissingDriver => Some StubDriverClient
  | ImportErr => None
  end.

(** One round of the second loop; [clients] in insertion order. *)
Definition build_client (reports : list report_t) (topo : graph)
    (st : client_error + list (nat * client_node)) (index : nat)
    : client_error + list (nat * client_node) :=
  match st with
  | inl e => inl e
  | inr clients =>
      match reports !! index with
      | None => inl ChildKeyError
      | Some r =>
          match client_class_of r with
          | None => inl ClientImportError
          | Some cls =>
              match gather reports clients (preds topo index) [] with
              | None => inl ChildKeyError
              | Some children =>
                  inr (clients ++ [(index, ClientNode (r_uuid r) (r_labels r) cls
                                      (or_none (r_description r)) (r_methods r) children)])
              end
          end
      end
  end.

Definition client_from_channel (reports : list report_t) : client_error + client_node :=
  match build_topo reports with
  | None => inl ParentKeyError
  | Some (topo, _) =>
      match fold_left (build_client reports topo) (static_order topo) (inr []) with
      | inl e => inl e
      | inr clients => match last clients with Some (_, c) => inr c | None => inl NoReports end
      end
  end.

End Client.
