(* ===== verification/DriverTreeCorrect.v ===== *)
(** * The client's tree mirrors the driver's

    Theorems about [DriverTree]: the topological order, the graph built from the reports
    of a driver tree, and the tree of clients made from it. *)

From stdpp Require Import base list strings sets.
From Stdlib Require Import ZArith Lia Ascii.
From S2P Require Import Prelude PyText DriverTree.

(** ** The topological order *)

Section Topo.

Context (g : graph).

(** Predecessors have larger numbers: there are no cycles. *)
Definition forward : Prop := forall i j, j ∈ preds g i -> i < j < length g.

Lemma pending_zero D i : pending g D i = 0 <-> forall j, j ∈ preds g i -> j ∈ D.
Proof.
  unfold pending. rewrite length_zero_iff_nil. split.
  - intros H j Hj. destruct (decide (j ∈ D)) as [|Hn]; [done |].
    assert (In j (List.filter (fun j => bool_decide (j ∉ D)) (preds g i))) as Hin.
    { apply filter_In. split; [by apply list_elem_of_In |]. by apply bool_decide_eq_true. }
    by rewrite H in Hin.
  - intros H. destruct (List.filter _ _) as [|j l] eqn:E; [done |]. exfalso.
    assert (In j (List.filter (fun j => bool_decide (j ∉ D)) (preds g i))) as Hin
      by (rewrite E; by left).
    apply filter_In in Hin as [Hj Hn]. apply bool_decide_eq_true in Hn.
    apply Hn, H. by apply list_elem_of_In.
Qed.

Lemma elem_successors x i : i ∈ successors g x <-> i < length g /\ x ∈ preds g i.
Proof.
  unfold successors. rewrite list_elem_of_In, filter_In, in_seq, bool_decide_eq_true.
  split; [intros [? ?]; split; [lia | done] | intros [? ?]; split; [lia | done]].
Qed.

Lemma NoDup_list_filter {A} (f : A -> bool) l : NoDup l -> NoDup (List.filter f l).
Proof.
  induction 1 as [|x l Hn Hd IH]; simpl; [constructor |].
  destruct (f x); [| done]. constructor; [| done].
  rewrite list_elem_of_In, filter_In, <- list_elem_of_In. tauto.
Qed.

(** Finished nodes, the rest of the group being marked done, the nodes made ready. *)
Definition topo_inv (D Q R : list nat) : Prop :=
  NoDup (D ++ Q ++ R) /\
  (forall i, i ∈ D ++ Q ++ R -> i < length g /\ forall j, j ∈ preds g i -> j ∈ D) /\
  (forall i, i < length g -> (forall j, j ∈ preds g i -> j ∈ D) -> i ∈ D ++ Q ++ R).

Lemma done1_inv D x Q R : topo_inv D (x :: Q) R ->
  topo_inv (D ++ [x]) Q (snd (done1 g (D, R) x)).
Proof.
  intros (Hnd & Hin & Hall). simpl.
  set (N := List.filter _ _).
  assert (forall s, s ∈ N <-> s < length g /\ x ∈ preds g s /\ forall j, j ∈ preds g s -> j ∈ D ++ [x]) as HN.
  { intros s. unfold N. rewrite list_elem_of_In, filter_In, <- list_elem_of_In, elem_successors,
      Nat.eqb_eq, pending_zero. tauto. }
  assert (x ∉ D) as Hx by (apply NoDup_app in Hnd as (_ & Hd & _); intros ?; eapply Hd; [done | set_solver]).
  split_and!.
  - rewrite <- !app_assoc. simpl. rewrite (app_assoc Q), (app_comm_cons (Q ++ R)), (app_assoc D).
    apply NoDup_app. split_and!; [done | | apply NoDup_list_filter, NoDup_list_filter, NoDup_seq].
    intros s Hs (_ & Hxs & _)%HN. destruct (Hin s Hs) as [_ Hp]. by apply Hx, Hp.
  - intros i Hi. assert (i ∈ D ++ (x :: Q) ++ R \/ i ∈ N) as [Hi'|Hi'] by set_solver.
    + destruct (Hin i Hi') as [? Hp]. split; [done |]. intros j Hj. apply Hp in Hj. set_solver.
    + apply HN in Hi' as (? & _ & ?). done.
  - intros i Hi Hp. destruct (decide (x ∈ preds g i)) as [Hxi|Hxi].
    + assert (i ∈ N) by (by apply HN). set_solver.
    + assert (i ∈ D ++ (x :: Q) ++ R) by (apply Hall; [done |]; intros j Hj;
        specialize (Hp j Hj); set_solver). set_solver.
Qed.

Lemma group_inv Q D R : topo_inv D Q R ->
  exists R', fold_left (done1 g) Q (D, R) = (D ++ Q, R') /\ topo_inv (D ++ Q) [] R'.
Proof.
  revert D R. induction Q as [|x Q IH]; intros D R H; simpl.
  - exists R. by rewrite app_nil_r.
  - pose proof (done1_inv D x Q R H) as H'. simpl in H'.
    destruct (IH _ _ H') as (R' & E & H2). exists R'.
    rewrite <- app_assoc in E, H2. simpl in E, H2. by split.
Qed.

(** Every node comes after its predecessors. *)
Definition topological (D O : list nat) : Prop :=
  forall O1 x O2, O = O1 ++ x :: O2 -> forall j, j ∈ preds g x -> j ∈ D ++ O1.

Lemma static_loop_correct fuel D R :
  forward -> topo_inv D [] R -> length g - length D < fuel ->
  let O := static_loop fuel g D R in
  NoDup (D ++ O) /\ (forall i, i ∈ D ++ O <-> i < length g) /\ topological D O.
Proof.
  intros Hf. revert D R. induction fuel as [|fuel IH]; intros D R Hinv Hfuel; [lia |].
  simpl. destruct R as [|r R0] eqn:ER.
  - destruct Hinv as (Hnd & Hin & Hall). simpl in *. rewrite !app_nil_r in *.
    assert (forall n i, length g - i <= n -> i < length g -> i ∈ D) as Hgo.
    { induction n as [|n IHn]; intros i Hn Hi; [lia |].
      apply Hall; [done |]. intros j Hj. destruct (Hf i j Hj). apply IHn; lia. }
    split_and!; [done | | by intros [] ? ? ?].
    intros i. split; [intros Hi; by apply Hin | intros Hi; apply (Hgo (length g)); lia].
  - rewrite <- ER in *. assert (1 <= length R) by (subst R; simpl; lia). clear ER.
    assert (topo_inv D R []) as Hinv' by (unfold topo_inv in *; simpl in *; by rewrite app_nil_r).
    destruct (group_inv R D [] Hinv') as (R' & E & H2). rewrite E.
    assert (length (D ++ R) <= length g) as Hlen.
    { destruct H2 as (Hnd & Hin & _). simpl in *.
      rewrite <- (length_seq (length g) 0). apply submseteq_length, NoDup_submseteq.
      - by apply NoDup_app in Hnd as (? & _ & _).
      - intros i Hi. apply elem_of_seq. destruct (Hin i) as [? _]; [set_solver | lia]. }
    rewrite length_app in Hlen.
    destruct (IH (D ++ R) R' H2) as (H3 & H4 & H5); [rewrite length_app; lia |].
    rewrite <- app_assoc in H3. split_and!; [done | intros i; rewrite <- (H4 i); set_solver |].
    intros O1 x O2 EO j Hj.
    destruct (decide (length O1 < length R)) as [Hlt|Hge].
    + assert (x ∈ R) as Hx.
      { apply list_elem_of_lookup. exists (length O1).
        rewrite <- (lookup_app_l R (static_loop fuel g (D ++ R) R')) by done. rewrite EO.
        by rewrite list_lookup_middle. }
      destruct Hinv' as (_ & Hin & _). destruct (Hin x) as [_ Hp]; [set_solver |].
      apply Hp in Hj. set_solver.
    + assert (exists O1', O1 = R ++ O1' /\ static_loop fuel g (D ++ R) R' = O1' ++ x :: O2) as (O1' & -> & EO').
      { apply app_eq_inv in EO as [(k & -> & EO)|(k & -> & EO)]; [| by exists k].
        destruct k as [|y k]; [exists []; split; [by rewrite !app_nil_r | by rewrite EO] |].
        rewrite length_app in Hge. simpl in Hge. lia. }
      pose proof (H5 O1' x O2 EO' j Hj). set_solver.
Qed.

Lemma node_order_spec : forward ->
  NoDup (node_order g) /\ forall i, i ∈ node_order g <-> i < length g.
Proof.
  intros Hf. unfold node_order.
  set (seen := flat_map _ _).
  assert (forall i, i ∈ seen <-> i < length g) as Hseen.
  { intros i. unfold seen. rewrite list_elem_of_In, in_flat_map. split.
    - intros (x & Hx%in_seq & [<-|Hi]); [lia |]. apply list_elem_of_In in Hi.
      by destruct (Hf x i Hi).
    - intros Hi. exists i. split; [apply in_seq; lia | by left]. }
  assert (forall (l acc : list nat), NoDup acc ->
    let r := fold_left (fun acc x => if bool_decide (x ∈ acc) then acc else acc ++ [x]) l acc in
    NoDup r /\ forall i, i ∈ r <-> i ∈ acc \/ i ∈ l) as Hfold.
  { induction l as [|x l IH]; intros acc Hacc; simpl; [set_solver |].
    case_bool_decide as Hx.
    - destruct (IH acc Hacc) as [? H]. split; [done |]. intros i. rewrite H. set_solver.
    - destruct (IH (acc ++ [x])) as [? H]; [apply NoDup_app; split_and!; [done | set_solver | apply NoDup_singleton] |].
      split; [done |]. intros i. rewrite H. set_solver. }
  destruct (Hfold seen [] (NoDup_nil_2)) as [H1 H2]. split; [done |].
  intros i. rewrite H2, Hseen. set_solver.
Qed.

Lemma static_order_correct : forward ->
  NoDup (static_order g) /\ (forall i, i ∈ static_order g <-> i < length g) /\
  topological [] (static_order g).
Proof.
  intros Hf. unfold static_order. destruct (node_order_spec Hf) as [Hn Ho].
  apply (static_loop_correct (S (length g)) [] _ Hf); [| simpl; lia].
  split_and!; simpl.
  - by apply NoDup_list_filter.
  - intros i. rewrite list_elem_of_In, filter_In, <- list_elem_of_In, Nat.eqb_eq, pending_zero, Ho. done.
  - intros i Hi Hp. rewrite list_elem_of_In, filter_In, <- list_elem_of_In, Nat.eqb_eq, pending_zero, Ho. done.
Qed.

End Topo.

(** ** The shape of a driver tree *)

Lemma driver_node_ind' (P : driver_node -> Prop) :
  (forall u l e c ds m cs, Forall (fun p => P p.2) cs -> P (DriverNode u l e c ds m cs)) ->
  forall d, P d.
Proof.
  intros H. fix go 1. intros [u l e c ds m cs]. apply H.
  induction cs as [|[n x] cs IH]; constructor; [apply go | exact IH].
Qed.

Definition entry := (driver_node * option string * option string)%type.

Definition child_entry (u : string) (nc : string * driver_node) : entry :=
  (nc.2, Some u, Some nc.1).

Definition enum_entry (x : entry) : list entry := enumerate x.1.1 x.1.2 x.2.

(** The entries of a list of children. *)
Definition forest (u : string) (cs : list (string * driver_node)) : list entry :=
  flat_map (fun nc => enum_entry (child_entry u nc)) cs.

Lemma enumerate_eq d p n : enumerate d p n = (d, p, n) :: forest (d_uuid d) (d_children d).
Proof.
  destruct d as [u l e c ds m cs]. simpl. f_equal. unfold forest.
  induction cs as [|[k x] cs IH]; simpl; [done |]. by rewrite IH.
Qed.

Lemma forest_cons u nc cs : forest u (nc :: cs) = enum_entry (child_entry u nc) ++ forest u cs.
Proof. done. Qed.

Definition dsize (d : driver_node) : nat := length (enumerate d None None).

Lemma enumerate_length d p n : length (enumerate d p n) = dsize d.
Proof. unfold dsize. by rewrite !enumerate_eq. Qed.

Lemma enum_entry_length x : length (enum_entry x) = dsize x.1.1.
Proof. apply enumerate_length. Qed.

(** The indices of the children of a node whose first child is at [o]. *)
Fixpoint child_offs (o : nat) (cs : list (string * driver_node)) : list nat :=
  match cs with
  | [] => []
  | (_, c) :: cs' => o :: child_offs (o + dsize c) cs'
  end.

(** The graph of a subtree that starts at [o]. *)
Fixpoint shape (o : nat) (d : driver_node) : graph :=
  let '(DriverNode _ _ _ _ _ _ cs) := d in
  child_offs (S o) cs ::
  (fix go (o : nat) (l : list (string * driver_node)) : graph :=
     match l with
     | [] => []
     | (_, c) :: l' => shape o c ++ go (o + dsize c) l'
     end) (S o) cs.

Fixpoint shapes (o : nat) (cs : list (string * driver_node)) : graph :=
  match cs with
  | [] => []
  | (_, c) :: cs' => shape o c ++ shapes (o + dsize c) cs'
  end.

Lemma shape_eq o d : shape o d = child_offs (S o) (d_children d) :: shapes (S o) (d_children d).
Proof.
  by destruct d.
Qed.

Arguments enumerate : simpl never.
Arguments shape : simpl never.

Lemma shape_length d o : length (shape o d) = dsize d.
Proof.
  revert o. induction d as [u l e c ds m cs IH] using driver_node_ind'. intros o.
  unfold dsize. rewrite shape_eq, enumerate_eq. simpl. f_equal. generalize (S o) as k.
  induction IH as [|[n x] cs Hx _ IHcs]; intros k; simpl; [done |].
  simpl in Hx. by rewrite !length_app, Hx, IHcs, enum_entry_length.
Qed.

Lemma forest_length u cs o : length (forest u cs) = length (shapes o cs).
Proof.
  revert o. induction cs as [|[n x] cs IH]; intros o; simpl; [done |].
  by rewrite !length_app, shape_length, (IH (o + dsize x)), enum_entry_length.
Qed.

Definition uuids (d : driver_node) : list string := map (fun x => d_uuid x.1.1) (enumerate d None None).

Definition forest_uuids (cs : list (string * driver_node)) : list string :=
  flat_map (fun nc => uuids nc.2) cs.

Lemma uuids_eq d : uuids d = d_uuid d :: forest_uuids (d_children d).
Proof.
  unfold uuids. rewrite enumerate_eq. simpl. f_equal. unfold forest_uuids.
  generalize (d_uuid d) as u. intros u.
  induction (d_children d) as [|[n x] cs IH]; [done |].
  rewrite forest_cons, map_app. simpl. f_equal; [| exact IH].
  unfold uuids, enum_entry. simpl. by rewrite !enumerate_eq.
Qed.

(** Identifiers are not empty, and no driver has the identifier of one of its ancestors.
    (The same driver may occur in several places.) *)
Fixpoint well_identified (d : driver_node) : Prop :=
  let '(DriverNode u _ _ _ _ _ cs) := d in
  truthy u = true /\ (u ∉ forest_uuids cs) /\
  (fix go (l : list (string * driver_node)) : Prop :=
     match l with [] => True | (_, c) :: l' => well_identified c /\ go l' end) cs.

Lemma well_identified_eq d : well_identified d <->
  truthy (d_uuid d) = true /\ (d_uuid d ∉ forest_uuids (d_children d)) /\
  Forall (fun nc => well_identified nc.2) (d_children d).
Proof.
  destruct d as [u l e c ds m cs]. simpl.
  assert ((fix go (l : list (string * driver_node)) : Prop :=
     match l with [] => True | (_, c) :: l' => well_identified c /\ go l' end) cs <->
     Forall (fun nc => well_identified nc.2) cs) as ->; [| done].
  induction cs as [|[n x] cs IH]; simpl; [by split |].
  rewrite Forall_cons, IH. done.
Qed.

Arguments well_identified : simpl never.

(** ** The graph [client_from_channel] builds *)

Definition entry_report (x : entry) : report_t := report x.1.1 x.1.2 x.2.

Lemma GetReport_eq root : GetReport root = map entry_report (enumerate root None None).
Proof. unfold GetReport. apply map_ext. by intros [[d p] n]. Qed.

Lemma report_ids d p n : r_uuid (report d p n) = d_uuid d /\ r_parent_uuid (report d p n) = default EmptyString p.
Proof. by destruct d. Qed.

Definition topo_loop := fold_left topo_step.

Lemma alter_app_l' (f : list nat -> list nat) i (a b : graph) : i < length a ->
  alter f i (a ++ b) = alter f i a ++ b.
Proof. apply alter_app_l. Qed.

Lemma alter_alter (f h : list nat -> list nat) i (l : graph) :
  alter f i (alter h i l) = alter (fun x => f (h x)) i l.
Proof.
  revert i. induction l as [|x l IH]; intros [|i]; simpl; [done | done | done |].
  f_equal. apply IH.
Qed.

Section Build.

(** What the loop does with a subtree, resp. with the children of the node [u]. *)
Definition loop_tree (d : driver_node) : Prop :=
  forall topo ls u pi n, truthy u = true -> dict_get u ls = Some pi -> pi < length topo ->
    u ∉ uuids d -> well_identified d ->
    exists ls', topo_loop (map entry_report (enumerate d (Some u) (Some n))) (Some (topo, ls)) =
      Some (alter (fun l => l ++ [length topo]) pi topo ++ shape (length topo) d, ls') /\
      (forall v, v ∉ uuids d -> dict_get v ls' = dict_get v ls).

Lemma loop_forest cs :
  Forall (fun nc => loop_tree nc.2) cs -> Forall (fun nc => well_identified nc.2) cs ->
  forall topo ls u pi, truthy u = true -> dict_get u ls = Some pi -> pi < length topo ->
    u ∉ forest_uuids cs ->
    exists ls', topo_loop (map entry_report (forest u cs)) (Some (topo, ls)) =
      Some (alter (fun l => l ++ child_offs (length topo) cs) pi topo ++ shapes (length topo) cs, ls') /\
      (forall v, v ∉ forest_uuids cs -> dict_get v ls' = dict_get v ls).
Proof.
  intros HP HW. induction HP as [|[n c] cs Hc HP IH]; intros topo ls u pi Ht Hu Hpi Hn.
  - exists ls. simpl. split; [| done]. rewrite app_nil_r. f_equal. f_equal.
    symmetry. rewrite list_alter_id; [done |]. intros. by rewrite app_nil_r.
  - apply Forall_cons in HW as [Wc HW]. simpl in Hn. unfold forest_uuids in Hn. simpl in Hn.
    rewrite not_elem_of_app in Hn. destruct Hn as [Hn1 Hn2].
    destruct (Hc topo ls u pi n Ht Hu Hpi Hn1 Wc) as (ls1 & E1 & F1). simpl in E1, F1.
    assert (length (alter (fun l => l ++ [length topo]) pi topo ++ shape (length topo) c) =
            length topo + dsize c) as Hlen by (by rewrite length_app, length_alter, shape_length).
    destruct (IH HW (alter (fun l => l ++ [length topo]) pi topo ++ shape (length topo) c) ls1 u pi Ht)
      as (ls2 & E2 & F2).
    { by rewrite F1. } { lia. } { done. }
    exists ls2. split.
    + unfold topo_loop in *. rewrite forest_cons, map_app, fold_left_app. unfold enum_entry. simpl.
      rewrite E1, E2, Hlen. f_equal. f_equal.
      rewrite alter_app_l' by (by rewrite length_alter). rewrite <- app_assoc. f_equal.
      rewrite alter_alter. apply list_alter_ext; [| done].
      intros l _. simpl. by rewrite <- app_assoc.
    + intros v Hv. unfold forest_uuids in Hv. simpl in Hv. rewrite not_elem_of_app in Hv.
      destruct Hv. by rewrite F2, F1.
Qed.

Lemma loop_tree_all d : loop_tree d.
Proof.
  induction d as [u l e c ds m cs IH] using driver_node_ind'.
  intros topo ls v pi n Ht Hv Hpi Hn Hw. set (d := DriverNode u l e c ds m cs) in *.
  apply well_identified_eq in Hw as (Wt & Wn & Wcs). simpl in Wt, Wn, Wcs.
  rewrite uuids_eq in Hn. simpl in Hn. rewrite not_elem_of_cons in Hn. destruct Hn as [Hvu Hvf].
  set (topo1 := alter (fun l => l ++ [length topo]) pi topo ++ [[]]).
  destruct (loop_forest cs IH Wcs topo1 (dict_set u (length topo) ls) u (length topo) Wt)
    as (ls' & E & F).
  { apply dict_get_set_same. }
  { unfold topo1. rewrite length_app, length_alter. simpl. lia. }
  { done. }
  exists ls'. split.
  - unfold topo_loop in *. rewrite enumerate_eq. cbn [map fold_left].
    change (entry_report (d, Some v, Some n)) with (report d (Some v) (Some n)).
    destruct (report_ids d (Some v) (Some n)) as [E1 E2]. unfold topo_step at 2.
    rewrite E1, E2. simpl. rewrite Ht. rewrite dict_get_set_other by (subst d; simpl; congruence).
    rewrite Hv. rewrite alter_app_l by done. fold topo1. rewrite E. f_equal. f_equal.
    assert (forall f : list nat -> list nat, alter f (length topo) topo1 =
      alter (fun l => l ++ [length topo]) pi topo ++ [f []]) as Hal.
    { intros f. unfold topo1. rewrite alter_app_r_alt by (by rewrite length_alter).
      by rewrite length_alter, Nat.sub_diag. }
    rewrite Hal, <- app_assoc. simpl. f_equal. rewrite shape_eq. simpl.
    assert (length topo1 = S (length topo)) as -> by (unfold topo1; rewrite length_app, length_alter; simpl; lia).
    done.
  - intros w Hw. rewrite uuids_eq in Hw. simpl in Hw. rewrite not_elem_of_cons in Hw.
    destruct Hw as [Hwu Hwf]. rewrite F by done. apply dict_get_set_other. congruence.
Qed.

Lemma build_topo_tree root : well_identified root ->
  exists ls, build_topo (GetReport root) = Some (shape 0 root, ls).
Proof.
  intros Hw. rewrite GetReport_eq. unfold build_topo. rewrite enumerate_eq. cbn [map fold_left].
  change (entry_report (root, None, None)) with (report root None None).
  apply well_identified_eq in Hw as (Wt & Wn & Wcs).
  destruct (report_ids root None None) as [E1 E2]. unfold topo_step at 2.
  rewrite E1, E2. simpl.
  destruct (loop_forest (d_children root)) with (topo := [@nil nat])
    (ls := [(d_uuid root, 0)]) (u := d_uuid root) (pi := 0) as (ls' & E & _); try done.
  - apply Forall_forall. intros nc _. apply loop_tree_all.
  - simpl. by rewrite String.eqb_refl.
  - simpl. lia.
  - exists ls'. unfold topo_loop in E. rewrite E. simpl. by rewrite shape_eq.
Qed.

End Build.

(** ** Where the children are *)

Lemma default_lookup_app_l (a b : graph) k : k < length a ->
  default [] ((a ++ b) !! k) = default [] (a !! k).
Proof. intros H. by rewrite lookup_app_l. Qed.

Lemma default_lookup_app_r (a b : graph) k : length a <= k ->
  default [] ((a ++ b) !! k) = default [] (b !! (k - length a)).
Proof. intros H. by rewrite lookup_app_r. Qed.

Lemma child_offs_range cs o j : j ∈ child_offs o cs -> o <= j < o + length (shapes o cs).
Proof.
  revert o. induction cs as [|[n c] cs IH]; intros o; simpl; [set_solver |].
  rewrite length_app, shape_length. assert (1 <= dsize c) by (unfold dsize; rewrite enumerate_eq; simpl; lia).
  intros [->|Hj]%elem_of_cons; [lia |]. apply IH in Hj. lia.
Qed.

Lemma shape_range d : forall o k j, j ∈ default [] (shape o d !! k) -> o + k < j < o + dsize d.
Proof.
  induction d as [u l e c ds m cs IH] using driver_node_ind'. intros o k j.
  rewrite <- (shape_length _ o), shape_eq. simpl. destruct k as [|k]; simpl.
  - intros Hj%child_offs_range. lia.
  - intros Hj. assert (forall o' k', j ∈ default [] (shapes o' cs !! k') ->
      o' + k' < j < o' + length (shapes o' cs)) as Hf.
    { clear Hj k. induction IH as [|[n x] cs Hx _ IHcs]; intros o' k'; simpl; [set_solver |].
      rewrite length_app, shape_length. destruct (decide (k' < dsize x)) as [Hlt|Hge].
      - rewrite default_lookup_app_l by (by rewrite shape_length). intros Hj%Hx. simpl in Hj. lia.
      - rewrite default_lookup_app_r by (rewrite shape_length; lia). rewrite shape_length.
        intros Hj%IHcs. lia. }
    apply Hf in Hj. lia.
Qed.

Lemma shape_forward root : forward (shape 0 root).
Proof.
  intros i j Hj. unfold preds in Hj. rewrite shape_length.
  apply shape_range in Hj. lia.
Qed.

Lemma forest_offs u cs : forall pre o,
  map (fun j => (pre ++ forest u cs) !! (j - o)) (child_offs (o + length pre) cs) =
  map (fun nc => Some (child_entry u nc)) cs.
Proof.
  induction cs as [|[n c] cs IH]; intros pre o; [done |].
  cbn [child_offs map]. f_equal.
  - replace (o + length pre - o) with (length pre) by lia.
    rewrite forest_cons. unfold enum_entry. rewrite enumerate_eq. simpl.
    by rewrite list_lookup_middle.
  - rewrite forest_cons, app_assoc. rewrite <- (IH (pre ++ enum_entry (child_entry u (n, c))) o).
    rewrite length_app, enum_entry_length. simpl. by rewrite Nat.add_assoc.
Qed.

(** The children of the entry at [k], found through the graph. *)
Definition children_at (es : list entry) (g : graph) (o : nat) (k : nat) (x : entry) : Prop :=
  map (fun j => es !! (j - o)) (default [] (g !! k)) =
  map (fun nc => Some (child_entry (d_uuid x.1.1) nc)) (d_children x.1.1).

Lemma forest_children u cs :
  Forall (fun nc => forall o p n k x, enumerate nc.2 p n !! k = Some x ->
    children_at (enumerate nc.2 p n) (shape o nc.2) o k x) cs ->
  forall pre o k x, forest u cs !! k = Some x ->
    children_at (pre ++ forest u cs) (shapes (o + length pre) cs) o k x.
Proof.
  induction 1 as [|[n c] cs Hc _ IH]; intros pre o k x Hk; [done |].
  rewrite forest_cons in *. unfold enum_entry, child_entry in *. cbn [fst snd] in *.
  unfold children_at in *. simpl shapes.
  destruct (decide (k < dsize c)) as [Hlt|Hge].
  - rewrite lookup_app_l in Hk by (by rewrite enumerate_length).
    rewrite default_lookup_app_l by (by rewrite shape_length).
    rewrite <- (Hc (o + length pre) _ _ _ _ Hk). apply map_ext_in.
    intros j Hj. apply list_elem_of_In, shape_range in Hj.
    rewrite lookup_app_r by lia. rewrite lookup_app_l by (rewrite enumerate_length; lia).
    f_equal. lia.
  - rewrite lookup_app_r in Hk by (rewrite enumerate_length; lia). rewrite enumerate_length in Hk.
    rewrite default_lookup_app_r by (rewrite shape_length; lia). rewrite shape_length, app_assoc.
    rewrite <- (IH (pre ++ enumerate c (Some u) (Some n)) o (k - dsize c) x Hk).
    rewrite length_app, enumerate_length. by rewrite Nat.add_assoc.
Qed.

Lemma tree_children d : forall o p n k x, enumerate d p n !! k = Some x ->
  children_at (enumerate d p n) (shape o d) o k x.
Proof.
  induction d as [u l e c ds m cs IH] using driver_node_ind'. intros o p n k x.
  rewrite enumerate_eq, shape_eq. simpl. destruct k as [|k]; simpl.
  - intros [= <-]. unfold children_at. simpl.
    rewrite <- (forest_offs u cs [(DriverNode u l e c ds m cs, p, n)] o). simpl.
    by replace (o + 1) with (S o) by lia.
  - intros Hk. pose proof (forest_children u cs IH [(DriverNode u l e c ds m cs, p, n)] o k x Hk) as H.
    unfold children_at in *. simpl in *. by replace (o + 1) with (S o) in H by lia.
Qed.

(** Every entry but the first is a child. *)
Lemma forest_covered cs :
  Forall (fun nc => forall o i, o < i < o + dsize nc.2 -> exists z, i ∈ default [] (shape o nc.2 !! z)) cs ->
  forall o i, o <= i < o + length (shapes o cs) ->
    i ∈ child_offs o cs \/ exists z, i ∈ default [] (shapes o cs !! z).
Proof.
  induction 1 as [|[n c] cs Hc _ IH]; intros o i Hi; simpl in *; [lia |].
  rewrite length_app, shape_length in Hi.
  destruct (decide (i = o)) as [->|Hne]; [left; set_solver |].
  destruct (decide (i < o + dsize c)) as [Hlt|Hge].
  - destruct (Hc o i) as [z Hz]; [lia |]. right. exists z.
    destruct (decide (z < dsize c)).
    + by rewrite default_lookup_app_l by (by rewrite shape_length).
    + assert (shape o c !! z = None) as E by (apply lookup_ge_None_2; rewrite shape_length; lia).
      simpl in Hz. rewrite E in Hz. set_solver.
  - destruct (IH (o + dsize c) i) as [H|[z Hz]]; [lia | left; set_solver |].
    right. exists (dsize c + z). rewrite default_lookup_app_r by (rewrite shape_length; lia).
    rewrite shape_length. by replace (dsize c + z - dsize c) with z by lia.
Qed.

Lemma tree_covered d : forall o i, o < i < o + dsize d -> exists z, i ∈ default [] (shape o d !! z).
Proof.
  induction d as [u l e c ds m cs IH] using driver_node_ind'. intros o i Hi.
  rewrite <- (shape_length _ o), shape_eq in Hi. simpl in Hi. rewrite shape_eq. simpl.
  destruct (forest_covered cs IH (S o) i) as [H|[z Hz]]; [lia | by exists 0 | by exists (S z)].
Qed.

(** ** The clients *)

Lemma dict_set_new {A} k (v : A) d : k ∉ d.*1 -> dict_set k v d = d ++ [(k, v)].
Proof.
  induction d as [|[k' v'] d IH]; simpl; [done |]. rewrite not_elem_of_cons. intros [Hne Hn].
  destruct (String.eqb_spec k k'); [done |]. by rewrite IH.
Qed.

Lemma dict_set_fold {A B} (key : B -> string) (f : B -> A) (l : list B) acc :
  NoDup (acc.*1 ++ map key l) ->
  fold_left (fun acc x => dict_set (key x) (f x) acc) l acc = acc ++ map (fun x => (key x, f x)) l.
Proof.
  revert acc. induction l as [|x l IH]; intros acc Hn; simpl; [by rewrite app_nil_r |].
  simpl in Hn. rewrite dict_set_new by (apply NoDup_app in Hn as (_ & Hd & _); intros ?; eapply Hd; [done | set_solver]).
  rewrite IH; [by rewrite <- app_assoc |]. rewrite fmap_app, <- app_assoc. done.
Qed.

Section Clients.

Context (cached_import : string -> string -> import_outcome).
Context (allow : list string) (unsafe : bool).

Definition class_for (client_path : string) : client_class :=
  match import_class cached_import allow unsafe client_path with
  | ClassOk c => c
  | _ => StubDriverClient
  end.

(** The client of a driver: same identifier, labels and texts, the class its [client()]
    names, and the clients of its children under the children's names. *)
Fixpoint mirror (d : driver_node) (parent name : option string) : client_node :=
  let r := report d parent name in
  let '(DriverNode uuid _ _ client description methods cs) := d in
  ClientNode uuid (r_labels r) (class_for client) (or_none description) methods
    (map (fun nc => (nc.1, mirror nc.2 (Some uuid) (Some nc.1))) cs).

Definition mirror_entry (x : entry) : client_node := mirror x.1.1 x.1.2 x.2.

(** Children have names, and no two of one driver the same. *)
Definition well_named (d : driver_node) : Prop :=
  Forall (fun x : entry => NoDup (d_children x.1.1).*1 /\
            Forall (fun nc => truthy nc.1 = true) (d_children x.1.1)) (enumerate d None None).

Definition d_client (d : driver_node) : string := let '(DriverNode _ _ _ c _ _ _) := d in c.

(** No module the tree needs fails to load in another way than by being missing. *)
Definition loadable (d : driver_node) : Prop :=
  Forall (fun x : entry => import_class cached_import allow unsafe (d_client x.1.1) <> ImportErr)
    (enumerate d None None).

Lemma label_client d p n : label LABEL_CLIENT (report d p n) = d_client d.
Proof.
  destruct d as [u l e c ds m cs]. unfold label, report. simpl.
  destruct (or_none n) as [x|]; unfold dict_update; simpl.
  - by rewrite dict_get_set_other, dict_get_set_same by done.
  - by rewrite dict_get_set_same.
Qed.

Lemma label_name d p n : truthy n = true -> label LABEL_NAME (report d p (Some n)) = n.
Proof.
  intros Hn. destruct d as [u l e c ds m cs]. unfold label, report. simpl. rewrite Hn.
  unfold dict_update. simpl. by rewrite dict_get_set_same.
Qed.

Section Tree.

Context (root : driver_node).
Context (Hid : well_identified root) (Hname : well_named root) (Hload : loadable root).

Let es : list entry := enumerate root None None.
Let rs : list report_t := map entry_report es.
Let g : graph := shape 0 root.

Definition entry_at (i : nat) : entry := match es !! i with Some x => x | None => (root, None, None) end.

Definition tree_at (i : nat) : client_node := mirror_entry (entry_at i).

Lemma entry_at_eq i x : es !! i = Some x -> entry_at i = x.
Proof. unfold entry_at. by intros ->. Qed.

Lemma es_length : length es = length g.
Proof. unfold es, g. by rewrite shape_length. Qed.

Lemma gather_clients O1 ks : (forall k, k ∈ ks -> k ∈ O1 /\ k < length g) -> forall acc,
  gather rs (map (fun i => (i, tree_at i)) O1) ks acc =
  Some (fold_left (fun acc k => dict_set (label LABEL_NAME (entry_report (entry_at k)))
                                  (tree_at k) acc) ks acc).
Proof.
  induction ks as [|k ks IH]; intros H acc; simpl; [done |].
  destruct (H k) as [Hk Hlt]; [set_solver |].
  destruct (lookup_lt_is_Some_2 es k) as [x Hx]; [by rewrite es_length |].
  unfold rs at 1. rewrite list_lookup_fmap, Hx. simpl.
  destruct (list_find (fun p : nat * client_node => p.1 = k) (map (fun i => (i, tree_at i)) O1))
    as [[i [j c]]|] eqn:E.
  - apply list_find_Some in E as (Hi & Hj & _). simpl in Hj. subst j.
    assert (c = tree_at k) as -> by
      (apply list_elem_of_lookup_2 in Hi; apply list_elem_of_fmap in Hi as (y & [= -> ->] & _); done).
    rewrite IH by set_solver. by rewrite (entry_at_eq k x Hx).
  - apply list_find_None in E. rewrite Forall_forall in E. exfalso.
    apply (E (k, tree_at k)); [| done]. by apply (list_elem_of_fmap_2 (fun i => (i, tree_at i))).
Qed.

Lemma children_built k x : es !! k = Some x ->
  fold_left (fun acc k => dict_set (label LABEL_NAME (entry_report (entry_at k)))
                            (tree_at k) acc) (preds g k) [] =
  map (fun nc => (nc.1, mirror nc.2 (Some (d_uuid x.1.1)) (Some nc.1))) (d_children x.1.1).
Proof.
  intros Hx. pose proof (tree_children root 0 None None k x Hx) as H. unfold children_at in H.
  assert (NoDup (d_children x.1.1).*1 /\ Forall (fun nc => truthy nc.1 = true) (d_children x.1.1)) as [Hn Ht].
  { unfold well_named in Hname. rewrite Forall_forall in Hname. apply Hname.
    by eapply list_elem_of_lookup_2. }
  set (u := d_uuid x.1.1) in *. fold g in H. fold es in H. fold (preds g k) in H.
  transitivity (fold_left (fun acc nc => dict_set nc.1 (mirror nc.2 (Some u) (Some nc.1)) acc)
                  (d_children x.1.1) []).
  - clear Hn. revert H. generalize (@nil (string * client_node)) as acc.
    generalize (preds g k) as ks. induction (d_children x.1.1) as [|nc cs IH]; intros ks acc H.
    + destruct ks; [done | discriminate].
    + destruct ks as [|j ks]; [discriminate |]. simpl in H. injection H as Hj H.
      apply Forall_cons in Ht as [Ht1 Ht].
      rewrite Nat.sub_0_r in Hj. simpl. unfold tree_at. rewrite (entry_at_eq j _ Hj).
      unfold child_entry, mirror_entry, entry_report. simpl. rewrite label_name by done.
      by apply IH.
  - rewrite (dict_set_fold fst (fun nc => mirror nc.2 (Some u) (Some nc.1))); done.
Qed.

Lemma mirror_entry_eq x : mirror_entry x =
  ClientNode (r_uuid (entry_report x)) (r_labels (entry_report x)) (class_for (d_client x.1.1))
    (or_none (r_description (entry_report x))) (r_methods (entry_report x))
    (map (fun nc => (nc.1, mirror nc.2 (Some (d_uuid x.1.1)) (Some nc.1))) (d_children x.1.1)).
Proof.
  destruct x as [[[u l e c ds m cs] p] n]. unfold mirror_entry, entry_report. simpl.
  f_equal. unfold or_none. destruct ds as [s|]; [| done]. by destruct (truthy s) eqn:E; simpl; rewrite ?E.
Qed.

Lemma build_prefix O1 : (forall k, k ∈ O1 -> k < length g) -> topological g [] O1 ->
  fold_left (build_client cached_import allow unsafe rs g) O1 (inr []) =
  inr (map (fun i => (i, tree_at i)) O1).
Proof.
  intros Hr Ht. induction O1 as [|k O1 IH] using rev_ind; [done |].
  rewrite fold_left_app, map_app. rewrite IH; cycle 1.
  { set_solver. }
  { intros A y B -> j Hj. apply (Ht A y (B ++ [k])); [by rewrite <- app_assoc | done]. }
  simpl. destruct (lookup_lt_is_Some_2 es k) as [x Hx]; [rewrite es_length; set_solver |].
  unfold rs at 1. rewrite list_lookup_fmap, Hx. simpl.
  assert (client_class_of cached_import allow unsafe (entry_report x) = Some (class_for (d_client x.1.1))) as ->.
  { unfold client_class_of, class_for, entry_report. rewrite label_client.
    assert (import_class cached_import allow unsafe (d_client x.1.1) <> ImportErr) as Hl.
    { unfold loadable in Hload. rewrite Forall_forall in Hload. apply Hload. by eapply list_elem_of_lookup_2. }
    by destruct (import_class _ _ _ _). }
  rewrite gather_clients.
  - rewrite (children_built k x Hx). f_equal. f_equal. unfold tree_at. rewrite (entry_at_eq k x Hx).
    by rewrite mirror_entry_eq.
  - intros j Hj. split; [apply (Ht O1 k [] eq_refl j Hj) |].
    destruct (shape_forward root k j Hj). done.
Qed.

Lemma order_ends_with_root : exists O1, static_order g = O1 ++ [0].
Proof.
  destruct (static_order_correct g (shape_forward root)) as (Hn & Hall & Ht).
  destruct (static_order g) as [|y O] eqn:E using rev_ind.
  { exfalso. assert (0 ∈ (@nil nat)) as H; [| set_solver]. apply Hall. unfold g.
    rewrite shape_eq. simpl. lia. }
  exists O. destruct (decide (y = 0)) as [->|Hy]; [done |]. exfalso.
  assert (y < length g) as Hlt by (apply Hall; set_solver).
  destruct (tree_covered root 0 y) as [z Hz]; [unfold g in Hlt; rewrite shape_length in Hlt; lia |].
  fold (preds g z) in Hz. destruct (shape_forward root z y Hz) as [Hzy _].
  assert (z ∈ O ++ [y]) as Hin by (apply Hall; lia).
  apply elem_of_app in Hin as [Hin|Hin]; [| set_solver by lia].
  apply list_elem_of_split in Hin as (A & B & ->).
  assert (y ∈ [] ++ A) as Hy' by (apply (Ht A z (B ++ [y])); [by rewrite <- app_assoc | done]).
  apply NoDup_app in Hn as (_ & Hd & _). apply (Hd y); [set_solver | set_solver].
Qed.

End Tree.

(** C12: the tree of clients built from an exporter's report mirrors its driver tree: same
    identifiers, labels, texts and names of children, each client of the class its driver
    names when the allow list admits it and it is installed, and a stub otherwise. This
    holds for drivers that occur in several places of the tree, when no driver has the
    identifier of one of its ancestors or an empty one, the names of a driver's children
    are distinct and not empty, and every class the tree needs is loadable: it is refused,
    missing or imported, and its import does not fail in another way. *)
Theorem client_mirrors_driver root :
  well_identified root -> well_named root -> loadable root ->
  client_from_channel cached_import allow unsafe (GetReport root) = inr (mirror root None None).
Proof.
  intros Hid Hname Hload. unfold client_from_channel.
  destruct (build_topo_tree root Hid) as [ls ->]. rewrite GetReport_eq.
  destruct (static_order_correct _ (shape_forward root)) as (_ & Hall & Ht).
  destruct (order_ends_with_root root Hid Hname Hload) as [O1 E].
  pose proof (build_prefix root Hid Hname Hload (static_order (shape 0 root))
    (fun k Hk => proj1 (Hall k) Hk) Ht) as HB.
  rewrite HB, E, map_app. simpl. rewrite last_snoc. f_equal. unfold tree_at.
  by rewrite (entry_at_eq root 0 (root, None, None)) by (by rewrite enumerate_eq).
Qed.

(** The classes of a tree of clients. *)
Fixpoint classes (c : client_node) : list client_class :=
  let '(ClientNode _ _ cls _ _ cs) := c in
  cls :: flat_map (fun nc => classes nc.2) cs.

Definition admitted (cls : client_class) : Prop :=
  match cls with
  | StubDriverClient => True
  | Imported path => unsafe = true \/ exists pat, In pat allow /\ fnmatchcase path pat = true
  end.

Definition admitted_tree (c : client_node) : Prop := Forall admitted (classes c).

Lemma import_class_admitted path cls :
  import_class cached_import allow unsafe path = ClassOk cls -> admitted cls.
Proof.
  unfold import_class, allowed. destruct unsafe eqn:Hu; simpl.
  - intros H. split_ifs_in H; try done. injection H as <-. by left.
  - destruct (existsb (fnmatchcase path) allow) eqn:E; simpl; [| done].
    apply existsb_exists in E as (pat & Hp1 & Hp2). intros H. split_ifs_in H; try done.
    injection H as <-. right. by exists pat.
Qed.

Lemma dict_set_Forall {A} (P : A -> Prop) k (v : A) d :
  P v -> Forall (fun kv => P kv.2) d -> Forall (fun kv => P kv.2) (dict_set k v d).
Proof.
  intros Hv. induction 1 as [|[k' v'] d Hx Hd IH]; simpl; [by repeat constructor |].
  destruct (String.eqb k k'); by constructor.
Qed.

Lemma gather_Forall (P : client_node -> Prop) rs clients ks : forall acc cs,
  Forall (fun ic => P ic.2) clients -> Forall (fun nc => P nc.2) acc ->
  gather rs clients ks acc = Some cs -> Forall (fun nc => P nc.2) cs.
Proof.
  induction ks as [|k ks IH]; intros acc cs Hc Ha; simpl; [by intros [= <-] |].
  destruct (rs !! k) as [r|]; [| done].
  destruct (list_find _ clients) as [[i [j c]]|] eqn:E; [| done].
  apply list_find_Some in E as (Hi & _ & _). apply IH; [done |].
  apply dict_set_Forall; [| done]. rewrite Forall_forall in Hc.
  apply (Hc (j, c)). by eapply list_elem_of_lookup_2.
Qed.

Lemma build_client_admitted rs g order : forall st clients,
  (forall cl, st = inr cl -> Forall (fun ic => admitted_tree ic.2) cl) ->
  fold_left (build_client cached_import allow unsafe rs g) order st = inr clients ->
  Forall (fun ic => admitted_tree ic.2) clients.
Proof.
  induction order as [|i order IH]; intros st clients Hst; simpl; [by intros ->; apply Hst |].
  apply IH. intros cl. unfold build_client. destruct st as [err|cl0]; [done |].
  destruct (rs !! i) as [r|]; [| done].
  destruct (client_class_of cached_import allow unsafe r) as [cls|] eqn:Ec; [| done].
  destruct (gather rs cl0 (preds g i) []) as [children|] eqn:Eg; [| done]. intros [= <-].
  apply Forall_app. split; [by apply Hst |]. constructor; [| constructor]. simpl.
  unfold admitted_tree. simpl. constructor.
  - unfold client_class_of in Ec. destruct (import_class _ _ _ _) eqn:Ei; [| by injection Ec as <- | done].
    injection Ec as <-. by eapply import_class_admitted.
  - apply (gather_Forall admitted_tree) in Eg; [| by apply Hst | constructor].
    clear -Eg. induction Eg as [|nc cs Hn _ IH]; simpl; [constructor |]. by apply Forall_app.
Qed.

(** A client only runs code its allow list admits: whatever an exporter reports, every
    class of the resulting tree is the stub or was imported from a path that a pattern of
    the list matches (or the list was switched off); a class outside the list is replaced
    by the stub and is not an error. *)
Theorem client_classes_allowed reports c :
  client_from_channel cached_import allow unsafe reports = inr c ->
  Forall admitted (classes c) /\
  forall path, unsafe = false -> (forall pat, In pat allow -> fnmatchcase path pat = false) ->
    class_for path = StubDriverClient /\ import_class cached_import allow unsafe path <> ImportErr.
Proof.
  intros H. split.
  - unfold client_from_channel in H. destruct (build_topo reports) as [[g ls]|]; [| done].
    destruct (fold_left _ _ _) as [err|clients] eqn:E; [done |].
    apply build_client_admitted in E; [| intros cl [= <-]; constructor].
    destruct (last clients) as [[i c']|] eqn:El; [| done]. injection H as ->.
    apply last_Some in El as [l ->]. apply Forall_app in E as [_ E]. by apply Forall_cons in E as [E _].
  - intros path Hu Hp. unfold class_for, import_class, allowed. rewrite Hu. simpl.
    assert (existsb (fnmatchcase path) allow = false) as ->; [| done].
    apply not_true_is_false. intros (pat & Hin & Hm)%existsb_exists. by rewrite Hp in Hm.
Qed.

End Clients.

(** ** Concrete instances *)

Definition power : driver_node :=
  DriverNode "p1" [] [] "jumpstarter_driver_power.client.PowerClient" None [] [].

(** The power driver occurs twice, once under a proxy. *)
Definition demo_root : driver_node :=
  DriverNode "r1" [("site", "lab")] [] "jumpstarter_driver_composite.client.CompositeClient"
    (Some "board"%string) []
    [("power", power);
     ("dut", DriverNode "d1" [] [] "custom.DutClient" None [] [("power", power)])].

Definition demo_import (m c : string) : import_outcome := ImportedClass.

Lemma demo_root_ok : well_identified demo_root /\ well_named demo_root /\
  loadable demo_import ["jumpstarter_driver_*"] false demo_root.
Proof.
  split_and!.
  - unfold well_identified, demo_root, power.
    split_and!; try done; apply (bool_decide_unpack _); vm_compute; exact I.
  - unfold well_named. vm_compute. repeat constructor; set_solver.
  - unfold loadable. vm_compute. repeat constructor; discriminate.
Qed.

Lemma client_mirrors_driver_witness :
  client_from_channel demo_import ["jumpstarter_driver_*"] false (GetReport demo_root) =
  inr (mirror demo_import ["jumpstarter_driver_*"] false demo_root None None).
Proof.
  apply (client_mirrors_driver demo_import ["jumpstarter_driver_*"] false demo_root);
    apply demo_root_ok.
Defined.

Lemma client_classes_allowed_witness :
  Forall (admitted ["jumpstarter_driver_*"] false)
    (classes (mirror demo_import ["jumpstarter_driver_*"] false demo_root None None)).
Proof.
  apply (client_classes_allowed demo_import ["jumpstarter_driver_*"] false (GetReport demo_root)).
  vm_compute. reflexivity.
Defined.
