(* ===== verification/Streams.v ===== *)
(** * Streams

    [streams/encoding.py] (compressed streams, detection and decompression on the fly),
    [streams/router.py] (frames) and the negotiation of a resource's encoding between
    [client/core.py] ([resource_async]) and [driver/base.py].

    Bytes are lists of integers. The compression libraries are parameters: an object of
    class [Codec] is one format, with the documented laws of incremental coding. *)

From stdpp Require Import base list strings.
From Stdlib Require Import ZArith Lia.
From S2P Require Import Prelude PyText.

Abbreviation bytes := (list Z).

(** ** Codecs *)

(** A compressor and a decompressor object of the library; [None] is its error. [flush] is
    missing for decompressors that have no such method. *)
Class Codec := {
  dstate : Type;
  cstate : Type;
  dinit : dstate;
  feed : dstate -> bytes -> option (bytes * dstate);
  dflush : option (dstate -> option bytes);
  deof : dstate -> bool;
  cinit : cstate;
  compress : cstate -> bytes -> bytes * cstate;
  cflush : cstate -> bytes
}.

(** All that a compressor produces for a sequence of items. *)
Fixpoint compress_items `{Codec} (s : cstate) (items : list bytes) : list bytes * cstate :=
  match items with
  | [] => ([], s)
  | x :: xs => let '(o, s1) := compress s x in
               let '(os, s2) := compress_items s1 xs in (o :: os, s2)
  end.

(** Feeding in pieces is feeding the whole as long as the compressed stream has not ended,
    and an error is not undone by more data. *)
Class CodecLaws (C : Codec) : Prop := {
  feed_app : forall d a b o d1, feed d a = Some (o, d1) -> deof d1 = false ->
    feed d (a ++ b) = match feed d1 b with
                      | Some (o2, d2) => Some (o ++ o2, d2)
                      | None => None
                      end;
  feed_app_error : forall d a b, feed d a = None -> feed d (a ++ b) = None
}.

(** ** Detection *)

Inductive Compression := GZIP | XZ | BZ2 | ZSTD.

Definition COMPRESSION_SIGNATURES : list (bytes * Compression) :=
  [([0x1f; 0x8b; 0x08]%Z, GZIP);
   ([0xfd; 0x37; 0x7a; 0x58; 0x5a; 0x00]%Z, XZ);
   ([0x42; 0x5a; 0x68]%Z, BZ2);
   ([0x28; 0xb5; 0x2f; 0xfd]%Z, ZSTD)].

Definition SIGNATURE_BUFFER_SIZE : nat := 8.

Fixpoint bytes_startswith (data sig : bytes) {struct sig} : bool :=
  match sig, data with
  | [], _ => true
  | s :: sig', b :: data' => Z.eqb s b && bytes_startswith data' sig'
  | _ :: _, [] => false
  end.

Definition detect_compression_from_signature (data : bytes) : option Compression :=
  option_map snd (find (fun s => bytes_startswith data s.1) COMPRESSION_SIGNATURES).

(** ** [AutoDecompressIterator] *)

Section Auto.

Context (codec : Compression -> Codec).

(** The decompressor in use, with its format. *)
Definition decompressor : Type := sigT (fun c : Compression => @dstate (codec c)).

Definition create_decompressor (c : Compression) : decompressor := existT c (@dinit (codec c)).

Record auto_state := mkAuto {
  source : list bytes;
  au_decompressor : option decompressor;
  detected : bool;
  buffer : bytes;
  exhausted : bool
}.

Definition auto_init (src : list bytes) : auto_state := mkAuto src None false [] false.

(** The buffering loop, over the remaining chunks. *)
Fixpoint fill_buffer (src : list bytes) (buf : bytes) : list bytes * bytes * bool :=
  if length buf <? SIGNATURE_BUFFER_SIZE then
    match src with
    | [] => ([], buf, true)
    | chunk :: src' => fill_buffer src' (buf ++ chunk)
    end
  else (src, buf, false).

Definition detect (s : auto_state) : auto_state :=
  let '(src, buf, ex) := fill_buffer (source s) (buffer s) in
  mkAuto src (option_map create_decompressor (detect_compression_from_signature buf)) true buf ex.

(** Fed after the end of the compressed stream, the decompressors of [bz2], [lzma] and
    [zstd] raise [EOFError]; the one of [zlib] puts the data aside. *)
Definition raises_after_end (c : Compression) : bool :=
  match c with GZIP => false | _ => true end.

(** The errors that leave the iterator: the [RuntimeError] for an error of the library, and
    [EOFError], which [_call_decompressor] does not catch. *)
Inductive stream_error := DecompressFailed | FedAfterEnd.

(** [_call_decompressor("decompress", data)]. *)
Definition call_decompress (d : decompressor) (data : bytes) : stream_error + bytes * decompressor :=
  let '(existT c st) := d in
  if raises_after_end c && @deof (codec c) st then inl FedAfterEnd
  else match @feed (codec c) st data with
       | Some (o, st') => inr (o, existT c st')
       | None => inl DecompressFailed
       end.

(** What [__anext__] does: a chunk, the end, or an exception. *)
Inductive next := Yield (data : bytes) | StopIteration | Raises (e : stream_error).

Definition process (s : auto_state) (data : bytes) : next * auto_state :=
  match au_decompressor s with
  | None => (Yield data, s)
  | Some d =>
      match call_decompress d data with
      | inr (o, d') => (Yield o, mkAuto (source s) (Some d') (detected s) (buffer s) (exhausted s))
      | inl e => (Raises e, s)
      end
  end.

Definition anext (s : auto_state) : next * auto_state :=
  let s := if detected s then s else detect s in
  match buffer s with
  | (_ :: _) as data =>
      process (mkAuto (source s) (au_decompressor s) (detected s) [] (exhausted s)) data
  | [] =>
      if exhausted s then (StopIteration, s)
      else match source s with
           | [] =>
               let s := mkAuto [] (au_decompressor s) (detected s) [] true in
               match au_decompressor s with
               | Some (existT c st) =>
                   match @dflush (codec c) with
                   | None => (StopIteration, s)
                   | Some fl =>
                       match fl st with
                       | None => (Raises DecompressFailed, s)
                       | Some remaining =>
                           let s := mkAuto [] None (detected s) [] true in
                           match remaining with
                           | [] => (StopIteration, s)
                           | _ => (Yield remaining, s)
                           end
                       end
                   end
               | None => (StopIteration, s)
               end
           | chunk :: src' =>
               process (mkAuto src' (au_decompressor s) (detected s) (buffer s) (exhausted s)) chunk
           end
  end.

Definition prepend (data : bytes) (r : option (stream_error + list bytes))
    : option (stream_error + list bytes) :=
  match r with Some (inr out) => Some (inr (data :: out)) | _ => r end.

(** Iterating to the end: the chunks in order, or the exception. [None] when the fuel runs
    out. *)
Fixpoint iterate (fuel : nat) (s : auto_state) : option (stream_error + list bytes) :=
  match fuel with
  | O => None
  | S fuel' =>
      match anext s with
      | (StopIteration, _) => Some (inr [])
      | (Raises e, _) => Some (inl e)
      | (Yield data, s') =>
          prepend data (iterate fuel' s')
      end
  end.

(** The reference: the format of the whole data, decoded in one piece. *)
Definition decode_whole (c : Compression) (data : bytes) : option bytes :=
  match @feed (codec c) dinit data with
  | None => None
  | Some (o, d) =>
      match @dflush (codec c) with
      | None => Some o
      | Some fl => match fl d with Some rest => Some (o ++ rest) | None => None end
      end
  end.

Definition auto_decompress (data : bytes) : option bytes :=
  match detect_compression_from_signature data with
  | None => Some data
  | Some c =>
      if length data <? SIGNATURE_BUFFER_SIZE then option_map fst (@feed (codec c) dinit data)
      else decode_whole c data
  end.

End Auto.

(** *** Independence of the chunks *)

Section AutoFacts.

Context (codec : Compression -> Codec) {laws : forall c, CodecLaws (codec c)}.

Lemma fill_buffer_spec src buf :
  let '(src', buf', ex) := fill_buffer src buf in
  buf' ++ concat src' = buf ++ concat src /\ length src' <= length src /\
  (Forall (fun c => c <> []) src -> Forall (fun c => c <> []) src') /\
  (if ex then src' = [] /\ length buf' < SIGNATURE_BUFFER_SIZE
   else SIGNATURE_BUFFER_SIZE <= length buf').
Proof.
  revert buf. induction src as [|c src IH]; intros buf; cbn [fill_buffer];
    destruct (Nat.ltb_spec (length buf) SIGNATURE_BUFFER_SIZE) as [Hlt|Hge];
    cbn iota beta; try (by split_and!; auto).
  - specialize (IH (buf ++ c)). destruct (fill_buffer src (buf ++ c)) as [[src' buf'] ex].
    destruct IH as (H1 & H2 & H3 & H4). split_and!; [| simpl; lia | | done].
    + by rewrite H1, <- app_assoc.
    + intros [_ ?]%Forall_cons. auto.
Qed.

Lemma startswith_prefix sig a b : length sig <= length a ->
  bytes_startswith (a ++ b) sig = bytes_startswith a sig.
Proof.
  revert a. induction sig as [|x sig IH]; intros [|y a] Hl; simpl in *; try done; try lia.
  rewrite IH by lia. done.
Qed.

(** The signatures fit the buffer, so the buffer decides as the whole data would. *)
Lemma detect_prefix a b : SIGNATURE_BUFFER_SIZE <= length a \/ b = [] ->
  detect_compression_from_signature (a ++ b) = detect_compression_from_signature a.
Proof.
  intros [Hl| ->]; [| by rewrite app_nil_r].
  unfold detect_compression_from_signature, COMPRESSION_SIGNATURES, SIGNATURE_BUFFER_SIZE in *.
  cbn [find fst]. rewrite !startswith_prefix by (simpl; lia). done.
Qed.

(** The compressed stream does not end before the data does. *)
Definition no_early_end (c : Compression) (data : bytes) : Prop :=
  @deof (codec c) dinit = false /\
  forall a b o d, data = a ++ b -> b <> [] ->
    @feed (codec c) dinit a = Some (o, d) -> deof d = false.

(** What comes out when the iteration ends. *)
Definition yielded (r : stream_error + list bytes) : stream_error + bytes :=
  match r with inl e => inl e | inr out => inr (concat out) end.

Definition decoded (o : option bytes) : stream_error + bytes :=
  match o with Some out => inr out | None => inl DecompressFailed end.

Definition running (d : option (decompressor codec)) (src : list bytes) : auto_state codec :=
  mkAuto codec src d true [] false.

Lemma iterate_plain src fuel : length src < fuel ->
  iterate codec fuel (running None src) = Some (inr src).
Proof.
  revert fuel. induction src as [|c src IH]; intros [|fuel] Hf; simpl in *; try lia; [done |].
  change (mkAuto codec src None true [] false) with (running None src).
  by rewrite IH by lia.
Qed.

Lemma call_decompress_open c d data : @deof (codec c) d = false ->
  call_decompress codec (existT c d) data =
  match feed d data with Some (o, d') => inr (o, existT c d') | None => inl DecompressFailed end.
Proof. intros H. unfold call_decompress. by rewrite H, andb_false_r. Qed.

Lemma anext_chunk c d ch src : @deof (codec c) d = false ->
  anext codec (running (Some (existT c d)) (ch :: src)) =
  match feed d ch with
  | Some (o, d') => (Yield o, running (Some (existT c d')) src)
  | None => (Raises DecompressFailed, running (Some (existT c d)) src)
  end.
Proof.
  intros H. unfold anext, running, process. cbn [detected buffer exhausted source au_decompressor].
  rewrite call_decompress_open by done. by destruct (feed d ch) as [[o d']|].
Qed.

Lemma iterate_codec c data src : forall a o d fuel,
  no_early_end c data -> Forall (fun ch => ch <> []) src ->
  data = a ++ concat src -> @feed (codec c) dinit a = Some (o, d) -> S (length src) < fuel ->
  exists r, iterate codec fuel (running (Some (existT c d)) src) = Some r /\
    match yielded r with inr out => inr (o ++ out) | inl e => inl e end =
    decoded (decode_whole codec c data).
Proof.
  induction src as [|ch src IH]; intros a o d fuel He Hne -> Hf Hfuel.
  - destruct fuel as [|fuel]; [simpl in Hfuel; lia |]. destruct fuel as [|fuel]; [simpl in Hfuel; lia |].
    simpl concat. rewrite app_nil_r. unfold decode_whole. rewrite Hf. simpl.
    destruct (@dflush (codec c)) as [fl|] eqn:Ef.
    + unfold anext at 1. simpl. rewrite Ef. destruct (fl d) as [rest|] eqn:Er.
      * destruct rest as [|r rest]; (eexists; split; [reflexivity |]); simpl; by rewrite ?app_nil_r.
      * eexists. split; [reflexivity | done].
    + unfold anext at 1. simpl. rewrite Ef. eexists. split; [reflexivity |]. simpl. by rewrite app_nil_r.
  - apply Forall_cons in Hne as [Hch Hne]. simpl concat in *.
    assert (deof d = false) as Hd.
    { eapply (proj2 He a (ch ++ concat src)); [done | | done]. by destruct ch. }
    assert (feed dinit (a ++ ch) = match feed d ch with
       | Some (o2, d2) => Some (o ++ o2, d2) | None => None end) as Hfeed by (by apply feed_app).
    destruct fuel as [|fuel]; [lia |]. cbn [iterate]. rewrite anext_chunk by done.
    destruct (feed d ch) as [[o2 d2]|] eqn:E2.
    + destruct (IH (a ++ ch) (o ++ o2) d2 fuel He Hne) as (r & Hr & Heq).
      { by rewrite <- app_assoc. } { done. } { simpl in Hfuel. lia. }
      rewrite Hr. rewrite <- Heq.
      destruct r as [e|out]; simpl; (eexists; split; [reflexivity |]); [done |]. simpl. by rewrite <- app_assoc.
    + eexists. split; [reflexivity |]. simpl. unfold decode_whole. rewrite app_assoc.
      by rewrite feed_app_error by done.
Qed.

Lemma anext_first chunks src buf ex :
  fill_buffer chunks [] = (src, buf, ex) -> buf <> [] ->
  anext codec (auto_init codec chunks) =
  process codec (mkAuto codec src
    (option_map (create_decompressor codec) (detect_compression_from_signature buf)) true [] ex) buf.
Proof.
  intros E Hb. unfold anext, detect, auto_init. simpl. rewrite E. simpl. by destruct buf.
Qed.

(** C25: however a download is cut into (non-empty) chunks, iterating over it ends, and what
    comes out is the data decoded as a whole: unchanged when it has no known signature, else
    decompressed by the format of its first bytes; decoding fails, with a [RuntimeError],
    exactly when decoding the whole does. This is for downloads in which nothing follows
    the end of the compressed stream; what follows it may fail instead, depending on the
    chunks ([data_after_end_raises]). *)
Theorem auto_decompress_chunks (chunks : list bytes) :
  Forall (fun c => c <> []) chunks ->
  (forall c, detect_compression_from_signature (concat chunks) = Some c ->
     no_early_end c (concat chunks)) ->
  exists r, iterate codec (length chunks + 3) (auto_init codec chunks) = Some r /\
    yielded r = decoded (auto_decompress codec (concat chunks)).
Proof.
  intros Hne Hend. rewrite Nat.add_comm. change (3 + length chunks) with (S (2 + length chunks)).
  remember (2 + length chunks) as fuel eqn:Hfuel. cbn [iterate].
  pose proof (fill_buffer_spec chunks []) as Hfb.
  destruct (fill_buffer chunks []) as [[src buf] ex] eqn:Efb. simpl in Hfb.
  destruct Hfb as (Hcat & Hlen & Hsrc & Hex). specialize (Hsrc Hne).
  assert (detect_compression_from_signature (concat chunks) = detect_compression_from_signature buf) as Hdet.
  { rewrite <- Hcat. apply detect_prefix. destruct ex; [right | by left]. by destruct Hex as [-> _]. }
  unfold auto_decompress. rewrite Hdet in *.
  destruct (decide (buf = [])) as [->|Hb].
  { destruct ex; simpl in Hex; [| unfold SIGNATURE_BUFFER_SIZE in Hex; lia].
    destruct Hex as [-> _]. simpl in Hcat. rewrite <- Hcat.
    unfold anext, auto_init, detect. simpl. rewrite Efb. simpl. eexists. by split. }
  rewrite (anext_first _ _ _ _ Efb Hb). unfold process.
  destruct (detect_compression_from_signature buf) as [c|] eqn:Ec; cbn [option_map au_decompressor].
  - specialize (Hend c eq_refl). unfold create_decompressor. rewrite call_decompress_open by apply Hend.
    destruct (@feed (codec c) dinit buf) as [[o d]|] eqn:Ef.
    + destruct ex.
      * destruct Hex as [-> Hl]. simpl in Hcat. rewrite app_nil_r in Hcat. subst buf fuel.
        rewrite Ef. apply Nat.ltb_lt in Hl. rewrite Hl. eexists. split; [reflexivity |].
        simpl. by rewrite app_nil_r.
      * destruct (iterate_codec c (concat chunks) src buf o d fuel) as (r & Hr & Heq);
          [done | done | by symmetry | done | lia |].
        assert ((length (concat chunks) <? SIGNATURE_BUFFER_SIZE) = false) as ->.
        { apply Nat.ltb_ge. rewrite <- Hcat, length_app. lia. }
        rewrite <- Heq. exists (match r with inr out => inr (o :: out) | inl e => inl e end).
        split; [| by destruct r].
        eapply eq_trans; [exact (f_equal (prepend o) Hr) | by destruct r].
    + eexists. split; [reflexivity |]. simpl. unfold decode_whole. rewrite <- Hcat.
      rewrite feed_app_error by done. by destruct (_ <? _).
  - destruct ex.
    + subst fuel. destruct Hex as [-> _]. eexists. split; [reflexivity |]. simpl in *. by rewrite Hcat.
    + pose proof (iterate_plain src fuel ltac:(lia)) as Hp. exists (inr (buf :: src)).
      split; [exact (f_equal (prepend buf) Hp) |]. simpl. by rewrite Hcat.
Qed.

(** When a compressed stream in the format of [bz2], [xz] or [zstd] ends with a chunk and more
    data follows, the next chunk raises an [EOFError], which is not translated, although the
    same data in one chunk is decoded. *)
Theorem data_after_end_raises c first ch src o d fuel :
  detect_compression_from_signature first = Some c -> raises_after_end c = true ->
  SIGNATURE_BUFFER_SIZE <= length first -> @deof (codec c) dinit = false ->
  @feed (codec c) dinit first = Some (o, d) -> deof d = true -> 2 <= fuel ->
  iterate codec fuel (auto_init codec (first :: ch :: src)) = Some (inl FedAfterEnd).
Proof.
  intros Hc Hr Hl H0 Hf Hd Hfuel. destruct fuel as [|[|fuel]]; [lia.. |]. cbn [iterate].
  assert (fill_buffer (first :: ch :: src) [] = (ch :: src, first, false)) as E.
  { apply Nat.ltb_ge in Hl. cbn [fill_buffer]. rewrite app_nil_l, Hl. done. }
  rewrite (anext_first _ _ _ _ E) by (intros ->; unfold SIGNATURE_BUFFER_SIZE in Hl; simpl in Hl; lia).
  unfold process. rewrite Hc. cbn [option_map au_decompressor]. unfold create_decompressor.
  rewrite call_decompress_open, Hf by done. cbn [source detected buffer exhausted].
  unfold anext, process. cbn [source detected buffer exhausted au_decompressor]. unfold call_decompress.
  by rewrite Hr, Hd.
Qed.

End AutoFacts.

(** ** Compressed streams over the router *)

(** Frames of the router protocol. *)
Inductive frame := FRAME_DATA (payload : bytes) | FRAME_GOAWAY | FRAME_PING | FRAME_OTHER.

(** [RouterStream.receive] on a frame: a payload, or the end of the stream. *)
Definition router_receive (f : frame) : option bytes :=
  match f with
  | FRAME_DATA payload => Some payload
  | FRAME_GOAWAY => None
  | FRAME_PING => Some []
  | FRAME_OTHER => Some []
  end.

Definition router_send (payload : bytes) : frame := FRAME_DATA payload.

(** What a reader receives until the stream ends. *)
Fixpoint router_read (fs : list frame) : list bytes :=
  match fs with
  | [] => []
  | f :: fs' => match router_receive f with
                | Some payload => payload :: router_read fs'
                | None => []
                end
  end.

Section Compressed.

Context {C : Codec}.

(** The sending half of a [CompressedStream]: its compressor, [None] after the flush, and
    the messages it handed to the stream below. *)
Record sender := mkSender { compressor : option cstate; messages : list bytes }.

Definition new_sender : sender := mkSender (Some cinit) [].

(** [send]: [None] is [ClosedResourceError]. *)
Definition cs_send (item : bytes) (s : sender) : option sender :=
  match compressor s with
  | None => None
  | Some c => let '(o, c') := compress c item in Some (mkSender (Some c') (messages s ++ [o]))
  end.

Definition cs_flush (s : sender) : sender :=
  match compressor s with
  | None => s
  | Some c => mkSender None (messages s ++ [cflush c])
  end.

Fixpoint cs_send_all (items : list bytes) (s : sender) : option sender :=
  match items with
  | [] => Some s
  | x :: xs => match cs_send x s with Some s' => cs_send_all xs s' | None => None end
  end.

(** The frames on the wire after sending the items and closing: [send_eof] flushes and ends
    the stream below; [aclose] flushes only if that was not done. *)
Definition wire (items : list bytes) : option (list frame) :=
  match cs_send_all items new_sender with
  | None => None
  | Some s => Some (map router_send (messages (cs_flush s)) ++ [FRAME_GOAWAY])
  end.

(** The receiving half: each message is decompressed. *)
Fixpoint cs_receive_all (d : dstate) (ms : list bytes) : option (list bytes * dstate) :=
  match ms with
  | [] => Some ([], d)
  | m :: ms' =>
      match feed d m with
      | None => None
      | Some (o, d') => match cs_receive_all d' ms' with
                        | Some (os, d2) => Some (o :: os, d2)
                        | None => None
                        end
      end
  end.

(** [ZlibCompressedStream] flushes its decompressor when the stream below ends; the base
    class has nothing to flush. *)
Definition receive_items (flushes : bool) (fs : list frame) : option (list bytes) :=
  match cs_receive_all dinit (router_read fs) with
  | None => None
  | Some (os, d) =>
      match flushes, dflush with
      | true, Some fl => match fl d with Some rest => Some (os ++ [rest]) | None => None end
      | _, _ => Some os
      end
  end.

(** What a compressor made of some items decodes to them, the compressed stream ends with
    the bytes of the final flush and not before, and then nothing is left to flush. *)
Definition decodes_back : Prop :=
  forall items os c, compress_items cinit items = (os, c) ->
    cflush c <> [] /\
    (exists d, feed dinit (concat os ++ cflush c) = Some (concat items, d) /\
       forall fl, dflush = Some fl -> fl d = Some []) /\
    (forall a b o d, concat os ++ cflush c = a ++ b -> b <> [] -> feed dinit a = Some (o, d) ->
       deof d = false).

Lemma cs_send_all_eq items s c : compressor s = Some c ->
  cs_send_all items s = Some (mkSender (Some (snd (compress_items c items)))
                                (messages s ++ fst (compress_items c items))).
Proof.
  revert s c. induction items as [|x items IH]; intros s c Hc; simpl.
  - rewrite app_nil_r. destruct s. simpl in *. by subst.
  - unfold cs_send. rewrite Hc. destruct (compress c x) as [o c1].
    rewrite (IH _ c1) by done. simpl. destruct (compress_items c1 items) as [os c2]. simpl.
    by rewrite <- app_assoc.
Qed.

Lemma router_read_data ms : router_read (map router_send ms ++ [FRAME_GOAWAY]) = ms.
Proof. induction ms as [|m ms IH]; simpl; [done |]. by rewrite IH. Qed.

Context {laws : CodecLaws C}.

(** Receiving message by message is decoding the whole. *)
Lemma cs_receive_all_eq ms : forall a o0 d0 out d,
  feed dinit a = Some (o0, d0) ->
  (ms <> [] -> last ms <> Some []) ->
  (forall a' b o d, a ++ concat ms = a' ++ b -> b <> [] -> feed dinit a' = Some (o, d) -> deof d = false) ->
  feed dinit (a ++ concat ms) = Some (o0 ++ out, d) ->
  exists os, cs_receive_all d0 ms = Some (os, d) /\ concat os = out.
Proof.
  induction ms as [|m ms IH]; intros a o0 d0 out d Ha Hl He Hall; simpl concat in *.
  - rewrite app_nil_r, Ha in Hall. injection Hall as E ->.
    rewrite <- (app_nil_r o0) in E at 1. apply app_inv_head in E. exists []. by rewrite <- E.
  - assert (m ++ concat ms <> []) as Hne.
    { intros [-> Hc]%app_eq_nil. destruct ms as [|m2 ms]; [by apply Hl |].
      specialize (Hl ltac:(done)). rewrite last_cons_cons in Hl.
      destruct (exists_last (l := m2 :: ms)) as (ini & z & E); [done |]. rewrite E in Hl, Hc.
      rewrite last_snoc in Hl. rewrite concat_app in Hc. apply app_eq_nil in Hc as [_ Hz].
      simpl in Hz. rewrite app_nil_r in Hz. by subst z. }
    assert (deof d0 = false) as Hd0 by (by eapply (He a (m ++ concat ms))).
    assert (feed dinit (a ++ m) = match feed d0 m with
      | Some (o2, d2) => Some (o0 ++ o2, d2) | None => None end) as Hf by (by apply feed_app).
    simpl. destruct (feed d0 m) as [[o1 d1]|] eqn:Em.
    + assert (exists out', out = o1 ++ out') as (out' & ->).
      { rewrite app_assoc in Hall. destruct (decide (concat ms = [])) as [Hc|Hc].
        - rewrite Hc, app_nil_r, Hf in Hall. injection Hall as E _.
          apply app_inv_head in E. exists []. by rewrite app_nil_r.
        - assert (deof d1 = false) as Hd1.
          { eapply (He (a ++ m) (concat ms)); [by rewrite <- app_assoc | done | done]. }
          rewrite (feed_app _ _ _ _ _ Hf Hd1) in Hall.
          destruct (feed d1 (concat ms)) as [[o2 d2]|]; [| done]. injection Hall as E _.
          rewrite <- app_assoc in E. apply app_inv_head in E. by exists o2. }
      destruct (IH (a ++ m) (o0 ++ o1) d1 out' d) as (os & Hos & Hcat); [done | | | |].
      * intros Hms. destruct ms as [|m2 ms]; [done |]. by apply Hl.
      * intros a' b o d' E. apply He. by rewrite app_assoc.
      * by rewrite <- app_assoc, Hall, <- app_assoc.
      * exists (o1 :: os). rewrite Hos. split; [done |]. simpl. by rewrite Hcat.
    + rewrite app_assoc in Hall. by rewrite feed_app_error in Hall.
Qed.

(** C26: what is written to a compressed stream over a router connection comes out at the
    other end: the frames of the items, the final flush and the end of the stream decode,
    message by message, to the same bytes in the same order, for the formats with and
    without a flush of the decompressor. *)
Theorem compressed_stream_roundtrip items flushes :
  decodes_back -> feed dinit [] = Some ([], dinit) ->
  exists fs out, wire items = Some fs /\ receive_items flushes fs = Some out /\
    concat out = concat items.
Proof.
  intros Hback Hnil. unfold wire. rewrite (cs_send_all_eq items new_sender cinit) by done. simpl.
  destruct (compress_items cinit items) as [os c] eqn:Ec. simpl.
  destruct (Hback items os c Ec) as (Hfl & (d & Hfeed & Hrest) & He).
  destruct (cs_receive_all_eq (os ++ [cflush c]) [] [] dinit (concat items) d) as (outs & Ho & Hcat).
  - done.
  - intros _. by rewrite last_snoc; intros [= ?].
  - intros a' b o d'. simpl. rewrite concat_app. simpl. rewrite app_nil_r. apply He.
  - simpl. rewrite concat_app. simpl. by rewrite app_nil_r.
  - eexists. unfold receive_items.
    destruct flushes; [destruct dflush as [fl|] eqn:Ef |].
    + exists (outs ++ [[]]). split; [reflexivity |]. rewrite router_read_data, Ho, (Hrest fl eq_refl).
      split; [done |]. rewrite concat_app. simpl. by rewrite app_nil_r.
    + exists outs. split; [reflexivity |]. by rewrite router_read_data, Ho.
    + exists outs. split; [reflexivity |]. by rewrite router_read_data, Ho.
Qed.

End Compressed.

(** ** The encoding of a resource *)

Section Resource.

(** Decoding a whole stream of a format; [None] is the library's error. *)
Context (decode : Compression -> bytes -> option bytes).

(** [SUPPORTED_CONTENT_ENCODINGS], empty when [JMP_DISABLE_COMPRESSION] is set. *)
Definition supported (disable_compression : bool) (c : Compression) : bool :=
  negb disable_compression.

(** What reading from [compress_stream(stream, encoding)] gives. *)
Definition read_compress_stream (encoding : option Compression) (data : bytes) : option bytes :=
  match encoding with None => Some data | Some c => decode c data end.

(** [Driver.Stream] for a resource: the encoding of the handle, and the one accepted. *)
Definition resource_metadata (disable_compression : bool) (content_encoding : option Compression)
    : option Compression * option Compression :=
  (content_encoding,
   match content_encoding with
   | Some c => if supported disable_compression c then Some c else None
   | None => None
   end).

(** [resource_async]: the bytes the client sends. *)
Definition resource_async (accept_encoding content_encoding : option Compression) (data : bytes)
    : option bytes :=
  match accept_encoding with
  | None => read_compress_stream content_encoding data
  | Some _ => Some data
  end.

(** The bytes the driver reads from [resource(handle)]. *)
Definition resource_transfer (disable_compression : bool) (content_encoding : option Compression)
    (data : bytes) : option bytes :=
  let '(handle_encoding, accept_encoding) := resource_metadata disable_compression content_encoding in
  match resource_async accept_encoding content_encoding data with
  | None => None
  | Some sent => read_compress_stream handle_encoding sent
  end.

(** With compression enabled a driver reads the decoded resource; on an exporter where
    it is disabled the client decodes the resource and the driver decodes it again, so that
    the transfer fails for every resource whose content is not itself in that format. *)
Theorem disabled_compression_decodes_twice c data plain :
  decode c data = Some plain ->
  resource_transfer false (Some c) data = Some plain /\
  resource_transfer true (Some c) data = decode c plain /\
  (forall disabled, resource_transfer disabled None data = Some data).
Proof.
  intros H. unfold resource_transfer, resource_metadata, supported, resource_async,
    read_compress_stream. simpl. by rewrite H.
Qed.

End Resource.

(** ** Concrete instances *)

(** A toy format: every byte is preceded by a non-zero marker, a zero ends the stream. *)
Module Toy.

Inductive st := Marker | Value | Ended.

Fixpoint run (s : st) (data : bytes) : bytes * st :=
  match data with
  | [] => ([], s)
  | b :: data' =>
      match s with
      | Ended => ([], Ended)
      | Marker => if Z.eqb b 0 then ([], Ended) else run Value data'
      | Value => let '(o, s') := run Marker data' in (b :: o, s')
      end
  end.

Definition is_ended (s : st) : bool := match s with Ended => true | _ => false end.

Definition enc (x : bytes) : bytes := flat_map (fun b => [1%Z; b]) x.

#[global] Instance toy : Codec := {
  dstate := st; cstate := unit; dinit := Marker;
  feed := fun s data => Some (run s data);
  dflush := Some (fun _ => Some []);
  deof := is_ended;
  cinit := tt;
  compress := fun c x => (enc x, c);
  cflush := fun _ => [0%Z]
}.

Lemma run_app a b s : is_ended (snd (run s a)) = false ->
  run s (a ++ b) = (fst (run s a) ++ fst (run (snd (run s a)) b), snd (run (snd (run s a)) b)).
Proof.
  revert s. induction a as [|x a IH]; intros s H; simpl in *; [by destruct (run s b) |].
  destruct s; [| | done].
  - destruct (Z.eqb x 0); [done |]. by apply IH.
  - destruct (run Marker a) as [o s'] eqn:E. simpl in *. rewrite IH by (by rewrite E).
    by rewrite E.
Qed.

#[global] Instance toy_laws : CodecLaws toy.
Proof.
  split; [| done]. intros d a b o d1 [= H] Hd. simpl in *.
  assert (is_ended (snd (run d a)) = false) as Hd' by (by rewrite H).
  rewrite (run_app a b d Hd'), H. simpl. by destruct (run d1 b).
Qed.

Lemma run_enc x rest : run Marker (enc x ++ rest) = (x ++ fst (run Marker rest), snd (run Marker rest)).
Proof.
  induction x as [|b x IH]; simpl; [by destruct (run Marker rest) |]. by rewrite IH.
Qed.

Lemma run_prefix x : forall a b, enc x ++ [0%Z] = a ++ b -> b <> [] ->
  is_ended (snd (run Marker a)) = false.
Proof.
  induction x as [|y x IH]; intros a b E Hb; simpl in E.
  - destruct a as [|z a]; [done |]. injection E as <- E. symmetry in E.
    apply app_eq_nil in E as [_ ->]. done.
  - destruct a as [|z1 [|z2 a]]; [done | by injection E as <- _ |].
    injection E as <- <- E. simpl. destruct (run Marker a) as [o s] eqn:Er. simpl.
    pose proof (IH a b E Hb) as H. by rewrite Er in H.
Qed.

Lemma compress_items_toy items c : compress_items c items = (map enc items, c).
Proof. induction items as [|x items IH]; simpl; [done |]. by rewrite IH. Qed.

Lemma concat_enc items : concat (map enc items) = enc (concat items).
Proof.
  induction items as [|x items IH]; simpl; [done |]. rewrite IH. unfold enc. by rewrite flat_map_app.
Qed.

Lemma toy_decodes_back : decodes_back.
Proof.
  intros items os c E. rewrite compress_items_toy in E. injection E as <- <-. simpl.
  rewrite concat_enc. split_and!; [done | |].
  - exists Ended. rewrite run_enc. simpl. rewrite app_nil_r. split; [done |]. by intros fl [= <-].
  - intros a b o d E Hb [= H]. pose proof (run_prefix _ a b E Hb) as Hp. by rewrite H in Hp.
Qed.

(** A download with the signature of gzip, in three chunks. *)
Definition download : list bytes := [[0x1f]; [0x8b; 0x08; 7]; [5; 9; 1; 2; 0]]%Z.

Lemma download_ends : no_early_end (fun _ => toy) GZIP (concat download).
Proof.
  split; [done |]. intros a b o d E Hb [= H]. simpl in E.
  do 9 (destruct a as [|? a]; [simpl in H; by injection H as <- <- |]; simpl in E; injection E as <- E).
  symmetry in E. apply app_eq_nil in E as [_ ->]. done.
Qed.

End Toy.

Lemma auto_decompress_chunks_witness :
  exists r, iterate (fun _ => Toy.toy) 6 (auto_init (fun _ => Toy.toy) Toy.download) = Some r /\
    yielded r = inr [0x8b; 7; 9; 2]%Z.
Proof.
  apply (auto_decompress_chunks (fun _ => Toy.toy) Toy.download).
  - repeat constructor; discriminate.
  - intros c [= <-]. apply Toy.download_ends.
Defined.

Lemma compressed_stream_roundtrip_witness :
  exists fs out, wire (C := Toy.toy) [[5; 0]; []; [7]]%Z = Some fs /\
    receive_items (C := Toy.toy) true fs = Some out /\ concat out = [5; 0; 7]%Z.
Proof.
  exact (compressed_stream_roundtrip (C := Toy.toy) [[5; 0]; []; [7]]%Z true
    Toy.toy_decodes_back eq_refl).
Defined.

(** Decoding strips a leading 31; anything else is an error. *)
Definition demo_decode (c : Compression) (data : bytes) : option bytes :=
  match data with 31%Z :: rest => Some rest | _ => None end.

Lemma disabled_compression_decodes_twice_witness :
  resource_transfer demo_decode false (Some GZIP) [31; 1; 2]%Z = Some [1; 2]%Z /\
  resource_transfer demo_decode true (Some GZIP) [31; 1; 2]%Z = None.
Proof.
  destruct (disabled_compression_decodes_twice demo_decode GZIP [31; 1; 2]%Z [1; 2]%Z eq_refl)
    as (H1 & H2 & _).
  split; [exact H1 | exact H2].
Defined.
