(* ===== verification/Telemetry.v ===== *)
(** * Telemetry of log records

    [exporter/telemetry.py]: [TelemetryLogHandler] turns log records into entries with the
    limits of the telemetry service, keeps them in a bounded queue and pushes them in
    batches. A log context and the attributes of a record are dictionaries whose values are
    [None] or have a text. *)

From stdpp Require Import base list strings sets.
From Stdlib Require Import ZArith Lia.
From S2P Require Import Prelude PyText.

Definition BATCH_SIZE : nat := 50.
Definition MAX_QUEUE_SIZE : nat := 100 * 100.
Definition MAX_EXTRA_FIELDS : nat := 16.
Definition MAX_KEY_LEN : nat := 64.
Definition MAX_VAL_LEN : nat := 256.

Definition WELL_KNOWN_KEYS : list string :=
  ["lease"; "client"; "exporter"; "operation"; "result"; "driver_type"].

(** The attributes every [LogRecord] has. *)
Definition STDLIB_RECORD_ATTRS : list string :=
  ["name"; "msg"; "args"; "levelname"; "levelno"; "pathname"; "filename"; "module"; "exc_info";
   "exc_text"; "stack_info"; "lineno"; "funcName"; "created"; "msecs"; "relativeCreated";
   "thread"; "threadName"; "processName"; "process"; "taskName"].

Definition context_key_map (key : string) : string :=
  if String.eqb key "lease_id" then "lease" else key.

Definition CONTEXT_PROTO_KEYS : list string := WELL_KNOWN_KEYS ++ ["lease_id"].

Definition severity (levelname : string) : string :=
  if String.eqb levelname "DEBUG" then "debug"
  else if String.eqb levelname "INFO" then "info"
  else if String.eqb levelname "WARNING" then "warning"
  else if String.eqb levelname "ERROR" then "error"
  else if String.eqb levelname "CRITICAL" then "critical"
  else Str.lower levelname.

Definition attributes := list (string * option string).

Record LogRecord := mkLogRecord {
  levelname : string;
  message : string;
  record_dict : attributes
}.

(** An entry: its first-class fields and the extra ones. *)
Record LogEntry := mkLogEntry {
  e_severity : string;
  e_message : string;
  e_component : string;
  e_namespace : string;
  e_fields : list (string * string);
  extra_fields : list (string * string)
}.

(** [s[:n]]. *)
Definition cut (n : nat) (s : string) : string := String.substring 0 n s.

(** One key of the context or of the record. *)
Definition add_field (st : list (string * string) * list (string * string))
    (kv : string * option string) : list (string * string) * list (string * string) :=
  let '(fields, extra) := st in
  let '(key, val) := kv in
  match val with
  | None => (fields, extra)
  | Some val =>
      let proto_key := context_key_map key in
      if bool_decide (proto_key ∈ WELL_KNOWN_KEYS) then (dict_set proto_key val fields, extra)
      else if bool_decide (key ∉ CONTEXT_PROTO_KEYS) && (length extra <? MAX_EXTRA_FIELDS)
      then (fields, dict_set (cut MAX_KEY_LEN key) (cut MAX_VAL_LEN val) extra)
      else (fields, extra)
  end.

(** The attributes of a record that are not the library's. *)
Definition own_attributes (r : LogRecord) : attributes :=
  List.filter (fun kv => negb (bool_decide (kv.1 ∈ STDLIB_RECORD_ATTRS))) (record_dict r).

Definition prepare (namespace : string) (ctx : attributes) (r : LogRecord) : LogEntry :=
  let st := fold_left add_field ctx ([], []) in
  let '(fields, extra) := fold_left add_field (own_attributes r) st in
  mkLogEntry (severity (levelname r)) (message r) "exporter" namespace fields extra.

(** ** The queue *)

(** [deque(maxlen=...)]: appending to a full queue drops the oldest entry. *)
Definition append_bounded (queue : list LogEntry) (e : LogEntry) : list LogEntry :=
  let q := queue ++ [e] in
  drop (length q - MAX_QUEUE_SIZE) q.

Definition emit (namespace : string) (ctx : attributes) (queue : list LogEntry) (r : LogRecord)
    : list LogEntry := append_bounded queue (prepare namespace ctx r).

(** What one [_flush] does: the batch it pushes, if any, and the queue it leaves. The push
    may fail, in which case the batch is dropped. *)
Fixpoint drain (n : nat) (queue : list LogEntry) : list LogEntry * list LogEntry :=
  match n, queue with
  | S n', e :: queue' => let '(batch, rest) := drain n' queue' in (e :: batch, rest)
  | _, _ => ([], queue)
  end.

(** The pushes made, with whether each was accepted. *)
Record handler := mkHandler { th_queue : list LogEntry; th_pushes : list (list LogEntry * bool) }.

Section Flush.

(** Whether the [n]-th push succeeds. *)
Context (push_ok : nat -> bool).

Definition flush (h : handler) : handler :=
  let '(batch, rest) := drain BATCH_SIZE (th_queue h) in
  match batch with
  | [] => mkHandler rest (th_pushes h)
  | _ => mkHandler rest (th_pushes h ++ [(batch, push_ok (length (th_pushes h)))])
  end.

(** [close_async], with fuel. *)
Fixpoint close_async (fuel : nat) (h : handler) : option handler :=
  match th_queue h with
  | [] => Some h
  | _ => match fuel with
         | O => None
         | S fuel' => close_async fuel' (flush h)
         end
  end.

End Flush.

(** ** Limits *)

Definition within_limits (extra : list (string * string)) : Prop :=
  length extra <= MAX_EXTRA_FIELDS /\ dict_wf extra /\
  Forall (fun kv => String.length kv.1 <= MAX_KEY_LEN /\ String.length kv.2 <= MAX_VAL_LEN) extra.

Lemma cut_length n s : String.length (cut n s) <= n.
Proof.
  unfold cut. revert n. induction s as [|a s IH]; intros [|n]; simpl; [lia | lia | lia |].
  specialize (IH n). lia.
Qed.

Lemma dict_set_length (k v : string) d :
  length (dict_set k v d) <= S (length d) /\ (is_some (dict_get k d) = true -> length (dict_set k v d) = length d).
Proof.
  induction d as [|[k' v'] d [IH1 IH2]]; simpl; [split; [lia | done] |].
  destruct (String.eqb k k'); simpl; [split; [lia | done] |].
  split; [lia |]. intros H. by rewrite IH2.
Qed.

Lemma dict_set_all (P : string * string -> Prop) k v d :
  P (k, v) -> Forall P d -> Forall P (dict_set k v d).
Proof.
  intros Hv. induction 1 as [|[k' v'] d Hx Hd IH]; simpl; [by repeat constructor |].
  destruct (String.eqb_spec k k') as [->|]; by constructor.
Qed.

Lemma add_field_limits st kv :
  within_limits (snd st) -> within_limits (snd (add_field st kv)).
Proof.
  destruct st as [fields extra], kv as [key [val|]]; simpl; [| done]. intros (H1 & H2 & H3).
  destruct (bool_decide _); simpl; [done |].
  destruct (bool_decide _); simpl; [| done].
  destruct (Nat.ltb_spec (length extra) MAX_EXTRA_FIELDS); simpl; [| done].
  split_and!.
  - pose proof (dict_set_length (cut MAX_KEY_LEN key) (cut MAX_VAL_LEN val) extra) as [? _]. lia.
  - by apply dict_set_wf.
  - apply dict_set_all; [| done]. simpl. split; apply cut_length.
Qed.

Lemma add_fields_limits l st :
  within_limits (snd st) -> within_limits (snd (fold_left add_field l st)).
Proof.
  revert st. induction l as [|kv l IH]; intros st H; simpl; [done |]. by apply IH, add_field_limits.
Qed.

Lemma emit_queue_bound ns ctx q r : length (emit ns ctx q r) <= MAX_QUEUE_SIZE.
Proof. unfold emit, append_bounded. rewrite length_drop, length_app. simpl. lia. Qed.

(** Whatever a log call and its context attach, an entry respects the limits of the
    service: at most 16 extra fields with distinct keys of at most 64 characters and values
    of at most 256; and the queue never holds more than 10,000 entries. *)
Theorem telemetry_bounds ns ctx r records q :
  within_limits (extra_fields (prepare ns ctx r)) /\
  (length q <= MAX_QUEUE_SIZE -> length (fold_left (emit ns ctx) records q) <= MAX_QUEUE_SIZE).
Proof.
  split.
  - unfold prepare.
    assert (within_limits (snd (fold_left add_field (own_attributes r) (fold_left add_field ctx ([], []))))) as H.
    { apply add_fields_limits, add_fields_limits. split_and!; simpl; [lia | constructor | constructor]. }
    by destruct (fold_left add_field (own_attributes r) _) as [fields extra].
  - revert q. induction records as [|x records IH]; intros q Hq; simpl; [done |].
    apply IH, emit_queue_bound.
Qed.

(** ** Delivery *)

Lemma drain_eq n q : drain n q = (take n q, drop n q).
Proof.
  revert n. induction q as [|e q IH]; intros [|n]; simpl; try done. by rewrite IH.
Qed.

Definition chunked (l : list (list LogEntry)) : Prop :=
  Forall (fun b => 1 <= length b <= BATCH_SIZE) l.

Lemma flush_facts push_ok h : th_queue h <> [] ->
  th_queue (flush push_ok h) = drop BATCH_SIZE (th_queue h) /\
  th_pushes (flush push_ok h) =
    th_pushes h ++ [(take BATCH_SIZE (th_queue h), push_ok (length (th_pushes h)))].
Proof.
  intros Hne. unfold flush. rewrite drain_eq.
  destruct (th_queue h) as [|e q] eqn:E; [done |]. simpl. done.
Qed.

(** Closing the handler ends, after one push per 50 queued entries, with an empty
    queue; together the pushes carry exactly the entries that were queued, in order, in
    batches of 1 to 50, and a push that fails loses its batch and no other. *)
Theorem close_async_drains push_ok fuel h :
  length (th_queue h) <= fuel * BATCH_SIZE ->
  exists h' batches, close_async push_ok fuel h = Some h' /\ th_queue h' = [] /\
    th_pushes h' = th_pushes h ++ batches /\
    concat (map fst batches) = th_queue h /\ chunked (map fst batches) /\
    (forall i b ok, batches !! i = Some (b, ok) -> ok = push_ok (length (th_pushes h) + i)).
Proof.
  revert h. induction fuel as [|fuel IH]; intros h Hlen; simpl in Hlen.
  - destruct (th_queue h) as [|e q] eqn:E; [| simpl in Hlen; lia].
    exists h, []. unfold close_async. rewrite E, app_nil_r. split_and!; try done. constructor.
  - destruct (th_queue h) as [|e q] eqn:E.
    { exists h, []. unfold close_async. rewrite E, app_nil_r. split_and!; try done. constructor. }
    rewrite <- E in *. assert (th_queue h <> []) as Hne by (by rewrite E).
    destruct (flush_facts push_ok h Hne) as [F1 F2].
    destruct (IH (flush push_ok h)) as (h' & bs & H1 & H2 & H3 & H4 & H5 & H6).
    { rewrite F1, length_drop. unfold BATCH_SIZE in *. lia. }
    exists h', ((take BATCH_SIZE (th_queue h), push_ok (length (th_pushes h))) :: bs).
    simpl close_async. rewrite E at 1. split_and!; try done.
    + by rewrite H3, F2, <- app_assoc.
    + simpl. rewrite H4, F1. apply take_drop.
    + constructor; [| done]. simpl fst. rewrite length_take, E. unfold BATCH_SIZE. simpl length. lia.
    + intros [|i] b ok Hi; simpl in Hi.
      * injection Hi as _ <-. by rewrite Nat.add_0_r.
      * apply H6 in Hi. rewrite F2, length_app in Hi. simpl in Hi.
        rewrite Hi. f_equal. lia.
Qed.

(** ** Precedence *)

Lemma add_field_known st key val k :
  k ∈ WELL_KNOWN_KEYS ->
  dict_get k (fst (add_field st (key, val))) =
  match val with
  | Some v => if String.eqb (context_key_map key) k then Some v else dict_get k (fst st)
  | None => dict_get k (fst st)
  end.
Proof.
  intros Hk. destruct st as [fields extra], val as [v|]; simpl; [| done].
  destruct (String.eqb_spec (context_key_map key) k) as [->|Hne].
  - rewrite bool_decide_eq_true_2 by done. simpl. apply dict_get_set_same.
  - case_bool_decide; simpl; [by apply dict_get_set_other |].
    by destruct (_ && _).
Qed.

(** The last value a list of attributes gives for a first-class field. *)
Fixpoint last_given (k : string) (l : attributes) (d : option string) : option string :=
  match l with
  | [] => d
  | (key, val) :: l' =>
      last_given k l' (match val with
                       | Some v => if String.eqb (context_key_map key) k then Some v else d
                       | None => d
                       end)
  end.

Lemma add_fields_known k l st : k ∈ WELL_KNOWN_KEYS ->
  dict_get k (fst (fold_left add_field l st)) = last_given k l (dict_get k (fst st)).
Proof.
  intros Hk. revert st. induction l as [|[key val] l IH]; intros st; simpl; [done |].
  rewrite IH. by rewrite add_field_known.
Qed.

(** A first-class field of an entry (lease, client, exporter, operation, result, driver
    type) is the record's own value when it has one, else that of the log context; but a
    record cannot override an extra field of the context once 16 extra fields are there,
    although the record is documented to win. *)
Theorem record_precedence ns ctx r k :
  k ∈ WELL_KNOWN_KEYS ->
  dict_get k (e_fields (prepare ns ctx r)) =
    last_given k (own_attributes r) (last_given k ctx None) /\
  (forall extra fields key old, length extra = MAX_EXTRA_FIELDS -> dict_get key extra = Some old ->
     key ∉ CONTEXT_PROTO_KEYS ->
     dict_get key (snd (fold_left add_field [(key, Some "new"%string)] (fields, extra))) = Some old).
Proof.
  intros Hk. split.
  - unfold prepare.
    pose proof (add_fields_known k (own_attributes r) (fold_left add_field ctx ([], [])) Hk) as H.
    rewrite (add_fields_known k ctx ([], []) Hk) in H. simpl in H.
    by destruct (fold_left add_field (own_attributes r) _) as [fields extra].
  - intros extra fields key old Hl Hget Hn. simpl.
    case_bool_decide as Hp; simpl; [done |]. rewrite Hl.
    by rewrite Nat.ltb_irrefl, andb_false_r.
Qed.

(** ** Concrete instances *)

Definition demo_record : LogRecord :=
  mkLogRecord "INFO" "hello" [("name", Some "root"%string); ("lease_id", Some "L2"%string); ("port", Some "80"%string)].

Lemma telemetry_bounds_witness :
  within_limits (extra_fields (prepare "ns" [("lease_id", Some "L1"%string)] demo_record)) /\
  length (fold_left (emit "ns" []) [demo_record; demo_record] []) <= MAX_QUEUE_SIZE.
Proof.
  destruct (telemetry_bounds "ns" [("lease_id", Some "L1"%string)] demo_record [demo_record] []) as [H _].
  destruct (telemetry_bounds "ns" [] demo_record [demo_record; demo_record] []) as [_ H2].
  split; [exact H | apply H2; simpl; lia].
Defined.

Definition demo_entry : LogEntry := mkLogEntry "info" "m" "exporter" "" [] [].

Lemma close_async_drains_witness :
  exists h', close_async (fun n => n =? 0) 2 (mkHandler (repeat demo_entry 60) []) = Some h' /\
    th_queue h' = [].
Proof.
  destruct (close_async_drains (fun n => n =? 0) 2 (mkHandler (repeat demo_entry 60) []))
    as (h' & bs & H1 & H2 & _).
  - vm_compute. lia.
  - exists h'. split; [exact H1 | exact H2].
Defined.

Lemma record_precedence_witness :
  dict_get "lease" (e_fields (prepare "ns" [("lease_id", Some "L1"%string)] demo_record)) = Some "L2"%string.
Proof.
  exact (proj1 (record_precedence "ns" [("lease_id", Some "L1"%string)] demo_record "lease"
    ltac:(apply (bool_decide_unpack _); vm_compute; exact I))).
Defined.
