(* ===== verification/Oci.v ===== *)
(** * OCI registry credentials

    [common/oci.py]: the credentials a flashing command uses for a registry, from its
    arguments, the environment or the container tools' auth files. Registry names and URLs
    are ASCII strings; user names and passwords are lists of code points. The file system
    is a function from paths (lists of components) to what reading one gives. *)

From stdpp Require Import base list strings.
From Stdlib Require Import ZArith Lia Ascii.
From S2P Require Import Prelude PyText.

Abbreviation text := (list Z).

(** What the functions raise. *)
Inductive oci_error :=
| OciValueError        (** one of user name and password is missing *)
| OciUrlError          (** [urlparse] rejects a bracketed host *)
| OciTypeError | OciAttributeError | OciUnicodeError.

Abbreviation result A := (A + oci_error)%type.

(** ** [OciCredentials] *)

Record OciCredentials := mkCreds { username : option text; password : option text }.

Definition no_credentials : OciCredentials := mkCreds None None.

(** [_normalize_empty]. *)
Definition normalize_empty (v : option text) : option text :=
  match v with
  | Some s => match Utf8.strip s with [] => None | s' => Some s' end
  | None => None
  end.

(** [bool(v)] of a user name or password. *)
Definition truthy (v : option text) : bool :=
  match v with Some (_ :: _) => true | _ => false end.

(** [OciCredentials(username=u, password=p)]: [None] is a [ValidationError]. *)
Definition construct (u p : option text) : option OciCredentials :=
  let u := normalize_empty u in
  let p := normalize_empty p in
  if Bool.eqb (truthy u) (truthy p) then Some (mkCreds u p) else None.

Definition is_authenticated (c : OciCredentials) : bool :=
  is_some (username c) && is_some (password c).

(** ** Registries of a reference *)

(** What [registries.conf] gives for [unqualified-search-registries]; [None] is a value that
    is no string. *)
Inductive registries_conf := ConfMissing | ConfError | ConfData (registries : list (option string)).

Definition usable_registries (l : list (option string)) : list string :=
  List.flat_map (fun r => match r with
                     | Some s => if String.eqb (Str.strip s) "" then [] else [s]
                     | None => []
                     end) l.

Fixpoint get_unqualified_search_registries (confs : list registries_conf) : list string :=
  match confs with
  | [] => ["docker.io"%string]
  | ConfData l :: confs' =>
      match usable_registries l with
      | [] => get_unqualified_search_registries confs'
      | rs => rs
      end
  | _ :: confs' => get_unqualified_search_registries confs'
  end.

Definition is_digit (a : ascii) : bool := is_some (Str.digit a).

Definition is_hex (a : ascii) : bool :=
  let n := nat_of_ascii a in
  is_digit a || ((65 <=? n) && (n <=? 70)) || ((97 <=? n) && (n <=? 102)).

(** [str.isdigit] on ASCII. *)
Definition isdigit (s : string) : bool := negb (String.eqb s "") && Str.all_chars is_digit s.

Fixpoint hex_run (s : string) : nat :=
  match s with
  | String a s' => if is_hex a then S (hex_run s') else 0
  | EmptyString => 0
  end.

(** [s[n:]]. *)
Fixpoint skip (n : nat) (s : string) : string :=
  match n, s with
  | S n', String _ s' => skip n' s'
  | _, _ => s
  end.

(** The length of a match of [@sha(256|384|512):[a-fA-F0-9]+] at the start of [s]. *)
Definition digest_match (s : string) : option nat :=
  if Str.startswith "@sha256:" s || Str.startswith "@sha384:" s || Str.startswith "@sha512:" s
  then match hex_run (skip 8 s) with
       | O => None
       | n => Some (8 + n)
       end
  else None.

(** [re.sub(..., "", url)]: [drop] characters of the current match are left. *)
Fixpoint strip_digests (drop : nat) (s : string) : string :=
  match s with
  | EmptyString => EmptyString
  | String a s' =>
      match drop with
      | S n => strip_digests n s'
      | O => match digest_match s with
             | Some n => strip_digests (n - 1) s'
             | None => String a (strip_digests 0 s')
             end
      end
  end.

Definition strip_scheme (url : string) : string :=
  if Str.startswith "oci://" url then skip 6 url else url.

(** [registry.split(":", 1)[1].isdigit()], when there is a colon. *)
Definition has_port (registry : string) : bool :=
  match Str.split1 ":"%char registry with
  | Some (_, port) => isdigit port
  | None => false
  end.

Definition parse_registries_for_url (search : list string) (oci_url : string) : list string :=
  let url := strip_digests 0 (strip_scheme oci_url) in
  match Str.split1 "/"%char url with
  | None =>
      let registry := url in
      if Str.has_char ":"%char registry then
        if has_port registry then [registry] else search
      else if negb (Str.has_char "."%char registry) && negb (String.eqb registry "localhost") then search
      else [registry]
  | Some (registry, _) =>
      if negb (Str.has_char "."%char registry) && negb (String.eqb registry "localhost") then
        if negb (has_port registry) then search else [registry]
      else [registry]
  end.

(** [None] is an [IndexError]. *)
Definition parse_oci_registry (search : list string) (oci_url : string) : option string :=
  head (parse_registries_for_url search oci_url).

(** ** [_normalize_registry] *)

(** The longest prefix without a character of [p], and the rest. *)
Fixpoint span_until (p : ascii -> bool) (s : string) : string * string :=
  match s with
  | EmptyString => (EmptyString, EmptyString)
  | String a s' =>
      if p a then (EmptyString, s)
      else let '(h, t) := span_until p s' in (String a h, t)
  end.

Definition one_of (chars : string) (a : ascii) : bool := Str.has_char a chars.

Definition is_alpha (a : ascii) : bool :=
  let n := nat_of_ascii (Str.lower_char a) in (97 <=? n) && (n <=? 122).

Definition scheme_char (a : ascii) : bool := is_alpha a || is_digit a || one_of "+-." a.

(** Leading control characters and spaces are stripped; tabs and line ends removed. *)
Fixpoint lstrip_controls (s : string) : string :=
  match s with
  | String a s' => if nat_of_ascii a <=? 32 then lstrip_controls s' else s
  | EmptyString => EmptyString
  end.

Fixpoint remove_unsafe (s : string) : string :=
  match s with
  | String a s' =>
      let n := nat_of_ascii a in
      if (n =? 9) || (n =? 10) || (n =? 13) then remove_unsafe s' else String a (remove_unsafe s')
  | EmptyString => EmptyString
  end.

Definition split_scheme (url : string) : string * string :=
  match url, Str.split1 ":"%char url with
  | String a _, Some (scheme, rest) =>
      if is_alpha a && Str.all_chars scheme_char scheme then (Str.lower scheme, rest)
      else (EmptyString, url)
  | _, _ => (EmptyString, url)
  end.

Definition uses_params : list string :=
  [""; "ftp"; "hdl"; "prospero"; "http"; "imap"; "https"; "shttp"; "rtsp"; "rtsps"; "rtspu";
   "sip"; "sips"; "mms"; "sftp"; "tel"].

Section Normalize.

(** Whether a host in brackets is an IP literal. *)
Context (bracketed_ok : string -> bool).

Definition netloc_ok (netloc : string) : bool :=
  match Str.has_char "["%char netloc, Str.has_char "]"%char netloc with
  | false, false => true
  | true, true => bracketed_ok netloc
  | _, _ => false
  end.

(** [urlparse(url)], its [netloc] and the first segment of its [path]; [None] is a
    [ValueError]. *)
Definition urlparse (url : string) : option (string * string) :=
  let '(scheme, rest) := split_scheme (remove_unsafe (lstrip_controls url)) in
  let '(netloc, rest) :=
    if Str.startswith "//" rest then span_until (one_of "/?#") (skip 2 rest) else (EmptyString, rest) in
  if netloc_ok netloc then
    let path := fst (span_until (one_of "?#") rest) in
    let path :=
      if bool_decide (scheme ∈ uses_params) && negb (Str.has_char "/"%char path)
      then fst (span_until (one_of ";") path) else path in
    Some (netloc, fst (span_until (one_of "/") path))
  else None.

Fixpoint lstrip_slashes (s : string) : string :=
  match s with
  | String a s' => if Ascii.eqb a "/"%char then lstrip_slashes s' else s
  | EmptyString => EmptyString
  end.

(** [s.rstrip("/")]. *)
Definition rstrip_slashes (s : string) : string := Str.srev (lstrip_slashes (Str.srev s)).

Definition docker_hub_aliases : list string :=
  ["index.docker.io"; "registry-1.docker.io"; "registry.hub.docker.com"].

(** The host without a scheme, path or trailing slash, and one name for Docker Hub. *)
Definition normalize_host (registry : string) : string :=
  let registry := rstrip_slashes registry in
  let host := fst (span_until (one_of ":") registry) in
  if bool_decide (host ∈ docker_hub_aliases) || String.eqb host "docker.io" then "docker.io"%string
  else registry.

Definition normalize_registry (registry : string) : option string :=
  if Str.str_contains "://" registry then
    match urlparse registry with
    | Some (netloc, segment) =>
        Some (normalize_host (if String.eqb netloc "" then segment else netloc))
    | None => None
    end
  else Some (normalize_host registry).

End Normalize.

(** ** Base64 *)

Definition b64_value (c : Z) : option Z :=
  (if (65 <=? c) && (c <=? 90) then Some (c - 65)
   else if (97 <=? c) && (c <=? 122) then Some (c - 71)
   else if (48 <=? c) && (c <=? 57) then Some (c + 4)
   else if c =? 43 then Some 62
   else if c =? 47 then Some 63
   else None)%Z.

Definition PAD : Z := 61.

(** [base64.b64decode(s, validate=True)]: groups of four characters of the alphabet, the
    last of which may end in one or two [=]; [None] is a [binascii.Error] or, for a
    character that is not ASCII, a [ValueError]. *)
Fixpoint b64decode (s : text) : option (list Z) :=
  match s with
  | [] => Some []
  | a :: b :: c :: d :: rest =>
      match b64_value a, b64_value b, b64_value c, b64_value d with
      | Some a, Some b, Some c, Some d =>
          match b64decode rest with
          | Some bs => Some ([a * 4 + b / 16; b mod 16 * 16 + c / 4; c mod 4 * 64 + d]%Z ++ bs)
          | None => None
          end
      | Some a, Some b, Some c, None =>
          match rest with
          | [] => if (d =? PAD)%Z then Some [a * 4 + b / 16; b mod 16 * 16 + c / 4]%Z else None
          | _ => None
          end
      | Some a, Some b, None, None =>
          match rest with
          | [] => if (c =? PAD)%Z && (d =? PAD)%Z then Some [a * 4 + b / 16]%Z else None
          | _ => None
          end
      | _, _, _, _ => None
      end
  | _ => None
  end.

(** [s.split(":", 1)]. *)
Fixpoint split_colon (s : text) : option (text * text) :=
  match s with
  | [] => None
  | c :: s' => if (c =? 58)%Z then Some ([], s')
               else match split_colon s' with
                    | Some (h, t) => Some (c :: h, t)
                    | None => None
                    end
  end.

(** ** Auth files *)

(** Parsed JSON. Of a number only whether it is zero matters. *)
#[warnings="-register-all"]
Inductive json :=
| JNull | JBool (b : bool) | JNum (z : Z) | JStr (s : text)
| JList (l : list json) | JObj (fields : list (string * json)).

Definition json_truthy (j : json) : bool :=
  match j with
  | JNull => false
  | JBool b => b
  | JNum z => negb (z =? 0)%Z
  | JStr s => negb (bool_decide (s = []))
  | JList l => match l with [] => false | _ => true end
  | JObj l => match l with [] => false | _ => true end
  end.

(** [value.get(key)], as [value.get(key) or None]: an absent key and a false value are
    treated alike. *)
Definition get_truthy (key : string) (fields : list (string * json)) : option json :=
  match dict_get key fields with
  | Some j => if json_truthy j then Some j else None
  | None => None
  end.

(** The credentials of the [auth] field. [None]: the entry goes on to its other fields. *)
Definition decode_auth (auth_b64 : json) : result (option OciCredentials) :=
  match auth_b64 with
  | JStr s =>
      match b64decode s with
      | Some bs =>
          match Utf8.decode bs with
          | Some decoded =>
              match split_colon decoded with
              | Some ((_ :: _) as u, (_ :: _) as p) => inl (construct (Some u) (Some p))
              | _ => inl None
              end
          | None => inl None
          end
      | None => inl None
      end
  | _ => inr OciTypeError
  end.

(** The credentials of the [username] and [password] fields. *)
Definition field_credentials (value : list (string * json)) : option OciCredentials :=
  match get_truthy "username" value, get_truthy "password" value with
  | Some (JStr u), Some (JStr p) => construct (Some u) (Some p)
  | _, _ => None
  end.

Definition entry_credentials (value : list (string * json)) : result (option OciCredentials) :=
  match get_truthy "auth" value with
  | Some auth_b64 =>
      match decode_auth auth_b64 with
      | inl (Some c) => inl (Some c)
      | inl None => inl (field_credentials value)
      | inr e => inr e
      end
  | None => inl (field_credentials value)
  end.

Section Files.

Context (bracketed_ok : string -> bool).

(** The loop over the entries of [auths]. *)
Fixpoint lookup_entries (entries : list (string * json)) (registry : string) : result OciCredentials :=
  match entries with
  | [] => inl no_credentials
  | (key, JObj value) :: entries' =>
      match normalize_registry bracketed_ok key with
      | None => inr OciUrlError
      | Some normalized =>
          if String.eqb normalized registry then
            match entry_credentials value with
            | inl (Some c) => inl c
            | inl None => lookup_entries entries' registry
            | inr e => inr e
            end
          else lookup_entries entries' registry
      end
  | _ :: entries' => lookup_entries entries' registry
  end.

Definition lookup_credentials_in_auth_data (auth_data : json) (registry : string) : result OciCredentials :=
  match auth_data with
  | JObj fields =>
      match get_truthy "auths" fields with
      | None => inl no_credentials
      | Some (JObj auths) => lookup_entries auths registry
      | Some _ => inr OciAttributeError
      end
  | _ => inr OciAttributeError
  end.

(** What an auth file is: no file, one that cannot be opened or is no JSON, one that is not
    UTF-8, or its data. *)
Inductive auth_file := NoFile | SkippedFile | NotUtf8 | AuthData (data : json).

Context (files : list string -> auth_file).

Fixpoint search_files (paths : list (list string)) (registry : string) : result OciCredentials :=
  match paths with
  | [] => inl no_credentials
  | path :: paths' =>
      match files path with
      | NoFile | SkippedFile => search_files paths' registry
      | NotUtf8 => inr OciUnicodeError
      | AuthData data =>
          match lookup_credentials_in_auth_data data registry with
          | inl creds => if is_authenticated creds then inl creds else search_files paths' registry
          | inr e => inr e
          end
      end
  end.

Fixpoint search_registries (paths : list (list string)) (registries : list string) : result OciCredentials :=
  match registries with
  | [] => inl no_credentials
  | registry :: registries' =>
      match normalize_registry bracketed_ok registry with
      | None => inr OciUrlError
      | Some normalized =>
          match search_files paths normalized with
          | inl creds => if is_authenticated creds then inl creds else search_registries paths registries'
          | inr e => inr e
          end
      end
  end.

(** The environment. *)
Context (REGISTRY_AUTH_FILE XDG_RUNTIME_DIR DOCKER_CONFIG : option string) (home : string).
Context (OCI_USERNAME OCI_PASSWORD : option text).

(** [[p] if the variable is set and not empty]. *)
Definition env_path (v : option string) (rest : list string) : list (list string) :=
  match v with
  | Some s => if String.eqb s "" then [] else [s :: rest]
  | None => []
  end.

Definition get_auth_file_paths : list (list string) :=
  env_path REGISTRY_AUTH_FILE [] ++ env_path XDG_RUNTIME_DIR ["containers"; "auth.json"] ++
  [[home; ".config"; "containers"; "auth.json"]] ++
  env_path DOCKER_CONFIG ["config.json"] ++ [[home; ".docker"; "config.json"]].

Context (search : list string).

Definition read_auth_file_credentials (oci_url : string) : result OciCredentials :=
  search_registries get_auth_file_paths (parse_registries_for_url search oci_url).

(** The environment's credentials, if they are complete. *)
Definition env_credentials : option OciCredentials :=
  match OCI_USERNAME, OCI_PASSWORD with
  | None, None => None
  | u, p => match construct u p with
            | None => None
            | Some creds => if is_authenticated creds then Some creds else None
            end
  end.

Definition env_or_files (oci_url : string) : result OciCredentials :=
  match env_credentials with
  | Some creds => inl creds
  | None => read_auth_file_credentials oci_url
  end.

Definition resolve_oci_credentials (oci_url : string) (user pass : option text) : result OciCredentials :=
  match user, pass with
  | None, None => env_or_files oci_url
  | _, _ =>
      match construct user pass with
      | None => inr OciValueError
      | Some creds => if is_authenticated creds then inl creds else env_or_files oci_url
      end
  end.

End Files.

(** ** Both or neither *)

(** A text with no space at either end, and not empty. *)
Definition trimmed (s : text) : Prop :=
  exists c s' d, s = c :: s' /\ last s = Some d /\ Utf8.is_space c = false /\ Utf8.is_space d = false.

Definition creds_ok (c : OciCredentials) : Prop :=
  (username c = None /\ password c = None) \/
  (exists u p, username c = Some u /\ password c = Some p /\ trimmed u /\ trimmed p).

Lemma lstrip_head s c s' : Utf8.lstrip s = c :: s' -> Utf8.is_space c = false.
Proof.
  induction s as [|a s IH]; simpl; [done |].
  destruct (Utf8.is_space a) eqn:E; [done |]. by intros [= -> _].
Qed.

Lemma lstrip_suffix s : exists pre, s = pre ++ Utf8.lstrip s.
Proof.
  induction s as [|a s [pre IH]]; simpl; [by exists [] |].
  destruct (Utf8.is_space a); [| by exists []]. exists (a :: pre). simpl. by rewrite <- IH.
Qed.

Lemma strip_trimmed s : Utf8.strip s <> [] -> trimmed (Utf8.strip s).
Proof.
  unfold Utf8.strip, Utf8.rstrip. destruct (lstrip_suffix (rev (Utf8.lstrip s))) as [pre Hpre].
  destruct (Utf8.lstrip (rev (Utf8.lstrip s))) as [|d t] eqn:Et; [done |]. intros _.
  pose proof (lstrip_head _ _ _ Et) as Hd.
  apply (f_equal (@rev Z)) in Hpre. rewrite rev_involutive, rev_app_distr in Hpre.
  destruct (rev (d :: t)) as [|c r] eqn:Er; [by apply (f_equal (@length Z)) in Er; rewrite length_rev in Er |].
  pose proof (lstrip_head s c (r ++ rev pre) Hpre) as Hc.
  exists c, r, d. split_and!; try done. rewrite <- Er. simpl. by rewrite last_snoc.
Qed.

Lemma normalize_empty_truthy v : truthy (normalize_empty v) = is_some (normalize_empty v).
Proof. destruct v as [s|]; simpl; [| done]. by destruct (Utf8.strip s). Qed.

Lemma normalize_empty_trimmed v s : normalize_empty v = Some s -> trimmed s.
Proof.
  destruct v as [t|]; simpl; [| done]. pose proof (strip_trimmed t) as H.
  destruct (Utf8.strip t) as [|a r]; [done |]. intros [= <-]. by apply H.
Qed.

Lemma construct_ok u p c : construct u p = Some c -> creds_ok c.
Proof.
  unfold construct. rewrite !normalize_empty_truthy.
  destruct (normalize_empty u) as [u'|] eqn:Eu, (normalize_empty p) as [p'|] eqn:Ep; simpl; try done;
    intros [= <-]; unfold creds_ok; simpl; [right | by left].
  exists u', p'. split_and!; eauto using normalize_empty_trimmed.
Qed.

Lemma no_credentials_ok : creds_ok no_credentials.
Proof. by left. Qed.

Create HintDb oci.
#[local] Hint Resolve construct_ok no_credentials_ok : oci.

Lemma decode_auth_ok j c : decode_auth j = inl (Some c) -> creds_ok c.
Proof. unfold decode_auth. repeat case_match; intros; simplify_eq; eauto with oci. Qed.

Lemma field_credentials_ok value c : field_credentials value = Some c -> creds_ok c.
Proof. unfold field_credentials. repeat case_match; intros; simplify_eq; eauto with oci. Qed.

Lemma entry_credentials_ok value c : entry_credentials value = inl (Some c) -> creds_ok c.
Proof.
  unfold entry_credentials. repeat case_match; intros; simplify_eq;
    eauto using decode_auth_ok, field_credentials_ok.
Qed.

(** ** Where credentials come from *)

Section Facts.

Context (bracketed_ok : string -> bool) (files : list string -> auth_file).

(** The entry of an auth file for a registry. *)
Definition entry_for (data : json) (registry : string) (value : list (string * json)) : Prop :=
  exists fields auths key, data = JObj fields /\ dict_get "auths" fields = Some (JObj auths) /\
    In (key, JObj value) auths /\ normalize_registry bracketed_ok key = Some registry.

Lemma lookup_entries_from entries registry c :
  lookup_entries bracketed_ok entries registry = inl c ->
  c = no_credentials \/
  exists key value, In (key, JObj value) entries /\
    normalize_registry bracketed_ok key = Some registry /\ entry_credentials value = inl (Some c).
Proof.
  induction entries as [|[key j] entries IH]; simpl; [intros [= <-]; by left |]. intros H.
  assert (lookup_entries bracketed_ok entries registry = inl c ->
    c = no_credentials \/ exists k v, ((key, j) = (k, JObj v) \/ In (k, JObj v) entries) /\
      normalize_registry bracketed_ok k = Some registry /\ entry_credentials v = inl (Some c)) as Hrest
    by (intros [->|(k & v & ?)]%IH; [by left | right; exists k, v; tauto]).
  destruct j as [| | | | |value]; [apply Hrest; exact H .. |].
  destruct (normalize_registry bracketed_ok key) as [n|] eqn:En; [| done].
  destruct (String.eqb_spec n registry) as [->|]; [| by apply Hrest].
  destruct (entry_credentials value) as [[c'|]|] eqn:Ee; [| by apply Hrest | done].
  injection H as ->. right. exists key, value. auto.
Qed.

Lemma lookup_from data registry c :
  lookup_credentials_in_auth_data bracketed_ok data registry = inl c ->
  c = no_credentials \/ exists value, entry_for data registry value /\ entry_credentials value = inl (Some c).
Proof.
  unfold lookup_credentials_in_auth_data. destruct data as [| | | | |fields]; try done.
  unfold get_truthy. destruct (dict_get "auths" fields) as [j|] eqn:Ej; [| intros [= <-]; by left].
  destruct (json_truthy j); [| intros [= <-]; by left].
  destruct j as [| | | | |auths]; try done.
  intros [->|(key & value & Hin & Hn & He)]%lookup_entries_from; [by left |].
  right. exists value. split; [| done]. by exists fields, auths, key.
Qed.

Lemma search_files_from paths registry c :
  search_files bracketed_ok files paths registry = inl c ->
  c = no_credentials \/
  exists path data value, In path paths /\ files path = AuthData data /\
    entry_for data registry value /\ entry_credentials value = inl (Some c) /\ is_authenticated c = true.
Proof.
  induction paths as [|path paths IH]; simpl; [intros [= <-]; by left |]. intros H.
  assert (search_files bracketed_ok files paths registry = inl c ->
    c = no_credentials \/ exists p data value, (path = p \/ In p paths) /\ files p = AuthData data /\
      entry_for data registry value /\ entry_credentials value = inl (Some c) /\ is_authenticated c = true) as Hrest
    by (intros [->|(p & d & v & ?)]%IH; [by left | right; exists p, d, v; tauto]).
  destruct (files path) as [| | |data] eqn:Ef; [by apply Hrest .. | done |].
  destruct (lookup_credentials_in_auth_data _ data registry) as [creds|] eqn:El; [| done].
  destruct (is_authenticated creds) eqn:Ea; [| by apply Hrest].
  injection H as ->. apply lookup_from in El as [->|(value & He & Hc)]; [by left |].
  right. exists path, data, value. auto.
Qed.

Lemma search_registries_from paths registries c :
  search_registries bracketed_ok files paths registries = inl c ->
  c = no_credentials \/
  exists registry normalized path data value, In registry registries /\
    normalize_registry bracketed_ok registry = Some normalized /\ In path paths /\
    files path = AuthData data /\ entry_for data normalized value /\
    entry_credentials value = inl (Some c) /\ is_authenticated c = true.
Proof.
  induction registries as [|r rs IH]; simpl; [intros [= <-]; by left |].
  destruct (normalize_registry bracketed_ok r) as [n|] eqn:En; [| done].
  destruct (search_files _ _ paths n) as [creds|] eqn:Es; [| done].
  destruct (is_authenticated creds) eqn:Ea.
  - intros [= ->]. apply search_files_from in Es as [->|(p & d & v & ?)]; [by left |].
    right. exists r, n, p, d, v. tauto.
  - intros [->|(r' & n' & p & d & v & ?)]%IH; [by left |]. right. exists r', n', p, d, v. tauto.
Qed.

Lemma search_registries_ok paths registries c :
  search_registries bracketed_ok files paths registries = inl c -> creds_ok c.
Proof.
  intros [->|(_ & _ & _ & _ & value & _ & _ & _ & _ & _ & He & _)]%search_registries_from;
    eauto using entry_credentials_ok with oci.
Qed.

End Facts.

Section Properties.

Context (bracketed_ok : string -> bool) (files : list string -> auth_file).
Context (auth_env xdg_env docker_env : option string) (home : string).
Context (env_user env_pass : option text) (search : list string).

#[local] Abbreviation resolve :=
  (resolve_oci_credentials bracketed_ok files auth_env xdg_env docker_env home env_user env_pass search).
#[local] Abbreviation read :=
  (read_auth_file_credentials bracketed_ok files auth_env xdg_env docker_env home search).

(** Credentials that are resolved are complete or absent: either no user name and no
    password, or both, not empty and without surrounding white space, wherever they come
    from. *)
Theorem resolved_both_or_neither oci_url user pass c :
  resolve oci_url user pass = inl c -> creds_ok c.
Proof.
  assert (forall c, env_or_files bracketed_ok files auth_env xdg_env docker_env home env_user env_pass search oci_url
    = inl c -> creds_ok c) as Henv.
  { clear c. intros c. unfold env_or_files, env_credentials.
    repeat case_match; intros; simplify_eq; eauto using search_registries_ok with oci. }
  unfold resolve_oci_credentials.
  repeat case_match; intros; simplify_eq; eauto with oci.
Qed.

(** Whether a value is given: set and not only white space. *)
Definition given (v : option text) : bool := is_some (normalize_empty v).

Lemma construct_given u p :
  construct u p =
  if Bool.eqb (given u) (given p) then Some (mkCreds (normalize_empty u) (normalize_empty p)) else None.
Proof. unfold construct, given. by rewrite !normalize_empty_truthy. Qed.

(** The precedence of the three sources. A complete pair of arguments is used whatever
    the environment and the files hold, and one argument alone is an error; with no
    arguments a complete pair of environment variables is used, and the auth files only
    when that pair is not complete (one variable alone is ignored, not an error). *)
Theorem credential_precedence oci_url user pass :
  resolve oci_url user pass =
  match given user, given pass with
  | true, true => inl (mkCreds (normalize_empty user) (normalize_empty pass))
  | false, false =>
      if given env_user && given env_pass
      then inl (mkCreds (normalize_empty env_user) (normalize_empty env_pass))
      else read oci_url
  | _, _ => inr OciValueError
  end.
Proof.
  assert (env_or_files bracketed_ok files auth_env xdg_env docker_env home env_user env_pass search oci_url =
    if given env_user && given env_pass
    then inl (mkCreds (normalize_empty env_user) (normalize_empty env_pass)) else read oci_url) as Henv.
  { unfold env_or_files, env_credentials. rewrite !construct_given. unfold given, is_authenticated.
    destruct env_user as [u|], env_pass as [p|]; simpl; try done;
      repeat (destruct (Utf8.strip _)); done. }
  unfold resolve_oci_credentials. rewrite !construct_given, !Henv. unfold given, is_authenticated.
  destruct user as [u|], pass as [p|]; simpl; try done; repeat (destruct (Utf8.strip _)); done.
Qed.

(** Credentials read from a file are only ever used for the registry they were stored
    for: they come from an entry of one of the five auth files whose key names, after
    normalisation, a registry the image reference can be pulled from. *)
Theorem file_credentials_for_registry oci_url c :
  read oci_url = inl c -> is_authenticated c = true ->
  exists registry normalized path data value,
    In registry (parse_registries_for_url search oci_url) /\
    normalize_registry bracketed_ok registry = Some normalized /\
    In path (get_auth_file_paths auth_env xdg_env docker_env home) /\
    files path = AuthData data /\ entry_for bracketed_ok data normalized value /\
    entry_credentials value = inl (Some c).
Proof.
  intros H Ha. apply search_registries_from in H as [->|(r & n & p & d & v & H)]; [done |].
  exists r, n, p, d, v. tauto.
Qed.

End Properties.

(** ** Concrete instances *)

(** One Docker configuration, with an entry for quay.io. *)
Definition demo_files (path : list string) : auth_file :=
  if bool_decide (path = ["/h"; ".docker"; "config.json"]%string) then
    AuthData (JObj [("auths"%string, JObj [("https://quay.io/v1/"%string,
      JObj [("auth"%string, JStr (Utf8.of_string "dXNlcjpwYXNz"))])])])
  else NoFile.

Definition demo_resolve : string -> option text -> option text -> OciCredentials + oci_error :=
  resolve_oci_credentials (fun _ => true) demo_files None None None "/h" None (Some []) ["docker.io"%string].

Definition demo_creds : OciCredentials :=
  mkCreds (Some (Utf8.of_string "user")) (Some (Utf8.of_string "pass")).

Example demo_pull : demo_resolve "oci://quay.io/org/image:tag" None None = inl demo_creds /\
  demo_resolve "ubuntu@sha256:0a" None None = inl no_credentials /\
  demo_resolve "quay.io/x" (Some [97%Z]) None = inr OciValueError.
Proof. by vm_compute. Qed.

Lemma resolved_both_or_neither_witness :
  demo_resolve "oci://quay.io/org/image:tag" None None = inl demo_creds /\ creds_ok demo_creds.
Proof.
  split; [vm_compute; reflexivity |].
  apply (resolved_both_or_neither (fun _ => true) demo_files None None None "/h" None (Some [])
    ["docker.io"%string] "oci://quay.io/org/image:tag" None None).
  vm_compute. reflexivity.
Defined.

Lemma file_credentials_for_registry_witness :
  exists registry, In registry (parse_registries_for_url ["docker.io"%string] "oci://quay.io/org/image:tag") /\
    normalize_registry (fun _ => true) registry = Some "quay.io"%string.
Proof.
  destruct (file_credentials_for_registry (fun _ => true) demo_files None None None "/h"
    ["docker.io"%string] "oci://quay.io/org/image:tag" demo_creds) as (r & n & p & d & v & Hr & Hn & _);
    [vm_compute; reflexivity | reflexivity |].
  exists r. split; [exact Hr |]. vm_compute in Hr. destruct Hr as [<- | []]. reflexivity.
Defined.
