(* ===== verification/Presigned.v ===== *)
(** * Resources of a driver

    [driver/base.py]: [Driver.resource] gives a driver method the stream behind a resource
    handle, either a stream the client opened before or a presigned HTTP request, whose
    redirects the driver follows itself. The HTTP client ([aiohttp]) and the URL parser
    ([yarl]) are not part of the source: the servers are a function from the number of the
    request, its URL and its headers to a reply, and the origin of a URL is a parameter. *)

From stdpp Require Import base list strings.
From Stdlib Require Import ZArith Lia Ascii.
From S2P Require Import Prelude PyText.

Abbreviation headers := (list (string * string)).

(** The exceptions the handlers of [_resource_from_presigned] tell apart. *)
Inductive exn :=
| ClientResponseError | BrokenResourceError | ClientConnectionError | ClientPayloadError
| ServerTimeoutError | TimeoutError | OSError | RuntimeError | KeyError | ValueError | OtherError.

#[global] Instance exn_eq_dec : EqDecision exn.
Proof. solve_decision. Defined.

(** ** Redirects *)

Definition SENSITIVE_HEADER_PREFIXES : list string :=
  ["authorization"; "cookie"; "proxy-authorization"; "x-amz-"; "x-ms-"; "x-goog-"].

Definition sensitive (name : string) : bool :=
  existsb (fun p => Str.startswith p (Str.lower name)) SENSITIVE_HEADER_PREFIXES.

(** The reply to a GET: an exception of the request ([raise_for_status] included), a
    redirect with its [Location] header, or another status with a body. *)
Inductive reply :=
| Raises (e : exn)
| Redirects (location : option string)
| Responds (body : list Z).

Section Redirects.

Context {origin : Type} `{EqDecision origin}.
(** [(scheme, host, port)] of [yarl.URL(url)]; [None] when the URL is rejected. *)
Context (origin_of : string -> option origin).
Context (server : nat -> string -> headers -> reply).

Definition strip_sensitive_headers (hs : headers) (original_url redirect_url : string) : headers + exn :=
  match origin_of original_url, origin_of redirect_url with
  | Some orig, Some dest =>
      if bool_decide (orig = dest) then inl hs
      else inl (List.filter (fun kv => negb (sensitive kv.1)) hs)
  | _, _ => inr ValueError
  end.

(** A request made: its URL and headers. *)
Definition request := (string * headers)%type.

(** [_presigned_get], [n] requests being allowed: the requests made and the body or the
    exception. *)
Fixpoint presigned_loop (n : nat) (i : nat) (url : string) (hs : headers) : list request * (list Z + exn) :=
  match n with
  | O => ([], inr RuntimeError)
  | S n' =>
      match server i url hs with
      | Raises e => ([(url, hs)], inr e)
      | Responds body => ([(url, hs)], inl body)
      | Redirects location =>
          match location with
          | None | Some EmptyString => ([(url, hs)], inr RuntimeError)
          | Some location =>
              match strip_sensitive_headers hs url location with
              | inr e => ([(url, hs)], inr e)
              | inl hs' =>
                  let '(reqs, r) := presigned_loop n' (S i) location hs' in ((url, hs) :: reqs, r)
              end
          end
      end
  end.

Definition presigned_get (url : string) (hs : headers) (max_redirects : nat) : list request * (list Z + exn) :=
  presigned_loop (max_redirects + 1) 0 url hs.

End Redirects.

(** ** Errors of a presigned request *)

(** The exception handlers, in their order. *)
Definition translate (e : exn) : exn :=
  match e with
  | ClientResponseError => RuntimeError
  | BrokenResourceError => RuntimeError
  | ClientConnectionError | ClientPayloadError | ServerTimeoutError => RuntimeError
  | TimeoutError => TimeoutError
  | OSError => RuntimeError
  | e => e
  end.

(** ** Handles *)

Inductive Resource :=
| ClientStreamResource (uuid : string) (x_jmp_content_encoding : option string)
| PresignedRequestResource (hs : headers) (url : string) (method : string).

Section Handles.

Context {origin : Type} `{EqDecision origin} {stream : Type}.
Context (origin_of : string -> option origin).
Context (server : nat -> string -> headers -> reply).
(** [compress_stream]; [None] is an encoding it rejects. *)
Context (compress_stream : stream -> option string -> option stream).
(** The stream over a response body, and the memory stream of a PUT with the outcome of the
    request. *)
Context (body_stream : list Z -> stream) (put : string -> headers -> stream * option exn).

Definition resources := list (string * stream).

(** The body of the [async with driver.resource(handle)] block: its result, or the
    exception it raises. *)
Context {A : Type} (block : stream -> A + exn).

Definition resource_from_client_stream (rs : resources) (uuid : string) (encoding : option string)
    : resources * (A + exn) :=
  match dict_get uuid rs with
  | None => (rs, inr KeyError)
  | Some s =>
      (List.filter (fun kv => negb (String.eqb kv.1 uuid)) rs,
       match compress_stream s encoding with
       | Some s' => block s'
       | None => inr ValueError
       end)
  end.

Definition resource_from_presigned (hs : headers) (url method : string) : A + exn :=
  let r :=
    if String.eqb method "GET" then
      match snd (presigned_get origin_of server url hs 10) with
      | inl body => block (body_stream body)
      | inr e => inr e
      end
    else if String.eqb method "PUT" then
      match put url hs with
      | (s, None) => block s
      | (_, Some e) => inr e
      end
    else inr ValueError in
  match r with
  | inl a => inl a
  | inr e => inr (translate e)
  end.

Definition resource (rs : resources) (handle : Resource) : resources * (A + exn) :=
  match handle with
  | ClientStreamResource uuid encoding => resource_from_client_stream rs uuid encoding
  | PresignedRequestResource hs url method => (rs, resource_from_presigned hs url method)
  end.

End Handles.

(** ** Redirects keep secrets *)

Section Facts.

Context {origin : Type} `{EqDecision origin} (origin_of : string -> option origin).
Context (server : nat -> string -> headers -> reply).

Definition plain (hs : headers) : headers := List.filter (fun kv => negb (sensitive kv.1)) hs.

Lemma plain_idem hs : plain (plain hs) = plain hs.
Proof.
  unfold plain. induction hs as [|kv hs IH]; simpl; [done |].
  destruct (negb (sensitive kv.1)) eqn:E; simpl; [| done]. by rewrite E, IH.
Qed.

(** The headers of a request that is allowed for [hs0] at [url0]: all of them at the same
    origin, the plain ones anywhere. *)
Definition allowed (url0 : string) (hs0 : headers) (r : request) : Prop :=
  (snd r = hs0 /\ origin_of (fst r) = origin_of url0) \/ snd r = plain hs0.

Lemma strip_allowed url0 hs0 url hs location hs' :
  allowed url0 hs0 (url, hs) ->
  strip_sensitive_headers origin_of hs url location = inl hs' ->
  allowed url0 hs0 (location, hs').
Proof.
  unfold allowed, strip_sensitive_headers. simpl.
  destruct (origin_of url) as [o|]; [| done]. destruct (origin_of location) as [d|]; [| done].
  fold (plain hs). case_bool_decide as Hod; intros H [= <-].
  - subst d. done.
  - destruct H as [[-> _]| ->]; [by right | right; apply plain_idem].
Qed.

Lemma presigned_loop_allowed url0 hs0 n i url hs :
  allowed url0 hs0 (url, hs) ->
  Forall (allowed url0 hs0) (fst (presigned_loop origin_of server n i url hs)) /\
  length (fst (presigned_loop origin_of server n i url hs)) <= n.
Proof.
  revert i url hs. induction n as [|n IH]; intros i url hs Hal; simpl; [split; [constructor | lia] |].
  assert (Forall (allowed url0 hs0) [(url, hs)] /\ length [(url, hs)] <= S n) as Hone
    by (split; [by apply Forall_singleton | simpl; lia]).
  destruct (server i url hs) as [e|location|body]; [exact Hone | | exact Hone].
  destruct location as [[|a l]|]; [exact Hone | | exact Hone].
  destruct (strip_sensitive_headers origin_of hs url (String a l)) as [hs'|e] eqn:Es; [| exact Hone].
  pose proof (IH (S i) (String a l) hs' (strip_allowed _ _ _ _ _ _ Hal Es)) as [H1 H2].
  destruct (presigned_loop origin_of server n (S i) (String a l) hs') as [reqs r]. simpl in *.
  split; [by constructor | lia].
Qed.

(** C22: following redirects never sends a credential elsewhere: every request carries the
    given headers to the origin of the original URL, or only those of them that are not
    sensitive (so a sensitive header goes to that origin alone, and once dropped it never
    comes back); there are at most [max_redirects + 1] requests. *)
Theorem redirects_keep_secrets url hs max_redirects :
  let reqs := fst (presigned_get origin_of server url hs max_redirects) in
  length reqs <= max_redirects + 1 /\ Forall (allowed url hs) reqs /\
  (forall u h name v, In (u, h) reqs -> In (name, v) h -> sensitive name = true ->
     In (name, v) hs /\ origin_of u = origin_of url).
Proof.
  assert (allowed url hs (url, hs)) as H0 by (by left).
  destruct (presigned_loop_allowed url hs (max_redirects + 1) 0 url hs H0) as [H1 H2].
  split_and!; [exact H2 | exact H1 |].
  intros u h name v Hin Hh Hs. rewrite List.Forall_forall in H1.
  destruct (H1 _ Hin) as [[Hr Ho]|Hr]; simpl in Hr; subst h; [done |].
  unfold plain in Hh. apply filter_In in Hh as [_ Hh]. simpl in Hh. by rewrite Hs in Hh.
Qed.

End Facts.

(** ** Handles are used once *)

Section Once.

Context {origin : Type} `{EqDecision origin} {stream A : Type}.
Context (origin_of : string -> option origin) (server : nat -> string -> headers -> reply).
Context (compress_stream : stream -> option string -> option stream).
Context (body_stream : list Z -> stream) (put : string -> headers -> stream * option exn).
Context (block : stream -> A + exn).

#[local] Abbreviation use rs h := (resource origin_of server compress_stream body_stream put block rs h).

Lemma dict_get_filtered (rs : list (string * stream)) uuid k :
  dict_get k (List.filter (fun kv => negb (String.eqb kv.1 uuid)) rs) =
  if String.eqb k uuid then None else dict_get k rs.
Proof.
  rewrite (dict_get_filter (fun k => negb (String.eqb k uuid))). by destruct (String.eqb k uuid).
Qed.

(** A client stream is given to one driver call only: however the block that uses it
    ends, with a result, an exception or an unknown encoding, the handle is forgotten, every
    other handle is kept, and a second use is a [KeyError] that leaves the table alone. *)
Theorem client_stream_used_once rs uuid encoding :
  is_some (dict_get uuid rs) = true ->
  let rs' := fst (use rs (ClientStreamResource uuid encoding)) in
  (forall k, dict_get k rs' = if String.eqb k uuid then None else dict_get k rs) /\
  (forall encoding', use rs' (ClientStreamResource uuid encoding') = (rs', inr KeyError)).
Proof.
  simpl. unfold resource_from_client_stream. destruct (dict_get uuid rs) as [s|] eqn:E; [| done].
  intros _. simpl. split; [apply dict_get_filtered |].
  intros encoding'. rewrite dict_get_filtered, String.eqb_refl. done.
Qed.

(** A presigned request reports every failure of the transport as a [RuntimeError] or a
    [TimeoutError]: none of the HTTP client's own exceptions reaches the driver. *)
Theorem presigned_errors rs hs url method e :
  snd (use rs (PresignedRequestResource hs url method)) = inr e ->
  e = RuntimeError \/ e = TimeoutError \/ e = ValueError \/ e = KeyError \/ e = OtherError.
Proof.
  simpl. unfold resource_from_presigned. cbv zeta.
  destruct (if String.eqb method "GET" then _ else _) as [a|e']; [done |].
  intros [= <-]. destruct e'; simpl; auto.
Qed.

End Once.

(** ** Concrete instances *)

(** A registry that redirects to a storage host: the origin is the URL up to its path. *)
Definition demo_origin (url : string) : option string :=
  match Str.split_char "/"%char url with
  | scheme :: _ :: host :: _ => Some (scheme ++ host)%string
  | _ => None
  end.

Definition demo_server (i : nat) (url : string) (hs : headers) : reply :=
  if String.eqb url "https://a/x" then Redirects (Some "https://a/y")
  else if String.eqb url "https://a/y" then Redirects (Some "https://b/z")
  else if String.eqb url "https://b/z" then Redirects (Some "https://a/w")
  else Responds [1%Z].

Example demo_redirects :
  presigned_get demo_origin demo_server "https://a/x" [("Authorization", "t"); ("Accept", "*")] 10 =
  ([("https://a/x", [("Authorization", "t"); ("Accept", "*")]);
    ("https://a/y", [("Authorization", "t"); ("Accept", "*")]);
    ("https://b/z", [("Accept", "*")]); ("https://a/w", [("Accept", "*")])]%string, inl [1%Z]).
Proof. by vm_compute. Qed.

Definition demo_use (handle : Resource) : list (string * nat) * (nat + exn) :=
  resource demo_origin demo_server (fun (s : nat) _ => Some s) (fun b => length b)
    (fun _ _ => (7, Some OSError)) (fun s => inl s) [("u1"%string, 3); ("u2"%string, 4)] handle.

Lemma client_stream_used_once_witness :
  demo_use (ClientStreamResource "u1" None) = ([("u2"%string, 4)], inl 3) /\
  dict_get "u1" (fst (demo_use (ClientStreamResource "u1" None))) = None.
Proof.
  split; [reflexivity |].
  destruct (client_stream_used_once demo_origin demo_server (fun (s : nat) (_ : option string) => Some s)
    (fun b => length b) (fun _ _ => (7, Some OSError)) (fun s => @inl nat exn s)
    [("u1"%string, 3); ("u2"%string, 4)] "u1" None eq_refl) as [H _].
  exact (H "u1"%string).
Defined.

Lemma presigned_errors_witness :
  snd (demo_use (PresignedRequestResource [] "https://a/x" "PUT")) = inr RuntimeError /\
  (RuntimeError = RuntimeError \/ RuntimeError = TimeoutError \/ RuntimeError = ValueError \/
   RuntimeError = KeyError \/ RuntimeError = OtherError).
Proof.
  split; [reflexivity |].
  apply (presigned_errors demo_origin demo_server (fun (s : nat) (_ : option string) => Some s)
    (fun b => length b) (fun _ _ => (7, Some OSError)) (fun s => @inl nat exn s)
    [] [] "https://a/x" "PUT" RuntimeError).
  reflexivity.
Defined.
