(* ===== verification/MockValues.v ===== *)
(** * Values of the mock proxy

    [jumpstarter_driver_mitmproxy/bundled_addon.py], the helpers on JSON values:
    [_resolve_dotted_path] and [_deep_merge_patch]. Texts are ASCII; a finite float is the
    rational it stands for. A dictionary keeps the order of its keys; a key is a string, or an
    integer where the merge stores one. *)

From stdpp Require Import base list strings.
From Stdlib Require Import ZArith QArith Lia Ascii.
From S2P Require Import Prelude PyText.

Open Scope Z_scope.

(** ** Values *)

Inductive key := KStr (s : string) | KInt (n : Z).

#[global] Instance key_eq_dec : EqDecision key.
Proof. solve_decision. Defined.

#[warnings="-register-all"]
Inductive value :=
| VNone | VBool (b : bool) | VInt (z : Z) | VFloat (x : Q) | VStr (s : string)
| VList (l : list value) | VDict (d : list (key * value)).

Abbreviation vdict := (list (key * value)).

Definition is_dict (v : value) : bool := match v with VDict _ => true | _ => false end.

(** [d.get(k)]; [None] when there is no such key. *)
Fixpoint vget (k : key) (d : vdict) : option value :=
  match d with
  | [] => None
  | (k', v) :: d' => if bool_decide (k = k') then Some v else vget k d'
  end.

(** [d[k] = v]: a new key goes last. *)
Fixpoint vset (k : key) (v : value) (d : vdict) : vdict :=
  match d with
  | [] => [(k, v)]
  | (k', v') :: d' => if bool_decide (k = k') then (k, v) :: d' else (k', v') :: vset k v d'
  end.

(** [l[i]], with indices from the end; [None] is an [IndexError]. *)
Definition list_index {A} (l : list A) (i : Z) : option A :=
  let n := Z.of_nat (length l) in
  if (0 <=? i) && (i <? n) then l !! Z.to_nat i
  else if (- n <=? i) && (i <? 0) then l !! Z.to_nat (i + n)
  else None.

(** Python's [==]. *)
Definition number (v : value) : option Q :=
  match v with
  | VBool b => Some (inject_Z (Z.b2z b))
  | VInt z => Some (inject_Z z)
  | VFloat x => Some x
  | _ => None
  end.

Fixpoint py_eqb (a b : value) {struct a} : bool :=
  match a, b with
  | VNone, VNone => true
  | VStr s, VStr t => String.eqb s t
  | VList l, VList m =>
      (fix all (l m : list value) : bool :=
         match l, m with
         | [], [] => true
         | x :: l', y :: m' => py_eqb x y && all l' m'
         | _, _ => false
         end) l m
  | VDict d, VDict e =>
      (length d =? length e)%nat &&
      (fix all (d : vdict) : bool :=
         match d with
         | [] => true
         | (k, x) :: d' => match vget k e with Some y => py_eqb x y && all d' | None => false end
         end) d
  | _, _ => match number a, number b with Some x, Some y => Qeq_bool x y | _, _ => false end
  end.

(** ** [_resolve_dotted_path] *)

Fixpoint resolve_parts (parts : list string) (obj : value) : value :=
  match parts with
  | [] => obj
  | part :: parts' =>
      match obj with
      | VDict d => resolve_parts parts' (default VNone (vget (KStr part) d))
      | VList l =>
          match Str.py_int part with
          | None => VNone
          | Some i => match list_index l i with
                      | None => VNone
                      | Some v => resolve_parts parts' v
                      end
          end
      | _ => VNone
      end
  end.

Definition resolve_dotted_path (obj : value) (path : string) : value :=
  resolve_parts (Str.split_char "."%char path) obj.

(** ** [_deep_merge_patch] *)

(** The exceptions the loop does not catch. *)
Inductive escape := AttributeError | ValueError.

Fixpoint drop_last (s : string) : string :=
  match s with
  | EmptyString => EmptyString
  | String _ EmptyString => EmptyString
  | String a s' => String a (drop_last s')
  end.

Fixpoint last_char (s : string) : option ascii :=
  match s with
  | EmptyString => None
  | String a EmptyString => Some a
  | String _ s' => last_char s'
  end.

Definition all_digits (s : string) : bool :=
  negb (String.eqb s "") && Str.all_chars (fun a => is_some (Str.digit a)) s.

(** A match of [^(.+)\[(\d+)\]$]: both groups. *)
Definition array_key (k : string) : option (string * string) :=
  let k := match last_char k with
           | Some a => if Ascii.eqb a Str.newline then drop_last k else k
           | None => k
           end in
  match Str.rsplit1 "["%char k with
  | Some (base, rest) =>
      match last_char rest with
      | Some "]"%char =>
          if negb (String.eqb base "") && negb (Str.has_char Str.newline base) && all_digits (drop_last rest)
          then Some (base, drop_last rest) else None
      | _ => None
      end
  | None => None
  end.

(** [while len(array) <= index: array.append({})]. *)
Definition extend (l : list value) (index : nat) : list value :=
  l ++ replicate (S index - length l) (VDict []).

(** One key of a patch. [rec target] merges the patch's value into [target] when it is a
    dictionary. The result is the target after it, with what escapes the loop; an exception
    that is caught leaves the target as it was at that point. *)
Definition merge_array (rec : value -> value * option escape) (v : value) (index : Z) (arr : value)
    : value * option escape :=
  let i := Z.to_nat index in
  match arr with
  | VList l =>
      let l := extend l i in
      if is_dict v then
        match l !! i with
        | Some x => let '(x', e) := rec x in (VList (<[i := x']> l), e)
        | None => (VList l, None)
        end
      else (VList (<[i := v]> l), None)
  | VDict d =>
      if (length d <=? i)%nat then (VDict d, Some AttributeError)
      else if is_dict v then
        match vget (KInt index) d with
        | None => (VDict d, None)
        | Some x => let '(x', e) := rec x in (VDict (vset (KInt index) x' d), e)
        end
      else (VDict (vset (KInt index) v d), None)
  | VStr s =>
      if (String.length s <=? i)%nat then (VStr s, Some AttributeError)
      else if is_dict v then (VStr s, snd (rec (VStr (String.substring i 1 s))))
      else (VStr s, None)
  | arr => (arr, None)
  end.

Definition merge_key (rec : value -> value * option escape) (k : key) (v : value) (target : value)
    : value * option escape :=
  match k with
  | KInt _ => (target, None)
  | KStr s =>
      match array_key s with
      | Some (base, digits) =>
          match Str.py_int digits with
          | None => (target, Some ValueError)
          | Some index =>
              match target with
              | VDict d =>
                  let d := match vget (KStr base) d with
                           | None => vset (KStr base) (VList []) d
                           | Some _ => d
                           end in
                  match vget (KStr base) d with
                  | Some arr =>
                      let '(arr', e) := merge_array rec v index arr in
                      (VDict (vset (KStr base) arr' d), e)
                  | None => (VDict d, None)
                  end
              | _ => (target, None)
              end
          end
      | None =>
          if is_dict v then
            match target with
            | VDict d =>
                match vget k d with
                | Some (VDict e) => let '(x', esc) := rec (VDict e) in (VDict (vset k x' d), esc)
                | _ => (VDict (vset k v d), None)
                end
            | _ => (target, Some AttributeError)
            end
          else match target with
               | VDict d => (VDict (vset k v d), None)
               | _ => (target, None)
               end
      end
  end.

Fixpoint deep_merge_patch (patch : value) (target : value) {struct patch} : value * option escape :=
  match patch with
  | VDict items =>
      (fix go (items : vdict) (target : value) : value * option escape :=
         match items with
         | [] => (target, None)
         | (k, v) :: items' =>
             match merge_key (deep_merge_patch v) k v target with
             | (target', None) => go items' target'
             | r => r
             end
         end) items target
  | _ => (target, Some AttributeError)
  end.

(** ** Merging plain patches *)

(** An induction principle that reaches the values of a dictionary. *)
Lemma value_dict_ind (P : value -> Prop) :
  (forall v, is_dict v = false -> P v) ->
  (forall d, Forall (fun kv => P kv.2) d -> P (VDict d)) ->
  forall v, P v.
Proof.
  intros Hn Hd. fix IH 1. intros [| | | | | |d]; [by apply Hn .. |].
  apply Hd. induction d as [|[k v] d IHd]; constructor; [apply IH | exact IHd].
Qed.

Definition merge_items := fix go (items : vdict) (target : value) : value * option escape :=
  match items with
  | [] => (target, None)
  | (k, v) :: items' =>
      match merge_key (deep_merge_patch v) k v target with
      | (target', None) => go items' target'
      | r => r
      end
  end.

Lemma deep_merge_dict items target : deep_merge_patch (VDict items) target = merge_items items target.
Proof. done. Qed.

(** A patch with no index in its keys, at any depth, and (as in parsed JSON) no key twice. *)
#[warnings="-register-all"]
Inductive plain : value -> Prop :=
| plain_leaf v : is_dict v = false -> plain v
| plain_dict d :
    NoDup d.*1 ->
    Forall (fun kv => exists s, kv.1 = KStr s /\ array_key s = None) d ->
    Forall (fun kv => plain kv.2) d ->
    plain (VDict d).

(** What one key of the merge should hold. *)
Definition overlay (old new : option value) : option value :=
  match new with
  | None => old
  | Some (VDict q) =>
      match old with
      | Some (VDict e) => Some (fst (deep_merge_patch (VDict q) (VDict e)))
      | _ => Some (VDict q)
      end
  | Some v => Some v
  end.

Lemma vget_set_same k v d : vget k (vset k v d) = Some v.
Proof.
  induction d as [|[k' v'] d IH]; simpl; [by rewrite bool_decide_eq_true_2 |].
  case_bool_decide; simpl; [by rewrite bool_decide_eq_true_2 |]. by rewrite bool_decide_eq_false_2.
Qed.

Lemma vget_set_other k k' v d : k <> k' -> vget k (vset k' v d) = vget k d.
Proof.
  intros Hne. induction d as [|[k2 v2] d IH]; simpl; [by rewrite bool_decide_eq_false_2 |].
  destruct (decide (k' = k2)) as [->|]; [rewrite (bool_decide_eq_true_2 (k2 = k2)) by done; simpl |].
  - by rewrite !bool_decide_eq_false_2.
  - rewrite (bool_decide_eq_false_2 (k' = k2)) by done. simpl. by rewrite IH.
Qed.

Lemma vset_same k v d : vget k d = Some v -> vset k v d = d.
Proof.
  induction d as [|[k' v'] d IH]; simpl; [done |].
  case_bool_decide as H; [by intros [= <-]; subst | by intros ?; rewrite IH].
Qed.

Lemma vget_notin k (d : vdict) : k ∉ d.*1 -> vget k d = None.
Proof.
  induction d as [|[k' v'] d IH]; simpl; [done |]. rewrite not_elem_of_cons. intros [Hne Hin].
  rewrite bool_decide_eq_false_2 by done. auto.
Qed.

Lemma vget_in k v (d : vdict) : NoDup d.*1 -> In (k, v) d -> vget k d = Some v.
Proof.
  induction d as [|[k' v'] d IH]; simpl; [done |]. intros [Hn Hd]%NoDup_cons [[= -> ->]|Hin].
  - by rewrite bool_decide_eq_true_2.
  - rewrite bool_decide_eq_false_2; [auto |]. intros <-. apply Hn.
    rewrite list_elem_of_fmap. exists (k, v). split; [done |]. by apply list_elem_of_In.
Qed.

(** Merging [v] under [k] changes nothing. *)
Definition settled (d : vdict) (kv : key * value) : Prop :=
  match kv.2 with
  | VDict q => exists e, vget kv.1 d = Some (VDict e) /\ deep_merge_patch (VDict q) (VDict e) = (VDict e, None)
  | v => vget kv.1 d = Some v
  end.

Definition plain_key (kv : key * value) : Prop := exists s, kv.1 = KStr s /\ array_key s = None.

Lemma merge_settled items d :
  Forall plain_key items -> Forall (settled d) items -> merge_items items (VDict d) = (VDict d, None).
Proof.
  intros Hk. induction Hk as [|[k v] items (s & Hs & Ha) Hk IH]; intros H; [done |].
  apply Forall_cons in H as [H1 H2]. simpl in Hs. subst k. simpl. rewrite Ha.
  unfold settled in H1. simpl in H1. destruct v as [| | | | | |q]; simpl;
    [by rewrite vset_same, IH by done .. |].
  destruct H1 as (e & He & Hm). rewrite He. cbn [deep_merge_patch] in Hm |- *. rewrite Hm.
  by rewrite vset_same, IH by done.
Qed.

(** The merge of one plain dictionary: total, key by key, stable when repeated, and the
    identity on the patch itself. *)
Definition merges_well (v : value) : Prop :=
  match v with
  | VDict p =>
      (forall d, exists d', deep_merge_patch (VDict p) (VDict d) = (VDict d', None) /\
         (forall k, vget k d' = overlay (vget k d) (vget k p)) /\ Forall (settled d') p) /\
      Forall (settled p) p /\ Forall plain_key p
  | _ => True
  end.

Lemma merge_again p d :
  merges_well (VDict p) -> Forall (settled d) p -> deep_merge_patch (VDict p) (VDict d) = (VDict d, None).
Proof. intros (_ & _ & Hk) H. rewrite deep_merge_dict. by apply merge_settled. Qed.

Lemma merge_one k v d :
  plain_key (k, v) -> merges_well v ->
  exists x, merge_key (deep_merge_patch v) k v (VDict d) = (VDict (vset k x d), None) /\
    overlay (vget k d) (Some v) = Some x /\ (forall d', vget k d' = Some x -> settled d' (k, v)).
Proof.
  intros (s & Hs & Ha) Hv. simpl in Hs. subst k. unfold merge_key. rewrite Ha.
  destruct v as [| | | | | |q]; simpl is_dict; cbv iota;
    [eexists; split; [reflexivity | split; [reflexivity | done]] .. |].
  pose proof Hv as (Hm & Hself & _).
  assert (forall d', vget (KStr s) d' = Some (VDict q) -> settled d' (KStr s, VDict q)) as Hown
    by (intros d' Hd'; exists q; split; [done | by apply merge_again]).
  destruct (vget (KStr s) d) as [[| | | | | |e]|] eqn:Ed;
    try (eexists; split; [reflexivity | split; [reflexivity | exact Hown]]).
  destruct (Hm e) as (e' & He' & _ & Hset). rewrite He'. eexists. split; [reflexivity |].
  split; [unfold overlay; by rewrite He' |]. intros d' Hd'. exists e'. split; [done |].
  by apply merge_again.
Qed.

Lemma settled_other d k x kv : kv.1 <> k -> settled d kv -> settled (vset k x d) kv.
Proof.
  intros Hne. unfold settled. rewrite vget_set_other by done. done.
Qed.

Lemma merge_items_well p d :
  NoDup p.*1 -> Forall plain_key p -> Forall (fun kv => merges_well kv.2) p ->
  exists d', merge_items p (VDict d) = (VDict d', None) /\
    (forall k, vget k d' = overlay (vget k d) (vget k p)) /\ Forall (settled d') p.
Proof.
  revert d. induction p as [|[k v] p IH]; intros d Hnd Hk Hw; [by exists d |].
  apply NoDup_cons in Hnd as [Hn Hnd]. apply Forall_cons in Hk as [Hk1 Hk], Hw as [Hw1 Hw].
  destruct (merge_one k v d Hk1 Hw1) as (x & Hm & Hov & Hst).
  destruct (IH (vset k x d) Hnd Hk Hw) as (d' & Hd' & Hget & Hset).
  assert (vget k d' = Some x) as Hkd.
  { by rewrite Hget, (vget_notin k p Hn), vget_set_same. }
  exists d'. split_and!.
  - cbn [merge_items]. by rewrite Hm.
  - intros k'. rewrite Hget. simpl. destruct (decide (k' = k)) as [->|Hne].
    + rewrite bool_decide_eq_true_2, (vget_notin k p Hn), vget_set_same, Hov by done. done.
    + by rewrite bool_decide_eq_false_2, vget_set_other.
  - constructor; [by apply Hst | done].
Qed.

Lemma plain_merges v : plain v -> merges_well v.
Proof.
  induction v as [v Hv|d IH] using value_dict_ind; intros H; [by destruct v |].
  inversion H as [? Hd|? Hnd Hk Hp]; subst; [done |].
  assert (Forall (fun kv => merges_well kv.2) d) as Hw.
  { apply Forall_forall. intros kv Hin. rewrite Forall_forall in IH, Hp. by apply IH, Hp. }
  split_and!; [| | exact Hk].
  - intros e. rewrite deep_merge_dict. by apply merge_items_well.
  - apply Forall_forall. intros [k v] Hin. rewrite Forall_forall in Hw. specialize (Hw _ Hin).
    pose proof (vget_in k v d Hnd (proj1 (list_elem_of_In _ _) Hin)) as Hg.
    unfold settled. simpl in *. destruct v as [| | | | | |q]; try exact Hg.
    exists q. split; [exact Hg |]. apply merge_again; [exact Hw |]. apply Hw.
Qed.

(** Merging a patch with plain keys into an object never fails and acts key by key: a
    key the patch does not name keeps its value, an object is merged into an object, and
    anything else is replaced by the patch's value; merging the same patch again changes
    nothing. *)
Theorem merge_plain_patch p d :
  plain (VDict p) ->
  exists d', deep_merge_patch (VDict p) (VDict d) = (VDict d', None) /\
    (forall k, vget k d' = overlay (vget k d) (vget k p)) /\
    deep_merge_patch (VDict p) (VDict d') = (VDict d', None).
Proof.
  intros H. pose proof (plain_merges _ H) as Hw. pose proof Hw as (Hm & _).
  destruct (Hm d) as (d' & H1 & H2 & H3). exists d'. split_and!; [done .. |].
  by apply merge_again.
Qed.

(** ** Array elements *)

(** A key [base[i]] on an array (an absent one counts as empty): the array reaches index
    [i], its new elements are empty objects, element [i] is the value and the rest is kept. *)
Theorem merge_array_element s base digits i v d l :
  array_key s = Some (base, digits) -> Str.py_int digits = Some i -> 0 <= i ->
  is_dict v = false -> default (VList []) (vget (KStr base) d) = VList l ->
  exists l', deep_merge_patch (VDict [(KStr s, v)]) (VDict d) = (VDict (vset (KStr base) (VList l') d), None) /\
    length l' = Nat.max (length l) (S (Z.to_nat i)) /\ l' !! Z.to_nat i = Some v /\
    (forall j, j <> Z.to_nat i -> (j < length l')%nat -> l' !! j = Some (default (VDict []) (l !! j))).
Proof.
  intros Ha Hi Hpos Hv Hl. set (n := Z.to_nat i).
  exists (<[n := v]> (extend l n)).
  assert (length (extend l n) = Nat.max (length l) (S n)) as Hlen
    by (unfold extend; rewrite length_app, length_replicate; lia).
  split_and!.
  - cbn [deep_merge_patch]. unfold merge_key. rewrite Ha, Hi.
    destruct (vget (KStr base) d) as [a|] eqn:Ed; simpl in Hl.
    + subst a. rewrite Ed. unfold merge_array. rewrite Hv. done.
    + injection Hl as <-. rewrite vget_set_same. unfold merge_array. rewrite Hv. fold n.
      f_equal. f_equal. clear -Ed. induction d as [|[k x] d IH]; simpl in *.
      * by rewrite bool_decide_eq_true_2.
      * case_bool_decide; [done |]. simpl. rewrite bool_decide_eq_false_2 by done. by rewrite IH.
  - by rewrite length_insert.
  - apply list_lookup_insert_eq. lia.
  - intros j Hj Hlt. rewrite length_insert in Hlt. rewrite list_lookup_insert_ne by done.
    unfold extend in *. destruct (decide (j < length l)%nat) as [Hjl|Hjl].
    + rewrite lookup_app_l by done. destruct (lookup_lt_is_Some_2 l j Hjl) as [x ->]. done.
    + rewrite lookup_app_r by lia. rewrite (lookup_ge_None_2 l j) by lia. simpl.
      apply lookup_replicate. split; [done | lia].
Qed.

(** ** Errors that escape *)

(** An object value for a key of a JSON array (or of any other value without keys) is not
    skipped like the other mismatches: the [AttributeError] leaves the merge, and the keys
    after it are not applied. *)
Theorem merge_escapes k s v items target :
  k = KStr s -> array_key s = None -> is_dict v = true -> is_dict target = false ->
  deep_merge_patch (VDict ((k, v) :: items)) target = (target, Some AttributeError) /\
  (forall w, is_dict w = false -> deep_merge_patch (VDict ((k, w) :: items)) target =
     deep_merge_patch (VDict items) target).
Proof.
  intros -> Ha Hv Ht. split.
  - cbn [deep_merge_patch]. unfold merge_key. rewrite Ha, Hv. by destruct target.
  - intros w Hw. cbn [deep_merge_patch]. unfold merge_key. rewrite Ha, Hw. by destruct target.
Qed.

(** ** Concrete instances *)

Definition demo_target : vdict :=
  [(KStr "a", VInt 1); (KStr "b", VDict [(KStr "x", VInt 2); (KStr "y", VInt 3)])].
Definition demo_patch : vdict :=
  [(KStr "b", VDict [(KStr "y", VStr "new")]); (KStr "c", VBool true)].

Lemma demo_patch_plain : plain (VDict demo_patch).
Proof.
  assert (plain (VDict [(KStr "y", VStr "new")])) as Hin.
  { apply plain_dict; [apply NoDup_singleton | |]; apply Forall_singleton;
      [by eexists | by apply plain_leaf]. }
  apply plain_dict.
  - apply (bool_decide_unpack _). vm_compute. exact I.
  - unfold demo_patch. apply Forall_cons. split; [by eexists | apply Forall_singleton; by eexists].
  - unfold demo_patch. apply Forall_cons. split; [exact Hin | apply Forall_singleton; by apply plain_leaf].
Qed.

Lemma merge_plain_patch_witness :
  exists d', deep_merge_patch (VDict demo_patch) (VDict demo_target) = (VDict d', None) /\
    vget (KStr "a") d' = Some (VInt 1).
Proof.
  destruct (merge_plain_patch demo_patch demo_target demo_patch_plain) as (d' & H1 & H2 & _).
  exists d'. split; [exact H1 | exact (H2 (KStr "a"))].
Defined.

Lemma merge_array_element_witness :
  exists l', fst (deep_merge_patch (VDict [(KStr "m[2]", VInt 7)]) (VDict [(KStr "m", VList [VInt 1])])) =
    VDict [(KStr "m", VList l')] /\ l' !! 2%nat = Some (VInt 7).
Proof.
  destruct (merge_array_element "m[2]" "m" "2" 2 (VInt 7) [(KStr "m", VList [VInt 1])] [VInt 1])
    as (l' & H1 & _ & H2 & _); [reflexivity | reflexivity | lia | reflexivity | reflexivity |].
  exists l'. split; [rewrite H1; reflexivity | exact H2].
Defined.

Lemma merge_escapes_witness :
  deep_merge_patch (VDict [(KStr "a", VDict []); (KStr "b", VInt 1)]) (VList []) =
    (VList [], Some AttributeError).
Proof. apply (merge_escapes (KStr "a") "a"); reflexivity. Defined.
