(* ===== verification/MockTemplate.v ===== *)
(** * Templates of the mock proxy

    [TemplateEngine] of [jumpstarter_driver_mitmproxy/bundled_addon.py]: expressions between
    double braces in the bodies of mocked responses and in patches. The clock, random numbers
    and identifiers are functions of the number of draws made before; [str] of a float or a
    container is a parameter. The theorems say what of the environment a template can see and
    how counters behave. *)

From stdpp Require Import base list strings pretty.
From Stdlib Require Import ZArith QArith Lia Ascii.
From S2P Require Import Prelude PyText MockValues.

Open Scope Z_scope.

(** ** What an expression can read *)

(** The request: headers and query are looked up by the proxy; [f_json] is the parsed body,
    [None] when it is no JSON (an empty body counts as an empty object). *)
Record Flow := mkFlow {
  f_path : string;
  f_header : string -> option string;
  f_query : string -> option string;
  f_text : option string;
  f_json : option value
}.

Record Sources := mkSources {
  now_iso : nat -> string;
  now_epoch : nat -> Z;
  uuid4 : nat -> string;
  randint : nat -> Z -> Z -> Z;
  (** [round(random.uniform(float(a), float(b)), 2)]; [None] when [a] or [b] is no number *)
  uniform : nat -> string -> string -> option Q;
  choice : nat -> list string -> string;
  repr : value -> string
}.

Record tstate := mkT { counters : list (string * Z); draws : nat }.

(** Evaluation; [None] is a [ValueError]. *)
Definition T (A : Type) : Type := tstate -> option A * tstate.

Definition tret {A} (a : A) : T A := fun st => (Some a, st).

Definition tbind {A B} (m : T A) (k : A -> T B) : T B := fun st =>
  match m st with
  | (Some a, st') => k a st'
  | (None, st') => (None, st')
  end.

Definition tfail {A} : T A := fun st => (None, st).

(** One use of the outside sources. *)
Definition draw {A} (f : nat -> A) : T A := fun st => (Some (f (draws st)), mkT (counters st) (S (draws st))).

(** ** Arguments *)

Definition is_quote (a : ascii) : bool :=
  Ascii.eqb a (ascii_of_nat 39) || Ascii.eqb a (ascii_of_nat 34).

Fixpoint lstrip_quotes (s : string) : string :=
  match s with
  | String a s' => if is_quote a then lstrip_quotes s' else s
  | EmptyString => EmptyString
  end.

Definition strip_quotes (s : string) : string :=
  Str.srev (lstrip_quotes (Str.srev (lstrip_quotes s))).

(** [_parse_args]: the text after the first opening and before the last closing
    parenthesis. *)
Definition parse_args (expr : string) : option (list string) :=
  match Str.split1 "("%char expr with
  | Some (_, rest) =>
      match Str.rsplit1 ")"%char rest with
      | Some (inner, _) => Some (map (fun a => strip_quotes (Str.strip a)) (Str.split_char ","%char inner))
      | None => None
      end
  | None => None
  end.

Definition with_args {A} (expr : string) (k : list string -> T A) : T A :=
  match parse_args expr with Some args => k args | None => tfail end.

(** ** Built-in expressions *)

Section Engine.

Context (src : Sources) (environ : string -> option string).

Definition eval_random_int (expr : string) : T value :=
  with_args expr (fun args =>
    match args with
    | a :: b :: _ =>
        match Str.py_int a, Str.py_int b with
        | Some lo, Some hi =>
            if lo <=? hi then tbind (draw (fun n => randint src n lo hi)) (fun z => tret (VInt z))
            else tret (VInt 0)
        | _, _ => tret (VInt 0)
        end
    | _ => tret (VInt 0)
    end).

Definition eval_random_float (expr : string) : T value :=
  with_args expr (fun args =>
    match args with
    | a :: b :: _ =>
        tbind (draw (fun n => uniform src n a b)) (fun r =>
          tret (VFloat (default 0%Q r)))
    | _ => tret (VFloat 0%Q)
    end).

Definition eval_random_choice (expr : string) : T value :=
  with_args expr (fun args =>
    if bool_decide (args = [] \/ args = [EmptyString]) then tret (VStr "")
    else tbind (draw (fun n => choice src n args)) (fun s => tret (VStr s))).

Definition bump (name : string) : T Z := fun st =>
  let n := default 0 (dict_get name (counters st)) + 1 in
  (Some n, mkT (dict_set name n (counters st)) (draws st)).

Definition eval_counter (expr : string) : T value :=
  with_args expr (fun args =>
    let name := match args with a :: _ => a | [] => "default"%string end in
    tbind (bump name) (fun n => tret (VInt n))).

Definition ALLOWED_ENV_VARS : list string :=
  ["JUMPSTARTER_ENV"; "JUMPSTARTER_DEVICE_ID"; "JUMPSTARTER_MOCK_PROFILE"; "JUMPSTARTER_REGION";
   "NODE_ENV"; "MOCK_SCENARIO"].

Definition eval_env (expr : string) : T value :=
  with_args expr (fun args =>
    match args with
    | [] => tret (VStr "")
    | var_name :: _ =>
        if bool_decide (var_name ∈ ALLOWED_ENV_VARS)
        then tret (VStr (default EmptyString (environ var_name)))
        else tret (VStr "")
    end).

Definition BUILTIN_DISPATCH : list (string * (string -> T value)) :=
  [("random_int(", eval_random_int); ("random_float(", eval_random_float);
   ("random_choice(", eval_random_choice); ("counter(", eval_counter); ("env(", eval_env)]%string.

(** The first handler whose prefix the expression has. *)
Fixpoint first_handler (table : list (string * (string -> T value))) (expr : string) : option (T value) :=
  match table with
  | [] => None
  | (prefix, handler) :: table' =>
      if Str.startswith prefix expr then Some (handler expr) else first_handler table' expr
  end.

(** [VNone] stands for [None], no result. *)
Definition evaluate_builtin (expr : string) : T value :=
  if String.eqb expr "now_iso" then tbind (draw (now_iso src)) (fun s => tret (VStr s))
  else if String.eqb expr "now_epoch" then tbind (draw (now_epoch src)) (fun z => tret (VInt z))
  else if String.eqb expr "uuid" then tbind (draw (uuid4 src)) (fun s => tret (VStr s))
  else match first_handler BUILTIN_DISPATCH expr with
       | Some m => m
       | None => tret VNone
       end.

(** ** Expressions of the request *)

Definition eval_request_header (flow : Flow) (expr : string) : T value :=
  with_args expr (fun args =>
    match args with
    | a :: _ => tret (VStr (default EmptyString (f_header flow a)))
    | [] => tret (VStr "")
    end).

Definition eval_request_body_json (flow : Flow) (expr : string) : T value :=
  with_args expr (fun args =>
    match args with
    | [] => tret VNone
    | a :: _ => match f_json flow with
                | None => tret VNone
                | Some body_obj => tret (resolve_dotted_path body_obj a)
                end
    end).

Definition eval_request_query (flow : Flow) (expr : string) : T value :=
  with_args expr (fun args =>
    match args with
    | a :: _ => tret (VStr (default EmptyString (f_query flow a)))
    | [] => tret (VStr "")
    end).

Definition path_segments (path : string) : list string :=
  List.filter (fun s => negb (String.eqb s "")) (Str.split_char "/"%char path).

Definition eval_request_path_segment (flow : Flow) (expr : string) : T value :=
  with_args expr (fun args =>
    match args with
    | [] => tret (VStr "")
    | a :: _ =>
        match Str.py_int a with
        | None => tret (VStr "")
        | Some i => tret (VStr (default EmptyString (list_index (path_segments (f_path flow)) i)))
        end
    end).

Definition FLOW_DISPATCH (flow : Flow) : list (string * (string -> T value)) :=
  [("request_header(", eval_request_header flow); ("request_body_json(", eval_request_body_json flow);
   ("request_query(", eval_request_query flow);
   ("request_path_segment(", eval_request_path_segment flow)]%string.

Definition evaluate_flow (expr : string) (flow : option Flow) : T value :=
  match flow with
  | None => tret VNone
  | Some flow =>
      if String.eqb expr "request_path" then tret (VStr (f_path flow))
      else if String.eqb expr "request_body" then tret (VStr (default EmptyString (f_text flow)))
      else match first_handler (FLOW_DISPATCH flow) expr with
           | Some m => m
           | None => tret VNone
           end
  end.

(** ** [state(...)] *)

Definition evaluate_state (expr : string) (state : option vdict) : T value :=
  with_args expr (fun args =>
    match args with
    | [] => tret VNone
    | k :: rest =>
        let fallback := match rest with d :: _ => VStr d | [] => VNone end in
        match state with
        | Some st => tret (default fallback (vget (KStr k) st))
        | None => tret fallback
        end
    end).

Definition braces (expr : string) : string := ("{{" ++ expr ++ "}}")%string.

(** [None] is not a result: the next kind of expression is tried. *)
Definition or_else (m : T value) (k : T value) : T value :=
  tbind m (fun v => match v with VNone => k | v => tret v end).

Definition evaluate (expr : string) (flow : option Flow) (state : option vdict) : T value :=
  or_else (evaluate_builtin expr)
    (or_else (evaluate_flow expr flow)
       (if Str.startswith "state(" expr then evaluate_state expr state
        else tret (VStr (braces expr)))).

(** ** Strings *)

(** [re.fullmatch] of two braces, at least one character that is no line end, two braces:
    the text between. *)
Definition fullmatch (s : string) : option string :=
  match s with
  | String "{" (String "{" rest) =>
      match Str.srev rest with
      | String "}" (String "}" r) =>
          let inner := Str.srev r in
          if negb (String.eqb inner "") && negb (Str.has_char Str.newline inner) then Some inner else None
      | _ => None
      end
  | _ => None
  end%char.

(** After the opening braces, the shortest text that is followed by two closing braces;
    [first]: at least one character is needed. *)
Fixpoint find_close (first : bool) (s : string) : option string :=
  match s with
  | EmptyString => None
  | String a s' =>
      if negb first && Str.startswith "}}" s then Some EmptyString
      else if Ascii.eqb a Str.newline then None
      else option_map (String a) (find_close false s')
  end.

Inductive token := Lit (a : ascii) | Expr (inner : string).

(** The matches of the pattern from left to right, and the characters between them; [skip]
    characters of the current match are left. *)
Fixpoint tokens (skip : nat) (s : string) : list token :=
  match s with
  | EmptyString => []
  | String a s' =>
      match skip with
      | S n => tokens n s'
      | O =>
          match s with
          | String "{"%char (String "{"%char rest) =>
              match find_close true rest with
              | Some inner => Expr inner :: tokens (String.length inner + 3) s'
              | None => Lit a :: tokens 0 s'
              end
          | _ => Lit a :: tokens 0 s'
          end
      end
  end.

(** [str(v)]. *)
Definition str_of (v : value) : string :=
  match v with
  | VStr s => s
  | VInt z => pretty z
  | VBool true => "True"
  | VBool false => "False"
  | VNone => "None"
  | v => repr src v
  end.

Fixpoint substitute (ts : list token) (flow : option Flow) (state : option vdict) : T string :=
  match ts with
  | [] => tret EmptyString
  | Lit a :: ts' => tbind (substitute ts' flow state) (fun s => tret (String a s))
  | Expr inner :: ts' =>
      tbind (evaluate (Str.strip inner) flow state) (fun v =>
        tbind (substitute ts' flow state) (fun s => tret (str_of v ++ s)%string))
  end.

Definition render_string (s : string) (flow : option Flow) (state : option vdict) : T value :=
  match fullmatch (Str.strip s) with
  | Some inner => evaluate (Str.strip inner) flow state
  | None => tbind (substitute (tokens 0 s) flow state) (fun r => tret (VStr r))
  end.

Fixpoint render (template : value) (flow : option Flow) (state : option vdict) : T value :=
  match template with
  | VStr s => render_string s flow state
  | VDict d =>
      tbind ((fix go (d : vdict) : T vdict :=
                match d with
                | [] => tret []
                | (k, v) :: d' => tbind (render v flow state) (fun v' =>
                                    tbind (go d') (fun r => tret ((k, v') :: r)))
                end) d) (fun d' => tret (VDict d'))
  | VList l =>
      tbind ((fix go (l : list value) : T (list value) :=
                match l with
                | [] => tret []
                | v :: l' => tbind (render v flow state) (fun v' =>
                               tbind (go l') (fun r => tret (v' :: r)))
                end) l) (fun l' => tret (VList l'))
  | v => tret v
  end.

End Engine.

(** ** The environment a template can see *)

(** Computations with the same results. *)
Definition teq {A} (m n : T A) : Prop := forall st, m st = n st.

Lemma teq_refl {A} (m : T A) : teq m m.
Proof. by intros st. Qed.

Lemma teq_bind {A B} (m n : T A) (k l : A -> T B) :
  teq m n -> (forall a, teq (k a) (l a)) -> teq (tbind m k) (tbind n l).
Proof. intros H1 H2 st. unfold tbind. rewrite H1. destruct (n st) as [[a|] st']; [apply H2 | done]. Qed.

Lemma teq_or_else m n k l : teq m n -> teq k l -> teq (or_else m k) (or_else n l).
Proof. intros H1 H2. apply teq_bind; [done |]. intros a. destruct a; try apply teq_refl. exact H2. Qed.

Create HintDb teq.
#[local] Hint Resolve teq_refl teq_bind teq_or_else : teq.

Section Confined.

Context (src : Sources) (env1 env2 : string -> option string).
Hypothesis agree : forall v, v ∈ ALLOWED_ENV_VARS -> env1 v = env2 v.

Lemma eval_env_teq expr : teq (eval_env env1 expr) (eval_env env2 expr).
Proof.
  intros st. unfold eval_env, with_args. destruct (parse_args expr) as [[|a args]|]; [done | | done].
  case_bool_decide as H; [by rewrite (agree a H) | done].
Qed.

Lemma evaluate_teq expr flow state : teq (evaluate src env1 expr flow state) (evaluate src env2 expr flow state).
Proof.
  apply teq_or_else; [| auto with teq]. unfold evaluate_builtin, BUILTIN_DISPATCH, first_handler.
  repeat (case_match; simplify_eq; auto with teq).
  all: apply eval_env_teq.
Qed.

Lemma substitute_teq ts flow state :
  teq (substitute src env1 ts flow state) (substitute src env2 ts flow state).
Proof.
  induction ts as [|[a|inner] ts IH]; simpl; auto with teq.
  apply teq_bind; [apply evaluate_teq | auto with teq].
Qed.

Lemma render_string_teq s flow state :
  teq (render_string src env1 s flow state) (render_string src env2 s flow state).
Proof.
  unfold render_string. case_match; [apply evaluate_teq |].
  apply teq_bind; [apply substitute_teq | auto with teq].
Qed.

End Confined.

(** An induction principle that reaches all parts of a value. *)
Lemma value_parts_ind (P : value -> Prop) :
  (forall v, match v with VList _ | VDict _ => False | _ => True end -> P v) ->
  (forall l, Forall P l -> P (VList l)) ->
  (forall d, Forall (fun kv => P kv.2) d -> P (VDict d)) ->
  forall v, P v.
Proof.
  intros H0 Hl Hd. fix IH 1. intros [| | | | |l|d]; [by apply H0 .. | |].
  - apply Hl. induction l as [|v l IHl]; constructor; [apply IH | exact IHl].
  - apply Hd. induction d as [|[k v] d IHd]; constructor; [apply IH | exact IHd].
Qed.

(** C27: a template reads no environment variable but the six that are allowed: in two
    environments that agree on those, every template renders to the same value with the same
    effects, whatever expressions it contains. *)
Theorem env_confined src env1 env2 template flow state st :
  (forall v, v ∈ ALLOWED_ENV_VARS -> env1 v = env2 v) ->
  render src env1 template flow state st = render src env2 template flow state st.
Proof.
  intros agree. revert st. change (teq (render src env1 template flow state) (render src env2 template flow state)).
  induction template as [v Hv|l IH|d IH] using value_parts_ind.
  - destruct v; try apply teq_refl; [by apply render_string_teq | done | done].
  - apply teq_bind; [| auto with teq]. induction IH as [|v l Hv Hl IHl]; auto with teq.
  - apply teq_bind; [| auto with teq]. induction IH as [|[k v] d Hv Hd IHd]; auto with teq.
Qed.

(** ** Counters *)

Definition count_of (name : string) (st : tstate) : Z := default 0 (dict_get name (counters st)).

(** No counter goes down. *)
Definition grows {A} (m : T A) : Prop := forall st name, count_of name st <= count_of name (snd (m st)).

Lemma grows_ret {A} (a : A) : grows (tret a).
Proof. intros st name. simpl. lia. Qed.

Lemma grows_fail {A} : grows (@tfail A).
Proof. intros st name. simpl. lia. Qed.

Lemma grows_draw {A} (f : nat -> A) : grows (draw f).
Proof. intros st name. unfold count_of. simpl. lia. Qed.

Lemma grows_bind {A B} (m : T A) (k : A -> T B) : grows m -> (forall a, grows (k a)) -> grows (tbind m k).
Proof.
  intros H1 H2 st name. specialize (H1 st name). unfold tbind.
  destruct (m st) as [[a|] st']; simpl in *; [| done]. specialize (H2 a st' name). lia.
Qed.

Lemma bump_count st name other :
  count_of other (snd (bump name st)) =
  if String.eqb other name then count_of name st + 1 else count_of other st.
Proof.
  unfold count_of, bump. simpl. destruct (String.eqb_spec other name) as [->|Hne].
  - by rewrite dict_get_set_same.
  - by rewrite dict_get_set_other.
Qed.

Lemma grows_bump name : grows (bump name).
Proof. intros st other. rewrite bump_count. destruct (String.eqb_spec other name) as [->|]; lia. Qed.

Lemma grows_with_args {A} expr (k : list string -> T A) : (forall a, grows (k a)) -> grows (with_args expr k).
Proof. intros H. unfold with_args. destruct (parse_args expr); [apply H | apply grows_fail]. Qed.

Create HintDb grows.
#[local] Hint Resolve grows_ret grows_fail grows_draw grows_bind grows_bump grows_with_args : grows.

(** Unfolds the cases of an evaluator down to the primitive computations. *)
Ltac grow :=
  repeat first [ apply grows_with_args; intros ? | apply grows_bind; [| intros ?] | case_match; simplify_eq ];
  auto with grows.

Lemma grows_builtin src environ expr : grows (evaluate_builtin src environ expr).
Proof.
  unfold evaluate_builtin, BUILTIN_DISPATCH, first_handler, eval_random_int, eval_random_float,
    eval_random_choice, eval_counter, eval_env. grow.
Qed.

Lemma grows_flow expr flow : grows (evaluate_flow expr flow).
Proof.
  unfold evaluate_flow, FLOW_DISPATCH, first_handler, eval_request_header, eval_request_body_json,
    eval_request_query, eval_request_path_segment. grow.
Qed.

Lemma grows_evaluate src environ expr flow state : grows (evaluate src environ expr flow state).
Proof.
  unfold evaluate, or_else, evaluate_state.
  apply grows_bind; [apply grows_builtin | intros a; destruct a; auto with grows].
  apply grows_bind; [apply grows_flow | intros a; destruct a; auto with grows]. grow.
Qed.

#[local] Hint Resolve grows_evaluate : grows.

Lemma grows_substitute src environ ts flow state : grows (substitute src environ ts flow state).
Proof. induction ts as [|[a|inner] ts IH]; simpl; auto with grows. Qed.

#[local] Hint Resolve grows_substitute : grows.

(** Counters only ever go up: no template, also one that fails half way, lowers a
    counter, and a counter expression raises its own counter by one, leaves the others alone
    and renders to the new value. *)
Theorem counters_increase src environ template flow state st name :
  count_of name st <= count_of name (snd (render src environ template flow state st)) /\
  (forall expr a rest, parse_args expr = Some (a :: rest) -> Str.startswith "counter(" expr = true ->
     exists st', evaluate src environ expr flow state st = (Some (VInt (count_of a st + 1)), st') /\
       count_of name st' = if String.eqb name a then count_of a st + 1 else count_of name st).
Proof.
  split.
  - revert st name. change (grows (render src environ template flow state)).
    induction template as [v Hv|l IH|d IH] using value_parts_ind.
    + destruct v; simpl; auto with grows; [| done | done]. unfold render_string.
      case_match; [apply grows_evaluate | apply grows_bind; auto with grows].
    + apply grows_bind; [| auto with grows]. induction IH as [|v l Hv Hl IHl]; auto with grows.
    + apply grows_bind; [| auto with grows]. induction IH as [|[k v] d Hv Hd IHd]; auto with grows.
  - intros expr a rest Ha Hp.
    exists (snd (bump a st)). rewrite bump_count. split; [| done].
    destruct expr as [|c expr]; [done |]. pose proof Hp as Hc. cbn [Str.startswith] in Hc.
    apply andb_true_iff in Hc as [Hc%Ascii.eqb_eq _]. subst c.
    unfold evaluate, or_else, tbind, evaluate_builtin.
    change (String.eqb (String "c" expr) _) with false. cbv iota.
    unfold BUILTIN_DISPATCH, first_handler. cbn [Str.startswith] in Hp |- *.
    change (Ascii.eqb "r" "c") with false. cbn [andb]. rewrite Hp.
    unfold eval_counter, with_args. rewrite Ha. reflexivity.
Qed.

(** ** Strings *)

Lemma strip_ends a m b :
  Str.is_space a = false -> Str.is_space b = false ->
  Str.strip (String a (m ++ String b "")) = String a (m ++ String b "").
Proof.
  intros Ha Hb. unfold Str.strip, Str.rstrip. cbn [Str.lstrip]. rewrite Ha.
  change (String a (m ++ String b "")) with (String a m ++ String b "")%string.
  rewrite Str.srev_app. change (Str.srev (String b "")) with (String b "").
  change (String b "" ++ Str.srev (String a m))%string with (String b (Str.srev (String a m))).
  cbn [Str.lstrip]. rewrite Hb. rewrite Str.srev_cons, Str.srev_involutive. done.
Qed.

(** The pattern matches a whole string that starts and ends with double braces, whatever
    braces are in between. *)
Lemma fullmatch_braces inner :
  inner <> EmptyString -> Str.has_char Str.newline inner = false ->
  fullmatch (Str.strip (braces inner)) = Some inner.
Proof.
  intros Hne Hnl. unfold braces.
  assert (Str.srev (inner ++ "}}") = String "}" (String "}" (Str.srev inner)))%char as Hrev
    by (rewrite Str.srev_app; done).
  assert ((inner ++ "}") ++ "}" = inner ++ "}}")%string as Hcat by apply Str.sapp_assoc.
  pose proof (strip_ends "{"%char (String "{"%char (inner ++ "}")) "}"%char eq_refl eq_refl) as Hs.
  rewrite Str.sapp_cons, Hcat in Hs.
  change ("{{" ++ inner ++ "}}")%string with (String "{" (String "{" (inner ++ "}}")))%char. rewrite Hs.
  unfold fullmatch. rewrite Hrev, Str.srev_involutive, Hnl. by destruct inner.
Qed.

(** A string that starts with one expression and ends with another is not rendered at
    all: the pattern for a single expression matches it as a whole, its text is no known
    expression, and the braces are returned as they are. *)
Theorem adjacent_expressions_kept src environ sep flow state st :
  Str.has_char Str.newline sep = false ->
  let s := (braces "now_iso" ++ sep ++ braces "now_iso")%string in
  render src environ (VStr s) flow state st = (Some (VStr s), st).
Proof.
  intros Hsep. cbv zeta. set (inner := ("now_iso}}" ++ sep ++ "{{now_iso")%string).
  assert (braces "now_iso" ++ sep ++ braces "now_iso" = braces inner)%string as ->.
  { unfold braces, inner. rewrite !Str.sapp_assoc. done. }
  cbn [render]. unfold render_string. rewrite fullmatch_braces.
  - assert (Str.strip inner = inner) as ->.
    { pose proof (strip_ends "n"%char ("ow_iso}}" ++ sep ++ "{{now_is") "o"%char eq_refl eq_refl) as H.
      rewrite !Str.sapp_assoc in H. exact H. }
    unfold inner, evaluate, or_else, evaluate_flow. by destruct flow.
  - done.
  - unfold inner. rewrite !Str.has_char_app, Hsep. done.
Qed.

(** ** Concrete instances *)

Definition demo_sources : Sources :=
  mkSources (fun n => ("t" ++ pretty n)%string) (fun n => Z.of_nat n) (fun n => ("u" ++ pretty n)%string)
    (fun _ lo _ => lo) (fun _ _ _ => None) (fun _ l => default EmptyString (head l)) (fun _ => "?"%string).

Definition demo_flow : Flow :=
  mkFlow "/api/v1?x=1" (fun _ => None) (fun _ => None) None (Some (VDict [])).

Definition demo_render (s : string) : option value * tstate :=
  render demo_sources (fun _ => Some "secret"%string) (VStr s) (Some demo_flow) None (mkT [] 0).

Example demo_templates :
  fst (demo_render "id {{ uuid }}, {{counter(a)}} and {{counter('a')}}") = Some (VStr "id u0, 1 and 2") /\
  fst (demo_render " {{counter(a)}} ") = Some (VInt 1) /\
  fst (demo_render "{{env(HOME)}}") = Some (VStr "") /\
  fst (demo_render "{{env(NODE_ENV)}}") = Some (VStr "secret") /\
  fst (demo_render "{{request_body_json(a)}}") = Some (VStr "{{request_body_json(a)}}") /\
  fst (demo_render "{{counter(a}}") = None.
Proof. by vm_compute. Qed.

Lemma env_confined_witness :
  render demo_sources (fun _ => None) (VStr "{{env(HOME)}}") None None (mkT [] 0) =
  render demo_sources (fun v => if String.eqb v "HOME" then Some "x"%string else None)
    (VStr "{{env(HOME)}}") None None (mkT [] 0).
Proof.
  apply (env_confined demo_sources). intros v Hv.
  destruct (String.eqb_spec v "HOME") as [->|]; [| reflexivity].
  exfalso. revert Hv. apply (bool_decide_unpack _). vm_compute. exact I.
Defined.

Lemma counters_increase_witness :
  exists st', evaluate demo_sources (fun _ => None) "counter(a)" None None (mkT [("a"%string, 4)] 0) =
    (Some (VInt 5), st').
Proof.
  destruct (counters_increase demo_sources (fun _ => None) VNone None None (mkT [("a"%string, 4)] 0) "a")
    as [_ H].
  destruct (H "counter(a)"%string "a"%string [] eq_refl eq_refl) as (st' & Hst & _).
  exists st'. exact Hst.
Defined.

Lemma adjacent_expressions_kept_witness :
  demo_render "{{now_iso}} {{now_iso}}" = (Some (VStr "{{now_iso}} {{now_iso}}"), mkT [] 0).
Proof. exact (adjacent_expressions_kept demo_sources _ " " (Some demo_flow) None (mkT [] 0) eq_refl). Defined.
