(* ===== verification/MockServer.v ===== *)
(** * The mock proxy

    [MitmproxyMockAddon] of [jumpstarter_driver_mitmproxy/bundled_addon.py]: which endpoint of
    the configuration answers a request, response sequences, rules, patches of real responses,
    files, custom addons and capture events. The proxy itself, the custom addon scripts, the
    file system and JSON printing are parameters. Configurations are parsed: an endpoint is a
    record of the fields the code reads. Times are in milliseconds. *)

From stdpp Require Import base list strings pretty sorting.
From Stdlib Require Import ZArith QArith Lia Ascii.
From S2P Require Import Prelude PyText MockValues MockTemplate.

Open Scope Z_scope.

Abbreviation headers := (list (string * string)).
Abbreviation bytes := (list Z).

(** ** Configuration *)

Record match_rules := mkMatch {
  m_headers : headers;
  m_headers_absent : list string;
  m_query : list (string * string);
  m_body_contains : string;
  m_body_json : list (string * value)
}.

(** A response: of an endpoint, of a rule or of a step of a sequence. *)
Record step := mkStep {
  s_status : Z;
  s_content_type : option string;
  s_latency_ms : option Z;
  s_headers : option headers;
  s_file : option string;
  s_body_template : option value;
  s_body : option value;
  s_delay_ms : option Z;
  s_repeat : option nat
}.

Record rule := mkRule { r_match : option match_rules; r_sequence : option (list step); r_step : step }.

Record endpoint := mkEndpoint {
  ep_priority : Z;
  ep_match : option match_rules;
  ep_addon : option string;
  ep_rules : option (list rule);
  ep_sequence : option (list step);
  ep_patch : option value;
  ep_step : step
}.

Record config := mkConfig {
  default_content_type : option string;
  default_latency_ms : option Z;
  c_files_dir : option (list string)
}.

Definition no_config : config := mkConfig None None None.

(** A configuration file: with an ["endpoints"] key, or flat. *)
Inductive raw_config := V2 (c : config) (eps : list (string * endpoint)) | V1 (eps : list (string * endpoint)).

(** ** Conditions *)

Definition present (o : option string) (v : string) : bool :=
  match o with
  | None => false
  | Some actual => negb (truthy v && negb (String.eqb actual v))
  end.

Definition check_headers (m : match_rules) (flow : Flow) : bool :=
  forallb (fun hv => present (f_header flow hv.1) hv.2) (m_headers m).

Definition check_headers_absent (m : match_rules) (flow : Flow) : bool :=
  forallb (fun h => negb (is_some (f_header flow h))) (m_headers_absent m).

Definition check_query (m : match_rules) (flow : Flow) : bool :=
  forallb (fun pv => present (f_query flow pv.1) pv.2) (m_query m).

Definition check_body_contains (m : match_rules) (flow : Flow) : bool :=
  if truthy (m_body_contains m)
  then Str.str_contains (m_body_contains m) (default EmptyString (f_text flow)) else true.

Definition check_body_json (m : match_rules) (flow : Flow) : bool :=
  match m_body_json m with
  | [] => true
  | fields => match f_json flow with
              | None => false
              | Some body_obj => forallb (fun fe => py_eqb (resolve_dotted_path body_obj fe.1) fe.2) fields
              end
  end.

Definition matches_conditions (m : option match_rules) (flow : Flow) : bool :=
  match m with
  | None => true
  | Some m => check_headers m flow && check_headers_absent m flow && check_query m flow &&
              check_body_contains m flow && check_body_json m flow
  end.

(** ** Finding an endpoint *)

Record candidate := mkCandidate { cand_priority : Z; cand_key : string; cand_ep : endpoint }.

Definition is_websocket (flow : Flow) : bool :=
  String.eqb (Str.lower (default EmptyString (f_header flow "Upgrade"))) "websocket".

Fixpoint lstrip_stars (s : string) : string :=
  match s with
  | String a s' => if Ascii.eqb a "*"%char then lstrip_stars s' else s
  | EmptyString => EmptyString
  end.

(** [s.rstrip("*")]. *)
Definition rstrip_stars (s : string) : string := Str.srev (lstrip_stars (Str.srev s)).

Definition ends_with_star (s : string) : bool :=
  match last_char s with Some a => Ascii.eqb a "*"%char | None => false end.

(** Whether a wildcard pattern covers a request. *)
Definition wildcard_match (pattern method path : string) (websocket : bool) : bool :=
  ends_with_star pattern &&
  match Str.split1 " "%char pattern with
  | Some (pat_method, pat_path) =>
      (String.eqb pat_method "*" || String.eqb pat_method method ||
       (websocket && String.eqb pat_method "WEBSOCKET")) &&
      Str.startswith (rstrip_stars pat_path) path
  | None => false
  end.

Definition candidate_if (flow : Flow) (key : string) (ep : endpoint) : list candidate :=
  if matches_conditions (ep_match ep) flow then [mkCandidate (ep_priority ep) key ep] else [].

Definition collect_wildcard_matches (endpoints : list (string * endpoint)) (method path : string)
    (flow : Flow) : list candidate :=
  List.flat_map (fun pe => if wildcard_match pe.1 method path (is_websocket flow)
                           then candidate_if flow pe.1 pe.2 else []) endpoints.

Definition check_keys (method path : string) (flow : Flow) : list string :=
  (method ++ " " ++ path)%string ::
  (if is_websocket flow then [("WEBSOCKET " ++ path)%string] else []).

Definition exact_matches (endpoints : list (string * endpoint)) (method path : string) (flow : Flow)
    : list candidate :=
  List.flat_map (fun key => match dict_get key endpoints with
                            | Some ep => candidate_if flow key ep
                            | None => []
                            end) (check_keys method path flow).

Definition candidates (endpoints : list (string * endpoint)) (method path : string) (flow : Flow)
    : list candidate :=
  exact_matches endpoints method path flow ++ collect_wildcard_matches endpoints method path flow.

(** The sort key: priority from high to low, then length from long to short. *)
Definition cand_leb (a b : candidate) : bool :=
  (cand_priority b <? cand_priority a) ||
  ((cand_priority a =? cand_priority b) &&
   (String.length (cand_key b) <=? String.length (cand_key a))%nat).

(** A stable sort: an element goes behind those that are not after it. *)
Fixpoint insert_cand (c : candidate) (l : list candidate) : list candidate :=
  match l with
  | [] => [c]
  | x :: l' => if cand_leb x c then x :: insert_cand c l' else c :: l
  end.

Definition sort_candidates (l : list candidate) : list candidate :=
  fold_left (fun acc c => insert_cand c acc) l [].

Definition find_endpoint (endpoints : list (string * endpoint)) (method path : string) (flow : Flow)
    : option (string * endpoint) :=
  match sort_candidates (candidates endpoints method path flow) with
  | [] => None
  | c :: _ => Some (cand_key c, cand_ep c)
  end.

(** ** Sequences *)

(** The step for the [call_num]-th call, counting from 0: the loop of
    [_handle_sequence_counted]; [None] is the [IndexError] of an empty sequence. *)
Fixpoint counted_loop (sequence : list step) (call_num position : nat) : option step :=
  match sequence with
  | [] => None
  | s :: sequence' =>
      match s_repeat s with
      | None => Some s
      | Some n => if (call_num <? position + n)%nat then Some s
                  else counted_loop sequence' call_num (position + n)
      end
  end.

Definition counted_step (sequence : list step) (call_num : nat) : option step :=
  match counted_loop sequence call_num 0 with
  | Some s => Some s
  | None => last sequence
  end.

(** The loop of [_handle_sequence_timed]. *)
Fixpoint timed_loop (sequence : list step) (elapsed_ms : Z) (active : step) : step :=
  match sequence with
  | [] => active
  | s :: sequence' =>
      if default 0 (s_delay_ms s) <=? elapsed_ms then timed_loop sequence' elapsed_ms s else active
  end.

Definition timed_step (sequence : list step) (elapsed_ms : Z) : option step :=
  match sequence with
  | [] => None
  | s :: _ => Some (timed_loop sequence elapsed_ms s)
  end.

Definition has_delays (sequence : list step) : bool := existsb (fun s => is_some (s_delay_ms s)) sequence.

(** ** State *)

Record addon := mkAddon {
  a_config : config;
  endpoints : list (string * endpoint);
  files_dir : list string;
  config_mtime : Z;
  sequence_state : list (string * nat);
  sequence_start : list (string * Z);
  shared_state : vdict;
  state_mtime : Z;
  tstate_of : tstate;
  spool_counter : nat
}.

Definition with_tstate (a : addon) (t : tstate) : addon :=
  mkAddon (a_config a) (endpoints a) (files_dir a) (config_mtime a) (sequence_state a)
    (sequence_start a) (shared_state a) (state_mtime a) t (spool_counter a).

Definition with_sequence (a : addon) (counts : list (string * nat)) (starts : list (string * Z)) : addon :=
  mkAddon (a_config a) (endpoints a) (files_dir a) (config_mtime a) counts starts
    (shared_state a) (state_mtime a) (tstate_of a) (spool_counter a).

Record response := mkResponse { rs_status : Z; rs_body : bytes; rs_headers : headers }.

(** What the request hook did to the flow: the mocked response, whether it is marked as
    mocked, and the patch to apply to the real response. *)
Record outcome := mkOutcome {
  o_response : option response;
  o_mocked : bool;
  o_patch : option value;
  o_patch_headers : option headers
}.

Definition passthrough : outcome := mkOutcome None false None None.

(** What a custom addon's handler does: it raises, or says whether it handled the request. *)
Inductive handled := HandlerRaises (text : string) | Handled (b : bool) (r : option response).

Section Server.

Context (src : Sources) (environ : string -> option string).
(** [json.dumps(v).encode()]. *)
Context (dumps : value -> bytes).
(** [Path.resolve], and the contents of an existing file that can be read. *)
Context (resolve : list string -> option (list string)) (contents : list string -> option bytes).
(** The handler of an addon; [None] when there is none. *)
Context (get_handler : string -> option (Flow -> handled)).
(** The directory next to the configuration. *)
Context (mock_parent : list string).

(** ** Reloading *)

(** A file: its modification time and its data, [None] when it cannot be read or parsed. *)
Definition load_config (file : option (Z * option raw_config)) (a : addon) : addon :=
  match file with
  | None => a
  | Some (mtime, raw) =>
      if mtime <=? config_mtime a then a
      else match raw with
           | None => a
           | Some raw =>
               let '(c, eps) := match raw with V2 c eps => (c, eps) | V1 eps => (no_config, eps) end in
               mkAddon c eps (default (mock_parent ++ ["mock-files"%string]) (c_files_dir c)) mtime
                 (sequence_state a) (sequence_start a) (shared_state a) (state_mtime a)
                 (tstate_of a) (spool_counter a)
           end
  end.

Definition load_state (file : option (Z * option vdict)) (a : addon) : addon :=
  match file with
  | Some (mtime, Some d) =>
      if mtime <=? state_mtime a then a
      else mkAddon (a_config a) (endpoints a) (files_dir a) (config_mtime a) (sequence_state a)
             (sequence_start a) d mtime (tstate_of a) (spool_counter a)
  | _ => a
  end.

(** ** Files *)

(** The components of a path, and whether it is absolute. *)
Definition path_of (s : string) : bool * list string :=
  (Str.startswith "/" s,
   List.filter (fun p => negb (String.eqb p "") && negb (String.eqb p ".")) (Str.split_char "/"%char s)).

Definition join_path (root : list string) (relative : string) : list string :=
  let '(absolute, parts) := path_of relative in
  if absolute then parts else root ++ parts.

Definition read_file (root : list string) (relative_path : string) : option bytes :=
  match resolve (join_path root relative_path), resolve root with
  | Some file_path, Some dir =>
      if bool_decide (dir = take (length dir) file_path) then contents file_path else None
  | _, _ => None
  end.

(** ** Responses *)

Definition json_error (text : string) : response :=
  mkResponse 500 (dumps (VDict [(KStr "error", VStr text)])) [("Content-Type", "application/json")]%string.

Definition body_bytes (v : value) : bytes :=
  match v with
  | VDict _ | VList _ => dumps v
  | VStr s => Utf8.of_string s
  | v => Utf8.of_string (str_of src v)
  end.

Definition response_headers (a : addon) (s : step) : headers :=
  dict_update [("Content-Type"%string,
                default (default "application/json"%string (default_content_type (a_config a)))
                  (s_content_type s))]
    (default [] (s_headers s)).

Definition latency_ms (a : addon) (s : step) : Z :=
  default (default 0 (default_latency_ms (a_config a))) (s_latency_ms s).

Definition mocked (r : response) : outcome := mkOutcome (Some r) true None None.

(** [_send_response]; [None] is a [ValueError] of a template. *)
Definition send_response (flow : Flow) (s : step) (a : addon) : option outcome * addon :=
  let hs := response_headers a s in
  match s_file s with
  | Some file =>
      match read_file (files_dir a) file with
      | None => (Some (mkOutcome (Some (json_error ("Mock file not found: " ++ file))) false None None), a)
      | Some body => (Some (mocked (mkResponse (s_status s) body hs)), a)
      end
  | None =>
      match s_body_template s with
      | Some t =>
          let '(r, t') := render src environ t (Some flow) (Some (shared_state a)) (tstate_of a) in
          (match r with
           | Some v => Some (mocked (mkResponse (s_status s) (dumps v) hs))
           | None => None
           end, with_tstate a t')
      | None =>
          (Some (mocked (mkResponse (s_status s) (match s_body s with Some v => body_bytes v | None => [] end) hs)), a)
      end
  end.

(** [_build_mock_response], for the steps of a timed sequence: no template, and a missing
    file is an empty body. *)
Definition build_mock_response (s : step) (a : addon) : outcome :=
  mocked (mkResponse (s_status s)
    (match s_file s with
     | Some file => default [] (read_file (files_dir a) file)
     | None => match s_body s with Some v => body_bytes v | None => [] end
     end) (response_headers a s)).

(** ** Sequences, rules and addons *)

Definition call_count (key : string) (a : addon) : nat := default 0%nat (dict_get key (sequence_state a)).

(** The count goes up after the response was sent, and not when that fails. With a latency
    the handler sleeps in between, so this is the behaviour of requests that do not overlap. *)
Definition count_call (key : string) (a : addon) : addon :=
  with_sequence a (dict_set key (S (call_count key a)) (sequence_state a)) (sequence_start a).

Definition handle_sequence_counted (flow : Flow) (key : string) (sequence : list step) (a : addon)
    : option outcome * addon :=
  match counted_step sequence (call_count key a) with
  | None => (None, a)
  | Some s =>
      match send_response flow s a with
      | (Some o, a') => (Some o, count_call key a')
      | (None, a') => (None, a')
      end
  end.

Definition handle_sequence_timed (now : Z) (key : string) (sequence : list step) (a : addon)
    : option outcome * addon :=
  let start := default now (dict_get key (sequence_start a)) in
  let a := with_sequence a (sequence_state a) (dict_set key start (sequence_start a)) in
  match timed_step sequence (now - start) with
  | None => (None, a)
  | Some s => (Some (build_mock_response s a), a)
  end.

Definition handle_sequence (now : Z) (flow : Flow) (key : string) (sequence : list step) (a : addon)
    : option outcome * addon :=
  if has_delays sequence then handle_sequence_timed now key sequence a
  else handle_sequence_counted flow key sequence a.

Fixpoint handle_rules (now : Z) (flow : Flow) (key : string) (rules : list rule) (a : addon)
    : option outcome * addon :=
  match rules with
  | [] => (Some passthrough, a)
  | r :: rules' =>
      if matches_conditions (r_match r) flow then
        match r_sequence r with
        | Some sequence => handle_sequence now flow key sequence a
        | None => send_response flow (r_step r) a
        end
      else handle_rules now flow key rules' a
  end.

Definition handle_addon (flow : Flow) (name : string) : outcome :=
  match get_handler name with
  | None => mkOutcome (Some (json_error ("Addon not found: " ++ name))) false None None
  | Some handler =>
      match handler flow with
      | Handled b r => mkOutcome r b None None
      | HandlerRaises text => mkOutcome (Some (json_error ("Addon error: " ++ text))) false None None
      end
  end.

(** ** The request hook *)

Definition strip_headers (names : list string) (flow : Flow) : Flow :=
  mkFlow (f_path flow)
    (fun h => if existsb (fun n => String.eqb (Str.lower n) (Str.lower h)) names then None else f_header flow h)
    (f_query flow) (f_text flow) (f_json flow).

Definition value_truthy (v : value) : bool :=
  match v with
  | VNone => false
  | VBool b => b
  | VInt z => negb (z =? 0)
  | VFloat x => negb (Qeq_bool x 0)
  | VStr s => truthy s
  | VList l => match l with [] => false | _ => true end
  | VDict d => match d with [] => false | _ => true end
  end.

Definition path_without_query (flow : Flow) : string :=
  default EmptyString (head (Str.split_char "?"%char (f_path flow))).

(** The dispatch on the endpoint found. *)
Definition respond (now : Z) (flow : Flow) (key : string) (ep : endpoint) (a : addon)
    : option outcome * addon :=
  match ep_addon ep, ep_rules ep, ep_sequence ep, ep_patch ep with
  | Some name, _, _, _ => (Some (handle_addon flow name), a)
  | None, Some rules, _, _ => handle_rules now flow key rules a
  | None, None, Some sequence, _ => handle_sequence now flow key sequence a
  | None, None, None, Some patch => (Some (mkOutcome None false (Some patch) (s_headers (ep_step ep))), a)
  | None, None, None, None => send_response flow (ep_step ep) a
  end.

Definition request (now : Z) (config_file : option (Z * option raw_config))
    (state_file : option (Z * option vdict)) (method : string) (flow : Flow) (a : addon)
    : option outcome * addon :=
  let a := load_state state_file a in
  let flow := if value_truthy (default VNone (vget (KStr "strip_conditional_headers") (shared_state a)))
              then strip_headers ["If-Modified-Since"; "If-None-Match"; "If-Range"] flow else flow in
  let a := load_config config_file a in
  match find_endpoint (endpoints a) method (path_without_query flow) flow with
  | None => (Some passthrough, a)
  | Some (key, ep) => respond now flow key ep a
  end.

(** ** The response hook *)

(** A real or mocked response on its way to the client: [p_json] is the parsed body, [None]
    when it is no JSON. *)
Record passing := mkPassing { p_status : Z; p_body : bytes; p_json : option value; p_headers : headers }.

(** [headers.get("content-type", "")], whatever the case of the name. *)
Definition content_type_of (hs : headers) : string :=
  match List.find (fun kv => String.eqb (Str.lower kv.1) "content-type") hs with
  | Some (_, v) => v
  | None => EmptyString
  end.

(** [_apply_patches]: the new body, if the old one is JSON; [inr] is an exception that leaves
    the hook. *)
Definition apply_patches (p : passing) (patches : value) (flow : Flow) (a : addon)
    : (option bytes + unit) * addon :=
  match p_json p with
  | None => (inl None, a)
  | Some body =>
      let '(r, t') := render src environ patches (Some flow) (Some (shared_state a)) (tstate_of a) in
      (match r with
       | None => inr tt
       | Some rendered =>
           match deep_merge_patch rendered body with
           | (body', None) => inl (Some (dumps body'))
           | (_, Some _) => inr tt
           end
       end, with_tstate a t')
  end.

(** The capture event of a response: its status, body and marks. *)
Record event := mkEvent { ev_status : Z; ev_body : bytes; ev_mocked : bool; ev_patched : bool }.

(** [headers[k] = v] for the headers of a patch; [inr]: the hook raised before the event. *)
Definition response_hook (set_header : string -> string -> headers -> headers) (flow : Flow)
    (o : outcome) (p : passing) (a : addon) : (event * headers + unit) * addon :=
  let finish body patched a :=
    let hs := match o_patch_headers o with
              | Some ((_ :: _) as ph) => fold_left (fun hs kv => set_header kv.1 kv.2 hs) ph (p_headers p)
              | _ => p_headers p
              end in
    let is_mocked := o_mocked o || patched ||
      match o_patch_headers o with Some (_ :: _) => true | _ => false end in
    (inl (mkEvent (p_status p) body is_mocked patched, hs), a) in
  match o_patch o with
  | Some patch =>
      if value_truthy patch && Str.str_contains "json" (Str.lower (content_type_of (p_headers p))) then
        match apply_patches p patch flow a with
        | (inl (Some body), a') => finish body true a'
        | (inl None, a') => finish (p_body p) false a'
        | (inr _, a') => (inr tt, a')
        end
      else finish (p_body p) false a
  | None => finish (p_body p) false a
  end.

End Server.

(** ** The endpoint found is the best *)

Lemma cand_leb_iff a b :
  cand_leb a b = true <->
  cand_priority b < cand_priority a \/
  (cand_priority a = cand_priority b /\ (String.length (cand_key b) <= String.length (cand_key a))%nat).
Proof. unfold cand_leb. by rewrite orb_true_iff, andb_true_iff, Z.ltb_lt, Z.eqb_eq, Nat.leb_le. Qed.

Lemma cand_leb_total a b : cand_leb a b = false -> cand_leb b a = true.
Proof. rewrite <- not_true_iff_false, !cand_leb_iff. lia. Qed.

Lemma cand_leb_trans a b c : cand_leb a b = true -> cand_leb b c = true -> cand_leb a c = true.
Proof. rewrite !cand_leb_iff. lia. Qed.

(** The head of a sorted list comes before everything in it. *)
Definition headed (l : list candidate) : Prop :=
  match l with [] => True | c :: _ => Forall (fun x => cand_leb c x = true) l end.

Lemma cand_leb_refl c : cand_leb c c = true.
Proof. rewrite cand_leb_iff. lia. Qed.

Lemma insert_cand_perm c l : insert_cand c l ≡ₚ c :: l.
Proof.
  induction l as [|x l IH]; simpl; [done |]. destruct (cand_leb x c); [| done]. rewrite IH. constructor.
Qed.

Lemma insert_cand_headed c l : headed l -> headed (insert_cand c l).
Proof.
  destruct l as [|x l]; simpl; intros H.
  - by apply Forall_singleton, cand_leb_refl.
  - destruct (cand_leb x c) eqn:E; simpl.
    + apply Forall_cons in H as [Hx H]. constructor; [done |]. rewrite insert_cand_perm. by constructor.
    + apply cand_leb_total in E. constructor; [apply cand_leb_refl |].
      eapply Forall_impl; [exact H |]. intros y Hy. by eapply cand_leb_trans.
Qed.

Lemma sort_candidates_spec l :
  sort_candidates l ≡ₚ l /\ headed (sort_candidates l).
Proof.
  assert (forall acc, headed acc ->
    fold_left (fun acc c => insert_cand c acc) l acc ≡ₚ acc ++ l /\
    headed (fold_left (fun acc c => insert_cand c acc) l acc)) as H.
  { induction l as [|c l IH]; intros acc Hacc; simpl; [by rewrite app_nil_r |].
    destruct (IH (insert_cand c acc) (insert_cand_headed c acc Hacc)) as [H1 H2].
    split; [| done]. rewrite H1, insert_cand_perm. apply Permutation_middle. }
  exact (H [] I).
Qed.

(** A key of the configuration that covers a request. *)
Definition covers (key method path : string) (flow : Flow) : Prop :=
  key = (method ++ " " ++ path)%string \/
  (is_websocket flow = true /\ key = ("WEBSOCKET " ++ path)%string) \/
  wildcard_match key method path (is_websocket flow) = true.

Lemma candidate_if_in flow key ep c :
  In c (candidate_if flow key ep) ->
  c = mkCandidate (ep_priority ep) key ep /\ matches_conditions (ep_match ep) flow = true.
Proof. unfold candidate_if. destruct (matches_conditions _ flow); [| done]. by intros [<-|[]]. Qed.

Lemma dict_get_in {A} k (v : A) d : dict_get k d = Some v -> In (k, v) d.
Proof.
  induction d as [|[k' v'] d IH]; simpl; [done |].
  destruct (String.eqb_spec k k') as [->|]; [intros [= ->]; by left | auto].
Qed.

Lemma dict_get_nodup {A} k (v : A) d : NoDup (map fst d) -> In (k, v) d -> dict_get k d = Some v.
Proof.
  induction d as [|[k' v'] d IH]; [done |]. simpl. intros [Hn Hnd]%NoDup_cons [[= -> ->]|Hin];
    [by rewrite String.eqb_refl |].
  destruct (String.eqb_spec k k') as [->|]; [| auto]. exfalso. apply Hn, list_elem_of_In, in_map_iff.
  by exists (k', v).
Qed.

Lemma candidates_sound eps method path flow c :
  In c (candidates eps method path flow) ->
  In (cand_key c, cand_ep c) eps /\ covers (cand_key c) method path flow /\
  matches_conditions (ep_match (cand_ep c)) flow = true /\ cand_priority c = ep_priority (cand_ep c).
Proof.
  unfold candidates, exact_matches, collect_wildcard_matches. rewrite in_app_iff, !in_flat_map.
  intros [(key & Hkey & Hin)|([pat ep] & Hep & Hin)].
  - destruct (dict_get key eps) as [ep|] eqn:E; [| done].
    apply candidate_if_in in Hin as [-> Hm]. simpl. split_and!; [by apply dict_get_in | | done | done].
    unfold covers. simpl in Hkey. destruct Hkey as [<-|Hkey]; [by left |].
    destruct (is_websocket flow); [| done]. destruct Hkey as [<-|[]]. auto.
  - simpl in Hin. destruct (wildcard_match pat method path (is_websocket flow)) eqn:E; [| done].
    apply candidate_if_in in Hin as [-> Hm]. simpl. split_and!; [done | | done | done].
    right. by right.
Qed.

Lemma candidates_complete eps method path flow key ep :
  NoDup (map fst eps) -> In (key, ep) eps -> covers key method path flow ->
  matches_conditions (ep_match ep) flow = true ->
  In (mkCandidate (ep_priority ep) key ep) (candidates eps method path flow).
Proof.
  intros Hnd Hin Hc Hm. unfold candidates. rewrite in_app_iff.
  assert (In (mkCandidate (ep_priority ep) key ep) (candidate_if flow key ep)) as Hci
    by (unfold candidate_if; rewrite Hm; by left).
  pose proof (dict_get_nodup _ _ _ Hnd Hin) as Hg.
  destruct Hc as [->|[[Hw ->]|Hw]].
  - left. apply in_flat_map. eexists. split; [by left |]. by rewrite Hg.
  - left. apply in_flat_map. exists ("WEBSOCKET " ++ path)%string. unfold check_keys. rewrite Hw.
    split; [by right; left |]. by rewrite Hg.
  - right. apply in_flat_map. exists (key, ep). split; [done |]. simpl. by rewrite Hw.
Qed.

(** The sorting decides by priority and then by length, whatever the kind of the key. *)
Lemma found_is_best eps method path flow :
  NoDup (map fst eps) ->
  let fits key ep := In (key, ep) eps /\ covers key method path flow /\
                     matches_conditions (ep_match ep) flow = true in
  match find_endpoint eps method path flow with
  | Some (key, ep) =>
      fits key ep /\
      (forall key' ep', fits key' ep' ->
         ep_priority ep' < ep_priority ep \/
         (ep_priority ep' = ep_priority ep /\ (String.length key' <= String.length key)%nat))
  | None => forall key ep, ~ fits key ep
  end.
Proof.
  intros Hnd fits. unfold find_endpoint.
  destruct (sort_candidates_spec (candidates eps method path flow)) as [Hperm Hhead].
  destruct (sort_candidates (candidates eps method path flow)) as [|c l] eqn:Es.
  - intros key ep (H1 & H2 & H3). pose proof (candidates_complete _ _ _ _ _ _ Hnd H1 H2 H3) as Hin.
    apply Permutation_nil in Hperm. by rewrite Hperm in Hin.
  - assert (In c (candidates eps method path flow)) as Hin
      by (eapply Permutation_in; [exact Hperm | by left]).
    apply candidates_sound in Hin as (H1 & H2 & H3 & H4). split; [done |].
    intros key' ep' (G1 & G2 & G3). pose proof (candidates_complete _ _ _ _ _ _ Hnd G1 G2 G3) as Hin'.
    eapply Permutation_in in Hin'; [| symmetry; exact Hperm].
    cbn [headed] in Hhead. rewrite Forall_forall in Hhead. specialize (Hhead _ (proj2 (list_elem_of_In _ _) Hin')).
    rewrite cand_leb_iff in Hhead. simpl in Hhead. lia.
Qed.



(** ** Wildcards and exact keys *)

Lemma lstrip_stars_suffix s : exists t, s = (t ++ lstrip_stars s)%string.
Proof.
  induction s as [|a s [t IH]]; simpl; [by exists EmptyString |].
  destruct (Ascii.eqb a "*"%char); [| by exists EmptyString].
  exists (String a t). rewrite Str.sapp_cons. by rewrite <- IH.
Qed.

Lemma rstrip_stars_prefix s : exists t, s = (rstrip_stars s ++ t)%string.
Proof.
  destruct (lstrip_stars_suffix (Str.srev s)) as [t Ht]. exists (Str.srev t).
  unfold rstrip_stars. rewrite <- Str.srev_app, <- Ht. by rewrite Str.srev_involutive.
Qed.

Lemma rstrip_stars_snoc s : rstrip_stars (s ++ "*") = rstrip_stars s.
Proof. unfold rstrip_stars. by rewrite Str.srev_app. Qed.

Lemma last_char_snoc s a : last_char (s ++ String a "") = Some a.
Proof. induction s as [|b s IH]; [done |]. rewrite Str.sapp_cons. simpl. by destruct (s ++ String a "")%string eqn:E; [destruct s | ]. Qed.

Lemma own_wildcard method path ws :
  Str.has_char " "%char method = false ->
  wildcard_match (method ++ " " ++ path ++ "*") method path ws = true.
Proof.
  intros Hm. unfold wildcard_match, ends_with_star.
  assert (last_char (method ++ " " ++ path ++ "*") = Some "*"%char) as ->.
  { pose proof (last_char_snoc (method ++ " " ++ path) "*"%char) as H. by rewrite !Str.sapp_assoc in H. }
  change (" " ++ path ++ "*")%string with (String " "%char (path ++ "*")).
  rewrite Str.split1_app by done. rewrite String.eqb_refl, orb_true_r. simpl.
  rewrite rstrip_stars_snoc. destruct (rstrip_stars_prefix path) as [t Ht].
  rewrite Ht at 2. by rewrite Str.startswith_app.
Qed.

(** An exact key does not win over a wildcard, as the list of matching priorities
    promises: with the same priority, the key followed by a star is chosen for the very path
    the exact key names, because it is longer. *)
Theorem wildcard_beats_exact eps method path flow ep wild :
  NoDup (map fst eps) -> Str.has_char " "%char method = false ->
  let key := (method ++ " " ++ path)%string in
  In (key, ep) eps -> In ((key ++ "*")%string, wild) eps ->
  ep_priority wild = ep_priority ep -> matches_conditions (ep_match wild) flow = true ->
  forall key' ep', find_endpoint eps method path flow = Some (key', ep') -> key' <> key.
Proof.
  intros Hnd Hm key Hin Hwild Hprio Hcond key' ep' Hfind ->.
  pose proof (found_is_best eps method path flow Hnd) as H. cbv zeta in H. rewrite Hfind in H.
  destruct H as [(H1 & _) H2].
  pose proof (dict_get_nodup _ _ _ Hnd Hin) as E1. pose proof (dict_get_nodup _ _ _ Hnd H1) as E2.
  rewrite E1 in E2. injection E2 as <-.
  destruct (H2 (key ++ "*")%string wild) as [Hlt|[_ Hlen]]; [| lia |].
  - split_and!; [done | | done]. right. right. unfold key. rewrite !Str.sapp_assoc. by apply own_wildcard.
  - clear -Hlen. revert Hlen. generalize key as s. induction s as [|a s IH]; simpl; lia.
Qed.

(** ** Sequences *)

(** The steps of a counted sequence, each as often as it is to be repeated; a step without
    a count is repeated for good, here [n] times. *)
Definition unrolled (n : nat) (sequence : list step) : list step :=
  List.flat_map (fun s => replicate (default n (s_repeat s)) s) sequence.

Lemma counted_loop_unrolled sequence n j pos : (j < n)%nat ->
  counted_loop sequence (pos + j) pos = unrolled n sequence !! j.
Proof.
  revert j pos. induction sequence as [|s sequence IH]; intros j pos Hj; [done |].
  cbn [counted_loop]. change (unrolled n (s :: sequence))
    with (replicate (default n (s_repeat s)) s ++ unrolled n sequence).
  destruct (s_repeat s) as [m|]; simpl default.
  - destruct (Nat.ltb_spec (pos + j) (pos + m)) as [Hlt|Hge].
    + rewrite lookup_app_l by (rewrite length_replicate; lia).
      symmetry. apply lookup_replicate. split; [done | lia].
    + rewrite lookup_app_r by (rewrite length_replicate; lia). rewrite length_replicate, <- (IH _ (pos + m)%nat) by lia.
      f_equal. lia.
  - rewrite lookup_app_l by (rewrite length_replicate; lia). symmetry. apply lookup_replicate. done.
Qed.

Lemma call_count_set key k n counts starts a :
  call_count k (with_sequence a (dict_set key n counts) starts) =
  if String.eqb k key then n else default 0%nat (dict_get k counts).
Proof.
  unfold call_count. simpl. destruct (String.eqb_spec k key) as [->|].
  - by rewrite dict_get_set_same.
  - by rewrite dict_get_set_other.
Qed.

Lemma send_response_counts src environ dumps resolve contents flow s a o a' :
  send_response src environ dumps resolve contents flow s a = (o, a') ->
  sequence_state a' = sequence_state a.
Proof.
  unfold send_response. destruct (s_file s); [case_match; by intros [= _ <-] |].
  destruct (s_body_template s); [| by intros [= _ <-]].
  destruct (render _ _ _ _ _ _) as [r t']. by intros [= _ <-].
Qed.

(** The n-th answered call of a counted sequence gets the n-th of its steps, each
    repeated as often as it says, and the last step for ever after; the call counts for this
    key alone. *)
Theorem counted_sequence src environ dumps resolve contents flow key sequence a o a' :
  handle_sequence_counted src environ dumps resolve contents flow key sequence a = (Some o, a') ->
  let n := call_count key a in
  (exists s, (unrolled (S n) sequence !! n = Some s \/
              unrolled (S n) sequence !! n = None /\ last sequence = Some s) /\
     fst (send_response src environ dumps resolve contents flow s a) = Some o) /\
  (forall k, call_count k a' = if String.eqb k key then S n else call_count k a).
Proof.
  unfold handle_sequence_counted, counted_step. cbv zeta.
  pose proof (counted_loop_unrolled sequence (S (call_count key a)) (call_count key a) 0 ltac:(lia)) as Hu.
  simpl in Hu. rewrite Hu.
  intros H. set (pick := unrolled _ sequence !! _) in *.
  assert (exists s, match pick with Some s => Some s | None => last sequence end = Some s) as [s Hs]
    by (destruct (match pick with Some s => Some s | None => last sequence end); [by eexists | done]).
  rewrite Hs in H. destruct (send_response _ _ _ _ _ flow s a) as [[o'|] a1] eqn:Er; [| done].
  injection H as -> <-. split.
  - exists s. rewrite Er. split; [| done]. destruct pick; [left; done | right; done].
  - intros k. unfold count_call. rewrite call_count_set. unfold call_count.
    by rewrite (send_response_counts _ _ _ _ _ _ _ _ _ _ Er).
Qed.

Definition delay (s : step) : Z := default 0 (s_delay_ms s).

Lemma timed_loop_sorted sequence e active :
  StronglySorted (fun s t => delay s <= delay t) sequence ->
  timed_loop sequence e active = default active (last (filter (fun s => delay s <= e) sequence)).
Proof.
  intros Hs. revert active. induction Hs as [|s sequence Hs IH Hall]; intros active; [done |].
  cbn [timed_loop]. fold (delay s). destruct (Z.leb_spec (delay s) e) as [Hle|Hgt].
  - rewrite IH, filter_cons_True by done. rewrite last_cons. by destruct (last _).
  - rewrite filter_cons_False by lia.
    replace (filter (fun s => delay s <= e) sequence) with (@nil step); [done |].
    symmetry. clear -Hall Hgt. induction Hall as [|t sequence Ht Hall IH]; [done |].
    rewrite filter_cons_False by lia. exact IH.
Qed.

(** A timed sequence whose delays are in order answers with the latest step whose delay
    has passed since the first request for its key, and with its first step before that; the
    time of the first request is kept for the requests that follow. *)
Theorem timed_sequence src dumps resolve contents now key sequence a :
  sequence <> [] -> StronglySorted (fun s t => delay s <= delay t) sequence ->
  let start := default now (dict_get key (sequence_start a)) in
  exists s a', handle_sequence_timed src dumps resolve contents now key sequence a =
      (Some (build_mock_response src dumps resolve contents s a'), a') /\
    Some s = match last (filter (fun s => delay s <= now - start) sequence) with
             | Some s => Some s
             | None => head sequence
             end /\
    dict_get key (sequence_start a') = Some start /\
    (forall k, k <> key -> dict_get k (sequence_start a') = dict_get k (sequence_start a)).
Proof.
  intros Hne Hs start. unfold handle_sequence_timed, timed_step. fold start.
  destruct sequence as [|s0 sequence]; [done |]. rewrite timed_loop_sorted by done.
  eexists _, _. split; [reflexivity |]. split_and!.
  - by destruct (last _).
  - apply dict_get_set_same.
  - intros k Hk. by apply dict_get_set_other.
Qed.

(** ** Files stay inside their directory *)

(** A file is only served from the resolved files directory, also when its configured path is
    absolute, climbs with two dots or goes through links. *)
Theorem read_file_confined resolve contents root relative body :
  read_file resolve contents root relative = Some body ->
  exists dir rest, resolve root = Some dir /\ resolve (join_path root relative) = Some (dir ++ rest) /\
    contents (dir ++ rest) = Some body.
Proof.
  unfold read_file. destruct (resolve (join_path root relative)) as [p|]; [| done].
  destruct (resolve root) as [dir|]; [| done]. case_bool_decide as H; [| done].
  intros Hb. exists dir, (drop (length dir) p).
  assert (dir ++ drop (length dir) p = p) as -> by (rewrite H at 1; apply take_drop). done.
Qed.

(** ** Patched responses *)

Section Hook.

Context (src : Sources) (environ : string -> option string) (dumps : value -> list Z).
Context (set_header : string -> string -> headers -> headers).

#[local] Abbreviation hook := (response_hook src environ dumps set_header).

(** A response to a request that is marked for a patch reaches the client, and its
    capture event, with the patch merged key by key when it is a JSON object and the patch
    renders to one with plain keys; a response that is not JSON, by its type or by its body,
    passes unchanged. *)
Theorem patched_response flow o p a patch :
  o_patch o = Some patch -> value_truthy patch = true ->
  let json := Str.str_contains "json" (Str.lower (content_type_of (p_headers p))) in
  (json = false \/ p_json p = None ->
   exists ev hs a', hook flow o p a = (inl (ev, hs), a') /\ ev_body ev = p_body p /\ ev_patched ev = false) /\
  (forall d q t', json = true -> p_json p = Some (VDict d) ->
   render src environ patch (Some flow) (Some (shared_state a)) (tstate_of a) = (Some (VDict q), t') ->
   plain (VDict q) ->
   exists ev hs a' d', hook flow o p a = (inl (ev, hs), a') /\
     ev_body ev = dumps (VDict d') /\ ev_patched ev = true /\ ev_mocked ev = true /\
     (forall k, vget k d' = overlay (vget k d) (vget k q))).
Proof.
  intros Hp Ht json. split.
  - intros H. unfold response_hook. rewrite Hp, Ht. fold json.
    destruct json eqn:Ej; [| by eexists _, _, _].
    destruct H as [H|H]; [done |]. unfold apply_patches. rewrite H. by eexists _, _, _.
  - intros d q t' Hj Hd Hr Hq. destruct (plain_merges _ Hq) as [Hm _].
    destruct (Hm d) as (d' & Hd' & Hget & _).
    unfold response_hook. rewrite Hp, Ht. fold json. rewrite Hj. unfold apply_patches. rewrite Hd, Hr, Hd'.
    simpl. eexists _, _, _, d'. split; [reflexivity |]. simpl. split_and!; try done.
    by rewrite orb_true_r.
Qed.

(** A patch with an object value does not skip a response whose body is a JSON array: the
    hook raises, and the response has no capture event. *)
Theorem array_body_loses_event flow o p a s q rest patch l t' :
  o_patch o = Some patch -> value_truthy patch = true ->
  Str.str_contains "json" (Str.lower (content_type_of (p_headers p))) = true ->
  p_json p = Some (VList l) -> array_key s = None ->
  render src environ patch (Some flow) (Some (shared_state a)) (tstate_of a) =
    (Some (VDict ((KStr s, VDict q) :: rest)), t') ->
  exists a', hook flow o p a = (inr tt, a').
Proof.
  intros Hp Ht Hj Hd Hs Hr. unfold response_hook. rewrite Hp, Ht, Hj. unfold apply_patches.
  rewrite Hd, Hr. destruct (merge_escapes (KStr s) s (VDict q) rest (VList l)) as [-> _]; try done.
  by eexists.
Qed.

End Hook.

(** ** WebSocket messages *)

(** [websocket_message]: the addon that is given the message, if there is one that handles
    messages; [has_websocket name] says whether the addon loads and does. *)
Definition websocket_message (mock_parent : list string) (has_websocket : string -> bool)
    (config_file : option (Z * option raw_config)) (flow : Flow) (a : addon) : option string * addon :=
  let a := load_config mock_parent config_file a in
  match find_endpoint (endpoints a) "WEBSOCKET" (f_path flow) flow with
  | Some (_, ep) =>
      match ep_addon ep with
      | Some name => (if has_websocket name then Some name else None, a)
      | None => (None, a)
      end
  | None => (None, a)
  end.

Lemma sapp_neq p c q : (p ++ String c q)%string <> p.
Proof. induction p as [|a p IH]; [done |]. rewrite Str.sapp_cons. intros [= H]. by apply IH. Qed.

Lemma sapp_inj (h s t : string) : (h ++ s = h ++ t)%string -> s = t.
Proof. induction h as [|a h IH]; [done |]. rewrite !Str.sapp_cons. intros [= H]. auto. Qed.

(** The query is part of the path a message is matched by: an addon for a WebSocket path that
    is opened with a query gets the request, but none of its messages. *)
Theorem websocket_query_missed mock_parent has_websocket flow a p q name ep :
  endpoints a = [(("WEBSOCKET " ++ p)%string, ep)] -> ep_addon ep = Some name -> ep_match ep = None ->
  Str.has_char "?"%char p = false -> ends_with_star ("WEBSOCKET " ++ p) = false ->
  is_websocket flow = true -> f_path flow = (p ++ String "?" q)%string ->
  find_endpoint (endpoints a) "GET" (path_without_query flow) flow = Some (("WEBSOCKET " ++ p)%string, ep) /\
  websocket_message mock_parent has_websocket None flow a = (None, a).
Proof.
  intros He Ha Hm Hp Hstar Hws Hpath. split.
  - unfold path_without_query. rewrite Hpath, Str.split_char_app by done. cbn [head default].
    rewrite He. unfold find_endpoint, candidates, exact_matches, check_keys, collect_wildcard_matches.
    rewrite Hws. cbn [List.flat_map fst snd app]. unfold wildcard_match. rewrite Hstar. cbn [andb dict_get].
    change (String.eqb ("GET " ++ p) ("WEBSOCKET " ++ p)) with false.
    rewrite String.eqb_refl. unfold candidate_if. rewrite Hm. done.
  - unfold websocket_message. cbn [load_config]. rewrite He, Hpath.
    unfold find_endpoint, candidates, exact_matches, check_keys, collect_wildcard_matches.
    rewrite Hws. cbn [List.flat_map fst snd app]. unfold wildcard_match. rewrite Hstar. cbn [andb dict_get].
    assert (String.eqb ("WEBSOCKET " ++ p ++ String "?" q) ("WEBSOCKET " ++ p) = false) as E.
    { apply String.eqb_neq. intros H. apply (sapp_inj "WEBSOCKET ") in H. by apply sapp_neq in H. }
    change ("WEBSOCKET" ++ " " ++ p ++ String "?" q)%string with ("WEBSOCKET " ++ p ++ String "?" q)%string.
    by rewrite E.
Qed.

(** ** Capture events *)

Definition INLINE_BODY_LIMIT : Z := 256 * 1024.

Definition TEXT_TYPES : list string :=
  ["application/json"; "text/"; "application/xml"; "application/javascript";
   "application/x-www-form-urlencoded"].

Definition base_content_type (content_type : string) : string :=
  Str.lower (Str.strip (default EmptyString (head (Str.split_char ";"%char content_type)))).

Definition is_text (content_type : string) : bool :=
  existsb (fun t => Str.startswith t (base_content_type content_type)) TEXT_TYPES.

(** Where an event carries a body: in itself as code points, in a spool file with its name,
    or (when the file cannot be written) not at all. *)
Inductive body_place := Inline (text : list Z) | Spooled (name : string) | Lost.

(** [f"{counter:06d}_{url_hash}.bin"]. *)
Definition spool_name (counter : nat) (url_hash : string) : string :=
  let digits := pretty (N.of_nat counter) in
  (Str.join "" (repeat "0"%string (6 - String.length digits)) ++ digits ++ "_" ++ url_hash ++ ".bin")%string.

Definition decode_text (raw : bytes) : list Z :=
  match Utf8.decode raw with Some text => text | None => raw end.

(** [_classify_response_body] for a response: where the body goes, whether it is binary, and
    the counter after it; [write_ok]: the spool file could be written. *)
Definition classify_response_body (content_type : string) (raw : bytes) (url_hash : string)
    (write_ok : bool) (counter : nat) : body_place * bool * nat :=
  let text := is_text content_type in
  if text && (Z.of_nat (length raw) <=? INLINE_BODY_LIMIT) then (Inline (decode_text raw), false, counter)
  else match raw with
       | [] => (Inline [], negb text, counter)
       | _ => (if write_ok then Spooled (spool_name (S counter) url_hash) else Lost, negb text, S counter)
       end.

(** What the capture client does with its socket: [connected] before and after, and the
    number of times the event was handed to it. [connect_ok] and [send_ok] answer the n-th
    attempt. *)
Fixpoint send_event (attempts : nat) (i : nat) (connect_ok send_ok : nat -> bool) (connected : bool)
    : bool * nat * bool :=
  match attempts with
  | O => (connected, 0%nat, false)
  | S attempts' =>
      if connected || connect_ok i then
        if send_ok i then (true, 1%nat, true)
        else let '(c, n, ok) := send_event attempts' (S i) connect_ok send_ok false in (c, S n, ok)
      else (false, 0%nat, false)
  end.

(** Sending an event is bounded and never raises: at most two attempts, the second on a new
    connection; the client is connected afterwards exactly when the event was delivered. *)
Theorem send_event_bounded connect_ok send_ok connected :
  let '(connected', tries, delivered) := send_event 2 0 connect_ok send_ok connected in
  (tries <= 2)%nat /\ connected' = delivered /\
  (delivered = true <->
   (connected || connect_ok 0%nat = true /\ (send_ok 0%nat = true \/ (connect_ok 1%nat = true /\ send_ok 1%nat = true)))).
Proof.
  simpl. destruct connected, (connect_ok 0%nat), (send_ok 0%nat), (connect_ok 1%nat), (send_ok 1%nat);
    simpl; intuition (try lia; try done).
Qed.

(** ** Custom addons *)

Section Registry.

Context {H : Type}.

(** What loading the script of an addon gives; [None] is any failure. *)
Context (load : string -> option H).

Definition get_addon (name : string) (handlers : list (string * H)) : option H * list (string * H) :=
  match dict_get name handlers with
  | Some h => (Some h, handlers)
  | None => match load name with
            | Some h => (Some h, dict_set name h handlers)
            | None => (None, handlers)
            end
  end.

Definition reload_addon (name : string) (handlers : list (string * H)) : option H * list (string * H) :=
  get_addon name (List.filter (fun kv => negb (String.eqb kv.1 name)) handlers).

End Registry.

(** A handler that was loaded is kept whatever happens to its script, until it is
    reloaded. *)
Theorem addon_cached {H} (load load' : string -> option H) name handlers h handlers' :
  get_addon load name handlers = (Some h, handlers') -> get_addon load' name handlers' = (Some h, handlers').
Proof.
  unfold get_addon. destruct (dict_get name handlers) as [x|] eqn:E.
  - intros [= -> ->]. by rewrite E.
  - destruct (load name) as [x|]; [| done]. intros [= -> <-]. by rewrite dict_get_set_same.
Qed.

(** ** Concrete instances *)

Definition demo_step (body : string) (repeat : option nat) (delay_ms : option Z) : step :=
  mkStep 200 None None None None None (Some (VStr body)) delay_ms repeat.

Definition demo_endpoint (body : string) : endpoint :=
  mkEndpoint 0 None None None None None (demo_step body None None).

Definition demo_eps : list (string * endpoint) :=
  [("GET /api/status"%string, demo_endpoint "exact"); ("GET /api/status*"%string, demo_endpoint "wild");
   ("* /api*"%string, demo_endpoint "any")].

Definition demo_dumps (v : value) : list Z := [].

Definition demo_addon : addon :=
  mkAddon no_config demo_eps ["files"%string] 0 [] [] [] 0 (mkT [] 0) 0.

Lemma demo_eps_nodup : NoDup (map fst demo_eps).
Proof. apply (bool_decide_unpack _). vm_compute. exact I. Qed.


Lemma wildcard_beats_exact_witness :
  find_endpoint demo_eps "GET" "/api/status" demo_flow = Some ("GET /api/status*"%string, demo_endpoint "wild") /\
  "GET /api/status*"%string <> "GET /api/status"%string.
Proof.
  split; [vm_compute; reflexivity |].
  eapply (wildcard_beats_exact demo_eps "GET" "/api/status" demo_flow (demo_endpoint "exact") (demo_endpoint "wild"));
    [exact demo_eps_nodup | reflexivity | by left | by right; left | reflexivity | reflexivity
    | vm_compute; reflexivity].
Defined.

Definition demo_sequence : list step := [demo_step "a" (Some 2%nat) None; demo_step "b" None None].

Lemma counted_sequence_witness :
  exists s, unrolled 1 demo_sequence !! 0%nat = Some s \/
    unrolled 1 demo_sequence !! 0%nat = None /\ last demo_sequence = Some s.
Proof.
  destruct (counted_sequence demo_sources (fun _ => None) demo_dumps (fun p => Some p) (fun _ => None)
    demo_flow "k" demo_sequence demo_addon
    (mocked (mkResponse 200 [97] [("Content-Type", "application/json")]%string))
    (with_sequence demo_addon [("k"%string, 1%nat)] [])) as [(s & Hs & _) _]; [vm_compute; reflexivity |].
  exists s. exact Hs.
Defined.

Lemma timed_sequence_witness :
  exists s a', handle_sequence_timed demo_sources demo_dumps (fun p => Some p) (fun _ => None) 7 "k"
      [demo_step "a" None (Some 0); demo_step "b" None (Some 5)] demo_addon =
      (Some (build_mock_response demo_sources demo_dumps (fun p => Some p) (fun _ => None) s a'), a') /\
    Some s = Some (demo_step "a" None (Some 0)).
Proof.
  destruct (timed_sequence demo_sources demo_dumps (fun p => Some p) (fun _ => None) 7 "k"
    [demo_step "a" None (Some 0); demo_step "b" None (Some 5)] demo_addon) as (s & a' & H1 & H2 & _).
  - discriminate.
  - repeat constructor. vm_compute. discriminate.
  - exists s, a'. split; [exact H1 | exact H2].
Defined.

Definition demo_outcome : outcome := mkOutcome None false (Some (VDict [(KStr "a", VInt 2)])) None.

Definition demo_passing (body : value) : passing :=
  mkPassing 200 [1] (Some body) [("content-type", "application/json")]%string.

Lemma patched_response_witness :
  exists ev hs a' d',
    response_hook demo_sources (fun _ => None) demo_dumps (fun _ _ hs => hs) demo_flow demo_outcome
      (demo_passing (VDict [(KStr "a", VInt 1)])) demo_addon = (inl (ev, hs), a') /\
    ev_patched ev = true /\ vget (KStr "a") d' = Some (VInt 2).
Proof.
  destruct (patched_response demo_sources (fun _ => None) demo_dumps (fun _ _ hs => hs) demo_flow demo_outcome
    (demo_passing (VDict [(KStr "a", VInt 1)])) demo_addon (VDict [(KStr "a", VInt 2)]) eq_refl eq_refl) as [_ H].
  destruct (H [(KStr "a", VInt 1)] [(KStr "a", VInt 2)] (mkT [] 0) eq_refl eq_refl eq_refl)
    as (ev & hs & a' & d' & H1 & _ & H2 & _ & H3).
  - apply plain_dict; [apply NoDup_singleton | |]; apply Forall_singleton;
      [eexists; split; reflexivity | apply plain_leaf; reflexivity].
  - exists ev, hs, a', d'. split; [exact H1 |]. split; [exact H2 | exact (H3 (KStr "a"))].
Defined.
