(* ===== verification/ClientCore.v ===== *)
(** * The base of a driver client

    [client/core.py]: the status of the exporter, the waits that poll it, the end of a
    session, and the log stream with its reconnects. What the exporter answers to the n-th
    poll is a function; times are in milliseconds, so that the half seconds the loops add up
    are exact. *)

From stdpp Require Import base list strings sets.
From Stdlib Require Import ZArith Lia.
From S2P Require Import Prelude PyText Enums Session ExporterState.

Open Scope Z_scope.

(** ** The status of the exporter *)

Inductive status_answer :=
| StatusResponse (status : Z)
| StatusNotImplemented
| StatusRpcError (code : StatusCode) (details : string).

(** What leaves [get_status_async]: a [DriverError], or the [ValueError] of a status that
    this client does not know. *)
Inductive status_exn := StatusDriverError (text : string) | StatusValueError.

Record client := mkClient { get_status_unsupported : bool; status_calls : nat }.

Section Status.

Context (answers : nat -> status_answer).

Definition get_status_async (c : client) : (status_exn + option ExporterStatus) * client :=
  if get_status_unsupported c then (inr None, c)
  else
    let called := mkClient false (S (status_calls c)) in
    let unsupported := mkClient true (S (status_calls c)) in
    match answers (status_calls c) with
    | StatusResponse n =>
        match ExporterStatusOps.from_proto n with
        | Some s => (inr (Some s), called)
        | None => (inl StatusValueError, called)
        end
    | StatusNotImplemented => (inr None, unsupported)
    | StatusRpcError UNIMPLEMENTED _ => (inr None, unsupported)
    | StatusRpcError _ details =>
        (inl (StatusDriverError ("Failed to get exporter status: " ++ details)), called)
    end.

(** [check_exporter_status]: the [ExporterNotReady] it raises, the exception that passes
    through it, or nothing. *)
Inductive readiness_error := ExporterNotReady (status : ExporterStatus) | StatusFailed (e : status_exn).

Definition check_exporter_status (c : client) : option readiness_error * client :=
  match get_status_async c with
  | (inl e, c') => (Some (StatusFailed e), c')
  | (inr None, c') => (None, c')
  | (inr (Some s), c') =>
      (if bool_decide (s ∈ [LEASE_READY; BEFORE_LEASE_HOOK; AFTER_LEASE_HOOK]) then None
       else Some (ExporterNotReady s), c')
  end.

(** ** Polling *)

Definition POLL_INTERVAL : Z := 500.

(** The loop of both waits: [judge] decides on what [get_status_async] gave, or goes on.
    The outer [None] is fuel that ran out, the inner one the timeout. *)
Fixpoint polling {R} (judge : status_exn + option ExporterStatus -> option R) (fuel : nat)
    (elapsed timeout : Z) (c : client) : option (option R * client) :=
  if elapsed <? timeout then
    match fuel with
    | O => None
    | S fuel' =>
        let '(r, c') := get_status_async c in
        match judge r with
        | Some x => Some (Some x, c')
        | None => polling judge fuel' (elapsed + POLL_INTERVAL) timeout c'
        end
    end
  else Some (None, c).

(** How [wait_for_lease_ready] stops waiting; it returns [None] in every case. *)
Inductive ready_end := AssumedReady | Ready | HookFailed.

Definition judge_ready (r : status_exn + option ExporterStatus) : option ready_end :=
  match r with
  | inl _ => None
  | inr None => Some AssumedReady
  | inr (Some LEASE_READY) => Some Ready
  | inr (Some BEFORE_LEASE_HOOK_FAILED) => Some HookFailed
  | inr (Some _) => None
  end.

Definition wait_for_lease_ready (fuel : nat) (timeout : Z) (c : client)
    : option (option ready_end * client) := polling judge_ready fuel 0 timeout c.

(** One round of [wait_for_hook_status]: its handler is for [AioRpcError], which
    [get_status_async] never raises, so that every exception passes through. *)
Definition judge_hook (target : ExporterStatus) (r : status_exn + option ExporterStatus)
    : option (status_exn + bool) :=
  match r with
  | inl e => Some (inl e)
  | inr None => Some (inr true)
  | inr (Some s) =>
      if bool_decide (s = target) then Some (inr true)
      else if bool_decide (s = AFTER_LEASE_HOOK_FAILED) then Some (inr true)
      else None
  end.

Definition wait_for_hook_status (fuel : nat) (target : ExporterStatus) (timeout : Z) (c : client)
    : option ((status_exn + bool) * client) :=
  match polling (judge_hook target) fuel 0 timeout c with
  | Some (Some r, c') => Some (r, c')
  | Some (None, c') => Some (inr false, c')
  | None => None
  end.

End Status.

(** ** The end of a session *)

Inductive end_answer := EndResponse (success : bool) | EndRpcError (code : StatusCode) (details : string).

(** [inl] is a [DriverError]. *)
Definition end_session_async (r : end_answer) : string + bool :=
  match r with
  | EndResponse success => inr success
  | EndRpcError code details =>
      if bool_decide (code = UNIMPLEMENTED) then inr false
      else if bool_decide (code ∈ [UNAVAILABLE; CANCELLED; DEADLINE_EXCEEDED]) then inr true
      else if bool_decide (code = UNKNOWN) && Str.str_contains "Stream removed" details then inr true
      else inl ("Failed to end session: " ++ details)%string
  end.

(** ** The log stream *)

(** A message as the client receives it; [lm_source] is [None] when the field is not set. *)
Record log_message := mkLogMessage { lm_source : option Z; lm_severity : string; lm_text : string }.

Definition received_message (r : LogStreamResponse) : log_message :=
  mkLogMessage (Some (source r)) (severity r) (message r).

Definition source_of (m : log_message) : LogSource :=
  match lm_source m with
  | Some n => default LOG_SYSTEM (LogSourceOps.log_from_proto n)
  | None => LOG_SYSTEM
  end.

Definition is_hook (s : LogSource) : bool :=
  bool_decide (s = LOG_BEFORE_LEASE_HOOK) || bool_decide (s = LOG_AFTER_LEASE_HOOK).

Definition logger_name (s : LogSource) : string :=
  match s with
  | LOG_BEFORE_LEASE_HOOK => "exporter:beforeLease"
  | LOG_AFTER_LEASE_HOOK => "exporter:afterLease"
  | LOG_DRIVER => "exporter:driver"
  | _ => "exporter:system"
  end.

(** [getattr(logging, severity, logging.INFO)] for the names of levels. *)
Definition level_of (severity : string) : Z :=
  if String.eqb severity "CRITICAL" || String.eqb severity "FATAL" then 50
  else if String.eqb severity "ERROR" then 40
  else if String.eqb severity "WARNING" || String.eqb severity "WARN" then 30
  else if String.eqb severity "DEBUG" then 10
  else if String.eqb severity "NOTSET" then 0
  else 20.

Definition is_noise (text : string) : bool :=
  Str.str_contains "raised by servicer method" text && Str.str_contains "NotImplementedError" text.

(** What one message logs: the logger, the level and the text. *)
Definition show (show_all_logs : bool) (m : log_message) : option (string * Z * string) :=
  if is_hook (source_of m) || show_all_logs then
    if is_noise (lm_text m) then None
    else Some (logger_name (source_of m), level_of (lm_severity m), lm_text m)
  else None.

(** One attempt to read the stream: the messages it delivers, and how it ends. *)
Inductive stream_end := StreamEnded | StreamRpcError (code : StatusCode) | StreamOtherError.

Record attempt := mkAttempt { at_messages : list log_message; at_end : stream_end }.

Definition INITIAL_DELAY : Z := 100.
Definition MAX_RECONNECT_DELAY : Z := 2000.
Definition MAX_RECONNECTS : nat := 10.

Definition stops (e : stream_end) : bool :=
  match e with
  | StreamRpcError CANCELLED | StreamRpcError UNIMPLEMENTED => true
  | _ => false
  end.

Inductive stream_result := GaveUp | Stopped | Reading.

(** The loop over the attempts the exporter answers: the sleeps it makes, and how it ends;
    [Reading] when the attempts run out. *)
Fixpoint log_stream (reconnect_count : nat) (reconnect_delay : Z) (attempts : list attempt)
    : list Z * stream_result :=
  if (reconnect_count <? MAX_RECONNECTS)%nat then
    match attempts with
    | [] => ([], Reading)
    | a :: attempts' =>
        let '(count, delay) := match at_messages a with
                               | [] => (reconnect_count, reconnect_delay)
                               | _ => (0%nat, INITIAL_DELAY)
                               end in
        if stops (at_end a) then ([], Stopped)
        else
          let '(sleeps, r) := log_stream (S count) (Z.min (delay * 2) MAX_RECONNECT_DELAY) attempts' in
          (delay :: sleeps, r)
    end
  else ([], GaveUp).

Definition log_stream_async (attempts : list attempt) : list Z * stream_result :=
  log_stream 0 INITIAL_DELAY attempts.

(** ** The waits *)

(** What one call of [get_status_async] gives, while the exporter is not known to lack it. *)
Definition status_of (a : status_answer) : status_exn + option ExporterStatus :=
  fst (get_status_async (fun _ => a) (mkClient false 0)).

(** The polls that fit in a timeout. *)
Definition rounds (timeout : Z) : nat := Z.to_nat ((timeout + 499) / 500).

Lemma rounds_done timeout : timeout <= 0 -> rounds timeout = 0%nat.
Proof.
  intros H. unfold rounds. assert ((timeout + 499) / 500 < 1) by (apply Z.div_lt_upper_bound; lia). lia.
Qed.

Lemma rounds_step timeout : 0 < timeout -> rounds timeout = S (rounds (timeout - POLL_INTERVAL)).
Proof.
  intros H. unfold rounds, POLL_INTERVAL. replace (timeout + 499) with ((timeout - 500 + 499) + 1 * 500) by lia.
  rewrite Z.div_add by lia. rewrite Z2Nat.inj_add; [lia | | lia].
  apply Z.div_pos; lia.
Qed.

Lemma get_status_of answers k :
  exists b, get_status_async answers (mkClient false k) = (status_of (answers k), mkClient b (S k)) /\
    (b = true -> status_of (answers k) = inr None).
Proof.
  unfold status_of, get_status_async. simpl. destruct (answers k) as [n| |code details].
  - destruct (ExporterStatusOps.from_proto n); by exists false.
  - by exists true.
  - destruct code; first [by exists true | by exists false].
Qed.

(** Polling stops at the first answer that decides, and after [rounds] polls when none
    does. *)
Lemma polling_spec {R} answers (judge : _ -> option R) fuel elapsed timeout k :
  is_some (judge (inr None)) = true -> (rounds (timeout - elapsed) <= fuel)%nat ->
  exists i r c', polling answers judge fuel elapsed timeout (mkClient false k) = Some (r, c') /\
    (forall j, (j < i)%nat -> judge (status_of (answers (k + j)%nat)) = None) /\
    match r with
    | Some x => (i < rounds (timeout - elapsed))%nat /\ judge (status_of (answers (k + i)%nat)) = Some x /\
                status_calls c' = (k + S i)%nat
    | None => i = rounds (timeout - elapsed) /\ status_calls c' = (k + i)%nat
    end.
Proof.
  intros Hnone. revert elapsed k. induction fuel as [|fuel IH]; intros elapsed k Hf; cbn [polling].
  - destruct (Z.ltb_spec elapsed timeout) as [Hlt|Hge]; [rewrite rounds_step in Hf by lia; lia |].
    exists 0%nat, None, (mkClient false k). rewrite rounds_done by lia. split_and!; try done; simpl; lia.
  - destruct (Z.ltb_spec elapsed timeout) as [Hlt|Hge].
    2: { exists 0%nat, None, (mkClient false k). rewrite rounds_done by lia. split_and!; try done; simpl; lia. }
    pose proof (rounds_step (timeout - elapsed) ltac:(lia)) as Hr.
    replace (timeout - elapsed - POLL_INTERVAL) with (timeout - (elapsed + POLL_INTERVAL)) in Hr by lia.
    destruct (get_status_of answers k) as (b & -> & Hb).
    destruct (judge (status_of (answers k))) as [x|] eqn:Ej.
    + exists 0%nat, (Some x), (mkClient b (S k)). split_and!; [done | lia | lia | | simpl; lia].
      by rewrite Nat.add_0_r.
    + destruct b; [rewrite Hb in Ej by done; by rewrite Ej in Hnone |].
      destruct (IH (elapsed + POLL_INTERVAL) (S k) ltac:(lia)) as (i & r & c' & H1 & H2 & H3).
      exists (S i), r, c'. split_and!; [done | |].
      * intros [|j] Hj; [by rewrite Nat.add_0_r |]. rewrite Nat.add_succ_r. apply H2. lia.
      * rewrite Nat.add_succ_r. destruct r; destruct_and!; split_and!; try lia; done.
Qed.

(** Waiting for the end of a hook ends within its timeout, one poll per half second:
    with [True] at the first poll that shows the target, a failed hook or an exporter without
    GetStatus, and with [False] when the time is over. But an error of the connection is not
    the [False] that its handler means to return: [get_status_async] has turned it into a
    [DriverError], which the wait lets through. *)
Theorem hook_status_wait answers fuel target timeout k :
  (rounds timeout <= fuel)%nat ->
  exists i r c', wait_for_hook_status answers fuel target timeout (mkClient false k) = Some (r, c') /\
    (i <= rounds timeout)%nat /\
    (forall j, (j < i)%nat -> exists s, status_of (answers (k + j)%nat) = inr (Some s) /\
       s <> target /\ s <> AFTER_LEASE_HOOK_FAILED) /\
    match r with
    | inr false => i = rounds timeout /\ status_calls c' = (k + i)%nat
    | inr true => (i < rounds timeout)%nat /\ exists o, status_of (answers (k + i)%nat) = inr o /\
                    (o = None \/ o = Some target \/ o = Some AFTER_LEASE_HOOK_FAILED)
    | inl e => (i < rounds timeout)%nat /\ status_of (answers (k + i)%nat) = inl e
    end.
Proof.
  intros Hf. destruct (polling_spec answers (judge_hook target) fuel 0 timeout k) as (i & r & c' & H1 & H2 & H3);
    [done | by rewrite Z.sub_0_r |]. rewrite Z.sub_0_r in H3.
  assert (forall j, (j < i)%nat -> exists s, status_of (answers (k + j)%nat) = inr (Some s) /\
    s <> target /\ s <> AFTER_LEASE_HOOK_FAILED) as Hbefore.
  { intros j Hj. specialize (H2 j Hj). unfold judge_hook in H2.
    destruct (status_of _) as [e|[s|]]; [done | | done]. exists s. repeat case_bool_decide; done. }
  unfold wait_for_hook_status. rewrite H1. destruct r as [r|].
  - destruct H3 as (Hi & Hj & Hc). exists i, r, c'. split_and!; [done | lia | done |].
    unfold judge_hook in Hj. destruct (status_of _) as [e|[s|]]; [by simplify_eq | |].
    + destruct (bool_decide_reflect (s = target)); [simplify_eq; eauto 6 |].
      destruct (bool_decide_reflect (s = AFTER_LEASE_HOOK_FAILED)); [simplify_eq; eauto 7 | done].
    + simplify_eq. eauto 6.
  - destruct H3 as [-> Hc]. exists (rounds timeout), (inr false), c'. split_and!; done.
Qed.

(** Waiting for a lease to be ready ends within its timeout, one poll per half second,
    and errors of a poll are retried: it stops at the first poll that shows a ready lease, a
    failed hook or an exporter without GetStatus, or when the time is over. *)
Theorem lease_ready_wait answers fuel timeout k :
  (rounds timeout <= fuel)%nat ->
  exists i r c', wait_for_lease_ready answers fuel timeout (mkClient false k) = Some (r, c') /\
    (forall j, (j < i)%nat -> judge_ready (status_of (answers (k + j)%nat)) = None) /\
    match r with
    | Some e => (i < rounds timeout)%nat /\ judge_ready (status_of (answers (k + i)%nat)) = Some e
    | None => i = rounds timeout /\ status_calls c' = (k + i)%nat
    end.
Proof.
  intros Hf. destruct (polling_spec answers judge_ready fuel 0 timeout k) as (i & r & c' & H1 & H2 & H3);
    [done | by rewrite Z.sub_0_r |]. rewrite Z.sub_0_r in H3.
  exists i, r, c'. split_and!; [done .. |]. destruct r; destruct_and!; done.
Qed.

(** ** The log stream *)

(** A record the exporter logs is shown by the client under the logger of the source its
    logger name is routed to, with its own level and text: always for a hook, else when all
    logs are wanted; but for the noise of old exporters. *)
Theorem record_shown h record show_all :
  let src := get_source_for_record h record in
  show show_all (received_message (prepare h record)) =
  if (is_hook src || show_all) && negb (is_noise (getMessage record))
  then Some (logger_name src, level_of (levelname record), getMessage record) else None.
Proof.
  cbv zeta. unfold show, source_of, received_message, prepare. simpl.
  rewrite LogSourceOps.log_from_to_proto. simpl.
  destruct (is_hook _ || show_all); simpl; [| done]. by destruct (is_noise _).
Qed.

Definition fruitless (a : attempt) : Prop := at_messages a = [] /\ stops (at_end a) = false.

Definition delay_ok (d : Z) : Prop := INITIAL_DELAY <= d <= MAX_RECONNECT_DELAY.

Lemma log_stream_sleeps count delay attempts :
  delay_ok delay -> Forall delay_ok (fst (log_stream count delay attempts)).
Proof.
  revert count delay. induction attempts as [|a attempts IH]; intros count delay Hd; cbn [log_stream].
  - by destruct (count <? MAX_RECONNECTS)%nat.
  - destruct (count <? MAX_RECONNECTS)%nat; [| done].
    set (cd := match at_messages a with [] => (count, delay) | _ => (0%nat, INITIAL_DELAY) end).
    assert (delay_ok (snd cd)) as Hcd
      by (unfold cd; destruct (at_messages a); [done | unfold delay_ok, INITIAL_DELAY, MAX_RECONNECT_DELAY; simpl; lia]).
    destruct cd as [count' delay']. simpl in Hcd. destruct (stops (at_end a)); [done |].
    assert (delay_ok (Z.min (delay' * 2) MAX_RECONNECT_DELAY)) as Hnext
      by (unfold delay_ok, INITIAL_DELAY, MAX_RECONNECT_DELAY in *; lia).
    pose proof (IH (S count') _ Hnext) as H.
    destruct (log_stream (S count') _ attempts) as [sleeps r]. by constructor.
Qed.

Lemma fruitless_gives_up run after count delay :
  Forall fruitless run -> (MAX_RECONNECTS <= count + length run)%nat ->
  snd (log_stream count delay (run ++ after)) = GaveUp.
Proof.
  intros H. revert count delay. induction H as [|a run [Hm Hs] H IH]; intros count delay Hl; simpl in Hl.
  - assert ((count <? MAX_RECONNECTS)%nat = false) as E by (apply Nat.ltb_ge; lia).
    destruct after; cbn [app log_stream]; by rewrite E.
  - cbn [app log_stream]. destruct (count <? MAX_RECONNECTS)%nat; [| done].
    rewrite Hm, Hs. specialize (IH (S count) (Z.min (delay * 2) MAX_RECONNECT_DELAY) ltac:(lia)).
    by destruct (log_stream (S count) _ (run ++ after)).
Qed.

(** Reading logs does not go on for ever against an exporter that is gone: ten attempts
    in a row that deliver nothing end it, whatever came before, and it pauses between 100 ms
    and 2 s before each attempt; and while messages come at least every ninth attempt, it
    does not give up. *)
Theorem log_stream_gives_up before run after :
  Forall fruitless run -> length run = 10%nat ->
  snd (log_stream_async (before ++ run ++ after)) <> Reading /\
  Forall delay_ok (fst (log_stream_async (before ++ run ++ after))) /\
  (forall gaps, Forall (fun g => (length g.1 < 9)%nat /\ Forall fruitless g.1 /\
                                 at_messages g.2 <> [] /\ stops (at_end g.2) = false) gaps ->
     snd (log_stream_async (concat (map (fun g => g.1 ++ [g.2]) gaps))) = Reading).
Proof.
  intros Hrun Hlen. split_and!.
  - unfold log_stream_async. generalize 0%nat as count, INITIAL_DELAY as delay.
    induction before as [|a before IH]; intros count delay; cbn [app].
    + rewrite fruitless_gives_up by (done || (unfold MAX_RECONNECTS; lia)). done.
    + cbn [log_stream]. destruct (count <? MAX_RECONNECTS)%nat; [| done].
      destruct (match at_messages a with [] => _ | _ => _ end) as [count' delay'].
      destruct (stops (at_end a)); [done |].
      specialize (IH (S count') (Z.min (delay' * 2) MAX_RECONNECT_DELAY)).
      by destruct (log_stream (S count') _ (before ++ run ++ after)).
  - apply log_stream_sleeps. unfold delay_ok, INITIAL_DELAY, MAX_RECONNECT_DELAY. lia.
  - intros gaps Hg. unfold log_stream_async.
    assert (forall count delay, (count <= 1)%nat ->
      snd (log_stream count delay (concat (map (fun g => g.1 ++ [g.2]) gaps))) = Reading) as H; [| by apply H; lia].
    induction Hg as [|[g a] gaps (Hl & Hf & Hm & Hs) Hg IH]; intros count delay Hc; simpl in *.
    + by destruct count as [|[]]; [| | lia].
    + assert (forall n delay, (n + length g < 10)%nat ->
        snd (log_stream n delay ((g ++ [a]) ++ concat (map (fun g => g.1 ++ [g.2]) gaps))) = Reading) as H;
        [| by apply H; lia].
      clear Hl Hc delay count. induction Hf as [|x g [Hxm Hxs] Hf IHg]; intros n delay Hn; simpl in Hn.
      * cbn [app log_stream]. assert ((n <? MAX_RECONNECTS)%nat = true) as -> by (apply Nat.ltb_lt; unfold MAX_RECONNECTS; lia).
        destruct (at_messages a) as [|m ms]; [done |]. rewrite Hs.
        specialize (IH 1%nat (Z.min (INITIAL_DELAY * 2) MAX_RECONNECT_DELAY) ltac:(lia)).
        by destruct (log_stream 1 _ _).
      * cbn [app log_stream]. assert ((n <? MAX_RECONNECTS)%nat = true) as -> by (apply Nat.ltb_lt; unfold MAX_RECONNECTS; lia).
        rewrite Hxm, Hxs. specialize (IHg (S n) (Z.min (delay * 2) MAX_RECONNECT_DELAY) ltac:(lia)).
        by destruct (log_stream (S n) _ _).
Qed.

(** ** Concrete instances *)

Definition demo_answers (i : nat) : status_answer :=
  match i with
  | O => StatusResponse 5
  | _ => StatusRpcError UNAVAILABLE "gone"
  end.

Example demo_hook_wait :
  wait_for_hook_status demo_answers 120 AVAILABLE 60000 (mkClient false 0) =
    Some (inl (StatusDriverError "Failed to get exporter status: gone"), mkClient false 2).
Proof. reflexivity. Qed.

Lemma hook_status_wait_witness :
  exists r c', wait_for_hook_status demo_answers 120 AVAILABLE 60000 (mkClient false 0) = Some (r, c').
Proof.
  destruct (hook_status_wait demo_answers 120 AVAILABLE 60000 0) as (i & r & c' & H & _);
    [vm_compute; lia |].
  exists r, c'. exact H.
Defined.

Lemma lease_ready_wait_witness :
  exists r c', wait_for_lease_ready demo_answers 600 300000 (mkClient false 0) = Some (r, c').
Proof.
  destruct (lease_ready_wait demo_answers 600 300000 0) as (i & r & c' & H & _); [vm_compute; lia |].
  exists r, c'. exact H.
Defined.

Definition silent : attempt := mkAttempt [] (StreamRpcError UNAVAILABLE).

Lemma log_stream_gives_up_witness :
  log_stream_async (repeat silent 10) =
    ([100; 200; 400; 800; 1600; 2000; 2000; 2000; 2000; 2000], GaveUp) /\
  snd (log_stream_async (repeat silent 10)) <> Reading.
Proof.
  split; [vm_compute; reflexivity |].
  destruct (log_stream_gives_up [] (repeat silent 10) []) as [H _].
  - repeat (apply Forall_cons; split; [split; reflexivity |]). apply Forall_nil. exact I.
  - reflexivity.
  - exact H.
Defined.
