(* ===== verification/GrpcClient.v ===== *)
(** * The client service: messages, tables, requests and listings

    [client/grpc.py] ([Exporter], [Lease], their lists, [ClientService] and the
    multipath stub), the calls of [config/client.py] on it (pages collected until
    the token is empty, leases joined to exporters) and the commands
    [get leases], [delete leases] and [update lease] of the CLI.

    The controller is the parameter [stub]: the answer to the n-th request. A
    service call is a function of the requests sent so far. Times and durations
    are microseconds; the conversions of the protobuf well-known types are
    parameters. Selectors and filters are lists of code points, as in Selectors.v. *)

From stdpp Require Import base list strings sorting pretty.
From Stdlib Require Import ZArith Lia Ascii.
From S2P Require Import Prelude PyText Enums Selectors Connect.

Import Conditions.
Open Scope Z_scope.
Open Scope list_scope.

Abbreviation text := (list Z).

(** ** Tables *)

Record WithOptions := mkWithOptions {
  show_online : bool;
  show_leases : bool;
  show_status : bool;
  show_disabled : bool
}.

Definition no_options : WithOptions := mkWithOptions false false false false.

Record Table := mkTable { columns : list string; rows : list (list string) }.

Definition add_column (c : string) (t : Table) : Table := mkTable (columns t ++ [c]) (rows t).
Definition add_row (r : list string) (t : Table) : Table := mkTable (columns t) (rows t ++ [r]).

Definition when (b : bool) (f : Table -> Table) (t : Table) : Table := if b then f t else t.

Definition add_display_columns (options : option WithOptions) (t : Table) : Table :=
  let o := default no_options options in
  let t := add_column "NAME" t in
  let t := when (show_disabled o) (add_column "ENABLED") t in
  let t := when (show_online o) (add_column "ONLINE") t in
  let t := when (show_status o) (add_column "STATUS") t in
  let t := add_column "LABELS" t in
  when (show_leases o)
    (fun t => add_column "RELEASE TIME" (add_column "LEASE STATUS" (add_column "LEASED BY" t))) t.

(** ** Identifiers *)

Inductive exn :=
| ValueError (msg : string)
| ConnectionError (msg : string) (cause : option string) (config : bool)
| ConfigurationError (msg : string) (cause : option string)
| UsageError (msg : string)
| ClickException (msg : string)
| StopIteration
| OtherError (msg : string)
| OutOfFuel.

(** [str] of a jumpstarter exception. *)
Definition exn_str (msg : string) (cause : option string) : string :=
  match cause with
  | Some c => (msg ++ " (Caused by: " ++ c ++ ")")%string
  | None => msg
  end.

Definition parse_identifier (identifier kind : string) : exn + (string * string) :=
  let segments := Str.split_char "/"%char identifier in
  match segments with
  | [s0; s1; s2; s3] =>
      if negb (String.eqb s0 "namespaces")
      then inl (ValueError ("incorrect first segment in identifier, expecting namespaces, got " ++ s0))
      else if negb (String.eqb s2 kind)
      then inl (ValueError ("incorrect third segment in identifier, expecting " ++ kind ++ ", got " ++ s2))
      else inr (s1, s3)
  | _ => inl (ValueError ("incorrect number of segments in identifier, expecting 4, got " ++
                          pretty (length segments)))
  end%string.

Definition parse_client_identifier (identifier : string) := parse_identifier identifier "clients".
Definition parse_exporter_identifier (identifier : string) := parse_identifier identifier "exporters".
Definition parse_lease_identifier (identifier : string) := parse_identifier identifier "leases".

(** ["namespaces/{}/exporters/{}".format(namespace, name)] and the like. *)
Definition identifier (namespace kind name : string) : string :=
  ("namespaces/" ++ namespace ++ "/" ++ kind ++ "/" ++ name)%string.

(** ** Messages of the controller *)

Record PbExporter := mkPbExporter {
  pe_name : string;
  pe_labels : list (string * string);
  pe_online : bool;
  pe_status : Z;
  pe_enabled : option bool;
  pe_deprecated_labels : list (string * string)
}.

Record PbTime := mkPbTime { seconds : Z; nanos : Z }.

Record PbLease := mkPbLease {
  pl_name : string;
  pl_selector : text;
  pl_exporter_name : string;
  pl_tags : list (string * string);
  pl_context : list (string * string);
  pl_duration : PbTime;
  pl_effective_duration : option PbTime;
  pl_begin_time : option PbTime;
  pl_client : string;
  pl_exporter : string;
  pl_conditions : list Condition;
  pl_effective_begin_time : option PbTime;
  pl_effective_end_time : option PbTime;
  pl_allow_disabled : bool;
  pl_deprecated_labels : list (string * string)
}.

Record Lease := mkLease {
  namespace : string;
  name : string;
  selector : text;
  exporter_name : option string;
  tags : list (string * string);
  context : list (string * string);
  duration : Z;
  effective_duration : option Z;
  begin_time : option Z;
  client : string;
  exporter : string;
  conditions : list Condition;
  effective_begin_time : option Z;
  effective_end_time : option Z;
  deprecated_labels : list (string * string)
}.

Record Exporter := mkExporter {
  e_namespace : string;
  e_name : string;
  e_labels : list (string * string);
  e_online : bool;
  e_status : option ExporterStatus;
  e_enabled : bool;
  e_lease : option Lease;
  e_deprecated_labels : list (string * string)
}.

Definition with_lease (l : option Lease) (e : Exporter) : Exporter :=
  mkExporter (e_namespace e) (e_name e) (e_labels e) (e_online e) (e_status e) (e_enabled e) l
    (e_deprecated_labels e).

Definition exporter_from_protobuf (data : PbExporter) : exn + Exporter :=
  match parse_exporter_identifier (pe_name data) with
  | inl e => inl e
  | inr (namespace, name) =>
      match (if pe_status data =? 0 then inr None
             else match ExporterStatusOps.from_proto (pe_status data) with
                  | Some s => inr (Some s)
                  | None => inl (ValueError (pretty (pe_status data) ++ " is not a valid ExporterStatus")%string)
                  end) with
      | inl e => inl e
      | inr status =>
          inr (mkExporter namespace name (pe_labels data) (pe_online data) status
                 (default true (pe_enabled data)) None (pe_deprecated_labels data))
      end
  end.

(** [x or None] and [x or ""] on strings. *)
Definition or_none (s : string) : option string := if truthy s then Some s else None.
Definition or_empty (s : option string) : string := default ""%string s.

(** ** Derived values of a lease *)

(** [f"{k}={v}"] of the sorted items, joined with commas. *)
Definition show_items (d : list (string * string)) : string :=
  Str.join "," (map label_pair (sorted_items d)).

Definition last_condition (l : Lease) : option Condition := last (conditions l).

Definition get_status (l : Lease) : string :=
  match effective_end_time l with
  | Some _ => "Ended"
  | None =>
      match last_condition l with
      | None => "Unknown"
      | Some c =>
          if String.eqb (type_ c) "Ready" && String.eqb (status_ c) "True" then "In-Use"
          else if String.eqb (type_ c) "Ready" && String.eqb (status_ c) "False" then "Waiting"
          else if String.eqb (type_ c) "Expired" then "Expired"
          else if truthy (reason_ c) then reason_ c else "Unknown"
      end
  end%string.

Definition compute_expires_at (l : Lease) : option Z :=
  match effective_end_time l with
  | Some t => Some t
  | None =>
      match effective_begin_time l, duration l =? 0 with
      | Some b, false => Some (b + duration l)
      | _, _ =>
          match begin_time l, duration l =? 0 with
          | Some b, false => Some (b + duration l)
          | _, _ => None
          end
      end
  end.

Definition SECOND : Z := 1000 * 1000.
Definition DAY : Z := 86400 * SECOND.

(** [remaining.days] and [remaining.seconds] of a [timedelta]. *)
Definition td_days (d : Z) : Z := d / DAY.
Definition td_seconds (d : Z) : Z := (d mod DAY) / SECOND.

Definition part (n : Z) (unit : string) : string := (pretty n ++ unit)%string.

Definition format_remaining (now : Z) (expires_at : option Z) : string :=
  match expires_at with
  | None => ""
  | Some t =>
      let remaining := t - now in
      if remaining <=? 0 then "expired"
      else
        let days := td_days remaining in
        let hours := td_seconds remaining / 3600 in
        let minutes := (td_seconds remaining mod 3600) / 60 in
        let parts := if days =? 0 then [] else [part days "d"] in
        let parts := if hours =? 0 then parts else parts ++ [part hours "h"] in
        let parts := if (minutes =? 0) && negb (bool_decide (parts = [])) then parts
                     else parts ++ [part minutes "m"] in
        Str.join " " parts
  end.

(** ** Rows *)

Section Rows.

Context (strftime : Z -> string) (now : Z).

Definition yes_no (b : bool) : string := if b then "yes" else "no".

(** An [IntEnum] member is falsy when its value is zero. *)
Definition show_exporter_status (s : option ExporterStatus) : string :=
  match s with
  | None | Some UNSPECIFIED => "UNKNOWN"
  | Some s => ExporterStatusOps.str s
  end.

Definition add_exporter_row (e : Exporter) (options : option WithOptions)
    (lease_info : option (string * string * string)) (t : Table) : Table :=
  let o := default no_options options in
  let row_data := [e_name e] in
  let row_data := if show_disabled o then row_data ++ [yes_no (e_enabled e)] else row_data in
  let row_data := if show_online o then row_data ++ [yes_no (e_online e)] else row_data in
  let row_data := if show_status o then row_data ++ [show_exporter_status (e_status e)] else row_data in
  let row_data := row_data ++ [show_items (e_labels e)] in
  let row_data :=
    if show_leases o then
      let '(lease_client, lease_status, expected_release) :=
        match lease_info with Some i => i | None => ("", "Available", "")%string end in
      row_data ++ [lease_client; lease_status; expected_release]
    else row_data in
  add_row row_data t.

Definition exporter_release_time (l : Lease) : string :=
  match effective_end_time l, effective_begin_time l, begin_time l with
  | Some t, _, _ => strftime t
  | None, Some t, _ => strftime (t + duration l)
  | None, None, Some t => strftime (t + duration l)
  | None, None, None => ""
  end.

Definition exporter_rich_add_rows (e : Exporter) (options : option WithOptions) (t : Table) : Table :=
  let lease_info :=
    match options, e_lease e with
    | Some o, Some l =>
        if show_leases o then Some (client l, get_status l, exporter_release_time l) else None
    | Some o, None => if show_leases o then Some ("", "Available", "")%string else None
    | None, _ => None
    end in
  add_exporter_row e options lease_info t.

Definition lease_rich_add_columns (t : Table) : Table :=
  fold_left (fun t c => add_column c t)
    ["NAME"; "SELECTOR"; "EXPIRES AT"; "REMAINING"; "CLIENT"; "EXPORTER"; "TAGS"]%string t.

(** The selector is shown as it is: the cell is its text. *)
Context (shown : text -> string).

Definition lease_rich_add_rows (l : Lease) (t : Table) : Table :=
  let expires_at := compute_expires_at l in
  let expires_at_str := match expires_at with Some x => strftime x | None => ""%string end in
  let remaining_str := format_remaining now expires_at in
  add_row [name l; shown (selector l); expires_at_str; remaining_str; client l; exporter l;
           show_items (tags l)] t.

End Rows.

(** ** Lists *)

Record ExporterList := mkExporterList {
  exporters : list Exporter;
  e_next_page_token : option string;
  include_online : bool;
  include_leases : bool;
  include_status : bool;
  include_disabled : bool
}.

Record LeaseList := mkLeaseList { leases : list Lease; next_page_token : option string }.

Definition visible_exporters (l : ExporterList) : list Exporter :=
  if include_disabled l then exporters l else List.filter e_enabled (exporters l).

Definition display_options (l : ExporterList) : WithOptions :=
  mkWithOptions (include_online l) (include_leases l) (include_status l) (include_disabled l).

(** [rich_add_columns] and [rich_add_rows] on a new table. *)
Definition exporter_table (strftime : Z -> string) (l : ExporterList) : Table :=
  let options := Some (display_options l) in
  fold_left (fun t e => exporter_rich_add_rows strftime e options t) (visible_exporters l)
    (add_display_columns options (mkTable [] [])).

Definition lease_table (strftime : Z -> string) (now : Z) (shown : text -> string) (l : LeaseList)
    : Table :=
  fold_left (fun t x => lease_rich_add_rows strftime now shown x t) (leases l)
    (lease_rich_add_columns (mkTable [] [])).

(** [rich_add_names] *)
Definition exporter_names (l : ExporterList) : list string := map e_name (visible_exporters l).
Definition lease_names (l : LeaseList) : list string := map name (leases l).

(** The fields of an exporter that [model_dump] leaves out. *)
Definition exclude_fields (l : ExporterList) (caller_exclude : list string) : list string :=
  (if include_leases l then [] else ["lease"]) ++
  (if include_online l then [] else ["online"]) ++
  (if include_status l then [] else ["status"]) ++
  (if include_disabled l then [] else ["enabled"]) ++ caller_exclude.

Definition model_fields : list string :=
  ["namespace"; "name"; "labels"; "online"; "status"; "enabled"; "lease"; "deprecated_labels"].

(** The keys of the dictionaries of [model_dump], one per exporter shown. *)
Definition model_dump_keys (l : ExporterList) (caller_exclude : list string)
    : list (string * list string) :=
  map (fun e => (e_name e,
                 List.filter (fun f => negb (existsb (String.eqb f) (exclude_fields l caller_exclude)))
                   model_fields))
    (visible_exporters l).

(** [ValueError] is raised only for an unknown operator, which the parser never makes. *)
Definition filter_by_selector (filter_selector : option text) (l : LeaseList) : LeaseList :=
  match filter_selector with
  | None | Some [] => l
  | Some f => mkLeaseList (List.filter (fun x => Selector.selector_contains (selector x) f) (leases l)) None
  end.

Definition filter_by_client (client_name : string) (l : LeaseList) : LeaseList :=
  mkLeaseList (List.filter (fun x => String.eqb (client x) client_name) (leases l)) None.

(** ** Requests *)

Record PbLeaseList := mkPbLeaseList { pb_leases : list PbLease; pb_leases_token : string }.
Record PbExporterList := mkPbExporterList { pb_exporters : list PbExporter; pb_exporters_token : string }.

Inductive request :=
| GetExporterRequest (name : string) (show_hidden_labels : bool)
| ListExportersRequest (parent : string) (page_size : option Z) (page_token : option string)
    (filter : option text) (show_hidden_labels : bool)
| GetLeaseRequest (name : string)
| ListLeasesRequest (parent : string) (page_size : option Z) (page_token : option string)
    (filter : option text) (only_active : bool) (tag_filter : string)
| CreateLeaseRequest (parent : string) (lease : PbLease) (lease_id : string)
| UpdateLeaseRequest (lease : PbLease) (update_mask : list string)
| DeleteLeaseRequest (name : string)
| RotateTokenRequest (parent : string).

Definition response (q : request) : Type :=
  match q with
  | GetExporterRequest _ _ => PbExporter
  | ListExportersRequest _ _ _ _ _ => PbExporterList
  | GetLeaseRequest _ => PbLease
  | ListLeasesRequest _ _ _ _ _ _ => PbLeaseList
  | CreateLeaseRequest _ _ _ => PbLease
  | UpdateLeaseRequest _ _ => PbLease
  | DeleteLeaseRequest _ => unit
  | RotateTokenRequest _ => string
  end.

(** What a call can raise: the code, the details and the text of a gRPC error, or
    the text of another exception. *)
Inductive failure :=
| AioRpcError (code details str : string)
| RpcError (str : string)
| RaisedValueError (str : string)
| RaisedOther (str : string).

Definition translate_grpc_exceptions (f : failure) : exn :=
  match f with
  | AioRpcError code details str =>
      if String.eqb code "UNAVAILABLE" then ConnectionError ("grpc error: " ++ details) None false
      else if String.eqb code "UNKNOWN"
      then ConnectionError ("grpc controller responded: " ++ details) None false
      else ConnectionError "grpc error" (Some str) false
  | RpcError str => ConnectionError "grpc error" (Some str) false
  | RaisedValueError str => ConfigurationError "grpc error" (Some str)
  | RaisedOther str => OtherError str
  end%string.

(** The requests sent so far, and an exception or a value. *)
Definition M (A : Type) : Type := list request -> list request * (exn + A).

Definition ret {A} (a : A) : M A := fun w => (w, inr a).
Definition raise {A} (e : exn) : M A := fun w => (w, inl e).
Definition lift {A} (r : exn + A) : M A := fun w => (w, r).
Definition bind {A B} (m : M A) (g : A -> M B) : M B := fun w =>
  match m w with
  | (w', inl e) => (w', inl e)
  | (w', inr a) => g a w'
  end.

Declare Scope grpc_scope.
Notation "x <- m ; g" := (bind m (fun x => g))
  (at level 20, m at level 100, g at level 200, only parsing) : grpc_scope.
Notation "m ;; g" := (bind m (fun _ => g))
  (at level 100, g at level 200, right associativity, only parsing) : grpc_scope.
Open Scope grpc_scope.

Section Service.

Context (stub : forall q : request, nat -> failure + response q).
Context (to_timedelta to_datetime : PbTime -> Z) (from_timedelta from_datetime : Z -> PbTime).
Context (from_json_string : string -> string + list string).

(** A request under [translate_grpc_exceptions]. *)
Definition call (q : request) : M (response q) := fun w =>
  (w ++ [q], match stub q (length w) with
             | inl f => inl (translate_grpc_exceptions f)
             | inr r => inr r
             end).

Definition lease_from_protobuf (data : PbLease) : exn + Lease :=
  match parse_lease_identifier (pl_name data) with
  | inl e => inl e
  | inr (namespace, name) =>
      match parse_client_identifier (pl_client data) with
      | inl e => inl e
      | inr (_, client) =>
          match (if String.eqb (pl_exporter data) "" then inr ""%string
                 else match parse_exporter_identifier (pl_exporter data) with
                      | inl e => inl e
                      | inr (_, exporter) => inr exporter
                      end) with
          | inl e => inl e
          | inr exporter =>
              inr (mkLease namespace name (pl_selector data) (or_none (pl_exporter_name data))
                     (pl_tags data) (pl_context data) (to_timedelta (pl_duration data))
                     (option_map to_timedelta (pl_effective_duration data))
                     (option_map to_datetime (pl_begin_time data)) client exporter
                     (pl_conditions data)
                     (option_map to_datetime (pl_effective_begin_time data))
                     (option_map to_datetime (pl_effective_end_time data))
                     (pl_deprecated_labels data))
          end
      end
  end.

Fixpoint map_all {A B} (f : A -> exn + B) (l : list A) : exn + list B :=
  match l with
  | [] => inr []
  | a :: l' =>
      match f a with
      | inl e => inl e
      | inr b => match map_all f l' with inl e => inl e | inr bs => inr (b :: bs) end
      end
  end.

Definition exporters_from_protobuf (data : PbExporterList) : exn + ExporterList :=
  match map_all exporter_from_protobuf (pb_exporters data) with
  | inl e => inl e
  | inr es => inr (mkExporterList es (Some (pb_exporters_token data)) false false false false)
  end.

Definition leases_from_protobuf (data : PbLeaseList) : exn + LeaseList :=
  match map_all lease_from_protobuf (pb_leases data) with
  | inl e => inl e
  | inr ls => inr (mkLeaseList ls (Some (pb_leases_token data)))
  end.

Definition parent_of (ns : string) : string := ("namespaces/" ++ ns)%string.

Definition GetExporter (ns name : string) (show_hidden_labels : bool) : M Exporter :=
  r <- call (GetExporterRequest (identifier ns "exporters" name) show_hidden_labels);
  lift (exporter_from_protobuf r).

Definition ListExporters (ns : string) (page_size : option Z) (page_token : option string)
    (filter : option text) (show_hidden_labels : bool) : M ExporterList :=
  r <- call (ListExportersRequest (parent_of ns) page_size page_token filter show_hidden_labels);
  lift (exporters_from_protobuf r).

Definition GetLease (ns name : string) : M Lease :=
  r <- call (GetLeaseRequest (identifier ns "leases" name));
  lift (lease_from_protobuf r).

Definition ListLeases (ns : string) (page_size : option Z) (page_token : option string)
    (filter : option text) (only_active : bool) (tag_filter : option string) : M LeaseList :=
  r <- call (ListLeasesRequest (parent_of ns) page_size page_token
               (Selector.extract_match_labels_filter filter) only_active (or_empty tag_filter));
  lift (leases_from_protobuf r).

(** A message with every field unset. *)
Definition empty_lease : PbLease :=
  mkPbLease "" [] "" [] [] (mkPbTime 0 0) None None "" "" [] None None false [].

Definition CreateLease (ns : string) (selector : option text) (duration : Z)
    (exporter_name : option string) (begin_time : option Z) (lease_id : option string)
    (tags : option (list (string * string))) (allow_disabled : bool)
    (context : option (list (string * string))) : M Lease :=
  let lease_pb :=
    mkPbLease "" (default [] selector) (or_empty exporter_name)
      (dict_update [] (default [] tags)) (dict_update [] (default [] context))
      (from_timedelta duration) None (option_map from_datetime begin_time) "" "" [] None None
      allow_disabled [] in
  r <- call (CreateLeaseRequest (parent_of ns) lease_pb (or_empty lease_id));
  lift (lease_from_protobuf r).

Definition update_message (ns name : string) (duration begin_time : option Z) (client : option string)
    : PbLease :=
  mkPbLease (identifier ns "leases" name) [] "" [] []
    (match duration with Some d => from_timedelta d | None => mkPbTime 0 0 end) None
    (option_map from_datetime begin_time) (or_empty client) "" [] None None false [].

Definition update_fields (duration begin_time : option Z) (client : option string) : list string :=
  (match duration with Some _ => ["duration"] | None => [] end) ++
  (match begin_time with Some _ => ["begin_time"] | None => [] end) ++
  (match client with Some _ => ["client"] | None => [] end).

Definition UpdateLease (ns name : string) (duration begin_time : option Z) (client : option string)
    : M Lease :=
  match update_fields duration begin_time client with
  | [] => raise (ValueError "At least one of duration, begin_time, or client must be provided")
  | fields =>
      match from_json_string (Str.join "," fields) with
      | inl msg => raise (ValueError msg)
      | inr update_mask =>
          r <- call (UpdateLeaseRequest (update_message ns name duration begin_time client) update_mask);
          lift (lease_from_protobuf r)
      end
  end.

Definition DeleteLease (ns name : string) : M unit :=
  call (DeleteLeaseRequest (identifier ns "leases" name)).

Definition RotateToken (ns : string) : M string := call (RotateTokenRequest (parent_of ns)).

(** ** The client configuration's calls *)

Record Config := mkConfig {
  c_endpoint : option string;
  c_token : option string;
  c_namespace : string;
  c_name : string
}.

(** [channel]: only the missing endpoint or token is told apart here. *)
Definition channel (c : Config) : M unit :=
  match c_endpoint c, c_token c with
  | Some _, Some _ => ret tt
  | _, _ => raise (ConfigurationError "endpoint or token not set in client config" None)
  end.

Definition attach_config_if_expired_token (e : exn) : exn :=
  match e with
  | ConnectionError msg cause config =>
      ConnectionError msg cause
        (config || Str.str_contains "token is expired" (exn_str msg cause))
  | _ => e
  end.

Definition handle_connection_error {A} (m : M A) : M A := fun w =>
  match m w with
  | (w', inl e) => (w', inl (attach_config_if_expired_token e))
  | r => r
  end.

Definition get_exporter (c : Config) (name : string) (show_hidden_labels : bool) : M Exporter :=
  handle_connection_error (channel c;; GetExporter (c_namespace c) name show_hidden_labels).

(** [x] is truthy: a token that is set and not empty. *)
Definition next_token (t : option string) : option string :=
  match t with Some s => or_none s | None => None end.

Fixpoint collect_leases (n : nat) (ns : string) (page_size : Z) (only_active : bool)
    (filter : option text) (tag_filter : option string) (all_leases : list Lease)
    (page_token : option string) : M LeaseList :=
  match n with
  | O => raise OutOfFuel
  | S n' =>
      page <- ListLeases ns (Some page_size) page_token filter only_active tag_filter;
      let all_leases := all_leases ++ leases page in
      match next_token (next_page_token page) with
      | None => ret (mkLeaseList all_leases None)
      | Some t => collect_leases n' ns page_size only_active filter tag_filter all_leases (Some t)
      end
  end.

Definition collect_all_leases (n : nat) (ns : string) (page_size : Z) (only_active : bool)
    (filter : option text) (tag_filter : option string) : M LeaseList :=
  collect_leases n ns page_size only_active filter tag_filter [] None.

Fixpoint collect_exporters (n : nat) (ns : string) (page_size : Z) (filter : option text)
    (show_hidden_labels : bool) (all_exporters : list Exporter) (page_token : option string)
    : M (list Exporter) :=
  match n with
  | O => raise OutOfFuel
  | S n' =>
      page <- ListExporters ns (Some page_size) page_token filter show_hidden_labels;
      let all_exporters := all_exporters ++ exporters page in
      match next_token (e_next_page_token page) with
      | None => ret all_exporters
      | Some t => collect_exporters n' ns page_size filter show_hidden_labels all_exporters (Some t)
      end
  end.

(** The lease is shown with its exporter. *)
Definition lease_in_use (l : Lease) : bool :=
  truthy (exporter l) && is_some (effective_begin_time l) &&
  match last_condition l with
  | Some c => String.eqb (type_ c) "Ready" && String.eqb (status_ c) "True"
  | None => false
  end.

Definition lease_map (ls : list Lease) : list (string * Lease) :=
  fold_left (fun m l => if lease_in_use l then dict_set (exporter l) l m else m) ls [].

Definition list_exporters (n : nat) (c : Config) (filter : option text)
    (include_leases include_online include_status include_disabled : bool) (page_size : Z)
    (show_hidden_labels : bool) : M ExporterList :=
  handle_connection_error (
    channel c;;
    all_exporters <- collect_exporters n (c_namespace c) page_size filter show_hidden_labels [] None;
    if negb include_leases
    then ret (mkExporterList all_exporters None include_online false include_status include_disabled)
    else
      leases_response <- collect_all_leases n (c_namespace c) page_size true None None;
      let m := lease_map (leases leases_response) in
      ret (mkExporterList (map (fun e => with_lease (dict_get (e_name e) m) e) all_exporters) None
             include_online true include_status include_disabled)).

Definition create_lease (c : Config) (duration : Z) (selector : option text)
    (exporter_name : option string) (begin_time : option Z) (lease_id : option string)
    (tags : option (list (string * string))) (allow_disabled : bool)
    (context : option (list (string * string))) : M Lease :=
  handle_connection_error (
    channel c;;
    CreateLease (c_namespace c) selector duration exporter_name begin_time lease_id tags
      allow_disabled context).

Definition delete_lease (c : Config) (name : string) : M unit :=
  handle_connection_error (channel c;; DeleteLease (c_namespace c) name).

Definition get_lease (c : Config) (name : string) : M Lease :=
  handle_connection_error (channel c;; GetLease (c_namespace c) name).

Definition list_leases (n : nat) (c : Config) (filter : option text) (only_active : bool)
    (page_size : Z) (tag_filter : option string) : M LeaseList :=
  handle_connection_error (
    channel c;; collect_all_leases n (c_namespace c) page_size only_active filter tag_filter).

Definition update_lease (c : Config) (name : string) (duration begin_time : option Z)
    (client : option string) : M Lease :=
  handle_connection_error (channel c;; UpdateLease (c_namespace c) name duration begin_time client).

Definition rotate_token (c : Config) : M string :=
  handle_connection_error (channel c;; RotateToken (c_namespace c)).

(** ** Commands *)

Definition text_truthy (s : option text) : bool :=
  match s with Some (_ :: _) => true | _ => false end.
Definition string_truthy (s : option string) : bool := truthy (or_empty s).

(** [jmp get leases]: what is printed. *)
Definition get_leases (n : nat) (c : Config) (name : option string) (selector : option text)
    (show_all all_clients : bool) (tag_filter : option string) (page_size : Z) : M (Lease + LeaseList) :=
  if string_truthy name then
    if text_truthy selector || string_truthy tag_filter
    then raise (UsageError "NAME cannot be combined with --selector or --tag-filter")
    else lease <- get_lease c (or_empty name); ret (inl lease)
  else
    found <- list_leases n c selector (negb show_all) page_size tag_filter;
    let found := filter_by_selector selector found in
    ret (inr (if all_clients then found else filter_by_client (c_name c) found)).

Fixpoint delete_each (c : Config) (names : list string) : M (list string) :=
  match names with
  | [] => ret []
  | x :: xs => delete_lease c x;; rest <- delete_each c xs; ret (x :: rest)
  end.

(** [jmp delete leases]: the names deleted. *)
Definition delete_leases (n : nat) (c : Config) (names : list string) (selector : option text)
    (delete_all all_clients : bool) : M (list string) :=
  to_delete <-
    (match names with
     | _ :: _ => ret names
     | [] =>
         if text_truthy selector then
           found <- list_leases n c selector true 100 None;
           let found := filter_by_selector selector found in
           let found := if all_clients then found else filter_by_client (c_name c) found in
           ret (map name (leases found))
         else if delete_all || all_clients then
           found <- list_leases n c None true 100 None;
           let found := if all_clients then found else filter_by_client (c_name c) found in
           ret (map name (leases found))
         else raise (ClickException "One of NAMES, --selector, --all or --all-clients must be specified")
     end);
  match to_delete with
  | [] => raise (ClickException "no leases found matching the criteria")
  | _ => delete_each c to_delete
  end.

(** [jmp update lease] *)
Definition update_lease_command (c : Config) (name : string) (duration begin_time : option Z)
    (to_client : option string) : M Lease :=
  match duration, begin_time, to_client with
  | None, None, None =>
      raise (UsageError "At least one of --duration, --begin-time, or --to-client must be specified")
  | _, _, _ =>
      let client_path := if string_truthy to_client
                         then Some (identifier (c_namespace c) "clients" (or_empty to_client)) else None in
      update_lease c name duration begin_time client_path
  end.

End Service.

(** ** Several channels to one exporter *)

Inductive connectivity := IDLE | CONNECTING | READY | TRANSIENT_FAILURE | SHUTDOWN.

#[export] Instance connectivity_eq_dec : EqDecision connectivity.
Proof. solve_decision. Defined.

(** [__post_init__]: one stub per channel, in the order of the channels; a channel
    given twice keeps its first place. *)
Fixpoint stubs (channels : list nat) : list nat :=
  match channels with
  | [] => []
  | c :: cs => c :: List.filter (fun d => negb (Nat.eqb c d)) (stubs cs)
  end.

(** [__getattr__]: the channel whose stub answers. *)
Definition pick_stub (get_state : nat -> connectivity) (channels : list nat) : exn + nat :=
  match List.find (fun c => bool_decide (get_state c = READY)) (stubs channels) with
  | Some c => inr c
  | None => match last (stubs channels) with Some c => inr c | None => inl StopIteration end
  end.

(** * Theorems *)

(** ** Identifiers *)

Lemma split_identifier ns kind nm :
  Str.has_char "/" ns = false -> Str.has_char "/" kind = false -> Str.has_char "/" nm = false ->
  Str.split_char "/" (identifier ns kind nm) = ["namespaces"; ns; kind; nm]%string.
Proof.
  intros H1 H2 H3.
  change (identifier ns kind nm) with (Str.join "/" ["namespaces"; ns; kind; nm]%string).
  apply Str.split_char_join; [done |].
  repeat (apply Forall_cons; split; [done |]). apply Forall_nil; done.
Qed.

(** An identifier parses exactly when it is the one the client builds from a
    namespace and a name without slashes, and the parts read back are those. *)
Theorem parse_identifier_iff kind id ns nm :
  Str.has_char "/" kind = false ->
  parse_identifier id kind = inr (ns, nm) <->
  id = identifier ns kind nm /\ Str.has_char "/" ns = false /\ Str.has_char "/" nm = false.
Proof.
  intros Hk. split.
  - unfold parse_identifier. intros H.
    pose proof (Str.join_split "/" id) as Hj. pose proof (fun p => Str.split_char_no_sep "/" id p) as Hn.
    destruct (Str.split_char "/" id) as [|s0 [|s1 [|s2 [|s3 [|s4 l]]]]]; try discriminate H.
    destruct (String.eqb_spec s0 "namespaces") as [->|]; [| discriminate H].
    destruct (String.eqb_spec s2 kind) as [->|]; [| discriminate H].
    cbn [negb] in H. injection H as -> ->.
    split; [by rewrite <- Hj | split; apply Hn; simpl; tauto].
  - intros (-> & H1 & H2). unfold parse_identifier. rewrite split_identifier by done.
    rewrite !String.eqb_refl. done.
Qed.

Lemma parse_identifier_iff_witness :
  parse_exporter_identifier "namespaces/lab/exporters/rpi4" = inr ("lab", "rpi4")%string.
Proof. apply (parse_identifier_iff "exporters"); [reflexivity |]. repeat split; reflexivity. Defined.

(** ** Tables *)

(** What the cell of an exporter under a header shows. *)
Definition exporter_cell (strftime : Z -> string) (e : Exporter) (column : string) : string :=
  if String.eqb column "NAME" then e_name e
  else if String.eqb column "ENABLED" then yes_no (e_enabled e)
  else if String.eqb column "ONLINE" then yes_no (e_online e)
  else if String.eqb column "STATUS" then show_exporter_status (e_status e)
  else if String.eqb column "LABELS" then show_items (e_labels e)
  else if String.eqb column "LEASED BY" then from_option client ""%string (e_lease e)
  else if String.eqb column "LEASE STATUS" then from_option get_status "Available"%string (e_lease e)
  else from_option (exporter_release_time strftime) ""%string (e_lease e).

Lemma fold_rows (strftime : Z -> string) o es t :
  (forall e t, exporter_rich_add_rows strftime e (Some o) t =
     add_row (map (exporter_cell strftime e) (columns (add_display_columns (Some o) (mkTable [] [])))) t) ->
  fold_left (fun t e => exporter_rich_add_rows strftime e (Some o) t) es t =
  mkTable (columns t)
    (rows t ++ map (fun e => map (exporter_cell strftime e)
       (columns (add_display_columns (Some o) (mkTable [] [])))) es).
Proof.
  intros H. revert t. induction es as [|e es IH]; intros t; cbn [fold_left map].
  - rewrite app_nil_r. by destruct t.
  - rewrite IH, H. cbn [columns rows add_row]. by rewrite <- app_assoc.
Qed.

Lemma exporter_row_cells strftime e o t :
  exporter_rich_add_rows strftime e (Some o) t =
  add_row (map (exporter_cell strftime e) (columns (add_display_columns (Some o) (mkTable [] [])))) t.
Proof.
  destruct o as [[] [] [] []]; unfold exporter_rich_add_rows; destruct (e_lease e) eqn:E;
    unfold add_exporter_row, exporter_cell; rewrite ?E; reflexivity.
Qed.

(** For every choice of options the table of an exporter list is rectangular and
    each cell is under its own header: the row of an exporter is its cell function
    over the columns, and the exporters shown are the enabled ones, or all of them
    when disabled ones are included. *)
Theorem exporter_table_cells strftime l :
  rows (exporter_table strftime l) =
    map (fun e => map (exporter_cell strftime e) (columns (exporter_table strftime l)))
      (visible_exporters l) /\
  (forall e, e ∈ visible_exporters l <-> e ∈ exporters l /\ (include_disabled l = true \/ e_enabled e = true)) /\
  (include_disabled l = false <-> ~ "ENABLED"%string ∈ columns (exporter_table strftime l)).
Proof.
  unfold exporter_table. rewrite fold_rows by (intros; apply exporter_row_cells). cbn [columns rows].
  assert (rows (add_display_columns (Some (display_options l)) (mkTable [] [])) = []) as ->
    by (destruct l as [? ? [] [] [] []]; reflexivity).
  split; [reflexivity | split].
  - intros e. unfold visible_exporters. destruct (include_disabled l); [naive_solver |].
    rewrite !list_elem_of_In, filter_In. naive_solver.
  - destruct l as [? ? [] [] [] []]; cbn; rewrite ?elem_of_cons, ?elem_of_nil; naive_solver.
Qed.

(** ** Remaining time *)

(** The remaining time of a lease is shown as days, hours and minutes whose sum
    is the time left rounded down to the minute, with the zero parts left out,
    "0m" in the last minute and "expired" from the end on. *)
Theorem format_remaining_spec now t :
  (t <= now /\ format_remaining now (Some t) = "expired"%string) \/
  (now < t /\ exists d h m,
     0 <= d /\ 0 <= h < 24 /\ 0 <= m < 60 /\
     d * 1440 + h * 60 + m = (t - now) / (60 * SECOND) /\
     format_remaining now (Some t) =
       Str.join " " (match List.filter (fun p => negb (fst p =? 0)) [(d, "d"); (h, "h"); (m, "m")]%string with
                     | [] => ["0m"%string]
                     | ps => map (fun p => part (fst p) (snd p)) ps
                     end)).
Proof.
  unfold format_remaining. destruct (Z.leb_spec (t - now) 0) as [H|H]; [left; split; [lia | done] |].
  right. split; [lia |]. set (r := t - now) in *.
  exists (td_days r), (td_seconds r / 3600), ((td_seconds r mod 3600) / 60).
  assert (0 <= td_seconds r < 86400) as Hs.
  { unfold td_seconds. pose proof (Z.mod_pos_bound r DAY ltac:(unfold DAY, SECOND; lia)).
    split; [apply Z.div_pos; unfold SECOND; lia |].
    apply Z.div_lt_upper_bound; unfold DAY, SECOND in *; lia. }
  assert (0 <= td_days r) by (apply Z.div_pos; unfold DAY, SECOND; lia).
  split; [done |].
  split; [split; [apply Z.div_pos; lia | apply Z.div_lt_upper_bound; lia] |].
  pose proof (Z.mod_pos_bound (td_seconds r) 3600 ltac:(lia)).
  split; [split; [apply Z.div_pos; lia | apply Z.div_lt_upper_bound; lia] |].
  split.
  - assert (r / SECOND = td_days r * 86400 + td_seconds r) as Hr.
    { unfold td_days, td_seconds. rewrite (Z.div_mod r DAY) at 1 by (unfold DAY, SECOND; lia).
      unfold DAY at 1. replace (86400 * SECOND * (r / DAY) + r mod DAY)
        with (r mod DAY + (r / DAY * 86400) * SECOND) by lia.
      rewrite Z.div_add by (unfold SECOND; lia). lia. }
    replace (60 * SECOND) with (SECOND * 60) by lia.
    rewrite <- Z.div_div by (unfold SECOND; lia). rewrite Hr.
    pose proof (Z.div_mod (td_seconds r) 3600 ltac:(lia)).
    replace (td_days r * 86400 + td_seconds r)
      with (td_seconds r mod 3600 + (td_days r * 1440 + td_seconds r / 3600 * 60) * 60) by lia.
    rewrite Z.div_add by lia. lia.
  - cbn [List.filter fst]. destruct (td_days r =? 0), (td_seconds r / 3600 =? 0),
      (td_seconds r mod 3600 / 60 =? 0) eqn:Em; cbn; try reflexivity.
    apply Z.eqb_eq in Em. by rewrite Em.
Qed.

(** ** Listing *)

Section Listing.

Context (stub : forall q : request, nat -> failure + response q).
Context (to_timedelta to_datetime : PbTime -> Z).

(** The controller answers every page of a query: what is left from a token on is
    the page and what is left from the next token on, and some measure of the tokens
    decreases. *)
Definition serves_pages (query : option string -> request)
    (page : forall tok, list PbLease -> string -> response (query tok))
    (rest : option string -> list PbLease) (measure : option string -> nat) : Prop :=
  forall tok k, exists chunk next,
    stub (query tok) k = inr (page tok chunk next) /\
    rest tok = chunk ++ (if truthy next then rest (Some next) else []) /\
    (truthy next = true -> (measure (Some next) < measure tok)%nat).

Definition lease_query (ns : string) (page_size : Z) (f : option text) (only_active : bool)
    (tag_filter : option string) (tok : option string) : request :=
  ListLeasesRequest (parent_of ns) (Some page_size) tok (Selector.extract_match_labels_filter f)
    only_active (or_empty tag_filter).

Abbreviation from_pb := (lease_from_protobuf to_timedelta to_datetime).

Lemma map_all_app {A B} (f : A -> exn + B) l1 l2 bs :
  map_all f (l1 ++ l2) = inr bs <->
  exists bs1 bs2, map_all f l1 = inr bs1 /\ map_all f l2 = inr bs2 /\ bs = bs1 ++ bs2.
Proof.
  revert bs. induction l1 as [|a l1 IH]; intros bs; simpl.
  - split; [intros H; by exists [], bs | intros (? & ? & H & ? & ->); by injection H as <-].
  - destruct (f a); [split; [done | naive_solver] |].
    destruct (map_all f (l1 ++ l2)) as [x|r] eqn:E.
    + split; [done |]. intros (b1 & b2 & H1 & H2 & ->).
      destruct (map_all f l1) as [|r1]; [done |].
      assert (inl x = inr (r1 ++ b2)) by (apply IH; eauto). done.
    + destruct (proj1 (IH r) eq_refl) as (r1 & r2 & H1 & H2 & ->). rewrite H1.
      split; [intros H; injection H as <-; by exists (b :: r1), r2 |].
      intros (? & ? & H & H' & ->). injection H as <-. rewrite H2 in H'. by injection H' as <-.
Qed.

(** [_collect_all_leases] returns the leases of all pages in order. *)
Lemma collect_leases_all ns ps oa f tf rest measure n acc tok w ls :
  serves_pages (lease_query ns ps f oa tf) (fun _ => mkPbLeaseList) rest measure ->
  map_all from_pb (rest tok) = inr ls -> (measure tok < n)%nat ->
  exists w', collect_leases stub to_timedelta to_datetime n ns ps oa f tf acc tok w =
             (w', inr (mkLeaseList (acc ++ ls) None)).
Proof.
  intros Hs. revert acc tok w ls. induction n as [|n IH]; intros acc tok w ls Hm Hn; [lia |].
  destruct (Hs tok (length w)) as (chunk & next & Hq & Hr & Hd).
  rewrite Hr in Hm. apply map_all_app in Hm as (l1 & l2 & H1 & H2 & ->).
  cbn [collect_leases]. unfold bind at 1, ListLeases, bind at 1, call.
  change (ListLeasesRequest _ _ _ _ _ _) with (lease_query ns ps f oa tf tok). rewrite Hq.
  unfold leases_from_protobuf, lift. cbn [pb_leases pb_leases_token]. rewrite H1.
  cbn [leases next_page_token]. unfold next_token, or_none. destruct (truthy next).
  - destruct (IH (acc ++ l1) (Some next) (w ++ [lease_query ns ps f oa tf tok]) l2) as [w' ->];
      [done | specialize (Hd eq_refl); lia |]. exists w'. by rewrite app_assoc.
  - cbn in H2. injection H2 as <-. rewrite app_nil_r. by eexists.
Qed.

(** The match labels of a lease's selector meet those of a filter. *)
Definition labels_match (f : option text) (sel : text) : bool :=
  match f with
  | None => true
  | Some f =>
      forallb (fun kv => bool_decide (Selector.label_get (fst kv) (fst (Selector.parse_label_selector sel))
                                      = Some (snd kv)))
        (fst (Selector.parse_label_selector f))
  end.

(** The filter sent to the controller is implied by the one applied afterwards. *)
Lemma contains_labels_match s sel :
  Forall (fun kv => Selector.word (snd kv)) (fst (Selector.parse_label_selector s)) ->
  Selector.selector_contains sel s = true ->
  labels_match (Selector.extract_match_labels_filter (Some s)) sel = true.
Proof.
  intros Hw Hc. unfold labels_match.
  destruct (Selector.extract_match_labels_filter (Some s)) as [f|] eqn:Ef; [| done].
  destruct (Selector.parse_label_selector s) as [labels exprs] eqn:Ep.
  cbn [fst] in Hw. rewrite (Selector.extract_filter_roundtrip s labels exprs f Ep Hw Ef). cbn [fst].
  unfold Selector.selector_contains in Hc.
  destruct (Utf8.strip s) eqn:Es.
  - unfold Selector.parse_label_selector in Ep. rewrite Es in Ep.
    assert (labels = []) as -> by congruence. done.
  - rewrite Ep in Hc. destruct (Selector.parse_label_selector sel) as [sl se].
    apply andb_true_iff in Hc as [Hc _]. exact Hc.
Qed.

Lemma from_pb_selector p l : from_pb p = inr l -> selector l = pl_selector p.
Proof.
  unfold lease_from_protobuf. intros H.
  repeat (match type of H with context [match ?x with _ => _ end] => destruct x end; try discriminate H);
    injection H as <-; reflexivity.
Qed.

(** Filtering before and after the conversion. *)
Lemma map_all_filter (keep : PbLease -> bool) (p : Lease -> bool) stored ls :
  map_all from_pb stored = inr ls ->
  (forall x l, from_pb x = inr l -> p l = true -> keep x = true) ->
  exists ls', map_all from_pb (List.filter keep stored) = inr ls' /\ List.filter p ls' = List.filter p ls.
Proof.
  intros Hm Hk. revert ls Hm. induction stored as [|x stored IH]; intros ls Hm; simpl in Hm.
  - injection Hm as <-. by exists [].
  - destruct (from_pb x) as [|l] eqn:El; [done |].
    destruct (map_all from_pb stored) as [|ls0]; [done |]. injection Hm as <-.
    destruct (IH ls0 eq_refl) as (ls' & H1 & H2). simpl. destruct (keep x) eqn:Ex.
    + exists (l :: ls'). simpl. rewrite El, H1. split; [done |]. by rewrite H2.
    + exists ls'. split; [done |]. destruct (p l) eqn:Epl; [| done].
      specialize (Hk x l El Epl). congruence.
Qed.

(** [jmp get leases] with a selector prints exactly the leases that satisfy it, in
    the controller's order and of this client unless all clients are asked for. The
    controller need only return, over however many pages, at least the leases whose
    match labels satisfy the filter it is sent: what that filter cannot express is
    filtered afterwards, and it drops none of the leases asked for. *)
Theorem get_leases_exact c s show_all all_clients tag_filter page_size n w
    (keep : PbLease -> bool) stored rest measure ls endpoint token :
  c_endpoint c = Some endpoint -> c_token c = Some token -> s <> [] ->
  Forall (fun kv => Selector.word (snd kv)) (fst (Selector.parse_label_selector s)) ->
  serves_pages (lease_query (c_namespace c) page_size (Some s) (negb show_all) tag_filter)
    (fun _ => mkPbLeaseList) rest measure ->
  rest None = List.filter keep stored ->
  (forall x, labels_match (Selector.extract_match_labels_filter (Some s)) (pl_selector x) = true ->
             keep x = true) ->
  map_all from_pb stored = inr ls -> (measure None < n)%nat ->
  exists w' found,
    get_leases stub to_timedelta to_datetime n c None (Some s) show_all all_clients tag_filter page_size w =
      (w', inr (inr found)) /\
    leases found =
      List.filter (fun l => Selector.selector_contains (selector l) s &&
                            (all_clients || String.eqb (client l) (c_name c))) ls.
Proof.
  intros He Ht Hs Hw Hp Hr Hk Hm Hn.
  destruct (map_all_filter keep (fun l => Selector.selector_contains (selector l) s) stored ls Hm)
    as (ls' & H1 & H2).
  { intros x l Hx Hc. apply Hk. rewrite <- (from_pb_selector x l Hx). by apply contains_labels_match. }
  rewrite <- Hr in H1.
  destruct (collect_leases_all (c_namespace c) page_size (negb show_all) (Some s) tag_filter rest measure
              n [] None w ls' Hp H1 Hn) as [w' Hc].
  unfold get_leases. cbn [string_truthy or_empty default truthy].
  unfold bind at 1, list_leases, handle_connection_error, bind at 1, channel. rewrite He, Ht.
  cbn [ret]. unfold collect_all_leases. rewrite Hc.
  exists w'. destruct s as [|z s]; [done |]. cbn [filter_by_selector].
  assert (forall p q (l : list Lease), List.filter q (List.filter p l) = List.filter (fun x => p x && q x) l) as Hff.
  { intros p q l. induction l as [|x l IH]; simpl; [done |].
    destruct (p x); simpl; [destruct (q x); by rewrite ?IH | done]. }
  destruct all_clients; eexists; (split; [reflexivity |]); cbn [leases filter_by_client app].
  - rewrite H2. apply filter_ext. intros l. by rewrite andb_true_r.
  - rewrite <- (Hff (fun l => Selector.selector_contains (selector l) (z :: s))).
    by rewrite <- H2.
Qed.

End Listing.

(** ** Exporters with their leases *)

Lemma lease_map_get ls m k :
  dict_get k (fold_left (fun m l => if lease_in_use l then dict_set (exporter l) l m else m) ls m) =
  match List.find (fun l => lease_in_use l && String.eqb (exporter l) k) (rev ls) with
  | Some l => Some l
  | None => dict_get k m
  end.
Proof.
  revert m. induction ls as [|l ls IH]; intros m; [done |]. cbn [fold_left rev].
  rewrite IH. clear IH. generalize (rev ls) as l'. intros l'.
  induction l' as [|x l' IH']; simpl.
  - destruct (lease_in_use l); simpl; [| done]. destruct (String.eqb_spec (exporter l) k) as [->|];
      [by rewrite dict_get_set_same | by rewrite dict_get_set_other].
  - destruct (lease_in_use x && String.eqb (exporter x) k); [done | exact IH'].
Qed.

(** With leases included, an exporter is shown with the last listed lease that
    names it, has begun and is ready, and without a lease exactly when there is none. *)
Theorem exporter_lease_join ls k :
  match dict_get k (lease_map ls) with
  | Some l => exists before after, ls = before ++ l :: after /\ exporter l = k /\ lease_in_use l = true /\
      Forall (fun l' => lease_in_use l' = true -> exporter l' <> k) after
  | None => Forall (fun l' => lease_in_use l' = true -> exporter l' <> k) ls
  end.
Proof.
  unfold lease_map. rewrite lease_map_get. cbn [dict_get].
  assert (forall l, match List.find (fun l => lease_in_use l && String.eqb (exporter l) k) l with
    | Some x => exists a b, l = a ++ x :: b /\ exporter x = k /\ lease_in_use x = true /\
                Forall (fun l' => lease_in_use l' = true -> exporter l' <> k) a
    | None => Forall (fun l' => lease_in_use l' = true -> exporter l' <> k) l end) as H.
  { induction l as [|x l IH]; simpl; [done |].
    destruct (lease_in_use x) eqn:Eu, (String.eqb_spec (exporter x) k) as [He|He]; cbn [andb].
    - by exists [], l.
    - destruct (List.find _ l); [| apply Forall_cons; split; [naive_solver | exact IH]].
      destruct IH as (a & b & -> & ? & ? & ?). exists (x :: a), b.
      split; [done | split; [done | split; [done | apply Forall_cons; naive_solver]]].
    - destruct (List.find _ l); [| apply Forall_cons; split; [congruence | exact IH]].
      destruct IH as (a & b & -> & ? & ? & ?). exists (x :: a), b.
      split; [done | split; [done | split; [done | apply Forall_cons; split; [congruence | done]]]].
    - destruct (List.find _ l); [| apply Forall_cons; split; [congruence | exact IH]].
      destruct IH as (a & b & -> & ? & ? & ?). exists (x :: a), b.
      split; [done | split; [done | split; [done | apply Forall_cons; split; [congruence | done]]]]. }
  specialize (H (rev ls)). destruct (List.find _ (rev ls)) as [x|].
  - destruct H as (a & b & Hab & Hk & Hu & Hf). apply (f_equal (@rev Lease)) in Hab.
    rewrite rev_involutive, rev_app_distr in Hab. simpl in Hab. rewrite <- app_assoc in Hab.
    exists (rev b), (rev a). split; [exact Hab | split; [done | split; [done | by apply Forall_rev]]].
  - apply Forall_rev in H. by rewrite rev_involutive in H.
Qed.

(** ** Updates *)

Section Updates.

Context (stub : forall q : request, nat -> failure + response q).
Context (to_timedelta to_datetime : PbTime -> Z) (from_timedelta from_datetime : Z -> PbTime).
Context (from_json_string : string -> string + list string).

(** The JSON form of a field mask holds lower camel case names separated by commas; a
    name with an underscore is refused. *)
Hypothesis json_mask_ok : forall fs,
  Forall (fun f => Str.has_char "_" f = false /\ Str.has_char "," f = false) fs -> fs <> [] ->
  Forall (fun f => Str.lower f = f) fs -> from_json_string (Str.join "," fs) = inr fs.
Hypothesis json_mask_underscore : forall s, Str.has_char "_" s = true ->
  exists msg, from_json_string s = inl msg.

Abbreviation update := (UpdateLease stub to_timedelta to_datetime from_timedelta from_datetime from_json_string).

(** An update sends the duration and the owner it is given and a mask that names
    exactly those; with nothing to update, or with a begin time, it raises
    [ValueError] and sends no request. *)
Theorem update_lease_mask ns nm duration begin_time client w :
  match duration, begin_time, client with
  | None, None, None | _, Some _, _ =>
      exists msg, update ns nm duration begin_time client w = (w, inl (ValueError msg))
  | _, None, _ =>
      exists r, update ns nm duration begin_time client w =
        (w ++ [UpdateLeaseRequest (update_message from_timedelta from_datetime ns nm duration None client)
                 ((if is_some duration then ["duration"] else []) ++ (if is_some client then ["client"] else []))], r)
  end.
Proof.
  unfold UpdateLease. destruct begin_time as [b|].
  - destruct duration as [d|], client as [cl|]; cbn [update_fields app];
      (match goal with |- context [from_json_string ?s] =>
         destruct (json_mask_underscore s eq_refl) as [m ->] end); by eexists.
  - assert (forall fs, fs ⊆ ["duration"; "client"]%string -> fs <> [] ->
      from_json_string (Str.join "," fs) = inr fs) as Hok.
    { intros fs Hsub Hne. apply json_mask_ok; [| done |]; apply Forall_forall; intros x Hx;
        apply Hsub in Hx; rewrite !elem_of_cons, elem_of_nil in Hx;
        destruct Hx as [->|[->|[]]]; repeat split; reflexivity. }
    destruct duration as [d|], client as [cl|]; cbn [update_fields app]; try (by eexists);
      rewrite Hok by (done || (intros ?; rewrite !elem_of_cons; naive_solver));
      unfold bind, call, lift; destruct (stub _ _); by eexists.
Qed.

End Updates.

(** ** Creation *)

Section Creation.

Context (stub : forall q : request, nat -> failure + response q).
Context (to_timedelta to_datetime : PbTime -> Z) (from_timedelta from_datetime : Z -> PbTime).

(** The well-known types keep microseconds. *)
Hypothesis timedelta_roundtrip : forall d, to_timedelta (from_timedelta d) = d.
Hypothesis datetime_roundtrip : forall t, to_datetime (from_datetime t) = t.

(** The controller stores what it is sent under a name, for a client. *)
Definition stored_as (ns nm cl : string) (conditions : list Condition) (p : PbLease) : PbLease :=
  mkPbLease (identifier ns "leases" nm) (pl_selector p) (pl_exporter_name p) (pl_tags p) (pl_context p)
    (pl_duration p) (pl_effective_duration p) (pl_begin_time p) (identifier ns "clients" cl) "" conditions
    None None (pl_allow_disabled p) (pl_deprecated_labels p).

(** A lease created by a controller that stores what it is sent reads back with
    the selector, the requested exporter, the duration, the begin time, the tags and
    the context that were asked for; one request is sent. *)
Theorem create_lease_roundtrip ns nm cl sel d ex bt lid tg ad ctx conds w :
  Str.has_char "/" ns = false -> Str.has_char "/" nm = false -> Str.has_char "/" cl = false ->
  dict_wf (default [] tg) -> dict_wf (default [] ctx) ->
  (forall p i k, stub (CreateLeaseRequest (parent_of ns) p i) k = inr (stored_as ns nm cl conds p)) ->
  exists w' l,
    CreateLease stub to_timedelta to_datetime from_timedelta from_datetime ns sel d ex bt lid tg ad ctx w =
      (w', inr l) /\
    length w' = S (length w) /\
    name l = nm /\ namespace l = ns /\ client l = cl /\ selector l = default [] sel /\
    exporter_name l = (match ex with Some e => or_none e | None => None end) /\
    duration l = d /\ begin_time l = bt /\ conditions l = conds /\
    (forall k, dict_get k (tags l) = dict_get k (default [] tg)) /\
    (forall k, dict_get k (context l) = dict_get k (default [] ctx)).
Proof.
  intros Hns Hnm Hcl Htg Hctx Hs. unfold CreateLease, bind, call. rewrite Hs.
  unfold lift, lease_from_protobuf, stored_as, parse_lease_identifier, parse_client_identifier,
    parse_identifier.
  cbn [pl_name pl_client pl_exporter]. rewrite !split_identifier by done. cbn [String.eqb Ascii.eqb Bool.eqb negb].
  do 2 eexists. split; [reflexivity |]. cbn.
  rewrite length_app, timedelta_roundtrip. cbn.
  split; [lia |]. do 4 (split; [reflexivity |]).
  split; [by destruct ex |]. split; [reflexivity |].
  split; [destruct bt; simpl; by rewrite ?datetime_roundtrip |]. split; [reflexivity |].
  split; intros k; (rewrite dict_get_update by done); by destruct (dict_get k _).
Qed.

End Creation.

(** ** Deletion *)

Section Deletion.

Context (stub : forall q : request, nat -> failure + response q).

Definition delete_request (c : Config) (nm : string) : request :=
  DeleteLeaseRequest (identifier (c_namespace c) "leases" nm).

Lemma delete_lease_run c x w endpoint token :
  c_endpoint c = Some endpoint -> c_token c = Some token ->
  delete_lease stub c x w =
    (w ++ [delete_request c x],
     match stub (delete_request c x) (length w) with
     | inl f => inl (attach_config_if_expired_token (translate_grpc_exceptions f))
     | inr u => inr u
     end).
Proof.
  intros He Ht. unfold delete_lease, handle_connection_error, channel, bind, ret. rewrite He, Ht.
  unfold DeleteLease, call, delete_request. by destruct (stub _ _).
Qed.

Lemma delete_each_cons c x xs w endpoint token :
  c_endpoint c = Some endpoint -> c_token c = Some token ->
  delete_each stub c (x :: xs) w =
    match stub (delete_request c x) (length w) with
    | inl f => (w ++ [delete_request c x],
                inl (attach_config_if_expired_token (translate_grpc_exceptions f)))
    | inr _ => let '(w', r) := delete_each stub c xs (w ++ [delete_request c x]) in
               (w', match r with inl e => inl e | inr rest => inr (x :: rest) end)
    end.
Proof.
  intros He Ht. cbn [delete_each]. unfold bind at 1. rewrite (delete_lease_run _ _ _ _ _ He Ht).
  destruct (stub _ _); [done |]. unfold bind, ret. by destruct (delete_each _ _ _ _) as [? []].
Qed.

(** Leases are deleted in order, one request each; the first failure ends the command,
    after the requests for the leases before it and its own. *)
Theorem delete_each_requests c names w endpoint token :
  c_endpoint c = Some endpoint -> c_token c = Some token ->
  delete_each stub c names w = (w ++ map (delete_request c) names, inr names) \/
  exists done_ failed left e,
    names = done_ ++ failed :: left /\
    delete_each stub c names w = (w ++ map (delete_request c) (done_ ++ [failed]), inl e) /\
    exists f, stub (delete_request c failed) (length w + length done_)%nat = inl f.
Proof.
  intros He Ht. revert w. induction names as [|x xs IH]; intros w.
  - left. cbn. unfold ret. by rewrite app_nil_r.
  - rewrite (delete_each_cons _ _ _ _ _ _ He Ht).
    destruct (stub (delete_request c x) (length w)) as [f|u] eqn:Es.
    + right. eexists [], x, xs, _. split; [done |]. split; [done |]. exists f. by rewrite Nat.add_0_r.
    + destruct (IH (w ++ [delete_request c x])) as [->|(d & fl & lf & e & -> & -> & f & Hf)].
      * left. by rewrite <- app_assoc.
      * right. exists (x :: d), fl, lf, e. split; [done |].
        split; [by cbn [app map]; rewrite <- app_assoc |].
        exists f. rewrite length_app in Hf. cbn [length] in *.
        by replace (length w + S (length d))%nat with (length w + 1 + length d)%nat by lia.
Qed.

End Deletion.

(** ** Several channels *)

Lemma stubs_spec cs : NoDup (stubs cs) /\ forall c, c ∈ stubs cs <-> c ∈ cs.
Proof.
  induction cs as [|c cs [IH1 IH2]]; cbn [stubs]; [split; [apply NoDup_nil_2 | tauto] |].
  assert (forall d, d ∈ List.filter (fun d => negb (Nat.eqb c d)) (stubs cs) <-> d <> c /\ d ∈ cs) as H.
  { intros d. rewrite list_elem_of_In, filter_In, <- list_elem_of_In, IH2, negb_true_iff, Nat.eqb_neq.
    naive_solver. }
  split.
  - apply NoDup_cons. split; [rewrite H; naive_solver |].
    rewrite NoDup_ListNoDup. apply List.NoDup_filter. by rewrite <- NoDup_ListNoDup.
  - intros d. rewrite !elem_of_cons, H. destruct (decide (d = c)); naive_solver.
Qed.

(** An attribute is taken from the first ready channel; with none ready, from the
    last channel; without channels [StopIteration] is raised. *)
Theorem multipath_pick get_state channels :
  match pick_stub get_state channels with
  | inr c => c ∈ channels /\
      (get_state c = READY \/ (forall d, d ∈ channels -> get_state d <> READY))
  | inl e => e = StopIteration /\ channels = []
  end.
Proof.
  unfold pick_stub. destruct (stubs_spec channels) as [_ Hs].
  destruct (List.find _ (stubs channels)) as [c|] eqn:Ef.
  - apply find_some in Ef as [Hin Hr]. apply list_elem_of_In, Hs in Hin.
    apply bool_decide_eq_true in Hr. auto.
  - destruct (last (stubs channels)) as [c|] eqn:El.
    + apply last_Some in El as [l El]. split.
      * apply Hs. rewrite El. apply elem_of_app. right. by apply list_elem_of_singleton.
      * right. intros d Hd. apply Hs, list_elem_of_In in Hd.
        pose proof (find_none _ _ Ef d Hd) as H. by apply bool_decide_eq_false in H.
    + split; [done |]. apply last_None in El. destruct channels; [reflexivity | discriminate El].
Qed.

(** ** Concrete instances *)

Abbreviation t := Utf8.of_string.

Definition demo_time (p : PbTime) : Z := seconds p * SECOND + nanos p / 1000.
Definition demo_pb (z : Z) : PbTime := mkPbTime (z / SECOND) (z mod SECOND * 1000).

Definition demo_lease (nm cl : string) (sel : text) : PbLease :=
  mkPbLease (identifier "lab" "leases" nm) sel "" [] [] (mkPbTime 3600 0) None None
    (identifier "lab" "clients" cl) (identifier "lab" "exporters" "rpi") [] None None false [].

(** A controller with three leases on two pages that ignores the filter. *)
Definition demo_stub (q : request) (k : nat) : failure + response q :=
  match q with
  | ListLeasesRequest _ _ None _ _ _ =>
      inr (mkPbLeaseList [demo_lease "a" "me" (t "board=rpi,zone=eu"); demo_lease "b" "you" (t "board=rpi")] "p2")
  | ListLeasesRequest _ _ (Some _) _ _ _ => inr (mkPbLeaseList [demo_lease "c" "me" (t "board=qemu")] "")
  | CreateLeaseRequest _ p _ => inr (stored_as "lab" "new" "me" [] p)
  | _ => inl (RpcError "unavailable")
  end.

Definition demo_config : Config := mkConfig (Some "grpc.lab:443"%string) (Some "secret"%string) "lab" "me".

Example demo_get_leases :
  match get_leases demo_stub demo_time demo_time 5 demo_config None (Some (t "board=rpi")) false false None 2 [] with
  | (w, inr (inr found)) => (length w, lease_names found) = (2%nat, ["a"%string])
  | _ => False
  end.
Proof. vm_compute. reflexivity. Qed.

Definition demo_rest (tok : option string) : list PbLease :=
  match tok with
  | None => [demo_lease "a" "me" (t "board=rpi,zone=eu"); demo_lease "b" "you" (t "board=rpi");
             demo_lease "c" "me" (t "board=qemu")]
  | Some _ => [demo_lease "c" "me" (t "board=qemu")]
  end.

Lemma get_leases_exact_witness :
  exists w' found,
    get_leases demo_stub demo_time demo_time 3 demo_config None (Some (t "board=rpi")) false false None 2 [] =
      (w', inr (inr found)) /\ lease_names found = ["a"%string].
Proof.
  destruct (map_all (lease_from_protobuf demo_time demo_time) (demo_rest None)) as [e|ls] eqn:E;
    [vm_compute in E; discriminate E |].
  destruct (get_leases_exact demo_stub demo_time demo_time demo_config (t "board=rpi") false false None 2 3 []
              (fun _ => true) (demo_rest None) demo_rest (fun tok => match tok with None => 1 | _ => 0 end)%nat
              ls "grpc.lab:443" "secret") as (w' & found & H1 & H2).
  - reflexivity.
  - reflexivity.
  - discriminate.
  - vm_compute. repeat constructor; discriminate.
  - intros [tok|] k.
    + exists [demo_lease "c" "me" (t "board=qemu")], ""%string. repeat split; discriminate.
    + exists [demo_lease "a" "me" (t "board=rpi,zone=eu"); demo_lease "b" "you" (t "board=rpi")], "p2"%string.
      repeat split. intros _. lia.
  - reflexivity.
  - reflexivity.
  - exact E.
  - lia.
  - exists w', found. split; [exact H1 |]. unfold lease_names. rewrite H2. vm_compute in E.
    injection E as <-. vm_compute. reflexivity.
Defined.

(** A field mask in its JSON form: the names are read as they are. *)
Definition demo_json (s : string) : string + list string :=
  if Str.has_char "_" s then inl "Path name must not contain underscores"%string
  else inr (Str.split_char "," s).

Lemma update_lease_mask_witness :
  exists msg, UpdateLease demo_stub demo_time demo_time demo_pb demo_pb demo_json "lab" "a" None (Some 5) None [] =
    ([], inl (ValueError msg)).
Proof.
  apply (update_lease_mask demo_stub demo_time demo_time demo_pb demo_pb demo_json) with
    (duration := None) (begin_time := Some 5) (client := None).
  - intros fs Hf Hne Hl. unfold demo_json.
    assert (Str.has_char "_" (Str.join "," fs) = false) as ->.
    { clear Hne Hl. induction Hf as [|f fs [H1 H2] Hf IH]; [reflexivity |]. cbn [Str.join].
      destruct fs; [done |]. rewrite !Str.has_char_app, H1, IH. reflexivity. }
    rewrite Str.split_char_join; [done | done |]. eapply Forall_impl; [exact Hf |]. intros f Hff. apply Hff.
  - intros s Hs. unfold demo_json. rewrite Hs. eauto.
Defined.

Lemma create_lease_roundtrip_witness :
  exists w' l, CreateLease demo_stub demo_time demo_time demo_pb demo_pb "lab" (Some (t "board=rpi")) (60 * SECOND)
                 None (Some 7) None (Some [("a", "b")]%string) false None [] = (w', inr l) /\
               begin_time l = Some 7.
Proof.
  assert (forall z, demo_time (demo_pb z) = z) as Hrt.
  { intros z. unfold demo_time, demo_pb. cbn [seconds nanos]. rewrite Z.div_mul by lia.
    pose proof (Z.div_mod z SECOND ltac:(unfold SECOND; lia)). lia. }
  destruct (create_lease_roundtrip demo_stub demo_time demo_time demo_pb demo_pb Hrt Hrt "lab" "new" "me"
              (Some (t "board=rpi")) (60 * SECOND) None (Some 7) None (Some [("a", "b")]%string) false None [] [])
    as (w' & l & H1 & _ & _ & _ & _ & _ & _ & _ & H2 & _); try reflexivity.
  - apply NoDup_singleton.
  - constructor.
  - exists w', l. split; [exact H1 | exact H2].
Defined.

Lemma delete_each_requests_witness :
  exists e, snd (delete_each demo_stub demo_config ["x"; "y"]%string []) = inl e.
Proof.
  destruct (delete_each_requests demo_stub demo_config ["x"; "y"]%string [] "grpc.lab:443" "secret")
    as [H|(d & f & l & e & _ & H & _)]; [reflexivity | reflexivity | |].
  - vm_compute in H. discriminate H.
  - exists e. rewrite H. reflexivity.
Defined.
