(* ===== verification/PyIp.v ===== *)
(** * Addresses and networks

    The functions [ip_address] and [ip_network] (with [strict=False]) of the standard
    library's [ipaddress], as far as the drivers use them: which texts are accepted,
    the number they denote and whether an address is in a network. [None] is the
    [ValueError] the functions raise. *)

From stdpp Require Import base list strings pretty.
From Stdlib Require Import ZArith Lia Ascii.
From S2P Require Import Prelude PyText.

Open Scope Z_scope.
Open Scope list_scope.

Module Ip.

Inductive address := V4 (n : Z) | V6 (n : Z) (scope : option string).

Record network := mkNetwork { v6 : bool; net : Z; prefixlen : Z }.

(** [isascii() and isdigit()], and the number. *)
Fixpoint decimal (s : string) (acc : Z) : option Z :=
  match s with
  | EmptyString => Some acc
  | String a s' => match Str.digit a with Some d => decimal s' (acc * 10 + d) | None => None end
  end.

Definition digits (s : string) : option Z :=
  match s with EmptyString => None | _ => decimal s 0 end.

(** [_parse_octet] *)
Definition parse_octet (s : string) : option Z :=
  match digits s with
  | None => None
  | Some n =>
      if (3 <? Z.of_nat (String.length s)) ||
         (negb (String.eqb s "0") && Str.startswith "0" s) || (255 <? n)
      then None else Some n
  end.

(** [_ip_int_from_string] of an IPv4 address. *)
Definition parse_v4 (s : string) : option Z :=
  match Str.split_char "." s with
  | [a; b; c; d] =>
      match parse_octet a, parse_octet b, parse_octet c, parse_octet d with
      | Some a, Some b, Some c, Some d => Some (((a * 256 + b) * 256 + c) * 256 + d)
      | _, _, _, _ => None
      end
  | _ => None
  end.

(** [_parse_hextet]: one to four hexadecimal digits. *)
Definition hex_digit (a : ascii) : option Z :=
  match Str.digit a with
  | Some d => Some d
  | None =>
      let n := Z.of_nat (nat_of_ascii a) in
      if (97 <=? n) && (n <=? 102) then Some (n - 87)
      else if (65 <=? n) && (n <=? 70) then Some (n - 55) else None
  end.

Fixpoint hexadecimal (s : string) (acc : Z) : option Z :=
  match s with
  | EmptyString => Some acc
  | String a s' => match hex_digit a with Some d => hexadecimal s' (acc * 16 + d) | None => None end
  end.

Definition parse_hextet (s : string) : option Z :=
  if (4 <? Z.of_nat (String.length s)) then None
  else match s with EmptyString => None | _ => hexadecimal s 0 end.

Fixpoint hextets (parts : list string) (acc : Z) : option Z :=
  match parts with
  | [] => Some acc
  | p :: ps => match parse_hextet p with Some h => hextets ps (acc * 65536 + h) | None => None end
  end.

(** The indices, from [i] on, of the empty parts. *)
Fixpoint empty_parts (i : nat) (parts : list string) : list nat :=
  match parts with
  | [] => []
  | p :: ps => if truthy p then empty_parts (S i) ps else i :: empty_parts (S i) ps
  end.

(** The parts without an IPv4 suffix: [inl] the list of texts, then the suffix. *)
Definition v4_suffix (parts : list string) : option (list string * option Z) :=
  match last parts with
  | Some p =>
      if Str.has_char "." p
      then match parse_v4 p with Some n => Some (removelast parts, Some n) | None => None end
      else Some (parts, None)
  | None => Some (parts, None)
  end.

(** [_ip_int_from_string] of an IPv6 address without scope. The two hextets of an
    IPv4 suffix count as parts that are not empty. *)
Definition parse_v6 (s : string) : option Z :=
  let parts := Str.split_char ":" s in
  if (length parts <? 3)%nat then None
  else
    match v4_suffix parts with
    | None => None
    | Some (texts, suffix) =>
        let extra := match suffix with Some _ => 2%nat | None => 0%nat end in
        let count := (length texts + extra)%nat in
        let tail_value (acc : Z) := match suffix with Some n => acc * (65536 * 65536) + n | None => acc end in
        let last_empty := match suffix with
                          | Some _ => false
                          | None => negb (truthy (default "" (last texts)))
                          end in
        let first_empty := negb (truthy (default "" (head texts))) in
        if (9 <? count)%nat then None
        else
          match List.filter (fun i => (1 <=? i)%nat && (i <? count - 1)%nat) (empty_parts 0 texts) with
          | _ :: _ :: _ => None
          | [skip] =>
              let hi := if first_empty then (skip - 1)%nat else skip in
              let lo := if last_empty then (count - skip - 2)%nat else (count - skip - 1)%nat in
              if (first_empty && negb (hi =? 0)%nat) || (last_empty && negb (lo =? 0)%nat) then None
              else if (8 <? hi + lo + 1)%nat then None
              else
                let hi_parts := if first_empty then [] else take skip texts in
                let lo_parts := if last_empty then [] else drop (S skip) texts in
                match hextets hi_parts 0 with
                | None => None
                | Some h =>
                    match hextets lo_parts (h * 65536 ^ Z.of_nat (8 - (hi + lo))) with
                    | None => None
                    | Some n => Some (tail_value n)
                    end
                end
          | [] =>
              if negb (count =? 8)%nat || first_empty || last_empty then None
              else match hextets texts 0 with Some n => Some (tail_value n) | None => None end
          end
    end.

(** [_split_scope_id] *)
Definition parse_v6_scoped (s : string) : option (Z * option string) :=
  match Str.split1 "%" s with
  | None => match parse_v6 s with Some n => Some (n, None) | None => None end
  | Some (addr, scope) =>
      if negb (truthy scope) || Str.has_char "%" scope then None
      else match parse_v6 addr with Some n => Some (n, Some scope) | None => None end
  end.

(** [ip_address] *)
Definition ip_address (s : string) : option address :=
  match parse_v4 s with
  | Some n => Some (V4 n)
  | None =>
      if Str.has_char "/" s then None
      else match parse_v6_scoped s with Some (n, sc) => Some (V6 n sc) | None => None end
  end.

(** [_prefix_from_ip_int]: a mask of ones, then zeros. *)
Definition prefix_from_int (n : Z) : option Z :=
  List.find (fun p => (n =? (2 ^ p - 1) * 2 ^ (32 - p))) (map Z.of_nat (seq 0 33)).

Definition prefix_string (max : Z) (s : string) : option Z :=
  match digits s with
  | Some n => if n <=? max then Some n else None
  | None => None
  end.

Definition v4_prefix (mask : string) : option Z :=
  match prefix_string 32 mask with
  | Some p => Some p
  | None =>
      match parse_v4 mask with
      | None => None
      | Some n =>
          match prefix_from_int n with
          | Some p => Some p
          | None => prefix_from_int (Z.lxor n (2 ^ 32 - 1))
          end
      end
  end.

Definition masked (bits p n : Z) : Z := n / 2 ^ (bits - p) * 2 ^ (bits - p).

(** [ip_network(s, strict=False)] *)
Definition ip_network (s : string) : option network :=
  let v4 addr mask :=
    match parse_v4 addr, mask with
    | Some n, Some p => Some (mkNetwork false (masked 32 p n) p)
    | _, _ => None
    end in
  let v6 addr mask :=
    match parse_v6_scoped addr, mask with
    | Some (n, _), Some p => Some (mkNetwork true (masked 128 p n) p)
    | _, _ => None
    end in
  match Str.split_char "/" s with
  | [addr] => match v4 addr (Some 32) with Some r => Some r | None => v6 addr (Some 128) end
  | [addr; mask] =>
      match v4 addr (v4_prefix mask) with
      | Some r => Some r
      | None => v6 addr (prefix_string 128 mask)
      end
  | _ => None
  end.

(** [address in network] *)
Definition in_network (a : address) (w : network) : bool :=
  match a, v6 w with
  | V4 n, false => masked 32 (prefixlen w) n =? net w
  | V6 n _, true => masked 128 (prefixlen w) n =? net w
  | _, _ => false
  end.

Definition valid_ip (s : string) : bool := is_some (ip_address s).
Definition valid_network (s : string) : bool := is_some (ip_network s).

(** ** Facts *)

Example v4_examples :
  map ip_address ["192.168.100.1"; "192.168.100.01"; "256.1.1.1"; "1.2.3"; "1.2.3.4/24"; ""]%string =
  [Some (V4 3232261121); None; None; None; None; None].
Proof. vm_compute. reflexivity. Qed.

Example v6_examples :
  map ip_address ["::"; "::1"; "fe80::1%eth0"; "1::2::3"; "::ffff:1.2.3.4"; "1:2:3:4:5:6:7:8"; "1:2:3:4:5:6:7::8"; ":1::2"]%string =
  [Some (V6 0 None); Some (V6 1 None); Some (V6 (65152 * 2 ^ 112 + 1) (Some "eth0"%string)); None;
   Some (V6 (65535 * 2 ^ 32 + 16909060) None); Some (V6 5192455318486707404433266433261576 None); None; None].
Proof. vm_compute. reflexivity. Qed.

Example network_examples :
  map ip_network ["192.168.100.7/24"; "10.0.0.0/255.0.0.0"; "10.0.0.0/0.255.255.255"; "10.0.0.0/33"; "fe80::/10"]%string =
  [Some (mkNetwork false 3232261120 24); Some (mkNetwork false 167772160 8);
   Some (mkNetwork false 167772160 8); None; Some (mkNetwork true (65152 * 2 ^ 112) 10)].
Proof. vm_compute. reflexivity. Qed.

(** An accepted address holds no white space. *)
Definition plain_char (a : ascii) : bool := negb (Str.is_space a).

End Ip.
