(* ===== verification/DutFilter.v ===== *)
(** * Traffic rules of a device network

    [jumpstarter_driver_dut_network]: the filter configuration ([FilterRule],
    [FilterDirection], [FilterConfig] of driver.py) and the rules of nftables.py.

    A forward rule is a record with the parts the code writes into a line, and
    [render] is that line; [chain_verdict] says what a chain of rules does to a packet, the
    first rule that matches deciding and the chain's policy otherwise, when nft accepts
    every line of it. Commands are
    run on an oracle, which answers the n-th command with an exit code and output. *)

From stdpp Require Import base list strings pretty.
From Stdlib Require Import ZArith Lia Ascii.
From S2P Require Import Prelude PyText PyIp.

Open Scope Z_scope.
Open Scope list_scope.

(** ** Configuration *)

Inductive filter_error :=
| BadAction | BadDestination | BadSource | PortWithoutProtocol | BadProtocol | BadPolicy.

Record FilterRule := mkFilterRule {
  action : string;
  destination : option string;
  source : option string;
  port : option Z;
  protocol : option string
}.

Record FilterDirection := mkFilterDirection { policy : string; rules : list FilterRule }.

Record FilterConfig := mkFilterConfig {
  egress : option FilterDirection;
  ingress : option FilterDirection
}.

Definition one_of (s : string) (l : list string) : bool := existsb (String.eqb s) l.

Definition opt_ok {A} (f : A -> bool) (o : option A) : bool :=
  match o with Some a => f a | None => true end.

(** [FilterRule.__post_init__] *)
Definition new_filter_rule (r : FilterRule) : filter_error + FilterRule :=
  if negb (one_of (action r) ["accept"; "drop"]) then inl BadAction
  else if negb (opt_ok Ip.valid_network (destination r)) then inl BadDestination
  else if negb (opt_ok Ip.valid_network (source r)) then inl BadSource
  else if is_some (port r) && negb (is_some (protocol r)) then inl PortWithoutProtocol
  else if negb (opt_ok (fun p => one_of p ["tcp"; "udp"]) (protocol r)) then inl BadProtocol
  else inr r.

(** The rules of a direction, the first bad one raising. *)
Fixpoint new_rules (rs : list FilterRule) : filter_error + list FilterRule :=
  match rs with
  | [] => inr []
  | r :: rs' =>
      match new_filter_rule r with
      | inl e => inl e
      | inr r => match new_rules rs' with inl e => inl e | inr l => inr (r :: l) end
      end
  end.

Definition new_filter_direction (d : FilterDirection) : filter_error + FilterDirection :=
  if negb (one_of (policy d) ["accept"; "drop"]) then inl BadPolicy
  else match new_rules (rules d) with
       | inl e => inl e
       | inr rs => inr (mkFilterDirection (policy d) rs)
       end.

Definition new_direction (d : option FilterDirection) : filter_error + option FilterDirection :=
  match d with
  | None => inr None
  | Some d => match new_filter_direction d with inl e => inl e | inr d => inr (Some d) end
  end.

Definition new_filter_config (c : FilterConfig) : filter_error + FilterConfig :=
  match new_direction (egress c) with
  | inl e => inl e
  | inr e =>
      match new_direction (ingress c) with
      | inl x => inl x
      | inr i => inr (mkFilterConfig e i)
      end
  end.

(** ** Rules and their text *)

Record nft_rule := mkNft {
  n_ifaces : option (string * string);
  n_established : bool;
  n_addr : option (string * string);
  n_proto : option string;
  n_dport : option Z;
  n_verdict : string
}.

Definition DQUOTE : ascii := ascii_of_nat 34.
Definition quoted (s : string) : string := String DQUOTE (s ++ String DQUOTE "")%string.

Definition nft_parts (r : nft_rule) : list string :=
  (match n_ifaces r with
   | Some (i, o) => [("iifname " ++ quoted i ++ " oifname " ++ quoted o)%string]
   | None => [] end) ++
  (if n_established r then ["ct state related,established"%string] else []) ++
  (match n_addr r with Some (field, v) => [(field ++ " " ++ v)%string] | None => [] end) ++
  (match n_proto r with Some p => [p] | None => [] end) ++
  (match n_dport r with Some p => [("dport " ++ pretty p)%string] | None => [] end) ++
  [n_verdict r].

Definition indent : string := "        ".

Definition render (r : nft_rule) : string := (indent ++ Str.join " " (nft_parts r))%string.

(** [_render_filter_rule], before it is text: [addr_field] says which address counts. *)
Definition filter_rule (r : FilterRule) (iif oif addr_field : string) : nft_rule :=
  let addr_value := if String.eqb addr_field "destination" then destination r else source r in
  let prefix := if String.eqb addr_field "destination" then "ip daddr" else "ip saddr" in
  mkNft (Some (iif, oif)) false
    (match addr_value with Some v => Some (prefix, v) | None => None end)%string
    (protocol r) (port r) (action r).

Definition plain_rule (iif oif verdict : string) : nft_rule :=
  mkNft (Some (iif, oif)) false None None None verdict.

Definition direction_rules (d : option FilterDirection) : list FilterRule :=
  match d with Some d => rules d | None => [] end.
Definition direction_policy (d : option FilterDirection) : string :=
  match d with Some d => policy d | None => "accept" end.

(** [_build_forward_chain], the rules between the chain's first and last lines. *)
Definition forward_rules (interface upstream : string) (filter_config : option FilterConfig)
    (extras : list nft_rule) : list nft_rule :=
  match filter_config with
  | None =>
      [plain_rule interface upstream "accept";
       mkNft (Some (upstream, interface)) true None None None "accept"] ++ extras
  | Some c =>
      [mkNft None true None None None "accept"] ++
      map (fun r => filter_rule r interface upstream "destination") (direction_rules (egress c)) ++
      [plain_rule interface upstream (direction_policy (egress c))] ++
      extras ++
      map (fun r => filter_rule r upstream interface "source") (direction_rules (ingress c)) ++
      [plain_rule upstream interface (direction_policy (ingress c))]
  end.

Definition NL : string := String Str.newline "".

Definition build_forward_chain (interface upstream : string) (filter_config : option FilterConfig)
    (extras : list nft_rule) : string :=
  Str.join NL
    (["    chain forward {"; "        type filter hook forward priority filter; policy accept;"]%string ++
     map render (forward_rules interface upstream filter_config extras) ++ ["    }"%string]).

(** ** Running commands *)

Record result := mkResult { returncode : Z; stdout : string; stderr : string }.

Record command := mkCommand { argv : list string; input : option string }.

Inductive exn :=
| ValueError (msg : string)
| RuntimeError (msg : string)
| CalledProcessError (argv : list string)
| FilterError (e : filter_error)
| FileNotFoundError (msg : string).

Section Commands.

Context (root : bool) (oracle : nat -> command -> result).

Definition M (A : Type) : Type := list command -> list command * (exn + A).

Definition ret {A} (a : A) : M A := fun w => (w, inr a).
Definition raise {A} (e : exn) : M A := fun w => (w, inl e).
Definition bind {A B} (m : M A) (g : A -> M B) : M B := fun w =>
  match m w with
  | (w', inl e) => (w', inl e)
  | (w', inr a) => g a w'
  end.

Local Notation "x <- m ; g" := (bind m (fun x => g))
  (at level 20, m at level 100, g at level 200, only parsing).
Local Notation "m ;; g" := (bind m (fun _ => g))
  (at level 100, g at level 200, right associativity, only parsing).

Definition sudo_cmd (cmd : list string) : list string := if root then cmd else "sudo"%string :: cmd.

(** [subprocess.run]: with [check] a nonzero exit code raises. *)
Definition run (cmd : list string) (inp : option string) (check : bool) : M result := fun w =>
  let c := mkCommand cmd inp in
  let r := oracle (length w) c in
  (w ++ [c], if check && negb (returncode r =? 0) then inl (CalledProcessError cmd) else inr r).

Definition run_nft (args : list string) (check : bool) : M result :=
  run (sudo_cmd ("nft"%string :: args)) None check.

Definition load_ruleset (ruleset : string) : M unit :=
  r <- run (sudo_cmd ["nft"; "-f"; "-"]%string) (Some ruleset) false;
  if returncode r =? 0 then ret tt
  else raise (RuntimeError ("Failed to load nftables ruleset: " ++ stderr r)).

Definition flush_rules (table_name : string) : M unit :=
  run_nft ["delete"; "table"; "ip"; table_name]%string false;; ret tt.

Definition list_rules (table_name : string) : M string :=
  r <- run_nft ["list"; "table"; "ip"; table_name]%string false;
  ret (if returncode r =? 0 then stdout r else EmptyString).

(** ** Validation *)

Definition iface_char (a : ascii) : bool :=
  let n := nat_of_ascii a in
  ((97 <=? n) && (n <=? 122) || (65 <=? n) && (n <=? 90) || (48 <=? n) && (n <=? 57) ||
   (n =? 46) || (n =? 95) || (n =? 45))%nat.

(** A pattern [^c{1,max}$]: the dollar also matches before a last line feed. *)
Definition chop_newline (s : string) : string :=
  match Str.srev s with
  | String a s' => if Ascii.eqb a Str.newline then Str.srev s' else s
  | EmptyString => s
  end.

Definition matches_class (p : ascii -> bool) (max : nat) (s : string) : bool :=
  let s := chop_newline s in
  Str.all_chars p s && (1 <=? String.length s)%nat && (String.length s <=? max)%nat.

Definition validate_iface (name : string) : M unit :=
  if matches_class iface_char 15 name then ret tt else raise (ValueError "Invalid interface name").

Definition validate_subnet (subnet : string) : M unit :=
  if Ip.valid_network subnet then ret tt else raise (ValueError "invalid network").

Definition validate_ip (ip : string) : M unit :=
  if Ip.valid_ip ip then ret tt else raise (ValueError "invalid address").

Fixpoint replace_char (a b : ascii) (s : string) : string :=
  match s with
  | EmptyString => EmptyString
  | String c s' => String (if Ascii.eqb c a then b else c) (replace_char a b s')
  end.

Definition table_name_for (interface : string) : string :=
  replace_char "-" "_" ("jumpstarter_" ++ interface).

Definition or_table (table_name : option string) (interface : string) : string :=
  match table_name with
  | Some t => if truthy t then t else table_name_for interface
  | None => table_name_for interface
  end.

(** ** Rule sets *)

Definition masquerade_ruleset (table interface upstream subnet : string)
    (filter_config : option FilterConfig) : string :=
  Str.join NL
    ["table ip " ++ table ++ " {";
     "    chain postrouting {";
     "        type nat hook postrouting priority srcnat; policy accept;";
     "        oifname " ++ quoted upstream ++ " ip saddr " ++ subnet ++ " masquerade";
     "    }";
     build_forward_chain interface upstream filter_config [];
     "}"; ""]%string.

Definition apply_masquerade_rules (interface upstream subnet : string) (table_name : option string)
    (filter_config : option FilterConfig) : M unit :=
  validate_iface interface;;
  validate_iface upstream;;
  validate_subnet subnet;;
  let table := or_table table_name interface in
  flush_rules table;;
  load_ruleset (masquerade_ruleset table interface upstream subnet filter_config).

(** A mapping: the private and the public address. *)
Abbreviation mapping := (string * string)%type.

Definition prerouting_rule (upstream : string) (m : mapping) : string :=
  ("        iifname " ++ quoted upstream ++ " ip daddr " ++ snd m ++ " dnat to " ++ fst m)%string.
Definition postrouting_rule (upstream : string) (m : mapping) : string :=
  ("        ip saddr " ++ fst m ++ " oifname " ++ quoted upstream ++ " snat to " ++ snd m)%string.
Definition output_rule (m : mapping) : string :=
  ("        ip daddr " ++ snd m ++ " dnat to " ++ fst m)%string.
Definition extra_forward_rule (interface upstream : string) (m : mapping) : nft_rule :=
  mkNft (Some (upstream, interface)) false (Some ("ip daddr"%string, fst m)) None None "accept".

Definition one_to_one_ruleset (table interface upstream : string) (mappings : list mapping)
    (subnet : string) (filter_config : option FilterConfig) : string :=
  Str.join NL
    ["table ip " ++ table ++ " {";
     "    chain prerouting {";
     "        type nat hook prerouting priority dstnat; policy accept;";
     Str.join NL (map (prerouting_rule upstream) mappings);
     "    }";
     "    chain output {";
     "        type nat hook output priority dstnat; policy accept;";
     Str.join NL (map output_rule mappings);
     "    }";
     "    chain postrouting {";
     "        type nat hook postrouting priority srcnat; policy accept;";
     Str.join NL (map (postrouting_rule upstream) mappings);
     "        oifname " ++ quoted upstream ++ " ip saddr " ++ subnet ++ " masquerade";
     "    }";
     build_forward_chain interface upstream filter_config
       (map (extra_forward_rule interface upstream) mappings);
     "}"; ""]%string.

Fixpoint validate_mappings (mappings : list mapping) : M unit :=
  match mappings with
  | [] => ret tt
  | m :: ms => validate_ip (fst m);; validate_ip (snd m);; validate_mappings ms
  end.

Definition apply_1to1_rules (interface upstream : string) (mappings : list mapping) (subnet : string)
    (table_name : option string) (filter_config : option FilterConfig) : M unit :=
  validate_iface interface;;
  validate_iface upstream;;
  validate_subnet subnet;;
  validate_mappings mappings;;
  let table := or_table table_name interface in
  flush_rules table;;
  load_ruleset (one_to_one_ruleset table interface upstream mappings subnet filter_config).

(** ** The FORWARD chain of the [ip filter] table *)

Definition is_filter_forward_drop : M bool :=
  r <- run_nft ["list"; "chain"; "ip"; "filter"; "FORWARD"]%string false;
  ret ((returncode r =? 0) && Str.str_contains "policy drop" (stdout r)).

(** The leading decimal digits. *)
Fixpoint leading_digits (s : string) : string :=
  match s with
  | String a s' => match Str.digit a with Some _ => String a (leading_digits s') | None => EmptyString end
  | EmptyString => EmptyString
  end.

(** [re.search] of [# handle (\d+)]: the first place where digits follow. *)
Fixpoint find_handle (s : string) : option Z :=
  let here :=
    if Str.startswith "# handle " s
    then Ip.digits (leading_digits (String.substring 9 (String.length s - 9) s)) else None in
  match here with
  | Some n => Some n
  | None => match s with String _ s' => find_handle s' | EmptyString => None end
  end.

Fixpoint insert_accepts (places : list (string * string)) : M (list Z) :=
  match places with
  | [] => ret []
  | (iface, direction) :: ps =>
      r <- run_nft ["-e"; "-a"; "insert"; "rule"; "ip"; "filter"; "FORWARD"; direction; iface; "accept"]%string
             false;
      rest <- insert_accepts ps;
      ret (match (if returncode r =? 0 then find_handle (stdout r) else None) with
           | Some h => h :: rest
           | None => rest
           end)
  end.

Definition ensure_filter_forward (interface upstream : string) : M (list Z) :=
  drop_ <- is_filter_forward_drop;
  if negb drop_ then ret []
  else insert_accepts
         [(interface, "iifname"); (interface, "oifname"); (upstream, "iifname"); (upstream, "oifname")]%string.

Fixpoint remove_filter_forward (handles : list Z) : M unit :=
  match handles with
  | [] => ret tt
  | h :: hs =>
      run_nft ["delete"; "rule"; "ip"; "filter"; "FORWARD"; "handle"; pretty h]%string false;;
      remove_filter_forward hs
  end.

(** ** Time *)

Definition ntp_table (table_name : string) : string := (table_name ++ "_ntp")%string.

Definition ntp_ruleset (interface gateway_ip table : string) : string :=
  Str.join NL
    ["table ip " ++ table ++ " {";
     "    chain prerouting {";
     "        type nat hook prerouting priority dstnat; policy accept;";
     "        iifname " ++ quoted interface ++ " udp dport 123 dnat to " ++ gateway_ip ++ ":123";
     "    }";
     "}"; ""]%string.

Definition apply_ntp_redirect (interface gateway_ip table_name : string) : M unit :=
  validate_iface interface;;
  validate_ip gateway_ip;;
  flush_rules (ntp_table table_name);;
  load_ruleset (ntp_ruleset interface gateway_ip (ntp_table table_name)).

Definition remove_ntp_redirect (table_name : string) : M unit := flush_rules (ntp_table table_name).

End Commands.

(** * What a chain does to a packet *)

Record packet := mkPacket {
  p_iif : string;
  p_oif : string;
  p_src : Z;
  p_dst : Z;
  p_proto : string;
  p_dport : Z;
  p_established : bool
}.

(** An address or a network, as written, holds an IPv4 address. *)
Definition holds (s : string) (a : Z) : bool :=
  match Ip.ip_network s with Some w => Ip.in_network (Ip.V4 a) w | None => false end.

Definition nft_matches (r : nft_rule) (p : packet) : bool :=
  opt_ok (fun io => String.eqb (fst io) (p_iif p) && String.eqb (snd io) (p_oif p)) (n_ifaces r) &&
  (negb (n_established r) || p_established p) &&
  opt_ok (fun fv => holds (snd fv) (if String.eqb (fst fv) "ip daddr" then p_dst p else p_src p))
    (n_addr r) &&
  opt_ok (fun x => String.eqb x (p_proto p)) (n_proto r) &&
  opt_ok (fun x => x =? p_dport p) (n_dport r).

(** What nft takes as an IPv4 address or network. *)
Definition v4_text (s : string) : bool :=
  match Str.split_char "/" s with
  | [addr] => is_some (Ip.parse_v4 addr)
  | [addr; mask] => is_some (Ip.parse_v4 addr) && opt_ok (fun n => n <=? 32) (Ip.digits mask) && is_some (Ip.digits mask)
  | _ => false
  end.

(** The lines that nft loads: in a table of family [ip] an address is an IPv4 one, a protocol
    stands only before a port, which has 16 bits. *)
Definition nft_valid (r : nft_rule) : bool :=
  opt_ok (fun fv => v4_text (snd fv)) (n_addr r) &&
  match n_proto r, n_dport r with
  | None, None => true
  | Some p, Some n => one_of p ["tcp"; "udp"]%string && (0 <=? n) && (n <=? 65535)
  | _, _ => false
  end &&
  one_of (n_verdict r) ["accept"; "drop"]%string.

(** The first matching rule decides; the policy of the chain is to accept. *)
Fixpoint verdict (rs : list nft_rule) (p : packet) : string :=
  match rs with
  | [] => "accept"
  | r :: rs' => if nft_matches r p then n_verdict r else verdict rs' p
  end.

(** [None] when nft refuses the chain. *)
Definition chain_verdict (rs : list nft_rule) (p : packet) : option string :=
  if forallb nft_valid rs then Some (verdict rs p) else None.

(** ** What the configuration asks for *)

(** A rule of the configuration applies to a packet with this remote address. *)
Definition rule_applies (addr : option string) (remote : Z) (r : FilterRule) (p : packet) : bool :=
  opt_ok (fun s => holds s remote) addr &&
  opt_ok (fun x => String.eqb x (p_proto p)) (protocol r) &&
  opt_ok (fun x => x =? p_dport p) (port r).

Definition decide_direction (d : option FilterDirection) (field : FilterRule -> option string)
    (remote : Z) (p : packet) : string :=
  match List.find (fun r => rule_applies (field r) remote r p) (direction_rules d) with
  | Some r => action r
  | None => direction_policy d
  end.

Lemma verdict_app rs1 rs2 p :
  verdict (rs1 ++ rs2) p =
  match List.find (fun r => nft_matches r p) rs1 with
  | Some r => n_verdict r
  | None => verdict rs2 p
  end.
Proof.
  induction rs1 as [|r rs1 IH]; [done |]. cbn [app verdict List.find].
  by destruct (nft_matches r p).
Qed.

Lemma find_map {A B} (f : A -> B) (p : B -> bool) l :
  List.find p (map f l) = option_map f (List.find (fun a => p (f a)) l).
Proof. induction l as [|a l IH]; [done |]. simpl. by destruct (p (f a)). Qed.

Lemma find_ext {A} (p q : A -> bool) l : (forall a, p a = q a) -> List.find p l = List.find q l.
Proof. intros H. induction l as [|a l IH]; [done |]. simpl. by rewrite H, IH. Qed.

Lemma find_false {A} (l : list A) : List.find (fun _ => false) l = None.
Proof. by induction l. Qed.

Lemma egress_matches r i u p :
  nft_matches (filter_rule r i u "destination") p =
  String.eqb i (p_iif p) && String.eqb u (p_oif p) && rule_applies (destination r) (p_dst p) r p.
Proof.
  unfold nft_matches, filter_rule, rule_applies. cbn. destruct (destination r); cbn;
    by rewrite ?andb_true_r, ?andb_assoc.
Qed.

Lemma ingress_matches r i u p :
  nft_matches (filter_rule r u i "source") p =
  String.eqb u (p_iif p) && String.eqb i (p_oif p) && rule_applies (source r) (p_src p) r p.
Proof.
  unfold nft_matches, filter_rule, rule_applies. cbn. destruct (source r); cbn;
    by rewrite ?andb_true_r, ?andb_assoc.
Qed.

Lemma plain_matches i o v p :
  nft_matches (plain_rule i o v) p = String.eqb i (p_iif p) && String.eqb o (p_oif p).
Proof. unfold nft_matches, plain_rule. cbn. by rewrite !andb_true_r. Qed.

Lemma extra_matches i u m p :
  nft_matches (extra_forward_rule i u m) p =
  String.eqb u (p_iif p) && String.eqb i (p_oif p) && holds (fst m) (p_dst p).
Proof. unfold nft_matches, extra_forward_rule. cbn. by rewrite !andb_true_r. Qed.

Lemma find_guarded {A B} (g : bool) (p : A -> bool) (f : A -> B) (l : list A) :
  option_map f (List.find (fun a => g && p a) l) =
  if g then option_map f (List.find p l) else None.
Proof. destruct g; cbn; [done | by rewrite find_false]. Qed.

Lemma forward_verdict interface upstream c mappings p :
  interface <> upstream ->
  verdict (forward_rules interface upstream (Some c) (map (extra_forward_rule interface upstream) mappings)) p =
  (if p_established p then "accept"
   else if String.eqb interface (p_iif p) && String.eqb upstream (p_oif p)
   then decide_direction (egress c) destination (p_dst p) p
   else if String.eqb upstream (p_iif p) && String.eqb interface (p_oif p)
   then if existsb (fun m => holds (fst m) (p_dst p)) mappings then "accept"
        else decide_direction (ingress c) source (p_src p) p
   else "accept")%string.
Proof.
  intros Hne. unfold forward_rules. cbn [app verdict].
  change (nft_matches (mkNft None true None None None "accept") p)
    with (true && (false || p_established p) && true && true && true).
  destruct (p_established p); [done |]. cbn [andb orb].
  rewrite verdict_app, find_map.
  rewrite (find_ext _ (fun r => String.eqb interface (p_iif p) && String.eqb upstream (p_oif p) &&
                                rule_applies (destination r) (p_dst p) r p))
    by (intros; apply egress_matches).
  rewrite find_guarded. cbn [app verdict]. rewrite plain_matches.
  destruct (String.eqb interface (p_iif p) && String.eqb upstream (p_oif p)) eqn:Eout.
  - unfold decide_direction. by destruct (List.find _ (direction_rules (egress c))).
  - rewrite verdict_app, find_map.
    rewrite (find_ext _ (fun m => String.eqb upstream (p_iif p) && String.eqb interface (p_oif p) &&
                                  holds (fst m) (p_dst p))) by (intros; apply extra_matches).
    rewrite find_guarded.
    rewrite verdict_app, find_map.
    rewrite (find_ext _ (fun r => String.eqb upstream (p_iif p) && String.eqb interface (p_oif p) &&
                                  rule_applies (source r) (p_src p) r p))
      by (intros; apply ingress_matches).
    rewrite find_guarded. cbn [verdict]. rewrite plain_matches.
    destruct (String.eqb upstream (p_iif p) && String.eqb interface (p_oif p)); [| done].
    assert (existsb (fun m => holds (fst m) (p_dst p)) mappings =
            is_some (List.find (fun m => holds (fst m) (p_dst p)) mappings)) as ->.
    { clear. induction mappings as [|m ms IH]; [done |]. simpl. by destruct (holds (fst m) (p_dst p)). }
    destruct (List.find (fun m => holds (fst m) (p_dst p)) mappings); [done |].
    cbn [is_some option_map]. unfold decide_direction.
    by destruct (List.find _ (direction_rules (ingress c))).
Qed.

(** A rule that nft can load: a protocol comes with a port of 16 bits, the address that
    counts is an IPv4 one. *)
Definition loads (field : FilterRule -> option string) (r : FilterRule) : Prop :=
  opt_ok v4_text (field r) = true /\ (protocol r <> None -> port r <> None) /\
  opt_ok (fun n => (0 <=? n) && (n <=? 65535)) (port r) = true.

Definition loads_all (c : FilterConfig) : Prop :=
  Forall (loads destination) (direction_rules (egress c)) /\ Forall (loads source) (direction_rules (ingress c)).

Lemma new_rules_ok rs rs' : new_rules rs = inr rs' -> Forall (fun r => new_filter_rule r = inr r) rs /\ rs' = rs.
Proof.
  revert rs'. induction rs as [|r rs IH]; intros rs'; cbn; [by intros [= <-] |].
  destruct (new_filter_rule r) as [|r'] eqn:E; [done |]. destruct (new_rules rs) as [|l]; [done |].
  intros [= <-]. destruct (IH l eq_refl) as [H ->].
  assert (r' = r) as -> by (unfold new_filter_rule in E; repeat case_match; congruence).
  split; [by constructor | done].
Qed.

Lemma new_direction_ok d d' : new_direction d = inr d' ->
  Forall (fun r => new_filter_rule r = inr r) (direction_rules d) /\
  one_of (direction_policy d) ["accept"; "drop"]%string = true.
Proof.
  unfold new_direction, new_filter_direction. destruct d as [d|]; [| done]. cbn [direction_rules direction_policy].
  destruct (one_of (policy d) _); [| done]. cbn [negb].
  destruct (new_rules (rules d)) as [|l] eqn:E; [done |]. intros _. split; [by apply new_rules_ok in E as [H _] | done].
Qed.

Lemma filter_rule_valid r i o f :
  new_filter_rule r = inr r -> loads (fun r => if String.eqb f "destination" then destination r else source r) r ->
  nft_valid (filter_rule r i o f) = true.
Proof.
  unfold new_filter_rule. intros H (Ha & Hp & Hn).
  destruct (one_of (action r) _) eqn:Eact; [| done]. cbn [negb] in H.
  destruct (opt_ok Ip.valid_network (destination r)); [| done]. cbn [negb] in H.
  destruct (opt_ok Ip.valid_network (source r)); [| done]. cbn [negb] in H.
  destruct (is_some (port r) && negb (is_some (protocol r))) eqn:Epp; [done |].
  destruct (opt_ok (fun p => one_of p _) (protocol r)) eqn:Epr; [| done]. clear H.
  unfold nft_valid, filter_rule. cbn [n_addr n_proto n_dport n_verdict]. rewrite Eact, andb_true_r.
  apply andb_true_iff. split.
  - destruct (String.eqb f "destination"); [destruct (destination r) | destruct (source r)]; done.
  - destruct (protocol r) as [p|], (port r) as [n|]; cbn in *; try done; [by rewrite Epr | by destruct (Hp ltac:(done))].
Qed.

(** A checked configuration whose rules nft can load gives a chain that it loads. *)
Lemma forward_rules_valid interface upstream c mappings :
  new_filter_config c = inr c -> loads_all c -> Forall (fun m => v4_text (fst m) = true) mappings ->
  forallb nft_valid (forward_rules interface upstream (Some c)
                       (map (extra_forward_rule interface upstream) mappings)) = true.
Proof.
  intros Hc (He & Hi) Hm. unfold new_filter_config in Hc.
  destruct (new_direction (egress c)) as [|e] eqn:Ee; [done |].
  destruct (new_direction (ingress c)) as [|i] eqn:Ei; [done |]. clear Hc.
  apply new_direction_ok in Ee as [Ee Pe], Ei as [Ei Pi].
  assert (forall d f fld i' o', Forall (fun r => new_filter_rule r = inr r) (direction_rules d) ->
    Forall (loads fld) (direction_rules d) ->
    (forall r, fld r = if String.eqb f "destination" then destination r else source r) ->
    forallb nft_valid (map (fun r => filter_rule r i' o' f) (direction_rules d)) = true) as Hd.
  { intros d f fld i' o' H1 H2 Hf. apply forallb_forall. intros x (r & <- & Hr)%in_map_iff.
    rewrite List.Forall_forall in H1, H2. apply filter_rule_valid; [by apply H1 |].
    destruct (H2 r Hr) as (? & ? & ?). unfold loads. by rewrite <- Hf. }
  unfold forward_rules. rewrite !forallb_app. cbn [forallb].
  rewrite (Hd _ "destination"%string destination), (Hd _ "source"%string source) by done.
  unfold nft_valid at 1 2 4, plain_rule. cbn [n_addr n_proto n_dport n_verdict opt_ok andb]. rewrite Pe, Pi.
  assert (forallb nft_valid (map (extra_forward_rule interface upstream) mappings) = true) as ->; [| done].
  apply forallb_forall. intros x (m & <- & Hin)%in_map_iff. rewrite List.Forall_forall in Hm.
  unfold nft_valid, extra_forward_rule. cbn. by rewrite Hm.
Qed.

(** C34: the forward chain does what the filter configuration says, for a configuration that
    passed its checks and whose rules nft can load (a protocol has a port of 16 bits,
    addresses are IPv4). nft loads the chain; replies pass; a new connection from the
    device network to the upstream gets the action of the first egress rule whose
    destination, protocol and port it has, else the egress policy; a new connection from
    the upstream gets the action of the first ingress rule for its source, else the
    ingress policy; traffic between other interfaces is left alone. Connections from the
    upstream to an address with a one-to-one mapping are excluded: they pass before the
    ingress rules ([mapped_device_unfiltered]). *)
Theorem forward_chain_decides interface upstream c mappings p :
  interface <> upstream ->
  new_filter_config c = inr c -> loads_all c -> Forall (fun m => v4_text (fst m) = true) mappings ->
  Forall (fun m => holds (fst m) (p_dst p) = false) mappings ->
  chain_verdict (forward_rules interface upstream (Some c) (map (extra_forward_rule interface upstream) mappings)) p =
  Some (if p_established p then "accept"
        else if String.eqb interface (p_iif p) && String.eqb upstream (p_oif p)
        then decide_direction (egress c) destination (p_dst p) p
        else if String.eqb upstream (p_iif p) && String.eqb interface (p_oif p)
        then decide_direction (ingress c) source (p_src p) p
        else "accept")%string.
Proof.
  intros Hne Hc Hl Hv Hm. unfold chain_verdict. rewrite forward_rules_valid, forward_verdict by done.
  assert (existsb (fun m => holds (fst m) (p_dst p)) mappings = false) as ->; [| done].
  clear -Hm. induction Hm as [|m ms H _ IH]; [done |]. cbn. by rewrite H, IH.
Qed.

(** A rule with a protocol and no port passes the checks of the configuration, but is written
    as a line that nft refuses, so that no rule of the network can be loaded. *)
Theorem protocol_alone_refused interface upstream pol rs r extras e p :
  r ∈ rs -> protocol r <> None -> port r = None ->
  chain_verdict (forward_rules interface upstream (Some (mkFilterConfig e (Some (mkFilterDirection pol rs)))) extras) p = None.
Proof.
  intros Hr Hp Hn. unfold chain_verdict.
  destruct (forallb nft_valid _) eqn:E; [| done]. rewrite forallb_forall in E.
  assert (nft_valid (filter_rule r upstream interface "source") = true) as H.
  { apply E. unfold forward_rules. cbn [direction_rules rules ingress]. rewrite !in_app_iff. do 4 right. left.
    apply (in_map (fun r => filter_rule r upstream interface "source")). by apply list_elem_of_In. }
  unfold nft_valid, filter_rule in H. cbn [n_proto n_dport] in H. rewrite Hn in H.
  destruct (protocol r); [| done]. by rewrite andb_false_r in H.
Qed.

(** Without a configuration only connections from the device network are admitted
    explicitly, and nothing is dropped. *)
Theorem legacy_chain_accepts interface upstream mappings p :
  verdict (forward_rules interface upstream None (map (extra_forward_rule interface upstream) mappings)) p =
  "accept"%string.
Proof.
  unfold forward_rules. cbn [app verdict]. destruct (nft_matches _ p); [done |].
  destruct (nft_matches _ p); [done |].
  induction mappings as [|m ms IH]; [done |]. cbn [map verdict]. by destruct (nft_matches _ p).
Qed.

(** A device with a one-to-one mapping is not covered by the ingress filter: every
    new connection from the upstream to its address is accepted, whatever the ingress
    rules and policy say, because its accept rule comes before them. *)
Theorem mapped_device_unfiltered interface upstream e i m ms p :
  interface <> upstream -> m ∈ ms ->
  p_iif p = upstream -> p_oif p = interface -> holds (fst m) (p_dst p) = true ->
  verdict (forward_rules interface upstream (Some (mkFilterConfig e i))
             (map (extra_forward_rule interface upstream) ms)) p = "accept"%string.
Proof.
  intros Hne Hm Hi Ho Hh. unfold forward_rules. cbn [app verdict].
  destruct (nft_matches _ p) eqn:E0; [done |]. rewrite verdict_app, find_map.
  rewrite (find_ext _ (fun r => String.eqb interface (p_iif p) && String.eqb upstream (p_oif p) &&
                                rule_applies (destination r) (p_dst p) r p))
    by (intros; apply egress_matches).
  rewrite find_guarded. cbn [app verdict]. rewrite plain_matches, Hi, Ho.
  rewrite (proj2 (String.eqb_neq interface upstream) Hne). cbn [andb].
  rewrite verdict_app, find_map.
  rewrite (find_ext _ (fun m => true && holds (fst m) (p_dst p)))
    by (intros; rewrite extra_matches, Hi, Ho, !String.eqb_refl; done).
  cbn [andb]. apply list_elem_of_In in Hm.
  destruct (List.find (fun m => holds (fst m) (p_dst p)) ms) eqn:Ef; [done |].
  pose proof (find_none _ _ Ef m Hm). cbn in *. congruence.
Qed.

Definition demo_packet : packet := mkPacket "eth0" "br0" (10 * 16777216 + 7) 3232261130 "tcp" 22 false.

Definition ssh_only : FilterConfig :=
  mkFilterConfig None (Some (mkFilterDirection "drop"
    [mkFilterRule "accept" None (Some "10.0.0.0/8"%string) (Some 22) (Some "tcp"%string)])).

Lemma forward_chain_decides_witness :
  chain_verdict (forward_rules "br0" "eth0" (Some ssh_only)
    (map (extra_forward_rule "br0" "eth0") [("192.168.100.99", "10.0.0.5")]%string)) demo_packet = Some "accept"%string.
Proof.
  assert (loads_all ssh_only) as Hl.
  { split; [constructor |]. constructor; [| constructor]. split_and!; [vm_compute; reflexivity | discriminate | reflexivity]. }
  rewrite (forward_chain_decides "br0" "eth0" ssh_only [("192.168.100.99", "10.0.0.5")]%string demo_packet
             ltac:(discriminate) ltac:(vm_compute; reflexivity) Hl).
  - vm_compute. reflexivity.
  - constructor; [vm_compute; reflexivity | constructor].
  - constructor; [vm_compute; reflexivity | constructor].
Defined.

Lemma mapped_device_unfiltered_witness :
  verdict (forward_rules "br0" "eth0"
             (Some (mkFilterConfig None (Some (mkFilterDirection "drop" []))))
             (map (extra_forward_rule "br0" "eth0") [("192.168.100.10", "10.0.0.5")]%string))
    demo_packet = "accept"%string.
Proof.
  apply (mapped_device_unfiltered "br0" "eth0" None _ ("192.168.100.10", "10.0.0.5")%string);
    [discriminate | apply list_elem_of_singleton; reflexivity | reflexivity | reflexivity |
     vm_compute; reflexivity].
Defined.

(** The same packet is dropped without the mapping. *)
Example unmapped_is_dropped :
  verdict (forward_rules "br0" "eth0"
             (Some (mkFilterConfig None (Some (mkFilterDirection "drop" [])))) []) demo_packet = "drop"%string.
Proof. vm_compute. reflexivity. Qed.

(** * The text of a chain *)

Definition no_newline (s : string) : Prop := Str.has_char Str.newline s = false.

(** The texts a rule is made of are on one line. *)
Definition one_line (r : nft_rule) : Prop := Forall no_newline (nft_parts r).

Lemma join_no_newline sep ps : no_newline sep -> Forall no_newline ps -> no_newline (Str.join sep ps).
Proof.
  intros Hs H. unfold no_newline in *. induction H as [|p ps Hp H IH]; [done |].
  cbn [Str.join]. destruct ps; [done |]. by rewrite !Str.has_char_app, Hp, Hs, IH.
Qed.

(** The lines of the chain are its header, one line per rule, in order, and its end. *)
Theorem forward_chain_lines interface upstream c extras :
  Forall one_line (forward_rules interface upstream c extras) ->
  Str.split_char Str.newline (build_forward_chain interface upstream c extras) =
    ["    chain forward {"; "        type filter hook forward priority filter; policy accept;"]%string ++
    map render (forward_rules interface upstream c extras) ++ ["    }"%string].
Proof.
  intros H. unfold build_forward_chain. apply Str.split_char_join; [done |].
  apply Forall_cons. split; [done |]. apply Forall_cons. split; [done |]. apply Forall_app. split.
  - apply Forall_map. eapply Forall_impl; [exact H |]. intros r Hr. unfold render. cbv beta.
    rewrite Str.has_char_app. apply orb_false_iff. split; [done |].
    by apply (join_no_newline " ").
  - by apply Forall_singleton.
Qed.

(** IPv4 addresses are digits and dots. *)
Definition v4_char (a : ascii) : bool := is_some (Str.digit a) || Ascii.eqb a ".".

Lemma decimal_chars s acc n : Ip.decimal s acc = Some n -> Str.all_chars (fun a => is_some (Str.digit a)) s = true.
Proof.
  revert acc. induction s as [|a s IH]; intros acc; cbn; [done |].
  destruct (Str.digit a); [| done]. intros H. by rewrite (IH _ H).
Qed.

Lemma octet_chars s n : Ip.parse_octet s = Some n -> Str.all_chars v4_char s = true.
Proof.
  unfold Ip.parse_octet, Ip.digits. destruct s as [|a s]; [done |].
  destruct (Ip.decimal (String a s) 0) eqn:E; [| done]. intros _.
  apply decimal_chars in E. revert E. generalize (String a s) as u.
  induction u as [|b u IH]; cbn; [done |]. unfold v4_char at 1. destruct (is_some (Str.digit b)); [| done].
  intros H. by rewrite IH.
Qed.

Lemma v4_chars s n : Ip.parse_v4 s = Some n -> Str.all_chars v4_char s = true.
Proof.
  unfold Ip.parse_v4. pose proof (Str.join_split "." s) as Hj.
  destruct (Str.split_char "." s) as [|a [|b [|c [|d [|? ?]]]]]; try done.
  destruct (Ip.parse_octet a) eqn:Ea; [| done]. destruct (Ip.parse_octet b) eqn:Eb; [| done].
  destruct (Ip.parse_octet c) eqn:Ec; [| done]. destruct (Ip.parse_octet d) eqn:Ed; [| done].
  intros _. rewrite <- Hj. cbn [Str.join].
  apply octet_chars in Ea, Eb, Ec, Ed. by rewrite !Str.all_chars_app, Ea, Eb, Ec, Ed.
Qed.

(** An address with a scope: any text is accepted as the name of the zone. *)
Lemma scoped_address_valid t :
  truthy t = true -> Str.has_char "%" t = false -> Str.has_char "/" t = false ->
  Ip.valid_ip ("::1%" ++ t) = true.
Proof.
  intros Ht Hp Hs. unfold Ip.valid_ip, Ip.ip_address.
  assert (Ip.parse_v4 ("::1%" ++ t) = None) as ->.
  { destruct (Ip.parse_v4 ("::1%" ++ t)) eqn:E; [| done]. by apply v4_chars in E. }
  rewrite Str.has_char_app, Hs. cbn [Str.has_char Ascii.eqb Bool.eqb orb].
  unfold Ip.parse_v6_scoped.
  change ("::1%" ++ t)%string with ("::1" ++ String "%"%char t)%string.
  rewrite Str.split1_app by reflexivity. rewrite Ht, Hp. cbn [negb orb].
  assert (Ip.parse_v6 "::1" = Some 1) as -> by (vm_compute; reflexivity). reflexivity.
Qed.

Lemma split_char_app_in c h t x : Str.has_char c h = false -> In x (Str.split_char c t) ->
  In x (Str.split_char c (h ++ String c t)).
Proof. intros H1 H2. rewrite Str.split_char_app by done. by right. Qed.

(** The address check does not keep a mapping on its line: for every text without
    a percent sign, a slash or a line feed there is a public address that passes
    validation and whose rule puts that text on a line of its own in the rule set
    loaded with root's rights. *)
Theorem address_check_admits_rules upstream private line :
  no_newline upstream ->
  Str.has_char "%" line = false -> Str.has_char "/" line = false -> no_newline line ->
  exists public_ip,
    Ip.valid_ip public_ip = true /\
    In line (Str.split_char Str.newline (prerouting_rule upstream (private, public_ip))).
Proof.
  intros Hu Hp Hs Hn.
  exists ("::1%" ++ ("a" ++ String Str.newline (line ++ String Str.newline "#")))%string. split.
  - apply scoped_address_valid; [done | |]; rewrite !Str.has_char_app; cbn;
      rewrite !Str.has_char_app; cbn; by rewrite ?Hp, ?Hs.
  - unfold prerouting_rule. cbn [fst snd].
    set (rest := (" dnat to " ++ private)%string).
    replace ("        iifname " ++ quoted upstream ++ " ip daddr " ++
             ("::1%" ++ ("a" ++ String Str.newline (line ++ String Str.newline "#"))) ++ rest)%string
      with (("        iifname " ++ quoted upstream ++ " ip daddr ::1%a") ++
            String Str.newline (line ++ String Str.newline ("#" ++ rest)))%string.
    + apply split_char_app_in.
      * rewrite !Str.has_char_app. unfold quoted. cbn. rewrite Str.has_char_app, Hu. reflexivity.
      * rewrite Str.split_char_app by exact Hn. by left.
    + repeat first [rewrite Str.sapp_assoc | rewrite Str.sapp_cons]. reflexivity.
Qed.

Lemma address_check_admits_rules_witness :
  exists public_ip, Ip.valid_ip public_ip = true /\
    In "        ip daddr 0.0.0.0 drop"%string
       (Str.split_char Str.newline (prerouting_rule "eth0" ("192.168.100.2"%string, public_ip))).
Proof. apply address_check_admits_rules; reflexivity. Defined.

Lemma forward_chain_lines_witness :
  length (Str.split_char Str.newline (build_forward_chain "br0" "eth0" None [])) = 5%nat.
Proof.
  rewrite (forward_chain_lines "br0" "eth0" None []); [reflexivity |].
  repeat constructor.
Defined.
