(* ===== verification/DutNetwork.v ===== *)
(** * The device network driver

    [jumpstarter_driver_dut_network]: the configuration files and the process of
    dnsmasq ([dnsmasq.py]), interfaces and forwarding ([iproute.py]) and the driver
    itself ([driver.py]): set-up, clean-up, address and DNS entries, the
    synchronisation of one-to-one mappings and the arguments of tcpdump.

    The state is what the driver keeps, the files of its state directory and the
    commands and signals sent so far; the answers to commands, the delivery of
    signals, name resolution and the start of dnsmasq are parameters. *)

From stdpp Require Import base list strings pretty gmap.
From Stdlib Require Import ZArith Lia Ascii.
From S2P Require Import Prelude PyText PyIp DutFilter.

Open Scope Z_scope.
Open Scope list_scope.

(** ** Data *)

(** An entry of [addresses]: a dictionary with [ip] and optional keys. *)
Record AddressEntry := mkAddress {
  a_ip : string;
  a_mac : option string;
  a_hostname : option string;
  a_public_ip : option string
}.

Record DnsEntry := mkDns { d_hostname : string; d_ip : string }.

Record DhcpLease := mkDhcpLease { expiry : Z; mac : string; ip : string; hostname : string }.

(** The fields that no operation changes. *)
Record Config := mkConfig {
  interface : string;
  subnet : string;
  gateway_ip : string;
  upstream_interface : option string;
  dhcp_enabled : bool;
  dhcp_range_start : string;
  dhcp_range_end : string;
  dns_servers : list string;
  local_ntp : bool;
  enable_tcpdump : bool;
  filter_ : option FilterConfig;
  state_dir : option string;
  nat_mode : string;
  public_interface : option string
}.

Inductive kill_result := Delivered | NoPermission | NoSuchProcess.

Record World := mkWorld {
  addresses : list AddressEntry;
  dns_entries : list DnsEntry;
  dnsmasq_process : option Z;
  state_path : option string;
  upstream : option string;
  prefix_len : Z;
  prev_fwd_iface : string;
  prev_fwd_upstream : string;
  upstream_prefix_len : Z;
  added_aliases : gset string;
  fwd_rule_handles : list Z;
  ntp_server : bool;
  tcpdump_process : bool;
  files : list (string * string);
  commands : list command;
  signals : list (Z * string)
}.

#[export] Instance set_addresses : Setter addresses := fun u w =>
  mkWorld (u (addresses w)) (dns_entries w) (dnsmasq_process w) (state_path w) (upstream w)
    (prefix_len w) (prev_fwd_iface w) (prev_fwd_upstream w) (upstream_prefix_len w)
    (added_aliases w) (fwd_rule_handles w) (ntp_server w) (tcpdump_process w) (files w)
    (commands w) (signals w).
#[export] Instance set_dns_entries : Setter dns_entries := fun u w =>
  mkWorld (addresses w) (u (dns_entries w)) (dnsmasq_process w) (state_path w) (upstream w)
    (prefix_len w) (prev_fwd_iface w) (prev_fwd_upstream w) (upstream_prefix_len w)
    (added_aliases w) (fwd_rule_handles w) (ntp_server w) (tcpdump_process w) (files w)
    (commands w) (signals w).
#[export] Instance set_dnsmasq_process : Setter dnsmasq_process := fun u w =>
  mkWorld (addresses w) (dns_entries w) (u (dnsmasq_process w)) (state_path w) (upstream w)
    (prefix_len w) (prev_fwd_iface w) (prev_fwd_upstream w) (upstream_prefix_len w)
    (added_aliases w) (fwd_rule_handles w) (ntp_server w) (tcpdump_process w) (files w)
    (commands w) (signals w).
#[export] Instance set_state_path : Setter state_path := fun u w =>
  mkWorld (addresses w) (dns_entries w) (dnsmasq_process w) (u (state_path w)) (upstream w)
    (prefix_len w) (prev_fwd_iface w) (prev_fwd_upstream w) (upstream_prefix_len w)
    (added_aliases w) (fwd_rule_handles w) (ntp_server w) (tcpdump_process w) (files w)
    (commands w) (signals w).
#[export] Instance set_upstream : Setter upstream := fun u w =>
  mkWorld (addresses w) (dns_entries w) (dnsmasq_process w) (state_path w) (u (upstream w))
    (prefix_len w) (prev_fwd_iface w) (prev_fwd_upstream w) (upstream_prefix_len w)
    (added_aliases w) (fwd_rule_handles w) (ntp_server w) (tcpdump_process w) (files w)
    (commands w) (signals w).
#[export] Instance set_prefix_len : Setter prefix_len := fun u w =>
  mkWorld (addresses w) (dns_entries w) (dnsmasq_process w) (state_path w) (upstream w) (u
    (prefix_len w)) (prev_fwd_iface w) (prev_fwd_upstream w) (upstream_prefix_len w)
    (added_aliases w) (fwd_rule_handles w) (ntp_server w) (tcpdump_process w) (files w)
    (commands w) (signals w).
#[export] Instance set_prev_fwd_iface : Setter prev_fwd_iface := fun u w =>
  mkWorld (addresses w) (dns_entries w) (dnsmasq_process w) (state_path w) (upstream w)
    (prefix_len w) (u (prev_fwd_iface w)) (prev_fwd_upstream w) (upstream_prefix_len w)
    (added_aliases w) (fwd_rule_handles w) (ntp_server w) (tcpdump_process w) (files w)
    (commands w) (signals w).
#[export] Instance set_prev_fwd_upstream : Setter prev_fwd_upstream := fun u w =>
  mkWorld (addresses w) (dns_entries w) (dnsmasq_process w) (state_path w) (upstream w)
    (prefix_len w) (prev_fwd_iface w) (u (prev_fwd_upstream w)) (upstream_prefix_len w)
    (added_aliases w) (fwd_rule_handles w) (ntp_server w) (tcpdump_process w) (files w)
    (commands w) (signals w).
#[export] Instance set_upstream_prefix_len : Setter upstream_prefix_len := fun u w =>
  mkWorld (addresses w) (dns_entries w) (dnsmasq_process w) (state_path w) (upstream w)
    (prefix_len w) (prev_fwd_iface w) (prev_fwd_upstream w) (u (upstream_prefix_len w))
    (added_aliases w) (fwd_rule_handles w) (ntp_server w) (tcpdump_process w) (files w)
    (commands w) (signals w).
#[export] Instance set_added_aliases : Setter added_aliases := fun u w =>
  mkWorld (addresses w) (dns_entries w) (dnsmasq_process w) (state_path w) (upstream w)
    (prefix_len w) (prev_fwd_iface w) (prev_fwd_upstream w) (upstream_prefix_len w) (u
    (added_aliases w)) (fwd_rule_handles w) (ntp_server w) (tcpdump_process w) (files w)
    (commands w) (signals w).
#[export] Instance set_fwd_rule_handles : Setter fwd_rule_handles := fun u w =>
  mkWorld (addresses w) (dns_entries w) (dnsmasq_process w) (state_path w) (upstream w)
    (prefix_len w) (prev_fwd_iface w) (prev_fwd_upstream w) (upstream_prefix_len w)
    (added_aliases w) (u (fwd_rule_handles w)) (ntp_server w) (tcpdump_process w) (files w)
    (commands w) (signals w).
#[export] Instance set_ntp_server : Setter ntp_server := fun u w =>
  mkWorld (addresses w) (dns_entries w) (dnsmasq_process w) (state_path w) (upstream w)
    (prefix_len w) (prev_fwd_iface w) (prev_fwd_upstream w) (upstream_prefix_len w)
    (added_aliases w) (fwd_rule_handles w) (u (ntp_server w)) (tcpdump_process w) (files w)
    (commands w) (signals w).
#[export] Instance set_tcpdump_process : Setter tcpdump_process := fun u w =>
  mkWorld (addresses w) (dns_entries w) (dnsmasq_process w) (state_path w) (upstream w)
    (prefix_len w) (prev_fwd_iface w) (prev_fwd_upstream w) (upstream_prefix_len w)
    (added_aliases w) (fwd_rule_handles w) (ntp_server w) (u (tcpdump_process w)) (files w)
    (commands w) (signals w).
#[export] Instance set_files : Setter files := fun u w =>
  mkWorld (addresses w) (dns_entries w) (dnsmasq_process w) (state_path w) (upstream w)
    (prefix_len w) (prev_fwd_iface w) (prev_fwd_upstream w) (upstream_prefix_len w)
    (added_aliases w) (fwd_rule_handles w) (ntp_server w) (tcpdump_process w) (u (files w))
    (commands w) (signals w).
#[export] Instance set_commands : Setter commands := fun u w =>
  mkWorld (addresses w) (dns_entries w) (dnsmasq_process w) (state_path w) (upstream w)
    (prefix_len w) (prev_fwd_iface w) (prev_fwd_upstream w) (upstream_prefix_len w)
    (added_aliases w) (fwd_rule_handles w) (ntp_server w) (tcpdump_process w) (files w) (u
    (commands w)) (signals w).
#[export] Instance set_signals : Setter signals := fun u w =>
  mkWorld (addresses w) (dns_entries w) (dnsmasq_process w) (state_path w) (upstream w)
    (prefix_len w) (prev_fwd_iface w) (prev_fwd_upstream w) (upstream_prefix_len w)
    (added_aliases w) (fwd_rule_handles w) (ntp_server w) (tcpdump_process w) (files w)
    (commands w) (u (signals w)).

(** The state of a driver before its set-up. *)
Definition initial (addrs : list AddressEntry) (dns : list DnsEntry) : World :=
  mkWorld addrs dns None None None 0 "0" "0" 24 ∅ [] false false [] [] [].

(** ** Exceptions and state *)

Inductive error :=
| Raised (e : exn)
| ProcessLookupError
| KeyError.

Definition N (A : Type) : Type := World -> World * (error + A).

Definition done_ {A} (a : A) : N A := fun w => (w, inr a).
Definition fail_ {A} (e : error) : N A := fun w => (w, inl e).
Definition look {A} (f : World -> A) : N A := fun w => (w, inr (f w)).
Definition change_ (f : World -> World) : N unit := fun w => (f w, inr tt).
Definition seq_ {A B} (m : N A) (g : A -> N B) : N B := fun w =>
  match m w with
  | (w', inl e) => (w', inl e)
  | (w', inr a) => g a w'
  end.

(** An operation that only runs commands. *)
Definition sys {A} (m : M A) : N A := fun w =>
  let '(cs, r) := m (commands w) in
  (w <| commands := cs |>, match r with inl e => inl (Raised e) | inr a => inr a end).

Declare Scope dut_scope.
Notation "x <- m ; g" := (seq_ m (fun x => g))
  (at level 20, m at level 100, g at level 200, only parsing) : dut_scope.
Notation "m ;; g" := (seq_ m (fun _ => g))
  (at level 100, g at level 200, right associativity, only parsing) : dut_scope.
Open Scope dut_scope.

Fixpoint for_each {A} (f : A -> N unit) (l : list A) : N unit :=
  match l with
  | [] => done_ tt
  | a :: l' => f a;; for_each f l'
  end.

Definition value_error {A} (msg : string) : N A := fail_ (Raised (ValueError msg)).

(** ** Files of dnsmasq *)

Definition hostname_char : ascii -> bool := iface_char.
Definition valid_hostname (s : string) : bool := matches_class hostname_char 253 s.

Definition hex (a : ascii) : bool := is_some (Ip.hex_digit a).

(** Two hexadecimal digits, six times, with colons between. *)
Definition valid_mac (s : string) : bool :=
  let parts := Str.split_char ":" (chop_newline s) in
  (length parts =? 6)%nat && forallb (fun p => (String.length p =? 2)%nat && Str.all_chars hex p) parts.

Definition write_file (name content : string) : N unit := change_ (fun w => w <| files ::= dict_set name content |>).

(** The lines joined, with a last line feed, or nothing. *)
Definition file_of (lines : list string) : string :=
  match lines with [] => EmptyString | _ => (Str.join NL lines ++ NL)%string end.

Definition dns_line (e : DnsEntry) : string := (d_ip e ++ " " ++ d_hostname e)%string.

Definition check_dns (e : DnsEntry) : N unit :=
  if negb (Ip.valid_ip (d_ip e)) then value_error "invalid address"
  else if valid_hostname (d_hostname e) then done_ tt else value_error "Invalid hostname".

Definition write_dns_hosts (entries : list DnsEntry) : N unit :=
  for_each check_dns entries;;
  write_file "hosts.local" (file_of (map dns_line entries)).

(** The line of a static lease; [None] when the entry has no MAC address. *)
Definition dhcp_line (l : AddressEntry) : error + option string :=
  match a_mac l with
  | None | Some EmptyString => inr None
  | Some mac =>
      if negb (valid_mac mac) then inl (Raised (ValueError "Invalid MAC address"))
      else if negb (Ip.valid_ip (a_ip l)) then inl (Raised (ValueError "invalid address"))
      else
        let hostname := default EmptyString (a_hostname l) in
        if truthy hostname && negb (valid_hostname hostname)
        then inl (Raised (ValueError "Invalid hostname"))
        else if truthy hostname then inr (Some (mac ++ "," ++ a_ip l ++ "," ++ hostname)%string)
        else inr (Some (mac ++ "," ++ a_ip l)%string)
  end.

Fixpoint dhcp_lines (ls : list AddressEntry) : error + list string :=
  match ls with
  | [] => inr []
  | l :: ls' =>
      match dhcp_line l with
      | inl e => inl e
      | inr o =>
          match dhcp_lines ls' with
          | inl e => inl e
          | inr rest => inr (match o with Some x => x :: rest | None => rest end)
          end
      end
  end.

Definition write_dhcp_hosts (static_leases : list AddressEntry) : N unit :=
  match dhcp_lines static_leases with
  | inl e => fail_ e
  | inr lines => write_file "dhcp-hosts" (file_of lines)
  end.

Definition in_dir (dir name : string) : string := (dir ++ "/" ++ name)%string.

Definition config_lines (dir iface range_start range_end : string) (dns_servers : list string)
    (gateway : string) : list string :=
  ["interface=" ++ iface;
   "bind-interfaces";
   "dhcp-range=" ++ range_start ++ "," ++ range_end ++ ",12h";
   "dhcp-option=option:router," ++ gateway;
   "dhcp-leasefile=" ++ in_dir dir "dnsmasq.leases";
   "pid-file=" ++ in_dir dir "dnsmasq.pid";
   "addn-hosts=" ++ in_dir dir "hosts.local";
   "dhcp-hostsfile=" ++ in_dir dir "dhcp-hosts";
   "dhcp-sequential-ip"; "log-dhcp"; "no-resolv"; "no-hosts"; "keep-in-foreground"]%string ++
  map (fun s => ("server=" ++ s)%string) dns_servers.

Definition write_config (dir : string) (c : Config) (static_leases : list AddressEntry)
    (entries : list DnsEntry) : N unit :=
  write_dns_hosts entries;;
  write_dhcp_hosts static_leases;;
  write_file "dnsmasq.conf"
    (file_of (config_lines dir (interface c) (dhcp_range_start c) (dhcp_range_end c) (dns_servers c)
                (gateway_ip c))).

(** [_read_pid_file] *)
Definition read_pid_file (w : World) : option Z :=
  match dict_get "dnsmasq.pid" (files w) with
  | Some t => Str.py_int (Str.strip t)
  | None => None
  end.

Definition parse_lease (line : string) : error + option DhcpLease :=
  match Str.words line with
  | e :: m :: i :: h :: _ =>
      match Str.py_int e with
      | Some x => inr (Some (mkDhcpLease x m i (if String.eqb h "*" then EmptyString else h)))
      | None => inl (Raised (ValueError "invalid literal for int"))
      end
  | _ => inr None
  end.

Fixpoint parse_lease_lines (lines : list string) : error + list DhcpLease :=
  match lines with
  | [] => inr []
  | l :: ls =>
      match parse_lease l with
      | inl e => inl e
      | inr o =>
          match parse_lease_lines ls with
          | inl e => inl e
          | inr rest => inr (match o with Some x => x :: rest | None => rest end)
          end
      end
  end.

Definition parse_leases (w : World) : error + list DhcpLease :=
  match dict_get "dnsmasq.leases" (files w) with
  | None => inr []
  | Some t => parse_lease_lines (Str.splitlines (Str.strip t))
  end.

Definition get_lease_by_mac (w : World) (m : string) : error + option DhcpLease :=
  match parse_leases w with
  | inl e => inl e
  | inr ls => inr (List.find (fun l => String.eqb (Str.lower (mac l)) (Str.lower m)) ls)
  end.

Section Driver.

Context (root : bool) (oracle : nat -> command -> result).
Context (kill : nat -> Z -> string -> kill_result).
Context (getaddrinfo : string -> option string).
Context (which : string -> bool) (linux : bool).
Context (mkdir_ok chmod_ok : bool) (uid gid : Z).

(** ** The process of dnsmasq *)

(** [signal_pid] *)
Definition signal_pid (pid : Z) (sig : string) : N unit :=
  n <- look (fun w => length (signals w));
  change_ (fun w => w <| signals ::= fun l => l ++ [(pid, sig)] |>);;
  match kill n pid sig with
  | Delivered => done_ tt
  | NoPermission => sys (run oracle (sudo_cmd root ["kill"; "-" ++ sig; pretty pid]%string) None false);; done_ tt
  | NoSuchProcess => fail_ ProcessLookupError
  end.

(** [a or b] on process numbers. *)
Definition or_pid (a b : option Z) : option Z :=
  match a with Some p => if p =? 0 then b else Some p | None => b end.

(** [stop]: [running] is [process.poll() is None], [exits] whether the wait for the
    process ends within five seconds. *)
Definition dnsmasq_stop (running exits : bool) : N unit :=
  w <- look (fun w => w);
  let pid := match state_path w with Some _ => read_pid_file w | None => None end in
  match or_pid pid (dnsmasq_process w) with
  | None => done_ tt
  | Some target =>
      signal_pid target "TERM";;
      (if is_some (dnsmasq_process w) && running && negb exits then signal_pid target "KILL" else done_ tt)
  end.

Definition reload_config (running : bool) : N unit :=
  w <- look (fun w => w);
  let pid := match state_path w with Some _ => read_pid_file w | None => None end in
  match or_pid pid (if running then dnsmasq_process w else None) with
  | None => done_ tt
  | Some target => signal_pid target "HUP"
  end.

(** What each round of the start-up loop sees: whether the process has exited, and
    whether the pidfile exists. The loop ends with the rounds, at the deadline. *)
Fixpoint startup_loop (rounds : list (bool * bool)) : N unit :=
  match rounds with
  | [] => done_ tt
  | (exited, pidfile) :: rs =>
      if exited then fail_ (Raised (RuntimeError "dnsmasq failed to start"))
      else if pidfile then done_ tt
      else startup_loop rs
  end.

(** [start]: the process number, the rounds, and what is seen after them. *)
Record startup := mkStartup { s_pid : Z; s_rounds : list (bool * bool); s_exited : bool; s_pidfile : bool }.

Definition dnsmasq_start (s : startup) : N Z :=
  conf <- look (fun w => dict_get "dnsmasq.conf" (files w));
  match conf with
  | None => fail_ (Raised (FileNotFoundError "dnsmasq config not found"))
  | Some _ =>
      startup_loop (s_rounds s);;
      if s_exited s then fail_ (Raised (RuntimeError "dnsmasq failed to start"))
      else if negb (s_pidfile s)
      then fail_ (Raised (RuntimeError "dnsmasq started but did not create pidfile within timeout"))
      else done_ (s_pid s)
  end.

(** ** Interfaces *)

Definition run_ (cmd : list string) (check : bool) : N result := sys (run oracle cmd None check).
Definition run_priv (cmd : list string) (check : bool) : N result :=
  sys (run oracle (sudo_cmd root cmd) None check).

(** [ensure_state_dir]: with sudo where the process may not. *)
Definition ensure_state_dir (dir : string) : N unit :=
  (if mkdir_ok then done_ tt
   else run_priv ["mkdir"; "-p"; dir]%string true;;
        run_priv ["chown"; pretty uid ++ ":" ++ pretty gid; dir]%string true;; done_ tt);;
  if chmod_ok then done_ tt else run_priv ["chmod"; "755"; dir]%string true;; done_ tt.

Definition is_nm_running : N bool :=
  if negb (which "nmcli") then done_ false
  else r <- run_ ["nmcli"; "general"; "status"]%string false; done_ (returncode r =? 0).

Definition nm_set (iface managed : string) : N unit :=
  nm <- is_nm_running;
  if nm then run_priv ["nmcli"; "device"; "set"; iface; "managed"; managed]%string false;; done_ tt
  else done_ tt.

Definition nm_set_unmanaged (iface : string) : N unit := nm_set iface "no".
Definition nm_set_managed (iface : string) : N unit := nm_set iface "yes".

Definition cidr (ip : string) (len : Z) : string := (ip ++ "/" ++ pretty len)%string.

Definition configure_interface (iface gateway : string) (len : Z) : N unit :=
  run_priv ["ip"; "addr"; "flush"; "dev"; iface]%string true;;
  run_priv ["ip"; "addr"; "add"; cidr gateway len; "dev"; iface]%string true;;
  run_priv ["ip"; "link"; "set"; iface; "up"]%string true;;
  done_ tt.

Definition deconfigure_interface (iface : string) : N unit :=
  run_priv ["ip"; "addr"; "flush"; "dev"; iface]%string false;;
  run_priv ["ip"; "link"; "set"; iface; "down"]%string false;;
  done_ tt.

(** The word after the first [inet]. *)
Fixpoint after_inet (ws : list string) : option string :=
  match ws with
  | a :: ((b :: _) as rest) => if String.eqb a "inet" then Some b else after_inet rest
  | _ => None
  end.

Definition get_interface_addresses (iface : string) : N (list string) :=
  r <- run_ ["ip"; "-o"; "-4"; "addr"; "show"; "dev"; iface]%string false;
  done_ (if returncode r =? 0
         then flat_map (fun l => match after_inet (Str.words l) with Some a => [a] | None => [] end)
                (Str.splitlines (Str.strip (stdout r)))
         else []).

Definition get_interface_prefix_len (iface : string) : N (option Z) :=
  addrs <- get_interface_addresses iface;
  done_ (match addrs with
         | [] => None
         | a :: _ => match Str.split_char "/" a with _ :: p :: _ => Str.py_int p | _ => None end
         end).

Definition add_ip_alias (iface ip : string) (len : Z) : N unit :=
  addrs <- get_interface_addresses iface;
  if one_of (cidr ip len) addrs then done_ tt
  else run_priv ["ip"; "addr"; "add"; cidr ip len; "dev"; iface]%string true;; done_ tt.

Definition remove_ip_alias (iface ip : string) (len : Z) : N unit :=
  run_priv ["ip"; "addr"; "del"; cidr ip len; "dev"; iface]%string false;; done_ tt.

Definition forwarding_key (iface : string) : string := ("net.ipv4.conf." ++ iface ++ ".forwarding")%string.

Definition get_interface_forwarding (iface : string) : N string :=
  r <- run_ ["sysctl"; "-n"; forwarding_key iface]%string false;
  done_ (let s := Str.strip (stdout r) in if truthy s then s else "0"%string).

Definition set_interface_forwarding (iface : string) (enabled : bool) : N unit :=
  let value := (if enabled then "1" else "0")%string in
  run_priv ["sysctl"; "-w"; forwarding_key iface ++ "=" ++ value]%string true;; done_ tt.

(** The word after [dev]. *)
Fixpoint after_dev (ws : list string) : option string :=
  match ws with
  | a :: rest => if String.eqb a "dev" then head rest else after_dev rest
  | [] => None
  end.

Definition detect_upstream_interface : N (option string) :=
  r <- run_ ["ip"; "route"; "show"; "default"]%string false;
  let out := Str.strip (stdout r) in
  done_ (if negb (returncode r =? 0) || negb (truthy out) then None else after_dev (Str.words out)).

Definition interface_exists (iface : string) : N bool :=
  r <- run_ ["ip"; "link"; "show"; iface]%string false; done_ (returncode r =? 0).

(** ** The driver *)

Context (c : Config).

(** [a or b] on optional names. *)
Definition or_name (a b : option string) : option string :=
  match a with Some s => if truthy s then Some s else b | None => b end.

Definition nat_disabled : bool := one_of (nat_mode c) ["disabled"; "none"].

Definition table_name : string := table_name_for (interface c).

Definition missing_tools : list string :=
  (if which "ip" then [] else ["ip (iproute2)"]) ++
  (if negb (which "nft") && negb nat_disabled then ["nft (nftables)"] else []) ++
  (if negb (which "dnsmasq") && dhcp_enabled c then ["dnsmasq"] else []) ++
  (if negb (which "sysctl") && negb nat_disabled then ["sysctl"] else []) ++
  (if negb (which "tcpdump") && enable_tcpdump c then ["tcpdump"] else []).

Definition check_system_requirements : N unit :=
  if negb linux
  then fail_ (Raised (RuntimeError "DutNetwork driver requires Linux (network namespaces, nftables)"))
  else match missing_tools with
       | [] => done_ tt
       | l => fail_ (Raised (RuntimeError ("DutNetwork driver requires the following tools: " ++
                                           Str.join ", " l)))
       end.

Definition resolve_ip (value : string) : N string :=
  if Ip.valid_ip value then done_ value
  else match getaddrinfo value with
       | Some address => done_ address
       | None => value_error ("Cannot resolve hostname '" ++ value ++ "' to an IPv4 address.")
       end.

Definition validate_config : N unit :=
  match Ip.ip_network (subnet c) with
  | None => value_error "invalid network"
  | Some network =>
      change_ (fun w => w <| prefix_len := Ip.prefixlen network |>);;
      match Ip.ip_address (gateway_ip c) with
      | None => value_error "invalid address"
      | Some gateway =>
          if negb (Ip.in_network gateway network)
          then value_error ("Gateway " ++ gateway_ip c ++ " is not within subnet " ++ subnet c)
          else
            addrs <- look addresses;
            if String.eqb (nat_mode c) "1to1" &&
               negb (existsb (fun e => truthy (default EmptyString (a_public_ip e))) addrs)
            then value_error "At least one address entry must have public_ip for 1:1 NAT mode"
            else match filter_ c with
                 | None => done_ tt
                 | Some f => match new_filter_config f with
                             | inl e => fail_ (Raised (FilterError e))
                             | inr _ => done_ tt
                             end
                 end
      end
  end.

Definition static_leases (w : World) : list AddressEntry :=
  List.filter (fun e => truthy (default EmptyString (a_mac e))) (addresses w).

(** [_get_1to1_mappings]: the public names are resolved in order. *)
Fixpoint mappings_of (addrs : list AddressEntry) : N (list (string * string)) :=
  match addrs with
  | [] => done_ []
  | e :: es =>
      if truthy (default EmptyString (a_public_ip e)) then
        public <- resolve_ip (default EmptyString (a_public_ip e));
        rest <- mappings_of es;
        done_ ((a_ip e, public) :: rest)
      else mappings_of es
  end.

Definition get_1to1_mappings : N (list (string * string)) :=
  addrs <- look addresses; mappings_of addrs.

Definition upstream_for_alias (w : World) : option string := or_name (public_interface c) (upstream w).

(** A name the code passes on although it may be [None]: the text of [None]. *)
Definition name_or_none (o : option string) : string := default "None"%string o.

(** [Path(state_dir)], or the directory of the interface. *)
Definition state_path_of : string :=
  match or_name (state_dir c) None with
  | Some d => d
  | None => ("/var/lib/jumpstarter/dut-network-" ++ interface c)%string
  end.

Definition setup_network (s : startup) (ntp_ok : bool) : N unit :=
  (if negb nat_disabled then
     detected <- (if truthy (default EmptyString (upstream_interface c)) then done_ (upstream_interface c)
                  else detect_upstream_interface);
     change_ (fun w => w <| upstream := detected |>);;
     if negb (truthy (default EmptyString detected))
     then fail_ (Raised (RuntimeError "Cannot detect upstream interface and none was configured"))
     else
       w <- look (fun w => w);
       len <- get_interface_prefix_len (name_or_none (upstream_for_alias w));
       match len with
       | Some l => change_ (fun w => w <| upstream_prefix_len := l |>)
       | None => done_ tt
       end
   else change_ (fun w => w <| upstream := upstream_interface c |>));;
  let dir := state_path_of in
  change_ (fun w => w <| state_path := Some dir |>);;
  ensure_state_dir dir;;
  nm_set_unmanaged (interface c);;
  len <- look prefix_len;
  configure_interface (interface c) (gateway_ip c) len;;
  (if negb nat_disabled then
     w <- look (fun w => w);
     let up := name_or_none (upstream w) in
     prev_i <- get_interface_forwarding (interface c);
     change_ (fun w => w <| prev_fwd_iface := prev_i |>);;
     prev_u <- get_interface_forwarding up;
     change_ (fun w => w <| prev_fwd_upstream := prev_u |>);;
     set_interface_forwarding (interface c) true;;
     set_interface_forwarding up true;;
     handles <- sys (ensure_filter_forward root oracle (interface c) up);
     change_ (fun w => w <| fwd_rule_handles := handles |>)
   else done_ tt);;
  (if dhcp_enabled c then
     w <- look (fun w => w);
     write_config (name_or_none (state_path w)) c (static_leases w) (dns_entries w);;
     pid <- dnsmasq_start s;
     change_ (fun w => w <| dnsmasq_process := Some pid |>)
   else done_ tt);;
  w <- look (fun w => w);
  (if String.eqb (nat_mode c) "masquerade" then
     sys (apply_masquerade_rules root oracle (interface c) (name_or_none (upstream w)) (subnet c)
            (Some table_name) (filter_ c))
   else if String.eqb (nat_mode c) "1to1" then
     ms <- get_1to1_mappings;
     let up := name_or_none (upstream_for_alias w) in
     for_each (fun m => add_ip_alias up (snd m) (upstream_prefix_len w);;
                        change_ (fun w => w <| added_aliases ::= fun a => a ∪ {[ snd m ]} |>)) ms;;
     sys (apply_1to1_rules root oracle (interface c) up ms (subnet c) (Some table_name) (filter_ c))
   else done_ tt);;
  (if local_ntp c then
     change_ (fun w => w <| ntp_server := true |>);;
     (if ntp_ok then done_ tt else fail_ (Raised (RuntimeError "bind")));;
     sys (apply_ntp_redirect root oracle (interface c) (gateway_ip c) table_name)
   else done_ tt).

(** ** Clean-up *)

Definition stop_tcpdump : N unit := change_ (fun w => w <| tcpdump_process := false |>).

Definition stop_ntp : N unit :=
  on <- look ntp_server;
  if on then change_ (fun w => w <| ntp_server := false |>);; sys (remove_ntp_redirect root oracle table_name)
  else done_ tt.

Definition cleanup (running exits : bool) : N unit :=
  stop_ntp;;
  stop_tcpdump;;
  process <- look dnsmasq_process;
  (if is_some process
   then dnsmasq_stop running exits;; change_ (fun w => w <| dnsmasq_process := None |>)
   else done_ tt);;
  path <- look state_path;
  (if is_some path then change_ (fun w => w <| files := [] |>) else done_ tt);;
  sys (flush_rules root oracle table_name);;
  w <- look (fun w => w);
  (if String.eqb (nat_mode c) "1to1" then
     match upstream_for_alias w with
     | Some up =>
         if truthy up then
           for_each (fun ip => remove_ip_alias up ip (upstream_prefix_len w)) (elements (added_aliases w));;
           change_ (fun w => w <| added_aliases := ∅ |>)
         else done_ tt
     | None => done_ tt
     end
   else done_ tt);;
  handles <- look fwd_rule_handles;
  (match handles with
   | [] => done_ tt
   | _ => sys (remove_filter_forward root oracle handles);; change_ (fun w => w <| fwd_rule_handles := [] |>)
   end);;
  (if negb nat_disabled then
     w <- look (fun w => w);
     (if String.eqb (prev_fwd_iface w) "0" then set_interface_forwarding (interface c) false else done_ tt);;
     (if String.eqb (prev_fwd_upstream w) "0" && truthy (default EmptyString (upstream w))
      then set_interface_forwarding (name_or_none (upstream w)) false else done_ tt)
   else done_ tt);;
  deconfigure_interface (interface c);;
  nm_set_managed (interface c).

(** [__post_init__]: an exception of the set-up is raised again after the clean-up,
    whose own exception takes its place. *)
Definition post_init (s : startup) (ntp_ok running exits : bool) : N unit :=
  check_system_requirements;;
  validate_config;;
  fun w =>
    match setup_network s ntp_ok w with
    | (w', inl e) => (cleanup running exits;; fail_ e) w'
    | r => r
    end.

(** ** Exported calls *)

Definition reload_dnsmasq_config (running : bool) : N unit :=
  w <- look (fun w => w);
  match state_path w with
  | Some dir =>
      if dhcp_enabled c then
        write_config dir c (static_leases w) (dns_entries w);; reload_config running
      else done_ tt
  | None => done_ tt
  end.

Definition sync_1to1_nat : N unit :=
  w <- look (fun w => w);
  match upstream_for_alias w with
  | Some up =>
      if truthy up then
        ms <- get_1to1_mappings;
        let wanted : gset string := list_to_set (map snd ms) in
        for_each (fun ip => remove_ip_alias up ip (upstream_prefix_len w))
          (elements (added_aliases w ∖ wanted));;
        for_each (fun ip => add_ip_alias up ip (upstream_prefix_len w))
          (elements (wanted ∖ added_aliases w));;
        change_ (fun w => w <| added_aliases := wanted |>);;
        sys (flush_rules root oracle table_name);;
        sys (apply_1to1_rules root oracle (interface c) up ms (subnet c) (Some table_name) (filter_ c))
      else done_ tt
  | None => done_ tt
  end.

Definition non_empty (s : option string) : option string := or_name s None.

Definition without_ip (ip : string) (l : list AddressEntry) : list AddressEntry :=
  List.filter (fun e => negb (String.eqb (a_ip e) ip)) l.

Definition after_address_change (running : bool) : N unit :=
  reload_dnsmasq_config running;;
  if String.eqb (nat_mode c) "1to1" then sync_1to1_nat else done_ tt.

Definition add_address (running : bool) (ip : string) (mac : option string) (hostname : string)
    (public_ip : option string) : N unit :=
  public <- (match non_empty public_ip with
             | Some p => r <- resolve_ip p; done_ (Some r)
             | None => done_ None
             end);
  let new_entry := mkAddress ip (non_empty mac) (non_empty (Some hostname)) public in
  change_ (fun w => w <| addresses ::= fun l => without_ip ip l ++ [new_entry] |>);;
  after_address_change running.

Definition remove_address (running : bool) (ip : string) : N unit :=
  change_ (fun w => w <| addresses ::= without_ip ip |>);;
  after_address_change running.

Definition without_host (h : string) (l : list DnsEntry) : list DnsEntry :=
  List.filter (fun e => negb (String.eqb (d_hostname e) h)) l.

Definition add_dns_entry (running : bool) (hostname ip : string) : N unit :=
  change_ (fun w => w <| dns_entries ::= fun l => without_host hostname l ++ [mkDns hostname ip] |>);;
  reload_dnsmasq_config running.

Definition remove_dns_entry (running : bool) (hostname : string) : N unit :=
  change_ (fun w => w <| dns_entries ::= without_host hostname |>);;
  reload_dnsmasq_config running.

Definition get_dut_ip (mac : string) : N (option string) := fun w =>
  (w, match state_path w with
      | None => inr None
      | Some _ => match get_lease_by_mac w mac with
                  | inl e => inl e
                  | inr l => inr (option_map ip l)
                  end
      end).

Definition get_leases_list : N (list DhcpLease) := fun w =>
  (w, match state_path w with None => inr [] | Some _ => parse_leases w end).

End Driver.

(** ** Arguments of tcpdump *)

Definition blocked : list string := ["-i"; "--interface"; "-w"]%string.

Fixpoint sanitize (skip_next : bool) (args : list string) : list string :=
  match args with
  | [] => []
  | arg :: rest =>
      if skip_next then sanitize false rest
      else if one_of arg blocked then sanitize true rest
      else if existsb (fun b => Str.startswith (b ++ "=")%string arg) blocked then sanitize false rest
      else arg :: sanitize false rest
  end.

Definition sanitize_tcpdump_args (args : list string) : list string := sanitize false args.

(** The command [tcpdump] runs. *)
Definition tcpdump_command (c : Config) (args : option (list string)) : exn + list string :=
  if negb (enable_tcpdump c)
  then inl (RuntimeError "tcpdump is not enabled. Set 'enable_tcpdump: true' in the driver config.")
  else inr (["tcpdump"; "-i"; interface c; "-l"; "--packet-buffered"]%string ++
            match args with Some l => sanitize_tcpdump_args l | None => [] end).
