(* ===== verification/DutNetworkCorrect.v ===== *)
(** * The device network driver: theorems

    What the calls of DutNetwork.v keep and change: one entry per address, the files
    that mirror the entries, the aliases and rules that mirror the mappings, the lease
    file read back, the commands of a clean-up, and what an early failure leaves. *)

From stdpp Require Import base list strings pretty gmap.
From Stdlib Require Import ZArith Lia Ascii.
From S2P Require Import Prelude PyText PyIp DutFilter DutNetwork.

Open Scope Z_scope.
Open Scope list_scope.

(** ** Running a sequence *)

Lemma seq_run {A B} (m : N A) (g : A -> N B) w w' a : m w = (w', inr a) -> seq_ m g w = g a w'.
Proof. intros H. unfold seq_. by rewrite H. Qed.

Lemma seq_fail {A B} (m : N A) (g : A -> N B) w w' e : m w = (w', inl e) -> seq_ m g w = (w', inl e).
Proof. intros H. unfold seq_. by rewrite H. Qed.

Lemma seq_inv {A B} (m : N A) (g : A -> N B) w w' b :
  seq_ m g w = (w', inr b) -> exists w1 a, m w = (w1, inr a) /\ g a w1 = (w', inr b).
Proof. unfold seq_. destruct (m w) as [w1 [e|a]]; [done | eauto]. Qed.

(** An operation keeps a property of the state, on every path. *)
Definition keeps {A} (P : World -> Prop) (m : N A) : Prop := forall w, P w -> P (fst (m w)).

Lemma keeps_seq {A B} P (m : N A) (g : A -> N B) :
  keeps P m -> (forall a, keeps P (g a)) -> keeps P (seq_ m g).
Proof.
  intros Hm Hg w Hw. unfold seq_. specialize (Hm w Hw). destruct (m w) as [w1 [e|a]]; [done |].
  by apply Hg.
Qed.

Lemma keeps_done {A} P (a : A) : keeps P (done_ a).
Proof. by intros w. Qed.
Lemma keeps_fail {A} P e : keeps P (fail_ e : N A).
Proof. by intros w. Qed.
Lemma keeps_look {A} P (f : World -> A) : keeps P (look f).
Proof. by intros w. Qed.
Lemma keeps_change P f : (forall w, P w -> P (f w)) -> keeps P (change_ f).
Proof. by intros H w Hw; apply H. Qed.
Lemma keeps_sys {A} P (m : M A) :
  (forall w cs, P w -> P (w <| commands := cs |>)) -> keeps P (sys m).
Proof. intros H w Hw. unfold sys. destruct (m (commands w)). by apply H. Qed.
Lemma keeps_for_each {A} P (f : A -> N unit) l : (forall a, keeps P (f a)) -> keeps P (for_each f l).
Proof. intros H. induction l as [|a l IH]; [apply keeps_done |]. by apply keeps_seq; [| intros _]. Qed.

Create HintDb keeps.
#[export] Hint Resolve keeps_done keeps_fail keeps_look : keeps.

(** Decompose a sequence down to its changes. *)
Ltac keeps_tac :=
  repeat match goal with
  | |- keeps _ (seq_ _ _) => apply keeps_seq; [| intros ?]
  | |- keeps _ (done_ _) => apply keeps_done
  | |- keeps _ (fail_ _) => apply keeps_fail
  | |- keeps _ (look _) => apply keeps_look
  | |- keeps _ (sys _) => apply keeps_sys; [intros ? ? ?; assumption]
  | |- keeps _ (for_each _ _) => apply keeps_for_each; intros ?
  | |- keeps _ (change_ _) => apply keeps_change; intros ? ?
  | |- keeps _ (if ?b then _ else _) => destruct b
  | |- keeps _ (match ?x with _ => _ end) => destruct x
  end.

Section Driver.

Context (root : bool) (oracle : nat -> command -> result).
Context (kill : nat -> Z -> string -> kill_result).
Context (getaddrinfo : string -> option string).
Context (c : Config).

Abbreviation reload := (reload_dnsmasq_config root oracle kill c).
Abbreviation sync := (sync_1to1_nat root oracle getaddrinfo c).
Abbreviation changed := (after_address_change root oracle kill getaddrinfo c).
Abbreviation add_addr := (add_address root oracle kill getaddrinfo c).
Abbreviation remove_addr := (remove_address root oracle kill getaddrinfo c).

(** A property of the two tables alone. *)
Definition of_tables (P : list AddressEntry -> list DnsEntry -> Prop) (w : World) : Prop :=
  P (addresses w) (dns_entries w).

Lemma write_config_tables P dir ls es : keeps (of_tables P) (write_config dir c ls es).
Proof.
  unfold write_config, write_dns_hosts, write_dhcp_hosts, check_dns, value_error, write_file.
  keeps_tac; assumption.
Qed.

Lemma resolve_tables P v : keeps (of_tables P) (resolve_ip getaddrinfo v).
Proof. unfold resolve_ip, value_error. keeps_tac. Qed.

Lemma mappings_tables P l : keeps (of_tables P) (mappings_of getaddrinfo l).
Proof.
  induction l as [|e l IH]; cbn [mappings_of]; keeps_tac; try apply resolve_tables; assumption.
Qed.

Lemma changed_tables P running : keeps (of_tables P) (changed running).
Proof.
  unfold after_address_change, reload_dnsmasq_config, sync_1to1_nat, reload_config, signal_pid,
    get_1to1_mappings, remove_ip_alias, add_ip_alias, get_interface_addresses, run_, run_priv.
  keeps_tac; try apply write_config_tables; try apply mappings_tables; assumption.
Qed.

(** ** One entry per address *)

Definition unique_addresses (w : World) : Prop := NoDup (map a_ip (addresses w)).
Definition unique_hostnames (w : World) : Prop := NoDup (map d_hostname (dns_entries w)).

Lemma filter_out_not_in {A} (key : A -> string) k l :
  k ∉ map key (List.filter (fun e => negb (String.eqb (key e) k)) l).
Proof.
  rewrite list_elem_of_In, in_map_iff. intros (e & He & Hin). apply filter_In in Hin as [_ Hn].
  apply negb_true_iff, String.eqb_neq in Hn. done.
Qed.

Lemma filter_keeps_nodup {A} (key : A -> string) (p : A -> bool) l :
  NoDup (map key l) -> NoDup (map key (List.filter p l)).
Proof.
  induction l as [|a l IH]; cbn; [done |]. intros [Ha Hl]%NoDup_cons.
  destruct (p a); cbn; [| auto]. apply NoDup_cons. split; [| auto].
  intros Hin. apply Ha. rewrite list_elem_of_In, in_map_iff in Hin |- *.
  destruct Hin as (x & Hx & Hf). apply filter_In in Hf as [Hf _]. eauto.
Qed.

Lemma replaced_nodup {A} (key : A -> string) k a l : key a = k -> NoDup (map key l) ->
  NoDup (map key (List.filter (fun e => negb (String.eqb (key e) k)) l ++ [a])).
Proof.
  intros Hk Hl. rewrite map_app. apply NoDup_app. split; [by apply filter_keeps_nodup |].
  split; [| apply NoDup_singleton]. intros x Hx Hin. cbn in Hin.
  apply list_elem_of_singleton in Hin. subst x. rewrite Hk in Hx. by apply filter_out_not_in in Hx.
Qed.

(** The driver's tables hold one entry per address and one per host name: every call
    that changes them keeps it so, also when the call raises. *)
Theorem entries_unique running ip mac hostname public_ip h i :
  let P := fun w => unique_addresses w /\ unique_hostnames w in
  keeps P (add_addr running ip mac hostname public_ip) /\
  keeps P (remove_addr running ip) /\
  keeps P (add_dns_entry root oracle kill c running h i) /\
  keeps P (remove_dns_entry root oracle kill c running h).
Proof.
  intros P.
  pose (Q := fun (a : list AddressEntry) (d : list DnsEntry) =>
               NoDup (map a_ip a) /\ NoDup (map d_hostname d)).
  assert (forall r, keeps P (changed r)) as Hc by (intros r; exact (changed_tables Q r)).
  assert (forall r, keeps P (reload r)) as Hr.
  { intros r. unfold reload_dnsmasq_config, reload_config, signal_pid.
    keeps_tac; try exact (write_config_tables Q _ _ _); assumption. }
  assert (forall v, keeps P (resolve_ip getaddrinfo v)) as Hv by exact (resolve_tables Q).
  unfold add_address, remove_address, add_dns_entry, remove_dns_entry, without_ip, without_host.
  split; [| split; [| split]].
  - keeps_tac; [apply Hv | | apply Hc]. destruct H as [H1 H2]. split; [by apply replaced_nodup | exact H2].
  - keeps_tac; [| apply Hc]. destruct H as [H1 H2]. split; [by apply filter_keeps_nodup | exact H2].
  - keeps_tac; [| apply Hr]. destruct H as [H1 H2]. split; [exact H1 | by apply replaced_nodup].
  - keeps_tac; [| apply Hr]. destruct H as [H1 H2]. split; [exact H1 | by apply filter_keeps_nodup].
Qed.

(** ** The files mirror the entries *)

Lemma for_each_check es w :
  for_each check_dns es w =
  (w, match List.find (fun e => negb (Ip.valid_ip (d_ip e) && valid_hostname (d_hostname e))) es with
      | None => inr tt
      | Some e => inl (Raised (ValueError (if Ip.valid_ip (d_ip e) then "Invalid hostname"
                                           else "invalid address")))
      end).
Proof.
  induction es as [|e es IH]; [done |]. cbn [for_each List.find]. unfold seq_ at 1, check_dns at 1, value_error.
  destruct (Ip.valid_ip (d_ip e)) eqn:E; cbn; [destruct (valid_hostname (d_hostname e)); cbn; [exact IH |] |];
    by rewrite ?E.
Qed.

Definition good_dns (es : list DnsEntry) : Prop :=
  Forall (fun e => Ip.valid_ip (d_ip e) = true /\ valid_hostname (d_hostname e) = true) es.

(** The files of [write_config]. *)
Definition config_files (dir : string) (es : list DnsEntry) (lines : list string)
    (fs : list (string * string)) : list (string * string) :=
  dict_set "dnsmasq.conf"
    (file_of (config_lines dir (interface c) (dhcp_range_start c) (dhcp_range_end c) (dns_servers c)
                (gateway_ip c)))
    (dict_set "dhcp-hosts" (file_of lines) (dict_set "hosts.local" (file_of (map dns_line es)) fs)).

Lemma write_config_ok dir ls es lines w :
  good_dns es -> dhcp_lines ls = inr lines ->
  write_config dir c ls es w = (w <| files ::= config_files dir es lines |>, inr tt).
Proof.
  intros Hg Hl. unfold write_config, write_dns_hosts, write_dhcp_hosts, write_file, change_, seq_.
  rewrite for_each_check, Hl.
  destruct (List.find _ es) as [e|] eqn:Ef; [| done].
  apply find_some in Ef as [Hin Hb]. apply list_elem_of_In in Hin.
  unfold good_dns in Hg. rewrite Forall_forall in Hg. destruct (Hg e Hin) as [H1 H2].
  by rewrite H1, H2 in Hb.
Qed.

Lemma write_config_bad dir ls es w :
  ~ good_dns es \/ (exists x, dhcp_lines ls = inl x) ->
  exists w' e, write_config dir c ls es w = (w', inl e) /\
    dict_get "dnsmasq.conf" (files w') = dict_get "dnsmasq.conf" (files w) /\ signals w' = signals w.
Proof.
  intros H. unfold write_config, write_dns_hosts, write_dhcp_hosts, write_file, change_, seq_.
  rewrite for_each_check.
  destruct (List.find _ es) as [e|] eqn:Ef; [by repeat econstructor |].
  destruct H as [H|[x Hx]].
  - exfalso. apply H, Forall_forall. intros e Hin. apply list_elem_of_In in Hin.
    pose proof (find_none _ _ Ef e Hin) as Hf. by apply negb_false_iff, andb_true_iff in Hf.
  - rewrite Hx. do 2 eexists. split; [reflexivity |]. cbn. split; [| done].
    by rewrite dict_get_set_other.
Qed.

Lemma signal_pid_files pid sig w : files (fst (signal_pid root oracle kill pid sig w)) = files w.
Proof.
  unfold signal_pid, seq_, look, change_. cbv beta iota. by destruct (kill _ pid sig).
Qed.

Lemma reload_config_files running w : files (fst (reload_config root oracle kill running w)) = files w.
Proof.
  unfold reload_config. unfold seq_ at 1, look. cbv beta iota.
  destruct (or_pid _ _); [apply signal_pid_files | done].
Qed.

Lemma good_dns_dec es : good_dns es \/ ~ good_dns es.
Proof.
  assert (Decision (good_dns es)) as [?|?] by (unfold good_dns; apply _); auto.
Qed.

(** The entry of an address has a MAC address the lease file cannot hold. *)
Definition bad_mac (e : AddressEntry) : Prop :=
  exists m, a_mac e = Some m /\ truthy m = true /\ valid_mac m = false.

Lemma dhcp_lines_bad e ls : bad_mac e -> e ∈ ls -> exists x, dhcp_lines ls = inl x.
Proof.
  intros (m & Hm & Ht & Hv). induction ls as [|l ls IH]; [intros H; by apply elem_of_nil in H |].
  intros [->|Hin]%elem_of_cons; cbn [dhcp_lines].
  - unfold dhcp_line. rewrite Hm. destruct m; [done |]. rewrite Hv. cbn [negb]. by eexists.
  - destruct (IH Hin) as [x ->]. destruct (dhcp_line l); by eexists.
Qed.

(** Once a reload returns, the files dnsmasq reads are those of the driver's
    entries: the hosts file has one line per DNS entry in order, the file of static
    leases one per address with a MAC address; and it returns only when every entry is
    valid. *)
Theorem reload_writes_entries running w w' dir :
  state_path w = Some dir -> dhcp_enabled c = true ->
  reload running w = (w', inr tt) ->
  good_dns (dns_entries w) /\
  exists lines, dhcp_lines (static_leases w) = inr lines /\
    files w' = config_files dir (dns_entries w) lines (files w).
Proof.
  intros Hd He H. unfold reload_dnsmasq_config in H. unfold seq_ at 1, look in H. rewrite Hd, He in H.
  apply seq_inv in H as (w1 & [] & Hw & Hr).
  destruct (good_dns_dec (dns_entries w)) as [Hg|Hg];
    [| destruct (write_config_bad dir (static_leases w) (dns_entries w) w) as (? & ? & Hx & _);
       [by left | congruence]].
  destruct (dhcp_lines (static_leases w)) as [x|lines] eqn:El;
    [destruct (write_config_bad dir (static_leases w) (dns_entries w) w) as (? & ? & Hx & _);
       [right; eauto | congruence] |].
  split; [done |]. exists lines. split; [done |].
  rewrite (write_config_ok dir _ _ lines w Hg El) in Hw.
  pose proof (reload_config_files running w1) as Hf. rewrite Hr in Hf. cbn [fst] in Hf. rewrite Hf.
  by injection Hw as <-.
Qed.

Lemma reload_tables P running : keeps (of_tables P) (reload running).
Proof.
  unfold reload_dnsmasq_config, reload_config, signal_pid.
  keeps_tac; try apply write_config_tables; assumption.
Qed.

Lemma reload_path dir running : keeps (fun w => state_path w = Some dir) (reload running).
Proof.
  unfold reload_dnsmasq_config, reload_config, signal_pid, write_config, write_dns_hosts,
    write_dhcp_hosts, check_dns, value_error, write_file. keeps_tac; assumption.
Qed.

(** With a malformed MAC address among the entries a reload fails. *)
Lemma reload_blocked ent dir running w :
  bad_mac ent -> dhcp_enabled c = true -> state_path w = Some dir -> ent ∈ addresses w ->
  exists w' e, reload running w = (w', inl e) /\ signals w' = signals w /\
    state_path w' = Some dir /\ ent ∈ addresses w'.
Proof.
  intros Hbad He Hp Hin.
  assert (exists w' e, reload running w = (w', inl e) /\ signals w' = signals w) as (w' & e & Hw & Hs).
  { unfold reload_dnsmasq_config. unfold seq_ at 1, look. rewrite Hp, He.
    destruct (dhcp_lines_bad ent (static_leases w) Hbad) as [x Hx].
    { unfold static_leases. apply list_elem_of_In, filter_In. split; [by apply list_elem_of_In |].
      destruct Hbad as (m & -> & Hm & _). by destruct m. }
    destruct (write_config_bad dir (static_leases w) (dns_entries w) w) as (w' & e & Hw & _ & Hsig);
      [right; eauto |].
    exists w', e. split; [exact (seq_fail _ _ _ _ _ Hw) | done]. }
  exists w', e. split; [done |]. split; [done |].
  pose proof (reload_path dir running w Hp) as H1.
  pose proof (reload_tables (fun a _ => ent ∈ a) running w Hin) as H2. rewrite Hw in H1, H2. done.
Qed.

(** An address with a malformed MAC address is kept although the call that adds it
    raises, and from then on every change of the DNS entries raises too, leaving
    dnsmasq without a signal, until the address is removed. *)
Theorem bad_address_blocks_updates running ip m hostname w w1 r dir :
  state_path w = Some dir -> dhcp_enabled c = true ->
  truthy m = true -> valid_mac m = false ->
  add_addr running ip (Some m) hostname None w = (w1, r) ->
  (exists e, r = inl e) /\ (exists e, e ∈ addresses w1 /\ a_ip e = ip) /\
  forall running' h i w2 r2,
    add_dns_entry root oracle kill c running' h i w1 = (w2, r2) ->
    (exists e, r2 = inl e) /\ signals w2 = signals w1.
Proof.
  intros Hd He Ht Hv Ha.
  set (ent := mkAddress ip (Some m) (non_empty (Some hostname)) None).
  assert (bad_mac ent) as Hbad by (exists m; done).
  unfold add_address in Ha.
  assert (non_empty (Some m) = Some m) as Hm by (unfold non_empty, or_name; by rewrite Ht).
  change (non_empty None) with (@None string) in Ha.
  unfold seq_ at 1, done_ at 1 in Ha. cbv beta iota in Ha.
  rewrite Hm in Ha. unfold seq_ at 1, change_ in Ha. cbv beta iota in Ha.
  set (wa := w <| addresses ::= _ |>) in Ha.
  assert (ent ∈ addresses wa) as Hina by (cbn; apply elem_of_app; right; by apply list_elem_of_singleton).
  destruct (reload_blocked ent dir running wa Hbad He Hd Hina) as (w' & e & Hw & _ & Hp & Hin).
  unfold after_address_change in Ha. rewrite (seq_fail _ _ _ _ _ Hw) in Ha. injection Ha as <- <-.
  split; [eauto |]. split; [by exists ent |].
  intros running' h i w2 r2 Hdns. unfold add_dns_entry in Hdns. unfold seq_ at 1, change_ in Hdns.
  set (wd := w' <| dns_entries ::= _ |>) in Hdns.
  destruct (reload_blocked ent dir running' wd Hbad He Hp Hin) as (w3 & e3 & Hw3 & Hs & _).
  rewrite Hw3 in Hdns. injection Hdns as <- <-. split; [eauto | exact Hs].
Qed.

(** ** The aliases and rules mirror the mappings *)

(** The state with more commands run. *)
Definition ran (cs : list command) (w : World) : World := w <| commands ::= fun l => l ++ cs |>.

Lemma ran_nil w : ran [] w = w.
Proof. destruct w. unfold ran, set_field, set_commands. cbn. by rewrite app_nil_r. Qed.

Lemma ran_app w a b : ran b (ran a w) = ran (a ++ b) w.
Proof. unfold ran, set_field, set_commands. cbn. by rewrite app_assoc. Qed.

Lemma run_unchecked cmd w :
  sys (run oracle cmd None false) w =
    (ran [mkCommand cmd None] w,
     inr (oracle (length (commands w)) (mkCommand cmd None))).
Proof. reflexivity. Qed.

Definition del_command (up : string) (len : Z) (ip : string) : command :=
  mkCommand (sudo_cmd root ["ip"; "addr"; "del"; cidr ip len; "dev"; up]%string) None.
Definition add_command (up : string) (len : Z) (ip : string) : command :=
  mkCommand (sudo_cmd root ["ip"; "addr"; "add"; cidr ip len; "dev"; up]%string) None.
Definition show_command (up : string) : command :=
  mkCommand ["ip"; "-o"; "-4"; "addr"; "show"; "dev"; up]%string None.
Definition flush_command (table : string) : command :=
  mkCommand (sudo_cmd root ["nft"; "delete"; "table"; "ip"; table]%string) None.
Definition load_command (ruleset : string) : command :=
  mkCommand (sudo_cmd root ["nft"; "-f"; "-"]%string) (Some ruleset).

Lemma remove_aliases up len ips w :
  for_each (fun ip => remove_ip_alias root oracle up ip len) ips w =
    (ran (map (del_command up len) ips) w, inr tt).
Proof.
  revert w. induction ips as [|x ips IH]; intros w.
  - cbn. unfold done_. by rewrite ran_nil.
  - cbn [for_each]. unfold remove_ip_alias at 1, run_priv, seq_. rewrite run_unchecked. cbn [done_].
    rewrite IH, ran_app. reflexivity.
Qed.

(** The addresses added are among those asked for. *)
Lemma add_aliases up len ips w w' :
  for_each (fun ip => add_ip_alias root oracle up ip len) ips w = (w', inr tt) ->
  exists cs, w' = ran cs w /\
    Forall (fun x => x = show_command up \/ exists ip, ip ∈ ips /\ x = add_command up len ip) cs.
Proof.
  revert w. induction ips as [|x ips IH]; intros w H.
  - cbn in H. injection H as <-. exists []. by rewrite ran_nil.
  - cbn [for_each] in H. apply seq_inv in H as (w1 & [] & H1 & H2).
    apply IH in H2 as (cs & -> & Hcs).
    unfold add_ip_alias, get_interface_addresses, run_ in H1.
    apply seq_inv in H1 as (w2 & addrs & Ha & Hb).
    unfold seq_ in Ha. rewrite run_unchecked in Ha. cbn [done_] in Ha. injection Ha as <- Haddrs.
    destruct (one_of (cidr x len) addrs).
    + injection Hb as <-. exists (show_command up :: cs). split.
      * by rewrite ran_app.
      * apply Forall_cons. split; [by left |]. eapply Forall_impl; [exact Hcs |].
        intros y [->|(i & Hi & ->)]; [by left | right; exists i; split; [by right | done]].
    + apply seq_inv in Hb as (w3 & r & Hr & Hd). unfold run_priv, sys, run in Hr.
      destruct (true && _) in Hr; [discriminate Hr |]. injection Hr as <- _. injection Hd as <-.
      exists (show_command up :: add_command up len x :: cs). split.
      * transitivity (ran cs (ran [add_command up len x] (ran [show_command up] w))); [reflexivity |].
        by rewrite !ran_app.
      * apply Forall_cons. split; [by left |]. apply Forall_cons.
        split; [right; exists x; split; [by left | done] |]. eapply Forall_impl; [exact Hcs |].
        intros y [->|(i & Hi & ->)]; [by left | right; exists i; split; [by right | done]].
Qed.

Lemma mappings_same l w : exists r, mappings_of getaddrinfo l w = (w, r).
Proof.
  revert w. induction l as [|e l IH]; intros w; cbn [mappings_of]; [by eexists |].
  destruct (truthy _); [| apply IH]. unfold seq_ at 1, resolve_ip, value_error.
  destruct (IH w) as [r Hr].
  destruct (Ip.valid_ip _); [| destruct (getaddrinfo _)]; cbn [done_ fail_]; try (by eexists);
    unfold seq_; rewrite Hr; destruct r; by eexists.
Qed.

Lemma command_inv {A B} (m : M A) (g : A -> M B) cs cs' b :
  bind m g cs = (cs', inr b) -> exists cs1 a, m cs = (cs1, inr a) /\ g a cs1 = (cs', inr b).
Proof. unfold bind. destruct (m cs) as [cs1 [e|a]]; [done | eauto]. Qed.

Lemma validate_inv (b : bool) (e : exn) cs cs' a :
  (if b then ret tt else raise e) cs = (cs', inr a) -> cs' = cs.
Proof. destruct b; cbn; unfold ret, raise; congruence. Qed.

Lemma validate_mappings_inv ms cs cs' a : validate_mappings ms cs = (cs', inr a) -> cs' = cs.
Proof.
  revert cs. induction ms as [|m ms IH]; intros cs; cbn [validate_mappings].
  - unfold ret. congruence.
  - intros (c1 & ? & H1 & H)%command_inv. apply command_inv in H as (c2 & ? & H2 & H).
    apply validate_inv in H1, H2. apply IH in H. congruence.
Qed.

(** Applying one-to-one rules that succeeds runs two commands. *)
Lemma apply_1to1_commands iface up ms net table f cs cs' :
  truthy table = true ->
  apply_1to1_rules root oracle iface up ms net (Some table) f cs = (cs', inr tt) ->
  cs' = cs ++ [flush_command table; load_command (one_to_one_ruleset table iface up ms net f)].
Proof.
  intros Ht H. unfold apply_1to1_rules in H.
  apply command_inv in H as (c1 & ? & H1 & H). apply command_inv in H as (c2 & ? & H2 & H).
  apply command_inv in H as (c3 & ? & H3 & H). apply command_inv in H as (c4 & ? & H4 & H).
  apply validate_inv in H1, H2, H3. apply validate_mappings_inv in H4. subst c1 c2 c3 c4.
  cbn [or_table] in H. rewrite Ht in H. apply command_inv in H as (c5 & ? & H5 & H).
  unfold flush_rules, bind, run_nft, run in H5. cbn in H5. injection H5 as <- _.
  unfold load_ruleset in H. apply command_inv in H as (c6 & r & H6 & H). unfold run in H6. cbn in H6.
  injection H6 as <- _. destruct (_ =? 0) in H; [| discriminate H]. unfold ret in H. injection H as <-.
  by rewrite <- app_assoc.
Qed.

(** A synchronisation of the one-to-one mappings that returns removes the aliases no
    entry asks for any more, adds at most the new ones, remembers exactly the public
    addresses of the entries, and loads last the rule set of the current mappings. *)
Theorem sync_mirrors_mappings w w' up :
  upstream_for_alias c w = Some up -> truthy up = true ->
  sync w = (w', inr tt) ->
  exists ms adds,
    mappings_of getaddrinfo (addresses w) w = (w, inr ms) /\
    added_aliases w' = list_to_set (map snd ms) /\
    addresses w' = addresses w /\
    Forall (fun x => x = show_command up \/
                     exists ip, ip ∈ (list_to_set (map snd ms) ∖ added_aliases w : gset string) /\
                                x = add_command up (upstream_prefix_len w) ip) adds /\
    commands w' = commands w ++
      map (del_command up (upstream_prefix_len w)) (elements (added_aliases w ∖ list_to_set (map snd ms))) ++
      adds ++
      [flush_command (table_name c); flush_command (table_name c);
       load_command (one_to_one_ruleset (table_name c) (interface c) up ms (subnet c) (filter_ c))].
Proof.
  intros Hu Ht H. unfold sync_1to1_nat in H. unfold seq_ at 1, look in H. rewrite Hu, Ht in H.
  apply seq_inv in H as (w1 & ms & Hm & H).
  assert (mappings_of getaddrinfo (addresses w) w = (w1, inr ms)) as Hm' by exact Hm.
  destruct (mappings_same (addresses w) w) as [r Hr]. rewrite Hr in Hm'. injection Hm' as <- ->.
  apply seq_inv in H as (w2 & [] & Hdel & H). rewrite remove_aliases in Hdel. injection Hdel as <-.
  apply seq_inv in H as (w3 & [] & Hadd & H). apply add_aliases in Hadd as (adds & -> & Hadds).
  unfold seq_ at 1, change_ in H. cbv beta iota in H.
  apply seq_inv in H as (w4 & [] & Hfl & H). unfold sys, flush_rules, bind, run_nft, run in Hfl.
  cbn in Hfl. injection Hfl as <-.
  unfold sys in H. destruct (apply_1to1_rules _ _ _ _ _ _ _ _ _) as [cs [e|[]]] eqn:Ea; [discriminate H |].
  injection H as <-. apply apply_1to1_commands in Ea; [| done].
  exists ms, adds. split; [exact Hr |]. split; [reflexivity |]. split; [reflexivity |]. split.
  - eapply Forall_impl; [exact Hadds |]. intros x [->|(i & Hi & ->)]; [by left |].
    right. exists i. split; [by apply elem_of_elements | done].
  - cbn. rewrite Ea. cbn. rewrite <- !app_assoc. reflexivity.
Qed.

End Driver.

(** ** The lease file *)

(** Text that neither begins nor ends with white space and is on one line. *)
Definition solid (s : string) : Prop :=
  (exists a t, s = String a t /\ Str.is_space a = false) /\
  (exists a t, Str.srev s = String a t /\ Str.is_space a = false) /\
  Str.all_chars (fun a => negb (Str.line_boundary a)) s = true.

Lemma lstrip_solid a t : Str.is_space a = false -> Str.lstrip (String a t) = String a t.
Proof. intros H. cbn. by rewrite H. Qed.

Lemma strip_file s : (exists a t, s = String a t /\ Str.is_space a = false) ->
  (exists a t, Str.srev s = String a t /\ Str.is_space a = false) ->
  Str.strip (s ++ NL) = s.
Proof.
  intros (a & t & -> & Ha) (b & u & Hb & Hb'). unfold Str.strip. rewrite Str.sapp_cons, lstrip_solid by done.
  unfold Str.rstrip. rewrite <- Str.sapp_cons, Str.srev_app.
  change (Str.srev NL) with (String Str.newline ""). rewrite Hb. cbn [String.append Str.lstrip].
  change (Str.lstrip (String Str.newline "" ++ String b u)) with (Str.lstrip (String b u)).
  rewrite lstrip_solid by done. by rewrite <- Hb, Str.srev_involutive.
Qed.

Lemma splitlines_one s : s <> EmptyString -> Str.all_chars (fun a => negb (Str.line_boundary a)) s = true ->
  Str.splitlines s = [s].
Proof.
  induction s as [|a s IH]; [done |]. intros _ H. cbn [Str.all_chars] in H.
  apply andb_true_iff in H as [Ha H]. apply negb_true_iff in Ha. cbn [Str.splitlines]. rewrite Ha.
  destruct s as [|b s]; [done |]. by rewrite IH.
Qed.

Lemma join_solid ls : ls <> [] -> Forall solid ls ->
  (exists a t, Str.join NL ls = String a t /\ Str.is_space a = false) /\
  (exists a t, Str.srev (Str.join NL ls) = String a t /\ Str.is_space a = false) /\
  Str.splitlines (Str.join NL ls) = ls.
Proof.
  intros Hne H. induction H as [|l ls Hl H IH]; [done |]. destruct ls as [|l' ls].
  - cbn [Str.join]. destruct Hl as (H1 & H2 & H3). split; [done |]. split; [done |].
    apply splitlines_one; [| done]. by destruct H1 as (a & t & -> & _).
  - destruct IH as (I1 & I2 & I3); [done |]. destruct Hl as ((a & t & -> & Ha) & _ & H3).
    change (Str.join NL (String a t :: l' :: ls)) with (String a t ++ NL ++ Str.join NL (l' :: ls))%string.
    change (NL ++ Str.join NL (l' :: ls))%string with (String Str.newline (Str.join NL (l' :: ls))).
    split; [| split].
    + eexists a, _. by rewrite Str.sapp_cons.
    + destruct I2 as (b & u & Hb & Hb'). rewrite Str.srev_app, Str.srev_cons, Hb, !Str.sapp_cons. eauto.
    + rewrite Str.splitlines_cons by done. by rewrite I3.
Qed.

(** A line of the lease file: five words. *)
Definition lease_line (f : string * string * string * string * string) : string :=
  let '(e, m, i, h, id) := f in (e ++ " " ++ m ++ " " ++ i ++ " " ++ h ++ " " ++ id)%string.

Definition lease_words (f : string * string * string * string * string) : Prop :=
  let '(e, m, i, h, id) := f in
  Str.word e /\ Str.word m /\ Str.word i /\ Str.word h /\ Str.word id /\ is_some (Str.py_int e) = true.

Definition lease_of (f : string * string * string * string * string) : DhcpLease :=
  let '(e, m, i, h, id) := f in
  mkDhcpLease (default 0 (Str.py_int e)) m i (if String.eqb h "*" then "" else h).

Lemma boundary_space a : Str.is_space a = false -> Str.line_boundary a = false.
Proof.
  unfold Str.is_space, Str.line_boundary. intros H. apply orb_false_iff in H as [H1 H2].
  apply andb_false_iff in H1, H2. apply orb_false_iff. split; apply andb_false_iff;
    rewrite ?Nat.leb_gt in *; lia.
Qed.

Lemma word_lines s : Str.word s -> Str.all_chars (fun a => negb (Str.line_boundary a)) s = true.
Proof.
  intros [_ H]. induction s as [|a s IH]; [done |]. cbn in *. apply andb_true_iff in H as [Ha H].
  rewrite (boundary_space a) by (by apply negb_true_iff). by apply IH.
Qed.

Lemma word_ends s : Str.word s -> exists a t, Str.srev s = String a t /\ Str.is_space a = false.
Proof.
  intros [Hn H]. rewrite <- Str.all_chars_srev in H. destruct (Str.srev s) as [|a t] eqn:E.
  - exfalso. apply Hn. by rewrite <- (Str.srev_involutive s), E.
  - exists a, t. split; [done |]. cbn in H. apply andb_true_iff in H as [H _]. by apply negb_true_iff.
Qed.

Lemma lease_line_solid f : lease_words f -> solid (lease_line f).
Proof.
  destruct f as [[[[e m] i] h] id]. intros (He & Hm & Hi & Hh & Hid & _). unfold lease_line.
  split; [| split].
  - destruct He as [Hn Hc]. destruct e as [|a e]; [done |]. cbn in Hc. apply andb_true_iff in Hc as [Ha _].
    eexists a, _. split; [by rewrite Str.sapp_cons | by apply negb_true_iff].
  - destruct (word_ends id Hid) as (a & t & Ha & Hs). rewrite !Str.srev_app, Ha, !Str.sapp_cons. eauto.
  - rewrite !Str.all_chars_app. apply word_lines in He, Hm, Hi, Hh, Hid.
    rewrite He, Hm, Hi, Hh, Hid. reflexivity.
Qed.

Lemma lease_line_parse f : lease_words f -> parse_lease (lease_line f) = inr (Some (lease_of f)).
Proof.
  destruct f as [[[[e m] i] h] id]. intros (He & Hm & Hi & Hh & Hid & Hn). unfold parse_lease, lease_line.
  assert (forall s t, Str.word s -> Str.words (s ++ " " ++ t) = s :: Str.words t) as Hw
    by (intros s t Hs; exact (Str.words_cons " " s t eq_refl Hs)).
  rewrite !Hw by done. unfold lease_of.
  by destruct (Str.py_int e).
Qed.

(** The leases dnsmasq records are read back: for a lease file with one line of five
    words per lease the driver returns exactly those leases, in order, with the host
    name left empty where the file has a star; and the address of a device is that of the
    first lease whose MAC address is the same up to case. *)
Theorem leases_read_back fs w dir m :
  Forall lease_words fs -> state_path w = Some dir ->
  dict_get "dnsmasq.leases" (files w) = Some (file_of (map lease_line fs)) ->
  get_leases_list w = (w, inr (map lease_of fs)) /\
  get_dut_ip m w =
    (w, inr (option_map ip (List.find (fun l => String.eqb (Str.lower (mac l)) (Str.lower m))
                              (map lease_of fs)))).
Proof.
  intros Hf Hd Hfile.
  assert (parse_leases w = inr (map lease_of fs)) as Hp.
  { unfold parse_leases. rewrite Hfile. destruct fs as [|f fs']; [reflexivity |].
    set (fs := f :: fs') in *.
    destruct (join_solid (map lease_line fs)) as (J1 & J2 & J3).
    { done. } { apply Forall_map. eapply Forall_impl; [exact Hf | apply lease_line_solid]. }
    unfold file_of. replace (match map lease_line fs with [] => "" | _ => _ end)%string
      with (Str.join NL (map lease_line fs) ++ NL)%string by reflexivity.
    rewrite strip_file by done. rewrite J3. clear J1 J2 J3 Hfile. clearbody fs.
    induction Hf as [|x l Hx Hl IH]; [done |]. cbn [map parse_lease_lines].
    by rewrite lease_line_parse, IH. }
  unfold get_leases_list, get_dut_ip, get_lease_by_mac. rewrite Hd, Hp. done.
Qed.

(** ** tcpdump *)

(** An argument the filter lets through. *)
Definition admitted (a : string) : Prop :=
  one_of a blocked = false /\ existsb (fun b => Str.startswith (b ++ "=")%string a) blocked = false.

Lemma sanitize_admits args skip :
  Forall admitted (sanitize skip args) /\ sublist (sanitize skip args) args.
Proof.
  revert skip. induction args as [|a args IH]; intros skip; cbn [sanitize]; [split; constructor |].
  assert (forall sk, Forall admitted (sanitize sk args) /\ sublist (sanitize sk args) (a :: args)) as Hskip.
  { intros sk. destruct (IH sk). split; [done | by apply sublist_cons]. }
  destruct skip; [apply Hskip |].
  destruct (one_of a blocked) eqn:E1; [apply Hskip |].
  destruct (existsb _ blocked) eqn:E2; [apply Hskip |].
  destruct (IH false) as [H1 H2]. split; [apply Forall_cons; by split | by apply sublist_skip].
Qed.

(** No argument of a capture is one of the blocked options or assigns one, and the
    arguments that remain are the caller's, in order. *)
Theorem sanitized_arguments args :
  Forall admitted (sanitize_tcpdump_args args) /\ sublist (sanitize_tcpdump_args args) args.
Proof. apply sanitize_admits. Qed.

(** An option with its value attached passes: a capture can be written to any file
    of the exporter, although writing is meant to be blocked. *)
Theorem attached_write_passes c path :
  enable_tcpdump c = true -> truthy path = true -> Str.startswith "=" path = false ->
  tcpdump_command c (Some [("-w" ++ path)%string]) =
    inr ["tcpdump"; "-i"; interface c; "-l"; "--packet-buffered"; "-w" ++ path]%string.
Proof.
  intros He Ht Hs. unfold tcpdump_command, sanitize_tcpdump_args. rewrite He. cbn [negb sanitize].
  destruct path as [|a p]; [done |].
  assert (one_of ("-w" ++ String a p) blocked = false) as -> by reflexivity.
  assert (existsb (fun b => Str.startswith (b ++ "=")%string ("-w" ++ String a p)) blocked = false) as ->.
  { transitivity (Str.startswith "=" (String a p) || false); [reflexivity | by rewrite Hs]. }
  reflexivity.
Qed.

(** ** Clean-up *)

Section Cleanup.

Context (root : bool) (oracle : nat -> command -> result).
Context (kill : nat -> Z -> string -> kill_result) (which : string -> bool).
Context (c : Config).

Abbreviation clean := (cleanup root oracle kill which c).

(** A clean-up while the recorded process of dnsmasq is gone ends with
    [ProcessLookupError] before any command is run: the rules, the aliases and the
    forwarding set up by the driver stay. *)
Theorem stale_process_aborts_cleanup running exits w p :
  dnsmasq_process w = Some p -> ntp_server w = false ->
  (forall n pid sig, kill n pid sig = NoSuchProcess) ->
  exists w', clean running exits w = (w', inl ProcessLookupError) /\
    commands w' = commands w /\ added_aliases w' = added_aliases w /\
    fwd_rule_handles w' = fwd_rule_handles w.
Proof.
  intros Hp Hn Hk. unfold cleanup. unfold seq_ at 1, stop_ntp, seq_ at 1, look. rewrite Hn. cbn [done_].
  unfold seq_ at 1, stop_tcpdump, change_. cbv beta iota. unfold seq_ at 1, look. cbn [dnsmasq_process].
  set (w1 := w <| tcpdump_process := false |>).
  change (dnsmasq_process w1) with (dnsmasq_process w). rewrite Hp. cbn [is_some].
  assert (exists w2, dnsmasq_stop root oracle kill running exits w1 = (w2, inl ProcessLookupError) /\
    commands w2 = commands w /\ added_aliases w2 = added_aliases w /\ fwd_rule_handles w2 = fwd_rule_handles w)
    as (w2 & Hs & Hrest).
  { unfold dnsmasq_stop. unfold seq_ at 1, look. change (dnsmasq_process w1) with (dnsmasq_process w).
    rewrite Hp.
    assert (exists t, or_pid (match state_path w1 with Some _ => read_pid_file w1 | None => None end) (Some p)
                      = Some t) as [t ->].
    { unfold or_pid. destruct (match state_path w1 with Some _ => _ | None => None end) as [q|]; [| eauto].
      destruct (q =? 0); eauto. }
    eexists. unfold seq_ at 1, signal_pid. unfold seq_, look, change_. cbv beta iota. rewrite Hk.
    split; [reflexivity | done]. }
  unfold seq_ at 1. rewrite (seq_fail _ _ _ _ _ Hs). by exists w2.
Qed.

Definition delete_handle (h : Z) : command :=
  mkCommand (sudo_cmd root ["nft"; "delete"; "rule"; "ip"; "filter"; "FORWARD"; "handle"; pretty h]%string) None.

Definition forwarding_off (iface : string) : command :=
  mkCommand (sudo_cmd root ["sysctl"; "-w"; forwarding_key iface ++ "=0"]%string) None.

(** The commands of a clean-up, from the state it starts in. *)
Definition cleanup_commands (w : World) : list command :=
  (if ntp_server w then [flush_command root (ntp_table (table_name c))] else []) ++
  [flush_command root (table_name c)] ++
  (if String.eqb (nat_mode c) "1to1" then
     match upstream_for_alias c w with
     | Some up => if truthy up
                  then map (del_command root up (upstream_prefix_len w)) (elements (added_aliases w)) else []
     | None => []
     end
   else []) ++
  map delete_handle (fwd_rule_handles w) ++
  (if nat_disabled c then []
   else (if String.eqb (prev_fwd_iface w) "0" then [forwarding_off (interface c)] else []) ++
        (if String.eqb (prev_fwd_upstream w) "0" && truthy (default EmptyString (upstream w))
         then [forwarding_off (name_or_none (upstream w))] else [])) ++
  [mkCommand (sudo_cmd root ["ip"; "addr"; "flush"; "dev"; interface c]%string) None;
   mkCommand (sudo_cmd root ["ip"; "link"; "set"; interface c; "down"]%string) None].

Lemma remove_handles hs cs :
  remove_filter_forward root oracle hs cs = (cs ++ map delete_handle hs, inr tt).
Proof.
  revert cs. induction hs as [|h hs IH]; intros cs; cbn [remove_filter_forward map].
  - unfold ret. by rewrite app_nil_r.
  - unfold bind at 1, run_nft, run. cbn. rewrite IH. by rewrite <- app_assoc.
Qed.

Lemma forwarding_off_run iface w :
  (forall n x, returncode (oracle n x) = 0) ->
  set_interface_forwarding root oracle iface false w = (ran [forwarding_off iface] w, inr tt).
Proof.
  intros Ho. unfold set_interface_forwarding, run_priv, sys, run, seq_. rewrite Ho. reflexivity.
Qed.

Lemma stop_ntp_run w :
  exists w', stop_ntp root oracle c w = (w', inr tt) /\
    w' = ran (if ntp_server w then [flush_command root (ntp_table (table_name c))] else [])
           (w <| ntp_server := false |>).
Proof.
  unfold stop_ntp, seq_ at 1, look. destruct (ntp_server w) eqn:E.
  - eexists. split; [reflexivity |]. reflexivity.
  - eexists. split; [reflexivity |]. rewrite ran_nil. destruct w. cbn in E. by subst.
Qed.

(** When signals are delivered dnsmasq is stopped without a command. *)
Lemma stop_run running exits w :
  (forall n pid sig, kill n pid sig = Delivered) ->
  exists s, dnsmasq_stop root oracle kill running exits w = (w <| signals := s |>, inr tt).
Proof.
  intros Hk. unfold dnsmasq_stop. unfold seq_ at 1, look.
  assert (w <| signals := signals w |> = w) as Hw by (by destruct w).
  destruct (or_pid _ _) as [t|]; [| exists (signals w); by rewrite Hw].
  unfold seq_ at 1, signal_pid at 1. unfold seq_ at 1 2, look, change_. cbv beta iota. rewrite Hk.
  cbn [done_]. destruct (_ && _); [| by eexists].
  unfold signal_pid, seq_, look, change_. cbv beta iota. rewrite Hk. by eexists.
Qed.

(** The stages of a clean-up, each with the commands it adds. *)

Lemma stop_stage running exits w :
  (forall n pid sig, kill n pid sig = Delivered) ->
  exists s, (if is_some (dnsmasq_process w)
             then seq_ (dnsmasq_stop root oracle kill running exits)
                    (fun _ => change_ (fun w => w <| dnsmasq_process := None |>))
             else done_ tt) w = (w <| signals := s |> <| dnsmasq_process := None |>, inr tt).
Proof.
  intros Hk. destruct (dnsmasq_process w) as [p|] eqn:Ep; cbn [is_some].
  - destruct (stop_run running exits w Hk) as [s Hs]. exists s. by rewrite (seq_run _ _ _ _ _ Hs).
  - exists (signals w). destruct w. cbn in Ep. by subst.
Qed.

Lemma alias_stage w :
  (if String.eqb (nat_mode c) "1to1" then
     match upstream_for_alias c w with
     | Some up =>
         if truthy up then
           seq_ (for_each (fun ip => remove_ip_alias root oracle up ip (upstream_prefix_len w))
                   (elements (added_aliases w)))
             (fun _ => change_ (fun w => w <| added_aliases := ∅ |>))
         else done_ tt
     | None => done_ tt
     end
   else done_ tt) w =
  (ran (if String.eqb (nat_mode c) "1to1" then
          match upstream_for_alias c w with
          | Some up => if truthy up then map (del_command root up (upstream_prefix_len w)) (elements (added_aliases w))
                       else []
          | None => []
          end
        else [])
     (if String.eqb (nat_mode c) "1to1" && match upstream_for_alias c w with Some up => truthy up | None => false end
      then w <| added_aliases := ∅ |> else w), inr tt).
Proof.
  destruct (String.eqb (nat_mode c) "1to1"); cbn [andb]; [| by rewrite ran_nil].
  destruct (upstream_for_alias c w) as [up|]; [| by rewrite ran_nil].
  destruct (truthy up); [| by rewrite ran_nil]. unfold seq_. by rewrite remove_aliases.
Qed.

Lemma handle_stage w :
  match fwd_rule_handles w with
  | [] => done_ tt
  | _ => seq_ (sys (remove_filter_forward root oracle (fwd_rule_handles w)))
           (fun _ => change_ (fun w => w <| fwd_rule_handles := [] |>))
  end w = (ran (map delete_handle (fwd_rule_handles w)) (w <| fwd_rule_handles := [] |>), inr tt).
Proof.
  destruct (fwd_rule_handles w) as [|h hs] eqn:E.
  - rewrite ran_nil. destruct w. cbn in E. by subst.
  - unfold seq_, sys. rewrite remove_handles. reflexivity.
Qed.

Lemma forwarding_stage w :
  (forall n x, returncode (oracle n x) = 0) ->
  (if negb (nat_disabled c) then
     seq_ (look (fun w => w)) (fun w =>
     seq_ (if String.eqb (prev_fwd_iface w) "0" then set_interface_forwarding root oracle (interface c) false
           else done_ tt) (fun _ =>
     if String.eqb (prev_fwd_upstream w) "0" && truthy (default EmptyString (upstream w))
     then set_interface_forwarding root oracle (name_or_none (upstream w)) false else done_ tt))
   else done_ tt) w =
  (ran (if nat_disabled c then []
        else (if String.eqb (prev_fwd_iface w) "0" then [forwarding_off (interface c)] else []) ++
             (if String.eqb (prev_fwd_upstream w) "0" && truthy (default EmptyString (upstream w))
              then [forwarding_off (name_or_none (upstream w))] else [])) w, inr tt).
Proof.
  intros Ho. destruct (nat_disabled c); cbn [negb]; [by rewrite ran_nil |].
  unfold seq_ at 1, look.
  destruct (String.eqb (prev_fwd_iface w) "0"); unfold seq_;
    [rewrite forwarding_off_run by done | cbn [done_]];
    (destruct (_ && _); [rewrite forwarding_off_run by done | cbn [done_]]);
    by rewrite ?ran_app, ?ran_nil.
Qed.

(** A clean-up that is not interrupted runs the commands that undo the set-up, in
    order: the driver's tables deleted, the aliases and the rules inserted for Docker
    removed, forwarding switched off exactly on the interfaces where it had been off, and
    the interface flushed and taken down; and the driver forgets what it undid. *)
Theorem cleanup_undoes running exits w :
  (forall n pid sig, kill n pid sig = Delivered) ->
  (forall n x, returncode (oracle n x) = 0) -> which "nmcli" = false ->
  exists w', clean running exits w = (w', inr tt) /\
    commands w' = commands w ++ cleanup_commands w /\
    dnsmasq_process w' = None /\ ntp_server w' = false /\ fwd_rule_handles w' = [] /\
    addresses w' = addresses w.
Proof.
  intros Hk Ho Hw. unfold cleanup.
  destruct (stop_ntp_run w) as (w1 & H1 & ->). rewrite (seq_run _ _ _ _ _ H1).
  rewrite (seq_run (stop_tcpdump) _ _ _ tt eq_refl). unfold seq_ at 1, look at 1.
  destruct (stop_stage running exits (set_field tcpdump_process (fun _ => false)
     (ran (if ntp_server w then [flush_command root (ntp_table (table_name c))] else [])
       (w <| ntp_server := false |>))) Hk) as [s Hs].
  rewrite (seq_run _ _ _ _ _ Hs). clear Hs H1. unfold seq_ at 1, look at 1.
  match goal with |- context [seq_ (if is_some (state_path ?v) then _ else _)] => set (w3 := v) end.
  assert (exists fs, (if is_some (state_path w3) then change_ (fun w => w <| files := [] |>) else done_ tt) w3 =
    (w3 <| files := fs |>, inr tt)) as [fs Hf].
  { destruct (is_some (state_path w3)); [by exists [] |]. exists (files w3). by destruct w3. }
  rewrite (seq_run _ _ _ _ _ Hf). clear Hf.
  rewrite (seq_run (sys (flush_rules root oracle (table_name c))) _ _
             (ran [flush_command root (table_name c)] (w3 <| files := fs |>)) tt) by reflexivity.
  unfold seq_ at 1, look at 1. rewrite (seq_run _ _ _ _ _ (alias_stage _)).
  unfold seq_ at 1, look at 1. rewrite (seq_run _ _ _ _ _ (handle_stage _)).
  rewrite (seq_run _ _ _ _ _ (forwarding_stage _ Ho)).
  unfold deconfigure_interface, run_priv, nm_set_managed, nm_set, is_nm_running. rewrite Hw.
  eexists. split; [reflexivity |].
  assert (upstream_for_alias c w3 = upstream_for_alias c w) as Hu by reflexivity.
  unfold cleanup_commands.
  change (upstream_for_alias c (ran [flush_command root (table_name c)] (w3 <| files := fs |>)))
    with (upstream_for_alias c w).
  destruct (String.eqb (nat_mode c) "1to1"), (upstream_for_alias c w) as [up|]; cbn [andb];
    try destruct (truthy up); cbn; rewrite <- !app_assoc; repeat split; reflexivity.
Qed.
End Cleanup.

(** ** Concrete instances *)

Definition demo_config : Config :=
  mkConfig "br0" "192.168.100.0/24" "192.168.100.1" (Some "eth0"%string) true "192.168.100.100"
    "192.168.100.200" ["8.8.8.8"%string] false true None (Some "/tmp/dut"%string) "masquerade" None.

Definition demo_config_1to1 : Config :=
  mkConfig "br0" "192.168.100.0/24" "192.168.100.1" (Some "eth0"%string) false "192.168.100.100"
    "192.168.100.200" [] false false None (Some "/tmp/dut"%string) "1to1" None.

(** Forwarding is on everywhere; flushing the interface fails, every other command
    succeeds. *)
Definition flush_fails (n : nat) (x : command) : result :=
  match argv x with
  | ["ip"; "addr"; "flush"; "dev"; _]%string => mkResult 1 "" "Cannot find device"
  | ["sysctl"; "-n"; _]%string => mkResult 0 "1" ""
  | _ => mkResult 0 "" ""
  end.

Definition demo_startup : startup := mkStartup 4242 [(false, false); (false, true)] false true.

Definition demo_init : World * (error + unit) :=
  post_init true flush_fails (fun _ _ _ => Delivered) (fun _ => None)
    (fun t => negb (String.eqb t "nmcli")) true true true 0 0 demo_config demo_startup true true true
    (initial [] []).

(** A set-up that fails before the forwarding settings are read ends with forwarding
    switched off on the upstream interface, where it was on, without the settings ever
    having been read: the clean-up takes the default value for the saved one. *)
Theorem early_failure_disables_forwarding :
  snd demo_init = inl (Raised (CalledProcessError ["ip"; "addr"; "flush"; "dev"; "br0"]%string)) /\
  In (forwarding_off true "eth0") (commands (fst demo_init)) /\
  (forall iface, ~ In (mkCommand ["sysctl"; "-n"; forwarding_key iface]%string None) (commands (fst demo_init))).
Proof.
  split; [vm_compute; reflexivity |]. split.
  - vm_compute. repeat (first [left; reflexivity | right]).
  - intros iface. assert (forallb (fun x => match argv x with
      | (a :: b :: _) => negb (String.eqb a "sysctl" && String.eqb b "-n") | _ => true end)
      (commands (fst demo_init)) = true) as H by (vm_compute; reflexivity).
    rewrite forallb_forall in H. intros Hin. by specialize (H _ Hin).
Qed.

Definition succeed (n : nat) (x : command) : result := mkResult 0 "" "".

Definition demo_world : World :=
  initial [mkAddress "192.168.100.10" None None (Some "10.0.0.5"%string)] []
    <| state_path := Some "/tmp/dut"%string |> <| upstream := Some "eth0"%string |>
    <| added_aliases := {[ "10.0.0.9"%string ]} |> <| dnsmasq_process := Some 17 |>.

Lemma reload_writes_entries_witness :
  exists w', reload_dnsmasq_config true succeed (fun _ _ _ => Delivered) demo_config true demo_world =
    (w', inr tt) /\ exists lines, dhcp_lines (static_leases demo_world) = inr lines.
Proof.
  eexists. split; [vm_compute; reflexivity |].
  destruct (reload_writes_entries true succeed (fun _ _ _ => Delivered) demo_config true demo_world _
              "/tmp/dut" eq_refl eq_refl ltac:(vm_compute; reflexivity)) as (_ & lines & H & _).
  exists lines. exact H.
Defined.

Lemma bad_address_blocks_updates_witness :
  exists w1 r, add_address true succeed (fun _ _ _ => Delivered) (fun _ => None) demo_config true
                 "192.168.100.20" (Some "not-a-mac"%string) "" None demo_world = (w1, r) /\
               exists e, r = inl e.
Proof.
  destruct (add_address true succeed (fun _ _ _ => Delivered) (fun _ => None) demo_config true
              "192.168.100.20" (Some "not-a-mac"%string) "" None demo_world) as [w1 r] eqn:E.
  exists w1, r. split; [reflexivity |].
  apply (bad_address_blocks_updates true succeed (fun _ _ _ => Delivered) (fun _ => None) demo_config true
           "192.168.100.20" "not-a-mac" "" demo_world w1 r "/tmp/dut"); try reflexivity. exact E.
Defined.

Lemma sync_mirrors_mappings_witness :
  exists w', sync_1to1_nat true succeed (fun _ => None) demo_config_1to1 demo_world = (w', inr tt) /\
    addresses w' = addresses demo_world.
Proof.
  destruct (sync_1to1_nat true succeed (fun _ => None) demo_config_1to1 demo_world) as [w' [e|[]]] eqn:E;
    [vm_compute in E; discriminate E |].
  exists w'. split; [reflexivity |].
  destruct (sync_mirrors_mappings true succeed (fun _ => None) demo_config_1to1 demo_world w' "eth0"
              eq_refl eq_refl E) as (ms & adds & _ & _ & H & _). exact H.
Defined.

Lemma leases_read_back_witness :
  get_dut_ip "AA:bb:cc:dd:ee:ff"
    (demo_world <| files := [("dnsmasq.leases", file_of [lease_line ("1700000000", "aa:bb:cc:dd:ee:ff", "192.168.100.10", "*", "01:aa")])]%string |>) =
  ((demo_world <| files := [("dnsmasq.leases", file_of [lease_line ("1700000000", "aa:bb:cc:dd:ee:ff", "192.168.100.10", "*", "01:aa")])]%string |>),
   inr (Some "192.168.100.10"%string)).
Proof.
  destruct (leases_read_back [("1700000000", "aa:bb:cc:dd:ee:ff", "192.168.100.10", "*", "01:aa")%string]
    (demo_world <| files := [("dnsmasq.leases", file_of [lease_line ("1700000000", "aa:bb:cc:dd:ee:ff", "192.168.100.10", "*", "01:aa")])]%string |>)
    "/tmp/dut" "AA:bb:cc:dd:ee:ff") as [_ H].
  - repeat constructor; discriminate.
  - reflexivity.
  - reflexivity.
  - rewrite H. vm_compute. reflexivity.
Defined.

Lemma attached_write_passes_witness :
  tcpdump_command demo_config (Some ["-w/etc/cron.d/job"%string]) =
    inr ["tcpdump"; "-i"; "br0"; "-l"; "--packet-buffered"; "-w/etc/cron.d/job"]%string.
Proof. apply (attached_write_passes demo_config "/etc/cron.d/job"); reflexivity. Defined.

Lemma stale_process_aborts_cleanup_witness :
  exists w', cleanup true succeed (fun _ _ _ => NoSuchProcess) (fun _ => false) demo_config true true demo_world =
    (w', inl ProcessLookupError).
Proof.
  destruct (stale_process_aborts_cleanup true succeed (fun _ _ _ => NoSuchProcess) (fun _ => false) demo_config
              true true demo_world 17) as (w' & H & _); try reflexivity. exists w'. exact H.
Defined.

Lemma cleanup_undoes_witness :
  exists w', cleanup true succeed (fun _ _ _ => Delivered) (fun _ => false) demo_config_1to1 true true demo_world =
    (w', inr tt) /\ fwd_rule_handles w' = [].
Proof.
  destruct (cleanup_undoes true succeed (fun _ _ _ => Delivered) (fun _ => false) demo_config_1to1 true true
              demo_world) as (w' & H1 & _ & _ & _ & H2 & _); try reflexivity.
  exists w'. split; [exact H1 | exact H2].
Defined.
