(* ===== verification/NvDemux.v ===== *)
(** * The shared demultiplexer of a serial line

    [jumpstarter_driver_pyserial/nvdemux]: the manager of one demultiplexer process
    for several drivers ([DemuxerManager] of manager.py) and the driver that waits for
    its channel ([NVDemuxSerial] of driver.py).

    The manager is a transition system with three kinds of threads: the drivers' calls,
    which hold the manager's lock from beginning to end; the monitor threads, of which a
    new one may be started while an older one is still alive; and the clean-ups in
    progress (at exit, from a signal handler, from [reset_instance]). The body of a
    [with self._lock] block is one step; between the blocks a monitor and a clean-up make
    one step per access to the process, the thread or the flags, so that they interleave
    there. Devices that appear, lines the process prints, its end and a join that times
    out are the labels of the steps. A signal handler that interrupts a thread inside of
    one of its lock blocks (and then waits for that lock) is not modelled. *)

From stdpp Require Import base list strings gmap.
From Stdlib Require Import ZArith Lia Ascii.
From S2P Require Import Prelude PyText.

Open Scope Z_scope.
Open Scope list_scope.

(** ** Devices *)

Definition has_glob_chars (path : string) : bool :=
  Str.has_char "*" path || Str.has_char "?" path || Str.has_char "[" path.

(** [glob] gives the matches in some order; the least one is taken. *)
Fixpoint least (l : list string) : option string :=
  match l with
  | [] => None
  | a :: l' => match least l' with
               | Some b => Some (if String.leb a b then a else b)
               | None => Some a
               end
  end.

Definition resolve_device (glob : string -> list string) (exists_ : string -> bool) (pattern : string)
    : option string :=
  if has_glob_chars pattern then least (glob pattern)
  else if exists_ pattern then Some pattern else None.

(** ** State *)

(** A demultiplexer process: how it was started. *)
Record Process := mkProcess { p_path : string; p_chip : string; p_device : string }.

(** Where a monitor thread is: at the head of its loop, looking for the device, with the
    device it found, starting the process, about to read from the process, waiting for a
    line, with a path to record, after the last line, waiting for the end of the process,
    after it, about to clear after a cycle or an error, or waiting before the next cycle. *)
Inductive phase :=
| AtLoop
| Looking
| Found (path : string)
| Spawning (p : Process)
| Opening
| Reading (p : Process)
| Announcing (p : Process) (target path : string)
| Clearing
| Reaping
| Reaped
| Emptying
| Pausing.

(** Where a clean-up is. *)
Inductive stage :=
| Resetting
| AtExit
| Asked
| Passed
| Signalling
| Grabbing
| Terminating
| Joining
| Waiting (thread : nat)
| Forgetting
| Wiping.

(** [threads]: the monitor threads that are alive; [cleaners]: the clean-ups in progress;
    [next_id]: a number no thread or clean-up has had. *)
Record Manager := mkManager {
  drivers : list (string * string);
  pts_map : list (string * string);
  ready_targets : list string;
  process : option Process;
  monitor : option nat;
  shutdown : bool;
  cleanup_done : bool;
  demuxer_path : option string;
  device : option string;
  chip : option string;
  poll_interval : Z;
  threads : gmap nat phase;
  cleaners : gmap nat stage;
  next_id : nat
}.

Definition new_manager : Manager :=
  mkManager [] [] [] None None false false None None None 1000 ∅ ∅ 0.

#[export] Instance set_drivers : Setter drivers := fun u m =>
  mkManager (u (drivers m)) (pts_map m) (ready_targets m) (process m) (monitor m) (shutdown m) (cleanup_done m)
    (demuxer_path m) (device m) (chip m) (poll_interval m) (threads m) (cleaners m) (next_id m).
#[export] Instance set_process : Setter process := fun u m =>
  mkManager (drivers m) (pts_map m) (ready_targets m) (u (process m)) (monitor m) (shutdown m) (cleanup_done m)
    (demuxer_path m) (device m) (chip m) (poll_interval m) (threads m) (cleaners m) (next_id m).
#[export] Instance set_monitor : Setter monitor := fun u m =>
  mkManager (drivers m) (pts_map m) (ready_targets m) (process m) (u (monitor m)) (shutdown m) (cleanup_done m)
    (demuxer_path m) (device m) (chip m) (poll_interval m) (threads m) (cleaners m) (next_id m).
#[export] Instance set_shutdown : Setter shutdown := fun u m =>
  mkManager (drivers m) (pts_map m) (ready_targets m) (process m) (monitor m) (u (shutdown m)) (cleanup_done m)
    (demuxer_path m) (device m) (chip m) (poll_interval m) (threads m) (cleaners m) (next_id m).
#[export] Instance set_cleanup_done : Setter cleanup_done := fun u m =>
  mkManager (drivers m) (pts_map m) (ready_targets m) (process m) (monitor m) (shutdown m) (u (cleanup_done m))
    (demuxer_path m) (device m) (chip m) (poll_interval m) (threads m) (cleaners m) (next_id m).
#[export] Instance set_threads : Setter threads := fun u m =>
  mkManager (drivers m) (pts_map m) (ready_targets m) (process m) (monitor m) (shutdown m) (cleanup_done m)
    (demuxer_path m) (device m) (chip m) (poll_interval m) (u (threads m)) (cleaners m) (next_id m).
#[export] Instance set_cleaners : Setter cleaners := fun u m =>
  mkManager (drivers m) (pts_map m) (ready_targets m) (process m) (monitor m) (shutdown m) (cleanup_done m)
    (demuxer_path m) (device m) (chip m) (poll_interval m) (threads m) (u (cleaners m)) (next_id m).
#[export] Instance set_next_id : Setter next_id := fun u m =>
  mkManager (drivers m) (pts_map m) (ready_targets m) (process m) (monitor m) (shutdown m) (cleanup_done m)
    (demuxer_path m) (device m) (chip m) (poll_interval m) (threads m) (cleaners m) (u (next_id m)).

(** [_pts_map.clear()] and [_ready_targets.clear()]. *)
Definition clear_ready (m : Manager) : Manager :=
  mkManager (drivers m) [] [] (process m) (monitor m) (shutdown m) (cleanup_done m)
    (demuxer_path m) (device m) (chip m) (poll_interval m) (threads m) (cleaners m) (next_id m).

Definition configure (m : Manager) (path dev ch : string) (interval : Z) : Manager :=
  mkManager (drivers m) (pts_map m) (ready_targets m) (process m) (monitor m) (shutdown m) (cleanup_done m)
    (Some path) (Some dev) (Some ch) interval (threads m) (cleaners m) (next_id m).

(** ** Calls of the drivers *)

Inductive config_error := PathMismatch | DeviceMismatch | ChipMismatch | TargetTaken.

Definition same (o : option string) (s : string) : bool :=
  match o with Some x => String.eqb x s | None => false end.

Definition validate_config (m : Manager) (path dev ch target : string) : option config_error :=
  if negb (same (demuxer_path m) path) then Some PathMismatch
  else if negb (same (device m) dev) then Some DeviceMismatch
  else if negb (same (chip m) ch) then Some ChipMismatch
  else if existsb (fun d => String.eqb (snd d) target) (drivers m) then Some TargetTaken
  else None.

(** [_start_monitor] *)
Definition start_monitor (m : Manager) : Manager :=
  m <| shutdown := false |> <| monitor := Some (next_id m) |>
    <| threads ::= <[next_id m := AtLoop]> |> <| next_id ::= S |>.

(** [is_alive] *)
Definition is_alive (m : Manager) (n : nat) : bool := is_some (threads m !! n).

Definition monitored (m : Manager) : bool :=
  match monitor m with Some n => is_alive m n | None => false end.

Definition register_driver (m : Manager) (id path dev ch target : string) (interval : Z)
    : (config_error + unit) * Manager :=
  match (match drivers m with [] => None | _ => validate_config m path dev ch target end) with
  | Some e => (inl e, m)
  | None =>
      let m := match drivers m with [] => configure m path dev ch interval | _ => m end in
      let m := m <| drivers ::= dict_set id target |> in
      (inr tt, if monitored m then m else start_monitor m)
  end.

Definition unregister_driver (m : Manager) (id : string) : Manager := m <| drivers ::= dict_pop id |>.

Definition get_pts_path (m : Manager) (id : string) : option string :=
  match dict_get id (drivers m) with
  | Some target => dict_get target (pts_map m)
  | None => None
  end.

Definition is_ready (m : Manager) (target : string) : bool := existsb (String.eqb target) (ready_targets m).

(** ** The monitor threads *)

(** [_parse_demuxer_line] *)
Definition TAB : ascii := ascii_of_nat 9.

Definition parse_demuxer_line (line : string) : option string * option string :=
  match Str.split_char TAB line with
  | p0 :: p1 :: _ =>
      (if Str.startswith "/dev/" p0 then Some (Str.strip p0) else None, Some (Str.strip p1))
  | _ => (None, None)
  end.

(** A target and its path announced on a line of output. *)
Definition announced (line : string) : option (string * string) :=
  let line := Str.strip line in
  if negb (truthy line) then None
  else match parse_demuxer_line line with
       | (Some p, Some t) => if truthy p && truthy t then Some (t, p) else None
       | _ => None
       end.

Definition set_add (t : string) (l : list string) : list string :=
  if existsb (String.eqb t) l then l else l ++ [t].

(** The lock block of [_read_demuxer_output]. *)
Definition announce (m : Manager) (t p : string) : Manager :=
  mkManager (drivers m) (dict_set t p (pts_map m)) (set_add t (ready_targets m)) (process m) (monitor m) (shutdown m) (cleanup_done m)
    (demuxer_path m) (device m) (chip m) (poll_interval m) (threads m) (cleaners m) (next_id m).

(** What a monitor thread sees; [Tick] is its next step where it waits for nothing. *)
Inductive event :=
| Tick
| DeviceFound (path : string)
| DeviceMissing
| Started
| StartFails
| Line (text : string)
| EndOfOutput
| ProcessReaped
| IntervalOver
| CycleError.

(** [_wait_for_device] *)
Definition wait_for_device (m : Manager) (found : option string) : phase :=
  if shutdown m then Pausing else match found with Some path => Found path | None => Looking end.

(** The command of [_start_demuxer_process]. *)
Definition demuxer_command (m : Manager) (path : string) : Process :=
  mkProcess (default "" (demuxer_path m)) (default "" (chip m)) path.

(** [_read_demuxer_output]: the pipe is that of the process at the time reading begins; a
    process that a clean-up has taken away by then is an error, which is caught here. *)
Definition read_demuxer_output (m : Manager) (ph : phase) (e : event) : option (Manager * phase) :=
  match ph, e with
  | Opening, Tick => Some (m, match process m with Some p => Reading p | None => Clearing end)
  | Reading p, Line text =>
      Some (m, if shutdown m then Clearing
               else match announced text with Some (t, d) => Announcing p t d | None => Reading p end)
  | Reading _, EndOfOutput => Some (m, Clearing)
  | Announcing p t d, Tick => Some (announce m t d, Reading p)
  | Clearing, Tick => Some (clear_ready m, Reaping)
  | _, _ => None
  end.

(** [_cleanup_demuxer_process]; a process that a clean-up takes away meanwhile makes
    [self._process.returncode] an error, and the loop clears in its handler. *)
Definition cleanup_demuxer_process (m : Manager) (ph : phase) (e : event) : option (Manager * phase) :=
  match ph, e with
  | Reaping, ProcessReaped => Some (m, match process m with Some _ => Reaped | None => Emptying end)
  | Reaped, Tick => Some (m <| process := None |>, Emptying)
  | Emptying, Tick => Some (clear_ready m, Pausing)
  | _, _ => None
  end.

(** [_run_demuxer_cycle] *)
Definition run_demuxer_cycle (m : Manager) (ph : phase) (e : event) : option (Manager * phase) :=
  match ph, e with
  | Looking, DeviceMissing => Some (m, wait_for_device m None)
  | Looking, DeviceFound path => Some (m, wait_for_device m (Some path))
  | Found path, Tick => Some (m, if shutdown m then Pausing else Spawning (demuxer_command m path))
  | Spawning p, Started => Some (m <| process := Some p |>, Opening)
  | Spawning _, StartFails => Some (m, Pausing)
  | (Looking | Found _ | Spawning _ | Opening | Reaping | Reaped), CycleError => Some (m, Emptying)
  | (Opening | Reading _ | Announcing _ _ _ | Clearing), _ => read_demuxer_output m ph e
  | (Reaping | Reaped | Emptying), _ => cleanup_demuxer_process m ph e
  | _, _ => None
  end.

(** A step of [_monitor_loop] from where the thread is to where it is then, or to its end. *)
Definition monitor_loop (m : Manager) (ph : phase) (e : event) : option (Manager * option phase) :=
  match ph, e with
  | AtLoop, Tick => Some (m, if shutdown m then None else Some Looking)
  | Pausing, IntervalOver => Some (m, if shutdown m then None else Some AtLoop)
  | _, _ => match run_demuxer_cycle m ph e with Some (m', ph') => Some (m', Some ph') | None => None end
  end.

Definition monitor_step (m : Manager) (n : nat) (e : event) : option Manager :=
  match threads m !! n with
  | Some ph =>
      match monitor_loop m ph e with
      | Some (m', Some ph') => Some (m' <| threads ::= <[n := ph']> |>)
      | Some (m', None) => Some (m' <| threads ::= delete n |>)
      | None => None
      end
  | None => None
  end.

(** ** Stopping *)

(** [_stop_monitor]; [timed_out]: the join gives up. It takes whatever process and thread
    the manager has at that moment. *)
Definition stop_monitor (m : Manager) (st : stage) (timed_out : bool) : option (Manager * stage) :=
  match st with
  | Signalling => Some (m <| shutdown := true |>, Grabbing)
  | Grabbing => Some (m, if is_some (process m) then Terminating else Joining)
  | Terminating => Some (m <| process := None |>, Joining)
  | Joining =>
      Some (m, match monitor m with Some n => if is_alive m n then Waiting n else Forgetting | None => Forgetting end)
  | Waiting n => if is_alive m n && negb timed_out then None else Some (m, Forgetting)
  | Forgetting => Some (m <| monitor := None |>, Wiping)
  | _ => None
  end.

(** [_cleanup]: [None] in the second place is its end. *)
Definition cleanup (m : Manager) (st : stage) (timed_out : bool) : option (Manager * option stage) :=
  match st with
  | Asked => Some (m, if cleanup_done m then None else Some Passed)
  | Passed => Some (m <| cleanup_done := true |>, Some Signalling)
  | Wiping => Some (clear_ready (m <| drivers := [] |>), None)
  | _ => match stop_monitor m st timed_out with Some (m', st') => Some (m', Some st') | None => None end
  end.

Definition atexit_cleanup (m : Manager) : option stage := if cleanup_done m then None else Some Asked.

(** [reset_instance]: what becomes of the old manager. *)
Definition reset_instance (m : Manager) : Manager * option stage := (m <| cleanup_done := false |>, Some Asked).

Definition cleaner_step (m : Manager) (k : nat) (timed_out : bool) : option Manager :=
  match cleaners m !! k with
  | Some st =>
      match (match st with
             | Resetting => Some (reset_instance m)
             | AtExit => Some (m, atexit_cleanup m)
             | _ => cleanup m st timed_out
             end) with
      | Some (m', Some st') => Some (m' <| cleaners ::= <[k := st']> |>)
      | Some (m', None) => Some (m' <| cleaners ::= delete k |>)
      | None => None
      end
  | None => None
  end.

(** A clean-up is called: by [reset_instance], at exit, or by the handler of a signal. *)
Inductive caller := ByReset | ByExit | BySignal.

Definition call_cleanup (m : Manager) (c : caller) : Manager :=
  m <| cleaners ::= <[next_id m := match c with ByReset => Resetting | ByExit => AtExit | BySignal => Asked end]> |>
    <| next_id ::= S |>.

(** ** Steps *)

Inductive label :=
| Register (id path dev ch target : string) (interval : Z)
| Unregister (id : string)
| Monitor (n : nat) (e : event)
| CallCleanup (c : caller)
| Clean (k : nat) (timed_out : bool).

Definition step (m : Manager) (l : label) : option Manager :=
  match l with
  | Register id path dev ch target interval => Some (snd (register_driver m id path dev ch target interval))
  | Unregister id => Some (unregister_driver m id)
  | Monitor n e => monitor_step m n e
  | CallCleanup c => Some (call_cleanup m c)
  | Clean k timed_out => cleaner_step m k timed_out
  end.

Fixpoint run (ls : list label) (m : Manager) : option Manager :=
  match ls with
  | [] => Some m
  | l :: ls' => match step m l with Some m' => run ls' m' | None => None end
  end.

Inductive reachable : Manager -> Prop :=
| reach_new : reachable new_manager
| reach_step m l m' : reachable m -> step m l = Some m' -> reachable m'.

(** ** Waiting for a channel *)

Inductive connect_result := Connected (pts : string) | TimedOut.

(** [connect]: polls every tenth of a second, at the times [clock] gives, until there
    is a path or the timeout (in milliseconds) has passed. *)
Fixpoint connect_poll (fuel : nat) (timeout : Z) (clock : nat -> Z) (path : nat -> option string)
    (i : nat) : option connect_result :=
  match fuel with
  | O => None
  | S n =>
      match path i with
      | Some p => if truthy p then Some (Connected p)
                  else if timeout <=? clock i - clock 0%nat then Some TimedOut
                  else connect_poll n timeout clock path (S i)
      | None => if timeout <=? clock i - clock 0%nat then Some TimedOut
                else connect_poll n timeout clock path (S i)
      end
  end.

(** * Theorems *)

(** ** The invariant *)

(** The thread is between the first line it waits for and the moment it has cleared the
    paths. *)
Definition reads (ph : phase) : bool :=
  match ph with Reading _ | Announcing _ _ _ | Clearing => true | _ => false end.

Record Inv (m : Manager) : Prop := mkInv {
  inv_ids : dict_wf (drivers m);
  inv_targets : NoDup (map snd (drivers m));
  inv_ready : forall t, t ∈ ready_targets m <-> t ∈ (pts_map m).*1;
  inv_read : pts_map m <> [] -> exists n ph, threads m !! n = Some ph /\ reads ph = true;
  inv_config : drivers m <> [] ->
    is_some (demuxer_path m) = true /\ is_some (device m) = true /\ is_some (chip m) = true;
  inv_fresh : forall n, (next_id m <= n)%nat -> threads m !! n = None
}.

Lemma existsb_eqb x l : existsb (String.eqb x) l = true <-> x ∈ l.
Proof.
  rewrite existsb_exists, list_elem_of_In. split; [| intros H; exists x; split; [done | apply String.eqb_refl]].
  intros (y & Hy & ->%String.eqb_eq). done.
Qed.

Lemma set_add_in t l x : x ∈ set_add t l <-> x = t \/ x ∈ l.
Proof.
  unfold set_add. destruct (existsb (String.eqb t) l) eqn:E.
  - apply existsb_eqb in E. split; [auto | intros [->|?]; done].
  - rewrite elem_of_app, list_elem_of_singleton. tauto.
Qed.

Lemma dict_set_in {A} k (v : A) d x : x ∈ (dict_set k v d).*1 <-> x = k \/ x ∈ d.*1.
Proof.
  induction d as [|[k' v'] d IH]; cbn.
  - rewrite list_elem_of_singleton, elem_of_nil. tauto.
  - destruct (String.eqb_spec k k') as [->|Hne]; cbn; rewrite !elem_of_cons; [tauto | rewrite IH; tauto].
Qed.

Lemma dict_set_targets id t (d : list (string * string)) :
  NoDup (map snd d) -> t ∉ map snd d -> NoDup (map snd (dict_set id t d)).
Proof.
  induction d as [|[k v] d IH]; cbn; intros Hn Ht.
  - apply NoDup_singleton.
  - apply NoDup_cons in Hn as [Hv Hn]. rewrite not_elem_of_cons in Ht. destruct Ht as [Htv Ht].
    destruct (String.eqb id k); cbn; apply NoDup_cons; [done |]. split; [| by apply IH].
    assert (forall x, x ∈ map snd (dict_set id t d) -> x = t \/ x ∈ map snd d) as Hin.
    { clear. induction d as [|[k v] d IH]; cbn; intros x.
      - rewrite list_elem_of_singleton. auto.
      - destruct (String.eqb id k); cbn; rewrite !elem_of_cons; [tauto |].
        intros [->|Hx]; [auto |]. destruct (IH x Hx); auto. }
    intros Hc. apply Hin in Hc as [->|?]; done.
Qed.

Lemma dict_pop_sub id (d : list (string * string)) x : x ∈ map snd (dict_pop id d) -> x ∈ map snd d.
Proof.
  induction d as [|[k v] d IH]; cbn; [done |]. destruct (String.eqb id k); cbn; rewrite ?elem_of_cons; [auto |].
  intros [->|H]; auto.
Qed.

Lemma dict_pop_targets id (d : list (string * string)) : NoDup (map snd d) -> NoDup (map snd (dict_pop id d)).
Proof.
  induction d as [|[k v] d IH]; cbn; [done |]. intros [Hv Hn]%NoDup_cons.
  destruct (String.eqb id k); cbn; [done |]. apply NoDup_cons. split; [| auto].
  intros H. by apply dict_pop_sub in H.
Qed.

Lemma validate_fresh m path dev ch t :
  validate_config m path dev ch t = None -> t ∉ map snd (drivers m).
Proof.
  unfold validate_config. intros H. split_ifs_in H; try discriminate H.
  rewrite list_elem_of_In, in_map_iff. intros ((k & v) & <- & Hin).
  match goal with E : existsb _ _ = false |- _ => rewrite <- not_true_iff_false, existsb_exists in E; apply E end.
  exists (k, v). split; [done | apply String.eqb_refl].
Qed.

(** The fields of the invariant that a step of a thread leaves alone. *)
Lemma inv_same m m' :
  Inv m -> drivers m' = drivers m -> demuxer_path m' = demuxer_path m -> device m' = device m -> chip m' = chip m ->
  (forall t, t ∈ ready_targets m' <-> t ∈ (pts_map m').*1) ->
  (pts_map m' <> [] -> exists n ph, threads m' !! n = Some ph /\ reads ph = true) ->
  (forall n, (next_id m' <= n)%nat -> threads m' !! n = None) -> Inv m'.
Proof. intros [] Hd H1 H2 H3 Hr Hp Hf. constructor; try done; by rewrite ?Hd, ?H1, ?H2, ?H3. Qed.

(** Only [threads] and what the invariant does not speak of change. *)
Lemma start_inv m : Inv m -> Inv (start_monitor m).
Proof.
  intros I. pose proof (inv_fresh m I) as Hf. apply (inv_same m); try done; [apply I | |].
  - intros (n & ph & Hn & Hr)%(inv_read m I). exists n, ph. split; [| done]. cbn.
    rewrite lookup_insert_ne; [done |]. intros <-. rewrite Hf in Hn; [done | lia].
  - cbn. intros n Hn. rewrite lookup_insert_ne by lia. apply Hf. lia.
Qed.

Lemma register_inv m id path dev ch t iv : Inv m -> Inv (snd (register_driver m id path dev ch t iv)).
Proof.
  intros I. unfold register_driver.
  assert (forall m', Inv m' -> Inv (if monitored m' then m' else start_monitor m')) as Hs
    by (intros m' I'; destruct (monitored m'); [done | by apply start_inv]).
  destruct (drivers m) as [|d ds] eqn:Ed.
  - apply Hs. destruct I. constructor; try done; cbn; rewrite Ed; apply NoDup_singleton.
  - destruct (validate_config m path dev ch t) eqn:Ev; [done |]. apply Hs. apply validate_fresh in Ev.
    destruct (inv_config m I) as (H1 & H2 & H3); [by rewrite Ed |]. destruct I.
    constructor; try done; [by apply dict_set_wf | by apply dict_set_targets].
Qed.

(** A step of a thread: it keeps the paths or records one, and goes on reading, or it
    clears them, or it does not touch them and did not read. *)
Inductive effect (m m' : Manager) (before after : phase) : Prop :=
| kept : pts_map m' = pts_map m -> ready_targets m' = ready_targets m ->
    (reads before = true -> reads after = true) -> effect m m' before after
| recorded t p : pts_map m' = dict_set t p (pts_map m) -> ready_targets m' = set_add t (ready_targets m) ->
    reads after = true -> effect m m' before after
| cleared : pts_map m' = [] -> ready_targets m' = [] -> effect m m' before after.

Definition unmoved (m m' : Manager) : Prop :=
  drivers m' = drivers m /\ demuxer_path m' = demuxer_path m /\ device m' = device m /\ chip m' = chip m /\
  threads m' = threads m /\ next_id m' = next_id m.

Lemma cycle_effect m ph e m' ph' :
  run_demuxer_cycle m ph e = Some (m', ph') -> unmoved m m' /\ effect m m' ph ph'.
Proof.
  destruct ph, e; cbn; intros H; try discriminate H; injection H as <- <-;
    (split; [done |]); try (by apply cleared); try (by apply kept); try (by eapply recorded).
  apply kept; [done.. |]. intros _. destruct (shutdown m); [done |]. by destruct (announced text) as [[]|].
Qed.

Lemma moved_inv m m' n ph ph' :
  Inv m -> threads m !! n = Some ph -> unmoved m m' -> effect m m' ph ph' -> Inv (m' <| threads ::= <[n := ph']> |>).
Proof.
  intros I Hn (Hd & H1 & H2 & H3 & Ht & Hi) He. apply (inv_same m); try done; cbn; rewrite ?Ht, ?Hi.
  - destruct He as [-> -> _ | t p -> -> _ | -> ->]; [apply I | | done].
    intros x. by rewrite set_add_in, dict_set_in, (inv_ready m I).
  - destruct He as [-> _ Hr | t p _ _ Hr | -> _]; [| exists n, ph'; by rewrite lookup_insert_eq | done].
    intros (k & q & Hk & Hq)%(inv_read m I). destruct (decide (k = n)) as [->|Hne].
    + exists n, ph'. rewrite lookup_insert_eq. split; [done | apply Hr; congruence].
    + exists k, q. by rewrite lookup_insert_ne by done.
  - intros k Hk. rewrite lookup_insert_ne; [by apply (inv_fresh m I) |].
    intros ->. rewrite (inv_fresh m I) in Hn; done.
Qed.

Lemma ended_inv m n ph : Inv m -> threads m !! n = Some ph -> reads ph = false -> Inv (m <| threads ::= delete n |>).
Proof.
  intros I Hn Hr. apply (inv_same m); try done; [apply I | |]; cbn.
  - intros (k & q & Hk & Hq)%(inv_read m I). exists k, q. rewrite lookup_delete_ne; [done |]. congruence.
  - intros k Hk. apply lookup_delete_None. right. by apply (inv_fresh m I).
Qed.

Lemma monitor_inv m n e m' : Inv m -> monitor_step m n e = Some m' -> Inv m'.
Proof.
  intros I. unfold monitor_step. destruct (threads m !! n) as [ph|] eqn:En; [| done].
  assert (forall m1 ph1, run_demuxer_cycle m ph e = Some (m1, ph1) -> Inv (m1 <| threads ::= <[n := ph1]> |>)) as Hc.
  { intros m1 ph1 [H1 H2]%cycle_effect. by eapply moved_inv. }
  assert (forall after, reads ph = false ->
    Inv (match after with Some ph1 => m <| threads ::= <[n := ph1]> |> | None => m <| threads ::= delete n |> end)) as Hl.
  { intros [ph1|] Hr; [| by eapply ended_inv]. eapply moved_inv; [done.. |]. apply kept; [done.. |]. congruence. }
  destruct ph; cbn [monitor_loop]; destruct e; try (destruct (shutdown m) eqn:Es);
    try (intros [= <-]; (apply (Hl None) || apply (Hl (Some _))); done);
    (destruct (run_demuxer_cycle m _ _) as [[m1 ph1]|]; [| done]); intros [= <-]; by apply Hc.
Qed.

(** A step of a clean-up leaves what the invariant speaks of alone, but for its last one. *)
Lemma cleaner_inv m k b m' : Inv m -> cleaner_step m k b = Some m' -> Inv m'.
Proof.
  intros I. unfold cleaner_step. destruct (cleaners m !! k) as [st|]; [| done].
  destruct st; cbn; intros H; split_ifs_in H; try discriminate H; injection H as <-; destruct I; constructor; try done;
    apply NoDup_nil_2.
Qed.

Lemma reachable_inv m : reachable m -> Inv m.
Proof.
  induction 1 as [|m l m' Hr IH Hs].
  - constructor; cbn; try done; apply NoDup_nil_2.
  - destruct l; cbn [step] in Hs.
    + injection Hs as <-. by apply register_inv.
    + injection Hs as <-. destruct IH. constructor; try done.
      * by apply dict_pop_wf.
      * by apply dict_pop_targets.
      * intros H. apply inv_config0. intros Hd. apply H. unfold unregister_driver. cbn. by rewrite Hd.
    + by eapply monitor_inv.
    + injection Hs as <-. destruct IH. constructor; try done. cbn. intros n Hn. apply inv_fresh0. lia.
    + by eapply cleaner_inv.
Qed.

Lemma dict_get_present {A} t (d : list (string * A)) : t ∈ d.*1 <-> exists p, dict_get t d = Some p.
Proof.
  induction d as [|[k v] d IH]; cbn; [rewrite elem_of_nil; split; [done | by intros []] |].
  rewrite elem_of_cons, IH. destruct (String.eqb_spec t k) as [->|Hne]; [split; eauto | tauto].
Qed.

(** C37: Whatever the drivers, the monitor threads and the clean-ups do and however they
    interleave (a clean-up that has taken the process away but not yet cleared, and a
    monitor thread that outlives a clean-up because the join timed out, included), no two
    registered drivers have the same target, a target is ready exactly when it has a path,
    there are paths only while a living monitor thread is reading the output of a process
    (from its first wait for a line until it clears the paths itself), and the
    configuration is known as long as a driver is registered. The body of a lock block is
    one step. *)
Theorem demuxer_invariant m :
  reachable m ->
  NoDup (map fst (drivers m)) /\ NoDup (map snd (drivers m)) /\
  (forall t, is_ready m t = true <-> exists p, dict_get t (pts_map m) = Some p) /\
  (pts_map m <> [] -> exists n ph, threads m !! n = Some ph /\ reads ph = true) /\
  (drivers m <> [] ->
    is_some (demuxer_path m) = true /\ is_some (device m) = true /\ is_some (chip m) = true).
Proof.
  intros H. apply reachable_inv in H. split_and!; [apply H | apply H | | apply H | apply H].
  intros t. unfold is_ready. by rewrite existsb_eqb, (inv_ready m H), dict_get_present.
Qed.

(** ** Registration *)

(** A driver joins others exactly when it asks for their demultiplexer, device and chip
    and for a target none of them has; otherwise the manager is left as it was. *)
Theorem registration_decides m id path dev ch t iv :
  drivers m <> [] ->
  match register_driver m id path dev ch t iv with
  | (inr _, m') =>
      demuxer_path m = Some path /\ device m = Some dev /\ chip m = Some ch /\ (t ∉ map snd (drivers m)) /\
      dict_get id (drivers m') = Some t /\
      (forall id', id' <> id -> dict_get id' (drivers m') = dict_get id' (drivers m))
  | (inl e, m') =>
      m' = m /\
      match e with
      | PathMismatch => demuxer_path m <> Some path
      | DeviceMismatch => device m <> Some dev
      | ChipMismatch => chip m <> Some ch
      | TargetTaken => t ∈ map snd (drivers m)
      end
  end.
Proof.
  intros Hne. assert (forall o s, (same o s = true) <-> o = Some s) as Hs.
  { intros [x|] s; cbn; [| done]. rewrite String.eqb_eq. split; congruence. }
  unfold register_driver. destruct (drivers m) as [|d ds] eqn:Ed; [done |].
  destruct (validate_config m path dev ch t) as [e|] eqn:Ev.
  - split; [done |]. unfold validate_config in Ev.
    destruct (same (demuxer_path m) path) eqn:E1; cbn [negb] in Ev;
      [| injection Ev as <-; intros H; apply Hs in H; congruence].
    destruct (same (device m) dev) eqn:E2; cbn [negb] in Ev;
      [| injection Ev as <-; intros H; apply Hs in H; congruence].
    destruct (same (chip m) ch) eqn:E3; cbn [negb] in Ev;
      [| injection Ev as <-; intros H; apply Hs in H; congruence].
    destruct (existsb _ (drivers m)) eqn:E4; [| done]. injection Ev as <-.
    apply existsb_exists in E4 as ([k v] & Hin & He). apply String.eqb_eq in He. cbn in He. subst v.
    rewrite Ed in Hin.
    apply list_elem_of_In, in_map_iff. by exists (k, t).
  - pose proof (validate_fresh _ _ _ _ _ Ev) as Hf. rewrite Ed in Hf.
    unfold validate_config in Ev. split_ifs_in Ev; try discriminate Ev.
    repeat match goal with H : negb _ = false |- _ => apply negb_false_iff, Hs in H end.
    repeat (split; [done |]).
    rewrite <- Ed. set (k := m <| drivers ::= dict_set id t |>).
    assert (drivers (if monitored k then k else start_monitor k) = dict_set id t (drivers m)) as ->
      by (by destruct (monitored k)).
    split; [apply dict_get_set_same | intros id' Hid; apply dict_get_set_other; congruence].
Qed.

(** ** Announcements *)

(** The steps in which thread [n] reads a line and records what it announces. *)
Definition read_line (n : nat) (line : string) : list label :=
  Monitor n (Line line) :: match announced line with Some _ => [Monitor n Tick] | None => [] end.

Lemma run_labels_app ls ls' m : run (ls ++ ls') m = match run ls m with Some m' => run ls' m' | None => None end.
Proof. induction ls as [|l ls IH] in m |- *; cbn; [done |]. destruct (step m l); [apply IH | done]. Qed.

Lemma reachable_run ls m m' : reachable m -> run ls m = Some m' -> reachable m'.
Proof.
  induction ls as [|l ls IH] in m |- *; cbn; intros Hr H; [by injection H as <- |].
  destruct (step m l) as [m1|] eqn:E; [| done]. eapply IH; [| done]. by eapply reach_step.
Qed.

Lemma run_read_line n line m p :
  threads m !! n = Some (Reading p) -> shutdown m = false ->
  exists m', run (read_line n line) m = Some m' /\ threads m' !! n = Some (Reading p) /\ shutdown m' = false /\
    drivers m' = drivers m /\
    pts_map m' = match announced line with Some (t, d) => dict_set t d (pts_map m) | None => pts_map m end.
Proof.
  intros Hn Hs. unfold read_line. destruct (announced line) as [[t d]|] eqn:E.
  - exists (announce m t d <| threads ::= fun th => <[n := Reading p]> (<[n := Announcing p t d]> th) |>).
    split; [| by split_and!; cbn; rewrite ?lookup_insert_eq].
    cbn. unfold monitor_step. rewrite Hn. cbn. rewrite Hs, E. cbn. by rewrite lookup_insert_eq.
  - exists (m <| threads ::= <[n := Reading p]> |>). split; [| by split_and!; cbn; rewrite ?lookup_insert_eq].
    cbn. unfold monitor_step. rewrite Hn. cbn. by rewrite Hs, E.
Qed.

Lemma last_set t x p L (d : list (string * string)) :
  match List.find (fun a => String.eqb (fst a) t) L with
  | Some a => Some (snd a) | None => dict_get t (dict_set x p d) end =
  match List.find (fun a => String.eqb (fst a) t) (L ++ [(x, p)]) with
  | Some a => Some (snd a) | None => dict_get t d end.
Proof.
  induction L as [|[y q] L IH]; cbn.
  - destruct (String.eqb_spec x t) as [->|]; [by rewrite dict_get_set_same | by rewrite dict_get_set_other].
  - destruct (String.eqb y t); [done | exact IH].
Qed.

(** While a process runs, a registered driver is given the path its target was last
    announced with, and the one it had before, if any, until the first announcement. *)
Theorem path_is_last_announced lines n m p id t :
  threads m !! n = Some (Reading p) -> shutdown m = false -> dict_get id (drivers m) = Some t ->
  exists m', run (concat (map (read_line n) lines)) m = Some m' /\
    get_pts_path m' id =
      match List.find (fun a => String.eqb (fst a) t) (rev (omap announced lines)) with
      | Some a => Some (snd a)
      | None => get_pts_path m id
      end.
Proof.
  intros Hn Hs Hd. unfold get_pts_path at 2. rewrite Hd.
  induction lines as [|l lines IH] in m, Hn, Hs, Hd |- *.
  - exists m. split; [done |]. unfold get_pts_path. by rewrite Hd.
  - destruct (run_read_line n l m p Hn Hs) as (m1 & H1 & Hn1 & Hs1 & Hd1 & Hp1).
    destruct (IH m1 Hn1 Hs1) as (m2 & H2 & H3); [by rewrite Hd1 |]. exists m2. cbn [map concat]. rewrite run_labels_app, H1.
    split; [done |]. rewrite H3, Hp1. cbn [omap list_omap]. destruct (announced l) as [[x q]|]; [apply last_set | done].
Qed.

(** ** A process that outlives its drivers *)

Definition demo_line : string := ("/dev/pts/7" ++ String TAB "CCPLEX: 0")%string.

Definition register_a : label := Register "a" "/opt/demux" "/dev/ttyA" "T264" "CCPLEX: 0" 1000.

(** The first driver registers; the monitor finds the device, starts the process and begins
    to read. *)
Definition start_up : list label :=
  [register_a; Monitor 0 Tick; Monitor 0 (DeviceFound "/dev/ttyA"); Monitor 0 Tick; Monitor 0 Started; Monitor 0 Tick].

Definition hand_over : list label :=
  start_up ++ read_line 0 demo_line ++ [Unregister "a"; Register "b" "/opt/demux" "/dev/ttyB" "T234" "CCPLEX: 0" 1000].

(** A driver that is the first to register after all others have left sets a new
    device and chip, but the process of the old device keeps running: the driver is
    handed a terminal of the device it did not ask for. *)
Theorem stale_process_serves_new_driver :
  exists m, run hand_over new_manager = Some m /\ reachable m /\
    device m = Some "/dev/ttyB"%string /\ option_map p_device (process m) = Some "/dev/ttyA"%string /\
    get_pts_path m "b" = Some "/dev/pts/7"%string.
Proof.
  destruct (run hand_over new_manager) as [m|] eqn:E; [| vm_compute in E; discriminate E].
  exists m. split; [done |]. split; [by eapply reachable_run; [apply reach_new |] |].
  vm_compute in E. injection E as <-. repeat split; vm_compute; reflexivity.
Qed.

(** ** Clean-ups *)

(** After a clean-up, a further one (at exit too) ends at once and changes nothing, also
    when the manager has been used again. *)
Theorem second_cleanup_skipped m k :
  cleanup_done m = true -> cleaners m !! k = Some Asked \/ cleaners m !! k = Some AtExit ->
  cleaner_step m k false = Some (m <| cleaners ::= delete k |>).
Proof.
  intros H Hk. unfold cleaner_step, cleanup, atexit_cleanup.
  destruct Hk as [-> | ->]; by rewrite H.
Qed.

(** A clean-up that looks for the process while the monitor is starting it. *)
Definition clean_up_in_start : list label :=
  firstn 4 start_up ++ [CallCleanup BySignal] ++ replicate 5 (Clean 1 false) ++ [Monitor 0 Started; Monitor 0 Tick] ++
  [Clean 1 true; Clean 1 false; Clean 1 false].

(** The clean-up finds no process, waits for the monitor in vain and ends; the process it
    did not see runs on, read by a monitor thread the manager has forgotten. *)
Theorem cleanup_misses_process :
  exists m p, run clean_up_in_start new_manager = Some m /\ reachable m /\
    cleaners m = ∅ /\ cleanup_done m = true /\ monitor m = None /\
    process m = Some p /\ threads m !! 0%nat = Some (Reading p).
Proof.
  destruct (run clean_up_in_start new_manager) as [m|] eqn:E; [| vm_compute in E; discriminate E].
  exists m, (mkProcess "/opt/demux" "T264" "/dev/ttyA"). split; [done |].
  split; [by eapply reachable_run; [apply reach_new |] |].
  vm_compute in E. injection E as <-. repeat split; vm_compute; reflexivity.
Qed.

(** ** Waiting *)

Section Connect.

Context (timeout : Z) (clock : nat -> Z) (path : nat -> option string).

(** The loop sleeps a tenth of a second between polls. *)
Hypothesis clock_advances : forall i, clock i + 100 <= clock (S i).

Definition no_path (i : nat) : Prop := match path i with Some p => truthy p = false | None => True end.

Lemma clock_from i : clock 0%nat + 100 * Z.of_nat i <= clock i.
Proof. induction i as [|i IH]; [lia |]. specialize (clock_advances i). lia. Qed.

(** One round. *)
Lemma connect_round fuel i :
  (exists p, path i = Some p /\ truthy p = true /\
     connect_poll (S fuel) timeout clock path i = Some (Connected p)) \/
  (no_path i /\
   connect_poll (S fuel) timeout clock path i =
     if timeout <=? clock i - clock 0%nat then Some TimedOut
     else connect_poll fuel timeout clock path (S i)).
Proof.
  unfold no_path. cbn [connect_poll]. destruct (path i) as [p|]; [| by right].
  destruct (truthy p) eqn:E; [left; eauto | by right].
Qed.

Definition outcome (i : nat) (r : connect_result) : Prop :=
  exists j, (i <= j)%nat /\ (forall k, (i <= k < j)%nat -> no_path k /\ clock k - clock 0%nat < timeout) /\
    match r with
    | Connected p => path j = Some p /\ truthy p = true
    | TimedOut => no_path j /\ timeout <= clock j - clock 0%nat
    end.

Lemma connect_from fuel i :
  timeout < clock 0%nat + 100 * Z.of_nat (i + fuel) - clock 0%nat ->
  exists r, connect_poll (S fuel) timeout clock path i = Some r /\ outcome i r.
Proof.
  revert i. induction fuel as [|fuel IH]; intros i Hf.
  - pose proof (clock_from i). assert ((timeout <=? clock i - clock 0%nat) = true) as Ht
      by (apply Z.leb_le; lia).
    destruct (connect_round 0 i) as [(p & Hp & Hq & ->)|[Hn ->]]; rewrite ?Ht; eexists;
      (split; [reflexivity |]); exists i; (split; [lia | split; [lia |]]); [done |].
    split; [done | by apply Z.leb_le].
  - destruct (connect_round (S fuel) i) as [(p & Hp & Hq & ->)|[Hn ->]].
    + eexists. split; [reflexivity |]. exists i. by split; [lia | split; [lia |]].
    + destruct (Z.leb_spec timeout (clock i - clock 0%nat)) as [Ht|Ht].
      * eexists. split; [reflexivity |]. exists i. by split; [lia | split; [lia |]].
      * destruct (IH (S i)) as (r & Hr & j & Hj & Hbefore & Hres); [lia |].
        exists r. split; [done |]. exists j. split; [lia |]. split; [| done]. intros k Hk.
        destruct (decide (k = i)) as [->|]; [done | apply Hbefore; lia].
Qed.

(** Connecting ends: within one poll per tenth of a second of the timeout it returns
    the first path the manager offers, or times out, having seen no path, once the
    timeout has passed. *)
Theorem connect_ends :
  exists r, connect_poll (S (S (Z.to_nat (timeout / 100)))) timeout clock path 0 = Some r /\ outcome 0 r.
Proof.
  apply connect_from. pose proof (Z.div_mod timeout 100 ltac:(lia)).
  pose proof (Z.mod_pos_bound timeout 100 ltac:(lia)).
  destruct (Z.le_gt_cases 0 timeout).
  - pose proof (Z.div_pos timeout 100 ltac:(lia) ltac:(lia)). lia.
  - lia.
Qed.

End Connect.

(** ** Concrete instances *)

Definition started : Manager := default new_manager (run start_up new_manager).

(** A clean-up that has taken the process away while the path is still offered. *)
Definition half_cleaned : list label :=
  start_up ++ read_line 0 demo_line ++ [CallCleanup BySignal] ++ replicate 5 (Clean 1 false).

Lemma demuxer_invariant_witness :
  exists m, run half_cleaned new_manager = Some m /\ process m = None /\
    get_pts_path m "a" = Some "/dev/pts/7"%string /\
    exists n ph, threads m !! n = Some ph /\ reads ph = true.
Proof.
  exists (default new_manager (run half_cleaned new_manager)).
  split; [vm_compute; reflexivity |]. split; [vm_compute; reflexivity |]. split; [vm_compute; reflexivity |].
  apply (demuxer_invariant (default new_manager (run half_cleaned new_manager))); [| vm_compute; discriminate].
  apply (reachable_run half_cleaned new_manager); [apply reach_new | vm_compute; reflexivity].
Defined.

Lemma registration_decides_witness :
  fst (register_driver started "b" "/opt/demux" "/dev/ttyA" "T264" "CCPLEX: 0" 1000) = inl TargetTaken.
Proof.
  pose proof (registration_decides started "b" "/opt/demux" "/dev/ttyA" "T264" "CCPLEX: 0" 1000) as H.
  destruct (register_driver started "b" "/opt/demux" "/dev/ttyA" "T264" "CCPLEX: 0" 1000) as [[e|[]] m'] eqn:E.
  - destruct H as [_ He]; [discriminate |]. vm_compute in E. injection E as <- _. reflexivity.
  - vm_compute in E. discriminate E.
Defined.

Lemma path_is_last_announced_witness :
  exists m', run (concat (map (read_line 0) [demo_line; "noise"%string])) started = Some m' /\
    get_pts_path m' "a" = Some "/dev/pts/7"%string.
Proof.
  destruct (path_is_last_announced [demo_line; "noise"%string] 0 started (mkProcess "/opt/demux" "T264" "/dev/ttyA")
              "a" "CCPLEX: 0" eq_refl eq_refl eq_refl) as (m' & H1 & H2).
  exists m'. split; [exact H1 |]. rewrite H2. vm_compute. reflexivity.
Defined.

Lemma connect_ends_witness :
  exists r, connect_poll 102 10000 (fun i => 100 * Z.of_nat i) (fun _ => None) 0 = Some r.
Proof.
  destruct (connect_ends 10000 (fun i => 100 * Z.of_nat i) (fun _ => None)) as (r & H & _); [intros i; lia |].
  exists r. exact H.
Defined.
