(* ===== verification/ConfigFiles.v ===== *)
(** * Configuration files

    [config/client.py], [config/user.py] and [config/exporter.py]: the client
    configurations, the current client of the user and the exporter configurations on
    disk, and the commands [jmp config client] and [jmp config exporter] that change
    them; [ExporterConfigV1Alpha1DriverInstance.instantiate] and the factories of
    [create_exporter].

    The file system is an association list from paths to contents and modes. The text
    of a configuration is made and read by YAML and pydantic, which are parameters;
    what the source's own validators add is written out. Any system call of a save may
    fail. *)

From stdpp Require Import base list strings.
From Stdlib Require Import ZArith Lia Ascii.
From S2P Require Import Prelude PyText.

Open Scope Z_scope.
Open Scope list_scope.

(** ** Files *)

Record File := mkFile { content : string; mode : Z }.
Abbreviation FS := (list (string * File)).

Definition path_exists (p : string) (fs : FS) : bool := is_some (dict_get p fs).

(** [Path(base) / name]: an absolute name replaces the base. *)
Definition path_join (base name : string) : string :=
  if Str.startswith "/" name then name else (base ++ "/" ++ name)%string.

(** [os.path.basename] *)
Definition basename (p : string) : string :=
  match Str.rsplit1 "/" p with Some (_, b) => b | None => p end.

(** The names in a directory. *)
Fixpoint listdir (dir : string) (fs : FS) : list string :=
  match fs with
  | [] => []
  | (p, _) :: fs' =>
      match Str.rsplit1 "/" p with
      | Some (d, b) => if String.eqb d dir then b :: listdir dir fs' else listdir dir fs'
      | None => listdir dir fs'
      end
  end.

Definition ends_with (suffix s : string) : bool := Str.startswith (Str.srev suffix) (Str.srev s).

(** [entry.stem] of a name that ends in [.yaml]. *)
Definition drop_suffix (suffix s : string) : string :=
  String.substring 0 (String.length s - String.length suffix) s.

Inductive exn :=
| FileNotFound (path : string)
| ConfigurationError (msg : string)
| ValidationError
| OsError (call : string)
| ClickException (msg : string)
| DriverMissing (type : string)
| DriverFailed (type : string)
| OtherFailure.

Definition C (A : Type) : Type := FS -> FS * (exn + A).

Definition ok {A} (a : A) : C A := fun fs => (fs, inr a).
Definition throw {A} (e : exn) : C A := fun fs => (fs, inl e).
Definition read {A} (f : FS -> A) : C A := fun fs => (fs, inr (f fs)).
Definition modify (f : FS -> FS) : C unit := fun fs => (f fs, inr tt).
Definition andThen {A B} (m : C A) (g : A -> C B) : C B := fun fs =>
  match m fs with
  | (fs', inl e) => (fs', inl e)
  | (fs', inr a) => g a fs'
  end.

Declare Scope config_scope.
Notation "x <- m ; g" := (andThen m (fun x => g))
  (at level 20, m at level 100, g at level 200, only parsing) : config_scope.
Notation "m ;; g" := (andThen m (fun _ => g))
  (at level 100, g at level 200, right associativity, only parsing) : config_scope.
Open Scope config_scope.

(** ** Saving *)

(** The system calls of a save and which of them fail. *)
Inductive call := Mkdir | Mkstemp | Fchmod | WriteText | Fsync | Replace | Chmod | Unlink.

Section Saving.

Context (fails : call -> bool) (temp_path written : string).

(** The part of [save] under [try]: the temporary file is filled and takes the place of
    the target. What a failed write leaves is [written]. *)
Definition fill_and_replace (target text : string) : C unit := fun fs =>
  if fails Fchmod then (fs, inl (OsError "fchmod"))
  else if fails WriteText
  then (dict_set temp_path (mkFile written 384) fs, inl (OsError "write"))
  else
    let fs := dict_set temp_path (mkFile text 384) fs in
    if fails Fsync then (fs, inl (OsError "fsync"))
    else if fails Replace then (fs, inl (OsError "replace"))
    else
      let fs := dict_set target (mkFile text 384) (dict_pop temp_path fs) in
      if fails Chmod then (fs, inl (OsError "chmod")) else (fs, inr tt).

(** [finally]: a missing temporary file is no error. *)
Definition unlink_temp {A} (r : FS * (exn + A)) : FS * (exn + A) :=
  let '(fs, out) := r in
  if path_exists temp_path fs
  then if fails Unlink then (fs, inl (OsError "unlink")) else (dict_pop temp_path fs, out)
  else (fs, out).

(** Modes are written in decimal: 384 is 0o600. *)
Definition save_text (target text : string) : C string := fun fs =>
  if fails Mkdir then (fs, inl (OsError "mkdir"))
  else if fails Mkstemp then (fs, inl (OsError "mkstemp"))
  else
    let fs := dict_set temp_path (mkFile "" 384) fs in
    match unlink_temp (fill_and_replace target text fs) with
    | (fs', inl e) => (fs', inl e)
    | (fs', inr tt) => (fs', inr target)
    end.

End Saving.

(** ** Client configurations *)

Record Leases := mkLeases { acquisition_timeout : Z; dial_timeout : Z; retry_timeout : Z }.

#[export] Instance Leases_eq_dec : EqDecision Leases.
Proof. solve_decision. Defined.

(** Seconds, milliseconds and milliseconds. *)
Definition default_leases : Leases := mkLeases 7200 60000 300000.

(** The fields that are saved. *)
Record ClientBody := mkBody {
  namespace : option string;
  name : string;
  endpoint : option string;
  token : option string;
  refresh_token : option string;
  tls_ca : string;
  tls_insecure : bool;
  allow : list string;
  unsafe : bool;
  use_profiles : bool;
  leases : Leases
}.

Record ClientConfig := mkClient { alias : string; path : option string; body : ClientBody }.

(** What a file holds: the fields, the leases only when they are not the default. *)
Record ClientPayload := mkPayload { p_body : ClientBody; p_leases : option Leases }.

Definition without_leases (b : ClientBody) : ClientBody :=
  mkBody (namespace b) (name b) (endpoint b) (token b) (refresh_token b) (tls_ca b) (tls_insecure b)
    (allow b) (unsafe b) (use_profiles b) default_leases.

Definition with_leases (l : Leases) (b : ClientBody) : ClientBody :=
  mkBody (namespace b) (name b) (endpoint b) (token b) (refresh_token b) (tls_ca b) (tls_insecure b)
    (allow b) (unsafe b) (use_profiles b) l.

Definition payload_of (b : ClientBody) : ClientPayload :=
  mkPayload (without_leases b)
    (if bool_decide (leases b = default_leases) then None else Some (leases b)).

(** The bounds of the lease fields. *)
Definition leases_valid (l : Leases) : bool :=
  (5 <=? acquisition_timeout l) && (5000 <=? dial_timeout l) && (0 <=? retry_timeout l).

(** [decode_allow] of a text, and [decode_unsafe]. *)
Definition decode_allow (v : string + list string) : list string :=
  match v with inl s => Str.split_char "," s | inr l => l end.

Definition decode_unsafe (b : ClientBody) : ClientBody :=
  mkBody (namespace b) (name b) (endpoint b) (token b) (refresh_token b) (tls_ca b) (tls_insecure b)
    (allow b) (unsafe b || existsb (String.eqb "UNSAFE") (allow b)) (use_profiles b) (leases b).

Definition validate_client (p : ClientPayload) : exn + ClientBody :=
  let l := default default_leases (p_leases p) in
  if leases_valid l then inr (decode_unsafe (with_leases l (p_body p))) else inl ValidationError.

(** What the lists show: credentials are left out unless asked for. *)
Definition redact_credentials (include_credentials caller_excludes : bool) (b : ClientBody) : ClientBody :=
  if negb include_credentials && negb caller_excludes
  then mkBody (namespace b) (name b) (endpoint b) None None (tls_ca b) (tls_insecure b) (allow b) (unsafe b)
         (use_profiles b) (leases b)
  else b.

Section Clients.

Context (CLIENT_CONFIGS_PATH USER_CONFIG_PATH : string).
Context (yaml_dump : ClientPayload -> string) (yaml_load : string -> option ClientPayload).
Context (user_dump : option string -> string) (user_load : string -> option (option string)).

Definition get_path (alias : string) : string := path_join CLIENT_CONFIGS_PATH (alias ++ ".yaml")%string.

Definition read_text (p : string) : C string := fun fs =>
  (fs, match dict_get p fs with Some f => inr (content f) | None => inl (FileNotFound p) end).

Definition from_file (p : string) : C ClientConfig :=
  t <- read_text p;
  match yaml_load t with
  | None => throw ValidationError
  | Some y =>
      match validate_client y with
      | inl e => throw e
      | inr b => ok (mkClient (default EmptyString (head (Str.split_char "." (basename p)))) (Some p) b)
      end
  end.

Definition load (alias : string) : C ClientConfig :=
  let p := get_path alias in
  found <- read (path_exists p);
  if found then from_file p else throw (FileNotFound p).

Definition save (fails : call -> bool) (temp_path written : string) (config : ClientConfig)
    (path : option string) : C string :=
  let target := match path with None => get_path (alias config) | Some p => p end in
  save_text fails temp_path written target (yaml_dump (payload_of (body config))).

Definition exists_ (alias : string) : C bool := read (path_exists (get_path alias)).

Definition delete (alias : string) : C string :=
  let p := get_path alias in
  found <- read (path_exists p);
  if found then modify (dict_pop p);; ok p else throw (FileNotFound p).

Fixpoint map_files (f : string -> C ClientConfig) (names : list string) : C (list ClientConfig) :=
  match names with
  | [] => ok []
  | n :: ns => c <- f n; rest <- map_files f ns; ok (c :: rest)
  end.

(** ** The user's current client *)

Definition user_exists : C bool := read (path_exists USER_CONFIG_PATH).

(** [_validate_current_client]: a client that is gone counts as none. *)
Definition validate_current_client (v : option string) : C (option ClientConfig) := fun fs =>
  match v with
  | None => (fs, inr None)
  | Some a =>
      match load a fs with
      | (fs', inr c) => (fs', inr (Some c))
      | (fs', inl (FileNotFound _)) => (fs', inr None)
      | (fs', inl e) => (fs', inl e)
      end
  end.

Definition user_read : C (option ClientConfig) :=
  found <- user_exists;
  if negb found then throw (FileNotFound USER_CONFIG_PATH)
  else
    t <- read_text USER_CONFIG_PATH;
    match user_load t with
    | None => throw ValidationError
    | Some v => validate_current_client v
    end.

(** [open(path, "w")] keeps the mode of a file that exists. *)
Definition user_save (current : option ClientConfig) : C unit :=
  modify (fun fs =>
    let m := match dict_get USER_CONFIG_PATH fs with Some f => mode f | None => 420 end in
    dict_set USER_CONFIG_PATH (mkFile (user_dump (option_map alias current)) m) fs).

Definition load_or_create : C (option ClientConfig) :=
  found <- user_exists;
  if found then user_read else user_save None;; ok None.

(** [use_client]: the client is loaded, made the current one and saved. *)
Definition use_client (name : option string) : C (option string) :=
  current <- (match name with
              | Some n => c <- load n; ok (Some c)
              | None => ok None
              end);
  user_save current;;
  ok (match current with Some c => path c | None => None end).

(** [list]: the configurations of the directory and the alias of the current one. *)
Definition list_clients : C (option string * list ClientConfig) :=
  names <- read (listdir CLIENT_CONFIGS_PATH);
  let files := List.filter (ends_with ".yaml") names in
  found <- user_exists;
  current <- (if found then c <- user_read; ok (option_map alias c) else ok None);
  items <- map_files (fun f => from_file (path_join CLIENT_CONFIGS_PATH f)) files;
  ok (current, items).

(** ** The commands on client configurations *)

Definition create_client_config (fails : call -> bool) (temp_path written : string) (config : ClientConfig)
    (out : option string) : C string :=
  taken <- (match out with None => exists_ (alias config) | Some _ => ok false end);
  if (taken : bool) then throw (ClickException "A client with this name already exists.")
  else
    p <- save fails temp_path written config out;
    (match out with
     | None =>
         l <- list_clients;
         if (length (snd l) =? 1)%nat then load_or_create;; user_save (Some config) else ok tt
     | Some _ => ok tt
     end);;
    ok p.

Definition set_next_client (name : string) : C unit :=
  found <- user_exists;
  if negb found then ok tt
  else
    current <- user_read;
    if match current with Some c => String.eqb (alias c) name | None => false end
    then
      l <- list_clients;
      match List.find (fun c => negb (String.eqb (alias c) name)) (snd l) with
      | Some c => use_client (Some (alias c));; ok tt
      | None => use_client None;; ok tt
      end
    else ok tt.

Definition delete_client_config (name : string) : C string := set_next_client name;; delete name.

Definition use_client_config (name : string) : C (option string) := load_or_create;; use_client (Some name).

(** A new token of the loaded configuration is saved under its alias. *)
Definition with_token (t : string) (r : option string) (c : ClientConfig) : ClientConfig :=
  let b := body c in
  mkClient (alias c) (path c)
    (mkBody (namespace b) (name b) (endpoint b) (Some t)
       (match r with Some x => Some x | None => refresh_token b end) (tls_ca b) (tls_insecure b) (allow b)
       (unsafe b) (use_profiles b) (leases b)).

Definition refresh_and_save (fails : call -> bool) (temp_path written : string) (client : string)
    (access_token : string) (new_refresh_token : option string) : C string :=
  c <- load client;
  save fails temp_path written (with_token access_token new_refresh_token c) None.

End Clients.

(** ** Exporter configurations *)

#[warnings="-register-all"]
Inductive DriverInstance :=
| Base (type : string) (description : option string) (methods_description : list (string * string))
    (config : string) (children : list (string * DriverInstance))
| Composite (children : list (string * DriverInstance))
| Proxy (ref : string).

(** An instantiated driver. *)
#[warnings="-register-all"]
Inductive Driver :=
| DriverOf (type : string) (description : option string) (methods_description : list (string * string))
    (config : string) (children : list (string * Driver))
| CompositeDriver (children : list (string * Driver))
| ProxyDriver (ref : string).

Section Instantiate.

(** Whether a class can be imported, and whether its constructor accepts the
    configuration and the children. *)
Context (import_class : string -> bool)
        (construct : string -> string -> list (string * Driver) -> bool).

Fixpoint instantiate (d : DriverInstance) : exn + Driver :=
  let fix all (l : list (string * DriverInstance)) : exn + list (string * Driver) :=
    match l with
    | [] => inr []
    | (n, d) :: l' =>
        match instantiate d with
        | inl e => inl e
        | inr x => match all l' with inl e => inl e | inr xs => inr ((n, x) :: xs) end
        end
    end in
  match d with
  | Base type description methods config children =>
      if negb (import_class type) then inl (DriverMissing type)
      else match all children with
           | inl e => inl e
           | inr cs => if construct type config cs then inr (DriverOf type description methods config cs)
                       else inl (DriverFailed type)
           end
  | Composite children => match all children with inl e => inl e | inr cs => inr (CompositeDriver cs) end
  | Proxy ref => inr (ProxyDriver ref)
  end.

Definition COMPOSITE : string := "jumpstarter_driver_composite.driver.Composite".

(** The root device of a session or an exporter. *)
Definition root_device (description : option string) (export : list (string * DriverInstance)) : exn + Driver :=
  instantiate (Base COMPOSITE description [] "" export).

End Instantiate.

(** Only the fields the functions here read are told apart. *)
Record ExporterBody := mkExporterBody {
  x_endpoint : option string;
  x_token : option string;
  x_description : option string;
  x_export : list (string * DriverInstance);
  x_before_lease : bool;
  x_after_lease : bool
}.

Record ExporterConfig := mkExporterConfig { x_alias : string; x_path : option string; x_body : ExporterBody }.

Section Exporters.

Context (BASE_PATH SYSTEM_CONFIG_PATH : string).
Context (yaml_dump : ExporterBody -> string) (yaml_load : string -> option ExporterBody).

Definition BACKSLASH : ascii := ascii_of_nat 92.

Definition alias_valid (alias : string) : bool :=
  truthy alias && negb (String.eqb alias ".") && negb (String.eqb alias "..") &&
  negb (Str.has_char "/" alias) && negb (Str.has_char BACKSLASH alias).

Definition validate_alias (alias : string) : C unit :=
  if alias_valid alias then ok tt
  else throw (ConfigurationError ("Invalid exporter alias '" ++ alias ++
                                  "': must not contain path separators or be '.' / '..'")).

Definition user_path (alias : string) : string := path_join BASE_PATH (alias ++ ".yaml")%string.
Definition system_path (alias : string) : string := path_join SYSTEM_CONFIG_PATH (alias ++ ".yaml")%string.

Definition x_get_path (alias : string) : C string := validate_alias alias;; ok (user_path alias).

Definition resolve_path (alias : string) : C string :=
  user <- x_get_path alias;
  in_user <- read (path_exists user);
  if (in_user : bool) then ok user
  else
    in_system <- read (path_exists (system_path alias));
    if (in_system : bool) then ok (system_path alias) else ok user.

Definition user_config_exists (alias : string) : C bool :=
  p <- x_get_path alias; read (path_exists p).

Definition x_exists (alias : string) : C bool :=
  p <- resolve_path alias; read (path_exists p).

Definition load_path (p : string) : C ExporterConfig := fun fs =>
  (fs, match dict_get p fs with
       | None => inl (FileNotFound p)
       | Some f => match yaml_load (content f) with
                   | None => inl ValidationError
                   | Some b => inr (mkExporterConfig "default" (Some p) b)
                   end
       end).

Definition x_load (alias : string) : C ExporterConfig :=
  p <- resolve_path alias;
  c <- load_path p;
  ok (mkExporterConfig alias (x_path c) (x_body c)).

(** The aliases of both locations, each once, those of the user first. *)
Definition yaml_aliases (dir : string) (fs : FS) : list string :=
  map (drop_suffix ".yaml") (List.filter (ends_with ".yaml") (listdir dir fs)).

Definition add_alias (l : list string) (a : string) : list string :=
  if existsb (String.eqb a) l then l else l ++ [a].

Definition all_aliases (fs : FS) : list string :=
  fold_left add_alias (yaml_aliases BASE_PATH fs ++ yaml_aliases SYSTEM_CONFIG_PATH fs) [].

(** [suppress(FileNotFoundError)] around each load. *)
Fixpoint load_all (aliases : list string) : C (list ExporterConfig) :=
  match aliases with
  | [] => ok []
  | a :: l => fun fs =>
      match x_load a fs with
      | (fs', inr c) => (rest <- load_all l; ok (c :: rest)) fs'
      | (fs', inl (FileNotFound _)) => load_all l fs'
      | (fs', inl e) => (fs', inl e)
      end
  end.

Definition list_exporters : C (list ExporterConfig) :=
  aliases <- read all_aliases; load_all aliases.

Definition x_save (fails : call -> bool) (temp_path written : string) (config : ExporterConfig)
    (path : option string) : C string :=
  target <- (match path with None => x_get_path (x_alias config) | Some p => ok p end);
  save_text fails temp_path written target (yaml_dump (x_body config)).

Definition x_delete (alias : string) : C string :=
  p <- x_get_path alias;
  found <- read (path_exists p);
  if (found : bool) then modify (dict_pop p);; ok p
  else
    in_system <- read (path_exists (system_path alias));
    if (in_system : bool)
    then throw (ConfigurationError ("Exporter config '" ++ alias ++ "' exists only in the system location '" ++
                                    system_path alias ++ "' and cannot be deleted."))
    else ok p.

(** ** The commands on exporter configurations *)

Definition create_exporter_config (fails : call -> bool) (temp_path written : string)
    (config : ExporterConfig) : C string :=
  taken <- user_config_exists (x_alias config);
  if (taken : bool) then throw (ClickException "exporter exists")
  else x_save fails temp_path written config None.

(** Whether a system configuration is used from now on is the warning it prints. *)
Definition delete_exporter_config (alias : string) : C (string * bool) := fun fs =>
  match x_load alias fs with
  | (fs', inl (FileNotFound _)) => (fs', inl (ClickException "exporter does not exist"))
  | (fs', inl e) => (fs', inl e)
  | (fs', inr _) =>
      match x_delete alias fs' with
      | (fs2, inl (ConfigurationError m)) => (fs2, inl (ClickException m))
      | (fs2, inl e) => (fs2, inl e)
      | (fs2, inr p) => (still <- x_exists alias; ok (p, still)) fs2
      end
  end.

(** ** Running an exporter *)

(** Parts of [create_exporter]: a hook executor exists when a hook is configured. *)
Definition has_hook_executor (b : ExporterBody) : bool := x_before_lease b || x_after_lease b.

(** [channel_factory]: an exporter in standalone mode must not ask for a channel. *)
Definition channel_factory (standalone : bool) (b : ExporterBody) : exn + unit :=
  if standalone then inl OtherFailure
  else match x_endpoint b, x_token b with
       | Some _, Some _ => inr tt
       | _, _ => inl (ConfigurationError "endpoint or token not set in exporter config")
       end.

End Exporters.

(** * Theorems *)

(** ** A save is atomic *)

Definition saved (text : string) : File := mkFile text 384.

Lemma path_exists_set p f fs : path_exists p (dict_set p f fs) = true.
Proof. unfold path_exists. by rewrite dict_get_set_same. Qed.

(** The outcome of a save: what the target holds, that other files are untouched, and
    that no temporary file is left. *)
Record atomic (fails : call -> bool) (temp target text : string) (fs : FS) (r : FS * (exn + string)) : Prop := {
  at_target : dict_get target (fst r) = dict_get target fs \/ dict_get target (fst r) = Some (saved text);
  at_others : forall p, p <> target -> p <> temp -> dict_get p (fst r) = dict_get p fs;
  at_temp : fails Unlink = false -> dict_get temp (fst r) = None;
  at_done : forall p, snd r = inr p -> p = target /\ dict_get target (fst r) = Some (saved text);
  at_ok : (forall c, fails c = false) -> snd r = inr target
}.

Lemma temp_left fails temp target text fs f e :
  dict_wf fs -> dict_get temp fs = None -> target <> temp -> (exists c, fails c = true) ->
  atomic fails temp target text fs
    (match unlink_temp fails temp (dict_set temp f fs, inl e : exn + unit) with
     | (fs', inl e) => (fs', inl e)
     | (fs', inr tt) => (fs', inr target)
     end).
Proof.
  intros Hwf Ht Hne [c Hc]. unfold unlink_temp. rewrite path_exists_set.
  destruct (fails Unlink) eqn:Eu.
  - constructor; cbn [fst snd]; [left | | congruence | done | intros Ha; by rewrite Ha in Hc].
    + by rewrite dict_get_set_other.
    + intros p H1 H2. by rewrite dict_get_set_other.
  - constructor; cbn [fst snd]; [left | | intros _ | done | intros Ha; by rewrite Ha in Hc].
    + rewrite dict_get_pop_other by done. by rewrite dict_get_set_other.
    + intros p H1 H2. rewrite dict_get_pop_other by done. by rewrite dict_get_set_other.
    + apply dict_get_pop_same. by apply dict_set_wf.
Qed.

Lemma save_text_atomic fails temp written target text fs :
  dict_wf fs -> dict_get temp fs = None -> target <> temp ->
  atomic fails temp target text fs (save_text fails temp written target text fs).
Proof.
  intros Hwf Ht Hne. unfold save_text.
  destruct (fails Mkdir) eqn:E1.
  { constructor; cbn [fst snd]; auto; [done |]. intros Ha. by rewrite Ha in E1. }
  destruct (fails Mkstemp) eqn:E2.
  { constructor; cbn [fst snd]; auto; [done |]. intros Ha. by rewrite Ha in E2. }
  unfold fill_and_replace. rewrite !dict_set_set.
  destruct (fails Fchmod) eqn:E3; [apply temp_left; eauto |].
  destruct (fails WriteText) eqn:E4; [apply temp_left; eauto |].
  destruct (fails Fsync) eqn:E5; [apply temp_left; eauto |].
  destruct (fails Replace) eqn:E6; [apply temp_left; eauto |].
  set (fs2 := dict_set target (saved text) (dict_pop temp (dict_set temp (saved text) fs))).
  assert (dict_get temp fs2 = None) as Htemp.
  { unfold fs2. rewrite dict_get_set_other by done. apply dict_get_pop_same. by apply dict_set_wf. }
  assert (forall p, p <> target -> p <> temp -> dict_get p fs2 = dict_get p fs) as Hoth.
  { intros p H1 H2. unfold fs2. rewrite dict_get_set_other, dict_get_pop_other, dict_get_set_other by done. done. }
  assert (dict_get target fs2 = Some (saved text)) as Htgt by apply dict_get_set_same.
  unfold unlink_temp.
  destruct (fails Chmod) eqn:E7; change (mkFile text 384) with (saved text); fold fs2;
    (assert (path_exists temp fs2 = false) as -> by (unfold path_exists; by rewrite Htemp));
    constructor; cbn [fst snd]; auto; try done.
  - intros Ha. by rewrite Ha in E7.
  - intros p H. by injection H as <-.
Qed.

(** C33: whichever system call of a save fails, the configuration file afterwards holds
    either what it held before or the whole new text, readable by its owner only; no
    other file changes, no temporary file stays behind (unless removing it is what
    failed), and a save that returns has written the new text. *)
Theorem save_is_atomic fails temp written target text fs :
  dict_wf fs -> dict_get temp fs = None -> target <> temp ->
  atomic fails temp target text fs (save_text fails temp written target text fs).
Proof. apply save_text_atomic. Qed.

(** ** Saving and loading a client *)

Section ClientFacts.

Context (CLIENT_CONFIGS_PATH USER_CONFIG_PATH : string).
Context (yaml_dump : ClientPayload -> string) (yaml_load : string -> option ClientPayload).

(** YAML and pydantic read back what they wrote for a body. *)
Definition reads_back (b : ClientBody) : Prop := yaml_load (yaml_dump (payload_of b)) = Some (payload_of b).

Abbreviation get_path := (get_path CLIENT_CONFIGS_PATH).
Abbreviation load := (load CLIENT_CONFIGS_PATH yaml_load).
Abbreviation save := (save CLIENT_CONFIGS_PATH yaml_dump).

Definition no_failure (c : call) : bool := false.

(** A body the validators accept as it is. *)
Definition normal (b : ClientBody) : Prop :=
  leases_valid (leases b) = true /\ (existsb (String.eqb "UNSAFE") (allow b) = true -> unsafe b = true).

(** An alias that names a file of the directory. *)
Definition plain_alias (a : string) : Prop := Str.has_char "/" a = false.

Lemma startswith_slash a s : plain_alias a -> Str.startswith "/" s = false -> Str.startswith "/" (a ++ s) = false.
Proof.
  destruct a as [|c a]; [done |]. unfold plain_alias. cbn [Str.has_char]. intros H _.
  apply orb_false_iff in H as [H _]. rewrite Str.sapp_cons. cbn [Str.startswith].
  by rewrite Ascii.eqb_sym, H.
Qed.

Lemma get_path_plain a : plain_alias a -> get_path a = (CLIENT_CONFIGS_PATH ++ "/" ++ a ++ ".yaml")%string.
Proof. intros H. unfold ConfigFiles.get_path, path_join. by rewrite startswith_slash. Qed.

Lemma basename_path a : plain_alias a -> basename (get_path a) = (a ++ ".yaml")%string.
Proof.
  intros H. rewrite get_path_plain by done. unfold basename.
  change ("/" ++ a ++ ".yaml")%string with (String "/" (a ++ ".yaml")%string).
  rewrite Str.rsplit1_app; [done |]. by rewrite Str.has_char_app, H.
Qed.

(** The alias a loaded file is given: the text before the first dot. *)
Definition first_part (a : string) : string := default EmptyString (head (Str.split_char "." a)).

Lemma first_part_file a : first_part (a ++ ".yaml") = first_part a.
Proof.
  unfold first_part. induction a as [|c a IH]; [reflexivity |]. rewrite Str.sapp_cons. cbn [Str.split_char].
  destruct (Ascii.eqb c "."); [done |].
  destruct (Str.split_char "." (a ++ ".yaml")) as [|x xs], (Str.split_char "." a) as [|y ys]; cbn in *; congruence.
Qed.

Lemma payload_roundtrip b : normal b -> validate_client (payload_of b) = inr b.
Proof.
  intros [Hl Hu]. unfold validate_client, payload_of. cbn [p_body p_leases].
  assert (decode_unsafe b = b) as Hd.
  { assert (unsafe b || existsb (String.eqb "UNSAFE") (allow b) = unsafe b) as E.
    { destruct (existsb _ _) eqn:Ex; [by rewrite Hu | apply orb_false_r]. }
    unfold decode_unsafe. rewrite E. by destruct b. }
  destruct (bool_decide (leases b = default_leases)) eqn:E; cbn [from_option id].
  - apply bool_decide_eq_true in E. rewrite <- E, Hl.
    replace (with_leases (leases b) (without_leases b)) with b by (by destruct b). by rewrite Hd.
  - rewrite Hl. replace (with_leases (leases b) (without_leases b)) with b by (by destruct b). by rewrite Hd.
Qed.

Lemma load_saved a b m fs :
  reads_back b -> plain_alias a -> normal b ->
  dict_get (get_path a) fs = Some (mkFile (yaml_dump (payload_of b)) m) ->
  load a fs = (fs, inr (mkClient (first_part a) (Some (get_path a)) b)).
Proof.
  intros Hy Ha Hb Hf. unfold ConfigFiles.load, andThen, read, path_exists. rewrite Hf. cbn [is_some].
  unfold from_file, andThen, read_text. rewrite Hf. cbn [content].
  rewrite Hy, payload_roundtrip by done. unfold ok.
  change (default EmptyString (head (Str.split_char "." (basename (get_path a)))))
    with (first_part (basename (get_path a))).
  by rewrite basename_path, first_part_file.
Qed.

(** A client configuration that is saved loads again with every field as it was,
    the default lease settings left out of the file included; its alias is the text of
    the old one up to the first dot. *)
Theorem client_save_load temp written a p b fs :
  reads_back b ->
  dict_wf fs -> dict_get temp fs = None -> temp <> get_path a -> plain_alias a -> normal b ->
  exists fs', save no_failure temp written (mkClient a p b) None fs = (fs', inr (get_path a)) /\
    load a fs' = (fs', inr (mkClient (first_part a) (Some (get_path a)) b)).
Proof.
  intros Hy Hwf Ht Hne Ha Hb. unfold ConfigFiles.save. cbn [alias body].
  destruct (save_text_atomic no_failure temp written (get_path a) (yaml_dump (payload_of b)) fs) as [_ _ _ Hd Hok];
    [done | done | done |].
  specialize (Hok (fun _ => eq_refl)). specialize (Hd _ Hok) as [_ Hd].
  destruct (save_text _ _ _ _ _ fs) as [fs' r]. cbn [fst snd] in *. subst r.
  exists fs'. split; [done |]. by eapply load_saved.
Qed.

(** A client whose alias has a dot loses its new token: refreshing it saves the
    configuration under the part before the dot, over whatever configuration that name
    has, and the file that was loaded keeps the old token. *)
Theorem dotted_alias_saved_elsewhere temp written a rest b m fs t r :
  let dotted := (a ++ "." ++ rest)%string in
  reads_back b -> reads_back (body (with_token t r (mkClient a None b))) ->
  dict_wf fs -> dict_get temp fs = None -> temp <> get_path a ->
  plain_alias a -> plain_alias rest -> Str.has_char "." a = false -> normal b ->
  dict_get (get_path dotted) fs = Some (mkFile (yaml_dump (payload_of b)) m) ->
  exists fs',
    refresh_and_save CLIENT_CONFIGS_PATH yaml_dump yaml_load no_failure temp written dotted t r fs =
      (fs', inr (get_path a)) /\
    dict_get (get_path dotted) fs' = dict_get (get_path dotted) fs /\
    load a fs' = (fs', inr (with_token t r (mkClient a (Some (get_path a)) b))).
Proof.
  intros dotted Hy Hy2 Hwf Ht Hne Ha Hr Hdot Hb Hf.
  assert (plain_alias dotted) as Hpd
    by (unfold dotted, plain_alias; rewrite !Str.has_char_app; unfold plain_alias in *; by rewrite Ha, Hr).
  assert (first_part dotted = a) as Hfirst.
  { unfold first_part, dotted. change ("." ++ rest)%string with (String "." rest).
    by rewrite Str.split_char_app. }
  assert (first_part a = a) as Hfa by (unfold first_part; by rewrite Str.split_char_none).
  assert (get_path dotted <> get_path a) as Hpne.
  { intros E. apply (f_equal basename) in E. rewrite !basename_path in E by done.
    apply (f_equal (Str.split_char ".")) in E. unfold dotted in E.
    change ((a ++ "." ++ rest) ++ ".yaml")%string with ((a ++ String "." rest) ++ ".yaml")%string in E.
    rewrite Str.sapp_assoc, Str.sapp_cons in E.
    change (a ++ ".yaml")%string with (a ++ String "." "yaml")%string in E.
    rewrite (Str.split_char_app _ a (rest ++ ".yaml")), (Str.split_char_app _ a "yaml") in E by done.
    injection E as E.
    change (rest ++ ".yaml")%string with (rest ++ String "." "yaml")%string in E.
    assert (2 <= length (Str.split_char "." (rest ++ String "."%char "yaml")))%nat as Hlen.
    { clear. induction rest as [|c s IH]; [by apply Nat.leb_le |]. rewrite Str.sapp_cons. cbn [Str.split_char].
      destruct (Ascii.eqb c "."); [cbn [length]; lia |]. destruct (Str.split_char _ _); cbn in *; lia. }
    rewrite E in Hlen. cbn in Hlen. lia. }
  assert (get_path dotted <> temp) as Hdt by (intros E; rewrite E in Hf; congruence).
  unfold refresh_and_save. unfold andThen. rewrite (load_saved dotted b m) by done. rewrite Hfirst.
  set (c := with_token t r _).
  assert (normal (body c)) as Hc by (destruct Hb; by split).
  destruct (save_text_atomic no_failure temp written (get_path a) (yaml_dump (payload_of (body c))) fs)
    as [_ Ho _ Hd Hok]; [done | done | done |].
  specialize (Hok (fun _ => eq_refl)). specialize (Hd _ Hok) as [_ Hd].
  unfold ConfigFiles.save. change (alias c) with a.
  change (ConfigFiles.get_path CLIENT_CONFIGS_PATH a) with (get_path a).
  destruct (save_text _ _ _ _ _ fs) as [fs' res]. cbn [fst snd] in *. subst res.
  exists fs'. split; [done |]. split; [by apply Ho |].
  rewrite (load_saved a (body c) 384) by done. by rewrite Hfa.
Qed.

End ClientFacts.

(** ** The current client *)

Section UserFacts.

Context (CLIENT_CONFIGS_PATH USER_CONFIG_PATH : string).
Context (yaml_load : string -> option ClientPayload).
Context (user_dump : option string -> string) (user_load : string -> option (option string)).

Hypothesis user_roundtrip : forall o, user_load (user_dump o) = Some o.

Abbreviation get_path := (get_path CLIENT_CONFIGS_PATH).
Abbreviation load := (load CLIENT_CONFIGS_PATH yaml_load).
Abbreviation current := (user_read CLIENT_CONFIGS_PATH USER_CONFIG_PATH yaml_load user_load).

Lemma load_reads a fs : fst (load a fs) = fs.
Proof.
  unfold ConfigFiles.load, andThen, read. destruct (path_exists _ fs) eqn:E; [| done].
  unfold from_file, andThen, read_text. destruct (dict_get _ fs); [| done].
  destruct (yaml_load _); [| done]. by destruct (validate_client _).
Qed.

Lemma load_elsewhere a fs k f : k <> get_path a -> load a (dict_set k f fs) =
  (dict_set k f fs, snd (load a fs)).
Proof.
  intros Hk. unfold ConfigFiles.load, andThen, read, path_exists.
  rewrite dict_get_set_other by done.
  change (ConfigFiles.get_path CLIENT_CONFIGS_PATH a) with (get_path a).
  destruct (dict_get (get_path a) fs) as [x|] eqn:E; cbn [is_some]; [| done].
  unfold from_file, andThen, read_text. rewrite dict_get_set_other, E by done.
  destruct (yaml_load _); [| done]. by destruct (validate_client _).
Qed.

(** After [use_client] the user's current client is the one chosen, read from its own
    file; and a current client whose file has since been deleted reads as none. *)
Theorem use_client_current n c fs p :
  USER_CONFIG_PATH <> get_path n -> alias c = n ->
  load n fs = (fs, inr c) ->
  exists fs',
    use_client CLIENT_CONFIGS_PATH USER_CONFIG_PATH yaml_load user_dump (Some n) fs = (fs', inr (path c)) /\
    snd (current fs') = inr (Some c) /\
    (dict_wf fs -> snd (current (dict_pop (get_path n) fs')) = inr None) /\
    (p <> USER_CONFIG_PATH -> dict_get p fs' = dict_get p fs).
Proof.
  intros Hne Ha Hl. unfold use_client, andThen. rewrite Hl. unfold ok, user_save, modify.
  eexists. split; [reflexivity |]. cbn [option_map]. rewrite Ha.
  set (m := match dict_get USER_CONFIG_PATH fs with Some f => mode f | None => 420 end).
  set (fs' := dict_set USER_CONFIG_PATH (mkFile (user_dump (Some n)) m) fs).
  assert (dict_get USER_CONFIG_PATH fs' = Some (mkFile (user_dump (Some n)) m)) as Hu
    by apply dict_get_set_same.
  split; [| split].
  - unfold user_read, andThen, user_exists, read, path_exists, read_text. rewrite Hu. cbn [is_some negb]. cbv beta iota.
    rewrite Hu. cbn [content]. rewrite user_roundtrip. unfold validate_current_client. unfold fs'. rewrite load_elsewhere by done.
    rewrite Hl. reflexivity.
  - intros Hwf. unfold user_read, andThen, user_exists, read, path_exists, read_text.
    rewrite dict_get_pop_other, Hu by congruence. cbn [is_some negb]. cbv beta iota.
    rewrite dict_get_pop_other, Hu by congruence. cbn [content]. rewrite user_roundtrip.
    unfold validate_current_client, ConfigFiles.load, andThen, read, path_exists.
    rewrite dict_get_pop_same by (by apply dict_set_wf). reflexivity.
  - intros Hp. unfold fs'. by rewrite dict_get_set_other.
Qed.

End UserFacts.

(** ** Exporter configurations *)

Section ExporterFacts.

Context (BASE_PATH SYSTEM_CONFIG_PATH : string).
Context (yaml_dump : ExporterBody -> string) (yaml_load : string -> option ExporterBody).

Abbreviation user_path := (user_path BASE_PATH).
Abbreviation system_path := (system_path SYSTEM_CONFIG_PATH).

Lemma alias_plain a : alias_valid a = true -> plain_alias a /\ truthy a = true.
Proof.
  unfold alias_valid. rewrite !andb_true_iff, !negb_true_iff. intros ((((H1 & _) & _) & H4) & _). done.
Qed.

(** The file of an exporter: an alias that is accepted names a file directly in the
    user's directory; loading takes that file if it exists and the system's file of the
    same name otherwise; deleting removes at most the user's file and refuses when
    only the system has one. *)
Theorem exporter_file_resolution a fs :
  alias_valid a = true -> user_path a <> system_path a ->
  Str.rsplit1 "/" (user_path a) = Some (BASE_PATH, a ++ ".yaml")%string /\
  resolve_path BASE_PATH SYSTEM_CONFIG_PATH a fs =
    (fs, inr (if path_exists (user_path a) fs then user_path a
              else if path_exists (system_path a) fs then system_path a else user_path a)) /\
  (let '(fs', r) := x_delete BASE_PATH SYSTEM_CONFIG_PATH a fs in
   (forall p, p <> user_path a -> dict_get p fs' = dict_get p fs) /\
   (dict_wf fs -> path_exists (user_path a) fs = true ->
      r = inr (user_path a) /\ dict_get (user_path a) fs' = None) /\
   (path_exists (user_path a) fs = false -> fs' = fs /\
      (path_exists (system_path a) fs = true <-> exists e, r = inl e))).
Proof.
  intros Hv Hne. destruct (alias_plain a Hv) as [Hp Ht]. split; [| split].
  - unfold ConfigFiles.user_path, path_join. rewrite startswith_slash by done.
    change ("/" ++ a ++ ".yaml")%string with (String "/" (a ++ ".yaml")%string).
    apply Str.rsplit1_app. rewrite Str.has_char_app. unfold plain_alias in Hp. by rewrite Hp.
  - unfold resolve_path, x_get_path, validate_alias, andThen, read, ok. rewrite Hv.
    destruct (path_exists (user_path a) fs) eqn:E1; [done |]. by destruct (path_exists (system_path a) fs).
  - unfold x_delete, x_get_path, validate_alias, andThen, read, ok, modify, throw. rewrite Hv.
    change (ConfigFiles.user_path BASE_PATH a) with (user_path a).
    destruct (path_exists (user_path a) fs) eqn:E1.
    + split; [intros p H; by rewrite dict_get_pop_other |]. split; [| done].
      intros Hwf _. split; [done | by apply dict_get_pop_same].
    + change (ConfigFiles.system_path SYSTEM_CONFIG_PATH a) with (system_path a).
      destruct (path_exists (system_path a) fs) eqn:E2; (split; [done |]; split; [done |]);
        intros _; (split; [done |]); split; [eauto | done | done | intros [e He]; done].
Qed.

Lemma fold_add_alias l acc : NoDup acc -> NoDup (fold_left add_alias l acc) /\
  forall x, x ∈ fold_left add_alias l acc <-> x ∈ acc \/ x ∈ l.
Proof.
  revert acc. induction l as [|a l IH]; intros acc Hn; cbn [fold_left].
  - split; [done |]. intros x. rewrite elem_of_nil. tauto.
  - assert (NoDup (add_alias acc a) /\ forall x, x ∈ add_alias acc a <-> x ∈ acc \/ x = a) as [H1 H2].
    { unfold add_alias. destruct (existsb (String.eqb a) acc) eqn:E.
      - apply existsb_exists in E as (y & Hy & ->%String.eqb_eq). apply list_elem_of_In in Hy.
        split; [done |]. intros x. split; [auto | by intros [?| ->]].
      - split.
        + apply NoDup_app. split; [done |]. split; [| apply NoDup_singleton].
          intros x Hx ->%list_elem_of_singleton. apply not_true_iff_false in E. apply E.
          apply existsb_exists. exists a. split; [by apply list_elem_of_In | apply String.eqb_refl].
        + intros x. by rewrite elem_of_app, list_elem_of_singleton. }
    destruct (IH _ H1) as [I1 I2]. split; [done |]. intros x. rewrite I2, H2, elem_of_cons. tauto.
Qed.

(** The aliases listed are those of either location, each once. *)
Theorem exporter_aliases_once fs :
  NoDup (all_aliases BASE_PATH SYSTEM_CONFIG_PATH fs) /\
  forall a, a ∈ all_aliases BASE_PATH SYSTEM_CONFIG_PATH fs <->
    a ∈ yaml_aliases BASE_PATH fs \/ a ∈ yaml_aliases SYSTEM_CONFIG_PATH fs.
Proof.
  unfold all_aliases. destruct (fold_add_alias (yaml_aliases BASE_PATH fs ++ yaml_aliases SYSTEM_CONFIG_PATH fs) [])
    as [H1 H2]; [apply NoDup_nil_2 |].
  split; [done |]. intros a. rewrite H2, elem_of_app, elem_of_nil. tauto.
Qed.

End ExporterFacts.

(** ** Instantiation *)

Section InstantiateFacts.

Context (import_class : string -> bool) (construct : string -> string -> list (string * Driver) -> bool).

Abbreviation inst := (instantiate import_class construct).

(** The driver an instance describes. *)
Fixpoint driver_of (d : DriverInstance) : Driver :=
  match d with
  | Base t desc ms cfg cs => DriverOf t desc ms cfg (map (fun nd => (fst nd, driver_of (snd nd))) cs)
  | Composite cs => CompositeDriver (map (fun nd => (fst nd, driver_of (snd nd))) cs)
  | Proxy r => ProxyDriver r
  end.

(** The classes named in a tree, parents before children. *)
Fixpoint types_of (d : DriverInstance) : list string :=
  match d with
  | Base t _ _ _ cs => t :: flat_map (fun nd => types_of (snd nd)) cs
  | Composite cs => flat_map (fun nd => types_of (snd nd)) cs
  | Proxy _ => []
  end.

(** An induction principle that reaches the children. *)
Lemma instance_ind (P : DriverInstance -> Prop) :
  (forall t desc ms cfg cs, Forall (fun nd => P (snd nd)) cs -> P (Base t desc ms cfg cs)) ->
  (forall cs, Forall (fun nd => P (snd nd)) cs -> P (Composite cs)) ->
  (forall r, P (Proxy r)) -> forall d, P d.
Proof.
  intros H1 H2 H3. fix IH 1. intros [t desc ms cfg cs|cs|r]; [apply H1 | apply H2 | apply H3];
    induction cs as [|[n d] cs IHcs]; constructor; [apply IH | exact IHcs | apply IH | exact IHcs].
Qed.

Fixpoint inst_all (l : list (string * DriverInstance)) : exn + list (string * Driver) :=
  match l with
  | [] => inr []
  | (n, d) :: l' =>
      match inst d with
      | inl e => inl e
      | inr x => match inst_all l' with inl e => inl e | inr xs => inr ((n, x) :: xs) end
      end
  end.

Lemma inst_base t desc ms cfg cs :
  inst (Base t desc ms cfg cs) =
  if negb (import_class t) then inl (DriverMissing t)
  else match inst_all cs with
       | inl e => inl e
       | inr xs => if construct t cfg xs then inr (DriverOf t desc ms cfg xs) else inl (DriverFailed t)
       end.
Proof. reflexivity. Qed.

Lemma inst_composite cs :
  inst (Composite cs) = match inst_all cs with inl e => inl e | inr xs => inr (CompositeDriver xs) end.
Proof. reflexivity. Qed.

(** The constructors accept what they are given. *)
Hypothesis constructs : forall t cfg xs, construct t cfg xs = true.

Definition first_missing (ts : list string) : option string := List.find (fun t => negb (import_class t)) ts.

Definition expected (d : DriverInstance) : exn + Driver :=
  match first_missing (types_of d) with
  | Some t => inl (DriverMissing t)
  | None => inr (driver_of d)
  end.

Lemma find_app {A} (p : A -> bool) l1 l2 :
  List.find p (l1 ++ l2) = match List.find p l1 with Some a => Some a | None => List.find p l2 end.
Proof. induction l1 as [|a l1 IH]; [done |]. cbn. by destruct (p a). Qed.

Lemma inst_all_expected cs : Forall (fun nd => inst (snd nd) = expected (snd nd)) cs ->
  inst_all cs = match first_missing (flat_map (fun nd => types_of (snd nd)) cs) with
                | Some t => inl (DriverMissing t)
                | None => inr (map (fun nd => (fst nd, driver_of (snd nd))) cs)
                end.
Proof.
  unfold first_missing. induction 1 as [|[n d] cs Hd Hcs IH]; [done |]. cbn [inst_all snd fst flat_map map] in *.
  rewrite Hd, IH. unfold expected, first_missing. rewrite find_app.
  destruct (List.find _ (types_of d)); [done |]. by destruct (List.find _ _).
Qed.

(** The exporter's driver tree has the shape of its configuration, with every child
    under its own name and in order; when classes are missing, the error names the
    first one, parents before children. *)
Theorem instantiate_tree d : inst d = expected d.
Proof.
  induction d as [t desc ms cfg cs IH|cs IH|r] using instance_ind; [| | done].
  - rewrite inst_base, inst_all_expected by done. unfold expected, first_missing. cbn [types_of List.find].
    destruct (import_class t); cbn [negb]; [| done].
    destruct (List.find _ _); [done |]. by rewrite constructs.
  - rewrite inst_composite, inst_all_expected by done. unfold expected, first_missing. cbn [types_of].
    by destruct (List.find _ _).
Qed.

End InstantiateFacts.

(** ** Concrete instances *)

Definition demo_body : ClientBody :=
  mkBody (Some "lab"%string) "me" (Some "grpc.lab:443"%string) (Some "t0"%string) None "" false
    ["jumpstarter_driver_*"%string] false false (mkLeases 600 60000 300000).

Lemma save_is_atomic_witness :
  dict_get "/c/a.yaml"%string
    (fst (save_text (fun c => match c with Replace => true | _ => false end) "/c/.tmp" "" "/c/a.yaml" "new"
            [("/c/a.yaml"%string, mkFile "old" 384)])) = Some (mkFile "old" 384).
Proof.
  destruct (save_is_atomic (fun c => match c with Replace => true | _ => false end) "/c/.tmp" "" "/c/a.yaml"
              "new" [("/c/a.yaml"%string, mkFile "old" 384)]) as [[H|H] _ _ _ _];
    [apply NoDup_singleton | reflexivity | discriminate | exact H |].
  vm_compute in H. discriminate H.
Defined.

Lemma demo_normal : normal demo_body.
Proof. split; [reflexivity | intros H; vm_compute in H; discriminate H]. Qed.

Definition demo_refreshed : ClientBody := body (with_token "t1" None (mkClient "lab" None demo_body)).

(** A stand-in for YAML that knows two configurations by their tokens. *)
Definition demo_dump (p : ClientPayload) : string := default EmptyString (token (p_body p)).
Definition demo_load (s : string) : option ClientPayload :=
  if String.eqb s "t0" then Some (payload_of demo_body)
  else if String.eqb s "t1" then Some (payload_of demo_refreshed) else None.

Lemma client_save_load_witness :
  exists fs', save "/c" demo_dump no_failure "/c/.tmp" "" (mkClient "lab" None demo_body) None [] =
    (fs', inr "/c/lab.yaml"%string).
Proof.
  destruct (client_save_load "/c" demo_dump demo_load "/c/.tmp" "" "lab" None demo_body [])
    as (fs' & H & _);
    [reflexivity | apply NoDup_nil_2 | reflexivity | discriminate | reflexivity | apply demo_normal |].
  exists fs'. exact H.
Defined.

Lemma dotted_alias_saved_elsewhere_witness :
  exists fs', refresh_and_save "/c" demo_dump demo_load no_failure "/c/.tmp" "" "lab.eu" "t1" None
                [("/c/lab.eu.yaml"%string, mkFile "t0" 384)] = (fs', inr "/c/lab.yaml"%string) /\
    dict_get "/c/lab.eu.yaml" fs' = Some (mkFile "t0" 384).
Proof.
  destruct (dotted_alias_saved_elsewhere "/c" demo_dump demo_load "/c/.tmp" "" "lab" "eu" demo_body 384
              [("/c/lab.eu.yaml"%string, mkFile "t0" 384)] "t1" None)
    as (fs' & H1 & H2 & _);
    [reflexivity | reflexivity | apply NoDup_singleton | reflexivity | discriminate | reflexivity | reflexivity |
     reflexivity | apply demo_normal | reflexivity |].
  exists fs'. split; [exact H1 | exact H2].
Defined.

Definition demo_user_dump (o : option string) : string :=
  match o with Some s => ("=" ++ s)%string | None => "none" end.
Definition demo_user_load (s : string) : option (option string) :=
  if String.eqb s "none" then Some None
  else match s with String "=" r => Some (Some r) | _ => None end.

Lemma use_client_current_witness :
  exists fs', use_client "/c" "/u.yaml" demo_load demo_user_dump (Some "lab"%string)
                [("/c/lab.yaml"%string, mkFile "t0" 384)] = (fs', inr (Some "/c/lab.yaml"%string)).
Proof.
  destruct (use_client_current "/c" "/u.yaml" demo_load demo_user_dump demo_user_load) with
    (n := "lab"%string) (c := mkClient "lab" (Some "/c/lab.yaml"%string) demo_body)
    (fs := [("/c/lab.yaml"%string, mkFile "t0" 384)]) (p := ""%string) as (fs' & H & _).
  - intros [s|]; reflexivity.
  - discriminate.
  - reflexivity.
  - vm_compute. reflexivity.
  - exists fs'. exact H.
Defined.

Lemma exporter_file_resolution_witness :
  resolve_path "/home/exporters" "/etc/jumpstarter/exporters" "rpi"
    [("/etc/jumpstarter/exporters/rpi.yaml"%string, mkFile "" 420)] =
  ([("/etc/jumpstarter/exporters/rpi.yaml"%string, mkFile "" 420)],
   inr "/etc/jumpstarter/exporters/rpi.yaml"%string).
Proof.
  destruct (exporter_file_resolution "/home/exporters" "/etc/jumpstarter/exporters" "rpi"
              [("/etc/jumpstarter/exporters/rpi.yaml"%string, mkFile "" 420)]) as (_ & H & _);
    [reflexivity | discriminate |].
  rewrite H. reflexivity.
Defined.

Lemma instantiate_tree_witness :
  instantiate (fun t => negb (String.eqb t "missing")) (fun _ _ _ => true)
    (Base COMPOSITE None [] "" [("a"%string, Base "power" None [] "" [("b"%string, Base "missing" None [] "" [])])]) =
  inl (DriverMissing "missing").
Proof. rewrite instantiate_tree by reflexivity. reflexivity. Defined.
