(* ===== verification/Tokens.v ===== *)
(** * Tokens of a running shell

    [jumpstarter_cli_common/oidc.py]: the remaining time of a token, how a duration is
    shown, the port of the login callback and the polling of the device authorization
    grant. [jumpstarter_cli/shell.py]: the monitor that refreshes the token of a shell,
    or reloads it from the configuration file, and tells the user when it cannot.

    Times are in milliseconds. Reading a token (JSON Web Tokens) and the identity
    provider are parameters; the configuration is that of [ConfigFiles]. The channel of
    a lease is the token it was made with. *)

From stdpp Require Import base list strings pretty.
From Stdlib Require Import ZArith Lia Ascii.
From S2P Require Import Prelude PyText ConfigFiles.

Open Scope Z_scope.
Open Scope list_scope.

(** ** Durations *)

Definition format_duration (ms : Z) : string :=
  let abs_ms := Z.abs ms in
  let hours := abs_ms / 3600000 in
  let mins := (abs_ms mod 3600000) / 60000 in
  let secs := (abs_ms mod 60000) / 1000 in
  if 0 <? hours then (pretty hours ++ "h " ++ pretty mins ++ "m")%string
  else if 0 <? mins then (pretty mins ++ "m " ++ pretty secs ++ "s")%string
  else (pretty secs ++ "s")%string.

(** ** The callback port of a login *)

(** [str.isdigit] and [int] of a text of ASCII digits. *)
Definition ascii_digit (c : ascii) : bool :=
  let n := nat_of_ascii c in ((48 <=? n) && (n <=? 57))%nat.

Definition digits_value (s : string) : Z :=
  fold_left (fun acc c => acc * 10 + (Z.of_nat (nat_of_ascii c) - 48)) (String.list_ascii_of_string s) 0.

Definition isdigit (s : string) : bool :=
  match s with EmptyString => false | _ => forallb ascii_digit (String.list_ascii_of_string s) end.

(** The option, else the variable, else any free port; [None] is the error. *)
Definition callback_port (option_port : option Z) (env_value : option string) : option Z :=
  match option_port with
  | Some p => Some p
  | None =>
      match env_value with
      | None => Some 0
      | Some v => if isdigit v && (digits_value v <=? 65535) then Some (digits_value v) else None
      end
  end.

(** ** The device authorization grant *)

(** What the provider answers to a poll: a status of 200 with the tokens, or an error. *)
Inductive poll_answer {T : Type} :=
| Granted (tokens : T)
| Refused (error description : string).
Arguments poll_answer : clear implicits.

Inductive device_result {T : Type} :=
| Tokens (tokens : T)
| DeviceError (message : string)
| StillPolling.
Arguments device_result : clear implicits.

Definition failed_message (error description : string) : string :=
  ("Device authorization failed: " ++ error ++
   (if truthy description then " - " ++ description else ""))%string.

(** The loop of step 3: [clock i] is read before the i-th poll, [answers i] is its
    answer. The sleeps so far are given back too. *)
Fixpoint device_poll {T} (fuel : nat) (clock : nat -> Z) (answers : nat -> poll_answer T)
    (deadline interval : Z) (i : nat) (sleeps : list Z) : list Z * device_result T :=
  match fuel with
  | O => (sleeps, StillPolling)
  | S n =>
      if clock i <? deadline then
        let sleeps := sleeps ++ [interval] in
        match answers i with
        | Granted t => (sleeps, Tokens t)
        | Refused error description =>
            if String.eqb error "authorization_pending"
            then device_poll n clock answers deadline interval (S i) sleeps
            else if String.eqb error "slow_down"
            then device_poll n clock answers deadline (interval + 5000) (S i) sleeps
            else if String.eqb error "expired_token"
            then (sleeps, DeviceError "Device authorization has expired. Please try again.")
            else if String.eqb error "access_denied"
            then (sleeps, DeviceError "Authorization request was denied by the user.")
            else (sleeps, DeviceError (failed_message error description))
        end
      else (sleeps, DeviceError "Device authorization timed out waiting for user approval. Please try again.")
  end.

(** The whole grant after the device code came: the interval defaults to five seconds
    and the life of the code to ten minutes; [None] is a response without code. *)
Definition device_authorization_grant {T} (fuel : nat) (clock : nat -> Z) (answers : nat -> poll_answer T)
    (device_endpoint device_code : option string) (interval expires_in : option Z) (start : Z)
    : list Z * device_result T :=
  match device_endpoint with
  | None => ([], DeviceError "no device_authorization_endpoint")
  | Some ep =>
      if negb (truthy ep) then ([], DeviceError "no device_authorization_endpoint")
      else match device_code with
           | None => ([], DeviceError "missing device_code")
           | Some _ =>
               device_poll fuel clock answers (start + default 600000 expires_in) (default 5000 interval) 0 []
           end
  end.

(** ** The state of a shell *)

Record State := mkState {
  config : ClientConfig;
  channels : list (nat * string);
  files : list (string * File)
}.

#[export] Instance set_channels : Setter channels := fun u s =>
  mkState (config s) (u (channels s)) (files s).
#[export] Instance set_files : Setter files := fun u s =>
  mkState (config s) (channels s) (u (files s)).

Definition with_credentials (t r : option string) (c : ClientConfig) : ClientConfig :=
  let b := body c in
  mkClient (alias c) (path c)
    (mkBody (namespace b) (name b) (endpoint b) t r (tls_ca b) (tls_insecure b) (allow b) (unsafe b)
       (use_profiles b) (leases b)).

Definition set_credentials (t r : option string) (s : State) : State :=
  mkState (with_credentials t r (config s)) (channels s) (files s).

Definition token_of (s : State) : option string := token (body (config s)).
Definition refresh_of (s : State) : option string := refresh_token (body (config s)).

(** The channel of lease [l]. *)
Definition channel_of (l : nat) (s : State) : option string :=
  option_map snd (List.find (fun c => Nat.eqb (fst c) l) (channels s)).

Fixpoint set_channel (l : nat) (t : string) (cs : list (nat * string)) : list (nat * string) :=
  match cs with
  | [] => [(l, t)]
  | (k, v) :: cs' => if Nat.eqb k l then (k, t) :: cs' else (k, v) :: set_channel l t cs'
  end.

(** What the provider gives for a refresh token. *)
Record Grant := mkGrant { access_token : option string; new_refresh_token : option string }.

(** The world during one attempt to recover the token. *)
Record Env := mkEnv {
  grant : string -> option Grant;
  credentials_ok : bool;
  save_fails : call -> bool;
  temp_path : string;
  half_written : string;
  now : Z
}.

Section Shell.

Context (CLIENT_CONFIGS_PATH : string).
Context (yaml_dump : ClientPayload -> string) (yaml_load : string -> option ClientPayload).
(** The claims of a token: [None] when it cannot be decoded. *)
Context (jwt_issuer : string -> option (option string)) (jwt_expiry : string -> option (option Z)).

(** [get_token_remaining_seconds]: the outer [None] is the [ValueError] of a token that
    is none, the inner one a token that does not expire. *)
Definition get_token_remaining (now : Z) (token : string) : option (option Z) :=
  option_map (option_map (fun exp => 1000 * exp - now)) (jwt_expiry token).

(** [None] is an exception of [config.channel()]. *)
Definition update_lease_channel (e : Env) (lease : option nat) (s : State) : option State :=
  match lease with
  | None => Some s
  | Some l =>
      match endpoint (body (config s)), token_of s with
      | Some _, Some t => if credentials_ok e then Some (s <| channels ::= set_channel l t |>) else None
      | _, _ => None
      end
  end.

(** [ClientConfigV1Alpha1.save(config, path=config.path)]; the path of the configuration
    is set before anything is written, and a failure is only logged. *)
Definition persist (e : Env) (s : State) : State :=
  let c := config s in
  let target := match path c with Some p => p | None => get_path CLIENT_CONFIGS_PATH (alias c) end in
  mkState (mkClient (alias c) (Some target) (body c)) (channels s)
    (fst (save CLIENT_CONFIGS_PATH yaml_dump (save_fails e) (temp_path e) (half_written e) c (path c) (files s))).

(** [_try_refresh_token] runs to its end: a cancellation while the channel is being replaced,
    which is no [Exception] and so skips the rollback, is not modelled. *)
Definition try_refresh_token (e : Env) (lease : option nat) (s : State) : bool * State :=
  match refresh_of s with
  | None => (false, s)
  | Some r =>
      if negb (truthy r) then (false, s)
      else
        match option_map jwt_issuer (token_of s) with
        | Some (Some _) =>
            match grant e r with
            | Some (mkGrant (Some t) r') =>
                let s1 := set_credentials (Some t) (match r' with Some x => Some x | None => Some r end) s in
                match update_lease_channel e lease s1 with
                | Some s2 => (true, persist e s2)
                | None => (false, set_credentials (token_of s) (refresh_of s) s1)
                end
            | _ => (false, s)
            end
        | _ => (false, s)
        end
  end.

(** A token is taken from the file only when it differs from the one in use and is
    still valid. *)
Definition try_reload_token_from_disk (e : Env) (lease : option nat) (s : State) : bool * State :=
  match path (config s) with
  | None => (false, s)
  | Some p =>
      match snd (from_file yaml_load p (files s)) with
      | inl _ => (false, s)
      | inr disk =>
          match token (body disk) with
          | None => (false, s)
          | Some t =>
              if negb (truthy t) || bool_decide (Some t = token_of s) then (false, s)
              else match get_token_remaining (now e) t with
                   | Some (Some remaining) =>
                       if remaining <=? 0 then (false, s)
                       else
                         let s1 := set_credentials (Some t) (refresh_token (body disk)) s in
                         match update_lease_channel e lease s1 with
                         | Some s2 => (true, s2)
                         | None => (false, set_credentials (token_of s) (refresh_of s) s1)
                         end
                   | _ => (false, s)
                   end
          end
      end
  end.

Definition attempt_token_recovery (e : Env) (lease : option nat) (s : State) : option string * State :=
  let '(refreshed, s) := try_refresh_token e lease s in
  if refreshed then (Some "Token refreshed automatically."%string, s)
  else
    let '(reloaded, s) := try_reload_token_from_disk e lease s in
    if reloaded then (Some "Token reloaded from login."%string, s) else (None, s).

(** ** Warnings *)

(** What the user is shown. *)
Inductive notice :=
| Recovered (message : string)
| ExpiresSoon (duration : string)
| RefreshFailed (duration : string)
| Expired.

Record Warn := mkWarn {
  w_expiry : bool;
  w_refresh_failed : bool;
  w_token_expired : bool;
  expired_unrecovered : bool
}.

Definition no_warnings : Warn := mkWarn false false false false.

Definition warn_refresh_failed (remaining : Z) : notice :=
  if 0 <? remaining then RefreshFailed (format_duration remaining) else Expired.

Definition handle_token_refresh (e : Env) (lease : option nat) (remaining : Z) (w : Warn) (s : State)
    : list notice * Warn * State :=
  let '(msg, s) := attempt_token_recovery e lease s in
  match msg with
  | Some m => ([Recovered m], mkWarn false false false false, s)
  | None =>
      if (remaining <=? 0) && negb (w_token_expired w)
      then ([warn_refresh_failed remaining], mkWarn (w_expiry w) (w_refresh_failed w) true true, s)
      else if (0 <? remaining) && negb (w_refresh_failed w)
      then ([warn_refresh_failed remaining], mkWarn (w_expiry w) true (w_token_expired w) (expired_unrecovered w), s)
      else ([], w, s)
  end.

Definition REFRESH_THRESHOLD : Z := 120 * 1000.
Definition EXPIRY_WARNING : Z := 300 * 1000.

(** One round of [_monitor_token_expiry]: [None] when it returns, else what is shown and
    how long it sleeps. *)
Definition monitor_round (e : Env) (lease : option nat) (w : Warn) (s : State)
    : option (list notice * Z * Warn * State) :=
  match token_of s with
  | None => None
  | Some t =>
      match get_token_remaining (now e) t with
      | Some (Some remaining) =>
          if remaining <=? REFRESH_THRESHOLD then
            let '(out, w, s) := handle_token_refresh e lease remaining w s in
            Some (out, 5000, w, s)
          else if (remaining <=? EXPIRY_WARNING) && negb (w_expiry w)
          then Some ([ExpiresSoon (format_duration remaining)], 30000,
                     mkWarn true (w_refresh_failed w) (w_token_expired w) (expired_unrecovered w), s)
          else Some ([], 30000, w, s)
      | _ => None
      end
  end.

(** The monitor over the rounds it gets to run before the shell ends. *)
Fixpoint monitor_rounds (es : list Env) (lease : option nat) (w : Warn) (s : State)
    : list notice * Warn * State :=
  match es with
  | [] => ([], w, s)
  | e :: es' =>
      match monitor_round e lease w s with
      | None => ([], w, s)
      | Some (out, _, w', s') =>
          let '(outs, w2, s2) := monitor_rounds es' lease w' s' in (out ++ outs, w2, s2)
      end
  end.

Definition monitor_token_expiry (es : list Env) (lease : option nat) (s : State)
    : list notice * Warn * State :=
  if truthy (default EmptyString (token_of s)) then monitor_rounds es lease no_warnings s
  else ([], no_warnings, s).

End Shell.

(** * Theorems *)

(** ** Recovery *)

Lemma channel_set_same l t s : channel_of l (s <| channels ::= set_channel l t |>) = Some t.
Proof.
  destruct s as [c cs fs]. unfold channel_of. cbn. induction cs as [|[k v] cs IH]; cbn; [by rewrite Nat.eqb_refl |].
  destruct (Nat.eqb k l) eqn:E; cbn; rewrite E; [done | apply IH].
Qed.

Lemma channel_set_other l l' t s :
  l <> l' -> channel_of l' (s <| channels ::= set_channel l t |>) = channel_of l' s.
Proof.
  intros Hne. destruct s as [c cs fs]. unfold channel_of. cbn. induction cs as [|[k v] cs IH]; cbn.
  - by destruct (Nat.eqb_spec l l').
  - destruct (Nat.eqb_spec k l) as [->|Hk]; cbn.
    + by destruct (Nat.eqb_spec l l').
    + destruct (Nat.eqb k l'); [done | apply IH].
Qed.

Lemma restore_credentials t r s : set_credentials (token_of s) (refresh_of s) (set_credentials t r s) = s.
Proof. by destruct s as [[a p []] cs fs]. Qed.

Section Recovery.

Context (CLIENT_CONFIGS_PATH : string).
Context (yaml_dump : ClientPayload -> string) (yaml_load : string -> option ClientPayload).
Context (jwt_issuer : string -> option (option string)) (jwt_expiry : string -> option (option Z)).

Abbreviation refresh := (try_refresh_token CLIENT_CONFIGS_PATH yaml_dump jwt_issuer).
Abbreviation reload := (try_reload_token_from_disk yaml_load jwt_expiry).
Abbreviation recovery := (attempt_token_recovery CLIENT_CONFIGS_PATH yaml_dump yaml_load jwt_issuer jwt_expiry).
Abbreviation round := (monitor_round CLIENT_CONFIGS_PATH yaml_dump yaml_load jwt_issuer jwt_expiry).
Abbreviation rounds := (monitor_rounds CLIENT_CONFIGS_PATH yaml_dump yaml_load jwt_issuer jwt_expiry).
Abbreviation handle := (handle_token_refresh CLIENT_CONFIGS_PATH yaml_dump yaml_load jwt_issuer jwt_expiry).

(** Before and after: the channel of the lease has the token of the configuration. *)
Definition in_sync (l : nat) (s : State) : Prop := channel_of l s = token_of s.

Lemma update_channel_sync e l s s' : update_lease_channel e (Some l) s = Some s' -> in_sync l s'.
Proof.
  unfold update_lease_channel, in_sync. destruct (endpoint _); [| done]. destruct (token_of s) eqn:Et; [| done].
  destruct (credentials_ok e); [| done]. intros [= <-]. rewrite channel_set_same. by destruct s.
Qed.

Lemma refresh_outcome e lease s :
  refresh e lease s = (false, s) \/
  exists t r s2, refresh e lease s = (true, persist CLIENT_CONFIGS_PATH yaml_dump e s2) /\
    update_lease_channel e lease (set_credentials (Some t) (Some r) s) = Some s2.
Proof.
  unfold try_refresh_token. destruct (refresh_of s) as [r|] eqn:Er; [| by left].
  destruct (truthy r); [| by left]. cbn [negb].
  destruct (option_map jwt_issuer (token_of s)) as [[i|]|] eqn:Ei; [| by left | by left].
  destruct (grant e r) as [[[t|] r']|]; [| by left | by left].
  destruct r' as [r'|];
    (destruct (update_lease_channel _ _ _) as [s2|] eqn:Eu;
     [right; eauto | left; by rewrite <- Er, restore_credentials]).
Qed.

Lemma reload_outcome e lease s :
  reload e lease s = (false, s) \/
  exists t r s2, reload e lease s = (true, s2) /\ Some t <> token_of s /\
    (exists x, jwt_expiry t = Some (Some x) /\ now e < 1000 * x) /\
    update_lease_channel e lease (set_credentials (Some t) r s) = Some s2.
Proof.
  unfold try_reload_token_from_disk. destruct (path (config s)) as [p|]; [| by left].
  destruct (snd (from_file _ _ _)) as [x|disk]; [by left |]. destruct (token (body disk)) as [t|]; [| by left].
  destruct (truthy t); [| by left]. cbn [negb orb]. case_bool_decide as Ht; [by left |].
  unfold get_token_remaining. destruct (jwt_expiry t) as [[x|]|] eqn:Ex; cbn [option_map]; [| by left | by left].
  destruct (1000 * x - now e <=? 0) eqn:El; [by left |]. apply Z.leb_gt in El.
  destruct (update_lease_channel _ _ _) as [s2|] eqn:Eu.
  - right. exists t, (refresh_token (body disk)), s2. split_and!; [done | done | | done]. exists x. split; [done | lia].
  - left. by rewrite restore_credentials.
Qed.

(** An attempt that gives no message has changed nothing. *)
Lemma recovery_failed e lease s s' : recovery e lease s = (None, s') -> s' = s.
Proof.
  unfold attempt_token_recovery. destruct (refresh_outcome e lease s) as [->|(t & r & s2 & -> & _)]; [| done].
  destruct (reload_outcome e lease s) as [->|(t & r & s2 & -> & _)]; [| done]. by intros [= ->].
Qed.

Lemma persist_keeps e s : channels (persist CLIENT_CONFIGS_PATH yaml_dump e s) = channels s /\
  token_of (persist CLIENT_CONFIGS_PATH yaml_dump e s) = token_of s.
Proof. done. Qed.

Lemma update_others e l l' s s' :
  update_lease_channel e (Some l) s = Some s' -> l <> l' -> channel_of l' s' = channel_of l' s.
Proof.
  unfold update_lease_channel. destruct (endpoint _); [| done]. destruct (token_of s); [| done].
  destruct (credentials_ok e); [| done]. intros [= <-] Hne. by apply channel_set_other.
Qed.

(** A recovery gives the new token to the lease of the monitor and to no other. *)
Lemma recovery_moves e l l' s m s' :
  recovery e (Some l) s = (Some m, s') -> l <> l' -> in_sync l s' /\ channel_of l' s' = channel_of l' s.
Proof.
  unfold attempt_token_recovery. intros H Hne.
  destruct (refresh_outcome e (Some l) s) as [Hx|(t & r & s2 & Hx & Hu)]; rewrite Hx in H.
  - destruct (reload_outcome e (Some l) s) as [Hy|(t & r & s2 & Hy & _ & _ & Hu)]; rewrite Hy in H; [done |].
    injection H as <- <-. split; [by eapply update_channel_sync |]. by eapply update_others in Hu as ->.
  - injection H as <- <-. split; [by apply update_channel_sync in Hu | by eapply update_others in Hu].
Qed.

Lemma recovery_sync e l s : in_sync l s -> in_sync l (snd (recovery e (Some l) s)).
Proof.
  intros H. unfold attempt_token_recovery.
  destruct (refresh_outcome e (Some l) s) as [->|(t & r & s2 & -> & Hu)].
  - destruct (reload_outcome e (Some l) s) as [->|(t & r & s2 & -> & _ & _ & Hu)]; cbn; [done |].
    by eapply update_channel_sync.
  - cbn. apply update_channel_sync in Hu. exact Hu.
Qed.

Lemma handle_sync e l remaining w s : in_sync l s -> in_sync l (snd (handle e (Some l) remaining w s)).
Proof.
  intros H. unfold handle_token_refresh. apply (recovery_sync e l) in H.
  destruct (recovery e (Some l) s) as [[m|] s']; cbn in *; [done |]. by split_ifs.
Qed.

Lemma round_sync e l w s out d w' s' : in_sync l s -> round e (Some l) w s = Some (out, d, w', s') -> in_sync l s'.
Proof.
  intros H. unfold monitor_round. destruct (token_of s) as [t|] eqn:Et; [| done].
  destruct (get_token_remaining _ _ _) as [[r|]|]; [| done | done].
  destruct (r <=? _).
  - pose proof (handle_sync e l r w s H) as Hs. destruct (handle _ _ _ _ _) as [[o w2] s2]. by intros [= <- <- <- <-].
  - destruct (_ && _); by intros [= <- <- <- <-].
Qed.

(** C30: as long as one monitor runs, the channel of the lease always carries the token the
    configuration holds: whatever the identity provider, the credentials, the disk and
    the saves do, each round that runs to its end leaves both at the new token or both at
    the old one. *)
Theorem channel_follows_token es l s :
  in_sync l s ->
  in_sync l (snd (monitor_token_expiry CLIENT_CONFIGS_PATH yaml_dump yaml_load jwt_issuer jwt_expiry es (Some l) s)).
Proof.
  intros H. unfold monitor_token_expiry. destruct (truthy _); [| done]. generalize no_warnings as w. revert s H.
  induction es as [|e es IH]; intros s H w; cbn [monitor_rounds]; [done |].
  destruct (round e (Some l) w s) as [[[[out d] w'] s']|] eqn:Er; [| done].
  eapply round_sync in Er; [| done]. specialize (IH s' Er w').
  by destruct (rounds es (Some l) w' s') as [[o2 w2] s2].
Qed.

(** ** Notices *)

(** A notice that may not be repeated before the token is recovered. *)
Definition notice_step (w : bool * bool * bool) (n : notice) : option (bool * bool * bool) :=
  let '(soon, failed, expired) := w in
  match n with
  | Recovered _ => Some (false, false, false)
  | ExpiresSoon _ => if soon then None else Some (true, failed, expired)
  | RefreshFailed _ => if failed then None else Some (soon, true, expired)
  | Expired => if expired then None else Some (soon, failed, true)
  end.

Fixpoint notices_from (w : bool * bool * bool) (ns : list notice) : option (bool * bool * bool) :=
  match ns with
  | [] => Some w
  | n :: ns' => match notice_step w n with Some w' => notices_from w' ns' | None => None end
  end.

Definition flags (w : Warn) : bool * bool * bool := (w_expiry w, w_refresh_failed w, w_token_expired w).

Lemma notices_app w a b :
  notices_from w (a ++ b) = match notices_from w a with Some w' => notices_from w' b | None => None end.
Proof. revert w. induction a as [|n a IH]; intros w; cbn; [done |]. by destruct (notice_step w n). Qed.

Lemma handle_notices e lease remaining w s out w' s' :
  handle e lease remaining w s = (out, w', s') -> expired_unrecovered w = w_token_expired w ->
  notices_from (flags w) out = Some (flags w') /\ expired_unrecovered w' = w_token_expired w'.
Proof.
  unfold handle_token_refresh. destruct (recovery e lease s) as [[m|] s1].
  - by intros [= <- <- <-].
  - unfold warn_refresh_failed. destruct (Z.leb_spec remaining 0) as [Hr|Hr], (Z.ltb_spec 0 remaining) as [Hp|Hp]; try lia;
      cbn [andb]; destruct w as [a b c d]; cbn; [destruct c | destruct b]; cbn;
      intros [= <- <- <-] Hd; cbn; by split.
Qed.

Lemma round_notices e lease w s out d w' s' :
  round e lease w s = Some (out, d, w', s') -> expired_unrecovered w = w_token_expired w ->
  notices_from (flags w) out = Some (flags w') /\ expired_unrecovered w' = w_token_expired w'.
Proof.
  unfold monitor_round. destruct (token_of s) as [t|]; [| done].
  destruct (get_token_remaining _ _ _) as [[r|]|]; [| done | done]. destruct (r <=? _).
  - destruct (handle e lease r w s) as [[o w2] s2] eqn:Eh. intros [= <- <- <- <-]. by eapply handle_notices.
  - destruct w as [a b c f]; cbn. destruct (r <=? EXPIRY_WARNING), a; cbn; intros [= <- <- <- <-] Hd; by split.
Qed.

Lemma rounds_notices es lease w s out w' s' :
  rounds es lease w s = (out, w', s') -> expired_unrecovered w = w_token_expired w ->
  notices_from (flags w) out = Some (flags w') /\ expired_unrecovered w' = w_token_expired w'.
Proof.
  revert w s out. induction es as [|e es IH]; intros w s out; cbn [monitor_rounds]; [by intros [= <- <- <-] |].
  destruct (round e lease w s) as [[[[o d] w1] s1]|] eqn:Er; [| by intros [= <- <- <-]].
  destruct (rounds es lease w1 s1) as [[o2 w2] s2] eqn:Es. intros [= <- <- <-] Hw.
  eapply round_notices in Er as [H1 H2]; [| done]. destruct (IH w1 s1 o2 Es H2) as [H3 H4].
  by rewrite notices_app, H1.
Qed.

(** The last word on the token. *)
Definition told_expired (out : list notice) (b : bool) : bool :=
  fold_left (fun b n => match n with Recovered _ => false | Expired => true | _ => b end) out b.

Lemma notices_expired out w w' : notices_from w out = Some w' -> w'.2 = told_expired out w.2.
Proof.
  revert w. induction out as [|n out IH]; intros [[a b] c]; cbn; [by intros [= <-] |].
  destruct n; [| destruct a | destruct b | destruct c]; cbn; intros H; try discriminate; by apply IH in H.
Qed.

(** Each warning is shown at most once until a token is recovered, and the flag that
    makes the shell warn about the lease it cannot release is up exactly when the last
    thing told about the token is that it has expired. *)
Theorem warnings_once es lease s out w s' :
  monitor_token_expiry CLIENT_CONFIGS_PATH yaml_dump yaml_load jwt_issuer jwt_expiry es lease s = (out, w, s') ->
  notices_from (false, false, false) out = Some (flags w) /\ expired_unrecovered w = told_expired out false.
Proof.
  unfold monitor_token_expiry. destruct (truthy _); [| by intros [= <- <- <-]]. intros H.
  apply rounds_notices in H as [H1 H2]; [| done]. split; [done |]. rewrite H2. by apply notices_expired in H1.
Qed.

(** ** What a refresh leaves on disk *)

Lemma update_keeps e lease s s' :
  update_lease_channel e lease s = Some s' -> config s' = config s /\ files s' = files s.
Proof.
  unfold update_lease_channel. destruct lease as [l|]; [| by intros [= ->]].
  destruct (endpoint _); [| done]. destruct (token_of s); [| done]. destruct (credentials_ok e); [| done].
  by intros [= <-].
Qed.

(** A token the monitor refreshed, when the save goes through, is the token the
    configuration file holds, in the file the configuration was loaded from, together
    with the refresh token now in use. *)
Theorem refreshed_token_saved e lease s s' p :
  refresh e lease s = (true, s') -> path (config s) = Some p ->
  reads_back yaml_dump yaml_load (body (config s')) -> normal (body (config s')) ->
  dict_wf (files s) -> dict_get (temp_path e) (files s) = None -> temp_path e <> p ->
  (forall c, save_fails e c = false) ->
  exists a, snd (from_file yaml_load p (files s')) = inr (mkClient a (Some p) (body (config s'))) /\
    token (body (config s')) <> None.
Proof.
  intros H Hp Hy Hn Hwf Ht Hne Hf.
  destruct (refresh_outcome e lease s) as [Hx|(t & r & s2 & Hx & Hu)]; rewrite H in Hx; [discriminate |].
  injection Hx as ->. apply update_keeps in Hu as [Hc Hfs]. revert Hy Hn. cbn. rewrite Hc. cbn.
  rewrite Hp. cbn. intros Hy Hn. unfold ConfigFiles.save. rewrite Hfs. cbn. set (b := mkBody _ _ _ _ _ _ _ _ _ _ _) in *.
  destruct (save_text_atomic (save_fails e) (temp_path e) (half_written e) p (yaml_dump (payload_of b)) (files s))
    as [_ _ _ Hd Hok]; [done | done | done |].
  specialize (Hd _ (Hok Hf)) as [_ Hd]. unfold from_file, andThen, read_text. rewrite Hd. cbn [content saved fst snd].
  rewrite Hy, payload_roundtrip by done. eexists. by split.
Qed.

(** ** Two monitors *)

(** The shell starts a monitor for every lease it tries and none of them ends with its
    lease. When the monitor of an earlier lease is the one that refreshes the token, the
    monitor of the current lease finds nothing to do and the channel in use stays at the
    old token. *)
Theorem stale_monitor_misses_lease e1 e2 old cur w1 w2 s out d w1' s1 t r :
  in_sync cur s -> old <> cur ->
  round e1 (Some old) w1 s = Some (out, d, w1', s1) -> token_of s1 = Some t -> token_of s <> Some t ->
  get_token_remaining jwt_expiry (now e2) t = Some (Some r) -> REFRESH_THRESHOLD < r ->
  exists out2 d2 w2' s2, round e2 (Some cur) w2 s1 = Some (out2, d2, w2', s2) /\
    in_sync old s2 /\ channel_of cur s2 = token_of s /\ ~ in_sync cur s2.
Proof.
  intros Hs Hne Hr Ht Hnew Hrem Hlt.
  assert (channel_of cur s1 = token_of s /\ in_sync old s1) as [Hc Ho].
  { revert Hr. unfold monitor_round. destruct (token_of s) as [t0|] eqn:Et; [| done].
    destruct (get_token_remaining _ (now e1) t0) as [[r0|]|]; [| done | done].
    destruct (r0 <=? REFRESH_THRESHOLD); [| destruct (_ && _); intros [= _ _ _ <-]; congruence].
    destruct (handle e1 (Some old) r0 w1 s) as [[o w'] s'] eqn:Eh. intros [= _ _ _ <-].
    revert Eh. unfold handle_token_refresh.
    destruct (recovery e1 (Some old) s) as [[m|] s0] eqn:Erec.
    - intros [= _ _ <-]. destruct (recovery_moves _ _ cur _ _ _ Erec Hne) as [? ->]. by rewrite Hs.
    - apply recovery_failed in Erec as ->. split_ifs; intros [= _ _ <-]; congruence. }
  unfold monitor_round. rewrite Ht, Hrem. rewrite (proj2 (Z.leb_gt r REFRESH_THRESHOLD)) by lia.
  unfold in_sync. destruct (_ && _); do 4 eexists; (split; [done |]); split_and!; congruence.
Qed.

End Recovery.

(** ** The device authorization grant *)

Section Device.

Context {T : Type} (clock : nat -> Z) (answers : nat -> poll_answer T) (deadline : Z).

Definition is_slow (a : poll_answer T) : bool :=
  match a with Refused error _ => String.eqb error "slow_down" | Granted _ => false end.

(** The answers after which the loop goes on. *)
Definition waiting (a : poll_answer T) : bool :=
  match a with
  | Refused error _ => String.eqb error "authorization_pending" || String.eqb error "slow_down"
  | Granted _ => false
  end.

(** How much longer the pauses are after the polls from [i] on. *)
Fixpoint slowed (i n : nat) : Z :=
  match n with O => 0 | S n' => (if is_slow (answers i) then 5000 else 0) + slowed (S i) n' end.

Definition pauses (interval : Z) (i n : nat) : list Z := map (fun j => interval + slowed i j) (seq 0 n).

Lemma pauses_cons interval i n :
  pauses interval i (S n) =
  interval :: pauses (interval + if is_slow (answers i) then 5000 else 0) (S i) n.
Proof.
  unfold pauses. cbn [seq map slowed]. f_equal; [lia |]. rewrite <- seq_shift, map_map. apply map_ext.
  intros j. cbn [slowed]. lia.
Qed.

(** One poll that goes on. *)
Lemma device_poll_waits fuel interval i sleeps :
  clock i < deadline -> waiting (answers i) = true ->
  device_poll (S fuel) clock answers deadline interval i sleeps =
  device_poll fuel clock answers deadline (interval + if is_slow (answers i) then 5000 else 0) (S i)
    (sleeps ++ [interval]).
Proof.
  intros Hc Hw. cbn [device_poll]. rewrite (proj2 (Z.ltb_lt _ _) Hc). unfold waiting, is_slow in *.
  destruct (answers i) as [t|error d]; [done |].
  destruct (String.eqb_spec error "authorization_pending") as [->|]; [cbn; by rewrite Z.add_0_r |].
  cbn in Hw. by rewrite Hw.
Qed.

Lemma device_poll_stops fuel interval i sleeps :
  waiting (answers i) = false ->
  snd (device_poll (S fuel) clock answers deadline interval i sleeps) <> StillPolling /\
  (forall t out, device_poll (S fuel) clock answers deadline interval i sleeps = (out, Tokens t) <->
     clock i < deadline /\ answers i = Granted t /\ out = sleeps ++ [interval]).
Proof.
  intros Hw. cbn [device_poll]. destruct (Z.ltb_spec (clock i) deadline) as [Hc|Hc].
  - unfold waiting in Hw. destruct (answers i) as [t|error d].
    + split; [done |]. intros t' out. split; [by intros [= <- <-] | by intros (_ & [= <-] & ->)].
    + apply orb_false_iff in Hw as [-> ->]. split_ifs; (split; [done |]); intros t' out; (split; [done |]); by intros (_ & ? & _).
  - split; [done |]. intros t out. split; [done |]. lia.
Qed.

Lemma device_poll_tokens fuel interval i sleeps t out :
  device_poll fuel clock answers deadline interval i sleeps = (out, Tokens t) <->
  exists k, (k < fuel)%nat /\ answers (i + k)%nat = Granted t /\
    (forall j, (j < k)%nat -> waiting (answers (i + j)%nat) = true) /\
    (forall j, (j <= k)%nat -> clock (i + j)%nat < deadline) /\
    out = sleeps ++ pauses interval i (S k).
Proof.
  revert interval i sleeps. induction fuel as [|fuel IH]; intros interval i sleeps.
  { split; [done |]. intros (k & Hk & _). lia. }
  destruct (waiting (answers i)) eqn:Hw.
  - destruct (Z.ltb_spec (clock i) deadline) as [Hc|Hc].
    + rewrite device_poll_waits, IH by done. split.
      * intros (k & Hk & Ha & Hj & Hd & ->). exists (S k). rewrite Nat.add_succ_r. split_and!; [lia | done | | |].
        { intros [|j] Hj'; [by rewrite Nat.add_0_r |]. rewrite Nat.add_succ_r. apply (Hj j). lia. }
        { intros [|j] Hj'; [by rewrite Nat.add_0_r |]. rewrite Nat.add_succ_r. apply (Hd j). lia. }
        { by rewrite (pauses_cons interval i (S k)), <- app_assoc. }
      * intros ([|k] & Hk & Ha & Hj & Hd & ->).
        { rewrite Nat.add_0_r in Ha. by rewrite Ha in Hw. }
        exists k. rewrite Nat.add_succ_r in Ha. split_and!; [lia | done | | |].
        { intros j Hj'. specialize (Hj (S j)). rewrite Nat.add_succ_r in Hj. apply Hj. lia. }
        { intros j Hj'. specialize (Hd (S j)). rewrite Nat.add_succ_r in Hd. apply Hd. lia. }
        { by rewrite (pauses_cons interval i (S k)), <- app_assoc. }
    + cbn [device_poll]. rewrite (proj2 (Z.ltb_ge _ _) Hc). split; [done |].
      intros (k & _ & _ & _ & Hd & _). specialize (Hd 0%nat). rewrite Nat.add_0_r in Hd. lia.
  - rewrite (proj2 (device_poll_stops fuel interval i sleeps Hw) t out). split.
    + intros (Hc & Ha & ->). exists 0%nat. rewrite Nat.add_0_r. split_and!; [lia | done | lia | |].
      { intros j Hj. by replace (i + j)%nat with i by lia. }
      { unfold pauses. cbn. by rewrite Z.add_0_r. }
    + intros ([|k] & _ & Ha & Hj & Hd & ->).
      * rewrite Nat.add_0_r in Ha. split_and!; [by specialize (Hd 0%nat ltac:(lia)); rewrite Nat.add_0_r in Hd | done |].
        unfold pauses. cbn. by rewrite Z.add_0_r.
      * specialize (Hj 0%nat ltac:(lia)). rewrite Nat.add_0_r in Hj. congruence.
Qed.

Lemma device_poll_ends fuel interval i sleeps d :
  0 < d -> (forall j, clock j + d <= clock (S j)) -> deadline <= clock i + Z.of_nat fuel * d ->
  snd (device_poll (S fuel) clock answers deadline interval i sleeps) <> StillPolling.
Proof.
  intros Hd Hc. revert interval i sleeps. induction fuel as [|fuel IH]; intros interval i sleeps Hf.
  - cbn [device_poll]. by rewrite (proj2 (Z.ltb_ge _ _)) by lia.
  - destruct (waiting (answers i)) eqn:Hw; [| by apply device_poll_stops].
    destruct (Z.ltb_spec (clock i) deadline) as [Hlt|Hge].
    + rewrite device_poll_waits by done. apply IH. specialize (Hc i). lia.
    + cbn [device_poll]. by rewrite (proj2 (Z.ltb_ge _ _) Hge).
Qed.

End Device.

(** The device login gives tokens exactly when, at some poll before the code expires,
    the provider grants them and every earlier poll was answered with "pending" or "slow
    down"; each "slow down" makes all later pauses five seconds longer; and when every
    poll takes some time the login ends. *)
Theorem device_grant_exact {T} (clock : nat -> Z) (answers : nat -> poll_answer T) ep code interval expires_in
    start fuel d :
  truthy ep = true -> 0 < d -> (forall j, clock j + d <= clock (S j)) ->
  start + default 600000 expires_in <= clock 0%nat + Z.of_nat fuel * d ->
  let r := device_authorization_grant (S fuel) clock answers (Some ep) (Some code) interval expires_in start in
  snd r <> StillPolling /\
  forall t sleeps, r = (sleeps, Tokens t) <->
    exists k, (k < S fuel)%nat /\ answers k = Granted t /\
      (forall j, (j < k)%nat -> waiting (answers j) = true) /\
      (forall j, (j <= k)%nat -> clock j < start + default 600000 expires_in) /\
      sleeps = pauses answers (default 5000 interval) 0 (S k).
Proof.
  intros He Hd Hc Hf. unfold device_authorization_grant. rewrite He. cbn [negb]. cbv zeta. split.
  - by eapply device_poll_ends.
  - intros t sleeps. by rewrite device_poll_tokens.
Qed.

(** ** Witnesses *)

(** A provider that gives ["t1"] for any refresh token; ["t0"] expires at 100 s. *)
Definition live_body : ClientBody :=
  body (with_credentials (Some "t0"%string) (Some "r0"%string) (mkClient "lab" None demo_body)).
Definition live_dump (p : ClientPayload) : string := default EmptyString (token (p_body p)).
Definition live_load (s : string) : option ClientPayload :=
  Some (payload_of (body (with_credentials (Some s) (Some "r0"%string) (mkClient "lab" None demo_body)))).
Definition live_issuer (t : string) : option (option string) := Some (Some "dex"%string).
Definition live_expiry (t : string) : option (option Z) :=
  Some (Some (if String.eqb t "t0" then 100 else 9000)).
Definition live_env (ms : Z) : Env :=
  mkEnv (fun _ => Some (mkGrant (Some "t1"%string) None)) true no_failure "/c/.tmp" "" ms.
Definition live_state : State :=
  mkState (mkClient "lab" (Some "/c/lab.yaml"%string) live_body) [(1%nat, "t0"%string); (2%nat, "t0"%string)]
    [("/c/lab.yaml"%string, mkFile "t0" 384)].

Lemma channel_follows_token_witness :
  channel_of 1 (snd (monitor_token_expiry "/c" live_dump live_load live_issuer live_expiry
    [live_env 50000; live_env 60000] (Some 1%nat) live_state)) = Some "t1"%string.
Proof.
  assert (in_sync 1 live_state) as H by reflexivity.
  apply (channel_follows_token "/c" live_dump live_load live_issuer live_expiry
           [live_env 50000; live_env 60000]) in H.
  unfold in_sync in H. rewrite H. vm_compute. reflexivity.
Defined.

Lemma warnings_once_witness :
  exists out w s', monitor_token_expiry "/c" live_dump live_load live_issuer live_expiry
    [mkEnv (fun _ => None) true no_failure "/c/.tmp" "" 99000; mkEnv (fun _ => None) true no_failure "/c/.tmp" "" 101000;
     mkEnv (fun _ => None) true no_failure "/c/.tmp" "" 102000] (Some 1%nat) live_state = (out, w, s') /\
    out = [RefreshFailed "1s"; Expired] /\ expired_unrecovered w = true.
Proof.
  do 3 eexists. split; [vm_compute; reflexivity |]. split; [reflexivity |].
  match goal with |- expired_unrecovered ?w = true =>
    rewrite (proj2 (warnings_once "/c" live_dump live_load live_issuer live_expiry
      [mkEnv (fun _ => None) true no_failure "/c/.tmp" "" 99000; mkEnv (fun _ => None) true no_failure "/c/.tmp" "" 101000;
       mkEnv (fun _ => None) true no_failure "/c/.tmp" "" 102000] (Some 1%nat) live_state
      [RefreshFailed "1s"; Expired] w live_state eq_refl)) end.
  reflexivity.
Defined.

Lemma refreshed_token_saved_witness :
  exists a b, snd (from_file live_load "/c/lab.yaml"
    (files (snd (try_refresh_token "/c" live_dump live_issuer (live_env 50000) (Some 1%nat) live_state)))) =
    inr (mkClient a (Some "/c/lab.yaml"%string) b) /\ token b = Some "t1"%string.
Proof.
  destruct (refreshed_token_saved "/c" live_dump live_load live_issuer (live_env 50000) (Some 1%nat) live_state
              (snd (try_refresh_token "/c" live_dump live_issuer (live_env 50000) (Some 1%nat) live_state))
              "/c/lab.yaml") as (a & H & _);
    [reflexivity | reflexivity | reflexivity
    | split; [reflexivity | intros Hx; vm_compute in Hx; discriminate Hx]
    | apply NoDup_singleton | reflexivity | discriminate | reflexivity |].
  exists a. eexists. split; [exact H | reflexivity].
Defined.

Lemma stale_monitor_misses_lease_witness :
  exists s1 s2 out d w out2 d2 w2,
    monitor_round "/c" live_dump live_load live_issuer live_expiry (live_env 50000) (Some 1%nat) no_warnings
      live_state = Some (out, d, w, s1) /\
    monitor_round "/c" live_dump live_load live_issuer live_expiry (live_env 50000) (Some 2%nat) no_warnings
      s1 = Some (out2, d2, w2, s2) /\ channel_of 2 s2 = Some "t0"%string /\ token_of s2 = Some "t1"%string.
Proof.
  destruct (monitor_round "/c" live_dump live_load live_issuer live_expiry (live_env 50000) (Some 1%nat)
              no_warnings live_state) as [[[[out d] w] s1]|] eqn:E; [| vm_compute in E; discriminate E].
  assert (s1 = snd (try_refresh_token "/c" live_dump live_issuer (live_env 50000) (Some 1%nat) live_state)) as Hs.
  { vm_compute in E. injection E as <- <- <- <-. reflexivity. }
  destruct (stale_monitor_misses_lease "/c" live_dump live_load live_issuer live_expiry (live_env 50000)
              (live_env 50000) 1 2 no_warnings no_warnings live_state out d w s1 "t1" 8950000)
    as (out2 & d2 & w2 & s2 & H1 & _ & H2 & _);
    [reflexivity | discriminate | exact E | rewrite Hs; reflexivity | discriminate | reflexivity | reflexivity |].
  exists s1, s2, out, d, w, out2, d2, w2. split; [reflexivity |]. split; [exact H1 |]. split; [exact H2 |].
  rewrite Hs in H1. vm_compute in H1. injection H1 as _ _ _ <-. reflexivity.
Defined.

Lemma device_grant_exact_witness :
  device_authorization_grant 101 (fun i => 1000 * Z.of_nat i)
    (fun i => match i with 0%nat => Refused "slow_down" "" | 1%nat => Refused "authorization_pending" ""
              | _ => Granted 7 end)
    (Some "/device"%string) (Some "code"%string) None (Some 100000) 0 = ([5000; 10000; 10000], Tokens 7).
Proof.
  apply (proj2 (device_grant_exact (fun i => 1000 * Z.of_nat i)
    (fun i => match i with 0%nat => Refused "slow_down" "" | 1%nat => Refused "authorization_pending" ""
              | _ => Granted 7 end) "/device" "code" None (Some 100000) 0 100 1000 eq_refl eq_refl
    ltac:(intros j; cbn beta; lia) ltac:(change (100000 <= 1000 * 0 + 100 * 1000); lia))).
  exists 2%nat. split; [lia |]. split; [reflexivity |]. split; [| split; [| reflexivity]].
  - intros [|[|j]] Hj; [reflexivity | reflexivity | lia].
  - intros j Hj. change (1000 * Z.of_nat j < 100000). lia.
Defined.
