(* ===== verification/Shell.v ===== *)
(** * The shell command

    [jumpstarter_cli/shell.py]: the session of [jmp shell] from the beforeLease hook over
    the shell itself to the afterLease hook, the loop that takes a new lease when the
    exporter cannot be reached, and the choice of a lease; [lease_async] of
    [config/client.py] for the name and the timeouts of a lease; [DirectLease].

    What the code awaits is a set of requests, each made at most once in a session; the
    world answers a request with a result and with what can be seen right after it (the
    monitor's view of the exporter and the flags of the lease), since nothing else runs
    until the next request. Exceptions are those of [CliErrors]; a task group wraps the
    exception of its body. *)

From stdpp Require Import base list strings pretty.
From Stdlib Require Import ZArith Lia.
From S2P Require Import Prelude PyText Enums ExporterState CliErrors ClientCore.
From S2P Require GrpcClient.

Open Scope Z_scope.
Open Scope list_scope.

(** ** Exceptions *)

Definition jumpstarter_error (c : exc_class) (msg : string) : exc :=
  Leaf [c; CJumpstarterException; CException] msg NoAttr NoAttr.

Definition ExporterUnreachableError : string -> exc := jumpstarter_error CExporterUnreachableError.
Definition ExporterOfflineError : string -> exc := jumpstarter_error CExporterOfflineError.
Definition Cancelled : exc := Leaf [CCancelled] "" NoAttr NoAttr.

Definition is_cancelled (e : exc) : bool := isinstance e CCancelled.

(** [except Exception]: a group of exceptions is an exception. *)
Definition is_exception (e : exc) : bool :=
  match e with Leaf _ _ _ _ => isinstance e CException | Group _ _ => true end.

(** What leaves a task group when its body raises. *)
Definition in_task_group {A} (r : exc + A) : exc + A :=
  match r with
  | inl e => inl (if is_cancelled e then e else Group "unhandled errors in a TaskGroup" [e])
  | inr a => inr a
  end.

(** ** Requests *)

Inductive op :=
| Serve
| ConnectClient
| GetStatus
| WaitReady
| FetchMotd
| RunShell
| Probe
| EndSession
| WaitEnd
| Echo (text : string).

#[export] Instance op_eq_dec : EqDecision op.
Proof. solve_decision. Defined.

Definition reply (o : op) : Type :=
  match o with
  | GetStatus | WaitReady | Probe | WaitEnd => option ExporterStatus
  | FetchMotd => option string
  | RunShell => Z
  | EndSession => bool
  | Serve | ConnectClient | Echo _ => unit
  end.

(** What can be seen between two requests. *)
Record Obs := mkObs {
  connection_lost : bool;
  status_message : string;
  current_status : option ExporterStatus;
  lease_ended : bool;
  cancel_called : bool;
  get_status_unsupported : bool
}.

(** The lease of a session: [DirectLease] is never released and has no task groups. *)
Record LeaseView := mkLeaseView {
  l_name : string;
  l_exporter_name : string;
  l_release : bool;
  l_retry_timeout : Z;
  l_direct : bool
}.

Definition direct_lease : LeaseView := mkLeaseView "direct" "direct" false 0 true.

(** ** A session *)

Definition M (A : Type) : Type := list op -> list op * (exc + A).

Definition ret {A} (a : A) : M A := fun tr => (tr, inr a).
Definition raise {A} (e : exc) : M A := fun tr => (tr, inl e).
Definition bind {A B} (m : M A) (g : A -> M B) : M B := fun tr =>
  match m tr with
  | (tr', inl e) => (tr', inl e)
  | (tr', inr a) => g a tr'
  end.

Declare Scope shell_scope.
Delimit Scope shell_scope with shell.
Notation "x <- m ; g" := (bind m (fun x => g))
  (at level 100, m at next level, g at level 200, right associativity, only parsing) : shell_scope.
Notation "m ;; g" := (bind m (fun _ => g))
  (at level 100, g at level 200, right associativity, only parsing) : shell_scope.
Open Scope shell_scope.

(** [async with] a task group around [m], when there is one. *)
Definition scoped {A} (group : bool) (m : M A) : M A := fun tr =>
  let '(tr', r) := m tr in (tr', if group then in_task_group r else r).

Definition or_reason (message default_ : string) : string := if truthy message then message else default_.

Definition HOOK_WARNING_PREFIX : string := "[HOOK_WARNING] ".

Section Session.

Context (world : forall o : op, (exc + reply o) * Obs).

(** Make a request: what it gives, or the exception it raises, and what is seen then. *)
Definition perform (o : op) : M ((exc + reply o) * Obs) := fun tr => (tr ++ [o], inr (world o)).

(** A request whose exception is not caught. *)
Definition await (o : op) : M (reply o * Obs) :=
  r <- perform o;
  match r with
  | (inl e, _) => raise e
  | (inr a, obs) => ret (a, obs)
  end.

Definition echo (text : string) : M unit := fun tr => (tr ++ [Echo text], inr tt).

(** The warning a hook left in the status message. *)
Definition echo_warning (message : string) : M unit :=
  if Str.startswith HOOK_WARNING_PREFIX message
  then echo ("Warning: " ++ String.substring (String.length HOOK_WARNING_PREFIX)
               (String.length message - String.length HOOK_WARNING_PREFIX) message)%string
  else ret tt.

(** The first status: the handler is for [AioRpcError] with two codes. *)
Definition initial_status (l : LeaseView) : M unit :=
  r <- perform GetStatus;
  match r with
  | (inr _, _) => ret tt
  | (inl e, _) =>
      match e with
      | Leaf _ _ (Returns code) _ =>
          if isinstance e CAioRpcError &&
             (String.eqb code "UNAVAILABLE" || String.eqb code "DEADLINE_EXCEEDED")
          then raise (ExporterUnreachableError
                 ("Exporter " ++ l_exporter_name l ++ " did not respond to initial status check"))
          else raise e
      | _ => raise e
      end
  end.

(** The motd: its failure is ignored. *)
Definition fetch_motd (command : bool) : M (option string) :=
  if command then ret None
  else
    r <- perform FetchMotd;
    match r with
    | (inr m, _) => ret m
    | (inl e, _) => if is_exception e then ret None else raise e
    end.

(** Whether the afterLease hook is asked for at all. *)
Definition may_end_session (l : LeaseView) (o : Obs) : bool :=
  l_release l && truthy (l_name l) && negb (lease_ended o) && negb (cancel_called o) &&
  negb (get_status_unsupported o).

(** The probe after the shell. *)
Inductive probe_result := LeaseOver | Lost | Alive.

Definition probe (o : Obs) : M probe_result :=
  if connection_lost o then ret Lost
  else
    r <- perform Probe;
    match r with
    | (inr None, _) => ret Lost
    | (inr (Some s), o') =>
        if lease_ended o' then ret LeaseOver
        else if bool_decide (s ∈ [LEASE_READY; AFTER_LEASE_HOOK])
        then ret (if connection_lost o' then Lost else Alive) else ret Lost
    | (inl e, o') =>
        if is_exception e then ret (if lease_ended o' then LeaseOver else Lost) else raise e
    end.

(** [except ExporterOfflineError: raise] and [except Exception]: a warning. *)
Definition swallow (m : M unit) : M unit := fun tr =>
  match m tr with
  | (tr', inl e) =>
      if isinstance e CExporterOfflineError then (tr', inl e)
      else if is_exception e then (tr', inr tt) else (tr', inl e)
  | r => r
  end.

(** The end of the afterLease hook. *)
Definition judge_end (result : option ExporterStatus) (o : Obs) : M unit :=
  if bool_decide (result = Some AVAILABLE) then echo_warning (status_message o)
  else if bool_decide (result = Some AFTER_LEASE_HOOK_FAILED)
  then raise (ExporterOfflineError (or_reason (status_message o) "afterLease hook failed"))
  else if connection_lost o then
    if bool_decide (current_status o = Some AFTER_LEASE_HOOK) ||
       bool_decide (current_status o = Some AFTER_LEASE_HOOK_FAILED)
    then raise (ExporterOfflineError (or_reason (status_message o) "afterLease hook failed (connection lost)"))
    else ret tt
  else ret tt.

Definition end_session : M unit :=
  swallow (
    r <- await EndSession;
    if fst r : bool then
      w <- await WaitEnd;
      judge_end (fst w) (snd w)
    else ret tt).

(** From the end of the shell on. *)
Definition after_shell (l : LeaseView) (exit_code : Z) (o : Obs) : M Z :=
  if may_end_session l o then
    p <- probe o;
    match p with
    | LeaseOver => ret exit_code
    | Lost => ret exit_code
    | Alive => end_session;; ret exit_code
    end
  else ret exit_code.

(** From the log stream and the monitor on. *)
Definition monitored (l : LeaseView) (command : bool) : M Z :=
  w <- await WaitReady;
  let '(result, o) := w in
  if bool_decide (result = Some BEFORE_LEASE_HOOK_FAILED)
  then raise (ExporterOfflineError (or_reason (status_message o) "beforeLease hook failed"))
  else
    match result with
    | None =>
        if connection_lost o then ret 0
        else raise (ExporterOfflineError (or_reason (status_message o) "Timeout waiting for beforeLease hook"))
    | Some _ =>
        echo_warning (status_message o);;
        fetch_motd command;;
        s <- await RunShell;
        after_shell l (fst s) (snd s)
    end.

(** [_run_shell_with_lease_async] *)
Definition run_shell_with_lease (l : LeaseView) (command : bool) : M Z :=
  await Serve;;
  scoped (negb (l_direct l)) (
    scoped (negb (l_direct l)) (
      await ConnectClient;;
      initial_status l;;
      scoped true (scoped true (monitored l command)))).

End Session.

(** ** The loop over leases *)

(** One attempt: the lease that was acquired, how the session ended, the flags of the
    lease then, the two readings of the clock and whether the token monitor has given up. *)
Record Attempt := mkAttempt {
  acquired : exc + LeaseView;
  outcome : exc + Z;
  a_ended : bool;
  a_transferred : bool;
  t_set : Z;
  t_check : Z;
  token_lost : bool
}.

Inductive event :=
| Acquire (i : nat)
| StartTokenMonitor (i : nat)
| LeaveLease (i : nat)
| WarnExpiredToken (i : nat).

#[export] Instance event_eq_dec : EqDecision event.
Proof. solve_decision. Defined.

(** The unreachable exporter in what a session raised, or the exception that goes on. *)
Definition unreachable_of (e : exc) : option exc :=
  match e with
  | Group _ es => find_exception_in_group es CExporterUnreachableError
  | Leaf _ _ _ _ => if isinstance e CExporterUnreachableError then Some e else None
  end.

(** [f"{seconds:.0f}"]: halves go to the even neighbour. *)
Definition round_seconds (ms : Z) : Z :=
  let q := ms / 1000 in
  let r := ms mod 1000 in
  if r <? 500 then q else if 500 <? r then q + 1 else if Z.even q then q else q + 1.

Inductive verdict := Retry (deadline : Z) | Done (r : exc + Z).

Definition TRANSFERRED : string :=
  "Lease has been transferred to another client. Session is no longer valid.".

(** What follows a session in the body of the loop; the exit code is 0 until a session
    has returned one. *)
Definition after_session (a : Attempt) (l : LeaseView) (deadline : option Z) : verdict :=
  match outcome a with
  | inr code => Done (inr code)
  | inl e =>
      match unreachable_of e with
      | None => Done (inl e)
      | Some _ =>
          if a_ended a then Done (inr 0)
          else if a_transferred a then Done (inl (ExporterOfflineError TRANSFERRED))
          else
            let d := match deadline with Some d => d | None => t_set a + l_retry_timeout l end in
            if d <=? t_check a
            then Done (inl (ExporterUnreachableError
                   ("Exporter " ++ l_exporter_name l ++ " unreachable after " ++
                    pretty (round_seconds (l_retry_timeout l)) ++ "s of retrying")))
            else Retry d
      end
  end.

(** The result, the events and the last lease used; the inner [None] is fuel that ran
    out. *)
Fixpoint attempts (fuel : nat) (env : nat -> Attempt) (i : nat) (deadline : option Z) (used : option nat)
    : list event * option nat * option (exc + Z) :=
  match fuel with
  | O => ([], used, None)
  | S n =>
      let a := env i in
      match acquired a with
      | inl e => ([], used, Some (inl e))
      | inr l =>
          match after_session a l deadline with
          | Retry d =>
              let '(tr, u, r) := attempts n env (S i) (Some d) (Some i) in
              ([Acquire i; StartTokenMonitor i; LeaveLease i] ++ tr, u, r)
          | Done r =>
              let warn := match outcome a with
                          | inr _ => l_release l && truthy (l_name l) && token_lost a
                          | inl _ => false
                          end in
              ([Acquire i; StartTokenMonitor i] ++ (if warn then [WarnExpiredToken i] else []) ++ [LeaveLease i],
               Some i, Some r)
          end
      end
  end.

(** The handlers around the portal: [used] is [None], or the flags of the last lease. *)
Definition settle (used : option (bool * bool)) (r : exc + Z) : exc + Z :=
  match r with
  | inr code => inr code
  | inl (Group m es) =>
      match List.find (fun e => isinstance e CTimeoutError) es with
      | Some e => inl e
      | None =>
          match find_exception_in_group es CExporterUnreachableError with
          | Some e => inl e
          | None =>
              match find_exception_in_group es CExporterOfflineError with
              | Some e => inl e
              | None =>
                  match find_exception_in_group es CLeaseError with
                  | Some e => inl e
                  | None =>
                      match used with
                      | Some (true, _) => inr 0
                      | Some (false, true) => inl (ExporterOfflineError TRANSFERRED)
                      | Some (false, false) => inl (ExporterOfflineError "Connection to exporter lost")
                      | None => inl (Group m es)
                      end
                  end
              end
          end
      end
  | inl e => if is_cancelled e then inr 2 else inl e
  end.

(** [_shell_with_signal_handling]. [token_check] is what reading the remaining time of the
    token gives before the start, [remaining_at_end] the time left when the shell is
    cancelled; there is none without a token that expires. *)
Definition shell_with_signal_handling (fuel : nat) (token_check : exc + option Z) (env : nat -> Attempt)
    (flags_at_end : nat -> bool * bool) (remaining_at_end : option Z) : list event * option (exc + Z) :=
  match token_check with
  | inl e => ([], Some (inl e))
  | inr remaining =>
      if match remaining with Some ms => ms <=? 0 | None => false end
      then ([], Some (inl (Leaf [CConnectionError; CJumpstarterException; CException] "token is expired"
                             NoAttr NoAttr)))
      else
        let '(tr, used, r) := attempts fuel env 0 None None in
        match r with
        | None => (tr, None)
        | Some r =>
            let r := in_task_group r in
            let warn := match r, used, remaining_at_end with
                        | inl e, Some i, Some ms =>
                            if is_cancelled e && (ms <=? 0) then [WarnExpiredToken i] else []
                        | _, _, _ => []
                        end in
            (tr ++ warn, Some (in_task_group (settle (option_map flags_at_end used) r)))
        end
  end.

(** [_shell_direct_async]: the exception passes the handlers, then the task group of the
    signal handler. *)
Definition shell_direct (world : forall o : op, (exc + reply o) * Obs) (command : bool) : exc + Z :=
  in_task_group
    match snd (run_shell_with_lease world direct_lease command []) with
    | inr code => inr code
    | inl e =>
        if isinstance e CAioRpcError then
          match e with
          | Leaf _ _ (Returns "UNAUTHENTICATED") _ =>
              inl (Leaf [CClickException; CException] "Authentication failed: invalid or missing passphrase" NoAttr NoAttr)
          | _ => inl e
          end
        else if is_cancelled e then inr 2 else inl e
    end.

(** ** Choosing a lease *)

(** [bool(s)] of an optional text. *)
Definition set_text (s : option string) : bool := truthy (default EmptyString s).

Section Choice.

Context (strftime : Z -> string) (shown : GrpcClient.Lease -> string).

(** [_format_lease_display]; the selector is shown by [shown]. *)
Definition format_lease_display (l : GrpcClient.Lease) : string :=
  let parts := if truthy (GrpcClient.exporter l) then [("exporter=" ++ GrpcClient.exporter l)%string] else [] in
  let parts := if truthy (shown l) then parts ++ [("selector=" ++ shown l)%string] else parts in
  let parts :=
    match GrpcClient.effective_end_time l with
    | Some t => parts ++ [("expires " ++ strftime t)%string]
    | None =>
        match GrpcClient.effective_begin_time l with
        | Some b => if GrpcClient.duration l =? 0 then parts
                    else parts ++ [("expires " ++ strftime (b + GrpcClient.duration l))%string]
        | None => parts
        end
    end in
  Str.join ", " parts.

Definition NL : string := String (Ascii.ascii_of_nat 10) EmptyString.

(** The error for several leases without a terminal. *)
Definition several_leases (ls : list GrpcClient.Lease) : string :=
  ("multiple active leases found:" ++ NL ++ "  " ++
   Str.join (NL ++ "  ")
     (map (fun l => let info := format_lease_display l in
                    if truthy info then (GrpcClient.name l ++ " (" ++ info ++ ")")%string
                    else GrpcClient.name l) ls) ++
   NL ++ "Use --lease to specify one, or run interactively to select.")%string.

(** [chosen] is what the prompt gives; it asks again until it is in range. *)
Definition choose_lease (client_name : string) (isatty : bool) (chosen : nat) (found : list GrpcClient.Lease)
    : GrpcClient.exn + string :=
  match List.filter (fun l => String.eqb (GrpcClient.client l) client_name) found with
  | [] => inl (GrpcClient.UsageError
      "no active leases found. Use --selector/-l or --name/-n to create one, or create a lease with 'jmp create lease'.")
  | [l] => inr (GrpcClient.name l)
  | ls =>
      if isatty
      then match nth_error ls (chosen - 1) with
           | Some l => inr (GrpcClient.name l)
           | None => inl (GrpcClient.UsageError "not in range")
           end
      else inl (GrpcClient.UsageError (several_leases ls))
  end.

(** [_resolve_lease_from_active_async] over the requests of [GrpcClient]. *)
Definition resolve_lease_from_active stub to_timedelta to_datetime (n : nat) (c : GrpcClient.Config)
    (isatty : bool) (chosen : nat) : GrpcClient.M string :=
  GrpcClient.bind (GrpcClient.list_leases stub to_timedelta to_datetime n c None true 100 None)
    (fun found => GrpcClient.lift
       (choose_lease (GrpcClient.c_name c) isatty chosen (GrpcClient.leases found))).

End Choice.

(** What [jmp shell] does with its options; the environment variable is [JMP_LEASE]. *)
Inductive command :=
| Direct (address : string)
| BadUsage
| OnClient (lease_name : option string)
| AskForLease
| LocalExporter.

Inductive config_kind := NoConfig | ClientConfigKind | ExporterConfigKind.

Definition shell (tls_grpc_address : option string) (config : config_kind)
    (lease_name selector exporter_name env_lease : option string) : command :=
  match tls_grpc_address with
  | Some a => Direct a
  | None =>
      match config with
      | NoConfig => BadUsage
      | ClientConfigKind =>
          let has_existing_lease := set_text lease_name || set_text env_lease in
          if negb (set_text selector) && negb (set_text exporter_name) && negb has_existing_lease
          then AskForLease else OnClient lease_name
      | ExporterConfigKind => LocalExporter
      end
  end.

(** ** The lease of a client configuration *)

(** What [lease_async] passes to [Lease]; timeouts in milliseconds, the one of the
    acquisition in whole seconds. *)
Record LeaseArgs := mkLeaseArgs {
  arg_name : string;
  arg_release : bool;
  arg_acquisition_timeout : Z;
  arg_retry_timeout : Z;
  arg_dial_timeout : Z
}.

(** [float(os.environ.get(variable, configured))]; [None] is a [ValueError]. *)
Definition timeout_of (py_float : string -> option Z) (given : option Z) (variable : option string)
    (configured : Z) : option Z :=
  match given with
  | Some ms => Some ms
  | None => match variable with Some v => py_float v | None => Some configured end
  end.

Definition lease_async (py_float : string -> option Z) (lease_name env_lease : option string)
    (acquisition_timeout retry_timeout dial_timeout : option Z) (env_retry env_dial : option string)
    (configured_acquisition configured_retry configured_dial : Z) : option LeaseArgs :=
  let name := if set_text lease_name then default EmptyString lease_name else default EmptyString env_lease in
  match timeout_of py_float retry_timeout env_retry configured_retry,
        timeout_of py_float dial_timeout env_dial configured_dial with
  | Some r, Some d =>
      Some (mkLeaseArgs name (String.eqb name EmptyString)
              (match acquisition_timeout with Some ms => Z.quot ms 1000 | None => configured_acquisition end) r d)
  | _, _ => None
  end.

(** * Theorems *)

(** ** A session *)

Section SessionFacts.

Context (world : forall o : op, (exc + reply o) * Obs).

(** Whether the session gets to the shell, and what the shell gives. *)
Definition shell_from (command : bool) : option (Z * Obs) :=
  match fst (world WaitReady) with
  | inr (Some s) =>
      if bool_decide (s = BEFORE_LEASE_HOOK_FAILED) then None
      else if negb command && match fst (world FetchMotd) with inl e => negb (is_exception e) | inr _ => false end
      then None
      else match world RunShell with (inr code, o) => Some (code, o) | _ => None end
  | _ => None
  end.

Definition shell_result (command : bool) : option (Z * Obs) :=
  match fst (world Serve), fst (world ConnectClient), fst (world GetStatus) with
  | inr _, inr _, inr _ => shell_from command
  | _, _, _ => None
  end.

(** When the afterLease hook is asked for after the shell, at whose end [o] is seen. *)
Definition asks_for_hook (l : LeaseView) (o : Obs) : Prop :=
  (l_release l = true /\ l_name l <> ""%string /\ lease_ended o = false /\ cancel_called o = false /\
   get_status_unsupported o = false) /\
  connection_lost o = false /\
  exists s o', world Probe = (inr (Some s), o') /\ lease_ended o' = false /\
    s ∈ [LEASE_READY; AFTER_LEASE_HOOK] /\ connection_lost o' = false.

Lemma echo_warning_runs msg tr : exists ops, echo_warning msg tr = (tr ++ ops, inr tt) /\
  (forall o, o ∈ ops -> exists t, o = Echo t).
Proof.
  unfold echo_warning. destruct (Str.startswith _ _).
  - eexists. split; [done |]. intros o Ho. apply list_elem_of_singleton in Ho as ->. eauto.
  - exists []. split; [by rewrite app_nil_r |]. intros o Ho. by apply elem_of_nil in Ho.
Qed.

Lemma probe_alive o tr : exists ops r, probe world o tr = (tr ++ ops, r) /\ (EndSession ∉ ops) /\
  (r = inr Alive <-> connection_lost o = false /\
     exists s o', world Probe = (inr (Some s), o') /\ lease_ended o' = false /\
       s ∈ [LEASE_READY; AFTER_LEASE_HOOK] /\ connection_lost o' = false).
Proof.
  unfold probe. destruct (connection_lost o).
  { exists [], (inr Lost). rewrite app_nil_r. split_and!; [done | by intros ?%elem_of_nil | split; [done | by intros [? _]]]. }
  unfold bind, perform. assert (EndSession ∉ [Probe]) as Hn by (rewrite list_elem_of_singleton; done).
  destruct (world Probe) as [[e|[s|]] o'] eqn:Ep; exists [Probe].
  - destruct (is_exception e); [| exists (inl e)]; [destruct (lease_ended o'); eexists |];
      (split_and!; [done | done | split; [done |]; intros (_ & s & o2 & [=] & _)]).
  - destruct (lease_ended o') eqn:El; [eexists; split_and!; [done | done | split; [done |]];
      intros (_ & s2 & o2 & [= <- <-] & ? & _); congruence |].
    case_bool_decide as Hs; [destruct (connection_lost o') eqn:Ec |]; eexists; (split_and!; [done | done | split]); try done.
    + intros (_ & s2 & o2 & [= <- <-] & _ & _ & ?). congruence.
    + intros _. split; [done |]. eauto 10.
    + intros (_ & s2 & o2 & [= <- <-] & _ & ? & _). done.
  - eexists. split_and!; [done | done | split; [done |]]. intros (_ & s & o2 & [=] & _).
Qed.

Lemma end_session_asks tr : exists ops r, end_session world tr = (tr ++ EndSession :: ops, r).
Proof.
  unfold end_session, swallow, await, bind, perform.
  destruct (world EndSession) as [[e|b] o]; cbn.
  { destruct (isinstance e _); [| destruct (is_exception e)]; exists []; by eexists. }
  destruct b; cbn; [| exists []; by eexists].
  destruct (world WaitEnd) as [[e|r] o2]; cbn.
  { rewrite <- app_assoc. destruct (isinstance e _); [| destruct (is_exception e)]; exists [WaitEnd]; by eexists. }
  rewrite <- app_assoc. unfold judge_end. case_bool_decide.
  - destruct (echo_warning_runs (status_message o2) (tr ++ [EndSession] ++ [WaitEnd])) as (ops & -> & _).
    exists (WaitEnd :: ops), (inr tt). by rewrite <- app_assoc.
  - case_bool_decide; [| destruct (connection_lost o2); [destruct (_ || _) |]]; unfold raise, ret;
      try (destruct (isinstance _ _); [| destruct (is_exception _)]); exists [WaitEnd]; by eexists.
Qed.

Lemma may_end_session_iff l o :
  may_end_session l o = true <->
  l_release l = true /\ l_name l <> ""%string /\ lease_ended o = false /\ cancel_called o = false /\
  get_status_unsupported o = false.
Proof.
  unfold may_end_session. rewrite !andb_true_iff, !negb_true_iff.
  assert (truthy (l_name l) = true <-> l_name l <> ""%string) as ->; [by destruct (l_name l) | tauto].
Qed.

Lemma after_shell_asks l code o tr : EndSession ∉ tr ->
  (EndSession ∈ fst (after_shell world l code o tr)) <-> asks_for_hook l o.
Proof.
  intros Htr. unfold after_shell, asks_for_hook. rewrite <- may_end_session_iff.
  destruct (may_end_session l o); [| split; [done | by intros [? _]]].
  destruct (probe_alive o tr) as (ops & r & Hp & Hn & Hr). unfold bind. rewrite Hp.
  assert (EndSession ∉ tr ++ ops) as Hn' by (rewrite elem_of_app; tauto).
  destruct r as [e|[]]; cbn [fst]; [split; [done |] | split; [done |] | split; [done |] |];
    try (intros (_ & H); apply Hr in H; discriminate).
  destruct (end_session_asks (tr ++ ops)) as (ops' & r' & ->). split.
  - intros _. split; [done |]. by apply Hr.
  - intros _. destruct r'; cbn [fst ret]; rewrite !elem_of_app, elem_of_cons; auto.
Qed.

(** Solve that a request is not in a list. *)
Ltac not_in := rewrite ?elem_of_app, ?elem_of_cons, ?elem_of_nil; naive_solver.

Lemma bind_ok {A B} (m : M A) (g : A -> M B) tr tr' a : m tr = (tr', inr a) -> bind m g tr = g a tr'.
Proof. intros H. unfold bind. by rewrite H. Qed.
Lemma bind_err {A B} (m : M A) (g : A -> M B) tr tr' e : m tr = (tr', inl e) -> bind m g tr = (tr', inl e).
Proof. intros H. unfold bind. by rewrite H. Qed.
Lemma await_ok o tr a obs : world o = (inr a, obs) -> await world o tr = (tr ++ [o], inr (a, obs)).
Proof. intros H. unfold await, bind, perform. by rewrite H. Qed.
Lemma await_err o tr e obs : world o = (inl e, obs) -> await world o tr = (tr ++ [o], inl e).
Proof. intros H. unfold await, bind, perform. by rewrite H. Qed.

Lemma fetch_motd_runs command tr : exists ops, (EndSession ∉ ops) /\
  fetch_motd world command tr =
  (tr ++ ops, if negb command
              then match fst (world FetchMotd) with
                   | inl e => if is_exception e then inr None else inl e
                   | inr m => inr m
                   end
              else inr None).
Proof.
  unfold fetch_motd. destruct command; cbn [negb].
  - exists []. rewrite app_nil_r. split; [not_in | done].
  - exists [FetchMotd]. split; [not_in |]. unfold bind, perform.
    destruct (world FetchMotd) as [[e|m] o]; cbn [fst]; [by destruct (is_exception e) | done].
Qed.

(** From the wait for the hook up to the shell: the requests made, and what goes on. *)
Lemma monitored_steps l command tr : exists ops, (EndSession ∉ ops) /\
  match shell_from command with
  | Some (code, o) => monitored world l command tr = after_shell world l code o (tr ++ ops)
  | None => fst (monitored world l command tr) = tr ++ ops /\
      forall code, snd (monitored world l command tr) = inr code ->
        code = 0 /\ fst (world WaitReady) = inr None /\ connection_lost (snd (world WaitReady)) = true
  end.
Proof.
  unfold monitored, shell_from. destruct (world WaitReady) as [[e|[s|]] o] eqn:Ew; cbn [fst snd].
  - exists [WaitReady]. split; [not_in |]. by rewrite (bind_err _ _ _ _ _ (await_err _ tr _ _ Ew)).
  - rewrite (bind_ok _ _ _ _ _ (await_ok _ tr _ _ Ew)).
    rewrite (bool_decide_ext (Some s = Some BEFORE_LEASE_HOOK_FAILED) (s = BEFORE_LEASE_HOOK_FAILED)) by naive_solver.
    case_bool_decide; [exists [WaitReady]; split; [not_in | done] |].
    destruct (echo_warning_runs (status_message o) (tr ++ [WaitReady])) as (ops1 & Hw & Ho).
    rewrite (bind_ok _ _ _ _ _ Hw).
    destruct (fetch_motd_runs command ((tr ++ [WaitReady]) ++ ops1)) as (ops2 & Hn & Hm).
    assert (EndSession ∉ [WaitReady] ++ ops1 ++ ops2) as Hall.
    { rewrite !elem_of_app. intros [H1%list_elem_of_singleton|[(t & [=])%Ho|H1]]; done. }
    destruct (negb command && _) eqn:Ec.
    + exists ([WaitReady] ++ ops1 ++ ops2). split; [done |].
      apply andb_true_iff in Ec as [Hc Ee]. rewrite Hc in Hm. destruct (fst (world FetchMotd)) as [e|m]; [| done].
      apply negb_true_iff in Ee. rewrite Ee in Hm. rewrite (bind_err _ _ _ _ _ Hm), !app_assoc. done.
    + assert (exists m, fetch_motd world command ((tr ++ [WaitReady]) ++ ops1) =
                (((tr ++ [WaitReady]) ++ ops1) ++ ops2, inr m)) as [m Hm'].
      { rewrite Hm. destruct (negb command); [| eauto]. cbn [andb] in Ec. revert Ec. destruct (world FetchMotd) as [[e|m] o2]; cbn [fst]; intros Ec; [| eauto].
        apply negb_false_iff in Ec as ->. eauto. }
      rewrite (bind_ok _ _ _ _ _ Hm').
      assert (EndSession ∉ ([WaitReady] ++ ops1 ++ ops2) ++ [RunShell]) as Hall2.
      { intros [H1|H1]%elem_of_app; [done |]. by apply list_elem_of_singleton in H1. }
      destruct (world RunShell) as [[e|code] o'] eqn:Er.
      * exists (([WaitReady] ++ ops1 ++ ops2) ++ [RunShell]).
        split; [done |].
        rewrite (bind_err _ _ _ _ _ (await_err _ _ _ _ Er)), !app_assoc. done.
      * exists (([WaitReady] ++ ops1 ++ ops2) ++ [RunShell]).
        split; [done |].
        rewrite (bind_ok _ _ _ _ _ (await_ok _ _ _ _ Er)), !app_assoc. done.
  - exists [WaitReady]. split; [not_in |]. rewrite (bind_ok _ _ _ _ _ (await_ok _ tr _ _ Ew)).
    cbn. destruct (connection_lost o); [| done]. split; [done |]. by intros code [= <-].
Qed.

Lemma scoped_run {A} g (m : M A) tr :
  scoped g m tr = (fst (m tr), if g then in_task_group (snd (m tr)) else snd (m tr)).
Proof. unfold scoped. by destruct (m tr). Qed.

Lemma in_task_group_ok {A} (r : exc + A) a : in_task_group r = inr a <-> r = inr a.
Proof. destruct r; cbn; [by split |]. by split; intros [= ->]. Qed.

(** What the contexts of a session make of its result. *)
Definition wrapped {A} (l : LeaseView) (r : exc + A) : exc + A :=
  let r := in_task_group (in_task_group r) in
  if l_direct l then r else in_task_group (in_task_group r).

Lemma wrapped_ok {A} l (r : exc + A) a : wrapped l r = inr a <-> r = inr a.
Proof. unfold wrapped. destruct (l_direct l); by rewrite !in_task_group_ok. Qed.

Lemma initial_status_runs l tr : exists r, initial_status world l tr = (tr ++ [GetStatus], r) /\
  (r = inr tt <-> exists s, fst (world GetStatus) = inr s).
Proof.
  unfold initial_status, bind, perform. destruct (world GetStatus) as [[e|s] o]; cbn [fst].
  - destruct e as [cs m [| | |code] d|m es]; try (destruct (_ && _)); eexists; (split; [done |]);
      (split; [done | by intros [s [=]]]).
  - eexists. split; [done |]. split; eauto.
Qed.

Lemma session_steps l command : exists ops, (EndSession ∉ ops) /\
  match shell_result command with
  | Some (code, o) =>
      run_shell_with_lease world l command [] =
      (fst (after_shell world l code o ops), wrapped l (snd (after_shell world l code o ops)))
  | None => fst (run_shell_with_lease world l command []) = ops /\
      forall code, snd (run_shell_with_lease world l command []) = inr code ->
        code = 0 /\ fst (world WaitReady) = inr None /\ connection_lost (snd (world WaitReady)) = true
  end.
Proof.
  unfold run_shell_with_lease, shell_result.
  destruct (world Serve) as [[e|[]] o0] eqn:E0; cbn [fst].
  { exists [Serve]. split; [not_in |]. by rewrite (bind_err _ _ _ _ _ (await_err _ [] _ _ E0)). }
  rewrite (bind_ok _ _ _ _ _ (await_ok _ [] _ _ E0)), !scoped_run. cbn [fst snd app].
  destruct (world ConnectClient) as [[e|[]] o1] eqn:E1; cbn [fst].
  { exists [Serve; ConnectClient]. split; [not_in |]. rewrite (bind_err _ _ _ _ _ (await_err _ [Serve] _ _ E1)).
    cbn [fst snd app]. split; [done |]. intros code H. destruct (negb _); by rewrite ?in_task_group_ok in H. }
  rewrite (bind_ok _ _ _ _ _ (await_ok _ [Serve] _ _ E1)). cbn [app].
  destruct (initial_status_runs l [Serve; ConnectClient]) as (r & Hr & Hok).
  destruct r as [e|[]].
  { rewrite (bind_err _ _ _ _ _ Hr). exists [Serve; ConnectClient; GetStatus]. split; [not_in |]. cbn [fst snd app].
    destruct (world GetStatus) as [[e'|s] o2]; cbn [fst] in *; [| destruct Hok as [_ Hok]; by specialize (Hok (ex_intro _ s eq_refl))].
    split; [done |]. intros code H. destruct (negb _); by rewrite ?in_task_group_ok in H. }
  rewrite (bind_ok _ _ _ _ _ Hr), !scoped_run. cbn [fst snd app].
  destruct (proj1 Hok eq_refl) as [s ->].
  destruct (monitored_steps l command [Serve; ConnectClient; GetStatus]) as (ops & Hn & Hm).
  exists ([Serve; ConnectClient; GetStatus] ++ ops).
  split; [intros [H1|H1]%elem_of_app; [revert H1; not_in | done] |].
  destruct (shell_from command) as [[code o]|].
  - rewrite Hm. unfold wrapped. by destruct (l_direct l).
  - destruct Hm as [-> Hm]. split; [done |]. intros code H. apply Hm.
    destruct (negb _); by rewrite ?in_task_group_ok in H.
Qed.

(** After the shell the exit code is that of the shell, whatever the probe finds. *)
Lemma after_shell_code l code o tr c : snd (after_shell world l code o tr) = inr c -> c = code.
Proof.
  unfold after_shell. destruct (may_end_session l o); [| by intros [= <-]]. unfold bind.
  destruct (probe world o tr) as [tr' [e|[]]]; cbn; [done | by intros [= <-] | by intros [= <-] |].
  destruct (end_session world tr') as [tr2 [e|[]]]; cbn; [done | by intros [= <-]].
Qed.

(** C29: a shell session returns the exit code of the shell, or 0 when the connection was lost
    while it waited for the beforeLease hook; and the exporter is asked to end the session
    (which runs the afterLease hook) exactly when the shell has run and, after it, the lease
    is one to release and has a name, it has not ended, nothing was cancelled, the exporter
    is not known to lack GetStatus and the connection is not known to be lost, and the
    status that is then read is LEASE_READY or AFTER_LEASE_HOOK, with the lease still not
    ended and the connection not lost. *)
Theorem session_end_exact l command :
  (forall code, snd (run_shell_with_lease world l command []) = inr code ->
     (exists o, shell_result command = Some (code, o)) \/
     (code = 0 /\ fst (world WaitReady) = inr None /\ connection_lost (snd (world WaitReady)) = true)) /\
  ((EndSession ∈ fst (run_shell_with_lease world l command [])) <->
     exists code o, shell_result command = Some (code, o) /\ asks_for_hook l o).
Proof.
  destruct (session_steps l command) as (ops & Hn & Hs). destruct (shell_result command) as [[code o]|].
  - rewrite Hs. cbn [fst snd]. split.
    + intros c H. apply wrapped_ok, after_shell_code in H as ->. eauto.
    + rewrite after_shell_asks by done. split; [eauto | by intros (c & o' & [= <- <-] & H)].
  - destruct Hs as [-> Hc]. split; [by intros code ?%Hc; right |]. split; [done |]. by intros (c & o & [=] & _).
Qed.

(** What the shell reports of the afterLease hook: the reason of its failure. *)
Definition hook_failure (result : option ExporterStatus) (o : Obs) : option string :=
  if bool_decide (result = Some AFTER_LEASE_HOOK_FAILED)
  then Some (or_reason (status_message o) "afterLease hook failed")
  else if bool_decide (result <> Some AVAILABLE) && connection_lost o &&
          (bool_decide (current_status o = Some AFTER_LEASE_HOOK) ||
           bool_decide (current_status o = Some AFTER_LEASE_HOOK_FAILED))
  then Some (or_reason (status_message o) "afterLease hook failed (connection lost)")
  else None.

Lemma judge_end_result result o tr :
  snd (judge_end result o tr) = match hook_failure result o with
                                | Some reason => inl (ExporterOfflineError reason)
                                | None => inr tt
                                end.
Proof.
  unfold judge_end, hook_failure. destruct (bool_decide_reflect (result = Some AVAILABLE)) as [->|Hr].
  { rewrite !bool_decide_false by (intros H; try discriminate H; by apply H). cbn [andb].
    destruct (echo_warning_runs (status_message o) tr) as (ops & -> & _). done. }
  rewrite (bool_decide_true (result <> _)) by done. cbn [andb].
  case_bool_decide; [done |]. destruct (connection_lost o); [| done]. by destruct (_ || _).
Qed.

(** When the exporter accepted the end of the session, the shell succeeds with the exit
    code of the command unless the afterLease hook failed, or the connection went away
    while that hook was running: then the reason the exporter gave is the one error the
    session raises. *)
Theorem hook_failure_reported l command code o o1 result o2 :
  shell_result command = Some (code, o) -> asks_for_hook l o ->
  world EndSession = (inr true, o1) -> world WaitEnd = (inr result, o2) ->
  snd (run_shell_with_lease world l command []) =
  match hook_failure result o2 with
  | Some reason => wrapped l (inl (ExporterOfflineError reason))
  | None => inr code
  end.
Proof.
  intros Hs Ha He Hw. destruct (session_steps l command) as (ops & Hn & Hr). rewrite Hs in Hr. rewrite Hr. cbn [snd].
  transitivity (wrapped l (match hook_failure result o2 with
                           | Some reason => inl (ExporterOfflineError reason)
                           | None => inr code
                           end)).
  2: { destruct (hook_failure result o2); [done |]. by apply wrapped_ok. }
  f_equal. destruct Ha as (Hm%may_end_session_iff & Hc & Hp). unfold after_shell. rewrite Hm.
  destruct (probe_alive o ops) as (ops2 & r & Hr2 & _ & Hal). rewrite (proj2 Hal) in Hr2 by done.
  rewrite (bind_ok _ _ _ _ _ Hr2). unfold bind, end_session, swallow.
  rewrite (bind_ok _ _ _ _ _ (await_ok _ _ _ _ He)). cbn [fst].
  rewrite (bind_ok _ _ _ _ _ (await_ok _ _ _ _ Hw)). cbn [fst snd].
  pose proof (judge_end_result result o2 (((ops ++ ops2) ++ [EndSession]) ++ [WaitEnd])) as Hj.
  destruct (judge_end _ _ _) as [tr' r']. cbn [snd] in Hj. subst r'. by destruct (hook_failure result o2).
Qed.

End SessionFacts.

(** ** The loop over leases *)

(** At most one lease is held, and a token monitor or a warning belongs to the one held. *)
Fixpoint one_at_a_time (held : option nat) (tr : list event) : bool :=
  match tr with
  | [] => match held with None => true | Some _ => false end
  | Acquire i :: tr' => match held with None => one_at_a_time (Some i) tr' | Some _ => false end
  | StartTokenMonitor i :: tr' | WarnExpiredToken i :: tr' =>
      match held with Some j => Nat.eqb i j && one_at_a_time held tr' | None => false end
  | LeaveLease i :: tr' =>
      match held with Some j => Nat.eqb i j && one_at_a_time None tr' | None => false end
  end.

Definition acquisitions (tr : list event) : nat :=
  length (List.filter (fun e => match e with Acquire _ => true | _ => false end) tr).
Definition monitors (tr : list event) : nat :=
  length (List.filter (fun e => match e with StartTokenMonitor _ => true | _ => false end) tr).

(** The loop never holds two leases at once: whatever happens in a session, its lease is
    left before the next one is acquired and before the loop ends; but it starts one token
    monitor per lease, and none of them is stopped. *)
Theorem one_lease_at_a_time fuel env i deadline used :
  let tr := fst (fst (attempts fuel env i deadline used)) in
  one_at_a_time None tr = true /\ monitors tr = acquisitions tr.
Proof.
  cbv zeta. revert i deadline used. induction fuel as [|fuel IH]; intros i deadline used; cbn [attempts]; [done |].
  destruct (acquired (env i)) as [e|l]; [done |].
  destruct (after_session (env i) l deadline) as [d|r].
  - specialize (IH (S i) (Some d) (Some i)). destruct (attempts fuel env (S i) (Some d) (Some i)) as [[tr u] r].
    cbn [fst app one_at_a_time] in *. rewrite !Nat.eqb_refl. cbn. destruct IH as [-> H]. split; [done |].
    unfold monitors, acquisitions in *. cbn. by rewrite H.
  - destruct (match outcome (env i) with inr _ => _ | inl _ => false end); cbn; rewrite !Nat.eqb_refl; done.
Qed.

(** One round of the loop. *)
Lemma attempts_round n env i deadline used l :
  acquired (env i) = inr l ->
  match after_session (env i) l deadline with
  | Retry d =>
      attempts (S n) env i deadline used =
      let '(tr, u, r) := attempts n env (S i) (Some d) (Some i) in
      ([Acquire i; StartTokenMonitor i; LeaveLease i] ++ tr, u, r)
  | Done r => exists tr, attempts (S n) env i deadline used = (tr, Some i, Some r) /\ acquisitions tr = 1%nat
  end.
Proof.
  intros H. cbn [attempts]. rewrite H. destruct (after_session _ _ _) as [d|r]; [done |].
  eexists. split; [done |]. destruct (match outcome _ with inr _ => _ | inl _ => false end); done.
Qed.

(** The retries have one deadline, fixed by the first failure. *)
Lemma after_session_deadline a l D : match after_session a l (Some D) with Retry d => d = D /\ t_check a < D | Done _ => True end.
Proof.
  unfold after_session. destruct (outcome a) as [e|]; [| done]. destruct (unreachable_of e); [| done].
  destruct (a_ended a); [done |]. destruct (a_transferred a); [done |]. destruct (D <=? t_check a) eqn:E; [done |].
  apply Z.leb_gt in E. done.
Qed.

Lemma attempts_deadline fuel env i D used d :
  0 < d -> (forall j, t_check (env j) + d <= t_check (env (S j))) ->
  D <= t_check (env i) + Z.of_nat fuel * d ->
  snd (attempts (S fuel) env i (Some D) used) <> None.
Proof.
  intros Hd Hc. revert i used. induction fuel as [|fuel IH]; intros i used Hf;
    (destruct (acquired (env i)) as [e|l] eqn:Ea; [cbn [attempts]; by rewrite Ea |]);
    pose proof (after_session_deadline (env i) l D) as Hdl.
  - pose proof (attempts_round 0 env i (Some D) used l Ea) as Hr. destruct (after_session _ _ _); [lia |].
    by destruct Hr as (tr & -> & _).
  - pose proof (attempts_round (S fuel) env i (Some D) used l Ea) as Hr.
    destruct (after_session _ _ _) as [D'|r]; [| by destruct Hr as (tr & -> & _)].
    destruct Hdl as [-> Hlt]. rewrite Hr. specialize (Hc i). specialize (IH (S i) (Some i) ltac:(lia)).
    by destruct (attempts (S fuel) env (S i) (Some D) (Some i)) as [[tr u] r].
Qed.

(** The first failure fixes the deadline. *)
Lemma after_session_first a l :
  match after_session a l None with
  | Retry d => d = t_set a + l_retry_timeout l /\ t_check a < d
  | Done _ => True
  end.
Proof.
  unfold after_session. destruct (outcome a) as [e|]; [| done]. destruct (unreachable_of e); [| done].
  destruct (a_ended a); [done |]. destruct (a_transferred a); [done |]. destruct (_ <=? t_check a) eqn:E; [done |].
  apply Z.leb_gt in E. done.
Qed.

Lemma attempts_used fuel env i deadline used j : used = Some j ->
  exists k, snd (fst (attempts fuel env i deadline used)) = Some k.
Proof.
  revert i deadline used j. induction fuel as [|fuel IH]; intros i deadline used j ->; [by eexists |].
  destruct (acquired (env i)) as [e|l] eqn:Ea; [cbn [attempts]; rewrite Ea; by eexists |].
  pose proof (attempts_round fuel env i deadline (Some j) l Ea) as Hr.
  destruct (after_session _ _ _) as [D|r]; [| destruct Hr as (tr & -> & _); by eexists].
  destruct (IH (S i) (Some D) (Some i) i eq_refl) as [k Hk]. rewrite Hr.
  destruct (attempts fuel env (S i) (Some D) (Some i)) as [[tr u] r]. by exists k.
Qed.

(** The shell stops retrying: when every attempt takes some time, the loop ends within
    the retry timeout of the first lease, counted from its first failure, and one attempt
    more; with a timeout of zero it never acquires a second lease. *)
Theorem retries_end fuel env l d :
  acquired (env 0%nat) = inr l -> 0 < d -> (forall j, t_check (env j) + d <= t_check (env (S j))) ->
  t_set (env 0%nat) <= t_check (env 0%nat) ->
  (l_retry_timeout l <= Z.of_nat fuel * d -> snd (attempts (S (S fuel)) env 0 None None) <> None) /\
  (l_retry_timeout l = 0 -> acquisitions (fst (fst (attempts (S fuel) env 0 None None))) = 1%nat).
Proof.
  intros Ha Hd Hc Ht. pose proof (after_session_first (env 0%nat) l) as Hf. split.
  - intros Hl. pose proof (attempts_round (S fuel) env 0 None None l Ha) as Hr.
    destruct (after_session _ _ _) as [D|r]; [| by destruct Hr as (tr & -> & _)].
    destruct Hf as [-> Hlt]. rewrite Hr.
    pose proof (attempts_deadline fuel env 1 (t_set (env 0%nat) + l_retry_timeout l) (Some 0%nat) d Hd Hc) as H.
    specialize (Hc 0%nat). specialize (H ltac:(lia)).
    by destruct (attempts (S fuel) env 1 _ _) as [[tr u] r].
  - intros H0. pose proof (attempts_round fuel env 0 None None l Ha) as Hr.
    destruct (after_session _ _ _) as [D|r]; [lia |]. by destruct Hr as (tr & -> & ?).
Qed.

(** ** Errors of the command *)

(** The errors a shell that had a lease can end with. *)
Definition named_error (e : exc) : bool :=
  isinstance e CTimeoutError || isinstance e CExporterUnreachableError ||
  isinstance e CExporterOfflineError || isinstance e CLeaseError.

Lemma settle_named f r e : settle (Some f) (in_task_group r) = inl e -> named_error e = true.
Proof.
  unfold named_error. destruct r as [x|code]; [| done]. cbn [in_task_group]. destruct (is_cancelled x) eqn:Ec.
  { destruct x; [| by unfold is_cancelled in Ec]. cbn [settle]. by rewrite Ec. }
  cbn [settle]. destruct (List.find _ _) eqn:E1.
  { intros [= ->]. apply List.find_some in E1 as [_ ->]. done. }
  destruct (find_exception_in_group _ CExporterUnreachableError) eqn:E2.
  { intros [= ->]. apply List.find_some in E2 as [_ ->]. by rewrite orb_true_r. }
  destruct (find_exception_in_group _ CExporterOfflineError) eqn:E3.
  { intros [= ->]. apply List.find_some in E3 as [_ ->]. by rewrite orb_true_r. }
  destruct (find_exception_in_group _ CLeaseError) eqn:E4.
  { intros [= ->]. apply List.find_some in E4 as [_ ->]. by rewrite !orb_true_r. }
  destruct f as [[] []]; intros [= <-]; done.
Qed.

(** Once a lease has been acquired, [jmp shell] ends with an exit code or with exactly one
    error, which is a timeout, an unreachable or offline exporter, or a lease error: no
    other exception of a session, however nested in groups, reaches the user as it is; and
    when the session was cancelled the exit code is 2. *)
Theorem shell_errors_named fuel remaining env flags at_end l r tr :
  acquired (env 0%nat) = inr l ->
  match remaining with Some ms => 0 < ms | None => True end ->
  shell_with_signal_handling fuel (inr remaining) env flags at_end = (tr, Some r) ->
  match r with
  | inr code => True
  | inl _ => exists x, r = in_task_group (inl x) /\ named_error x = true
  end /\
  (outcome (env 0%nat) = inl Cancelled -> r = inr 2).
Proof.
  intros Ha Hrem H. unfold shell_with_signal_handling in H.
  assert (match remaining with Some ms => ms <=? 0 | None => false end = false) as Hm.
  { destruct remaining; [apply Z.leb_gt; lia | done]. }
  rewrite Hm in H. destruct (attempts fuel env 0 None None) as [[tr0 used] r0] eqn:Eat.
  destruct r0 as [r0|]; [| done]. injection H as _ <-.
  destruct fuel as [|fuel]; [done |]. pose proof (attempts_round fuel env 0 None None l Ha) as Hr. split.
  - assert (exists i, used = Some i) as [i ->].
    { destruct (after_session _ _ _) as [D|r].
      - destruct (attempts_used fuel env 1 (Some D) (Some 0%nat) 0 eq_refl) as [i Hi]. rewrite Hr in Eat. revert Hi.
        destruct (attempts fuel env 1 (Some D) (Some 0%nat)) as [[? ?] ?]. injection Eat as _ <- _. eauto.
      - destruct Hr as (tr1 & Hr & _). rewrite Hr in Eat. injection Eat as _ <- _. eauto. }
    cbn [option_map]. destruct (settle _ _) as [e|code] eqn:Es; [| done]. apply settle_named in Es.
    change (inl (if is_cancelled e then e else _)) with (in_task_group (A := Z) (inl e)).
    destruct (in_task_group (inl e)) eqn:Eg; [| done]. rewrite <- Eg. eauto.
  - intros Ho. unfold after_session in Hr. rewrite Ho in Hr. destruct Hr as (tr1 & Hr & _). rewrite Hr in Eat.
    injection Eat as _ <- <-. done.
Qed.

(** ** The first status check *)

(** What [client.get_status_async] of [ClientCore] gives to the session. *)
Definition status_reply (r : status_exn + option ExporterStatus) : exc + option ExporterStatus :=
  match r with
  | inr s => inr s
  | inl (StatusDriverError text) => inl (Leaf [CDriverError; CJumpstarterException; CException] text NoAttr NoAttr)
  | inl StatusValueError => inl (Leaf [CException] "not a valid ExporterStatus" NoAttr NoAttr)
  end.

(** An exception without a status code passes the handler of the first check. *)
Lemma initial_failure (world : forall o : op, (exc + reply o) * Obs) l command cs m d :
  fst (world Serve) = inr tt -> fst (world ConnectClient) = inr tt ->
  fst (world GetStatus) = inl (Leaf cs m NoAttr d) -> l_direct l = false ->
  snd (run_shell_with_lease world l command []) = in_task_group (in_task_group (inl (Leaf cs m NoAttr d))).
Proof.
  intros H0 H1 H2 Hd. unfold run_shell_with_lease. rewrite Hd.
  destruct (world Serve) as [r0 o0] eqn:E0. cbn [fst] in H0. subst r0.
  rewrite (bind_ok _ _ _ _ _ (await_ok _ _ [] _ _ E0)), !scoped_run. cbn [fst snd negb].
  destruct (world ConnectClient) as [r1 o1] eqn:E1. cbn [fst] in H1. subst r1.
  rewrite (bind_ok _ _ _ _ _ (await_ok _ _ _ _ _ E1)).
  unfold initial_status, bind, perform. destruct (world GetStatus) as [r2 o2]. cbn [fst] in H2. by subst r2.
Qed.

(** An exporter that answers the first status check of a session with UNAVAILABLE or
    DEADLINE_EXCEEDED is meant to be unreachable, which the shell retries with a new lease;
    but the client turns the gRPC error into another exception first, so that the shell
    gives up after this one lease, whatever its retry timeout. *)
Theorem initial_check_not_retried (world : forall o : op, (exc + reply o) * Obs) command answers c code details l
    (env : nat -> Attempt) flags fuel at_end :
  fst (world Serve) = inr tt -> fst (world ConnectClient) = inr tt ->
  fst (world GetStatus) = status_reply (fst (get_status_async answers c)) ->
  ClientCore.get_status_unsupported c = false -> answers (status_calls c) = StatusRpcError code details ->
  code ∈ [UNAVAILABLE; DEADLINE_EXCEEDED] ->
  acquired (env 0%nat) = inr l -> l_direct l = false ->
  outcome (env 0%nat) = snd (run_shell_with_lease world l command []) -> flags 0%nat = (false, false) ->
  shell_with_signal_handling (S fuel) (inr None) env flags at_end =
  ([Acquire 0; StartTokenMonitor 0; LeaveLease 0],
   Some (in_task_group (inl (ExporterOfflineError "Connection to exporter lost")))).
Proof.
  intros H0 H1 H2 Hu Ha Hc Hl Hd Ho Hf.
  assert (fst (get_status_async answers c) = inl (StatusDriverError ("Failed to get exporter status: " ++ details)))
    as Hg.
  { unfold get_status_async. rewrite Hu, Ha.
    rewrite !elem_of_cons, elem_of_nil in Hc. by destruct Hc as [->|[->|[]]]. }
  rewrite Hg in H2. rewrite (initial_failure world l command _ _ _ H0 H1 H2 Hd) in Ho.
  unfold shell_with_signal_handling. cbn [attempts]. rewrite Hl. unfold after_session. rewrite Ho.
  set (e := Leaf _ _ _ _). set (k := Group "unhandled errors in a TaskGroup" [Group "unhandled errors in a TaskGroup" [e]]).
  change (in_task_group (in_task_group (inl e))) with (inl (B := Z) k). cbv beta iota. change (unreachable_of k) with (@None exc).
  cbv beta iota. change (in_task_group (inl k)) with (inl (B := Z) (Group "unhandled errors in a TaskGroup" [k])).
  unfold settle. cbv beta iota. change (List.find _ [k]) with (@None exc).
  change (find_exception_in_group [k] CExporterUnreachableError) with (@None exc).
  change (find_exception_in_group [k] CExporterOfflineError) with (@None exc).
  change (find_exception_in_group [k] CLeaseError) with (@None exc).
  cbv beta iota. cbn [option_map]. rewrite Hf. by destruct at_end.
Qed.

(** ** Whose lease it is *)

(** The lease [jmp shell] picks by itself is one of the active leases listed, and belongs
    to this client. *)
Theorem chosen_lease_owned strftime shown client_name isatty chosen found n :
  choose_lease strftime shown client_name isatty chosen found = inr n ->
  exists l, l ∈ found /\ GrpcClient.client l = client_name /\ GrpcClient.name l = n.
Proof.
  unfold choose_lease. set (ls := List.filter _ found).
  assert (forall l, l ∈ ls -> l ∈ found /\ GrpcClient.client l = client_name) as Hin.
  { intros l Hl. rewrite list_elem_of_In in Hl. unfold ls in Hl. apply filter_In in Hl as [Hl He%String.eqb_eq].
    by rewrite list_elem_of_In. }
  destruct ls as [|l1 [|l2 ls]]; [done | |].
  - intros [= <-]. destruct (Hin l1) as [? ?]; [apply list_elem_of_here |]. eauto.
  - destruct isatty; [| done]. destruct (nth_error _ _) as [l|] eqn:E; [| done]. intros [= <-].
    apply nth_error_In in E. destruct (Hin l) as [? ?]; [by rewrite list_elem_of_In |]. eauto.
Qed.

(** [jmp shell] releases on exit exactly the leases it creates: when it goes on with the
    lease it was given or found in [JMP_LEASE], or with one the user chose among the
    active leases, that lease is kept. *)
Theorem releases_own_lease_only py_float address config lease_name selector exporter_name env_lease n acq rt dt er ed
    ca cr cd args :
  n <> EmptyString ->
  match shell address config lease_name selector exporter_name env_lease with
  | OnClient name => lease_async py_float name env_lease acq rt dt er ed ca cr cd = Some args ->
      (arg_release args = true <-> set_text lease_name = false /\ set_text env_lease = false) /\
      (arg_release args = true -> set_text selector = true \/ set_text exporter_name = true)
  | AskForLease => lease_async py_float (Some n) env_lease acq rt dt er ed ca cr cd = Some args ->
      arg_release args = false /\ arg_name args = n
  | _ => True
  end.
Proof.
  intros Hn. assert (truthy n = true) as Ht by by destruct n.
  assert (forall o, String.eqb (default EmptyString o) EmptyString = negb (set_text o)) as He.
  { intros [[|]|]; done. }
  unfold shell. destruct address; [done |]. destruct config; [done | | done].
  destruct (negb (set_text selector) && negb (set_text exporter_name) && _) eqn:Ec.
  - unfold lease_async. destruct (timeout_of _ _ _ _); [| done]. destruct (timeout_of _ _ _ _); [| done].
    intros [= <-]. cbn [arg_release arg_name]. unfold set_text. cbn [default from_option id]. rewrite Ht.
    by destruct n.
  - unfold lease_async. destruct (timeout_of _ _ _ _); [| done]. destruct (timeout_of _ _ _ _); [| done].
    intros [= <-]. cbn [arg_release]. revert Ec. destruct (set_text lease_name) eqn:E1.
    + rewrite He, E1. cbn. split; [split; [done | by intros []] | done].
    + rewrite He. destruct (set_text env_lease), (set_text selector), (set_text exporter_name); cbn;
        intros Hx; try discriminate; (split; [split | auto]); try done; by intros [].
Qed.

(** ** Witnesses *)

Definition calm : Obs := mkObs false "" (Some LEASE_READY) false false false.
Definition failing : Obs := mkObs false "flash failed" (Some AFTER_LEASE_HOOK_FAILED) false false false.

(** A session whose afterLease hook fails after a shell that returned 3. *)
Definition demo_world (o : op) : (exc + reply o) * Obs :=
  match o with
  | Serve | ConnectClient | Echo _ => (inr tt, calm)
  | GetStatus | WaitReady | Probe => (inr (Some LEASE_READY), calm)
  | FetchMotd => (inr None, calm)
  | RunShell => (inr 3, calm)
  | EndSession => (inr true, calm)
  | WaitEnd => (inr (Some AFTER_LEASE_HOOK_FAILED), failing)
  end.

Definition demo_view : LeaseView := mkLeaseView "lease-1" "rpi" true 10000 false.

Lemma hook_failure_reported_witness :
  snd (run_shell_with_lease demo_world demo_view true []) =
  wrapped demo_view (inl (ExporterOfflineError "flash failed")).
Proof.
  rewrite (hook_failure_reported demo_world demo_view true 3 calm calm (Some AFTER_LEASE_HOOK_FAILED) failing);
    [reflexivity | reflexivity | | reflexivity | reflexivity].
  split; [split_and!; [reflexivity | discriminate | reflexivity..] |]. split; [reflexivity |].
  exists LEASE_READY, calm. split; [reflexivity |]. split; [reflexivity |]. split; [apply list_elem_of_here | reflexivity].
Defined.

(** An exporter that stays unreachable; an attempt takes four seconds. *)
Definition demo_attempt (i : nat) : Attempt :=
  mkAttempt (inr demo_view) (inl (ExporterUnreachableError "no answer")) false false
    (4000 * Z.of_nat i) (4000 * Z.of_nat i) false.

Lemma retries_end_witness : snd (attempts 5 demo_attempt 0 None None) <> None.
Proof.
  apply (proj1 (retries_end 3 demo_attempt demo_view 4000 eq_refl eq_refl
    ltac:(intros j; unfold demo_attempt; cbn [t_check]; lia) ltac:(unfold demo_attempt; cbn [t_check t_set]; lia))).
  cbn [l_retry_timeout demo_view]. lia.
Defined.

Lemma shell_errors_named_witness :
  exists tr r, shell_with_signal_handling 5 (inr None) demo_attempt (fun _ => (false, false)) None = (tr, Some r) /\
    acquisitions tr = 4%nat /\ exists x, r = in_task_group (inl x) /\ named_error x = true.
Proof.
  destruct (shell_with_signal_handling 5 (inr None) demo_attempt (fun _ => (false, false)) None)
    as [tr [r|]] eqn:E; [| vm_compute in E; discriminate E].
  exists tr, r. split; [reflexivity |].
  destruct (shell_errors_named 5 None demo_attempt (fun _ => (false, false)) None demo_view r tr eq_refl I E) as [H _].
  vm_compute in E. injection E as <- <-. split; [reflexivity | exact H].
Defined.

(** An exporter that does not answer the first status check. *)
Definition silent_world (o : op) : (exc + reply o) * Obs :=
  match o with
  | GetStatus => (status_reply (fst (get_status_async (fun _ => StatusRpcError UNAVAILABLE "down") (mkClient false 0))), calm)
  | o => demo_world o
  end.

Definition silent_attempt (i : nat) : Attempt :=
  mkAttempt (inr demo_view) (snd (run_shell_with_lease silent_world demo_view true [])) false false
    (4000 * Z.of_nat i) (4000 * Z.of_nat i) false.

Lemma initial_check_not_retried_witness :
  acquisitions (fst (shell_with_signal_handling 5 (inr None) silent_attempt (fun _ => (false, false)) None)) = 1%nat.
Proof.
  rewrite (initial_check_not_retried silent_world true (fun _ => StatusRpcError UNAVAILABLE "down") (mkClient false 0)
    UNAVAILABLE "down" demo_view silent_attempt (fun _ => (false, false)) 4 None
    eq_refl eq_refl eq_refl eq_refl eq_refl ltac:(apply list_elem_of_here) eq_refl eq_refl eq_refl eq_refl).
  reflexivity.
Defined.

Definition my_lease : GrpcClient.Lease :=
  GrpcClient.mkLease "lab" "lease-7" [] None [] [] 3600 None None "me" "rpi" [] None None [].

Lemma chosen_lease_owned_witness :
  exists l, l ∈ [my_lease] /\ GrpcClient.name l = "lease-7"%string /\ GrpcClient.client l = "me"%string.
Proof.
  destruct (chosen_lease_owned (fun _ => EmptyString) (fun _ => EmptyString) "me" false 0 [my_lease] "lease-7")
    as (l & H1 & H2 & H3); [reflexivity |].
  exists l. split; [exact H1 |]. split; [exact H3 | exact H2].
Defined.

Lemma releases_own_lease_only_witness :
  exists args, lease_async (fun _ => Some 0) (Some "mine"%string) None None None None None None 7200 300000 60000 =
    Some args /\ arg_release args = false.
Proof.
  eexists. split; [reflexivity |].
  exact (proj1 (releases_own_lease_only (fun _ => Some 0) None ClientConfigKind None None None None "mine"
    None None None None None 7200 300000 60000 _ ltac:(discriminate) eq_refl)).
Defined.
