(* ===== verification/Login.v ===== *)
(** * Logging in

    [jumpstarter_cli/login.py] ([jmp login] and the login of an expired client),
    [jumpstarter_cli/auth.py] ([jmp auth]) and the choice of a configuration for a command
    ([opt_config] of [jumpstarter_cli_common/config.py]).

    The files are those of [ConfigFiles]; the login service, the identity provider, the
    claims of a token and the answers of the user are parameters. Of an exporter
    configuration only the fields of [ConfigFiles] are told apart. *)

From stdpp Require Import base list strings pretty.
From Stdlib Require Import ZArith Lia Ascii.
From S2P Require Import Prelude PyText ConfigFiles Tokens.

Open Scope Z_scope.
Open Scope list_scope.

(** ** The login target *)

Inductive login_error :=
| LoginClick (msg : string)
| LoginUsage (msg : string).

(** [[username@]endpoint] *)
Definition parse_login_argument (login_arg : string) : login_error + (option string * string) :=
  let login_arg := Str.strip login_arg in
  if negb (truthy login_arg) then inl (LoginClick "Login target cannot be empty.")
  else
    match Str.rsplit1 "@" login_arg with
    | Some (before, after) =>
        let client_name := Str.strip before in
        let endpoint := Str.strip after in
        if negb (truthy client_name) then inl (LoginClick "Client name before '@' cannot be empty.")
        else if negb (truthy endpoint) then inl (LoginClick "Login endpoint after '@' cannot be empty.")
        else inr (Some client_name, endpoint)
    | None => inr (None, login_arg)
    end.

(** The host part of a URL whose scheme and slashes are cut off. *)
Fixpoint netloc (s : string) : string :=
  match s with
  | EmptyString => EmptyString
  | String c s' =>
      if Ascii.eqb c "/" || Ascii.eqb c "?" || Ascii.eqb c "#" then EmptyString else String c (netloc s')
  end.

Definition drop_prefix (p s : string) : string :=
  String.substring (String.length p) (String.length s - String.length p) s.

(** [_validate_login_endpoint_url] of a URL that starts with one of the two schemes. *)
Definition validate_login_endpoint_url (url : string) (allow_http : bool) : option login_error :=
  let http := Str.startswith "http://" url in
  let rest := drop_prefix (if http then "http://" else "https://") url in
  if http && negb allow_http
  then Some (LoginClick ("Refusing insecure login endpoint '" ++ url ++
         "'. Use --insecure-tls / -k to allow plain HTTP login endpoints."))
  else if negb (truthy (netloc rest))
  then Some (LoginClick ("Invalid login endpoint '" ++ url ++ "': missing host."))
  else None.

(** [s.rstrip('/')] *)
Fixpoint lstrip_slash (s : string) : string :=
  match s with String c s' => if Ascii.eqb c "/" then lstrip_slash s' else s | EmptyString => s end.
Definition rstrip_slash (s : string) : string := Str.srev (lstrip_slash (Str.srev s)).

(** The URL the configuration is fetched from. *)
Definition auth_config_url (login_endpoint : string) (insecure_tls : bool) : login_error + string :=
  if Str.startswith "http://" login_endpoint && negb insecure_tls
  then inl (LoginUsage "HTTP login endpoints require --insecure-tls / -k.")
  else
    let login_endpoint :=
      if Str.startswith "http://" login_endpoint || Str.startswith "https://" login_endpoint
      then login_endpoint else ("https://" ++ login_endpoint)%string in
    match validate_login_endpoint_url login_endpoint insecure_tls with
    | Some e => inl e
    | None => inr (rstrip_slash login_endpoint ++ "/v1/auth/config")%string
    end.

(** The payload of the login service: [grpcEndpoint] is there when it is a text that is not
    blank. *)
Record AuthConfig := mkAuthConfig {
  grpcEndpoint : option string;
  auth_namespace : option string;
  auth_oidc : list (option string * option string);
  caBundle : option string
}.

(** [_validate_auth_config_payload]; [None] is a payload that is no JSON object. *)
Definition validate_auth_config_payload (payload : option AuthConfig) (url : string) : login_error + AuthConfig :=
  match payload with
  | None => inl (LoginClick ("Invalid auth config response from " ++ url ++ ": expected a JSON object."))
  | Some p =>
      match grpcEndpoint p with
      | Some e =>
          if truthy (Str.strip e) then inr p
          else inl (LoginClick ("Invalid auth config response from " ++ url ++
                 ": missing required field 'grpcEndpoint'."))
      | None => inl (LoginClick ("Invalid auth config response from " ++ url ++
                  ": missing required field 'grpcEndpoint'."))
      end
  end.

(** [fetch_auth_config]: [get] is the GET request; an error of it becomes a message. *)
Definition fetch_auth_config (get : string -> string + (Z * option AuthConfig)) (login_endpoint : string)
    (insecure_tls : bool) : login_error + AuthConfig :=
  match auth_config_url login_endpoint insecure_tls with
  | inl e => inl e
  | inr url =>
      match get url with
      | inl msg => inl (LoginClick msg)
      | inr (status, payload) =>
          if negb (status =? 200)
          then inl (LoginClick ("Failed to fetch auth config from " ++ url ++ ": HTTP " ++ pretty status))
          else validate_auth_config_payload payload url
      end
  end.

(** ** Options *)

Record Options := mkOptions {
  o_endpoint : option string;
  o_namespace : option string;
  o_name : option string;
  o_username : option string;
  o_password : option string;
  o_token : option string;
  o_issuer : option string;
  o_client_id : string;
  o_connector_id : option string;
  o_offline_access : bool;
  o_device_flow : bool;
  o_unsafe : option bool;
  o_insecure_tls : bool;
  o_nointeractive : bool;
  o_allow : string
}.

(** Fetched values where the user gave none. *)
Definition merge_auth_config (o : Options) (a : AuthConfig) : Options :=
  let first := head (auth_oidc a) in
  let take := match o_issuer o, first with None, Some _ => true | _, _ => false end in
  mkOptions
    (match o_endpoint o with Some e => Some e | None => grpcEndpoint a end)
    (match o_namespace o with Some n => Some n | None => auth_namespace a end)
    (o_name o) (o_username o) (o_password o) (o_token o)
    (if take then match first with Some (i, _) => i | None => None end else o_issuer o)
    (match (if take then first else None) with
     | Some (_, Some id) =>
         if String.eqb (o_client_id o) "jumpstarter-cli" && truthy id then id else o_client_id o
     | _ => o_client_id o
     end)
    (o_connector_id o) (o_offline_access o) (o_device_flow o) (o_unsafe o) (o_insecure_tls o)
    (o_nointeractive o) (o_allow o).

Definition with_name (n : string) (o : Options) : Options :=
  mkOptions (o_endpoint o) (o_namespace o) (Some n) (o_username o) (o_password o) (o_token o) (o_issuer o)
    (o_client_id o) (o_connector_id o) (o_offline_access o) (o_device_flow o) (o_unsafe o) (o_insecure_tls o)
    (o_nointeractive o) (o_allow o).

(** The options, the client name of the target and the CA bundle. *)
Definition login_target_options (get : string -> string + (Z * option AuthConfig)) (target : option string)
    (o : Options) : login_error + (Options * option string * option string) :=
  match target with
  | None => inr (o, None, None)
  | Some t =>
      match parse_login_argument t with
      | inl e => inl e
      | inr (parsed, endpoint) =>
          let o := match parsed, o_name o with Some n, None => with_name n o | _, _ => o end in
          match fetch_auth_config get endpoint (o_insecure_tls o) with
          | inl e => inl e
          | inr a => inr (merge_auth_config o a, parsed, caBundle a)
          end
      end
  end.

(** ** The configuration of a command *)

(** What [opt_config] hands to a command: a loaded configuration, or the option under which
    a new one is to be made. *)
Inductive Loaded :=
| LoadedClient (c : ClientConfig)
| LoadedExporter (x : ExporterConfig)
| Missing (kind value : string).

Section Config.

Context (CLIENT_CONFIGS_PATH USER_CONFIG_PATH BASE_PATH SYSTEM_CONFIG_PATH : string).
Context (yaml_dump : ClientPayload -> string) (yaml_load : string -> option ClientPayload).
Context (x_dump : ExporterBody -> string) (x_yaml_load : string -> option ExporterBody).
Context (user_dump : option string -> string) (user_load : string -> option (option string)).
Context (str_of : exn -> string).

Abbreviation load_client := (load CLIENT_CONFIGS_PATH yaml_load).
Abbreviation client_file := (from_file yaml_load).

(** [ClientConfigV1Alpha1()] from the environment, when it is complete, is [env_config]. *)
Definition opt_config_load (client allow_missing : bool) (env_config : option ClientConfig)
    (params : list (string * string)) : C Loaded := fun fs =>
  match params with
  | [] =>
      if client then
        match env_config with
        | Some c => (fs, inr (LoadedClient c))
        | None =>
            match load_or_create CLIENT_CONFIGS_PATH USER_CONFIG_PATH yaml_load user_dump user_load fs with
            | (fs', inl e) => (fs', inl e)
            | (fs', inr (Some c)) => (fs', inr (LoadedClient c))
            | (fs', inr None) =>
                if allow_missing then (fs', inr (Missing "client" "default"))
                else (fs', inl (ClickException "default config is not set"))
            end
        end
      else (fs, inl (ClickException "one of the options should be specified"))
  | [(kind, value)] =>
      let r :=
        if String.eqb kind "client" then
          match load_client value fs with (fs', inl e) => (fs', inl e) | (fs', inr c) => (fs', inr (LoadedClient c)) end
        else if String.eqb kind "client_config" then
          match client_file value fs with (fs', inl e) => (fs', inl e) | (fs', inr c) => (fs', inr (LoadedClient c)) end
        else if String.eqb kind "exporter" then
          match x_load BASE_PATH SYSTEM_CONFIG_PATH x_yaml_load value fs with
          | (fs', inl e) => (fs', inl e) | (fs', inr x) => (fs', inr (LoadedExporter x)) end
        else
          match load_path x_yaml_load value fs with
          | (fs', inl e) => (fs', inl e) | (fs', inr x) => (fs', inr (LoadedExporter x)) end in
      match r with
      | (fs', inl (FileNotFound p)) =>
          if allow_missing then (fs', inr (Missing kind value)) else (fs', inl (FileNotFound p))
      | _ => r
      end
  | _ => (fs, inl (ClickException "only one of the options should be specified"))
  end.

(** Other exceptions become one message. *)
Definition opt_config (client allow_missing : bool) (env_config : option ClientConfig)
    (params : list (string * string)) : C Loaded := fun fs =>
  match opt_config_load client allow_missing env_config params fs with
  | (fs', inl (ClickException m)) => (fs', inl (ClickException m))
  | (fs', inl e) => (fs', inl (ClickException ("Failed to load config: " ++ str_of e)))
  | r => r
  end.

(** ** The steps of a login *)

(** A target that names another client than the configuration makes a new one. *)
Definition retarget (config : Loaded) (parsed : option string) : Loaded :=
  match config, parsed with
  | LoadedClient c, Some n => if truthy n && negb (String.eqb (alias c) n) then Missing "client" n else config
  | _, _ => config
  end.

(** The answers of the user. *)
Record Prompts := mkPrompts {
  p_namespace : string;
  p_name : string;
  p_endpoint : string;
  p_unsafe : bool;
  p_allow : string;
  p_issuer : string
}.

Inductive Target := TClient (c : ClientConfig) | TExporter (x : ExporterConfig).

(** The configuration to fill, the kind under which it is saved, the value of the option
    and the issuer. *)
Record Plan := mkPlan {
  plan_target : Target;
  plan_kind : string;
  plan_value : string;
  plan_issuer : option string
}.

Definition required (given : option string) (nointeractive : bool) (message answer : string)
    : login_error + string :=
  match given with
  | Some v => inr v
  | None => if nointeractive then inl (LoginUsage message) else inr answer
  end.

Definition starts_client (kind : string) : bool := Str.startswith "client" kind.

(** The driver packages of a new client. *)
Definition driver_options (o : Options) (p : Prompts) : login_error + (bool * string) :=
  let unsafe := match o_unsafe o with
                | Some u => u
                | None => if o_nointeractive o then false else p_unsafe p
                end in
  if negb unsafe && negb (truthy (o_allow o))
  then if o_nointeractive o
       then inl (LoginUsage "--allow TEXT or --unsafe is required in non-interactive mode.")
       else inr (unsafe, p_allow p)
  else inr (unsafe, o_allow o).

(** A new configuration. *)
Definition new_target (o : Options) (p : Prompts) (parsed ca_bundle : option string) (kind value : string)
    : login_error + Plan :=
  let value := match parsed with
               | Some n => if String.eqb kind "client" && String.eqb value "default" && truthy n then n else value
               | None => value
               end in
  match required (o_namespace o) (o_nointeractive o) "Namespace is required in non-interactive mode." (p_namespace p) with
  | inl e => inl e
  | inr ns =>
  match required (o_name o) (o_nointeractive o) "Name is required in non-interactive mode." (p_name p) with
  | inl e => inl e
  | inr nm =>
  match required (o_endpoint o) (o_nointeractive o) "Endpoint is required in non-interactive mode." (p_endpoint p) with
  | inl e => inl e
  | inr ep =>
      if starts_client kind then
        match driver_options o p with
        | inl e => inl e
        | inr (unsafe, allow) =>
            inr (mkPlan
              (TClient (mkClient (if String.eqb kind "client" then value else "default") None
                 (decode_unsafe (mkBody (Some ns) nm (Some ep) (Some ""%string) None
                    (default EmptyString ca_bundle) (o_insecure_tls o) (Str.split_char "," allow) unsafe false
                    default_leases))))
              kind value (o_issuer o))
        end
      else
        inr (mkPlan
          (TExporter (mkExporterConfig (if String.eqb kind "exporter" then value else "default") None
             (mkExporterBody (Some ep) (Some ""%string) None [] false false)))
          kind value (o_issuer o))
  end end end.

(** The issuer in a token; [None] is a token that cannot be decoded. *)
Context (jwt_issuer : string -> option (option string)).

Definition prepare (o : Options) (p : Prompts) (parsed ca_bundle : option string) (config : Loaded)
    : login_error + Plan :=
  match config with
  | LoadedClient c =>
      match token (body c) with
      | None => inl (LoginClick "No token set in client config. Please login again.")
      | Some t => match jwt_issuer t with
                  | None => inl (LoginClick "Invalid JWT format")
                  | Some i => inr (mkPlan (TClient c) "client" "" i)
                  end
      end
  | LoadedExporter x =>
      match x_token (x_body x) with
      | None => inl (LoginClick "No token set in exporter config. Please login again.")
      | Some t => match jwt_issuer t with
                  | None => inl (LoginClick "Invalid JWT format")
                  | Some i => inr (mkPlan (TExporter x) "exporter" "" i)
                  end
      end
  | Missing kind value => new_target o p parsed ca_bundle kind value
  end.

(** ** Tokens *)

Inductive flow :=
| RefreshGrant (refresh_token : string)
| TokenExchange (token : string) (connector_id : option string)
| PasswordGrant (username password : string)
| DeviceFlow
| AuthorizationCode.

(** The flow without a stored refresh token. *)
Definition choose_flow (o : Options) (env_device_flow : bool) : flow :=
  match o_token o with
  | Some t => TokenExchange t (o_connector_id o)
  | None =>
      match o_username o, o_password o with
      | Some u, Some pw => PasswordGrant u pw
      | _, _ => if o_device_flow o || env_device_flow then DeviceFlow else AuthorizationCode
      end
  end.

(** The tokens of a flow in a configuration: only clients keep a refresh token. *)
Definition store_tokens (access : string) (refresh : option string) (t : Target) : Target :=
  match t with
  | TClient c => TClient (with_token access refresh c)
  | TExporter x =>
      TExporter (mkExporterConfig (x_alias x) (x_path x)
        (mkExporterBody (x_endpoint (x_body x)) (Some access) (x_description (x_body x)) (x_export (x_body x))
           (x_before_lease (x_body x)) (x_after_lease (x_body x))))
  end.

(** [save_config] *)
Definition save_config (fails : call -> bool) (temp written : string) (kind value : string) (t : Target) : C unit :=
  match t with
  | TClient c =>
      andThen (if String.eqb kind "client" then save CLIENT_CONFIGS_PATH yaml_dump fails temp written c None
               else if String.eqb kind "client_config"
               then save CLIENT_CONFIGS_PATH yaml_dump fails temp written c (Some value) else ok EmptyString)
        (fun _ => ok tt)
  | TExporter x =>
      andThen (if String.eqb kind "exporter" then x_save BASE_PATH x_dump fails temp written x None
               else if String.eqb kind "exporter_config"
               then x_save BASE_PATH x_dump fails temp written x (Some value) else ok EmptyString)
        (fun _ => ok tt)
  end.

(** The tokens are stored and saved; a new client becomes the current one. *)
Definition finish_login (fails : call -> bool) (temp written : string) (plan : Plan) (access : string)
    (refresh : option string) : C unit :=
  let t := store_tokens access refresh (plan_target plan) in
  andThen (save_config fails temp written (plan_kind plan) (plan_value plan) t) (fun _ =>
    match t with
    | TClient c =>
        if String.eqb (plan_kind plan) "client" then
          andThen (load_or_create CLIENT_CONFIGS_PATH USER_CONFIG_PATH yaml_load user_dump user_load) (fun _ =>
          andThen (use_client CLIENT_CONFIGS_PATH USER_CONFIG_PATH yaml_load user_dump (Some (alias c)))
            (fun _ => ok tt))
        else ok tt
    | TExporter _ => ok tt
    end).

Definition stored_refresh (t : Target) : option string :=
  match t with TClient c => refresh_token (body c) | TExporter _ => None end.

(** From the plan on. [oidc] is the provider: [None] when a flow fails or gives no access
    token. A failed refresh is reported in non-interactive mode and otherwise followed by
    the chosen flow; a refresh that succeeds but cannot be saved counts as failed. *)
Definition complete_login (oidc : flow -> option (string * option string)) (fails : call -> bool) (temp written : string)
    (o : Options) (env_device_flow : bool) (plan : Plan) : C unit := fun fs =>
  let plain := fun plan fs =>
    match oidc (choose_flow o env_device_flow) with
    | Some (access, refresh) => finish_login fails temp written plan access refresh fs
    | None => (fs, inl (OtherFailure))
    end in
  match stored_refresh (plan_target plan), o_token o, o_username o, o_password o with
  | Some r, None, None, None =>
      if truthy r then
        match oidc (RefreshGrant r) with
        | Some (access, refresh) =>
            let t := store_tokens access refresh (plan_target plan) in
            match save_config fails temp written (plan_kind plan) (plan_value plan) t fs with
            | (fs', inr tt) => (fs', inr tt)
            | (fs', inl e) =>
                if o_nointeractive o then (fs', inl (ClickException ("Failed to refresh access token: " ++ str_of e)))
                else plain (mkPlan t (plan_kind plan) (plan_value plan) (plan_issuer plan)) fs'
            end
        | None =>
            if o_nointeractive o then (fs, inl (ClickException "Failed to refresh access token")) else plain plan fs
        end
      else plain plan fs
  | _, _, _, _ => plain plan fs
  end.

(** [login] *)
Definition login (get : string -> string + (Z * option AuthConfig)) (oidc : option string -> string -> flow -> option (string * option string))
    (fails : call -> bool) (temp written : string) (target : option string) (o : Options) (p : Prompts)
    (env_device_flow : bool) (config : Loaded) : FS -> FS * (login_error + (exn + unit)) := fun fs =>
  match login_target_options get target o with
  | inl e => (fs, inl e)
  | inr (o, parsed, ca_bundle) =>
      match prepare o p parsed ca_bundle (retarget config parsed) with
      | inl e => (fs, inl e)
      | inr plan =>
          match required (plan_issuer plan) (o_nointeractive o) "Issuer is required in non-interactive mode." (p_issuer p) with
          | inl e => (fs, inl e)
          | inr issuer =>
              let '(fs', r) := complete_login (oidc (Some issuer) (o_client_id o)) fails temp written o env_device_flow plan fs in
              (fs', inr r)
          end
      end
  end.

(** ** The login of an expired client *)

Inductive relogin_error := ReauthenticationFailed (msg : string).

(** Any failure of the flow or of the save is reported as a failed re-authentication; a
    failed refresh falls back to a login by the user. *)
Definition relogin_client (oidc : flow -> option (string * option string)) (fails : call -> bool) (temp written : string)
    (env_device_flow : bool) (c : ClientConfig) : FS -> FS * (relogin_error + unit) := fun fs =>
  match token (body c) with
  | None => (fs, inl (ReauthenticationFailed "No token set in client config"))
  | Some t =>
      match jwt_issuer t with
      | None => (fs, inl (ReauthenticationFailed "Failed to decode JWT issuer"))
      | Some _ =>
          let by_user := fun c fs =>
            match oidc (if env_device_flow then DeviceFlow else AuthorizationCode) with
            | Some (access, refresh) =>
                match save CLIENT_CONFIGS_PATH yaml_dump fails temp written (with_token access refresh c) None fs with
                | (fs', inl e) => (fs', inl (ReauthenticationFailed ("Failed to re-authenticate: " ++ str_of e)))
                | (fs', inr _) => (fs', inr tt)
                end
            | None => (fs, inl (ReauthenticationFailed "Failed to re-authenticate"))
            end in
          match refresh_token (body c) with
          | Some r =>
              if truthy r then
                match oidc (RefreshGrant r) with
                | Some (access, refresh) =>
                    let c' := with_token access refresh c in
                    match save CLIENT_CONFIGS_PATH yaml_dump fails temp written c' None fs with
                    | (fs', inr _) => (fs', inr tt)
                    | (fs', inl _) => by_user c' fs'
                    end
                | None => by_user c fs
                end
              else by_user c fs
          | None => by_user c fs
          end
      end
  end.

(** ** [jmp auth] *)

Inductive auth_status := NoToken | InvalidToken | NoExpiry | ExpiredToken | ExpiringSoon | ValidToken.

Context (jwt_expiry : string -> option (option Z)).

(** [_collect_auth_status] without the claims it copies. *)
Definition collect_auth_status (now : Z) (t : option string) : auth_status :=
  match t with
  | None => NoToken
  | Some t =>
      if negb (truthy t) then NoToken
      else match get_token_remaining jwt_expiry now t with
           | None => InvalidToken
           | Some None => NoExpiry
           | Some (Some remaining) =>
               if remaining <? 0 then ExpiredToken
               else if remaining <? EXPIRY_WARNING then ExpiringSoon else ValidToken
           end
  end.

(** [_print_token_status]: the line shown. *)
Definition token_status_line (remaining : Z) : string :=
  let duration := format_duration remaining in
  if remaining <? 0 then ("Status: EXPIRED (" ++ duration ++ " ago)")%string
  else if remaining <? EXPIRY_WARNING then ("Status: EXPIRING SOON (" ++ duration ++ " remaining)")%string
  else ("Status: Valid (" ++ duration ++ " remaining)")%string.

(** [jmp auth refresh] *)
Definition auth_refresh (oidc : flow -> option (string * option string)) (fails : call -> bool) (temp written : string)
    (c : ClientConfig) : C unit :=
  match refresh_token (body c), token (body c) with
  | Some r, Some t =>
      if negb (truthy r) then throw (ClickException "No refresh token found. Run 'jmp login --offline-access'.")
      else if negb (truthy t) then throw (ClickException "No access token found. Run 'jmp login --offline-access'.")
      else
        match jwt_issuer t with
        | None => throw (ClickException "Failed to decode JWT issuer")
        | Some None => throw (ClickException "Failed to determine issuer from access token.")
        | Some (Some _) =>
            match oidc (RefreshGrant r) with
            | None => throw OtherFailure
            | Some (access, refresh) =>
                andThen (save CLIENT_CONFIGS_PATH yaml_dump fails temp written (with_token access refresh c) None)
                  (fun _ => ok tt)
            end
        end
  | None, _ => throw (ClickException "No refresh token found. Run 'jmp login --offline-access'.")
  | Some r, None =>
      if truthy r then throw (ClickException "No access token found. Run 'jmp login --offline-access'.")
      else throw (ClickException "No refresh token found. Run 'jmp login --offline-access'.")
  end.

(** [jmp auth rotate]: [rotated] is what the controller gives. *)
Definition auth_rotate (rotated : exn + string) (fails : call -> bool) (temp written : string) (now : Z)
    (c : ClientConfig) : C unit :=
  match token (body c) with
  | None => throw (ClickException "No token found in config.")
  | Some t =>
      if negb (truthy t) then throw (ClickException "No token found in config.")
      else
        match get_token_remaining jwt_expiry now t with
        | None => throw OtherFailure
        | Some remaining =>
            if match remaining with Some ms => ms <? 0 | None => false end
            then throw (ClickException "Token is expired.")
            else
              match rotated with
              | inl e => throw e
              | inr t' =>
                  if negb (truthy t') then throw (ClickException "Token rotation failed: empty token received.")
                  else
                    match jwt_expiry t' with
                    | None => throw (ClickException "Token rotation failed: invalid token returned.")
                    | Some _ =>
                        andThen (save CLIENT_CONFIGS_PATH yaml_dump fails temp written (with_token t' None c) None)
                          (fun _ => ok tt)
                    end
              end
        end
  end.

End Config.

(** * Theorems *)

(** ** The login target *)

Definition stripped (s : string) : Prop :=
  s <> EmptyString /\ Str.lstrip s = s /\ Str.rstrip s = s.

Lemma lstrip_length s : (String.length (Str.lstrip s) <= String.length s)%nat.
Proof. induction s as [|a s IH]; cbn; [lia |]. destruct (Str.is_space a); cbn; lia. Qed.

(** Stripping in front does not look behind a first character that stays. *)
Lemma lstrip_app_fixed s t : s <> EmptyString -> Str.lstrip s = s -> Str.lstrip (s ++ t) = (s ++ t)%string.
Proof.
  destruct s as [|a s]; [done |]. rewrite Str.sapp_cons. cbn [Str.lstrip]. intros _.
  destruct (Str.is_space a); [| done]. intros H. pose proof (lstrip_length s) as Hl. rewrite H in Hl. cbn in Hl. lia.
Qed.

Lemma rstrip_app_fixed s t : t <> EmptyString -> Str.rstrip t = t -> Str.rstrip (s ++ t) = (s ++ t)%string.
Proof.
  unfold Str.rstrip. intros Hn H. rewrite Str.srev_app.
  assert (Str.lstrip (Str.srev t) = Str.srev t) as Hl by (rewrite <- (Str.srev_involutive (Str.lstrip _)); by rewrite H).
  rewrite lstrip_app_fixed; [by rewrite Str.srev_app, !Str.srev_involutive | | done].
  intros He. apply Hn. rewrite <- (Str.srev_involutive t), He. reflexivity.
Qed.

Lemma stripped_strip s : stripped s -> Str.strip s = s.
Proof. intros (_ & Hl & Hr). unfold Str.strip. by rewrite Hl. Qed.

Lemma truthy_nonempty s : s <> EmptyString -> truthy s = true.
Proof. by destruct s. Qed.

Lemma rsplit1_none c s : Str.has_char c s = false -> Str.rsplit1 c s = None.
Proof.
  induction s as [|a s IH]; cbn; [done |]. intros [Ha Hs]%orb_false_iff. rewrite IH by done. by rewrite Ha.
Qed.

(** [name@endpoint] is read back as the two parts, spaces around the whole ignored,
    also when the name itself contains an at sign; what has no at sign is an endpoint. *)
Theorem login_target_parts name endpoint :
  stripped name -> stripped endpoint -> Str.has_char "@" endpoint = false ->
  parse_login_argument (name ++ String "@" endpoint) = inr (Some name, endpoint) /\
  parse_login_argument endpoint = inr (None, endpoint).
Proof.
  intros Hn He Ha. split; unfold parse_login_argument.
  - assert (Str.strip (name ++ String "@" endpoint) = name ++ String "@" endpoint)%string as ->.
    { unfold Str.strip. rewrite lstrip_app_fixed by apply Hn.
      change (String "@" endpoint) with (String "@" EmptyString ++ endpoint)%string.
      rewrite <- (Str.sapp_assoc name). apply rstrip_app_fixed; apply He. }
    rewrite truthy_nonempty by (destruct Hn as [Hn _]; destruct name; done). cbn [negb].
    rewrite Str.rsplit1_app by done. rewrite !stripped_strip by done.
    rewrite !truthy_nonempty by (apply Hn || apply He). done.
  - rewrite (stripped_strip endpoint) by done. rewrite truthy_nonempty by apply He. cbn [negb].
    by rewrite rsplit1_none.
Qed.

(** ** The login service *)

Lemma lstrip_slash_app s c t : c <> "/"%char ->
  exists x, lstrip_slash (s ++ String c t) = (x ++ String c t)%string.
Proof.
  intros Hc. induction s as [|a s IH].
  - exists EmptyString. change (EmptyString ++ String c t)%string with (String c t). cbn [lstrip_slash].
    by destruct (Ascii.eqb_spec c "/").
  - rewrite Str.sapp_cons. cbn [lstrip_slash]. destruct (Ascii.eqb a "/"); [done |]. by exists (String a s).
Qed.

(** The slashes at the end are cut off, the host is not. *)
Lemma rstrip_slash_keeps p c r : c <> "/"%char ->
  exists x, rstrip_slash (p ++ String c r) = (p ++ String c x)%string.
Proof.
  intros Hc. unfold rstrip_slash. rewrite Str.srev_app, Str.srev_cons, Str.sapp_assoc.
  change (String c EmptyString ++ Str.srev p)%string with (String c (Str.srev p)).
  destruct (lstrip_slash_app (Str.srev r) c (Str.srev p) Hc) as [x ->].
  rewrite Str.srev_app, Str.srev_cons, Str.srev_involutive. exists (Str.srev x).
  by rewrite Str.sapp_assoc.
Qed.

Lemma drop_prefix_app p t : drop_prefix p (p ++ t) = t.
Proof.
  unfold drop_prefix. replace (String.length (p ++ t) - String.length p)%nat with (String.length t).
  - induction p as [|a p IH]; [| rewrite Str.sapp_cons; exact IH].
    change (EmptyString ++ t)%string with t. induction t as [|a t IH]; [done |]. cbn in *. by rewrite IH.
  - induction p as [|a p IH]; [change (EmptyString ++ t)%string with t | rewrite Str.sapp_cons]; cbn [String.length]; lia.
Qed.

(** A host: the first character behind the scheme is no slash. *)
Lemma netloc_first r : truthy (netloc r) = true -> exists c r', r = String c r' /\ c <> "/"%char.
Proof.
  destruct r as [|c r]; [done |]. cbn. destruct (Ascii.eqb_spec c "/") as [->|Hc]; [done |]. eauto.
Qed.

(** Unless insecure connections were asked for, the configuration of a login is only ever
    fetched over HTTPS, from an address with a host. *)
Theorem login_over_https endpoint url :
  auth_config_url endpoint false = inr url ->
  exists c r, c <> "/"%char /\ url = ("https://" ++ String c r)%string.
Proof.
  unfold auth_config_url. destruct (Str.startswith "http://" endpoint) eqn:Eh; [done |]. cbn [andb negb orb].
  set (ep := if Str.startswith "https://" endpoint then endpoint else _).
  assert (exists t, ep = ("https://" ++ t)%string) as [t Ht].
  { unfold ep. destruct (Str.startswith "https://" endpoint) eqn:E; [by apply Str.startswith_split in E | by eexists]. }
  rewrite Ht. unfold validate_login_endpoint_url.
  change (Str.startswith "http://" ("https://" ++ t)) with false. cbn [andb negb]. rewrite drop_prefix_app.
  destruct (truthy (netloc t)) eqn:En; [| done]. cbn [negb]. intros [= <-].
  apply netloc_first in En as (c & r & -> & Hc). destruct (rstrip_slash_keeps "https://" c r Hc) as [x ->].
  exists c, (x ++ "/v1/auth/config")%string. split; [done |]. by rewrite Str.sapp_assoc.
Qed.

(** ** Where a login is saved *)

(** Reading the current client changes nothing. *)
Lemma user_read_reads clients user yaml_load user_load fs : fst (user_read clients user yaml_load user_load fs) = fs.
Proof.
  unfold user_read, user_exists, andThen, read, read_text. destruct (path_exists user fs); [| done]. cbn [negb].
  destruct (dict_get user fs); [| done]. destruct (user_load _) as [v|]; [| done].
  unfold validate_current_client. destruct v as [a|]; [| done].
  pose proof (load_reads clients yaml_load a fs) as Hl. destruct (load clients yaml_load a fs) as [fs' [e|c]]; cbn in Hl;
    subst fs'; [by destruct e | done].
Qed.

Section Saved.

Context (CLIENT_CONFIGS_PATH USER_CONFIG_PATH BASE_PATH SYSTEM_CONFIG_PATH : string).
Context (yaml_dump : ClientPayload -> string) (yaml_load : string -> option ClientPayload).
Context (x_dump : ExporterBody -> string) (x_yaml_load : string -> option ExporterBody).
Context (user_dump : option string -> string) (user_load : string -> option (option string)).
Context (str_of : exn -> string).
Context (jwt_issuer : string -> option (option string)).

Abbreviation path_of := (get_path CLIENT_CONFIGS_PATH).

Section OneSave.

Context (temp written : string) (fs : FS).
Hypothesis fs_wf : dict_wf fs.
Hypothesis no_temp : dict_get temp fs = None.

(** A save without a path goes to the file of the alias and touches no other. *)
Lemma saved_by_alias c : path_of (alias c) <> temp ->
  exists fs', save CLIENT_CONFIGS_PATH yaml_dump no_failure temp written c None fs = (fs', inr (path_of (alias c))) /\
    dict_get (path_of (alias c)) fs' = Some (saved (yaml_dump (payload_of (body c)))) /\
    forall p, p <> path_of (alias c) -> p <> temp -> dict_get p fs' = dict_get p fs.
Proof.
  intros Hne. unfold save.
  destruct (save_text_atomic no_failure temp written (path_of (alias c)) (yaml_dump (payload_of (body c))) fs)
    as [_ Ho _ Hd Hok]; [done | done | done |].
  specialize (Hok (fun _ => eq_refl)). specialize (Hd _ Hok) as [_ Hd].
  destruct (save_text _ _ _ _ _ fs) as [fs' r]. cbn [fst snd] in *. subst r. eauto.
Qed.

(** A client configuration that was loaded from a path with [--client-config] is not
    updated by [jmp auth refresh]: the new tokens go to the file of its alias among the
    client configurations, and the file that was named keeps the old ones. *)
Theorem path_config_not_updated oidc p c r t i access refresh :
  snd (from_file yaml_load p fs) = inr c -> p <> path_of (alias c) -> p <> temp -> path_of (alias c) <> temp ->
  refresh_token (body c) = Some r -> truthy r = true -> token (body c) = Some t -> truthy t = true ->
  jwt_issuer t = Some (Some i) -> oidc (RefreshGrant r) = Some (access, refresh) ->
  exists fs', auth_refresh CLIENT_CONFIGS_PATH yaml_dump jwt_issuer oidc no_failure temp written c fs = (fs', inr tt) /\
    dict_get p fs' = dict_get p fs /\ snd (from_file yaml_load p fs') = inr c /\
    dict_get (path_of (alias c)) fs' = Some (saved (yaml_dump (payload_of (body (with_token access refresh c))))).
Proof.
  intros Hf Hp Hpt Hne Hr Htr Ht Htt Hi Ho. unfold auth_refresh. rewrite Hr, Ht, Htr, Htt. cbn [negb]. rewrite Hi, Ho.
  unfold andThen. destruct (saved_by_alias (with_token access refresh c) Hne) as (fs' & -> & Hs & Hoth).
  exists fs'. split; [done |]. rewrite Hoth by done. split; [done |]. split; [| done].
  revert Hf. unfold from_file, andThen, read_text. rewrite Hoth by done.
  destruct (dict_get p fs); [| done]. destruct (yaml_load _); [| done]. by destruct (validate_client _).
Qed.

Hypothesis user_roundtrip : forall o, user_load (user_dump o) = Some o.

(** A login that saves under an alias leaves the new token in the file of that alias and
    makes that client the current one of the user. *)
Theorem login_makes_current plan c access refresh cur :
  plan_target plan = TClient c -> plan_kind plan = "client"%string ->
  plain_alias (alias c) -> first_part (alias c) = alias c ->
  reads_back yaml_dump yaml_load (body (with_token access refresh c)) -> normal (body (with_token access refresh c)) ->
  path_of (alias c) <> temp -> USER_CONFIG_PATH <> path_of (alias c) -> USER_CONFIG_PATH <> temp ->
  snd (load_or_create CLIENT_CONFIGS_PATH USER_CONFIG_PATH yaml_load user_dump user_load
         (fst (save CLIENT_CONFIGS_PATH yaml_dump no_failure temp written (with_token access refresh c) None fs))) =
    inr cur ->
  exists fs' c', finish_login CLIENT_CONFIGS_PATH USER_CONFIG_PATH BASE_PATH yaml_dump yaml_load x_dump user_dump
      user_load no_failure temp written plan access refresh fs = (fs', inr tt) /\
    snd (user_read CLIENT_CONFIGS_PATH USER_CONFIG_PATH yaml_load user_load fs') = inr (Some c') /\
    alias c' = alias c /\ token (body c') = Some access.
Proof.
  intros Hpl Hk Hpa Hfp Hy Hn Hne Hu Hut Hcur. unfold finish_login, andThen. rewrite Hpl, Hk. cbn [store_tokens].
  set (c1 := with_token access refresh c) in *. unfold save_config, andThen. rewrite !String.eqb_refl.
  destruct (saved_by_alias c1 Hne) as (fs1 & Hs & Hf1 & Hoth). rewrite Hs in Hcur |- *. cbn [fst ok] in *.
  assert (load CLIENT_CONFIGS_PATH yaml_load (alias c1) fs1 =
          (fs1, inr (mkClient (first_part (alias c1)) (Some (path_of (alias c1))) (body c1)))) as Hl
    by (by eapply load_saved).
  unfold ok at 1.
  destruct (load_or_create CLIENT_CONFIGS_PATH USER_CONFIG_PATH yaml_load user_dump user_load fs1)
    as [fs2 r2] eqn:E2. cbn [snd] in Hcur. subst r2.
  assert (load CLIENT_CONFIGS_PATH yaml_load (alias c1) fs2 =
          (fs2, inr (mkClient (first_part (alias c1)) (Some (path_of (alias c1))) (body c1)))) as Hl2.
  { revert E2. unfold load_or_create, user_exists, andThen, read.
    destruct (path_exists USER_CONFIG_PATH fs1).
    - intros E2. pose proof (user_read_reads CLIENT_CONFIGS_PATH USER_CONFIG_PATH yaml_load user_load fs1) as Hr.
      rewrite E2 in Hr. cbn [fst] in Hr. by subst fs2.
    - unfold user_save, modify, ok. intros [= <- _]. rewrite load_elsewhere by done. by rewrite Hl. }
  destruct (use_client_current CLIENT_CONFIGS_PATH USER_CONFIG_PATH yaml_load user_dump user_load user_roundtrip
              (alias c1) (mkClient (first_part (alias c1)) (Some (path_of (alias c1))) (body c1)) fs2 EmptyString)
    as (fs3 & Hu3 & Hc3 & _); [done | done | done |].
  rewrite Hu3. exists fs3. eexists. split; [done |]. split; [exact Hc3 |]. done.
Qed.

End OneSave.

End Saved.

(** ** Non-interactive logins *)

Lemma target_options_interactive get target o o' parsed ca :
  login_target_options get target o = inr (o', parsed, ca) -> o_nointeractive o' = o_nointeractive o.
Proof.
  unfold login_target_options. destruct target as [t|]; [| by intros [= <- _ _]].
  destruct (parse_login_argument t) as [e|[n ep]]; [done |].
  destruct (fetch_auth_config _ _ _) as [e|a]; [done |]. intros [= <- _ _].
  by destruct n, (o_name o).
Qed.

(** With [--nointeractive] the outcome of a login, the files included, does not depend on
    what the user would have answered: nothing is asked. *)
Theorem nointeractive_asks_nothing clients user base dump ld xd ud ul str_of issuer get oidc fails temp written
    target o p p' device config fs :
  o_nointeractive o = true ->
  login clients user base dump ld xd ud ul str_of issuer get oidc fails temp written target o p device config fs =
  login clients user base dump ld xd ud ul str_of issuer get oidc fails temp written target o p' device config fs.
Proof.
  intros Hn. unfold login. destruct (login_target_options get target o) as [e|[[o' parsed] ca]] eqn:Et; [done |].
  apply target_options_interactive in Et. rewrite Hn in Et.
  assert (forall given m a b, required given true m a = required given true m b) as Hr by by intros [].
  assert (forall kind value, new_target o' p parsed ca kind value = new_target o' p' parsed ca kind value) as Hnew.
  { intros kind value. unfold new_target, driver_options. rewrite !Et.
    rewrite (Hr _ _ (p_namespace p) (p_namespace p')). destruct (required _ _ _ _); [done |].
    rewrite (Hr _ _ (p_name p) (p_name p')). destruct (required _ _ _ _); [done |].
    rewrite (Hr _ _ (p_endpoint p) (p_endpoint p')). destruct (required _ _ _ _); [done |].
    destruct (starts_client kind); [| done]. by destruct (_ && _). }
  assert (prepare issuer o' p parsed ca (retarget config parsed) = prepare issuer o' p' parsed ca (retarget config parsed))
    as -> by (unfold prepare; destruct (retarget config parsed); done || apply Hnew).
  destruct (prepare _ _ _ _ _ _) as [e|plan]; [done |]. rewrite Et. by rewrite (Hr _ _ (p_issuer p) (p_issuer p')).
Qed.

(** ** Witnesses *)

Lemma login_target_parts_witness :
  parse_login_argument "me@lab@login.example.com" = inr (Some "me@lab"%string, "login.example.com"%string).
Proof.
  apply (proj1 (login_target_parts "me@lab" "login.example.com"
    ltac:(split; [discriminate | split; reflexivity]) ltac:(split; [discriminate | split; reflexivity]) eq_refl)).
Defined.

Lemma login_over_https_witness :
  exists c r, c <> "/"%char /\ "https://login.example.com/v1/auth/config"%string = ("https://" ++ String c r)%string.
Proof. exact (login_over_https "login.example.com/" "https://login.example.com/v1/auth/config" eq_refl). Defined.

Definition mine : ClientConfig := mkClient "lab" (Some "/work/lab.yaml"%string) live_body.

Lemma path_config_not_updated_witness :
  exists fs', auth_refresh "/c" live_dump live_issuer (fun _ => Some ("t1"%string, None)) no_failure "/c/.tmp" "" mine
      [("/work/lab.yaml"%string, mkFile "t0" 384)] = (fs', inr tt) /\
    dict_get "/work/lab.yaml" fs' = Some (mkFile "t0" 384).
Proof.
  destruct (path_config_not_updated "/c" live_dump live_load live_issuer "/c/.tmp" ""
              [("/work/lab.yaml"%string, mkFile "t0" 384)] ltac:(apply NoDup_singleton) eq_refl
              (fun _ => Some ("t1"%string, None)) "/work/lab.yaml" mine "r0" "t0" "dex" "t1" None)
    as (fs' & H1 & H2 & _); try reflexivity; try discriminate.
  exists fs'. split; [exact H1 | rewrite H2; reflexivity].
Defined.

Lemma login_makes_current_witness :
  exists fs' c', finish_login "/c" "/u.yaml" "/x" live_dump live_load (fun _ => EmptyString) demo_user_dump
      demo_user_load no_failure "/c/.tmp" "" (mkPlan (TClient mine) "client" "" None) "t1" None
      [("/work/lab.yaml"%string, mkFile "t0" 384)] = (fs', inr tt) /\
    snd (user_read "/c" "/u.yaml" live_load demo_user_load fs') = inr (Some c') /\ alias c' = "lab"%string.
Proof.
  destruct (login_makes_current "/c" "/u.yaml" "/x" live_dump live_load (fun _ => EmptyString) demo_user_dump
              demo_user_load "/c/.tmp" "" [("/work/lab.yaml"%string, mkFile "t0" 384)] ltac:(apply NoDup_singleton)
              eq_refl ltac:(intros [s|]; reflexivity) (mkPlan (TClient mine) "client" "" None) mine "t1" None None)
    as (fs' & c' & H1 & H2 & H3 & _); try reflexivity; try discriminate.
  - split; [reflexivity | intros Hx; vm_compute in Hx; discriminate Hx].
  - exists fs', c'. split; [exact H1 |]. split; [exact H2 | exact H3].
Defined.

Lemma nointeractive_asks_nothing_witness :
  let o := mkOptions None None None None None None None "jumpstarter-cli" None true false None false true "" in
  forall p p', login "/c" "/u.yaml" "/x" live_dump live_load (fun _ => EmptyString) demo_user_dump demo_user_load
      (fun _ => EmptyString) live_issuer (fun _ => inl EmptyString) (fun _ _ _ => None) no_failure "/c/.tmp" "" None o p
      false (Missing "client" "lab") [] =
    login "/c" "/u.yaml" "/x" live_dump live_load (fun _ => EmptyString) demo_user_dump demo_user_load
      (fun _ => EmptyString) live_issuer (fun _ => inl EmptyString) (fun _ _ _ => None) no_failure "/c/.tmp" "" None o p'
      false (Missing "client" "lab") [].
Proof. intros o p p'. apply nointeractive_asks_nothing. reflexivity. Defined.
