(* ===== verification/Flasher.v ===== *)
(** * Flashing images

    [client/flasher.py]: the paths and URLs of images, the streams between a local file and
    the exporter, the client's [flash] and [dump] and their command; [common/fls.py]: which
    flashing tool is used and its download.

    Files are those of [ConfigFiles]; [Path.resolve], the HTTP client and the calls of the
    driver are parameters. Bytes are texts of 8-bit characters. *)

From stdpp Require Import base list strings pretty.
From Stdlib Require Import ZArith Lia Ascii.
From S2P Require Import Prelude PyText Streams ConfigFiles.

Open Scope list_scope.
Open Scope Z_scope.

(** ** Paths *)

Inductive Source := LocalFile (path : string) | Url (url : string).

(** [_parse_path]; [resolve] is [Path.resolve]. *)
Definition parse_path (resolve : string -> string) (path : string) : Source :=
  if Str.startswith "http://" path || Str.startswith "https://" path then Url path else LocalFile (resolve path).

(** ** Reading a file *)

Definition CHUNK : nat := Z.to_nat 65536.

(** The chunks [file_reader] yields. *)
Fixpoint chunks (fuel n : nat) (s : string) : list string :=
  match fuel with
  | O => []
  | S fuel' =>
      match s with
      | EmptyString => []
      | _ => String.substring 0 n s :: chunks fuel' n (String.substring n (String.length s - n) s)
      end
  end.

Definition file_reader (content : string) : list string := chunks (String.length content) CHUNK content.

(** [_AsyncIteratorStream.receive]: the next chunk, or the end of the stream. *)
Definition receive (rest : list string) : option (string * list string) :=
  match rest with c :: rest' => Some (c, rest') | [] => None end.

(** [extra_attributes]: the total of the progress bar. *)
Definition progress_total (total : option Z) : option Z :=
  match total with Some t => if 0 <? t then Some t else None | None => None end.

(** ** Writing a file *)

(** [_FileWriteObjectStream]: the file is opened, and so emptied, by the first item after
    the stream was made or after [send_eof]. *)
Record WriteStream := mkWriteStream { w_path : string; w_open : bool }.

Inductive stream_op := Send (item : string) | SendEof | AClose.

Definition write_step (mode_ : Z) (w : WriteStream) (o : stream_op) (fs : FS) : WriteStream * FS :=
  match o with
  | Send item =>
      let old := if w_open w then match dict_get (w_path w) fs with Some f => content f | None => EmptyString end
                 else EmptyString in
      let m := match dict_get (w_path w) fs with Some f => mode f | None => mode_ end in
      (mkWriteStream (w_path w) true, dict_set (w_path w) (mkFile (old ++ item) m) fs)
  | SendEof | AClose => (mkWriteStream (w_path w) false, fs)
  end.

Fixpoint write_steps (mode_ : Z) (w : WriteStream) (ops : list stream_op) (fs : FS) : WriteStream * FS :=
  match ops with
  | [] => (w, fs)
  | o :: ops' => let '(w', fs') := write_step mode_ w o fs in write_steps mode_ w' ops' fs'
  end.

(** ** The client *)

(** What the driver is called with. *)
Inductive Handle :=
| ClientStream (path content : string) (compression : option Compression)
| WriteTo (path : string) (compression : option Compression)
| Presigned (method url : string).

Inductive call_ := DriverCall (method : string) (handle : Handle) (target : option string).

Inductive flash_error := FileMissing (path : string) | DriverFailed (msg : string) | ArgumentError (msg : string)
| FlashClick (msg : string).

Section Client.

Context (resolve : string -> string) (fs : FS).
(** The n-th call of the driver. *)
Context (driver : nat -> call_ -> string + string).

Definition M (A : Type) : Type := list call_ -> list call_ * (flash_error + A).

Definition ret {A} (a : A) : M A := fun tr => (tr, inr a).
Definition raise {A} (e : flash_error) : M A := fun tr => (tr, inl e).
Definition bind {A B} (m : M A) (g : A -> M B) : M B := fun tr =>
  match m tr with (tr', inl e) => (tr', inl e) | (tr', inr a) => g a tr' end.

(** [self.call] *)
Definition call_driver (c : call_) : M string := fun tr =>
  (tr ++ [c], match driver (length tr) c with inl msg => inl (DriverFailed msg) | inr v => inr v end).

(** The handle of an image: the size of a local file is read first. *)
Definition image_handle (image : string) (compression : option Compression) : flash_error + Handle :=
  match parse_path resolve image with
  | Url u => inr (Presigned "GET" u)
  | LocalFile p =>
      match dict_get p fs with
      | Some f => inr (ClientStream p (content f) compression)
      | None => inl (FileMissing p)
      end
  end.

Definition flash_single (image : string) (target : option string) (compression : option Compression) : M string :=
  match image_handle image compression with
  | inl e => raise e
  | inr h => call_driver (DriverCall "flash" h target)
  end.

Fixpoint flash_all (images : list (string * string)) (compression : option Compression) (results : list (string * string))
    : M (list (string * string)) :=
  match images with
  | [] => ret results
  | (part, img) :: rest =>
      bind (flash_single img (Some part) compression)
        (fun r => flash_all rest compression (dict_set part r results))
  end.

(** [flash] with one image or a dictionary of images. *)
Definition flash (path : string + list (string * string)) (target : option string)
    (compression : option Compression) : M (string + list (string * string)) :=
  match path with
  | inr images =>
      match target with
      | Some _ => raise (ArgumentError "'target' parameter is not valid when flashing multiple images")
      | None => bind (flash_all images compression []) (fun rs => ret (inr rs))
      end
  | inl image => bind (flash_single image target compression) (fun r => ret (inl r))
  end.

Definition dump (path : string) (target : option string) (compression : option Compression) : M string :=
  call_driver (DriverCall "dump"
    (match parse_path resolve path with
     | Url u => Presigned "PUT" u
     | LocalFile p => WriteTo p compression
     end) target).

(** ** The command *)

(** [name:file] *)
Fixpoint split1 (c : ascii) (s : string) : option (string * string) :=
  match s with
  | EmptyString => None
  | String a s' =>
      if Ascii.eqb a c then Some (EmptyString, s')
      else match split1 c s' with Some (h, t) => Some (String a h, t) | None => None end
  end.

Fixpoint target_mapping (specs : list string) (mapping : list (string * string)) : flash_error + list (string * string) :=
  match specs with
  | [] => inr mapping
  | spec :: rest =>
      match split1 ":" spec with
      | None => inl (FlashClick ("Invalid target spec '" ++ spec ++ "', expected name:file"))
      | Some (name, img) => target_mapping rest (dict_set name img mapping)
      end
  end.

Definition flash_command (files target_specs : list string) (compression : option Compression)
    : M (string + list (string * string)) :=
  match target_specs with
  | _ :: _ =>
      match target_mapping target_specs [] with
      | inl e => raise e
      | inr mapping => flash (inr mapping) None compression
      end
  | [] =>
      match files with
      | [] => raise (FlashClick "FILE argument is required unless --target/-t is used")
      | f :: _ => flash (inl f) None compression
      end
  end.

End Client.

(** ** The flashing tool *)

Definition FLS_GITHUB_REPO : string := "jumpstarter-dev/fls".

Definition get_fls_github_url (machine : string) (version : string) (arch : option string) : string :=
  let arch := Str.lower (default machine arch) in
  let binary_name :=
    if String.eqb arch "aarch64" || String.eqb arch "arm64" then "fls-aarch64-linux-musl"
    else if String.eqb arch "x86_64" || String.eqb arch "amd64" then "fls-x86_64-linux"
    else "fls-aarch64-linux-musl" in
  ("https://github.com/" ++ FLS_GITHUB_REPO ++ "/releases/download/" ++ version ++ "/" ++ binary_name)%string.

(** What can fail in a download. *)
Inductive fault := UrlOpen | OpenPart | ReadBody | WritePart | SyncPart | ChmodPart | RenamePart.

#[export] Instance fault_eq_dec : EqDecision fault.
Proof. solve_decision. Defined.

(** [download_fls]. [binary] is the name the temporary file got; [fails] is what fails, with
    [written] in the partial file when the transfer stops half-way. Modes are decimal: 384
    is 0o600, 420 is 0o644 and 493 is 0o755. *)
Definition part_of (binary : string) : string := (binary ++ ".part")%string.

Definition transfer (fails : option fault) (written body : string) (binary : string) (fs : FS) : FS * bool :=
  let part := part_of binary in
  if bool_decide (fails = Some UrlOpen) || bool_decide (fails = Some OpenPart) then (fs, false)
  else if bool_decide (fails = Some ReadBody) || bool_decide (fails = Some WritePart)
  then (dict_set part (mkFile written 420) fs, false)
  else
    let fs := dict_set part (mkFile body 420) fs in
    if bool_decide (fails = Some SyncPart) || bool_decide (fails = Some ChmodPart) then (fs, false)
    else
      let fs := dict_set part (mkFile body 493) fs in
      if bool_decide (fails = Some RenamePart) then (fs, false)
      else (dict_set binary (mkFile body 493) (dict_pop part fs), true).

Definition download_fls (fails : option fault) (written body url binary : string) (fs : FS)
    : FS * (string + string) :=
  let fs := dict_set binary (mkFile EmptyString 384) fs in
  match transfer fails written body binary fs with
  | (fs', true) => (fs', inr binary)
  | (fs', false) =>
      (dict_pop binary (dict_pop (part_of binary) fs'), inl ("Failed to download FLS from " ++ url)%string)
  end.

Inductive fls_request := FromPath | Download (url : string) | Forbidden.

Definition string_set (s : option string) : bool := truthy (default EmptyString s).

(** [get_fls_binary]: the tool on the path, or the URL it is downloaded from. *)
Definition get_fls_binary (machine : string) (fls_version fls_binary_url : option string)
    (allow_custom_binaries : bool) : fls_request :=
  if string_set fls_binary_url then
    if allow_custom_binaries then Download (default EmptyString fls_binary_url) else Forbidden
  else if string_set fls_version then Download (get_fls_github_url machine (default EmptyString fls_version) None)
  else FromPath.

(** * Theorems *)

(** ** Streams *)

Definition concat_strings (l : list string) : string := fold_right String.append EmptyString l.

Lemma concat_strings_cons c l : concat_strings (c :: l) = (c ++ concat_strings l)%string.
Proof. done. Qed.

Lemma substring_length n s : (n <= String.length s)%nat -> String.length (String.substring 0 n s) = n.
Proof. revert s. induction n as [|n IH]; intros [|a s]; cbn; intros H; try lia. rewrite IH; lia. Qed.

Lemma substring_whole n s : (String.length s <= n)%nat -> String.substring 0 n s = s.
Proof. revert s. induction n as [|n IH]; intros [|a s]; cbn; intros H; try done; [lia |]. rewrite IH by lia. done. Qed.

Lemma substring_rest n s : (n <= String.length s)%nat ->
  String.length (String.substring n (String.length s - n) s) = (String.length s - n)%nat.
Proof.
  revert s. induction n as [|n IH]; intros [|a s]; cbn; intros H; try lia.
  - rewrite substring_length; lia.
  - rewrite IH by lia. done.
Qed.

Lemma substring_past n s : (String.length s <= n)%nat -> String.substring n (String.length s - n) s = EmptyString.
Proof.
  revert s. induction n as [|n IH]; intros [|a s]; cbn; intros H; try done; [lia |]. apply IH. lia.
Qed.

Lemma substring_split n s :
  (String.substring 0 n s ++ String.substring n (String.length s - n) s)%string = s.
Proof.
  revert s. induction n as [|n IH]; intros [|a s]; try done.
  - change (String.substring 0 0 (String a s)) with EmptyString. rewrite substring_whole; [done | cbn; lia].
  - cbn. rewrite Str.sapp_cons. f_equal. apply IH.
Qed.

Lemma chunks_concat fuel n s : (0 < n)%nat -> (String.length s <= fuel)%nat ->
  concat_strings (chunks fuel n s) = s /\
  Forall (fun c => c <> EmptyString /\ (String.length c <= n)%nat) (chunks fuel n s).
Proof.
  intros Hn. revert s. induction fuel as [|fuel IH]; intros s Hf; cbn [chunks].
  { destruct s; [done | cbn in Hf; lia]. }
  destruct s as [|a s]; [done |]. set (t := String a s) in *.
  assert (String.length (String.substring n (String.length t - n) t) <= fuel)%nat as Hl.
  { destruct (decide (n <= String.length t)%nat).
    - rewrite substring_rest by done. lia.
    - rewrite substring_past by lia. cbn. lia. }
  destruct (IH _ Hl) as [H1 H2]. split.
  - rewrite concat_strings_cons, H1. apply substring_split.
  - apply Forall_cons. split; [| done]. split.
    + unfold t. destruct n; [lia |]. by cbn.
    + destruct (decide (n <= String.length t)%nat); [rewrite substring_length; lia |].
      rewrite substring_whole by lia. lia.
Qed.

(** A local image reaches the exporter whole and in order, in chunks that are never empty
    and never longer than 64 KiB. *)
Theorem image_sent_whole content :
  concat_strings (file_reader content) = content /\
  Forall (fun c => c <> EmptyString /\ (String.length c <= CHUNK)%nat) (file_reader content).
Proof. apply chunks_concat; [| done]. unfold CHUNK. lia. Qed.

(** The items of a dump, with other operations in between left out. *)
Lemma write_items mode_ p items fs old m :
  dict_get p fs = Some (mkFile old m) ->
  exists fs', write_steps mode_ (mkWriteStream p true) (map Send items) fs = (mkWriteStream p true, fs') /\
    dict_get p fs' = Some (mkFile (old ++ concat_strings items) m) /\
    forall q, q <> p -> dict_get q fs' = dict_get q fs.
Proof.
  revert old fs. induction items as [|x items IH]; intros old fs H.
  - exists fs. cbn. by rewrite Str.sapp_nil.
  - cbn [map write_steps write_step w_open w_path]. rewrite H. cbn [content mode].
    destruct (IH (old ++ x)%string (dict_set p (mkFile (old ++ x) m) fs)) as (fs' & -> & Hp & Hq);
      [apply dict_get_set_same |].
    exists fs'. split; [done |]. split; [by rewrite Hp, Str.sapp_assoc |].
    intros q Hne. rewrite Hq by done. by apply dict_get_set_other.
Qed.

(** A dump of at least one item leaves exactly the items sent in the file, whatever it
    held before, and touches no other file; a dump without any item leaves the file as it
    was, or missing. *)
Theorem dump_writes_items mode_ p items fs :
  let r := write_steps mode_ (mkWriteStream p false) (map Send items ++ [SendEof; AClose]) fs in
  (items = [] -> snd r = fs) /\
  (items <> [] -> exists m, dict_get p (snd r) = Some (mkFile (concat_strings items) m) /\
     forall q, q <> p -> dict_get q (snd r) = dict_get q fs).
Proof.
  assert (forall w ops ops' fs0, write_steps mode_ w (ops ++ ops') fs0 =
            let '(w', fs') := write_steps mode_ w ops fs0 in write_steps mode_ w' ops' fs') as Happ.
  { intros w ops. revert w. induction ops as [|o ops IH]; intros w ops' fs0; cbn; [done |].
    destruct (write_step mode_ w o fs0). apply IH. }
  cbv zeta. rewrite Happ. split; [by intros -> |]. intros Hne. destruct items as [|x items]; [done |].
  cbn [map write_steps write_step w_open w_path].
  set (m := match dict_get p fs with Some f => mode f | None => mode_ end).
  destruct (write_items mode_ p items (dict_set p (mkFile ("" ++ x) m) fs) ("" ++ x) m) as (fs' & -> & Hp & Hq);
    [apply dict_get_set_same |].
  exists m. cbn. split; [exact Hp |]. intros q Hqp. rewrite Hq by done. by apply dict_get_set_other.
Qed.

(** ** Several images *)

Section Order.

Context (resolve : string -> string) (fs : FS) (driver : nat -> call_ -> string + string).

Definition call_target (c : call_) : option string := match c with DriverCall _ _ t => t end.

(** Images for several partitions are flashed one after the other in the order given: the
    calls made are for the first partitions of the list, one each; the first failure ends
    it, and a flash that succeeds has flashed every partition and has a result for each. *)
Theorem flash_in_order images compression tr results :
  NoDup images.*1 ->
  let r := flash_all resolve fs driver images compression results tr in
  exists cs, fst r = tr ++ cs /\ map call_target cs = map Some (take (length cs) images.*1) /\
    (length cs <= length images)%nat /\
    forall rs, snd r = inr rs -> length cs = length images /\
      forall part, part ∈ images.*1 -> dict_get part rs <> None.
Proof.
  cbv zeta. assert (forall images tr results rs, snd (flash_all resolve fs driver images compression results tr) = inr rs ->
    forall k, dict_get k results <> None -> dict_get k rs <> None) as Hkeep.
  { clear. induction images as [|[part img] images IH]; intros tr results rs; cbn [flash_all]; [by intros [= <-] |].
    unfold bind. destruct (flash_single _ _ _ _ _ _ _) as [tr' [e|v]]; [done |]. intros H k Hk.
    eapply IH; [exact H |]. destruct (decide (k = part)) as [->|Hne]; [by rewrite dict_get_set_same |].
    by rewrite dict_get_set_other. }
  revert tr results. induction images as [|[part img] images IH]; intros tr results Hnd; cbn [flash_all fmap list_fmap fst].
  { exists []. rewrite app_nil_r. split_and!; [done | done | done |]. intros rs _. split; [done |]. by intros p ?%elem_of_nil. }
  apply NoDup_cons in Hnd as [Hni Hnd].
  unfold bind, flash_single. destruct (image_handle _ _ _ _) as [e|h].
  { exists []. cbn. rewrite app_nil_r. split_and!; [done | done | lia | done]. }
  unfold call_driver. destruct (driver _ _) as [msg|v].
  { exists [DriverCall "flash" h (Some part)]. cbn. split_and!; [done | done | lia | done]. }
  destruct (IH (tr ++ [DriverCall "flash" h (Some part)]) (dict_set part v results) Hnd) as (cs & H1 & H2 & H3 & H4).
  exists (DriverCall "flash" h (Some part) :: cs). rewrite H1, <- app_assoc. cbn. rewrite H2. split_and!; [done | done | lia |].
  intros rs Hrs. destruct (H4 rs Hrs) as [H5 H6]. split; [lia |]. intros p [->|Hp]%elem_of_cons; [| by apply H6].
  eapply Hkeep; [exact Hrs |]. by rewrite dict_get_set_same.
Qed.

End Order.

(** The image the last specification for a target names. *)
Fixpoint last_image (name : string) (specs : list string) (found : option string) : option string :=
  match specs with
  | [] => found
  | spec :: rest =>
      last_image name rest
        (match split1 ":" spec with
         | Some (n, img) => if String.eqb n name then Some img else found
         | None => found
         end)
  end.

(** Of several specifications for one target the last one counts, and a specification is
    cut at its first colon, so that a URL can be given as the image. *)
Theorem target_specs_last specs mapping m name :
  target_mapping specs mapping = inr m -> dict_get name m = last_image name specs (dict_get name mapping).
Proof.
  revert mapping. induction specs as [|spec specs IH]; intros mapping; cbn [target_mapping last_image]; [by intros [= <-] |].
  destruct (split1 ":" spec) as [[n img]|]; [| done]. intros H. rewrite (IH _ H).
  destruct (String.eqb_spec n name) as [->|Hne]; [by rewrite dict_get_set_same |]. by rewrite dict_get_set_other by congruence.
Qed.

(** ** The flashing tool *)

Lemma part_differs binary : part_of binary <> binary.
Proof.
  unfold part_of. intros H. assert (String.length (binary ++ ".part") = String.length binary) as Hl by by rewrite H.
  revert Hl. clear. induction binary as [|a b IH]; [done |]. rewrite Str.sapp_cons. cbn. lia.
Qed.

(** A download gives back the path of the whole tool, executable, or fails; when it fails,
    wherever that is, neither the tool nor the partial file is left; no other file changes. *)
Theorem download_all_or_nothing fails written body url binary fs :
  dict_wf fs -> dict_get binary fs = None -> dict_get (part_of binary) fs = None ->
  let r := download_fls fails written body url binary fs in
  (forall q, q <> binary -> q <> part_of binary -> dict_get q (fst r) = dict_get q fs) /\
  dict_get (part_of binary) (fst r) = None /\
  match snd r with
  | inr p => fails = None /\ p = binary /\ dict_get binary (fst r) = Some (mkFile body 493)
  | inl _ => fails <> None /\ dict_get binary (fst r) = None
  end.
Proof.
  intros Hwf Hb Hp. cbv zeta. pose proof (part_differs binary) as Hd.
  assert (forall fs1, dict_wf fs1 -> (forall q, q <> binary -> q <> part_of binary -> dict_get q fs1 = dict_get q fs) ->
    let fs2 := dict_pop binary (dict_pop (part_of binary) fs1) in
    (forall q, q <> binary -> q <> part_of binary -> dict_get q fs2 = dict_get q fs) /\
    dict_get (part_of binary) fs2 = None /\ dict_get binary fs2 = None) as Hclean.
  { intros fs1 Hw Ho. cbv zeta. split_and!.
    - intros q H1 H2. rewrite !dict_get_pop_other by done. by apply Ho.
    - rewrite dict_get_pop_other by done. by apply dict_get_pop_same.
    - apply dict_get_pop_same. by apply dict_pop_wf. }
  unfold download_fls, transfer.
  assert (dict_wf (dict_set binary (mkFile EmptyString 384) fs)) as Hw0 by (by apply dict_set_wf).
  assert (forall q, q <> binary -> dict_get q (dict_set binary (mkFile EmptyString 384) fs) = dict_get q fs) as Ho0
    by (intros q Hq; by apply dict_get_set_other).
  destruct fails as [f|].
  - assert (forall fs1 (m : string), dict_wf fs1 ->
      (forall q, q <> binary -> q <> part_of binary -> dict_get q fs1 = dict_get q fs) ->
      let r := match (fs1, false) with
               | (fs', true) => (fs', inr binary)
               | (fs', false) => (dict_pop binary (dict_pop (part_of binary) fs'), inl m)
               end in
      (forall q, q <> binary -> q <> part_of binary -> dict_get q (fst r) = dict_get q fs) /\
      dict_get (part_of binary) (fst r) = None /\
      match snd r with
      | inr p => Some f = None /\ p = binary /\ dict_get binary (fst r) = Some (mkFile body 493)
      | inl _ => Some f <> None /\ dict_get binary (fst r) = None
      end) as Hfail.
    { intros fs1 m H1 H2. cbn. destruct (Hclean fs1 H1 H2) as (? & ? & ?). done. }
    destruct f; apply Hfail; try (apply dict_set_wf; try apply dict_set_wf; done); try done;
      intros q H1 H2; repeat rewrite dict_get_set_other by done; done.
  - rewrite !bool_decide_false by done. cbn [orb fst snd].
    set (fs1 := dict_set (part_of binary) _ (dict_set (part_of binary) _ _)).
    assert (dict_wf fs1) as Hw1 by (by apply dict_set_wf, dict_set_wf). split_and!; [| | done | done |].
    + intros q H1 H2. rewrite dict_get_set_other, dict_get_pop_other by done. unfold fs1.
      rewrite !dict_get_set_other by done. done.
    + rewrite dict_get_set_other by done. by apply dict_get_pop_same.
    + apply dict_get_set_same.
Qed.

(** A tool is only downloaded from the project's own releases, unless the configuration
    allows custom tools and names one; a custom URL that is not allowed is an error and is
    not ignored. *)
Theorem fls_source_gate machine version url allowed :
  match get_fls_binary machine version url allowed with
  | Download u =>
      (allowed = true /\ url = Some u /\ truthy u = true) \/
      (string_set url = false /\ exists rest, u = ("https://github.com/jumpstarter-dev/fls/releases/download/" ++ rest)%string)
  | Forbidden => allowed = false /\ string_set url = true
  | FromPath => string_set url = false /\ string_set version = false
  end.
Proof.
  unfold get_fls_binary. destruct (string_set url) eqn:Eu.
  - destruct allowed; [| done]. left. destruct url as [u|]; [| done]. done.
  - destruct (string_set version) eqn:Ev; [| done]. right. split; [done |].
    unfold get_fls_github_url, FLS_GITHUB_REPO. eexists. done.
Qed.

(** ** Witnesses *)

Lemma flash_in_order_witness :
  exists cs, fst (flash_all (fun p => p) [("/boot.img"%string, mkFile "abc" 420)] (fun _ _ => inr "ok"%string)
      [("boot"%string, "/boot.img"%string); ("root"%string, "https://x/root.img"%string)] None [] []) = cs /\
    map call_target cs = [Some "boot"%string; Some "root"%string].
Proof.
  destruct (flash_in_order (fun p => p) [("/boot.img"%string, mkFile "abc" 420)] (fun _ _ => inr "ok"%string)
    [("boot"%string, "/boot.img"%string); ("root"%string, "https://x/root.img"%string)] None [] [])
    as (cs & H1 & H2 & _ & H4).
  - apply NoDup_cons. split; [intros H; apply list_elem_of_singleton in H; discriminate H | apply NoDup_singleton].
  - exists cs. split; [exact H1 |]. destruct (H4 _ eq_refl) as [H5 _]. rewrite H2, H5. reflexivity.
Defined.

Lemma target_specs_last_witness :
  exists m, target_mapping ["boot:a.img"%string; "boot:https://x/b.img"%string] [] = inr m /\
    dict_get "boot" m = Some "https://x/b.img"%string.
Proof.
  eexists. split; [reflexivity |].
  rewrite (target_specs_last ["boot:a.img"%string; "boot:https://x/b.img"%string] [] _ "boot" eq_refl). reflexivity.
Defined.

Lemma download_all_or_nothing_witness :
  dict_get "/tmp/fls-1" (fst (download_fls (Some RenamePart) "" "ELF" "https://x" "/tmp/fls-1" [])) = None.
Proof.
  destruct (download_all_or_nothing (Some RenamePart) "" "ELF" "https://x" "/tmp/fls-1" [])
    as (_ & _ & _ & H); [apply NoDup_nil_2 | reflexivity | reflexivity | exact H].
Defined.
