(* ===== verification/FlashText.v ===== *)
(** * The texts of the storage flasher

    Package [jumpstarter-driver-flashers], [client.py]: what the client writes to the serial
    console of a device and what it accepts from its user. Commands for the device are shell
    text, so [Shell] below is the part of a POSIX shell that splits a line into words; the
    theorems say which words the texts mean. Strings are ASCII. *)

From stdpp Require Import base list strings sets.
From Stdlib Require Import ZArith Lia Ascii.
From S2P Require Import Oci Prelude PyText Flasher.

Open Scope string_scope.
Open Scope list_scope.

(** * A shell's reading of a line *)

Module Sh.

(** The double quote. *)
Definition DQUOTE : ascii := ascii_of_nat 34.

Inductive token := Word (w : string) | Op (c : ascii).

Inductive mode := Plain | Single | Double.

Record state := St { md : mode; cur : option string; toks : list token }.

Definition start : state := St Plain None [].

Definition flush_word (cur : option string) : list token := match cur with Some w => [Word w] | None => [] end.

Definition blank (c : ascii) : bool := Ascii.eqb c " " || Ascii.eqb c (ascii_of_nat 9).

Definition operator (c : ascii) : bool :=
  Str.has_char c "&;|()<>" || Ascii.eqb c Str.newline.

(** [\w] of a regular expression with [re.ASCII]. *)
Definition word_char (c : ascii) : bool :=
  let n := nat_of_ascii c in
  ((48 <=? n) && (n <=? 57) || (65 <=? n) && (n <=? 90) || (97 <=? n) && (n <=? 122) || (n =? 95))%nat.

(** The characters [shlex.quote] leaves unquoted. *)
Definition safe_char (c : ascii) : bool := word_char c || Str.has_char c "@%+=:,./-".

Definition add (c : ascii) (cur : option string) : option string :=
  Some (default "" cur ++ String c "")%string.

(** One character. [None] is text that is not taken as it is (an expansion, an escape, a
    comment); a question mark outside quotes is a pattern that matches no file. *)
Definition step (s : state) (c : ascii) : option state :=
  match md s with
  | Single =>
      if Ascii.eqb c "'" then Some (St Plain (cur s) (toks s)) else Some (St Single (add c (cur s)) (toks s))
  | Double =>
      if Ascii.eqb c DQUOTE then Some (St Plain (cur s) (toks s))
      else if Str.has_char c "$`\" then None
      else Some (St Double (add c (cur s)) (toks s))
  | Plain =>
      if blank c then Some (St Plain None (toks s ++ flush_word (cur s)))
      else if operator c then Some (St Plain None (toks s ++ flush_word (cur s) ++ [Op c]))
      else if Ascii.eqb c "'" then Some (St Single (Some (default "" (cur s))) (toks s))
      else if Ascii.eqb c DQUOTE then Some (St Double (Some (default "" (cur s))) (toks s))
      else if safe_char c || Ascii.eqb c "?" then Some (St Plain (add c (cur s)) (toks s))
      else None
  end.

Fixpoint run (text : string) (s : state) : option state :=
  match text with
  | EmptyString => Some s
  | String c rest => match step s c with Some s' => run rest s' | None => None end
  end.

Definition lex (text : string) : option (list token) :=
  match run text start with
  | Some (St Plain cur toks) => Some (toks ++ flush_word cur)
  | _ => None
  end.

End Sh.

(** * Texts for the device *)

Definition DQ : string := String Sh.DQUOTE "".

(** [s.replace("'", ...)], which leaves the quotes, adds a quoted quote and enters them again. *)
Definition ESCAPED_QUOTE : string := ("'" ++ DQ ++ "'" ++ DQ ++ "'")%string.

Fixpoint sq (s : string) : string :=
  match s with
  | EmptyString => EmptyString
  | String c s' => if Ascii.eqb c "'" then (ESCAPED_QUOTE ++ sq s')%string else String c (sq s')
  end.

(** [shlex.quote] *)
Definition quote (s : string) : string :=
  match s with
  | EmptyString => "''"
  | _ => if Str.all_chars Sh.safe_char s then s else ("'" ++ sq s ++ "'")%string
  end.

Definition header_part (kv : string * string) : string :=
  ("-H '" ++ sq (Str.strip (fst kv)) ++ ": " ++ sq (Str.strip (snd kv)) ++ "'")%string.

Definition named (kv : string * string) : bool := truthy (Str.strip (fst kv)).

Definition curl_header_args (headers : list (string * string)) : string :=
  Str.join " " (map header_part (List.filter named headers)).

Definition cmdline_tls_args (insecure_tls : bool) (stored_cacert : option string) : string :=
  Str.strip ((if insecure_tls then "-k " else "") ++
             match stored_cacert with
             | Some c => if truthy c then "--cacert " ++ c ++ " " else ""
             | None => ""
             end)%string.

(** The commands the client sends. *)
Definition check_url_command (tls_args header_args image_url : string) : string :=
  ("curl --location --max-time 30 --fail -sS -r 0-0 -o /dev/null " ++ tls_args ++ " " ++ header_args ++
   " " ++ DQ ++ image_url ++ DQ)%string.

Definition download_fls_command (download_url : string) : string :=
  ("curl -L " ++ download_url ++ " -o /sbin/fls")%string.

Definition fls_command (auth_env tls_args header_args image_url target_path : string) : string :=
  (auth_env ++ " fls from-url -i 1.0 -n " ++ tls_args ++ " " ++ header_args ++ " --o-direct " ++
   DQ ++ image_url ++ DQ ++ " " ++ target_path)%string.

Definition shell_flash_command (decompress_cmd tls_args header_args image_url target_path : string) : string :=
  ("( set -o pipefail; curl -fsSL " ++ tls_args ++ " " ++ header_args ++ " " ++ DQ ++ image_url ++ DQ ++ " | " ++
   decompress_cmd ++ " dd of=" ++ target_path ++ " bs=64k iflag=fullblock oflag=direct && echo " ++
   DQ ++ "F" ++ DQ ++ DQ ++ "LASH_COMPLETE" ++ DQ ++ " || echo " ++
   DQ ++ "F" ++ DQ ++ DQ ++ "LASH_FAILED" ++ DQ ++ " ) &")%string.

(** ** Credentials for an OCI registry *)

(** [base64.b64encode] *)
Definition b64_char (v : Z) : Z :=
  (if v <? 26 then v + 65 else if v <? 52 then v + 71 else if v <? 62 then v - 4
   else if v =? 62 then 43 else 47)%Z.

Fixpoint b64encode (bs : list Z) : list Z :=
  match bs with
  | [] => []
  | [a] => [b64_char (a / 4); b64_char (a mod 4 * 16); PAD; PAD]%Z
  | [a; b] => [b64_char (a / 4); b64_char (a mod 4 * 16 + b / 16); b64_char (b mod 16 * 4); PAD]%Z
  | a :: b :: c :: rest =>
      [b64_char (a / 4); b64_char (a mod 4 * 16 + b / 16); b64_char (b mod 16 * 4 + c / 64);
       b64_char (c mod 64)]%Z ++ b64encode rest
  end.

Fixpoint of_codes (l : list Z) : string :=
  match l with [] => EmptyString | c :: l' => String (ascii_of_nat (Z.to_nat c)) (of_codes l') end.

Definition NEWLINE : string := String Str.newline "".

Definition creds_content (oci_username oci_password : string) : string :=
  ("FLS_REGISTRY_USERNAME=" ++ quote oci_username ++ NEWLINE ++
   "FLS_REGISTRY_PASSWORD=" ++ quote oci_password ++ NEWLINE)%string.

Definition CREDS_CHUNK : nat := 512.

Definition creds_chunks (content : string) : list string :=
  let encoded := of_codes (b64encode (Utf8.of_string content)) in
  chunks (String.length encoded) CREDS_CHUNK encoded.

(** [_setup_fls_oci_credential_file]: the lines it sends to write [content] into a file. *)
Definition file_lines (creds_file content : string) : list string :=
  let b64_file := (creds_file ++ ".b64")%string in
  [("true > " ++ quote creds_file)%string; ("true > " ++ quote b64_file)%string] ++
  map (fun chunk => ("printf '%s' " ++ quote chunk ++ " >> " ++ quote b64_file)%string) (creds_chunks content) ++
  [("base64 -d " ++ quote b64_file ++ " > " ++ quote creds_file)%string; ("chmod 600 " ++ quote creds_file)%string].

Definition credential_lines (creds_file oci_username oci_password : string) : list string :=
  file_lines creds_file (creds_content oci_username oci_password).

Definition fls_oci_auth_env (path : string) (creds_file : option string) : string :=
  match creds_file with
  | Some f =>
      if Str.startswith "oci://" path && truthy f
      then ("set -o allexport; . " ++ quote f ++ "; set +o allexport;")%string
      else ""
  | None => ""
  end.

(** ** Redaction *)

(** [s.replace(old, new)] for an [old] that is not empty: [skip] characters of an occurrence
    are still to be passed over. *)
Fixpoint replace_from (old new s : string) (skip : nat) : string :=
  match s with
  | EmptyString => EmptyString
  | String a s' =>
      match skip with
      | S k => replace_from old new s' k
      | O => if String.prefix old s then (new ++ replace_from old new s' (String.length old - 1))%string
             else String a (replace_from old new s' 0)
      end
  end.

(** [sorted(values, key=len, reverse=True)] *)
Fixpoint insert_longest (v : string) (l : list string) : list string :=
  match l with
  | [] => [v]
  | x :: l' => if (String.length x <? String.length v)%nat then v :: l else x :: insert_longest v l'
  end.

Definition longest_first (l : list string) : list string := fold_left (fun acc v => insert_longest v acc) l [].

Definition redact_sensitive_values (values : list string) (text : string) : string :=
  fold_left (fun redacted value => replace_from value "***" redacted 0)
    (longest_first (List.filter truthy values)) text.

(** [_RedactingConsoleWriter]: every piece is redacted on its own. *)
Definition console_writes (values : list string) (pieces : list string) : string :=
  concat_strings (map (redact_sensitive_values values) pieces).

(** * Texts from the user *)

Inductive arg_error := BadArgument (msg : string) | BadUsage (msg : string) | MissingKey (key : string).

(** ** Headers *)

(** The characters of an HTTP token. *)
Definition token_char (c : ascii) : bool :=
  Sh.word_char c || Str.has_char c "!#$%&'*+-.^`|~".

Definition crlf (c : ascii) : bool := Ascii.eqb c (ascii_of_nat 13) || Ascii.eqb c Str.newline.

Definition is_token (s : string) : bool := truthy s && Str.all_chars token_char s.

Fixpoint check_header_items (seen : list string) (headers : list (string * string)) : arg_error + unit :=
  match headers with
  | [] => inr tt
  | (k, v) :: rest =>
      let key := Str.strip k in
      let value := Str.strip v in
      if negb (truthy key) then inl (BadArgument ("Invalid header key: '" ++ key ++ "'"))
      else if negb (is_token key)
      then inl (BadArgument ("Invalid header name '" ++ key ++ "': must be an HTTP token (RFC7230)"))
      else if negb (Str.all_chars (fun c => negb (crlf c)) key && Str.all_chars (fun c => negb (crlf c)) value)
      then inl (BadArgument "Header names/values must not contain CR/LF")
      else if bool_decide (Str.lower key ∈ seen) then inl (BadArgument ("Duplicate header '" ++ key ++ "'"))
      else check_header_items (Str.lower key :: seen) rest
  end%string.

(** [_validate_header_dict] gives back the dictionary it checked. *)
Definition validate_header_dict (headers : list (string * string)) : arg_error + list (string * string) :=
  match check_header_items [] headers with inl e => inl e | inr _ => inr headers end.

Fixpoint header_map (hs : list string) (m : list (string * string)) : arg_error + list (string * string) :=
  match hs with
  | [] => inr m
  | h :: hs' =>
      match Str.split1 ":" h with
      | None => inl (BadUsage ("Invalid header format: '" ++ h ++ "'. Expected 'Key: Value'.")%string)
      | Some (k, v) => header_map hs' (dict_set (Str.strip k) (Str.strip v) m)
      end
  end.

Definition parse_headers (hs : list string) : arg_error + list (string * string) :=
  match header_map hs [] with
  | inl e => inl e
  | inr m => match validate_header_dict m with
             | inl (BadArgument msg) => inl (BadUsage msg)
             | r => r
             end
  end.

Definition is_authorization (kv : string * string) : bool := String.eqb (Str.lower (fst kv)) "authorization".

(** [_prepare_headers] *)
Definition prepare_headers (headers : list (string * string)) (bearer_token : option string) : arg_error + string :=
  match bearer_token with
  | Some t =>
      if negb (truthy t) then inr (curl_header_args headers)
      else
        let all_headers := if existsb is_authorization headers then headers
                           else dict_set "Authorization" ("Bearer " ++ t)%string headers in
        if is_some (dict_get "Authorization" headers) then inr (curl_header_args all_headers)
        else
          match dict_get "Authorization" all_headers with
          | None => inl (MissingKey "Authorization")
          | Some a => match validate_header_dict [("Authorization", a)] with
                      | inl e => inl e
                      | inr _ => inr (curl_header_args all_headers)
                      end
          end
  | None => inr (curl_header_args headers)
  end.

Definition bearer_char (c : ascii) : bool :=
  let n := nat_of_ascii c in
  ((32 <? n) && (n <? 127))%nat && negb (Ascii.eqb c Sh.DQUOTE || Ascii.eqb c "\").

Definition validate_bearer_token (token : option string) : arg_error + option string :=
  match token with
  | None => inr None
  | Some t =>
      let t := Str.strip t in
      if negb (truthy t) then inl (BadUsage "Bearer token cannot be empty")
      else if negb (Str.all_chars bearer_char t) then inl (BadUsage "Bearer token contains invalid characters")
      else if (4096 <? String.length t)%nat then inl (BadUsage "Bearer token is too long (max 4096 characters)")
      else inr (Some t)
  end.

(** ** Names and operations *)

(** [Path(p).name] *)
Definition path_name (p : string) : string :=
  default "" (last (List.filter (fun c => truthy c && negb (String.eqb c ".")) (Str.split_char "/" p))).

(** The text before the first character that satisfies [stop]. *)
Fixpoint until (stop : ascii -> bool) (s : string) : string :=
  match s with
  | EmptyString => EmptyString
  | String c s' => if stop c then EmptyString else String c (until stop s')
  end.

Fixpoint after (stop : ascii -> bool) (s : string) : string :=
  match s with EmptyString => EmptyString | String c s' => if stop c then s else after stop s' end.

Definition drop_scheme (url : string) : string :=
  let n := if Str.startswith "https://" url then 8%nat else 7%nat in
  String.substring n (String.length url - n) url.

(** The last segment of [urlparse(url).path]: the path ends before the query and the
    fragment, and its last segment before its parameters. *)
Definition url_last_segment (url : string) : string :=
  let rest := after (fun c => Str.has_char c "/?#") (drop_scheme url) in
  let path := until (fun c => Str.has_char c "?#") rest in
  until (fun c => Ascii.eqb c ";") (default "" (last (Str.split_char "/" path))).

Definition is_http (path : string) : bool := Str.startswith "http://" path || Str.startswith "https://" path.

(** [clean_filename] *)
Definition clean_filename (path : string) : string :=
  if is_http path then url_last_segment path else path_name (until (Ascii.eqb "?") path).

Definition last_segment (s : string) : string := default "" (last (Str.split_char "/" s)).

(** [_filename] *)
Definition filename (path : string) : string :=
  if Str.startswith "oci://" path then
    let oci_path := String.substring 6 (String.length path - 6) path in
    match Str.rsplit1 ":" oci_path with
    | Some (repository, tag) => (last_segment repository ++ "-" ++ tag)%string
    | None => last_segment oci_path
    end
  else clean_filename path.

Definition endswith (suffix s : string) : bool := Str.startswith (Str.srev suffix) (Str.srev s).

Definition get_decompression_command (path : string) : string :=
  let name := Str.lower (clean_filename path) in
  if endswith ".gz" name || endswith ".gzip" name then "zcat |"
  else if endswith ".xz" name then "xzcat |"
  else if endswith ".zst" name then "zstdcat |"
  else "".

(** [_resolve_flash_parameters]: image, partition and block device of every operation. *)
Definition flash_op : Type := string * option string * option string.

Fixpoint partition_ops (specs : list string) (block_device : option string) : arg_error + list flash_op :=
  match specs with
  | [] => inr []
  | spec :: specs' =>
      match Str.split1 ":" spec with
      | None => inl (BadUsage ("Invalid flash spec format: '" ++ spec ++ "'. Expected 'partition:filename'")%string)
      | Some (label, file) =>
          if negb (truthy label && truthy file)
          then inl (BadUsage ("Invalid flash spec format: '" ++ spec ++ "'. Both partition label and filename are required")%string)
          else match partition_ops specs' block_device with
               | inl e => inl e
               | inr ops => inr ((file, Some label, block_device) :: ops)
               end
      end
  end.

Definition resolve_flash_parameters (file : option string) (partitions : list string) (block_device : option string)
    : arg_error + list flash_op :=
  if truthy (default "" file) then
    match partitions with
    | [] => inr [(default "" file, None, block_device)]
    | _ => inl (BadUsage "Cannot specify FILE argument with -t options. Use either 'flash image.img' or 'flash -t partition:file'")
    end
  else match partitions with
       | [] => inl (BadUsage "Must provide either FILE argument or -t options. Use 'j storage flash --help' for usage examples")
       | _ => partition_ops partitions block_device
       end.

(** * Theorems *)

(** ** What the shell reads *)

Module Reading.

Import Sh.

Lemma run_concat a b s : run (a ++ b) s = match run a s with Some s' => run b s' | None => None end.
Proof. revert s. induction a as [|c a IH]; intros s; [done |]. rewrite Str.sapp_cons. cbn [run]. destruct (step s c); auto. Qed.

(** [text] stands for the words [ws], wherever a word may begin. *)
Definition reads (text : string) (ws : list token) : Prop :=
  forall t, exists cur t', run text (St Plain None t) = Some (St Plain cur t') /\ t' ++ flush_word cur = t ++ ws.

Lemma reads_lex text ws : reads text ws -> lex text = Some ws.
Proof. intros H. destruct (H []) as (cur & t & Hr & Ht). unfold lex, start. rewrite Hr. by rewrite Ht. Qed.

Lemma reads_nil : reads "" [].
Proof. intros t. exists None, t. done. Qed.

Lemma reads_sep a b wa wb : reads a wa -> reads b wb -> reads (a ++ " " ++ b) (wa ++ wb).
Proof.
  intros Ha Hb t. destruct (Ha t) as (cur & t1 & H1 & E1). rewrite run_concat, H1, run_concat.
  assert (run " " (St Plain cur t1) = Some (St Plain None (t ++ wa))) as -> by (by rewrite <- E1).
  cbn match. destruct (Hb (t ++ wa)) as (cur2 & t2 & -> & E2). exists cur2, t2. split; [done |].
  by rewrite E2, <- app_assoc.
Qed.

Lemma run_sq s w t : run (sq s) (St Single (Some w) t) = Some (St Single (Some (w ++ s)%string) t).
Proof.
  revert w. induction s as [|c s IH]; intros w; cbn [sq]; [by rewrite Str.sapp_nil |].
  destruct (Ascii.eqb_spec c "'") as [->|Hc].
  - rewrite run_concat. change (run ESCAPED_QUOTE (St Single (Some w) t)) with (Some (St Single (Some (w ++ "'")%string) t)).
    cbn match. rewrite IH. by rewrite Str.sapp_assoc.
  - cbn [run]. unfold step. cbn [md]. rewrite (proj2 (Ascii.eqb_neq c "'") Hc). cbn [Sh.cur Sh.toks].
    unfold add. cbn [from_option id]. rewrite IH. by rewrite Str.sapp_assoc.
Qed.

(** Any text in single quotes, escaped, is one word. *)
Lemma run_single_quoted s cur t :
  run ("'" ++ sq s ++ "'") (St Plain cur t) = Some (St Plain (Some (default "" cur ++ s)%string) t).
Proof.
  rewrite run_concat. change (run "'" (St Plain cur t)) with (Some (St Single (Some (default "" cur)) t)).
  cbn match. rewrite run_concat, run_sq. reflexivity.
Qed.

Lemma safe_is_plain c : safe_char c = true ->
  blank c = false /\ operator c = false /\ Ascii.eqb c "'" = false /\ Ascii.eqb c DQUOTE = false.
Proof. destruct c as [[] [] [] [] [] [] [] []]; vm_compute; intros H; try discriminate H; auto. Qed.

Lemma run_safe_some s w t : Str.all_chars safe_char s = true ->
  run s (St Plain (Some w) t) = Some (St Plain (Some (w ++ s)%string) t).
Proof.
  revert w. induction s as [|c s IH]; intros w; cbn [Str.all_chars run]; [by rewrite Str.sapp_nil |].
  intros [Hc Hs]%andb_prop. destruct (safe_is_plain c Hc) as (H1 & H2 & H3 & H4).
  unfold step. cbn [md]. rewrite H1, H2, H3, H4, Hc. cbn [orb Sh.cur Sh.toks]. unfold add. cbn [from_option id].
  rewrite IH by done. by rewrite Str.sapp_assoc.
Qed.

Lemma run_safe s cur t : Str.all_chars safe_char s = true -> s <> EmptyString ->
  run s (St Plain cur t) = Some (St Plain (Some (default "" cur ++ s)%string) t).
Proof.
  destruct s as [|c s]; [done |]. cbn [Str.all_chars run]. intros [Hc Hs]%andb_prop _.
  destruct (safe_is_plain c Hc) as (H1 & H2 & H3 & H4).
  unfold step. cbn [md]. rewrite H1, H2, H3, H4, Hc. cbn [orb Sh.cur Sh.toks]. unfold add.
  rewrite run_safe_some by done. by rewrite Str.sapp_assoc.
Qed.

Lemma run_quote s cur t :
  run (quote s) (St Plain cur t) = Some (St Plain (Some (default "" cur ++ s)%string) t).
Proof.
  unfold quote. destruct s as [|c s]; [cbn; by rewrite Str.sapp_nil |].
  destruct (Str.all_chars safe_char _) eqn:E; [by apply run_safe | apply run_single_quoted].
Qed.

Lemma reads_quote s : reads (quote s) [Word s].
Proof. intros t. eexists _, _. rewrite run_quote. done. Qed.

Lemma reads_safe s : Str.all_chars safe_char s = true -> s <> EmptyString -> reads s [Word s].
Proof. intros H1 H2 t. eexists _, _. by rewrite run_safe. Qed.

(** Text in double quotes is one word when nothing in it is expanded. *)
Definition literal_char (c : ascii) : bool := negb (Ascii.eqb c DQUOTE || Str.has_char c "$`\").

Lemma run_double s w t : Str.all_chars literal_char s = true ->
  run s (St Double (Some w) t) = Some (St Double (Some (w ++ s)%string) t).
Proof.
  revert w. induction s as [|c s IH]; intros w; cbn [Str.all_chars run]; [by rewrite Str.sapp_nil |].
  intros [Hc Hs]%andb_prop. unfold literal_char in Hc. apply negb_true_iff, orb_false_iff in Hc as [H1 H2].
  unfold step. cbn [md]. rewrite H1, H2. cbn [Sh.cur Sh.toks]. unfold add. cbn [from_option id].
  rewrite IH by done. by rewrite Str.sapp_assoc.
Qed.

Lemma reads_double s : Str.all_chars literal_char s = true -> reads (DQ ++ s ++ DQ) [Word s].
Proof.
  intros Hs t. rewrite run_concat. change (run DQ (St Plain None t)) with (Some (St Double (Some "") t)).
  cbn match. rewrite run_concat, run_double by done. by eexists _, _.
Qed.

(** Headers. *)
Definition header_words (headers : list (string * string)) : list string :=
  concat (map (fun kv => ["-H"; Str.strip (fst kv) ++ ": " ++ Str.strip (snd kv)]%string) (List.filter named headers)).

Lemma sq_app a b : sq (a ++ b) = (sq a ++ sq b)%string.
Proof.
  induction a as [|c a IH]; [done |]. rewrite Str.sapp_cons. cbn [sq]. rewrite IH.
  destruct (Ascii.eqb c "'"); [by rewrite Str.sapp_assoc | by rewrite Str.sapp_cons].
Qed.

Lemma reads_header kv :
  reads (header_part kv) [Word "-H"; Word (Str.strip (fst kv) ++ ": " ++ Str.strip (snd kv))].
Proof.
  unfold header_part.
  replace ("-H '" ++ _)%string
    with ("-H" ++ " " ++ ("'" ++ sq (Str.strip (fst kv) ++ ": " ++ Str.strip (snd kv)) ++ "'"))%string.
  - apply (reads_sep _ _ [Word "-H"]); [by apply reads_safe |].
    intros t. eexists _, _. rewrite run_single_quoted. done.
  - rewrite !sq_app. change (sq ": ") with ": ". by rewrite !Str.sapp_assoc.
Qed.

Lemma reads_headers headers : reads (curl_header_args headers) (map Word (header_words headers)).
Proof.
  unfold curl_header_args, header_words. induction (List.filter named headers) as [|kv l IH]; [apply reads_nil |].
  destruct l as [|kv' l]; [apply reads_header |].
  change (Str.join " " (map header_part (kv :: kv' :: l)))
    with (header_part kv ++ " " ++ Str.join " " (map header_part (kv' :: l)))%string.
  cbn [map concat app]. apply (reads_sep _ _ [_; _]); [apply reads_header | exact IH].
Qed.

(** The option of a stored certificate. *)
Definition CACERT : string := "/tmp/cacert.crt".

Definition tls_words (insecure stored : bool) : list string :=
  (if insecure then ["-k"] else []) ++ (if stored then ["--cacert"; CACERT] else []).

Lemma reads_tls (insecure stored : bool) :
  reads (cmdline_tls_args insecure (if stored then Some CACERT else None)) (map Word (tls_words insecure stored)).
Proof.
  assert (reads ("--cacert" ++ " " ++ CACERT) [Word "--cacert"; Word CACERT]) as Hc
    by (apply (reads_sep _ _ [_]); by apply reads_safe).
  destruct insecure, stored.
  - apply (reads_sep "-k" ("--cacert" ++ " " ++ CACERT) [Word "-k"]); [by apply reads_safe | exact Hc].
  - apply (reads_safe "-k"); done.
  - exact Hc.
  - exact reads_nil.
Qed.

(** Words written out, and an operator after a word. *)
Lemma reads_words ws :
  Forall (fun w => Str.all_chars safe_char w = true /\ w <> EmptyString) ws -> reads (Str.join " " ws) (map Word ws).
Proof.
  induction ws as [|w ws IH]; intros Hf; [apply reads_nil |]. apply Forall_cons in Hf as [[H1 H2] Hf].
  destruct ws as [|w' ws]; [by apply reads_safe |].
  change (Str.join " " (w :: w' :: ws)) with (w ++ " " ++ Str.join " " (w' :: ws))%string.
  apply (reads_sep _ _ [_]); [by apply reads_safe | by apply IH].
Qed.

Lemma reads_op a c wa : operator c = true -> reads a wa -> reads (a ++ String c "") (wa ++ [Op c]).
Proof.
  intros Hc Ha t. destruct (Ha t) as (cur & t1 & H1 & E1). rewrite run_concat, H1. cbn [run]. unfold step. cbn [md].
  assert (blank c = false) as -> by (revert Hc; destruct c as [[] [] [] [] [] [] [] []]; vm_compute; auto; discriminate).
  rewrite Hc. eexists _, _. split; [done |]. cbn. by rewrite app_nil_r, app_assoc, E1, <- app_assoc.
Qed.

End Reading.

Import Reading.

(** Whatever headers are given, the text made for curl is read by the shell as exactly the
    options meant: one [-H] and one word with name and value for every header that has a
    name, in order, with quotes, blanks, expansions and operators taken literally. *)
Theorem header_args_exact headers :
  Sh.lex (curl_header_args headers) = Some (map Sh.Word (header_words headers)).
Proof. apply reads_lex, reads_headers. Qed.

(** What makes a registry's credentials available to the tool. *)
Definition auth_tokens (path : string) (creds_file : option string) : list Sh.token :=
  match creds_file with
  | Some f => if Str.startswith "oci://" path && truthy f
              then map Sh.Word ["set"; "-o"; "allexport"] ++ [Sh.Op ";"] ++ [Sh.Word "."; Sh.Word f; Sh.Op ";"] ++
                   map Sh.Word ["set"; "+o"; "allexport"] ++ [Sh.Op ";"]
              else []
  | None => []
  end.

Ltac all_safe := repeat (apply Forall_cons; split; [split; [reflexivity | discriminate] |]); apply Forall_nil_2.

Lemma reads_auth_env path creds_file : reads (fls_oci_auth_env path creds_file) (auth_tokens path creds_file).
Proof.
  unfold fls_oci_auth_env, auth_tokens. destruct creds_file as [f|]; [| apply reads_nil].
  destruct (Str.startswith _ _ && truthy f); [| apply reads_nil].
  apply (reads_sep "set -o allexport;" (". " ++ quote f ++ "; set +o allexport;")
           (map Sh.Word ["set"; "-o"; "allexport"] ++ [Sh.Op ";"])
           ([Sh.Word "."; Sh.Word f; Sh.Op ";"] ++ map Sh.Word ["set"; "+o"; "allexport"] ++ [Sh.Op ";"])).
  { apply (reads_op "set -o allexport"); [done |]. apply (reads_words ["set"; "-o"; "allexport"]). all_safe. }
  replace (". " ++ quote f ++ "; set +o allexport;")%string
    with ("." ++ " " ++ ((quote f ++ ";") ++ " " ++ "set +o allexport;"))%string
    by (by rewrite !Str.sapp_assoc).
  apply (reads_sep "." _ [_]); [by apply reads_safe |].
  apply (reads_sep (quote f ++ ";") _ [_; _]); [apply (reads_op _ _ [_]); [done | apply reads_quote] |].
  apply (reads_op "set +o allexport" _ (map Sh.Word ["set"; "+o"; "allexport"])); [done |].
  apply (reads_words ["set"; "+o"; "allexport"]). all_safe.
Qed.

(** C21: The line that flashes an image runs the tool with exactly the arguments meant: the TLS
    options, the headers, the URL of the image and the target, after the credentials are
    sourced when there are some. The URL must not contain what double quotes do not protect,
    the target nothing a shell treats specially. *)
Theorem fls_command_exact insecure stored headers url target path creds_file :
  Str.all_chars literal_char url = true -> Str.all_chars Sh.safe_char target = true -> target <> EmptyString ->
  Sh.lex (fls_command (fls_oci_auth_env path creds_file)
            (cmdline_tls_args insecure (if stored : bool then Some CACERT else None))
            (curl_header_args headers) url target) =
  Some (auth_tokens path creds_file ++
        map Sh.Word (["fls"; "from-url"; "-i"; "1.0"; "-n"] ++ tls_words insecure stored ++ header_words headers ++
                     ["--o-direct"; url; target])).
Proof.
  intros Hu Ht Hn. apply reads_lex. unfold fls_command.
  set (tls := cmdline_tls_args _ _). set (hs := curl_header_args _). set (env := fls_oci_auth_env _ _).
  replace (env ++ _)%string
    with (env ++ " " ++ ("fls from-url -i 1.0 -n" ++ " " ++ (tls ++ " " ++ (hs ++ " " ++
            ("--o-direct" ++ " " ++ ((DQ ++ url ++ DQ) ++ " " ++ target))))))%string
    by (by rewrite !Str.sapp_assoc).
  rewrite !map_app.
  apply reads_sep; [apply reads_auth_env |].
  apply reads_sep; [apply (reads_words ["fls"; "from-url"; "-i"; "1.0"; "-n"]); all_safe |].
  apply reads_sep; [apply reads_tls |]. apply reads_sep; [apply reads_headers |].
  apply (reads_sep "--o-direct" _ [_]); [by apply reads_safe |].
  apply (reads_sep _ _ [_]); [by apply reads_double | by apply reads_safe].
Qed.

(** So does the line that checks whether the image can be reached. *)
Theorem check_url_exact insecure stored headers url :
  Str.all_chars literal_char url = true ->
  Sh.lex (check_url_command (cmdline_tls_args insecure (if stored : bool then Some CACERT else None))
            (curl_header_args headers) url) =
  Some (map Sh.Word (["curl"; "--location"; "--max-time"; "30"; "--fail"; "-sS"; "-r"; "0-0"; "-o"; "/dev/null"] ++
                     tls_words insecure stored ++ header_words headers ++ [url])).
Proof.
  intros Hu. apply reads_lex. unfold check_url_command. rewrite !map_app.
  set (tls := cmdline_tls_args _ _). set (hs := curl_header_args _).
  apply (reads_sep "curl --location --max-time 30 --fail -sS -r 0-0 -o /dev/null" (tls ++ " " ++ (hs ++ " " ++ (DQ ++ url ++ DQ)))).
  { apply (reads_words ["curl"; "--location"; "--max-time"; "30"; "--fail"; "-sS"; "-r"; "0-0"; "-o"; "/dev/null"]). all_safe. }
  apply reads_sep; [apply reads_tls |]. apply reads_sep; [apply reads_headers | by apply reads_double].
Qed.

(** The URL of a custom tool is not quoted: one with two parameters is cut at the ampersand,
    and curl is not told where to store the file. *)
Theorem binary_url_split :
  Sh.lex (download_fls_command "https://h/fls?v=1&sig=2") =
  Some [Sh.Word "curl"; Sh.Word "-L"; Sh.Word "https://h/fls?v=1"; Sh.Op "&";
        Sh.Word "sig=2"; Sh.Word "-o"; Sh.Word "/sbin/fls"].
Proof. reflexivity. Qed.

(** ** The credentials reach the tool *)

(** What the device does with the lines: its files after them, [None] when a line is none of
    these commands. *)
Definition dut_exec (line : list Sh.token) (fs : list (string * string)) : option (list (string * string)) :=
  match line with
  | [Sh.Word "true"; Sh.Op ">"; Sh.Word f] => Some (dict_set f "" fs)
  | [Sh.Word "printf"; Sh.Word "%s"; Sh.Word t; Sh.Op ">"; Sh.Op ">"; Sh.Word f] =>
      Some (dict_set f (default "" (dict_get f fs) ++ t)%string fs)
  | [Sh.Word "base64"; Sh.Word "-d"; Sh.Word src; Sh.Op ">"; Sh.Word dst] =>
      match dict_get src fs with
      | Some content => match b64decode (Utf8.of_string content) with
                        | Some bs => Some (dict_set dst (of_codes bs) fs)
                        | None => None
                        end
      | None => None
      end
  | [Sh.Word "chmod"; Sh.Word "600"; Sh.Word f] => if is_some (dict_get f fs) then Some fs else None
  | _ => None
  end.

Fixpoint dut_run (lines : list string) (fs : list (string * string)) : option (list (string * string)) :=
  match lines with
  | [] => Some fs
  | l :: lines' => match Sh.lex l with
                   | Some ts => match dut_exec ts fs with Some fs' => dut_run lines' fs' | None => None end
                   | None => None
                   end
  end.

Lemma b64_value_char v : (0 <= v < 64)%Z -> b64_value (b64_char v) = Some v.
Proof.
  intros Hv. unfold b64_char, b64_value.
  destruct (Z.ltb_spec v 26); [| destruct (Z.ltb_spec v 52); [| destruct (Z.ltb_spec v 62); [| destruct (Z.eqb_spec v 62)]]];
    repeat match goal with |- context [(?a <=? ?b)%Z] => destruct (Z.leb_spec a b); try lia end; cbn [andb];
    try (f_equal; lia); repeat match goal with |- context [(?a =? ?b)%Z] => destruct (Z.eqb_spec a b); try lia end;
    f_equal; lia.
Qed.

Lemma b64_value_pad : b64_value PAD = None.
Proof. reflexivity. Qed.

(** Three bytes as four values of six bits, and back. *)
Lemma b64_split a b c : Utf8.is_byte a -> Utf8.is_byte b -> Utf8.is_byte c ->
  let w := (a / 4)%Z in let x := (a mod 4 * 16 + b / 16)%Z in
  let y := (b mod 16 * 4 + c / 64)%Z in let z := (c mod 64)%Z in
  ((0 <= w < 64) /\ (0 <= x < 64) /\ (0 <= y < 64) /\ (0 <= z < 64) /\
   w * 4 + x / 16 = a /\ x mod 16 * 16 + y / 4 = b /\ y mod 4 * 64 + z = c)%Z.
Proof.
  unfold Utf8.is_byte. intros Ha Hb Hc. cbv zeta. split_and!; Z.to_euclidean_division_equations; lia.
Qed.

Lemma b64_roundtrip bs : Utf8.bytes_ok bs -> b64decode (b64encode bs) = Some bs.
Proof.
  assert (Utf8.is_byte 0) as H0 by (unfold Utf8.is_byte; lia).
  assert (forall n bs, (length bs <= n)%nat -> Utf8.bytes_ok bs -> b64decode (b64encode bs) = Some bs) as H;
    [| by apply (H (length bs))].
  induction n as [|n IH]; intros l Hl Hb; [by destruct l; [| cbn in Hl; lia] |].
  destruct l as [|a [|b [|c l]]]; [done | | |]; repeat (apply Forall_cons in Hb as [? Hb]).
  - destruct (b64_split a 0 0) as (Hw & Hx & _ & _ & E & _); [done.. |]. cbn [b64encode b64decode].
    rewrite Z.add_0_r in Hx, E. rewrite !b64_value_char, b64_value_pad by done. cbn. by rewrite E.
  - destruct (b64_split a b 0) as (Hw & Hx & Hy & _ & E1 & E2 & _); [done.. |]. cbn [b64encode b64decode].
    rewrite Z.add_0_r in Hy, E2. rewrite !b64_value_char, b64_value_pad by done. cbn. by rewrite E1, E2.
  - destruct (b64_split a b c) as (Hw & Hx & Hy & Hz & E1 & E2 & E3); [done.. |].
    cbn [b64encode app b64decode]. rewrite !b64_value_char by done. rewrite IH; [| cbn in Hl; lia | done].
    cbn. by rewrite E1, E2, E3.
Qed.

Lemma of_string_bytes s : Utf8.bytes_ok (Utf8.of_string s).
Proof.
  induction s as [|a s IH]; [apply Forall_nil_2 |]. constructor; [| exact IH].
  unfold Utf8.is_byte. pose proof (nat_ascii_bounded a). lia.
Qed.

Lemma of_codes_string s : of_codes (Utf8.of_string s) = s.
Proof. induction s as [|a s IH]; [done |]. cbn. rewrite Nat2Z.id, ascii_nat_embedding. by rewrite IH. Qed.

Lemma of_string_codes l : Utf8.bytes_ok l -> Utf8.of_string (of_codes l) = l.
Proof.
  induction l as [|c l IH]; intros Hl; [done |]. apply Forall_cons in Hl as [Hc Hl]. unfold Utf8.is_byte in Hc.
  cbn. rewrite nat_ascii_embedding by lia. rewrite Z2Nat.id by lia. by rewrite IH.
Qed.

Lemma b64_char_byte v : (0 <= v < 64)%Z -> Utf8.is_byte (b64_char v).
Proof.
  intros Hv. unfold b64_char, Utf8.is_byte.
  destruct (Z.ltb_spec v 26); [lia |]. destruct (Z.ltb_spec v 52); [lia |].
  destruct (Z.ltb_spec v 62); [lia |]. destruct (Z.eqb_spec v 62); lia.
Qed.

Lemma b64encode_bytes bs : Utf8.bytes_ok bs -> Utf8.bytes_ok (b64encode bs).
Proof.
  assert (Utf8.is_byte 0 /\ Utf8.is_byte PAD) as [H0 Hp] by (unfold Utf8.is_byte, PAD; lia).
  assert (forall n bs, (length bs <= n)%nat -> Utf8.bytes_ok bs -> Utf8.bytes_ok (b64encode bs)) as H;
    [| by apply (H (length bs))].
  unfold Utf8.bytes_ok.
  induction n as [|n IH]; intros l Hl Hb; [by destruct l; [| cbn in Hl; lia] |].
  destruct l as [|a [|b [|c l]]]; [done | | |]; repeat (apply Forall_cons in Hb as [? Hb]).
  - destruct (b64_split a 0 0) as (Hw & Hx & _); [done.. |]. rewrite Z.add_0_r in Hx.
    repeat (constructor; [first [done | by apply b64_char_byte] |]). constructor.
  - destruct (b64_split a b 0) as (Hw & Hx & Hy & _); [done.. |]. rewrite Z.add_0_r in Hy.
    repeat (constructor; [first [done | by apply b64_char_byte] |]). constructor.
  - destruct (b64_split a b c) as (Hw & Hx & Hy & Hz & _); [done.. |].
    cbn [b64encode app]. repeat (constructor; [by apply b64_char_byte |]). apply IH; [cbn in Hl; lia | done].
Qed.

(** The lines, as the shell reads them. *)
Lemma reads_redirect a wa f : reads a wa -> reads (a ++ " > " ++ quote f) (wa ++ [Sh.Op ">"; Sh.Word f]).
Proof.
  intros Ha. replace (a ++ " > " ++ quote f)%string with (((a ++ " " ++ "") ++ ">") ++ " " ++ quote f)%string
    by (by rewrite !Str.sapp_assoc).
  replace (wa ++ [Sh.Op ">"; Sh.Word f]) with (((wa ++ []) ++ [Sh.Op ">"]) ++ [Sh.Word f]) by (by rewrite app_nil_r, <- app_assoc).
  apply reads_sep; [| apply reads_quote]. apply reads_op; [done |]. apply reads_sep; [done | apply reads_nil].
Qed.

Lemma reads_append a wa f :
  reads a wa -> reads (a ++ " >> " ++ quote f) (wa ++ [Sh.Op ">"; Sh.Op ">"; Sh.Word f]).
Proof.
  intros Ha. replace (a ++ " >> " ++ quote f)%string with ((((a ++ " " ++ "") ++ ">") ++ ">") ++ " " ++ quote f)%string
    by (by rewrite !Str.sapp_assoc).
  replace (wa ++ [Sh.Op ">"; Sh.Op ">"; Sh.Word f])
    with ((((wa ++ []) ++ [Sh.Op ">"]) ++ [Sh.Op ">"]) ++ [Sh.Word f]) by (by rewrite app_nil_r, <- !app_assoc).
  apply reads_sep; [| apply reads_quote]. do 2 (apply reads_op; [done |]). apply reads_sep; [done | apply reads_nil].
Qed.

Lemma lex_truncate f : Sh.lex ("true > " ++ quote f) = Some [Sh.Word "true"; Sh.Op ">"; Sh.Word f].
Proof. apply reads_lex. apply (reads_redirect "true" [_]). by apply reads_safe. Qed.

Lemma lex_printf t f :
  Sh.lex ("printf '%s' " ++ quote t ++ " >> " ++ quote f) =
  Some [Sh.Word "printf"; Sh.Word "%s"; Sh.Word t; Sh.Op ">"; Sh.Op ">"; Sh.Word f].
Proof.
  apply reads_lex.
  replace ("printf '%s' " ++ quote t ++ " >> " ++ quote f)%string
    with (("printf" ++ " " ++ ("'%s'" ++ " " ++ quote t)) ++ " >> " ++ quote f)%string by (by rewrite !Str.sapp_assoc).
  apply (reads_append _ [_; _; _]). apply (reads_sep "printf" _ [_]); [by apply reads_safe |].
  apply (reads_sep "'%s'" _ [_]); [intros ts; by eexists _, _ | apply reads_quote].
Qed.

Lemma lex_decode src dst :
  Sh.lex ("base64 -d " ++ quote src ++ " > " ++ quote dst) =
  Some [Sh.Word "base64"; Sh.Word "-d"; Sh.Word src; Sh.Op ">"; Sh.Word dst].
Proof.
  apply reads_lex.
  replace ("base64 -d " ++ quote src ++ " > " ++ quote dst)%string
    with (("base64" ++ " " ++ ("-d" ++ " " ++ quote src)) ++ " > " ++ quote dst)%string by (by rewrite !Str.sapp_assoc).
  apply (reads_redirect _ [_; _; _]). apply (reads_sep "base64" _ [_]); [by apply reads_safe |].
  apply (reads_sep "-d" _ [_]); [by apply reads_safe | apply reads_quote].
Qed.

Lemma lex_chmod f : Sh.lex ("chmod 600 " ++ quote f) = Some [Sh.Word "chmod"; Sh.Word "600"; Sh.Word f].
Proof.
  apply reads_lex. apply (reads_sep "chmod" ("600" ++ " " ++ quote f) [_]); [by apply reads_safe |].
  apply (reads_sep "600" _ [_]); [by apply reads_safe | apply reads_quote].
Qed.

(** Sourcing the file defines the two variables. *)
Lemma lex_creds u p :
  Sh.lex (creds_content u p) =
  Some [Sh.Word ("FLS_REGISTRY_USERNAME=" ++ u); Sh.Op Str.newline;
        Sh.Word ("FLS_REGISTRY_PASSWORD=" ++ p); Sh.Op Str.newline].
Proof.
  assert (forall name v, Str.all_chars Sh.safe_char name = true -> name <> EmptyString ->
    forall t rest, Sh.run (name ++ quote v ++ NEWLINE ++ rest) (Sh.St Sh.Plain None t) =
      Sh.run rest (Sh.St Sh.Plain None (t ++ [Sh.Word (name ++ v); Sh.Op Str.newline]))) as H.
  { intros name v Hs Hn t rest. rewrite run_concat, run_safe by done. cbn [from_option id].
    rewrite run_concat, run_quote. reflexivity. }
  unfold Sh.lex, creds_content, Sh.start. rewrite H by done.
  rewrite <- (Str.sapp_nil NEWLINE) at 1. rewrite H by done. reflexivity.
Qed.

(** Appending the chunks one by one. *)
Lemma dut_chunks f rest cs fs content :
  dict_get f fs = Some content ->
  dut_run (map (fun chunk => "printf '%s' " ++ quote chunk ++ " >> " ++ quote f)%string cs ++ rest) fs =
  match cs with
  | [] => dut_run rest fs
  | _ => dut_run rest (dict_set f (content ++ concat_strings cs)%string fs)
  end.
Proof.
  revert fs content. induction cs as [|c cs IH]; intros fs content Hf; [done |].
  cbn [map app dut_run]. rewrite lex_printf. cbn [dut_exec]. rewrite Hf. cbn [from_option id].
  rewrite (IH _ (content ++ c)%string) by apply dict_get_set_same.
  destruct cs as [|c2 cs].
  - unfold concat_strings. cbn [fold_right]. by rewrite Str.sapp_nil.
  - rewrite dict_set_set, concat_strings_cons. by rewrite Str.sapp_assoc.
Qed.

Lemma b64_file_differs f : (f ++ ".b64")%string <> f.
Proof.
  intros H. assert (String.length (f ++ ".b64") = String.length f) as Hl by by rewrite H.
  revert Hl. clear. induction f as [|a f IH]; [done |]. rewrite Str.sapp_cons. cbn. lia.
Qed.

Lemma creds_chunks_whole content :
  concat_strings (creds_chunks content) = of_codes (b64encode (Utf8.of_string content)) /\
  Forall (fun c => (String.length c <= CREDS_CHUNK)%nat) (creds_chunks content).
Proof.
  unfold creds_chunks. cbv zeta. generalize (of_codes (b64encode (Utf8.of_string content))) as e. intros e.
  destruct (chunks_concat (String.length e) CREDS_CHUNK e) as [Hc Hl]; [unfold CREDS_CHUNK; lia | done |].
  split; [exact Hc |]. eapply Forall_impl; [exact Hl |]. by intros c [_ ?].
Qed.

Lemma encoded_back content :
  b64decode (Utf8.of_string (of_codes (b64encode (Utf8.of_string content)))) = Some (Utf8.of_string content).
Proof.
  rewrite of_string_codes by (apply b64encode_bytes, of_string_bytes). apply b64_roundtrip, of_string_bytes.
Qed.

Lemma file_arrives f content fs : content <> EmptyString ->
  exists fs', dut_run (file_lines f content) fs = Some fs' /\ dict_get f fs' = Some content.
Proof.
  intros Hne. unfold file_lines. cbv zeta. pose proof (b64_file_differs f) as Hd.
  set (b64_file := (f ++ ".b64")%string) in *. clearbody b64_file.
  destruct (creds_chunks_whole content) as [Hc _]. pose proof (encoded_back content) as Hb. rewrite <- Hc in Hb.
  destruct (creds_chunks content) as [|c cs].
  { injection Hb as Hb. destruct content; [done | discriminate Hb]. }
  cbn [app dut_run]. rewrite !lex_truncate. cbn [dut_exec].
  rewrite (dut_chunks b64_file _ _ _ "") by apply dict_get_set_same. cbn [dut_run].
  rewrite lex_decode. cbn [dut_exec]. rewrite dict_get_set_same.
  change (String.append "" (concat_strings (c :: cs))) with (concat_strings (c :: cs)).
  rewrite Hb, of_codes_string. rewrite lex_chmod. cbn [dut_exec]. rewrite dict_get_set_same. cbn [is_some].
  eexists. split; [done |]. apply dict_get_set_same.
Qed.

(** C19: Whatever the user name and the password are, after the lines the client sends the
    credential file on the device holds them, and a shell that sources it gives the tool
    exactly this user name and this password; and no chunk is longer than 512 characters, so
    that the serial console takes the lines. *)
Theorem credentials_arrive creds_file u p fs :
  (exists fs', dut_run (credential_lines creds_file u p) fs = Some fs' /\
     dict_get creds_file fs' = Some (creds_content u p)) /\
  Sh.lex (creds_content u p) =
    Some [Sh.Word ("FLS_REGISTRY_USERNAME=" ++ u); Sh.Op Str.newline;
          Sh.Word ("FLS_REGISTRY_PASSWORD=" ++ p); Sh.Op Str.newline] /\
  Forall (fun c => (String.length c <= CREDS_CHUNK)%nat) (creds_chunks (creds_content u p)).
Proof.
  split; [by apply file_arrives | split; [apply lex_creds | apply creds_chunks_whole]].
Qed.

(** ** Redaction *)

Lemma stars_prefix v x : Str.has_char "*" v = false -> v <> EmptyString -> String.prefix v (String "*" x) = false.
Proof.
  destruct v as [|c v]; [done |]. cbn. intros [Hc _]%orb_false_iff _.
  destruct (ascii_dec c "*") as [->|]; [by rewrite Ascii.eqb_refl in Hc | done].
Qed.

Lemma prefix_replaced old s v :
  Str.has_char "*" v = false -> String.prefix v (replace_from old "***" s 0) = true -> String.prefix v s = true.
Proof.
  revert v. induction s as [|a s IH]; intros v Hv; [done |]. cbn [replace_from].
  destruct (String.prefix old (String a s)).
  - destruct v as [|c v]; [done |]. rewrite !Str.sapp_cons. by rewrite stars_prefix.
  - destruct v as [|c v]; [done |]. cbn. destruct (ascii_dec c a); [| done].
    cbn in Hv. apply orb_false_iff in Hv as [_ Hv]. by apply IH.
Qed.

Lemma contains_stars v x : Str.has_char "*" v = false -> v <> EmptyString ->
  Str.str_contains v ("***" ++ x) = Str.str_contains v x.
Proof.
  intros Hv Hn. rewrite !Str.sapp_cons. change (String.append "" x) with x.
  cbn [Str.str_contains]. by rewrite !stars_prefix.
Qed.

Lemma contains_replaced old s k v : Str.has_char "*" v = false -> v <> EmptyString ->
  Str.str_contains v (replace_from old "***" s k) = true -> Str.str_contains v s = true.
Proof.
  intros Hv Hn. revert k. induction s as [|a s IH]; intros k; [done |].
  cbn [replace_from]. destruct k as [|k].
  - destruct (String.prefix old (String a s)) eqn:E.
    + rewrite contains_stars by done. intros H%IH. cbn [Str.str_contains]. by rewrite H, orb_true_r.
    + cbn [Str.str_contains]. intros [H|H]%orb_prop.
      * pose proof (prefix_replaced old (String a s) v Hv) as Hp. cbn [replace_from] in Hp. rewrite E in Hp.
        by rewrite Hp.
      * apply IH in H. by rewrite H, orb_true_r.
  - intros H%IH. cbn [Str.str_contains]. by rewrite H, orb_true_r.
Qed.

Lemma replaced_gone old s k : Str.has_char "*" old = false -> old <> EmptyString ->
  Str.str_contains old (replace_from old "***" s k) = false.
Proof.
  intros Hv Hn. revert k. induction s as [|a s IH]; intros k; [by destruct old |].
  cbn [replace_from]. destruct k as [|k]; [| apply IH].
  destruct (String.prefix old (String a s)) eqn:E; [by rewrite contains_stars |].
  cbn [Str.str_contains]. rewrite IH, orb_false_r. apply not_true_is_false. intros H.
  pose proof (prefix_replaced old (String a s) old Hv) as Hp. cbn [replace_from] in Hp. rewrite E in Hp.
  by discriminate (Hp H).
Qed.

Lemma redact_fold v vs text : Str.has_char "*" v = false -> v <> EmptyString ->
  (v ∈ vs \/ Str.str_contains v text = false) ->
  Str.str_contains v (fold_left (fun r x => replace_from x "***" r 0) vs text) = false.
Proof.
  intros Hv Hn. revert text. induction vs as [|x vs IH]; intros text H; cbn [fold_left].
  - destruct H as [H|H]; [by apply not_elem_of_nil in H | done].
  - apply IH. destruct (decide (v = x)) as [<-|Hx]; [right; by apply replaced_gone |].
    destruct H as [H|H]; [left; set_solver |]. right. apply not_true_is_false. intros Hc.
    apply contains_replaced in Hc; [| done ..]. congruence.
Qed.

Lemma insert_longest_in v x l : v ∈ insert_longest x l <-> v = x \/ v ∈ l.
Proof.
  induction l as [|y l IH]; cbn [insert_longest]; [by rewrite elem_of_cons |].
  destruct (String.length y <? String.length x)%nat; rewrite !elem_of_cons, ?IH; naive_solver.
Qed.

Lemma longest_first_in v l : v ∈ longest_first l <-> v ∈ l.
Proof.
  assert (forall acc, v ∈ fold_left (fun acc v => insert_longest v acc) l acc <-> v ∈ acc \/ v ∈ l) as H.
  { induction l as [|x l IH]; intros acc; cbn [fold_left]; [rewrite elem_of_nil; naive_solver |].
    rewrite IH, insert_longest_in, elem_of_cons. naive_solver. }
  unfold longest_first. rewrite H, elem_of_nil. naive_solver.
Qed.

(** A text that is redacted as a whole contains none of the secrets any more, however they
    overlap, as long as the secret itself has no asterisk. *)
Theorem redaction_complete values text v :
  v ∈ values -> v <> EmptyString -> Str.has_char "*" v = false ->
  Str.str_contains v (redact_sensitive_values values text) = false.
Proof.
  intros Hin Hn Hv. apply redact_fold; [done.. |]. left. apply longest_first_in.
  apply list_elem_of_In, filter_In. split; [by apply list_elem_of_In | by destruct v].
Qed.

(** The console is redacted piece by piece as it arrives, so a secret that arrives in two
    pieces is shown. *)
Theorem split_secret_shown :
  console_writes ["hunter2"] ["password: hun"; "ter2 "] = "password: hunter2 " /\
  redact_sensitive_values ["hunter2"] "password: hunter2 " = "password: *** ".
Proof. split; reflexivity. Qed.

(** ** Headers *)

Lemma check_headers_ok seen hs :
  check_header_items seen hs = inr tt <->
  Forall (fun kv => is_token (Str.strip (fst kv)) = true /\
                    Str.all_chars (fun c => negb (crlf c)) (Str.strip (snd kv)) = true) hs /\
  NoDup (map (fun kv => Str.lower (Str.strip (fst kv))) hs) /\
  (forall k, k ∈ map (fun kv => Str.lower (Str.strip (fst kv))) hs -> k ∉ seen).
Proof.
  assert (forall s, is_token s = true -> Str.all_chars (fun c => negb (crlf c)) s = true) as Htok.
  { unfold is_token. intros s [_ H]%andb_prop. revert H. induction s as [|c s IH]; cbn [Str.all_chars]; [done |].
    intros [Hc Hs]%andb_prop. rewrite IH by done.
    revert Hc. destruct c as [[] [] [] [] [] [] [] []]; vm_compute; auto; discriminate. }
  revert seen. induction hs as [|[k v] hs IH]; intros seen; cbn [check_header_items map fst snd].
  { split; [intros _; split_and!; [by constructor | apply NoDup_nil_2 | by intros k ?%elem_of_nil] | done]. }
  rewrite Forall_cons, NoDup_cons. cbn [fst snd]. set (kl := Str.lower (Str.strip k)).
  destruct (truthy (Str.strip k)) eqn:Et; cbn [negb]; [| unfold is_token; rewrite Et; naive_solver].
  destruct (is_token (Str.strip k)) eqn:Ek; cbn [negb]; [| naive_solver].
  rewrite (Htok _ Ek). cbn [andb].
  destruct (Str.all_chars _ (Str.strip v)) eqn:Ev; cbn [negb]; [| naive_solver].
  case_bool_decide as Hs.
  - split; [done |]. intros (_ & _ & H). exfalso. eapply H; [| exact Hs]. apply elem_of_cons. by left.
  - rewrite IH. setoid_rewrite elem_of_cons. set (rest := map _ hs). naive_solver.
Qed.

(** The headers that are accepted have names that are HTTP tokens, names and values
    without line breaks, and no two with the same name up to case, so that no header can be
    smuggled in; exactly these are accepted, and they are passed on unchanged. *)
Theorem headers_accepted hs :
  (exists hs', validate_header_dict hs = inr hs') <->
  validate_header_dict hs = inr hs /\
  Forall (fun kv => is_token (Str.strip (fst kv)) = true /\
                    Str.all_chars (fun c => negb (crlf c)) (Str.strip (snd kv)) = true) hs /\
  NoDup (map (fun kv => Str.lower (Str.strip (fst kv))) hs).
Proof.
  unfold validate_header_dict. pose proof (check_headers_ok [] hs) as H.
  destruct (check_header_items [] hs) as [e|[]].
  - split; [by intros [hs' ?] | intros (? & _); done].
  - destruct (proj1 H eq_refl) as (H1 & H2 & _). split; [done |]. intros _. by eexists.
Qed.

Lemma all_chars_lstrip p s : Str.all_chars p s = true -> Str.all_chars p (Str.lstrip s) = true.
Proof. induction s as [|c s IH]; [done |]. cbn. intros [H1 H2]%andb_prop. destruct (Str.is_space c); [auto | cbn; by rewrite H1]. Qed.

Lemma all_chars_strip p s : Str.all_chars p s = true -> Str.all_chars p (Str.strip s) = true.
Proof.
  intros H. unfold Str.strip, Str.rstrip. rewrite Str.all_chars_srev. apply all_chars_lstrip.
  rewrite Str.all_chars_srev. by apply all_chars_lstrip.
Qed.

Lemma bearer_no_crlf c : bearer_char c = true -> negb (crlf c) = true.
Proof. destruct c as [[] [] [] [] [] [] [] []]; vm_compute; auto. Qed.

(** A bearer token that is accepted becomes one Authorization header, unless the user gave
    one; a header of that name in another case is not found again, and the flashing fails
    with a missing key. *)
Theorem bearer_header hs b t :
  validate_bearer_token b = inr (Some t) ->
  prepare_headers hs (Some t) =
  if existsb is_authorization hs
  then if is_some (dict_get "Authorization" hs) then inr (curl_header_args hs) else inl (MissingKey "Authorization")
  else inr (curl_header_args (dict_set "Authorization" ("Bearer " ++ t)%string hs)).
Proof.
  intros Hb. assert (truthy t = true /\ Str.all_chars bearer_char t = true) as [Ht Hc].
  { unfold validate_bearer_token in Hb. destruct b as [b|]; [| done]. revert Hb. generalize (Str.strip b) as x. intros x.
    destruct (truthy x) eqn:E1; [| done]. destruct (Str.all_chars bearer_char x) eqn:E2; [| done].
    cbn [negb]. destruct (_ <? _)%nat; [done |]. by intros [= <-]. }
  assert (Str.all_chars (fun c => negb (crlf c)) ("Bearer " ++ t) = true) as Hcr.
  { rewrite Str.all_chars_app. apply andb_true_intro. split; [done |].
    revert Hc. clear. induction t as [|c t IH]; [done |]. cbn [Str.all_chars]. intros [H1 H2]%andb_prop.
    by rewrite bearer_no_crlf, IH. }
  assert (validate_header_dict [("Authorization", "Bearer " ++ t)%string] =
          inr [("Authorization", "Bearer " ++ t)%string]) as Hv.
  { unfold validate_header_dict. rewrite (proj2 (check_headers_ok [] _)); [done |]. split_and!.
    - constructor; [| constructor]. split; [done |]. cbn [snd]. by apply all_chars_strip.
    - apply NoDup_singleton.
    - intros k _. apply not_elem_of_nil. }
  unfold prepare_headers. rewrite Ht. cbn [negb].
  destruct (existsb is_authorization hs) eqn:Ea.
  - destruct (dict_get "Authorization" hs) as [v|] eqn:Ed; cbn [is_some]; done.
  - assert (dict_get "Authorization" hs = None) as ->.
    { revert Ea. clear. induction hs as [|[k v] hs IH]; [done |]. cbn [existsb dict_get].
      intros [H1 H2]%orb_false_iff. destruct (String.eqb_spec "Authorization" k) as [<-|]; [discriminate H1 | by apply IH]. }
    cbn [is_some]. rewrite dict_get_set_same. by rewrite Hv.
Qed.

(** ** Operations *)

(** Every specification is one operation, in order, cut at its first colon, and all go to the
    same block device; FILE and specifications exclude each other. *)
Theorem flash_ops_exact file specs block_device ops :
  resolve_flash_parameters file specs block_device = inr ops ->
  (specs = [] /\ exists f, file = Some f /\ f <> EmptyString /\ ops = [(f, None, block_device)]) \/
  (default "" file = EmptyString /\ specs <> [] /\
   Forall2 (fun spec op => exists label img, spec = (label ++ ":" ++ img)%string /\ Str.has_char ":" label = false /\
              label <> EmptyString /\ img <> EmptyString /\ op = (img, Some label, block_device)) specs ops).
Proof.
  unfold resolve_flash_parameters. destruct (truthy (default "" file)) eqn:Ef.
  - destruct specs; [| done]. intros [= <-]. left. destruct file as [f|]; [| done]. cbn in *.
    split; [done |]. exists f. split_and!; [done | by destruct f | done].
  - intros H. right. split; [by destruct (default "" file) |]. destruct specs as [|s0 specs0]; [done |].
    split; [done |]. revert H. generalize (s0 :: specs0) as specs. clear. intros specs.
    revert ops. induction specs as [|spec specs IH]; intros ops; cbn [partition_ops]; [intros [= <-]; constructor |].
    destruct (Str.split1 ":" spec) as [[label img]|] eqn:Es; [| done].
    destruct (truthy label && truthy img) eqn:Et; cbn [negb]; [| done].
    destruct (partition_ops specs block_device) as [e|ops']; [done |]. intros [= <-].
    apply andb_prop in Et as [H1 H2]. apply Str.split1_some in Es as [-> H3]. constructor; [| by apply IH].
    exists label, img. split_and!; [done | done | by destruct label | by destruct img | done].
Qed.

(** ** Witnesses *)

Lemma fls_command_exact_witness :
  Sh.lex (fls_command (fls_oci_auth_env "https://h/i.img" None) (cmdline_tls_args true None)
            (curl_header_args [("X-A", "it's $HOME")]) "https://h/i.img?a=1&b=2" "/dev/mmcblk0") =
  Some (map Sh.Word ["fls"; "from-url"; "-i"; "1.0"; "-n"; "-k"; "-H"; "X-A: it's $HOME"; "--o-direct";
                     "https://h/i.img?a=1&b=2"; "/dev/mmcblk0"]).
Proof.
  rewrite (fls_command_exact true false [("X-A", "it's $HOME")] "https://h/i.img?a=1&b=2" "/dev/mmcblk0" "https://h/i.img" None);
    [reflexivity | reflexivity | reflexivity | discriminate].
Defined.

Lemma redaction_complete_witness :
  Str.str_contains "s3" (redact_sensitive_values ["s3"; "s3cret"] "a s3s3cret b") = false.
Proof.
  apply (redaction_complete ["s3"; "s3cret"] "a s3s3cret b" "s3"); [apply elem_of_cons; by left | discriminate | reflexivity].
Defined.

Lemma bearer_header_witness :
  prepare_headers [("authorization", "Basic x")] (Some "t0k") = inl (MissingKey "Authorization").
Proof. rewrite (bearer_header [("authorization", "Basic x")] (Some " t0k ") "t0k" eq_refl). reflexivity. Defined.

Lemma flash_ops_exact_witness :
  exists ops, resolve_flash_parameters None ["boot:https://x/b.img"] (Some "emmc") = inr ops /\
    (default "" (None : option string) = EmptyString).
Proof.
  eexists. split; [reflexivity |].
  destruct (flash_ops_exact None ["boot:https://x/b.img"] (Some "emmc") _ eq_refl) as [[? _]|[H _]]; [discriminate | exact H].
Defined.
