(* ===== verification/FlashSession.v ===== *)
(** * A flashing session

    Package [jumpstarter-driver-flashers], [client.py] and [bundle.py]: the manifest of a
    flasher bundle, the conversation with the device over its serial console, the upload of
    an image to the exporter, and the retries around them. What the console shows is answered
    by [shows]: the [n]-th [expect] of the session; [clock] is the time around it, in
    milliseconds. Log messages and the progress statistics
    are left out. *)

From stdpp Require Import base list strings sets pretty.
From Stdlib Require Import ZArith Lia Ascii.
From S2P Require Import Prelude PyText Flasher FlashText.

Open Scope string_scope.
Open Scope list_scope.

(** * The manifest *)

Module Bundle.

Record DtbVariant := mkVariant { v_bootcmd : option string; v_file : option string }.

Record Dtb := mkDtb { dtb_default : string; dtb_address : string; variants : list (string * DtbVariant) }.

Record Login := mkLogin {
  login_prompt : string; username : option string; password : option string; prompt : string
}.

Record Manifest := mkManifest {
  bootcmd : string;
  login : Login;
  default_target : string;
  targets : list (string * string);
  kernel : string * string;
  initram : option (string * string);
  dtb : option Dtb;
  preflash_commands : list string
}.

Definition get_dtb_address (m : Manifest) : option string := option_map dtb_address (dtb m).

(** [variant or default] *)
Definition variant_name (d : Dtb) (variant : option string) : string :=
  match variant with Some v => if truthy v then v else dtb_default d | None => dtb_default d end.

(** [get_dtb_file]: [None] is a [ValueError]. *)
Definition get_dtb_file (m : Manifest) (variant : option string) : option (option string) :=
  match dtb m with
  | None => Some None
  | Some d => option_map v_file (dict_get (variant_name d variant) (variants d))
  end.

Definition get_boot_cmd (m : Manifest) (variant : option string) : option string :=
  match dtb m with
  | None => Some (bootcmd m)
  | Some d =>
      match dict_get (variant_name d variant) (variants d) with
      | None => None
      | Some v => Some (if truthy (default "" (v_bootcmd v)) then default "" (v_bootcmd v) else bootcmd m)
      end
  end.

(** [setup_flasher_bundle] of the driver: the files it puts on the TFTP server for the
    variant it is configured with, by their last component. *)
Definition served_files (m : Manifest) (variant : option string) : option (list string) :=
  let names := path_name (fst (kernel m)) ::
               match initram m with Some (f, _) => if truthy f then [path_name f] else [] | None => [] end in
  match get_dtb_file m variant with
  | None => None
  | Some f => Some (names ++ match f with Some f => if truthy f then [path_name f] else [] | None => [] end)
  end.

(** What [_busybox] of the client loads with U-Boot: it asks the manifest for the default
    variant; a variant that is missing is passed over. *)
Definition load_commands (m : Manifest) : list (string * string) :=
  (snd (kernel m), path_name (fst (kernel m))) ::
  match initram m with
  | Some (f, a) => if truthy f && truthy a then [(a, path_name f)] else []
  | None => []
  end ++
  match get_dtb_file m None, get_dtb_address m with
  | Some (Some f), Some a => if truthy f && truthy a then [(a, path_name f)] else []
  | _, _ => []
  end.

Definition tftpboot (c : string * string) : string := ("tftpboot " ++ fst c ++ " " ++ snd c)%string.

End Bundle.

Import Bundle.

(** * Exceptions *)

Inductive ekind := KRetryable | KNonRetryable | KConfiguration | KCancelled | KTimeout | KEof | KArgument | KNotImplemented | KOther (name : string).

#[export] Instance ekind_eq_dec : EqDecision ekind.
Proof. solve_decision. Defined.

(** An exception with the members of a group and its cause. *)
Inductive exc := Exc (kind : ekind) (msg : string) (members : list exc) (cause : option exc).

Definition kind (e : exc) : ekind := match e with Exc k _ _ _ => k end.
Definition message (e : exc) : string := match e with Exc _ m _ _ => m end.
Definition members (e : exc) : list exc := match e with Exc _ _ l _ => l end.
Definition cause (e : exc) : option exc := match e with Exc _ _ _ c => c end.

Definition error (k : ekind) (msg : string) : exc := Exc k msg [] None.
Definition error_from (k : ekind) (msg : string) (e : exc) : exc := Exc k msg [] (Some e).

(** The first result among the members of a group. *)
Definition first_some {A B} (f : A -> option B) : list A -> option B :=
  fix go l := match l with [] => None | x :: l' => match f x with Some y => Some y | None => go l' end end.

(** [_find_exception_in_chain] *)
Fixpoint find_in_chain (t : ekind) (e : exc) : option exc :=
  match e with
  | Exc k m l c =>
      match first_some (find_in_chain t) l with
      | Some r => Some r
      | None => if bool_decide (k = t) then Some e
                else match c with Some e' => find_in_causes t e' | None => None end
      end
  end
with find_in_causes (t : ekind) (e : exc) : option exc :=
  match e with
  | Exc k m l c =>
      if bool_decide (k = t) then Some e
      else match first_some (find_in_chain t) l with
           | Some r => Some r
           | None => match c with Some e' => find_in_causes t e' | None => None end
           end
  end.

Definition class_name (k : ekind) : string :=
  match k with
  | KRetryable => "FlashRetryableError" | KNonRetryable => "FlashNonRetryableError"
  | KConfiguration => "ConfigurationError" | KCancelled => "CancelledError"
  | KTimeout => "TIMEOUT" | KEof => "EOF" | KArgument => "ArgumentError"
  | KNotImplemented => "DriverMethodNotImplemented" | KOther n => n
  end.

(** [_categorize_exception] *)
Definition categorize_exception (e : exc) : exc :=
  match find_in_chain KNonRetryable e with
  | Some r => r
  | None =>
      match find_in_chain KRetryable e with
      | Some r => r
      | None =>
          if bool_decide (kind e = KCancelled) then error KNonRetryable "Operation cancelled"
          else match find_in_chain KConfiguration e with
               | Some c => error KNonRetryable (message c)
               | None => error_from KRetryable
                           ("Unknown error occurred: " ++ class_name (kind e) ++ ": " ++ message e)%string e
               end
      end
  end.

(** * The console *)

(** What an [expect] ends with, with the text read before it. *)
Inductive shown := Matched (before : string) | TimedOut (before : string) | Closed.

Inductive event :=
| Sent (line : string)
| Uboot (command : string)
| Printed (text : string)
| StoredFile (name : string)
| PowerOff
| StartHttp | StartTftp | StopHttp | StopTftp
| Slept (seconds : Z).

#[export] Instance event_eq_dec : EqDecision event.
Proof. solve_decision. Defined.

(** The session: what was done, how many times the console was read, the exceptions in the
    queue of the background thread and whether it has ended. *)
Record Session := mkSession {
  trace : list event;
  reads_done : nat;
  queue : list exc;
  thread_ended : bool
}.

#[export] Instance set_trace : Setter trace := fun u s => mkSession (u (trace s)) (reads_done s) (queue s) (thread_ended s).
#[export] Instance set_reads_done : Setter reads_done := fun u s => mkSession (trace s) (u (reads_done s)) (queue s) (thread_ended s).
#[export] Instance set_queue : Setter queue := fun u s => mkSession (trace s) (reads_done s) (u (queue s)) (thread_ended s).
#[export] Instance set_thread_ended : Setter thread_ended := fun u s => mkSession (trace s) (reads_done s) (queue s) (u (thread_ended s)).

Definition M (A : Type) : Type := Session -> Session * (exc + A).

Definition ret {A} (a : A) : M A := fun s => (s, inr a).
Definition raise {A} (e : exc) : M A := fun s => (s, inl e).
Definition bind {A B} (m : M A) (k : A -> M B) : M B := fun s =>
  match m s with (s', inr a) => k a s' | (s', inl e) => (s', inl e) end.
Definition catch {A} (m : M A) (h : exc -> M A) : M A := fun s =>
  match m s with (s', inl e) => h e s' | r => r end.
(** [finally]: what [fin] raises replaces the result. *)
Definition finally {A} (m : M A) (fin : M unit) : M A := fun s =>
  let (s1, r) := m s in match fin s1 with (s2, inl e) => (s2, inl e) | (s2, inr _) => (s2, r) end.

Notation "'do*' x := m 'in' k" := (bind m (fun x => k)) (at level 10, x name, m at level 100, k at level 200).
Notation "m >>> k" := (bind m (fun _ => k)) (at level 100, right associativity).

Definition record (e : event) : M unit := fun s => (s <| trace ::= fun t => t ++ [e] |>, inr tt).

Definition lift {A} (r : exc + A) : M A := match r with inl e => raise e | inr a => ret a end.

(** What the exporter and the manifest give: the answers of the driver's methods and of the
    services. *)
Record Env := mkEnv {
  shows : nat -> shown;
  manifest : Manifest;
  default_target_call : exc + option string;
  cacert_call : exc + option string;
  bootcmd_call : exc + string;
  fls_binary_call : exc + unit;
  dhcp : exc + (string * string);
  tftp_host : string;
  uboot_run : string -> option exc;
  http_url : string;
  read_file : string -> exc + string;
  timestamp : string;
  clock : nat -> Z
}.

Section Client.

Context (env : Env).

Abbreviation login_of := (login (manifest env)).

Definition sendline (line : string) : M unit := record (Sent line).

(** [console.expect(prompt, timeout)], and its result for a list with [TIMEOUT]. *)
Definition read_console : M shown := fun s =>
  (s <| reads_done ::= S |>, inr (shows env (reads_done s))).

Definition expect : M string :=
  do* r := read_console in
  match r with
  | Matched before => ret before
  | TimedOut _ => raise (error KTimeout "Timeout exceeded.")
  | Closed => raise (error KEof "End Of File (EOF).")
  end.

(** A command and the prompt after it. *)
Definition command (line : string) : M string := sendline line >>> expect.

(** ** Targets *)

(** [\s(\w+)\s->] *)
Fixpoint take_word (s : string) : string :=
  match s with String c s' => if Sh.word_char c then String c (take_word s') else "" | EmptyString => "" end.

Definition drop (n : nat) (s : string) : string := String.substring n (String.length s - n) s.

Definition match_here (s : string) : option string :=
  match s with
  | String c s' =>
      if Str.is_space c then
        let w := take_word s' in
        match drop (String.length w) s' with
        | String d rest => if truthy w && Str.is_space d && Str.startswith "->" rest then Some w else None
        | EmptyString => None
        end
      else None
  | EmptyString => None
  end.

Fixpoint search_block (s : string) : option string :=
  match match_here s with
  | Some w => Some w
  | None => match s with String _ s' => search_block s' | EmptyString => None end
  end.

Definition lookup_block_device (address : string) : M string :=
  do* output := command ("ls -l /sys/class/block/ | grep " ++ address ++ " | head -n 1")%string in
  match search_block output with
  | Some w => ret ("/dev/" ++ w)%string
  | None => raise (error KArgument ("No block device found for address " ++ address ++ ", output was: " ++ output)%string)
  end.

(** [target_path.split("#")[1]] *)
Definition after_hash (s : string) : string := nth 1 (Str.split_char "#" s) "".

Definition get_target_device (target : string) : M string :=
  match dict_get target (targets (manifest env)) with
  | None => raise (error KArgument ("Target " ++ target ++ " not found in manifest")%string)
  | Some path => if Str.startswith "/sys/class/block#" path then lookup_block_device (after_hash path) else ret path
  end.

Definition given (s : option string) : bool := truthy (default "" s).

Definition resolve_and_prepare_target (partition block_device : option string) : M string :=
  if given partition && is_some (dict_get (default "" partition) (targets (manifest env)))
  then get_target_device (default "" partition)
  else
    do* target := (if given block_device then ret (default "" block_device)
                   else do* d := lift (default_target_call env) in
                        ret (if given d then default "" d else default_target (manifest env))) in
    if negb (truthy target) then raise (error KArgument "No partition or default target specified")
    else
      do* device := get_target_device target in
      ret (if given partition then ("/dev/disk/by-partlabel/" ++ default "" partition)%string else device).

(** ** Exit codes *)

(** [int(lines[-1])] of the text after a command: [None] is an [IndexError] or a [ValueError]. *)
Definition last_int (before : string) : option Z :=
  match last (Str.splitlines (Str.strip before)) with
  | Some l => Str.py_int l
  | None => None
  end.

(** The variant that takes no output for -1. *)
Definition exit_code_of (before : string) : option Z :=
  match Str.splitlines (Str.strip before) with [] => Some (-1)%Z | _ => last_int before end.

Definition retryable (msg : string) : exc := error KRetryable msg.

(** ** Certificates *)

Definition stored_cacert : string := "/tmp/cacert.crt".

Definition store_cacert_on_dut : M string :=
  record (StoredFile "cacert.crt") >>>
  (command ("curl -fsSL " ++ http_url env ++ "/cacert.crt -o " ++ stored_cacert)%string >>>
   do* before := command "echo $?" in
   match exit_code_of before with
   | None => raise (retryable "Failed to download CA certificate, could not parse exit code")
   | Some c => if Z.eqb c 0 then ret stored_cacert
               else raise (retryable ("Failed to download CA certificate from " ++ http_url env ++
                                      "/cacert.crt, exit code: " ++ pretty c)%string)
   end).

Definition setup_flasher_ssl (cacert_file : option string) : M (option string) :=
  if given cacert_file then
    match read_file env (default "" cacert_file) with
    | inl e => raise (error_from (KOther "RuntimeError") "Error reading CA certificate file" e)
    | inr _ => do* p := store_cacert_on_dut in ret (Some p)
    end
  else
    do* content := match cacert_call env with
                   | inl e => if bool_decide (kind e = KNotImplemented) then ret None else raise e
                   | inr c => ret c
                   end in
    if given content then do* p := store_cacert_on_dut in ret (Some p) else ret None.

(** ** The tool *)

Definition download_fls_binary (url error_prefix : string) : M unit :=
  command (download_fls_command url) >>>
  do* before := command "echo $?" in
  match exit_code_of before with
  | None => raise (retryable (error_prefix ++ ", failed to parse exit code")%string)
  | Some c => if Z.eqb c 0 then command "chmod +x /sbin/fls" >>> ret tt
              else raise (retryable (error_prefix ++ ", exit code: " ++ pretty c)%string)
  end.

(** The loop of [_monitor_fls_progress]: [seen] characters are printed already. *)
Fixpoint monitor_fls_loop (fuel : nat) (secrets : list string) (seen : nat) : M unit :=
  match fuel with
  | O => raise (error (KOther "out of fuel") "")
  | S fuel' =>
      do* r := read_console in
      match r with
      | Closed => raise (retryable "Console connection closed during flash operation")
      | Matched before | TimedOut before =>
          let fresh := drop seen before in
          (if (seen <? String.length before)%nat && truthy fresh
           then record (Printed (redact_sensitive_values secrets fresh)) else ret tt) >>>
          match r with
          | Matched _ => ret tt
          | _ => if Str.str_contains "panicked at" before
                 then raise (retryable "Error monitoring FLS progress: FLS panicked")
                 else monitor_fls_loop fuel' secrets (Nat.max seen (String.length before))
          end
      end
  end.

Definition monitor_fls_progress (fuel : nat) (secrets : list string) : M unit :=
  monitor_fls_loop fuel secrets 0 >>>
  do* before := command "echo $?" in
  match last_int before with
  | None => raise (error (KOther "ValueError") "invalid literal")
  | Some c => if Z.eqb c 0 then ret tt else raise (retryable ("FLS flash operation failed, exit code: " ++ pretty c)%string)
  end.

Fixpoint commands (lines : list string) : M unit :=
  match lines with [] => ret tt | l :: lines' => command l >>> commands lines' end.

Definition is_oci (path : string) : bool := Str.startswith "oci://" path.

Record FlsOptions := mkFlsOptions {
  fls_version : string; fls_binary_url : option string;
  oci_username : option string; oci_password : option string
}.

Definition install_fls (o : FlsOptions) : M unit :=
  if given (fls_binary_url o)
  then let url := default "" (fls_binary_url o) in
       download_fls_binary url ("Failed to download FLS from " ++ url)%string
  else if negb (String.eqb (fls_version o) "")
  then let url := get_fls_github_url "" (fls_version o) (Some "aarch64") in
       download_fls_binary url ("Failed to download FLS from " ++ url)%string
  else lift (fls_binary_call env) >>>
       download_fls_binary (http_url env ++ "/fls")%string "Failed to download FLS from exporter".

Definition CREDS_FILE : string := "/tmp/fls_creds".

Definition flash_with_fls (fuel : nat) (path image_url target_path : string) (insecure_tls : bool)
    (stored : option string) (header_args : string) (o : FlsOptions) : M unit :=
  install_fls o >>>
  let use_creds := is_oci path && given (oci_username o) in
  (if use_creds then commands (credential_lines CREDS_FILE (default "" (oci_username o)) (default "" (oci_password o)))
   else ret tt) >>>
  (sendline (fls_command (fls_oci_auth_env path (if use_creds then Some CREDS_FILE else None))
               (cmdline_tls_args insecure_tls stored) header_args image_url target_path) >>>
   monitor_fls_progress fuel (match oci_password o with Some p => [p] | None => [] end)) >>>
  command "sync" >>> ret tt.

(** ** The shell pipeline *)

Definition check_url_access (image_url tls_args header_args : string) : M unit :=
  do* curl_output := command (check_url_command tls_args header_args image_url) in
  do* before := command "echo $?" in
  match last_int before with
  | None => raise (error (KOther "ValueError") "invalid literal")
  | Some c => if Z.eqb c 0 then ret tt
              else raise (retryable ("Unable to access " ++ image_url ++ " (curl exit status " ++ pretty c ++
                                     "), output: " ++ Str.strip curl_output)%string)
  end.

Definition WINDOW : nat := Z.to_nat 65536.

(** [_update_accumulated_output] keeps the last 64 KiB. *)
Definition update_accumulated_output (acc data : string) : string :=
  let all := (acc ++ data)%string in
  if (WINDOW <? String.length all)%nat then drop (String.length all - WINDOW) all else all.

Definition check_completion_markers (acc : string) : exc + bool :=
  if Str.str_contains "FLASH_COMPLETE" acc then inr true
  else if Str.str_contains "FLASH_FAILED" acc
  then inl (retryable "Flash operation failed - curl or pipeline failed")
  else inr false.

(** [_handle_dd_finished] *)
Definition handle_dd_finished (finished : option Z) : M Z := fun s =>
  let now := clock env (reads_done s) in
  match finished with
  | Some t => if (5000 <? now - t)%Z
              then (s, inl (error KNonRetryable "Flash operation completed without success/failure marker"))
              else bind (record (Slept 1)) (fun _ => ret t) s
  | None => bind (record (Slept 1)) (fun _ => ret now) s
  end.

Fixpoint monitor_dd_loop (fuel : nat) (dd_pid acc : string) (finished : option Z) : M unit :=
  match fuel with
  | O => raise (error (KOther "out of fuel") "")
  | S fuel' =>
      do* data := (if String.eqb dd_pid "0" then ret "" else command ("cat /proc/" ++ dd_pid ++ "/fdinfo/1")%string) in
      let acc := update_accumulated_output acc data in
      match check_completion_markers acc with
      | inl e => raise e
      | inr true => ret tt
      | inr false =>
          if negb (String.eqb dd_pid "0") && Str.str_contains "No such file or directory" data
          then do* t := handle_dd_finished finished in monitor_dd_loop fuel' dd_pid acc (Some t)
          else record (Slept 1) >>> monitor_dd_loop fuel' dd_pid acc finished
      end
  end.

Definition is_digits (s : string) : bool :=
  truthy s && Str.all_chars (fun c => let n := nat_of_ascii c in ((48 <=? n) && (n <=? 57))%nat) s.

Definition monitor_flash_progress (fuel : nat) : M unit :=
  do* output := command "pidof dd" in
  match List.find is_digits (map Str.strip (Str.splitlines output)) with
  | None => raise (error KNonRetryable "Could not find dd process ID")
  | Some pid => monitor_dd_loop fuel pid output None
  end.

Definition flash_with_progress (fuel : nat) (path image_url target_path : string) (insecure_tls : bool)
    (stored : option string) (header_args : string) : M unit :=
  let tls_args := cmdline_tls_args insecure_tls stored in
  check_url_access image_url tls_args header_args >>>
  (command (shell_flash_command (get_decompression_command path) tls_args header_args image_url target_path) >>>
   monitor_flash_progress fuel) >>>
  command "sync" >>> ret tt.

(** ** The image on the exporter *)

(** [_wait_for_storage_thread]: joining the thread makes what it put into the queue visible;
    the first exception is taken out of the queue and raised. *)
Definition wait_for_storage_thread (upload : option exc) : M unit := fun s =>
  let s := if thread_ended s then s
           else s <| thread_ended := true |>
                  <| queue ::= fun q => q ++ match upload with Some e => [e] | None => [] end |> in
  match queue s with
  | e :: q => (s <| queue := q |>, inl e)
  | [] => (s, inr tt)
  end.

(** ** One attempt *)

(** [_busybox] *)
Fixpoint uboot_commands (lines : list string) : M unit :=
  match lines with
  | [] => ret tt
  | l :: lines' => record (Uboot l) >>> match uboot_run env l with
                                        | Some e => raise e
                                        | None => uboot_commands lines'
                                        end
  end.

Definition setup_dhcp : M (string * string) :=
  match dhcp env with
  | inr d => ret d
  | inl e => if bool_decide (kind e = KOther "RuntimeError") || bool_decide (kind e = KOther "ValueError")
             then raise (error_from KRetryable ("DHCP setup failed: " ++ message e)%string e) else raise e
  end.

Definition busybox : M (string * string) :=
  record (Uboot "reboot") >>>
  do* d := setup_dhcp in
  (uboot_commands (("set_env serverip=" ++ tftp_host env)%string :: map tftpboot (load_commands (manifest env))) >>>
   do* bootcmd := lift (bootcmd_call env) in
   sendline bootcmd >>>
   (if given (username login_of) then expect >>> sendline (default "" (username login_of)) else ret tt) >>>
   (if given (password login_of) then expect >>> sendline (default "" (password login_of)) else ret tt) >>>
   expect >>> ret d).

Record FlashOptions := mkFlashOptions {
  partition : option string; block_device : option string;
  cacert_file : option string; insecure_tls : bool;
  headers : list (string * string); bearer_token : option string;
  flash_method : string; fls_options : FlsOptions; power_off : bool
}.

Definition to_exc (e : arg_error) : exc :=
  match e with
  | BadArgument m => error KArgument m
  | BadUsage m => error (KOther "ClickException") m
  | MissingKey k => error (KOther "KeyError") k
  end.

Definition checked {A} (r : arg_error + A) : exc + A := match r with inl e => inl (to_exc e) | inr a => inr a end.

(** The [udhcpc] step: every failure is retryable. *)
Definition udhcpc : M unit :=
  catch (command "udhcpc" >>> ret tt)
    (fun e => if bool_decide (kind e = KTimeout)
              then raise (error_from KRetryable "Timeout waiting for udhcpc to complete" e)
              else raise (error_from KRetryable ("Error running udhcpc: " ++ message e)%string e)).

(** [_perform_flash_operation]; [upload] is how the background thread ends, when there is one. *)
Definition perform_flash_operation (fuel : nat) (o : FlashOptions) (path image_url : string)
    (should_download : bool) (upload : option exc) : M unit :=
  do* d := busybox in
  do* flash_target := resolve_and_prepare_target (partition o) (block_device o) in
  commands ([("export dhcp_addr=" ++ fst d)%string; ("export gw_addr=" ++ snd d)%string] ++
            preflash_commands (manifest env)) >>>
  udhcpc >>>
  (command ("date -s @" ++ timestamp env)%string >>>
   do* stored := (if should_download then wait_for_storage_thread upload >>> ret None
                  else setup_flasher_ssl (cacert_file o)) in
   do* header_args := lift (checked (prepare_headers (headers o) (bearer_token o))) in
   (if String.eqb (flash_method o) "fls"
    then flash_with_fls fuel path image_url flash_target (insecure_tls o) stored header_args (fls_options o)
    else if String.eqb (flash_method o) "shell"
    then flash_with_progress fuel path image_url flash_target (insecure_tls o) stored header_args
    else raise (error KArgument ("Invalid method: " ++ flash_method o)%string)) >>>
   sendline "reboot" >>> record (Slept 2) >>> (if power_off o then record PowerOff else ret tt)).

(** ** The retries *)

Definition flash_error (msg : string) (e : exc) : exc := error_from (KOther "FlashError") msg e.

(** [for attempt in range(retries + 1)]: [n] rounds are left. *)
Fixpoint flash_attempts (perform : M unit) (n attempt : nat) (retries : Z) : M unit :=
  match n with
  | O => ret tt
  | S n' => fun s =>
      match perform s with
      | (s', inr _) => (s', inr tt)
      | (s', inl e) =>
          let c := categorize_exception e in
          if bool_decide (kind c = KNonRetryable)
          then (s', inl (flash_error ("Flash operation failed: " ++ message c)%string e))
          else if (Z.of_nat attempt <? retries)%Z
          then bind (record (Slept (2 ^ Z.of_nat attempt))) (fun _ => flash_attempts perform n' (S attempt) retries) s'
          else (s', inl (flash_error ("Flash operation failed after " ++ pretty (retries + 1)%Z ++
                                      " attempts. Last error: " ++ message c)%string e))
      end
  end.

Definition services_up (m : M unit) : M unit :=
  finally (record StartHttp >>> record StartTftp >>> m) (record StopHttp >>> record StopTftp).

(** Whether the image goes through the exporter's HTTP server. *)
Definition download_to_httpd (path : string) (force_exporter_http : bool) : bool :=
  negb (is_oci path) && negb (is_http path && negb force_exporter_http).

(** [flash] after its checks. [operator_path] is the path the storage operator reads, [early]
    whether the thread has ended when the bundle is set up, [setup] the answer of
    [setup_flasher_bundle]. *)
Definition flash (fuel : nat) (operator_path : string -> string) (early : bool) (setup : exc + unit)
    (upload : option exc) (o : FlashOptions) (path : string) (force_exporter_http : bool) (retries : Z) : M unit :=
  let download := download_to_httpd path force_exporter_http in
  lift setup >>>
  (if download && early then wait_for_storage_thread upload else ret tt) >>>
  services_up
    (let path := if download then operator_path path else path in
     let image_url := if download then (http_url env ++ "/" ++ filename path)%string else path in
     flash_attempts (perform_flash_operation fuel o path image_url download upload)
       (Z.to_nat (retries + 1)) 0 retries).

(** ** The checks before it *)

(** [_resolve_oci_credentials]; [resolve] is [resolve_oci_credentials] of [common/oci.py]
    (modelled in [Oci]) for the path, with the message of its [ValueError]. *)
Definition flash_credentials (resolve : string -> option string -> option string -> string + (option string * option string))
    (path : string) (user pass : option string) : exc + (option string * option string) :=
  if is_some user || is_some pass || is_oci path
  then match resolve path user pass with
       | inl msg => inl (error (KOther "ClickException") msg)
       | inr c => inr c
       end
  else inr (None, None).

(** The first lines of [flash]: the token and the headers are validated, and credentials for
    an image that is not an OCI one are dropped. *)
Definition check_options (resolve : string -> option string -> option string -> string + (option string * option string))
    (o : FlashOptions) (path : string) : exc + FlashOptions :=
  match (if given (bearer_token o) then checked (validate_bearer_token (bearer_token o)) else inr (bearer_token o)) with
  | inl e => inl e
  | inr token =>
      match (if bool_decide (headers o = []) then inr [] else checked (validate_header_dict (headers o))) with
      | inl e => inl e
      | inr hs =>
          match flash_credentials resolve path (oci_username (fls_options o)) (oci_password (fls_options o)) with
          | inl e => inl e
          | inr c =>
              let c := if given (fst c) && negb (is_oci path) then (None, None) else c in
              inr (mkFlashOptions (partition o) (block_device o) (cacert_file o) (insecure_tls o) hs token
                     (flash_method o)
                     (mkFlsOptions (fls_version (fls_options o)) (fls_binary_url (fls_options o)) (fst c) (snd c))
                     (power_off o))
          end
      end
  end.

(** The whole of [flash]. *)
Definition flash_checked (resolve : string -> option string -> option string -> string + (option string * option string))
    (fuel : nat) (operator_path : string -> string) (early : bool) (setup : exc + unit)
    (upload : option exc) (o : FlashOptions) (path : string) (force_exporter_http : bool) (retries : Z) : M unit :=
  do* o := lift (check_options resolve o path) in
  flash fuel operator_path early setup upload o path force_exporter_http retries.

End Client.

(** * The upload *)

Section Upload.

(** The hash of a content, what reading the source gives, and whether writing fails; a write
    that fails leaves what was written. *)
Context (sha256 : string -> string).

Record Upload := mkUpload {
  up_file : string;
  up_is_fs : bool;
  up_source : exc + string;
  up_known_hash : option string;
  up_write : option (exc * string);
  up_metadata : exc + string
}.

(** [_transfer_bg_thread]: the storage after it, and what it puts into the queue. *)
Definition transfer_bg_thread (u : Upload) (storage : list (string * string)) : list (string * string) * option exc :=
  match up_source u with
  | inl e => (storage, Some e)
  | inr content =>
      let file_hash := if up_is_fs u then Some (sha256 content) else up_known_hash u in
      let same := match file_hash, dict_get (up_file u) storage with
                  | Some h, Some stored => truthy h && String.eqb (sha256 stored) h
                  | _, _ => false
                  end in
      if same then (storage, None)
      else match up_write u with
           | Some (e, partial) => (dict_set (up_file u) partial storage, Some e)
           | None =>
               let storage := dict_set (up_file u) content storage in
               match up_metadata u with
               | inl e => (storage, Some e)
               | inr m => (dict_set (up_file u ++ ".metadata")%string m storage, None)
               end
           end
  end.

End Upload.

(** * The command line *)

(** The operations of [j storage flash]: the device is left on, when asked to, after the
    last one only. *)
Fixpoint with_power (ops : list flash_op) (power_off : bool) : list (flash_op * bool) :=
  match ops with
  | [] => []
  | [op] => [(op, power_off)]
  | op :: ops' => (op, true) :: with_power ops' power_off
  end.

(** * Theorems *)

(** ** Exceptions *)

(** The exceptions found in one: itself, the members of a group, the cause. *)
Inductive within (x : exc) : exc -> Prop :=
| w_self : within x x
| w_member e y : y ∈ members e -> within x y -> within x e
| w_cause e y : cause e = Some y -> within x y -> within x e.

Fixpoint size (e : exc) : nat :=
  match e with
  | Exc _ _ l c => S (fold_right (fun x n => size x + n) 0 l + match c with Some y => size y | None => 0 end)
  end%nat.

Lemma size_member x l : x ∈ l -> (size x <= fold_right (fun x n => size x + n) 0 l)%nat.
Proof. induction 1; cbn; lia. Qed.

Lemma first_some_spec {A B} (f : A -> option B) l :
  match first_some f l with
  | Some y => exists x, x ∈ l /\ f x = Some y
  | None => forall x, x ∈ l -> f x = None
  end.
Proof.
  induction l as [|x l IH]; cbn; [by intros x ?%elem_of_nil |]. destruct (f x) eqn:E.
  - exists x. split; [apply elem_of_cons; by left | done].
  - destruct (first_some f l).
    + destruct IH as (z & H1 & H2). exists z. split; [apply elem_of_cons; by right | done].
    + intros z [->|Hz]%elem_of_cons; auto.
Qed.

Lemma find_both t n e : (size e <= n)%nat ->
  (match find_in_chain t e with
   | Some x => within x e /\ kind x = t
   | None => forall x, within x e -> kind x <> t
   end) /\
  (match find_in_causes t e with
   | Some x => within x e /\ kind x = t
   | None => forall x, within x e -> kind x <> t
   end).
Proof.
  revert e. induction n as [|n IH]; intros [k m l c] Hn; cbn [size] in Hn; [lia |].
  set (e := Exc k m l c).
  assert (match first_some (find_in_chain t) l with
          | Some x => within x e /\ kind x = t
          | None => forall y x, y ∈ l -> within x y -> kind x <> t
          end) as Hl.
  { pose proof (first_some_spec (find_in_chain t) l) as H. destruct (first_some (find_in_chain t) l) as [x|].
    - destruct H as (y & Hy & Hf). pose proof (size_member _ _ Hy). destruct (IH y ltac:(lia)) as [Hi _].
      rewrite Hf in Hi. destruct Hi. split; [by eapply w_member | done].
    - intros y x Hy. pose proof (size_member _ _ Hy). destruct (IH y ltac:(lia)) as [Hi _].
      rewrite (H y Hy) in Hi. by apply Hi. }
  assert (match match c with Some e' => find_in_causes t e' | None => None end with
          | Some x => within x e /\ kind x = t
          | None => forall y x, c = Some y -> within x y -> kind x <> t
          end) as Hc.
  { destruct c as [y|]; [| done]. destruct (IH y ltac:(lia)) as [_ Hi]. destruct (find_in_causes t y) as [x|].
    - destruct Hi. split; [by eapply w_cause | done].
    - intros z x [= <-]. apply Hi. }
  assert (k = t -> within e e /\ kind e = t) as Hs by (intros <-; split; [constructor | done]).
  assert (k <> t -> (forall y x, y ∈ l -> within x y -> kind x <> t) ->
          (forall y x, c = Some y -> within x y -> kind x <> t) -> forall x, within x e -> kind x <> t) as Hnone.
  { intros H1 H2 H3 x Hx. inversion Hx; subst; [done | by eapply H2 | by eapply H3]. }
  split.
  - change (find_in_chain t e) with
      (match first_some (find_in_chain t) l with
       | Some r => Some r
       | None => if bool_decide (k = t) then Some e
                 else match c with Some e' => find_in_causes t e' | None => None end
       end).
    destruct (first_some (find_in_chain t) l); [done |]. case_bool_decide; [auto |].
    destruct (match c with Some e' => find_in_causes t e' | None => None end); [done | auto].
  - change (find_in_causes t e) with
      (if bool_decide (k = t) then Some e
       else match first_some (find_in_chain t) l with
            | Some r => Some r
            | None => match c with Some e' => find_in_causes t e' | None => None end
            end).
    case_bool_decide; [auto |]. destruct (first_some (find_in_chain t) l); [done |].
    destruct (match c with Some e' => find_in_causes t e' | None => None end); [done | auto].
Qed.

Lemma find_spec t e :
  match find_in_chain t e with
  | Some x => within x e /\ kind x = t
  | None => forall x, within x e -> kind x <> t
  end.
Proof. apply (find_both t (size e)). done. Qed.

Definition contains (t : ekind) (e : exc) : Prop := exists x, within x e /\ kind x = t.

(** The search finds an error of a kind whenever there is one, at any depth. *)
Lemma search_complete t e : is_some (find_in_chain t e) = true <-> contains t e.
Proof.
  pose proof (find_spec t e) as H. unfold contains. destruct (find_in_chain t e) as [x|]; cbn [is_some].
  - split; [intros _; by exists x | done].
  - split; [done |]. intros (x & Hx & Hk). by destruct (H x Hx).
Qed.

(** An attempt that fails is not repeated exactly when a non-retryable error is found in
    the exception, its groups or its causes, or no retryable one is found and it is a
    cancellation or has a configuration error; everything else is retried. *)
Theorem categorize_exact e :
  (kind (categorize_exception e) = KNonRetryable <->
   contains KNonRetryable e \/ (~ contains KRetryable e /\ (kind e = KCancelled \/ contains KConfiguration e))) /\
  (kind (categorize_exception e) = KNonRetryable \/ kind (categorize_exception e) = KRetryable).
Proof.
  unfold categorize_exception. rewrite <- !search_complete.
  pose proof (find_spec KNonRetryable e) as H1. pose proof (find_spec KRetryable e) as H2.
  destruct (find_in_chain KNonRetryable e); cbn [is_some]; [destruct H1 as [_ ->]; naive_solver |].
  destruct (find_in_chain KRetryable e); cbn [is_some]; [destruct H2 as [_ ->]; naive_solver |].
  case_bool_decide as Hk; [cbn; naive_solver |].
  destruct (find_in_chain KConfiguration e); cbn; naive_solver.
Qed.

(** ** Retries *)

(** [retried perform a s es s']: from [s], attempts [a] and on failed with the retryable errors
    [es], each followed by a pause of [2 ** attempt] seconds. *)
Inductive retried (perform : M unit) : nat -> Session -> list exc -> Session -> Prop :=
| rt_none a s : retried perform a s [] s
| rt_more a s s1 e es s' :
    perform s = (s1, inl e) -> kind (categorize_exception e) <> KNonRetryable ->
    retried perform (S a) (s1 <| trace ::= fun t => t ++ [Slept (2 ^ Z.of_nat a)] |>) es s' ->
    retried perform a s (e :: es) s'.

Lemma attempts_run perform n a retries s :
  (Z.of_nat n = retries + 1 - Z.of_nat a)%Z -> (0 < n)%nat ->
  exists es s1, retried perform a s es s1 /\ (Z.of_nat (a + length es) <= retries)%Z /\
    match snd (flash_attempts perform n a retries s) with
    | inr _ => perform s1 = flash_attempts perform n a retries s
    | inl e => exists e0, perform s1 = (fst (flash_attempts perform n a retries s), inl e0) /\ cause e = Some e0 /\
        (kind (categorize_exception e0) = KNonRetryable \/ Z.of_nat (a + length es) = retries)
    end.
Proof.
  revert a s. induction n as [|n IH]; intros a s Hn Hp; [lia |]. cbn [flash_attempts].
  destruct (perform s) as [s1 [e|[]]] eqn:Ep.
  - case_bool_decide as Hk.
    { exists [], s. split; [constructor |]. split; [cbn; lia |]. cbn [fst snd]. exists e. rewrite Ep. auto. }
    destruct (Z.ltb_spec (Z.of_nat a) retries) as [Hl|Hl].
    + set (s2 := s1 <| trace ::= fun t => t ++ [Slept (2 ^ Z.of_nat a)] |>).
      destruct (IH (S a) s2) as (es & s3 & H1 & H2 & H3); [lia | lia |].
      exists (e :: es), s3. split; [by eapply rt_more |]. cbn [length]. split; [lia |].
      change (bind (record (Slept (2 ^ Z.of_nat a))) (fun _ => flash_attempts perform n (S a) retries) s1)
        with (flash_attempts perform n (S a) retries s2).
      destruct (snd (flash_attempts perform n (S a) retries s2)) as [e1|[]]; [| done].
      destruct H3 as (e0 & H4 & H5 & H6). exists e0. split_and!; [done | done |].
      destruct H6 as [H6|H6]; [by left | right; lia].
    + exists [], s. split; [constructor |]. split; [cbn; lia |]. cbn [fst snd]. exists e. rewrite Ep.
      split_and!; [done | done |]. right. cbn. lia.
  - exists [], s. split; [constructor |]. split; [cbn; lia |]. cbn [snd]. by rewrite Ep.
Qed.

(** C40: With a number of retries that is not negative, flashing is attempted until it
    succeeds, a non-retryable error occurs, or the retries are used up, whichever comes
    first: all earlier attempts failed with retryable errors, at most as many as there are
    retries, with pauses that double; the result is that of the last attempt, whose error is
    the cause of the one raised. *)
Theorem attempts_exact perform retries s :
  (0 <= retries)%Z ->
  let r := flash_attempts perform (Z.to_nat (retries + 1)) 0 retries s in
  exists es s1, retried perform 0 s es s1 /\ (Z.of_nat (length es) <= retries)%Z /\
    match snd r with
    | inr _ => perform s1 = r
    | inl e => exists e0, perform s1 = (fst r, inl e0) /\ cause e = Some e0 /\
        (kind (categorize_exception e0) = KNonRetryable \/ Z.of_nat (length es) = retries)
    end.
Proof.
  intros Hr. destruct (attempts_run perform (Z.to_nat (retries + 1)) 0 retries s) as (es & s1 & H1 & H2 & H3);
    [lia | lia |]. by exists es, s1.
Qed.

(** A negative number of retries makes no attempt at all, and reports success. *)
Theorem no_attempt_succeeds perform retries s :
  (retries < 0)%Z -> flash_attempts perform (Z.to_nat (retries + 1)) 0 retries s = (s, inr tt).
Proof. intros H. by replace (Z.to_nat (retries + 1)) with 0%nat by lia. Qed.

(** ** The upload *)

(** When the background thread ends without an error, the exporter's storage holds the
    image, provided that equal hashes mean equal contents and that a hash given by the user
    is that of the image; the other files are as they were, but for the metadata. *)
Theorem upload_exact sha256 u storage content :
  (forall a b, sha256 a = sha256 b -> a = b) ->
  up_source u = inr content -> (up_is_fs u = true \/ up_known_hash u = None \/ up_known_hash u = Some (sha256 content)) ->
  let r := transfer_bg_thread sha256 u storage in
  snd r = None ->
  dict_get (up_file u) (fst r) = Some content /\
  (forall f, f <> up_file u -> f <> (up_file u ++ ".metadata")%string -> dict_get f (fst r) = dict_get f storage).
Proof.
  intros Hinj Hsrc Hh. cbv zeta. unfold transfer_bg_thread. rewrite Hsrc.
  assert (forall h, (if up_is_fs u then Some (sha256 content) else up_known_hash u) = Some h -> h = sha256 content) as Hfh.
  { intros h H. destruct (up_is_fs u); [congruence |]. destruct Hh as [?|[Hh|Hh]]; congruence. }
  set (fh := if up_is_fs u then _ else _) in *. clearbody fh.
  destruct (match fh, dict_get (up_file u) storage with
            | Some h, Some stored => truthy h && String.eqb (sha256 stored) h | _, _ => false end) eqn:Es.
  - intros _. cbn [fst]. split; [| done].
    destruct fh as [h|]; [| done]. destruct (dict_get (up_file u) storage) as [stored|]; [| done].
    apply andb_prop in Es as [_ Es]. apply String.eqb_eq in Es. f_equal. apply Hinj. rewrite Es. by apply Hfh.
  - destruct (up_write u) as [[e p]|]; [done |]. destruct (up_metadata u) as [e|m]; [done |]. intros _. cbn [fst].
    assert ((up_file u ++ ".metadata")%string <> up_file u) as Hne.
    { intros H. assert (String.length (up_file u ++ ".metadata") = String.length (up_file u)) as Hl by by rewrite H.
      revert Hl. clear. induction (up_file u) as [|a f IH]; [done |]. rewrite Str.sapp_cons. cbn. lia. }
    split.
    + rewrite dict_get_set_other by done. apply dict_get_set_same.
    + intros f H1 H2. rewrite !dict_get_set_other by congruence. done.
Qed.

(** The error of the upload is raised once: the next wait finds the queue empty. *)
Lemma upload_error_once e s1 s2 :
  thread_ended s1 = false -> queue s1 = [] ->
  snd (wait_for_storage_thread (Some e) s1) = inl e /\
  (thread_ended s2 = true -> queue s2 = queue (fst (wait_for_storage_thread (Some e) s1)) ->
   snd (wait_for_storage_thread (Some e) s2) = inr tt).
Proof.
  intros H1 H2. unfold wait_for_storage_thread. rewrite H1. cbn. rewrite H2. cbn.
  split; [done |]. intros -> ->. done.
Qed.

(** ** Targets *)

(** The path a partition label stands for does not depend on the block device: any two that
    the manifest names give the same. *)
Theorem block_device_ignored env label d1 d2 p1 p2 s :
  label <> EmptyString -> d1 <> EmptyString -> d2 <> EmptyString ->
  dict_get label (targets (manifest env)) = None ->
  dict_get d1 (targets (manifest env)) = Some p1 -> Str.startswith "/sys/class/block#" p1 = false ->
  dict_get d2 (targets (manifest env)) = Some p2 -> Str.startswith "/sys/class/block#" p2 = false ->
  resolve_and_prepare_target env (Some label) (Some d1) s = (s, inr ("/dev/disk/by-partlabel/" ++ label)%string) /\
  resolve_and_prepare_target env (Some label) (Some d2) s = (s, inr ("/dev/disk/by-partlabel/" ++ label)%string).
Proof.
  assert (forall x, x <> EmptyString -> given (Some x) = true) as Hg by (by intros []).
  intros Hl H1 H2 Hn T1 B1 T2 B2. unfold resolve_and_prepare_target. rewrite !Hg by done. cbn [from_option id].
  rewrite Hn. cbn [is_some andb]. unfold bind at 1 3. cbn [ret].
  assert (forall x, x <> EmptyString -> truthy x = true) as Ht by (by intros []).
  rewrite !Ht by done. cbn [negb]. unfold bind, get_target_device. rewrite T1, B1, T2, B2. done.
Qed.

(** ** Completion *)

(** When the pipeline ends before the client asks for the process, flashing fails for good,
    although the output holds the marker of success. *)
Theorem early_completion_fails env fuel output s :
  shows env (reads_done s) = Matched output ->
  List.find is_digits (map Str.strip (Str.splitlines output)) = None ->
  snd (monitor_flash_progress env fuel s) = inl (error KNonRetryable "Could not find dd process ID").
Proof.
  intros Hs Hf. unfold monitor_flash_progress, command, sendline, expect, read_console, bind, record. cbn.
  rewrite Hs. cbn. by rewrite Hf.
Qed.

Lemma bind_success {A B} (m : M A) (k : A -> M B) s s' b :
  bind m k s = (s', inr b) -> exists s1 a, m s = (s1, inr a) /\ k a s1 = (s', inr b).
Proof. unfold bind. destruct (m s) as [s1 [e|a]]; [done |]. eauto. Qed.

Lemma contains_app v a b : Str.str_contains v b = true -> Str.str_contains v (a ++ b) = true.
Proof. intros H. induction a as [|c a IH]; [done |]. rewrite Str.sapp_cons. cbn [Str.str_contains]. by rewrite IH, orb_true_r. Qed.

Lemma contains_drop v n s : Str.str_contains v (drop n s) = true -> Str.str_contains v s = true.
Proof. intros H. rewrite <- (substring_split n s). by apply contains_app. Qed.

Lemma contains_window acc data v :
  Str.str_contains v (update_accumulated_output acc data) = true -> Str.str_contains v (acc ++ data) = true.
Proof. unfold update_accumulated_output. destruct (_ <? _)%nat; [apply contains_drop | done]. Qed.

(** The texts of [n] reads of the console from the [i]-th on. *)
Definition text_of (r : shown) : string := match r with Matched b => b | _ => "" end.

Fixpoint texts (env : Env) (i n : nat) : string :=
  match n with O => "" | S n' => (text_of (shows env i) ++ texts env (S i) n')%string end.

Lemma command_success env line s s' b :
  command env line s = (s', inr b) ->
  shows env (reads_done s) = Matched b /\ reads_done s' = S (reads_done s).
Proof.
  unfold command, sendline, record, expect, read_console, bind. cbn.
  destruct (shows env (reads_done s)); intros [= <- <-] || done. done.
Qed.

Lemma contains_app_l v a b : Str.str_contains v a = true -> Str.str_contains v (a ++ b) = true.
Proof.
  revert b. induction a as [|c a IH]; intros b; [destruct v; [by destruct b | done] |]. rewrite Str.sapp_cons. cbn [Str.str_contains].
  intros [H|H]%orb_prop; [| by rewrite IH, orb_true_r].
  assert (forall v x y, String.prefix v x = true -> String.prefix v (x ++ y) = true) as Hp.
  { clear. induction v as [|d v IHv]; intros [|e x] y; [by destruct y | done | done |]. rewrite Str.sapp_cons.
    cbn. destruct (ascii_dec d e); [apply IHv | done]. }
  apply (Hp _ _ b) in H. rewrite Str.sapp_cons in H. by rewrite H.
Qed.

Lemma dd_loop_sound env fuel pid acc fin s s' :
  pid <> "0" -> monitor_dd_loop env fuel pid acc fin s = (s', inr tt) ->
  (reads_done s <= reads_done s')%nat /\
  Str.str_contains "FLASH_COMPLETE" (acc ++ texts env (reads_done s) (reads_done s' - reads_done s)) = true.
Proof.
  intros Hp. revert acc fin s. induction fuel as [|fuel IH]; intros acc fin s; cbn [monitor_dd_loop]; [done |].
  rewrite (proj2 (String.eqb_neq pid "0") Hp). cbn [negb andb].
  intros (s1 & data & Hc & H)%bind_success. apply command_success in Hc as [Hd Hr].
  assert (forall acc' f s2, reads_done s2 = S (reads_done s) ->
    (forall x, Str.str_contains "FLASH_COMPLETE" (acc' ++ x) = true ->
               Str.str_contains "FLASH_COMPLETE" ((acc ++ data) ++ x) = true) ->
    monitor_dd_loop env fuel pid acc' f s2 = (s', inr tt) ->
    (reads_done s <= reads_done s')%nat /\
    Str.str_contains "FLASH_COMPLETE" (acc ++ texts env (reads_done s) (reads_done s' - reads_done s)) = true) as Hrec.
  { intros acc' f s2 Hs2 Hacc Hm. apply IH in Hm as [H1 H2]. split; [lia |].
    replace (reads_done s' - reads_done s)%nat with (S (reads_done s' - reads_done s2)) by lia.
    cbn [texts]. rewrite Hd. cbn [text_of]. rewrite <- Str.sapp_assoc. apply Hacc. by rewrite <- Hs2. }
  assert (forall x, Str.str_contains "FLASH_COMPLETE" (update_accumulated_output acc data ++ x) = true ->
                    Str.str_contains "FLASH_COMPLETE" ((acc ++ data) ++ x) = true) as Hwin.
  { intros x. unfold update_accumulated_output. destruct (_ <? _)%nat; [| done]. intros Hx.
    set (n := (_ - WINDOW)%nat) in Hx. rewrite <- (substring_split n (acc ++ data)), Str.sapp_assoc. by apply contains_app. }
  unfold check_completion_markers in H.
  destruct (Str.str_contains "FLASH_COMPLETE" (update_accumulated_output acc data)) eqn:Ec.
  - injection H as <-. split; [lia |]. rewrite Hr. replace (S (reads_done s) - reads_done s)%nat with 1%nat by lia.
    cbn [texts]. rewrite Hd, Str.sapp_nil. cbn [text_of]. by apply contains_window.
  - destruct (Str.str_contains "FLASH_FAILED" _); [done |].
    destruct (Str.str_contains "No such file or directory" data).
    + apply bind_success in H as (s2 & t & Ht & H). eapply Hrec; [| exact Hwin | exact H].
      unfold handle_dd_finished in Ht. destruct fin as [t0|]; [destruct (5000 <? _)%Z; [done |] |]; injection Ht as <- <-; done.
    + apply bind_success in H as (s2 & [] & Ht & H). injection Ht as <-. eapply Hrec; [| exact Hwin | exact H]. done.
Qed.

(** The shell method reports success only when the device printed the marker of success,
    in what the console showed from the query of the process on, however the output was cut
    into reads and although only the last 64 KiB are kept. *)
Theorem dd_success_sound env fuel s s' :
  monitor_flash_progress env fuel s = (s', inr tt) ->
  (forall b, shows env (reads_done s) = Matched b -> List.find is_digits (map Str.strip (Str.splitlines b)) <> Some "0") ->
  Str.str_contains "FLASH_COMPLETE" (texts env (reads_done s) (reads_done s' - reads_done s)) = true.
Proof.
  unfold monitor_flash_progress. intros (s1 & output & Hc & H)%bind_success Hz.
  apply command_success in Hc as [Hd Hr]. specialize (Hz output Hd).
  destruct (List.find _ _) as [pid|]; [| done]. apply dd_loop_sound in H as [H1 H2]; [| congruence].
  replace (reads_done s' - reads_done s)%nat with (S (reads_done s' - reads_done s1)) by lia.
  cbn [texts]. rewrite Hd. cbn [text_of]. by rewrite <- Hr.
Qed.

(** Once the process is gone, the monitor of the shell method ends: with a second between
    two reads, seven rounds are enough to find a marker or give up. *)
Theorem dd_monitor_ends env fuel pid acc s :
  pid <> "0" -> (7 <= fuel)%nat ->
  (forall k, (reads_done s <= k)%nat -> exists data, shows env k = Matched data /\
             Str.str_contains "No such file or directory" data = true) ->
  (forall k, clock env k + 1000 <= clock env (S k))%Z ->
  snd (monitor_dd_loop env fuel pid acc None s) <> inl (error (KOther "out of fuel") "").
Proof.
  intros Hp Hf Hdata Hclk.
  assert (forall k n, clock env k + 1000 * Z.of_nat n <= clock env (k + n))%Z as Hadv.
  { intros k n. induction n as [|n IH]; [rewrite Nat.add_0_r; lia |]. rewrite Nat.add_succ_r. specialize (Hclk (k + n)%nat). lia. }
  assert (forall fuel acc fin s2, (reads_done s <= reads_done s2)%nat -> (0 < fuel)%nat ->
    match fin with Some t => (5000 < clock env (reads_done s2 + fuel) - t)%Z | None => (7 <= fuel)%nat end ->
    snd (monitor_dd_loop env fuel pid acc fin s2) <> inl (error (KOther "out of fuel") "")) as H;
    [| apply H; [done | lia | done]].
  clear fuel acc Hf. induction fuel as [|fuel IH]; intros acc fin s2 Hs Hf Hfin; [lia |]. cbn [monitor_dd_loop].
  rewrite (proj2 (String.eqb_neq pid "0") Hp). cbn [negb andb].
  destruct (Hdata _ Hs) as (data & Hd & Hc).
  unfold bind at 1, command, sendline, record, expect, read_console, bind at 1 2. cbn. rewrite Hd. cbn.
  unfold check_completion_markers. destruct (Str.str_contains "FLASH_COMPLETE" _); [done |].
  destruct (Str.str_contains "FLASH_FAILED" _); [done |]. rewrite Hc.
  unfold bind at 1, handle_dd_finished. cbn. destruct fin as [t|].
  - destruct (Z.ltb_spec 5000 (clock env (S (reads_done s2)) - t)); [done |]. cbn.
    destruct fuel as [|fuel]; [rewrite Nat.add_1_r in Hfin; lia |]. apply IH; cbn; [lia | lia |].
    rewrite Nat.add_succ_r in Hfin. exact Hfin.
  - apply IH; cbn; [lia | lia |].
    specialize (Hadv (S (reads_done s2)) fuel). cbn in Hadv. lia.
Qed.

(** ** One attempt and its surroundings *)

(** An attempt that succeeds ends by rebooting the device and, when asked to, powering it off;
    nothing comes after that. *)
Theorem success_powers_off env fuel o path url download upload s s' :
  perform_flash_operation env fuel o path url download upload s = (s', inr tt) ->
  exists t, trace s' = t ++ [Sent "reboot"; Slept 2] ++ (if power_off o then [PowerOff] else []).
Proof.
  unfold perform_flash_operation. intros H.
  apply bind_success in H as (s1 & d & _ & H). apply bind_success in H as (s2 & tgt & _ & H).
  apply bind_success in H as (s3 & [] & _ & H). apply bind_success in H as (s4 & [] & _ & H).
  apply bind_success in H as (s5 & b & _ & H). apply bind_success in H as (s6 & st & _ & H).
  apply bind_success in H as (s7 & h & _ & H). apply bind_success in H as (s8 & [] & _ & H).
  exists (trace s8). destruct (power_off o); injection H as <-; cbn; by rewrite <- ?app_assoc.
Qed.

(** The services are stopped however the flashing ends. *)
Theorem services_stopped env fuel operator_path upload o path force retries s :
  exists t, trace (fst (flash env fuel operator_path false (inr tt) upload o path force retries s)) =
    t ++ [StopHttp; StopTftp].
Proof.
  unfold flash. cbn [lift]. unfold bind at 1. cbn [ret]. rewrite andb_false_r. unfold bind at 1. cbn [ret].
  unfold services_up, finally. destruct (bind (record StartHttp) _ s) as [s1 r].
  exists (trace s1). cbn. by rewrite <- app_assoc.
Qed.

(** A token that is accepted is not empty, has no quote, blank or control character, and is at
    most 4096 characters long. *)
Lemma token_checked token t :
  given token = true -> validate_bearer_token token = inr t ->
  exists t', t = Some t' /\ truthy t' = true /\ Str.all_chars bearer_char t' = true /\ (String.length t' <= 4096)%nat.
Proof.
  destruct token as [x|]; [intros _ | done]. unfold validate_bearer_token.
  destruct (truthy (Str.strip x)) eqn:E1; [simpl | done].
  destruct (Str.all_chars bearer_char (Str.strip x)) eqn:E2; [simpl | done].
  destruct (Nat.ltb_spec 4096 (String.length (Str.strip x))); [done |].
  intros [= <-]. eauto.
Qed.

(** Options that pass the checks: no OCI user is left for an image that is not an OCI one, the
    headers are the given ones, all valid, and so is a token. *)
Theorem checked_options_exact resolve o path o' :
  check_options resolve o path = inr o' ->
  (is_oci path = false -> given (oci_username (fls_options o')) = false) /\
  headers o' = headers o /\ check_header_items [] (headers o') = inr tt /\
  (given (bearer_token o) = true -> exists t, bearer_token o' = Some t /\ truthy t = true /\
     Str.all_chars bearer_char t = true /\ (String.length t <= 4096)%nat).
Proof.
  unfold check_options. intros H.
  destruct (if given (bearer_token o) then _ else _) as [|token] eqn:Et; [done |].
  destruct (if bool_decide _ then _ else _) as [|hs] eqn:Eh; [done |].
  destruct (flash_credentials _ _ _ _) as [|c]; [done |]. injection H as <-. simpl.
  assert (Hhs : hs = headers o /\ check_header_items [] hs = inr tt).
  { unfold checked, validate_header_dict in Eh. case_bool_decide as E0; [rewrite E0; by simplify_eq |].
    destruct (check_header_items [] (headers o)) as [|[]] eqn:E; simplify_eq/=; by rewrite E. }
  destruct Hhs as [-> Hh]. split_and!; [ | done | done |].
  - intros Hp. rewrite Hp, andb_true_r. by destruct (given (fst c)) eqn:Eu; simpl.
  - intros Hg. rewrite Hg in Et. unfold checked in Et.
    destruct (validate_bearer_token (bearer_token o)) eqn:Ev; simplify_eq.
    exact (token_checked _ _ Hg Ev).
Qed.

(** Every file the client loads is served, when the driver is configured with the default
    variant of the bundle. *)
Theorem loaded_files_served m variant files :
  (forall d, dtb m = Some d -> variant_name d variant = dtb_default d) ->
  served_files m variant = Some files -> Forall (fun c => snd c ∈ files) (load_commands m).
Proof.
  intros Hd Hs. assert (get_dtb_file m variant = get_dtb_file m None) as Hg.
  { unfold get_dtb_file. destruct (dtb m) as [d|]; [| done]. by rewrite Hd. }
  unfold served_files in Hs. rewrite Hg in Hs. destruct (get_dtb_file m None) as [f|] eqn:Ef; [| done].
  injection Hs as <-. unfold load_commands. rewrite Ef.
  constructor; [apply elem_of_cons; by left |]. apply Forall_app. split.
  - destruct (initram m) as [[i a]|]; [| constructor]. destruct (truthy i); [| constructor].
    destruct (truthy a); [| constructor]. constructor; [| constructor]. cbn. set_solver.
  - destruct f as [f|]; [| constructor]. destruct (get_dtb_address m) as [a|]; [| constructor].
    destruct (truthy f); [| constructor]. destruct (truthy a); [| constructor]. constructor; [| constructor].
    cbn [snd andb]. apply elem_of_cons. right. apply elem_of_app. right. apply elem_of_cons. by left.
Qed.

Module FlashScenario.

Definition two_variants : Manifest :=
  mkManifest "booti" (mkLogin "login:" None None "#") "emmc" [("emmc", "/dev/mmcblk0")] ("data/Image", "0x80") None
    (Some (mkDtb "evm" "0x90" [("evm", mkVariant None (Some "evm.dtb")); ("lab", mkVariant (Some "booti lab") (Some "lab.dtb"))])) [].

(** Every read of the console shows [0], the exit code of a command that succeeded. *)
Definition env0 (m : Manifest) : Env :=
  mkEnv (fun _ => Matched "0") m (inr None) (inr None) (inr "booti") (inr tt) (inr ("10.0.0.2", "10.0.0.1")) "10.0.0.1"
    (fun _ => None) "http://10.0.0.1:8080" (fun _ => inr "") "0" (fun n => Z.of_nat n * 1000)%Z.

Definition options0 : FlashOptions :=
  mkFlashOptions None None None false [] None "fls" (mkFlsOptions "" None None None) true.

Definition fresh_session : Session := mkSession [] 0 [] false.

Definition failed_upload : exc := error (KOther "OSError") "No space left on device".

End FlashScenario.

Import FlashScenario.

(** The client asks for the default device tree whatever variant the driver is configured
    with: with another one it loads a file that is not on the server. *)
Theorem variant_dtb_not_served :
  served_files two_variants (Some "lab") = Some ["Image"; "lab.dtb"] /\
  load_commands two_variants = [("0x80", "Image"); ("0x90", "evm.dtb")].
Proof. split; reflexivity. Qed.

(** When the upload to the exporter fails, the first attempt raises its error, and the second,
    with the queue empty, flashes whatever is in the storage and reports success. *)
Theorem failed_upload_flashes_anyway :
  let r := flash (env0 two_variants) 5 (fun p => p) false (inr tt) (Some failed_upload) options0 "/img/os.img" false 1
             fresh_session in
  snd r = inr tt /\
  (Sent (fls_command "" "" "" "http://10.0.0.1:8080/os.img" "/dev/mmcblk0") ∈ trace (fst r)).
Proof.
  split; [vm_compute; reflexivity |]. apply (bool_decide_eq_true_1 _). vm_compute. reflexivity.
Qed.

(** ** Witnesses *)

Lemma attempts_exact_witness :
  exists es s1, retried (perform_flash_operation (env0 two_variants) 5 options0 "/img/os.img" "http://x/os.img" true (Some failed_upload))
      0 fresh_session es s1 /\ (Z.of_nat (length es) <= 1)%Z.
Proof.
  destruct (attempts_exact (perform_flash_operation (env0 two_variants) 5 options0 "/img/os.img" "http://x/os.img" true (Some failed_upload))
              1 fresh_session ltac:(lia)) as (es & s1 & H1 & H2 & _).
  by exists es, s1.
Defined.

Lemma upload_exact_witness :
  dict_get "os.img" (fst (transfer_bg_thread (fun c => c) (mkUpload "os.img" true (inr "new") None None (inr "{}")) [("os.img", "old")])) =
  Some "new".
Proof.
  apply (upload_exact (fun c => c) (mkUpload "os.img" true (inr "new") None None (inr "{}")) [("os.img", "old")] "new");
    [done | reflexivity | by left | reflexivity].
Defined.

Lemma dd_success_sound_witness :
  let env := env0 two_variants in
  Str.str_contains "FLASH_COMPLETE"
    (texts (mkEnv (fun n => if (n =? 0)%nat then Matched "77" else Matched "FLASH_COMPLETE") (manifest env) (inr None) (inr None)
              (inr "") (inr tt) (inr ("", "")) "" (fun _ => None) "" (fun _ => inr "") "" (clock env)) 0 2) = true.
Proof.
  intros env.
  set (e := mkEnv (fun n => if (n =? 0)%nat then Matched "77" else Matched "FLASH_COMPLETE") (manifest env) (inr None) (inr None)
              (inr "") (inr tt) (inr ("", "")) "" (fun _ => None) "" (fun _ => inr "") "" (clock env)).
  apply (dd_success_sound e 3 fresh_session (mkSession [Sent "pidof dd"; Sent "cat /proc/77/fdinfo/1"] 2 [] false));
    [vm_compute; reflexivity |].
  intros b [= <-]. vm_compute. discriminate.
Defined.

Lemma dd_monitor_ends_witness :
  snd (monitor_dd_loop
    (mkEnv (fun _ => Matched "cat: No such file or directory") two_variants (inr None) (inr None) (inr "") (inr tt) (inr ("", "")) ""
       (fun _ => None) "" (fun _ => inr "") "" (fun n => Z.of_nat n * 1000)%Z) 7 "77" "" None fresh_session)
  <> inl (error (KOther "out of fuel") "").
Proof.
  apply dd_monitor_ends; [discriminate | lia | intros k _; by eexists | intros k; cbn; lia].
Defined.
