(* ===== verification/Storage.v ===== *)
(** * Storage of an exporter

    Package [jumpstarter-driver-opendal]. The driver ([driver.py]) gives clients the files of an
    OpenDAL operator, keeps track of the paths it created and may remove them when it is
    closed; the client ([client.py], [adapter.py]) moves contents through resource handles,
    flashes images through them and switches a storage multiplexer. OpenDAL, its operators and
    the symbolic links of the local file system are parameters. *)

From stdpp Require Import base list strings sets.
From Stdlib Require Import ZArith Lia Ascii.
From S2P Require Import Prelude PyText Flasher FlashText.

Local Open Scope string_scope.
Local Open Scope list_scope.
Local Open Scope bool_scope.

(** * Paths *)

Fixpoint replace_char (a b : ascii) (s : string) : string :=
  match s with
  | EmptyString => EmptyString
  | String c s' => String (if Ascii.eqb c a then b else c) (replace_char a b s')
  end.

Fixpoint lstrip_slash (s : string) : string :=
  match s with
  | String c s' => if Ascii.eqb c "/" then lstrip_slash s' else s
  | EmptyString => EmptyString
  end.

Definition strip_slash (s : string) : string := Str.srev (lstrip_slash (Str.srev (lstrip_slash s))).

(** [posixpath.normpath]: one segment, onto the reversed list of those kept. *)
Definition norm_step (rooted : bool) (acc : list string) (c : string) : list string :=
  if String.eqb c "" || String.eqb c "." then acc
  else if negb (String.eqb c "..") then c :: acc
  else match acc with
       | [] => if rooted then [] else [".."]
       | p :: acc' => if String.eqb p ".." then ".." :: acc else acc'
       end.

Definition norm_comps (rooted : bool) (cs : list string) : list string := rev (fold_left (norm_step rooted) cs []).

(** Two leading slashes are kept, three or more are one. *)
Definition initial_slashes (p : string) : string :=
  if Str.startswith "/" p
  then if Str.startswith "//" p && negb (Str.startswith "///" p) then "//" else "/"
  else "".

Definition normpath (p : string) : string :=
  let initial := initial_slashes p in
  let r := (initial ++ Str.join "/" (norm_comps (truthy initial) (Str.split_char "/" p)))%string in
  if truthy r then r else ".".

(** [os.path.join] and [os.path.abspath] *)
Definition path_join (a b : string) : string :=
  if Str.startswith "/" b then b
  else if negb (truthy a) || Str.startswith "/" (Str.srev a) then (a ++ b)%string
  else (a ++ "/" ++ b)%string.

Definition abspath (cwd p : string) : string := normpath (if Str.startswith "/" p then p else path_join cwd p).

(** * The driver *)

(** [_normalize_path] *)
Definition normalize_path (path : string) : string :=
  if negb (truthy path) then path
  else
    let normalized := strip_slash (normpath (replace_char "\" "/" path)) in
    if String.eqb normalized "." then "" else normalized.

(** ** The paths it created *)

Definition set_add (p : string) (created : list string) : list string :=
  if bool_decide (p ∈ created) then created else created ++ [p].

Definition set_discard (p : string) (created : list string) : list string :=
  List.filter (fun q => negb (String.eqb q p)) created.

(** The calls that touch the set; a handle is opened for reading or writing. *)
Inductive Mode := RB | WB.

#[export] Instance Mode_eq_dec : EqDecision Mode.
Proof. solve_decision. Defined.

Inductive call :=
| Open (path : string) (mode : Mode)
| Copy (source target : string)
| Rename (source target : string)
| RemoveAll (path : string)
| CreateDir (path : string)
| Delete (path : string)
| CopyExporterFile (target : string)
| RegisterPath (path : string).

(** What a call that succeeded does to [_created_paths]; one that raises does nothing. *)
Definition track (c : call) (created : list string) : list string :=
  match c with
  | Open path WB => set_add (normalize_path path) created
  | Open _ RB => created
  | Copy _ target => set_add (normalize_path target) created
  | Rename source target => set_add (normalize_path target) (set_discard (normalize_path source) created)
  | RemoveAll path => set_discard (normalize_path path) created
  | CreateDir path => set_add (normalize_path path) created
  | Delete path => set_discard (normalize_path path) created
  | CopyExporterFile target => set_add (normalize_path target) created
  | RegisterPath path => set_add (normalize_path path) created
  end.

Definition tracked (calls : list (call * bool)) : list string :=
  fold_left (fun created (cr : call * bool) => if snd cr then track (fst cr) created else created) calls [].

(** ** Cleaning up *)

Inductive node := Directory | RegularFile.

#[export] Instance node_eq_dec : EqDecision node.
Proof. solve_decision. Defined.

(** Absolute paths and what is there. *)
Definition Disk := list (string * node).

Section Cleanup.

(** Entries that survive a removal that fails: [keeps p k] when [k] is left by the removal of
    [p]. *)
Context (keeps : string -> string -> bool).

Definition under (p k : string) : bool := String.eqb k p || Str.startswith (p ++ "/")%string k.

Definition rmtree (p : string) (d : Disk) : Disk :=
  List.filter (fun e => negb (under p (fst e)) || keeps p (fst e)) d.

(** [os.rmdir] of an empty directory, and [os.remove] *)
Definition remove_entry (p : string) (d : Disk) : Disk :=
  List.filter (fun e => negb (String.eqb (fst e) p) || keeps p (fst e)) d.

Definition empty_dir (p : string) (d : Disk) : bool :=
  forallb (fun e => negb (Str.startswith (p ++ "/")%string (fst e))) d.

Definition full_path (root path : string) : string := normpath (path_join root (lstrip_slash path)).

(** The check that a path is inside the root and not the root itself. *)
Definition removable (root full : string) : bool :=
  negb (String.eqb full root) && Str.startswith (root ++ "/")%string full.

Definition remove_path (root : string) (d : Disk) (path : string) : Disk :=
  let full := full_path root path in
  if negb (removable root full) then d
  else match dict_get full d with
       | None => d
       | Some Directory => if empty_dir full d then remove_entry full d else rmtree full d
       | Some RegularFile => remove_entry full d
       end.

(** [sorted(paths, reverse=True)] *)
Fixpoint insert_desc (p : string) (l : list string) : list string :=
  match l with
  | [] => [p]
  | q :: l' => match String.compare p q with Lt => q :: insert_desc p l' | _ => p :: l end
  end.

Definition sorted_desc (l : list string) : list string := fold_right insert_desc [] l.

Definition cleanup_created_resources (root : string) (created : list string) (d : Disk) : Disk :=
  fold_left (remove_path root) (sorted_desc created) d.

(** [close]; the root is that of the operator's options, ["/"] when there is none. *)
Definition close (cwd scheme : string) (root_option : option string) (remove_created_on_close : bool)
    (created : list string) (d : Disk) : Disk :=
  if remove_created_on_close && String.eqb scheme "fs"
  then cleanup_created_resources (abspath cwd (default "/" root_option)) created d
  else d.

End Cleanup.

(** * Contents *)

(** What reading a file gives, one read after the other, up to the empty one that ends it. *)
Fixpoint read_until_empty (reads : list string) : list string :=
  match reads with
  | [] => []
  | item :: reads' => if truthy item then item :: read_until_empty reads' else []
  end.

(** [AsyncFileStream.receive] until the end of the stream. *)
Definition file_items (readable : bool) (reads : list string) : list string :=
  if readable then read_until_empty reads else [].

(** [BytesIOStream]: what [receive] gives of a buffer, and the buffer after [send]s. *)
Definition BUFFER_CHUNK : nat := Z.to_nat 65535.

Definition buffer_items (data : string) : list string := chunks (String.length data) BUFFER_CHUNK data.

Definition buffer_sent (items : list string) (buf : string) : string :=
  fold_left (fun b item => (b ++ item)%string) items buf.

(** [file_write]: the items of the resource go into the file, until a write fails. *)
Fixpoint file_write (fails : string -> bool) (items : list string) (content : string) : string * bool :=
  match items with
  | [] => (content, true)
  | item :: items' => if fails item then (content, false) else file_write fails items' (content ++ item)%string
  end.

(** [file_read]: the items of the file go into the resource. *)
Definition file_read (readable : bool) (reads : list string) (buf : string) : string :=
  buffer_sent (file_items readable reads) buf.

(** [OpendalClient.write_bytes]: the file is opened for writing, and is empty then. *)
Definition write_bytes (fails : string -> bool) (data : string) : string * bool := file_write fails (buffer_items data) "".

Definition read_bytes (reads : list string) : string := file_read true reads "".

(** [copy_exporter_file] *)
Definition copy_exporter_file (reads : list string) : string := buffer_sent (read_until_empty reads) "".

Section Hash.

(** A hash object of [hashlib]. *)
Context {H : Type} (init : H) (update : H -> string -> H) (hexdigest : H -> string).

Definition hash (reads : list string) : string := hexdigest (fold_left update (read_until_empty reads) init).

End Hash.

(** * The client *)

Inductive error :=
| ValueError (msg : string)
| OpendalError (msg : string)
| ArgumentError (msg : string)
| DriverError (msg : string).

Inductive handle :=
| PresignedUrl (url method : string)
| PresignedBy (path : string)
| StreamOf (path : string) (mode : Mode) (compression : option string).

(** An operator: whether it can presign a read, and what opening a file gives. *)
Record Operator := mkOperator {
  scheme : string;
  endpoint : string;
  presigns : bool;
  presign_read : string -> error + unit;
  opens : string -> Mode -> error + unit
}.

(** [OpendalAdapter]: the handle it yields. *)
Definition opendal_adapter (op : Operator) (path : string) (mode : Mode) (compression original_url : option string)
    : error + handle :=
  if is_some original_url && is_some compression
  then inl (ValueError "compression is not supported with direct HTTP URLs (original_url)")
  else
    match mode, original_url with
    | WB, Some _ => inl (ValueError "original_url is not supported in write mode")
    | RB, Some url => inr (PresignedUrl url "GET")
    | _, None =>
        if bool_decide (mode = RB) && presigns op && negb (is_some compression)
        then match presign_read op path with inl e => inl e | inr _ => inr (PresignedBy path) end
        else match opens op path mode with inl e => inl e | inr _ => inr (StreamOf path mode compression) end
    end.

(** ** Operators for paths *)

(** [urlparse(url).path], [.netloc] and [.query]. *)
Definition url_rest (url : string) : string := after (fun c => Str.has_char c "/?#") (drop_scheme url).

Definition url_netloc (url : string) : string := until (fun c => Str.has_char c "/?#") (drop_scheme url).

Definition url_path (url : string) : string :=
  let path := until (fun c => Str.has_char c "?#") (url_rest url) in
  match Str.rsplit1 "/" path with
  | Some (dir, name) => (dir ++ "/" ++ until (Ascii.eqb ";") name)%string
  | None => until (Ascii.eqb ";") path
  end.

Definition url_query (url : string) : string :=
  let q := after (fun c => Str.has_char c "?#") (url_rest url) in
  match q with String "?" q' => until (Ascii.eqb "#") q' | _ => "" end.

(** [path_with_query] *)
Definition path_with_query (url : string) : string :=
  if truthy (url_query url) then (url_path url ++ "?" ++ url_query url)%string else url_path url.

(** [str(Path(p))] *)
Definition pathlib (p : string) : string :=
  let body := Str.join "/" (List.filter (fun c => truthy c && negb (String.eqb c ".")) (Str.split_char "/" p)) in
  let r := (initial_slashes p ++ body)%string in
  if truthy r then r else ".".

Section Client.

(** [Path.resolve], and the operators that [Operator(...)] makes. *)
Context (resolve : string -> string) (http_operator : string -> Operator) (fs_operator : Operator).

Definition url_scheme (url : string) : string := if Str.startswith "https://" url then "https" else "http".

(** [operator_for_path]: the path and the operator. *)
Definition operator_for_path (path : string) : string * Operator :=
  if is_http path
  then (pathlib (url_path path), http_operator (url_scheme path ++ "://" ++ url_netloc path)%string)
  else (resolve path, fs_operator).

(** The handle for an image: a URL is passed on as it is. *)
Definition source_handle (path : string) (operator : option Operator) (compression : option string) : error + handle :=
  let original_url := if is_http path then Some path else None in
  let po := match operator with Some op => (path, op) | None => operator_for_path path end in
  opendal_adapter (snd po) (fst po) RB compression original_url.

Definition target_handle (path : string) (operator : option Operator) (compression : option string) : error + handle :=
  let po := match operator with Some op => (path, op) | None => operator_for_path path end in
  opendal_adapter (snd po) (fst po) WB compression None.

(** ** Calls of the driver *)

Inductive request := Call (method : string) (h : option handle) (target : option string).

(** The n-th call of the driver: an error, or a result. *)
Context (driver : nat -> request -> string + string).

Definition M (A : Type) : Type := list request -> list request * (error + A).

Definition ret {A} (a : A) : M A := fun tr => (tr, inr a).
Definition raise {A} (e : error) : M A := fun tr => (tr, inl e).
Definition bind {A B} (m : M A) (k : A -> M B) : M B := fun tr =>
  match m tr with (tr', inl e) => (tr', inl e) | (tr', inr a) => k a tr' end.
Definition finally {A} (m : M A) (fin : M unit) : M A := fun tr =>
  let r := m tr in
  match fin (fst r) with (tr', inl e) => (tr', inl e) | (tr', inr _) => (tr', snd r) end.

Definition send_request (r : request) : M string := fun tr =>
  (tr ++ [r], match driver (length tr) r with inl msg => inl (DriverError msg) | inr v => inr v end).

Definition with_handle {A} (h : error + handle) (k : handle -> M A) : M A :=
  match h with inl e => raise e | inr h => k h end.

(** ** [FlasherClient] *)

Definition flash_single (image : string) (target : option string) (operator : option Operator)
    (compression : option string) : M string :=
  with_handle (source_handle image operator compression) (fun h => send_request (Call "flash" (Some h) target)).

(** The operator of every image: one for all, or a dictionary. *)
Inductive operators := OneOperator (op : option Operator) | OperatorMap (ops : list (string * Operator)).

Definition operator_of (ops : operators) (part : string) : option Operator :=
  match ops with OneOperator op => op | OperatorMap m => dict_get part m end.

Fixpoint flash_images (images : list (string * string)) (ops : operators) (compression : option string)
    (results : list (string * string)) : M (list (string * string)) :=
  match images with
  | [] => ret results
  | (part, img) :: rest =>
      bind (flash_single img (Some part) (operator_of ops part) compression)
        (fun r => flash_images rest ops compression (dict_set part r results))
  end.

Definition flash (path : string + list (string * string)) (target : option string) (ops : operators)
    (compression : option string) : M (string + list (string * string)) :=
  match path with
  | inr images =>
      if is_some target then raise (ArgumentError "'target' parameter is not valid when flashing multiple images")
      else bind (flash_images images ops compression []) (fun rs => ret (inr rs))
  | inl image =>
      match ops with
      | OperatorMap _ => raise (ArgumentError "operator mapping provided for single image flash")
      | OneOperator op => bind (flash_single image target op compression) (fun r => ret (inl r))
      end
  end.

Definition dump (path : string) (target : option string) (operator : option Operator) (compression : option string)
    : M string :=
  with_handle (target_handle path operator compression) (fun h => send_request (Call "dump" (Some h) target)).

(** [_should_upload_file]: [local] is the hash of the source and [stored] that of the file in
    the storage, when they can be computed. *)
Definition should_upload_file (exists_ : bool) (operator_scheme : string) (local stored : option string) : bool :=
  if negb exists_ then true
  else if negb (String.eqb operator_scheme "fs") then true
  else match local, stored with
       | Some src_hash, Some storage_hash => negb (String.eqb storage_hash src_hash)
       | _, _ => true
       end.

(** ** [StorageMuxFlasherClient] *)

Definition mux_call (method : string) : M unit := bind (send_request (Call method None None)) (fun _ => ret tt).

Definition unsupported (target : string) : error :=
  ArgumentError ("target is not supported for StorageMuxFlasherClient, " ++ target ++ " provided").

Definition mux_flash (path : string) (target : option string) (operator : option Operator) (compression : option string)
    : M string :=
  match target with
  | Some t => raise (unsupported t)
  | None =>
      bind (mux_call "host") (fun _ =>
        with_handle (source_handle path operator compression)
          (fun h => finally (send_request (Call "write" (Some h) None)) (mux_call "dut")))
  end.

Definition mux_dump (path : string) (target : option string) (operator : option Operator) (compression : option string)
    : M string :=
  match target with
  | Some t => raise (unsupported t)
  | None =>
      bind (mux_call "host") (fun _ =>
        with_handle (target_handle path operator compression)
          (fun h => finally (send_request (Call "read" (Some h) None)) (mux_call "dut")))
  end.

(** [write_local_file] and [read_local_file]: always through a stream or a presigned request of
    the local file system. *)
Definition write_local_file (path : string) : M string :=
  with_handle (opendal_adapter fs_operator (resolve path) RB None None)
    (fun h => send_request (Call "write" (Some h) None)).

Definition read_local_file (path : string) : M string :=
  with_handle (opendal_adapter fs_operator (resolve path) WB None None)
    (fun h => send_request (Call "read" (Some h) None)).

End Client.

(** * Tracking and cleaning up *)

(** What one call says about a normalised path: that it now exists by the driver's doing, that
    it no longer does, or nothing. *)
Definition verdict (p : string) (c : call) : option bool :=
  match c with
  | Open path WB | CreateDir path | CopyExporterFile path | RegisterPath path | Copy _ path =>
      if String.eqb (normalize_path path) p then Some true else None
  | Open _ RB => None
  | Rename source target =>
      if String.eqb (normalize_path target) p then Some true
      else if String.eqb (normalize_path source) p then Some false else None
  | RemoveAll path | Delete path => if String.eqb (normalize_path path) p then Some false else None
  end.

(** The last verdict of the calls that succeeded. *)
Definition last_verdict (p : string) (calls : list (call * bool)) : bool :=
  fold_left (fun v (cr : call * bool) => if snd cr then default v (verdict p (fst cr)) else v) calls false.

Lemma created_add_in p q l : p ∈ set_add q l <-> p = q \/ p ∈ l.
Proof. unfold set_add. case_bool_decide; set_solver. Qed.

Lemma created_discard_in p q l : p ∈ set_discard q l <-> p <> q /\ p ∈ l.
Proof.
  unfold set_discard. rewrite !list_elem_of_In, filter_In, negb_true_iff, String.eqb_neq. naive_solver.
Qed.

Lemma track_verdict p c l : p ∈ track c l <-> default (bool_decide (p ∈ l)) (verdict p c) = true.
Proof.
  destruct c as [path []|?|source target|?|?|?|?|?]; cbn [track verdict];
    rewrite ?created_add_in, ?created_discard_in;
    repeat match goal with |- context [String.eqb ?a p] => destruct (String.eqb_spec a p); subst end;
    cbn; rewrite ?bool_decide_eq_true; naive_solver.
Qed.

Lemma tracked_found p calls : last_verdict p calls = true <-> p ∈ tracked calls.
Proof.
  unfold tracked, last_verdict.
  assert (forall l v, (p ∈ l <-> v = true) ->
    (p ∈ fold_left (fun created (cr : call * bool) => if snd cr then track (fst cr) created else created) calls l <->
     fold_left (fun v (cr : call * bool) => if snd cr then default v (verdict p (fst cr)) else v) calls v = true)) as H;
    [| symmetry; apply H; set_solver].
  induction calls as [|[c []] calls IH]; intros l v Hv; cbn [fold_left fst snd]; [done | | by apply IH].
  apply IH. rewrite track_verdict. destruct (verdict p c); cbn; [done |]. by rewrite bool_decide_eq_true.
Qed.

(** ** The clean-up *)

Lemma under_trans p q k : under p q = true -> under q k = true -> under p k = true.
Proof.
  unfold under. intros [->%String.eqb_eq|Hp]%orb_true_iff; [done |].
  intros [->%String.eqb_eq|Hq]%orb_true_iff; [by rewrite Hp, orb_true_r |].
  apply orb_true_iff. right. apply (Str.startswith_trans _ q); [done |].
  apply (Str.startswith_trans _ (q ++ "/")); [apply Str.startswith_app | done].
Qed.

Lemma under_refl p : under p p = true.
Proof. unfold under. by rewrite String.eqb_refl. Qed.

Lemma insert_desc_in p q l : p ∈ insert_desc q l <-> p = q \/ p ∈ l.
Proof.
  induction l as [|r l IH]; cbn [insert_desc]; [set_solver |].
  destruct (String.compare q r); set_solver.
Qed.

Lemma sorted_desc_in p l : p ∈ sorted_desc l <-> p ∈ l.
Proof. induction l as [|q l IH]; cbn [sorted_desc fold_right]; [done |]. rewrite insert_desc_in. set_solver. Qed.

(** A directory tree: what is above an entry exists, and nothing is below a file. *)
Definition disk_ok (d : Disk) : Prop :=
  (forall p k, is_some (dict_get k d) = true -> Str.startswith (p ++ "/") k = true -> p <> "" -> dict_get p d = Some Directory).

(** What one removal does when nothing fails. *)
Definition removed (root path k : string) : bool :=
  removable root (full_path root path) && under (full_path root path) k.

Section Facts.

Context (keeps : string -> string -> bool).

Lemma rmtree_get p k d :
  dict_get k (rmtree keeps p d) = if negb (under p k) || keeps p k then dict_get k d else None.
Proof. apply (dict_get_filter (fun k => negb (under p k) || keeps p k)). Qed.

Lemma remove_entry_get p k d :
  dict_get k (remove_entry keeps p d) = if negb (String.eqb k p) || keeps p k then dict_get k d else None.
Proof. apply (dict_get_filter (fun k => negb (String.eqb k p) || keeps p k)). Qed.

Lemma remove_path_keeps root path k d :
  removed root path k = false -> dict_get k (remove_path keeps root d path) = dict_get k d.
Proof.
  unfold removed, remove_path. set (full := full_path root path).
  destruct (removable root full); [cbn [andb negb] | done]. intros Hu.
  assert (String.eqb k full = false) as He by (unfold under in Hu; by apply orb_false_iff in Hu as [? _]).
  destruct (dict_get full d) as [[]|]; [destruct (empty_dir full d) | |];
    rewrite ?rmtree_get, ?remove_entry_get, ?Hu, ?He; done.
Qed.

End Facts.

(** Removals that do not fail. *)
Definition never : string -> string -> bool := fun _ _ => false.

Lemma removed_not_empty root path k : removed root path k = true -> full_path root path <> "".
Proof.
  unfold removed, removable. intros [[_ [t Ht]%Str.startswith_split]%andb_true_iff _]%andb_true_iff.
  rewrite Ht. destruct root; [done |]. by rewrite Str.sapp_cons.
Qed.

Lemma below_empty p k d : empty_dir p d = true -> Str.startswith (p ++ "/") k = true -> dict_get k d = None.
Proof.
  unfold empty_dir. rewrite forallb_forall. intros H Hk. apply dict_get_None.
  intros [[k' v] [-> Hin%list_elem_of_In]]%list_elem_of_fmap. specialize (H _ Hin). cbn in *. by rewrite Hk in H.
Qed.

Lemma remove_path_get root path k d :
  disk_ok d ->
  dict_get k (remove_path never root d path) = if removed root path k then None else dict_get k d.
Proof.
  intros Hd. destruct (removed root path k) eqn:Hr; [| by apply remove_path_keeps].
  pose proof (removed_not_empty _ _ _ Hr) as Hne. unfold removed in Hr. unfold remove_path.
  set (full := full_path root path) in *. apply andb_true_iff in Hr as [Hrm Hu]. rewrite Hrm. cbn [negb].
  assert (forall v, dict_get k d = Some v -> k = full \/ dict_get full d = Some Directory) as Habove.
  { intros v Hv. unfold under in Hu. apply orb_true_iff in Hu as [->%String.eqb_eq|Hu]; [by left | right].
    apply (Hd _ k); [by rewrite Hv | done | done]. }
  assert (k <> full -> Str.startswith (full ++ "/") k = true) as Hbelow.
  { intros Hk. unfold under in Hu. by apply orb_true_iff in Hu as [->%String.eqb_eq|]. }
  destruct (dict_get full d) as [[]|] eqn:Ef.
  - destruct (empty_dir full d) eqn:Ee.
    + rewrite remove_entry_get. destruct (String.eqb_spec k full) as [->|Hk]; [done |].
      cbn. eapply below_empty; eauto.
    + rewrite rmtree_get. by rewrite Hu.
  - rewrite remove_entry_get. destruct (String.eqb_spec k full) as [->|Hk]; [done |]. cbn.
    destruct (dict_get k d) as [v|] eqn:Ek; [| done]. destruct (Habove v eq_refl); done.
  - destruct (dict_get k d) as [v|] eqn:Ek; [| done]. destruct (Habove v eq_refl) as [->|]; congruence.
Qed.

Lemma remove_path_ok root path d : disk_ok d -> disk_ok (remove_path never root d path).
Proof.
  intros Hd p k. rewrite !remove_path_get by done. intros Hk Hp Hne.
  destruct (removed root path k) eqn:Hrk; [done |]. rewrite (Hd p k Hk Hp Hne).
  destruct (removed root path p) eqn:Hrp; [| done]. unfold removed in *.
  apply andb_true_iff in Hrp as [Hrm Hu]. rewrite Hrm, (under_trans _ _ k Hu) in Hrk; [done |].
  unfold under. by rewrite Hp, orb_true_r.
Qed.

Lemma cleanup_exact_get root created d k :
  disk_ok d ->
  dict_get k (cleanup_created_resources never root created d) =
  if existsb (fun path => removed root path k) created then None else dict_get k d.
Proof.
  intros Hd. unfold cleanup_created_resources.
  assert (existsb (fun path => removed root path k) created =
          existsb (fun path => removed root path k) (sorted_desc created)) as ->.
  { apply eq_iff_eq_true. rewrite !existsb_exists. setoid_rewrite <- list_elem_of_In.
    by setoid_rewrite sorted_desc_in. }
  induction (sorted_desc created) as [|p l IH] in d, Hd |- *; [done |]. cbn [fold_left existsb].
  rewrite IH by by apply remove_path_ok. rewrite remove_path_get by done.
  destruct (removed root p k); cbn; [by destruct existsb | done].
Qed.

(** Whatever fails, nothing outside the root is touched, nor the root itself. *)
Theorem cleanup_confined keeps root created d k :
  Str.startswith (root ++ "/") k = false ->
  dict_get k (cleanup_created_resources keeps root created d) = dict_get k d.
Proof.
  intros Hk. unfold cleanup_created_resources.
  induction (sorted_desc created) as [|p l IH] in d |- *; [done |]. cbn [fold_left]. rewrite IH.
  apply remove_path_keeps. destruct (removed root p k) eqn:Hr; [| done]. exfalso.
  unfold removed, removable in Hr. apply andb_true_iff in Hr as [[_ Hs]%andb_true_iff Hu].
  revert Hk. enough (Str.startswith (root ++ "/") k = true) by congruence.
  apply (Str.startswith_trans _ (full_path root p)); [done |].
  unfold under in Hu. apply orb_true_iff in Hu as [->%String.eqb_eq|Hu].
  - rewrite <- (Str.sapp_nil (full_path root p)) at 2. apply Str.startswith_app.
  - eapply Str.startswith_trans; [apply Str.startswith_app | exact Hu].
Qed.

(** ** Normalised paths *)

Definition plain (c : string) : Prop := c <> "" /\ c <> "." /\ c <> ".." /\ Str.has_char "/" c = false.

(** Segments that are kept: as many steps up as are needed, then plain names; none up when
    the path is absolute. *)
Lemma norm_shape rooted cs :
  Forall (fun c => Str.has_char "/" c = false) cs ->
  exists m names, norm_comps rooted cs = repeat ".." m ++ names /\ Forall plain names /\ (rooted = true -> m = 0%nat).
Proof.
  intros Hcs. unfold norm_comps.
  assert (forall acc m names, acc = rev names ++ repeat ".." m -> Forall plain names -> (rooted = true -> m = 0%nat) ->
    exists m' names', fold_left (norm_step rooted) cs acc = rev names' ++ repeat ".." m' /\ Forall plain names' /\
      (rooted = true -> m' = 0%nat)) as H.
  { induction Hcs as [|c cs Hc Hcs IH]; intros acc m names Hacc Hn Hm; [by exists m, names |].
    cbn [fold_left]. unfold norm_step at 2.
    destruct (String.eqb_spec c ""); [by eapply IH |]. destruct (String.eqb_spec c "."); [by eapply IH |].
    cbn [orb]. destruct (String.eqb_spec c ".."); cbn [negb].
    - destruct (decide (names = [])) as [->|Hne].
      + cbn [rev app] in Hacc. subst acc. destruct m as [|m]; cbn [repeat].
        * destruct rooted; [by eapply (IH _ 0%nat []) | by eapply (IH _ 1%nat [])].
        * cbn. eapply (IH _ (S (S m)) []); [done | done |]. intros Hr. by specialize (Hm Hr).
      + destruct (exists_last Hne) as (ns & x & ->). rewrite rev_app_distr in Hacc. cbn [rev app] in Hacc. subst acc.
        apply Forall_app in Hn as [Hns Hx]. apply Forall_singleton in Hx as (? & ? & Hdd & ?).
        destruct (String.eqb_spec x ".."); [done |]. by eapply IH.
    - eapply (IH _ m (names ++ [c])); [by rewrite rev_app_distr; subst acc | | done].
      apply Forall_app. split; [done |]. by apply Forall_singleton. }
  destruct (H [] 0%nat [] eq_refl (Forall_nil_2 _) (fun _ => eq_refl)) as (m & names & -> & Hn & Hm).
  exists m, names. split; [| done]. rewrite rev_app_distr, rev_involutive. f_equal.
  clear. induction m as [|m IH]; [done |]. cbn [repeat rev]. rewrite IH. symmetry.
  change (".." :: repeat ".." m = repeat ".." m ++ [".."]). by rewrite repeat_cons.
Qed.

(** Plain names are kept as they are, after a prefix of them. *)
Lemma norm_plain rooted names : Forall plain names -> norm_comps rooted names = names.
Proof.
  intros H. unfold norm_comps.
  enough (forall acc, fold_left (norm_step rooted) names acc = rev names ++ acc) as ->
    by by rewrite app_nil_r, rev_involutive.
  induction H as [|c names (H1 & H2 & H3 & _) _ IH]; intros acc; [done |]. cbn [fold_left].
  assert (norm_step rooted acc c = c :: acc) as ->; [| rewrite IH; cbn; by rewrite <- app_assoc].
  unfold norm_step. by rewrite (proj2 (String.eqb_neq _ _) H1), (proj2 (String.eqb_neq _ _) H2), (proj2 (String.eqb_neq _ _) H3).
Qed.

Lemma split_no_sep c s : Forall (fun p => Str.has_char c p = false) (Str.split_char c s).
Proof. apply Forall_forall. intros p Hp%list_elem_of_In. by eapply Str.split_char_no_sep. Qed.

Definition segment (c : string) : Prop := c <> "" /\ Str.has_char "/" c = false.

Lemma plain_segment names : Forall plain names -> Forall segment names.
Proof. intros H. eapply Forall_impl; [exact H |]. by intros c (? & _ & _ & ?). Qed.

Lemma join_head cs : Forall segment cs -> Str.startswith "/" (Str.join "/" cs) = false.
Proof.
  destruct 1 as [|c cs [H1 H4] _]; [done |]. destruct c as [|a c]; [done |].
  cbn in H4. apply orb_false_iff in H4 as [H4 _].
  assert (Ascii.eqb "/" a = false) as Ha by (rewrite Ascii.eqb_sym; done).
  destruct cs; cbn [Str.join]; [| rewrite Str.sapp_cons]; cbn [Str.startswith]; by rewrite Ha.
Qed.

Lemma join_app cs ds : cs <> [] -> ds <> [] ->
  Str.join "/" (cs ++ ds) = (Str.join "/" cs ++ "/" ++ Str.join "/" ds)%string.
Proof.
  intros Hc Hd. induction cs as [|c cs IH]; [done |]. destruct cs as [|c' cs].
  - cbn [app Str.join]. by destruct ds.
  - cbn [app Str.join] in *. rewrite IH by done. by rewrite !Str.sapp_assoc.
Qed.

(** The text of segments ends with a character that is no slash. *)
Lemma join_last cs : cs <> [] -> Forall segment cs -> Str.startswith "/" (Str.srev (Str.join "/" cs)) = false.
Proof.
  intros Hne H. destruct (exists_last Hne) as (ds & c & ->). apply Forall_app in H as [_ [Hc1 Hc2]%Forall_singleton].
  assert (Str.startswith "/" (Str.srev c) = false) as Hc.
  { destruct (Str.startswith "/" (Str.srev c)) eqn:E; [| done]. apply Str.startswith_split in E as [t Ht].
    apply (f_equal Str.srev) in Ht. rewrite Str.srev_involutive, Str.srev_app in Ht. subst c.
    rewrite Str.has_char_app in Hc2. cbn in Hc2. by rewrite orb_true_r in Hc2. }
  assert (Str.srev c <> "") as Hc'.
  { intros E. apply (f_equal Str.srev) in E. by rewrite Str.srev_involutive in E. }
  destruct ds as [|d ds]; [done |]. rewrite join_app by done. cbn [Str.join].
  rewrite !Str.srev_app. destruct (Str.srev c) as [|a t]; [done |]. rewrite Str.sapp_assoc, Str.sapp_cons. done.
Qed.

Lemma lstrip_slash_id s : Str.startswith "/" s = false -> lstrip_slash s = s.
Proof.
  destruct s as [|a s]; [done |]. cbn [Str.startswith lstrip_slash]. rewrite andb_true_r, Ascii.eqb_sym. by intros ->.
Qed.

Lemma strip_join sl cs :
  sl = "" \/ sl = "/" \/ sl = "//" -> Forall segment cs -> strip_slash (sl ++ Str.join "/" cs) = Str.join "/" cs.
Proof.
  intros Hsl H. unfold strip_slash.
  assert (lstrip_slash (sl ++ Str.join "/" cs) = Str.join "/" cs) as ->.
  { pose proof (join_head cs H) as Hh. apply lstrip_slash_id in Hh.
    destruct Hsl as [->|[->| ->]]; rewrite ?Str.sapp_cons; done. }
  destruct (decide (cs = [])) as [->|Hne]; [done |].
  rewrite (lstrip_slash_id (Str.srev _)) by by apply join_last. apply Str.srev_involutive.
Qed.

Lemma initial_cases p : initial_slashes p = "" \/ initial_slashes p = "/" \/ initial_slashes p = "//".
Proof. unfold initial_slashes. destruct (Str.startswith "/" p); [| auto]. case_match; auto. Qed.

Lemma normalize_shape p :
  exists m names, normalize_path p = Str.join "/" (repeat ".." m ++ names) /\ Forall plain names.
Proof.
  unfold normalize_path. destruct (truthy p) eqn:Ep; cbn [negb]; [| exists 0%nat, []; by destruct p].
  set (q := replace_char "\" "/" p). unfold normpath. cbv zeta.
  destruct (norm_shape (truthy (initial_slashes q)) (Str.split_char "/" q) (split_no_sep _ _)) as (m & names & -> & Hn & _).
  set (cs := repeat ".." m ++ names).
  assert (Forall segment cs) as Hs.
  { apply Forall_app. split; [| by apply plain_segment]. clear. induction m; cbn; by constructor. }
  exists m, names. split; [| done]. fold cs.
  destruct (truthy (initial_slashes q ++ Str.join "/" cs)) eqn:Er.
  - rewrite strip_join by (done || apply initial_cases).
    destruct (String.eqb_spec (Str.join "/" cs) ".") as [E|]; [| done].
    destruct (decide (cs = [])) as [->|Hne]; [done |]. exfalso.
    apply (f_equal (Str.split_char "/")) in E. rewrite Str.split_char_join in E; [| done |].
    + unfold cs in E. destruct m as [|m]; [| by destruct m]. cbn in E. subst names.
      apply Forall_singleton in Hn as (_ & ? & _). done.
    + eapply Forall_impl; [exact Hs |]. by intros c [_ ?].
  - assert (Str.join "/" cs = "") as -> by (destruct (initial_slashes q); [by destruct (Str.join "/" cs) | done]). done.
Qed.

Lemma initial_one s : Str.startswith "/" s = false -> initial_slashes ("/" ++ s) = "/".
Proof.
  intros H. unfold initial_slashes. rewrite Str.sapp_cons. change ("" ++ s)%string with s.
  cbn [Str.startswith]. rewrite Ascii.eqb_refl. cbn [andb].
  destruct (Str.startswith "/" s) eqn:E; [done |]. cbn [Str.startswith] in E. by rewrite E.
Qed.

Lemma normpath_absolute names : Forall plain names -> normpath ("/" ++ Str.join "/" names) = ("/" ++ Str.join "/" names)%string.
Proof.
  intros H. unfold normpath. rewrite initial_one by by apply join_head, plain_segment. cbv zeta.
  assert (norm_comps true (Str.split_char "/" ("/" ++ Str.join "/" names)) = names) as E.
  { change (norm_comps true (Str.split_char "/" (Str.join "/" names)) = names).
    destruct (decide (names = [])) as [->|Hne]; [done |].
    rewrite Str.split_char_join; [by apply norm_plain | done |].
    eapply Forall_impl; [exact H |]. by intros c (_ & _ & _ & ?). }
  change (truthy "/") with true. by rewrite E.
Qed.

(** A root as [abspath] gives it, below the root of the file system. *)
Definition root_ok (root : string) : Prop :=
  exists names, names <> [] /\ Forall plain names /\ root = ("/" ++ Str.join "/" names)%string.

(** A normalised path that does not lead out of the root. *)
Definition inside (n : string) : Prop := n <> "" /\ n <> ".." /\ Str.startswith "../" n = false.

Lemma inside_names p : inside (normalize_path p) ->
  exists names, names <> [] /\ Forall plain names /\ normalize_path p = Str.join "/" names.
Proof.
  destruct (normalize_shape p) as (m & names & -> & Hn). intros (H1 & H2 & H3). destruct m as [|m].
  - exists names. split; [| done]. by intros ->.
  - exfalso. cbn [repeat app] in *. destruct (repeat ".." m ++ names) as [|c cs]; [done |].
    cbn [Str.join] in H3. by rewrite Str.sapp_cons in H3.
Qed.

Lemma full_path_inside root p : root_ok root -> inside (normalize_path p) ->
  full_path root (normalize_path p) = (root ++ "/" ++ normalize_path p)%string.
Proof.
  intros (rs & Hr1 & Hr2 & ->) (names & Hn1 & Hn2 & ->)%inside_names. unfold full_path.
  assert (Str.startswith "/" (Str.join "/" names) = false) as Hh by by apply join_head, plain_segment.
  rewrite lstrip_slash_id by done. unfold path_join. rewrite Hh.
  assert (Str.startswith "/" (Str.srev ("/" ++ Str.join "/" rs)) = false) as ->.
  { rewrite Str.srev_app. pose proof (join_last rs Hr1 (plain_segment _ Hr2)) as Hl.
    destruct (Str.srev (Str.join "/" rs)) as [|a t] eqn:E; [| by rewrite Str.sapp_cons].
    apply (f_equal Str.srev) in E. rewrite Str.srev_involutive in E. destruct rs as [|r rs]; [done |].
    apply Forall_cons in Hr2 as [(Hne & _) _]. destruct r; [done |]. by destruct rs. }
  change (truthy ("/" ++ Str.join "/" rs)) with true. cbn [negb orb].
  rewrite Str.sapp_assoc, <- join_app by done. apply normpath_absolute. by apply Forall_app.
Qed.

Lemma sapp_longer a s t : (s ++ String a t)%string <> s.
Proof. induction s as [|b s IH]; [done |]. rewrite Str.sapp_cons. by intros [= E]. Qed.

Lemma removed_inside root p : root_ok root -> inside (normalize_path p) ->
  removed root (normalize_path p) (root ++ "/" ++ normalize_path p) = true.
Proof.
  intros Hr Hp. unfold removed. rewrite full_path_inside, under_refl, andb_true_r by done.
  unfold removable. apply andb_true_iff. split.
  - apply negb_true_iff, String.eqb_neq. apply sapp_longer.
  - rewrite <- Str.sapp_assoc. apply Str.startswith_app.
Qed.

(** C35: From the calls to the disk: after [close] of a driver for the scheme [fs] that is
    configured to remove what it created, with a root other than that of the file system,
    nothing is left at a path whose last successful call created it, however that call
    spelled it, provided that the path does not lead out of the root and that no removal
    fails. The disk has files and directories only. (With the root [/], which is the
    default, nothing is removed: [default_root_removes_nothing].) *)
Theorem created_removed cwd root_option calls p d :
  let root := abspath cwd (default "/" root_option) in
  root_ok root -> disk_ok d -> inside (normalize_path p) -> last_verdict (normalize_path p) calls = true ->
  dict_get (root ++ "/" ++ normalize_path p)%string (close never cwd "fs" root_option true (tracked calls) d) = None.
Proof.
  intros root Hr Hd Hp Hv%tracked_found. unfold close. cbn [andb String.eqb Ascii.eqb Bool.eqb]. fold root.
  rewrite cleanup_exact_get by done.
  assert (existsb (fun path => removed root path (root ++ "/" ++ normalize_path p)) (tracked calls) = true) as ->; [| done].
  apply existsb_exists. exists (normalize_path p). split; [by apply list_elem_of_In | by apply removed_inside].
Qed.

(** With the root of the file system, which is what the driver assumes when none is
    configured, the check of a path compares with two slashes: nothing is ever removed. *)
Theorem default_root_removes_nothing keeps cwd created d :
  close keeps cwd "fs" None true created d = d.
Proof.
  unfold close, cleanup_created_resources. change (abspath cwd (default "/" None)) with "/".
  induction (sorted_desc created) as [|p l IH] in d |- *; [done |]. cbn [andb String.eqb Ascii.eqb Bool.eqb fold_left] in *.
  assert (removable "/" (full_path "/" p) = false) as Hrm; [| unfold remove_path at 2; by rewrite Hrm].
  unfold removable. apply andb_false_iff. right. unfold full_path.
  assert (Str.startswith "/" (lstrip_slash p) = false) as Hh.
  { induction p as [|a p IHp]; [done |]. cbn [lstrip_slash]. destruct (Ascii.eqb_spec a "/"); [done |].
    cbn [Str.startswith]. apply andb_false_iff. left. rewrite Ascii.eqb_sym. by apply Ascii.eqb_neq. }
  unfold path_join. rewrite Hh. change (negb (truthy "/") || Str.startswith "/" (Str.srev "/")) with true. cbv iota.
  unfold normpath. rewrite initial_one by done. cbv zeta. change (truthy "/") with true.
  destruct (norm_shape true (Str.split_char "/" ("/" ++ lstrip_slash p)) (split_no_sep _ _)) as (m & names & -> & Hn & Hm).
  rewrite (Hm eq_refl). cbn [repeat app]. change (truthy ("/" ++ Str.join "/" names)) with true. cbv iota.
  apply (join_head names), plain_segment, Hn.
Qed.

(** Closing the driver removes from the disk exactly what is at or below a tracked path that
    lies strictly inside the root, in whatever order the paths nest; everything else, the root
    and all outside of it included, is as it was. A path is tracked exactly when the last
    successful call about it, after normalisation, created it. *)
Theorem cleanup_exact root calls d k :
  disk_ok d ->
  (forall p, p ∈ tracked calls <-> last_verdict p calls = true) /\
  dict_get k (cleanup_created_resources never root (tracked calls) d) =
  if existsb (fun path => removed root path k) (tracked calls) then None else dict_get k d.
Proof. intros Hd. split; [intros p; symmetry; apply tracked_found | by apply cleanup_exact_get]. Qed.

(** ** Contents *)

Lemma buffer_sent_concat items buf : buffer_sent items buf = (buf ++ concat_strings items)%string.
Proof.
  unfold buffer_sent. induction items as [|x items IH] in buf |- *; cbn [fold_left]; [by rewrite Str.sapp_nil |].
  by rewrite IH, concat_strings_cons, Str.sapp_assoc.
Qed.

Lemma file_write_concat items content :
  file_write (fun _ => false) items content = ((content ++ concat_strings items)%string, true).
Proof.
  induction items as [|x items IH] in content |- *; cbn [file_write]; [by rewrite Str.sapp_nil |].
  by rewrite IH, concat_strings_cons, Str.sapp_assoc.
Qed.

Lemma read_pieces pieces rest : Forall (fun c => c <> "") pieces -> read_until_empty (pieces ++ "" :: rest) = pieces.
Proof. induction 1 as [|c pieces Hc _ IH]; cbn; [done |]. rewrite IH. by destruct c. Qed.

(** Bytes written through the client are the contents of the file, sent in pieces that are
    never empty nor longer than the buffer; and however a backend cuts them when they are
    read, the client gets the same bytes back, and a copy made on the exporter is the same. *)
Theorem bytes_roundtrip data pieces rest :
  Forall (fun c => c <> "") pieces -> concat_strings pieces = fst (write_bytes (fun _ => false) data) ->
  read_bytes (pieces ++ "" :: rest) = data /\ copy_exporter_file (pieces ++ "" :: rest) = data /\
  Forall (fun c => c <> "" /\ (String.length c <= BUFFER_CHUNK)%nat) (buffer_items data).
Proof.
  intros Hp Hc. unfold write_bytes in Hc. rewrite file_write_concat in Hc. cbn [fst] in Hc.
  destruct (chunks_concat (String.length data) BUFFER_CHUNK data) as [H1 H2]; [unfold BUFFER_CHUNK; lia | done |].
  unfold buffer_items in *. rewrite H1 in Hc. change ("" ++ data)%string with data in Hc.
  unfold read_bytes, file_read, file_items, copy_exporter_file. rewrite read_pieces, buffer_sent_concat by done.
  rewrite Hc. done.
Qed.

(** The hash of a file does not depend on how the backend cuts it into reads, for a hash object
    that is fed piece by piece. *)
Theorem hash_of_content {H} (init : H) update hexdigest pieces rest :
  (forall h, update h "" = h) -> (forall h a b, update (update h a) b = update h (a ++ b)%string) ->
  Forall (fun c => c <> "") pieces ->
  hash init update hexdigest (pieces ++ "" :: rest) = hexdigest (update init (concat_strings pieces)).
Proof.
  intros Hnil Happ Hp. unfold hash. rewrite read_pieces by done. f_equal. clear Hp.
  induction pieces as [|c pieces IH] in init |- *; cbn [fold_left]; [by rewrite Hnil |].
  by rewrite IH, concat_strings_cons, Happ.
Qed.

(** An upload is skipped only when the file is there with the hash of the local image. *)
Theorem upload_skipped exists_ scheme_ local stored :
  should_upload_file exists_ scheme_ local stored = false ->
  exists_ = true /\ scheme_ = "fs" /\ exists h, local = Some h /\ stored = Some h.
Proof.
  unfold should_upload_file. destruct exists_; [cbn | done].
  destruct (String.eqb_spec scheme_ "fs"); [cbn | done]. destruct local as [h|], stored as [h'|]; try done.
  intros ->%negb_false_iff%String.eqb_eq. eauto.
Qed.

(** ** The multiplexer *)

Section Mux.

Context (resolve : string -> string) (http_operator : string -> Operator) (fs_operator : Operator).
Context (driver : nat -> request -> string + string).

Abbreviation flash_mux := (mux_flash resolve http_operator fs_operator driver).
Abbreviation dump_mux := (mux_dump resolve http_operator fs_operator driver).

Lemma switched (read_or_write : string) h (v : string) tr :
  driver (length tr) (Call "host" None None) = inr v ->
  bind (mux_call driver "host") (fun _ =>
    with_handle h (fun h => finally (send_request driver (Call read_or_write (Some h) None)) (mux_call driver "dut"))) tr =
  match h with
  | inl e => (tr ++ [Call "host" None None], inl e)
  | inr h =>
      (tr ++ [Call "host" None None; Call read_or_write (Some h) None; Call "dut" None None],
       match driver (S (S (length tr))) (Call "dut" None None) with
       | inl msg => inl (DriverError msg)
       | inr _ => match driver (S (length tr)) (Call read_or_write (Some h) None) with
                  | inl msg => inl (DriverError msg)
                  | inr v => inr v
                  end
       end)
  end.
Proof.
  intros Hv. unfold bind at 1. unfold mux_call at 1, bind at 1, send_request at 1. rewrite Hv. cbn [ret].
  destruct h as [e|h]; [done |]. cbn [with_handle]. unfold finally, mux_call, bind, send_request, ret. cbn [fst snd].
  rewrite <- !app_assoc. cbn [app]. rewrite !length_app. cbn [length].
  replace (length tr + 1)%nat with (S (length tr)) by lia. replace (length tr + 2)%nat with (S (S (length tr))) by lia.
  by destruct (driver (S (S (length tr))) _).
Qed.

(** Flashing and dumping through a multiplexer: once the image can be opened, the storage is
    switched to the host, read or written, and switched to the device again, also when that
    fails; an error of the last switch comes first. A target is refused before anything is
    switched. *)
Theorem mux_switches_back path target operator compression h v tr :
  driver (length tr) (Call "host" None None) = inr v ->
  (target = None -> source_handle resolve http_operator fs_operator path operator compression = inr h ->
   fst (flash_mux path target operator compression tr) =
   tr ++ [Call "host" None None; Call "write" (Some h) None; Call "dut" None None]) /\
  (target = None -> target_handle resolve http_operator fs_operator path operator compression = inr h ->
   fst (dump_mux path target operator compression tr) =
   tr ++ [Call "host" None None; Call "read" (Some h) None; Call "dut" None None]) /\
  (target <> None -> fst (flash_mux path target operator compression tr) = tr /\
                     fst (dump_mux path target operator compression tr) = tr).
Proof.
  intros Hv. split_and!.
  - intros -> Hh. unfold mux_flash. rewrite (switched _ _ v) by done. by rewrite Hh.
  - intros -> Hh. unfold mux_dump. rewrite (switched _ _ v) by done. by rewrite Hh.
  - intros Ht. by destruct target.
Qed.

(** An image that cannot be opened is noticed after the switch: the storage stays with the
    host. *)
Theorem failed_open_leaves_host path operator compression e v tr :
  driver (length tr) (Call "host" None None) = inr v ->
  source_handle resolve http_operator fs_operator path operator compression = inl e ->
  flash_mux path None operator compression tr = (tr ++ [Call "host" None None], inl e).
Proof. intros Hv He. unfold mux_flash. rewrite (switched _ _ v) by done. by rewrite He. Qed.

(** A URL with a compression is such an image, whatever operator is given. *)
Theorem compressed_url_refused path operator c :
  is_http path = true ->
  source_handle resolve http_operator fs_operator path operator (Some c) =
  inl (ValueError "compression is not supported with direct HTTP URLs (original_url)").
Proof. intros H. unfold source_handle. by rewrite H. Qed.

End Mux.

(** ** Examples *)

Module StorageDemo.

Definition disk : Disk :=
  [("/srv", Directory); ("/srv/a", Directory); ("/srv/a/b", Directory); ("/srv/a/b/c", Directory);
   ("/srv/os.img", RegularFile); ("/srv/old.img", RegularFile)].

Definition calls : list (call * bool) :=
  [(CreateDir "a/b/c/", true); (Open "//os.img" WB, true); (Open "old.img" RB, true); (Copy "os.img" "x.img", false)].

Definition http (endpoint : string) : Operator := mkOperator "http" endpoint true (fun _ => inr tt) (fun _ _ => inr tt).
Definition local : Operator := mkOperator "fs" "" false (fun _ => inr tt) (fun _ _ => inr tt).

Definition works : nat -> request -> string + string := fun _ _ => inr "".

End StorageDemo.

Import StorageDemo.

(** The directories that were made on the way to a directory are not tracked, and stay. *)
Theorem parents_left :
  tracked calls = ["a/b/c"; "os.img"] /\
  map fst (close never "/" "fs" (Some "/srv") true (tracked calls) disk) = ["/srv"; "/srv/a"; "/srv/a/b"; "/srv/old.img"].
Proof. split; reflexivity. Qed.

(** The operator for a URL reads the path without its query: an image with a signed URL that is
    read through it is requested without its signature. *)
Theorem signed_query_lost :
  let url := "https://cdn.example/img/os.xz?Expires=1&Signature=ab" in
  let po := operator_for_path (fun p => p) http local url in
  fst po = "/img/os.xz" /\ path_with_query url = "/img/os.xz?Expires=1&Signature=ab" /\
  source_handle (fun p => p) http local (fst po) (Some (snd po)) None = inr (PresignedBy "/img/os.xz").
Proof. split_and!; reflexivity. Qed.

(** The paths above a path, and a check of [disk_ok]. *)
Fixpoint ancestors (k : string) : list string :=
  match k with
  | EmptyString => []
  | String c k' => (if Ascii.eqb c "/" then [""] else []) ++ map (String c) (ancestors k')
  end.

Definition disk_check (d : Disk) : bool :=
  forallb (fun e => forallb (fun p => String.eqb p "" || bool_decide (dict_get p d = Some Directory)) (ancestors (fst e))) d.

Lemma ancestors_in p t : p ∈ ancestors (p ++ "/" ++ t).
Proof.
  induction p as [|a p IH]; [by left |]. rewrite Str.sapp_cons. cbn [ancestors].
  apply elem_of_app. right. by apply list_elem_of_fmap_2.
Qed.

Lemma disk_check_ok d : disk_check d = true -> disk_ok d.
Proof.
  unfold disk_check. rewrite forallb_forall. intros H p k Hk [t Ht]%Str.startswith_split Hp.
  rewrite Str.sapp_assoc in Ht. subst k.
  destruct (decide ((p ++ "/" ++ t)%string ∈ d.*1)) as [Hin|Hin]; [| by rewrite (proj2 (dict_get_None _ d)) in Hk].
  apply list_elem_of_fmap in Hin as ([k v] & Hkv & Hin%list_elem_of_In). specialize (H _ Hin). cbn in *. subst k.
  rewrite forallb_forall in H. specialize (H p (proj1 (list_elem_of_In _ _) (ancestors_in p t))).
  apply orb_true_iff in H as [->%String.eqb_eq|H]; [done |]. by apply bool_decide_eq_true in H.
Qed.

Lemma srv_ok : root_ok "/srv".
Proof. exists ["srv"]. split; [done |]. split; [| done]. apply Forall_singleton. done. Qed.

(** ** Witnesses *)

Lemma created_removed_witness :
  dict_get "/srv/os.img" (close never "/" "fs" (Some "/srv") true (tracked calls) disk) = None.
Proof.
  apply (created_removed "/" (Some "/srv") calls "//os.img" disk); [exact srv_ok | by apply disk_check_ok | done | reflexivity].
Defined.

Lemma cleanup_exact_witness :
  dict_get "/srv/old.img" (cleanup_created_resources never "/srv" (tracked calls) disk) = Some RegularFile.
Proof.
  destruct (cleanup_exact "/srv" calls disk "/srv/old.img") as [_ ->]; [by apply disk_check_ok | reflexivity].
Defined.

Lemma cleanup_confined_witness :
  dict_get "/etc/passwd" (cleanup_created_resources (fun _ _ => true) "/srv" ["../etc"; "etc"] [("/etc/passwd", RegularFile)]) =
  Some RegularFile.
Proof. by rewrite (cleanup_confined (fun _ _ => true) "/srv" ["../etc"; "etc"] [("/etc/passwd", RegularFile)] "/etc/passwd"). Defined.

Lemma bytes_roundtrip_witness : read_bytes ["he"; "llo"; ""; "x"] = "hello".
Proof. apply (bytes_roundtrip "hello" ["he"; "llo"] ["x"]); [by repeat constructor | reflexivity]. Defined.

Lemma mux_switches_back_witness :
  fst (mux_flash (fun p => p) http local works "/img" None None None []) =
  [Call "host" None None; Call "write" (Some (StreamOf "/img" RB None)) None; Call "dut" None None].
Proof.
  apply (mux_switches_back (fun p => p) http local works "/img" None None None (StreamOf "/img" RB None) "" []); reflexivity.
Defined.
