(* ===== verification/MockScenario.v ===== *)
(** * Scenarios of the mock proxy

    [jumpstarter_driver_mitmproxy/driver.py]: captured traffic as a scenario
    ([export_captured_scenario]), the files it refers to, and a scenario as the endpoints of the
    addon ([_convert_url_endpoints]). JSON, YAML and [mimetypes] are parameters; texts are
    ASCII. A timestamp is a number of milliseconds. *)

From stdpp Require Import base list strings sets pretty.
From Stdlib Require Import ZArith Lia Ascii.
From S2P Require Import Prelude PyText Flasher FlashText Storage MockValues.

Local Open Scope string_scope.
Local Open Scope list_scope.
Local Open Scope bool_scope.

(** ** Loading *)

Inductive failure := Failure (msg : string).

(** An entry must be a dictionary. *)
Definition dict_of (v : value) : failure + vdict :=
  match v with VDict d => inr d | _ => inl (Failure "not a dictionary") end.

(** [d.pop(k)] and [d.update(e)] *)
Fixpoint vpop (k : key) (d : vdict) : vdict :=
  match d with
  | [] => []
  | (k', v) :: d' => if bool_decide (k = k') then d' else (k', v) :: vpop k d'
  end.

Definition vupdate (d e : vdict) : vdict := fold_left (fun acc kv => vset (fst kv) (snd kv) acc) e d.

(** [_flatten_entry]; a method is a text. *)
Definition flatten_entry (entry : value) : failure + (string * vdict) :=
  match dict_of entry with
  | inl e => inl e
  | inr d =>
      match default (VStr "GET") (vget (KStr "method") d) with
      | VStr method =>
          let d := vpop (KStr "method") d in
          match vget (KStr "response") d with
          | None => inr (method, d)
          | Some response =>
              match dict_of response with
              | inl e => inl e
              | inr r => inr (method, vupdate (vpop (KStr "response") d) r)
              end
          end
      | _ => inl (Failure "method is not a text")
      end
  end.

(** [by_method.setdefault(method, []).append(flat)] *)
Definition add_to_group {A} (k : string) (a : A) (groups : list (string * list A)) : list (string * list A) :=
  dict_set k (default [] (dict_get k groups) ++ [a]) groups.

Fixpoint group_by_method (entries : list value) (groups : list (string * list vdict)) : failure + list (string * list vdict) :=
  match entries with
  | [] => inr groups
  | entry :: entries' =>
      match flatten_entry entry with
      | inl e => inl e
      | inr (method, flat) => group_by_method entries' (add_to_group method flat groups)
      end
  end.

Definition has_match (d : vdict) : bool := is_some (vget (KStr "match") d).

(** The endpoint for the entries of one method. *)
Definition method_endpoint (entries : list vdict) : value :=
  match entries with
  | [e] => VDict e
  | _ => if existsb has_match entries then VDict [(KStr "rules", VList (map VDict entries))]
         else VDict [(KStr "sequence", VList (map VDict entries))]
  end.

Definition endpoint_key (method path : string) : string := (method ++ " " ++ path)%string.

(** The entries of a URL: a list, the rules of a dictionary, or one dictionary; [None] for
    anything else, which is left out. *)
Definition entries_of (ep : value) : option (failure + list value) :=
  match ep with
  | VList l => Some (inr l)
  | VDict d => match vget (KStr "rules") d with
               | Some (VList l) => Some (inr l)
               | Some _ => Some (inl (Failure "rules are not a list"))
               | None => Some (inr [ep])
               end
  | _ => None
  end.

Definition put_methods (path : string) (groups : list (string * list vdict)) (converted : list (string * value))
    : list (string * value) :=
  fold_left (fun acc g => dict_set (endpoint_key (fst g) path) (method_endpoint (snd g)) acc) groups converted.

(** [_convert_url_endpoints] *)
Fixpoint convert_url_endpoints (endpoints : list (string * value)) (converted : list (string * value))
    : failure + list (string * value) :=
  match endpoints with
  | [] => inr converted
  | (key, ep) :: rest =>
      if negb (is_http key) then convert_url_endpoints rest (dict_set key ep converted)
      else match entries_of ep with
           | None => convert_url_endpoints rest converted
           | Some (inl e) => inl e
           | Some (inr entries) =>
               match group_by_method entries [] with
               | inl e => inl e
               | inr groups => convert_url_endpoints rest (put_methods (url_path key) groups converted)
               end
           end
  end.

(** A dictionary with text keys. *)
Fixpoint text_keys (d : vdict) : option (list (string * value)) :=
  match d with
  | [] => Some []
  | (KStr k, v) :: d' => match text_keys d' with Some l => Some ((k, v) :: l) | None => None end
  | (KInt _, _) :: _ => None
  end.

(** [_extract_endpoints]: the endpoints, or a message. *)
Definition extract_endpoints (raw : value) : string + vdict :=
  match raw with
  | VDict d =>
      let endpoints := match vget (KStr "endpoints") d with
                       | Some e => e
                       | None => match vget (KStr "mocks") d with Some m => m | None => raw end
                       end in
      match endpoints with
      | VDict e => inr e
      | _ => inl "Invalid scenario: expected an object of endpoints"
      end
  | _ => inl "Invalid scenario: expected a JSON/YAML object"
  end.

(** ** Exporting *)

(** A captured request, as the addon sends it; its time is in whole milliseconds. *)
Record Req := mkReq {
  rq_method : string; rq_path : string; rq_url : string;
  rq_query : list (string * list string);
  rq_timestamp : Z; rq_status : Z; rq_content_type : string;
  rq_body : option string; rq_body_file : option string;
  rq_headers : list (string * string); rq_mocked : bool
}.

Definition base_path (r : Req) : string := until (Ascii.eqb "?") (rq_path r).

Section Exporting.

(** [fnmatch.fnmatch]; [mimetypes.guess_extension]; a body as pretty-printed JSON, when it is
    JSON; the spool files; whether a file of the export would leave its directory. *)
Context (fnmatch : string -> string -> bool) (guess_extension : string -> option string).
Context (pretty_json : string -> option string) (spool : string -> option string) (escapes : string -> bool).

Definition filter_captured_requests (filter_pattern : string) (exclude_mocked : bool) (rs : list Req) : list Req :=
  List.filter (fun r => negb (exclude_mocked && rq_mocked r) &&
                        (negb (truthy filter_pattern) || fnmatch (base_path r) filter_pattern)) rs.

Definition CONTENT_TYPE_EXTENSIONS : list (string * string) :=
  [("application/json", ".json"); ("application/xml", ".xml"); ("application/pdf", ".pdf"); ("application/zip", ".zip");
   ("application/gzip", ".gz"); ("application/octet-stream", ".bin"); ("application/javascript", ".js");
   ("application/x-protobuf", ".pb"); ("application/x-tar", ".tar"); ("application/x-firmware", ".fw");
   ("image/png", ".png"); ("image/jpeg", ".jpg"); ("image/gif", ".gif"); ("image/webp", ".webp"); ("image/svg+xml", ".svg");
   ("audio/mpeg", ".mp3"); ("audio/aac", ".aac"); ("audio/ogg", ".ogg"); ("video/mp4", ".mp4"); ("video/webm", ".webm");
   ("video/mpeg", ".mpg"); ("text/html", ".html"); ("text/css", ".css"); ("text/plain", ".txt"); ("text/xml", ".xml");
   ("text/csv", ".csv")].

Definition content_type_to_ext (content_type : string) : string :=
  if negb (truthy content_type) then ".bin"
  else
    let ct := Str.lower (Str.strip (until (Ascii.eqb ";") content_type)) in
    match dict_get ct CONTENT_TYPE_EXTENSIONS with
    | Some ext => ext
    | None => match guess_extension ct with Some ext => if truthy ext then ext else ".bin" | None => ".bin" end
    end.

Definition isalnum (c : ascii) : bool :=
  let n := nat_of_ascii c in
  ((48 <=? n) && (n <=? 57) || (65 <=? n) && (n <=? 90) || (97 <=? n) && (n <=? 122))%nat.

Fixpoint map_chars (f : ascii -> ascii) (s : string) : string :=
  match s with EmptyString => EmptyString | String c s' => String (f c) (map_chars f s') end.

Fixpoint lstrip_underscore (s : string) : string :=
  match s with String c s' => if Ascii.eqb c "_" then lstrip_underscore s' else s | EmptyString => EmptyString end.

Definition strip_underscore (s : string) : string := Str.srev (lstrip_underscore (Str.srev (lstrip_underscore s))).

Definition remove_suffix (ext s : string) : string :=
  if endswith ext s then String.substring 0 (String.length s - String.length ext) s else s.

(** The name of the file for a path: unsafe characters and segments are replaced. *)
Definition clean_path (path ext : string) : string :=
  let clean := strip_underscore (map_chars (fun c => if isalnum c || Str.has_char c "/-_." then c else "_"%char) (lstrip_slash path)) in
  let clean := Str.join "/" (List.filter (fun p => negb (String.eqb p "" || String.eqb p "." || String.eqb p "..")) (Str.split_char "/" clean)) in
  remove_suffix ext (if truthy clean then clean else "root").

Definition export_name (method path ext : string) : string := ("responses/" ++ method ++ "/" ++ clean_path path ext ++ ext)%string.

Abbreviation Files := (list (string * string)).

(** [_write_captured_file] *)
Definition write_captured_file (method path ext data : string) (files : Files) : failure + (string * Files) :=
  let rel := export_name method path ext in
  if escapes rel then inl (Failure ("Unsafe export path generated from URL path: " ++ path))
  else inr (rel, dict_set rel data files).

(** [_export_body_to_file]: when the JSON form cannot be written, the other one is tried. *)
Definition export_body_to_file (method file_key raw content_type : string) (files : Files) : failure + (string * Files) :=
  let as_is := write_captured_file method file_key (content_type_to_ext content_type) raw files in
  match pretty_json raw with
  | Some data => match write_captured_file method file_key ".json" data files with
                 | inr r => inr r
                 | inl _ => as_is
                 end
  | None => as_is
  end.

Definition FRAMEWORK_HEADERS : list string :=
  ["content-type"; "content-length"; "content-encoding"; "transfer-encoding"; "connection"; "date"; "server"].

Definition filtered_headers (hs : list (string * string)) : list (string * string) :=
  List.filter (fun kv => negb (existsb (String.eqb (Str.lower (fst kv))) FRAMEWORK_HEADERS)) hs.

Definition text_dict (d : list (string * string)) : value := VDict (map (fun kv => (KStr (fst kv), VStr (snd kv))) d).

(** The body of a response: the spool file when it exists, else the text when there is one. *)
Definition response_raw (r : Req) : option string :=
  match (match rq_body_file r with Some f => if truthy f then spool f else None | None => None end) with
  | Some raw => Some raw
  | None => match rq_body r with Some b => if truthy b then Some b else None | None => None end
  end.

(** [_build_scenario_response] *)
Definition build_scenario_response (method file_key : string) (r : Req) (files : Files)
    : failure + (vdict * option string * Files) :=
  let response := (KStr "status", VInt (rq_status r)) ::
    (if truthy (rq_content_type r) && negb (String.eqb (rq_content_type r) "application/json")
     then [(KStr "content_type", VStr (rq_content_type r))] else []) in
  let headers := filtered_headers (rq_headers r) in
  let with_headers d := d ++ (match headers with [] => [] | _ => [(KStr "headers", text_dict headers)] end) in
  match response_raw r with
  | None => inr (with_headers response, None, files)
  | Some raw =>
      match export_body_to_file method file_key raw (rq_content_type r) files with
      | inl e => inl e
      | inr (rel, files) => inr (with_headers (response ++ [(KStr "file", VStr rel)]), Some rel, files)
      end
  end.

(** [_flatten_query] *)
Definition flatten_query (q : list (string * list string)) : list (string * string) :=
  map (fun kv => (fst kv, match snd kv with [v] => v | vs => Str.join ", " vs end)) q.

Fixpoint insert_asc (k : string * list string) (l : list (string * list string)) : list (string * list string) :=
  match l with
  | [] => [k]
  | k' :: l' => match String.compare (fst k') (fst k) with Lt | Eq => k' :: insert_asc k l' | Gt => k :: l end
  end.

Definition safe_name (s : string) : string := map_chars (fun c => if isalnum c || Str.has_char c "-." then c else "-"%char) s.

(** [_query_file_suffix]: a key without values gives [str([])]. *)
Definition query_file_suffix (q : list (string * list string)) : string :=
  match q with
  | [] => ""
  | _ => ("_" ++ Str.join "_" (map (fun kv => (safe_name (fst kv) ++ "-" ++ safe_name (default "[]" (head (snd kv))))%string)
                                 (fold_left (fun acc k => insert_asc k acc) q [])))%string
  end.

(** The time since the first request of the group, which is 0 when that has none. *)
Definition delay_ms (first ts : Z) : Z := Z.max (if Z.eqb first 0 then 0 else ts - first) 0.

(** One entry of [_build_grouped_endpoints]. *)
Definition build_entry (url_path : string) (first : Z) (r : Req) (files : Files) : failure + (value * option string * Files) :=
  match build_scenario_response (rq_method r) (url_path ++ query_file_suffix (rq_query r)) r files with
  | inl e => inl e
  | inr (response, fpath, files) =>
      let q := flatten_query (rq_query r) in
      inr (VDict ((KStr "method", VStr (rq_method r)) ::
                  (match q with [] => [] | _ => [(KStr "match", VDict [(KStr "query", text_dict q)])] end) ++
                  [(KStr "delay_ms", VInt (delay_ms first (rq_timestamp r))); (KStr "response", VDict response)]),
           fpath, files)
  end.

Fixpoint build_entries (url_path : string) (first : Z) (rs : list Req) (files : Files)
    : failure + (list value * list string * Files) :=
  match rs with
  | [] => inr ([], [], files)
  | r :: rs' =>
      match build_entry url_path first r files with
      | inl e => inl e
      | inr (entry, fpath, files) =>
          match build_entries url_path first rs' files with
          | inl e => inl e
          | inr (entries, paths, files) =>
              inr (entry :: entries, (match fpath with Some p => p :: paths | None => paths end), files)
          end
      end
  end.

(** [_build_grouped_endpoints] *)
Fixpoint build_grouped_endpoints (groups : list (string * list Req)) (files : Files)
    : failure + (list (string * value) * list string * Files) :=
  match groups with
  | [] => inr ([], [], files)
  | (key, rs) :: groups' =>
      let first := match rs with r :: _ => rq_timestamp r | [] => 0%Z end in
      match build_entries (url_path key) first rs files with
      | inl e => inl e
      | inr (entries, paths, files) =>
          match build_grouped_endpoints groups' files with
          | inl e => inl e
          | inr (eps, paths', files) => inr ((key, VList entries) :: eps, paths ++ paths', files)
          end
      end
  end.

(** The URL of a request without its query; its path is that of the request. *)
Definition url_base (r : Req) : string :=
  (url_scheme (rq_url r) ++ "://" ++ url_netloc (rq_url r) ++ base_path r)%string.

Definition group_requests (rs : list Req) : list (string * list Req) :=
  fold_left (fun groups r => add_to_group (url_base r) r groups) rs [].

(** The endpoints of the scenario, the files to download, and the files after it. *)
Definition captured_endpoints (filter_pattern : string) (exclude_mocked : bool) (captured : list Req) (files : Files)
    : failure + (list (string * value) * list string * Files) :=
  build_grouped_endpoints (group_requests (filter_captured_requests filter_pattern exclude_mocked captured)) files.

(** The dictionary that is written, and [export_captured_scenario]: the YAML text, the files to
    download, and the files after it. [yaml_dump] is [yaml.dump]. *)
Definition scenario_value (eps : list (string * value)) : value :=
  VDict [(KStr "endpoints", VDict (map (fun kv => (KStr (fst kv), snd kv)) eps))].

Definition export_captured_scenario (yaml_dump : value -> string) (filter_pattern : string) (exclude_mocked : bool)
    (captured : list Req) (files : Files) : failure + (string * list string * Files) :=
  match captured_endpoints filter_pattern exclude_mocked captured files with
  | inl e => inl e
  | inr (eps, paths, files) => inr (yaml_dump (scenario_value eps), paths, files)
  end.

End Exporting.

(** * Loading *)

Fixpoint flatten_all (entries : list value) : failure + list (string * vdict) :=
  match entries with
  | [] => inr []
  | e :: entries' =>
      match flatten_entry e with
      | inl x => inl x
      | inr f => match flatten_all entries' with inl x => inl x | inr fs => inr (f :: fs) end
      end
  end.

(** The entries of one method, in order. *)
Definition of_method {A} (m : string) (fs : list (string * A)) : list A :=
  map snd (List.filter (fun f => String.eqb (fst f) m) fs).

Lemma of_method_app {A} m (fs gs : list (string * A)) : of_method m (fs ++ gs) = of_method m fs ++ of_method m gs.
Proof. unfold of_method. by rewrite List.filter_app, map_app. Qed.

(** Groups under the keys they were added with: in order, complete, and never empty. *)
Definition groups_of {A} (fs : list (string * A)) (groups : list (string * list A)) : Prop :=
  dict_wf groups /\
  forall m, dict_get m groups = match of_method m fs with [] => None | es => Some es end.

Lemma add_to_group_spec {A} (fs : list (string * A)) groups m a :
  groups_of fs groups -> groups_of (fs ++ [(m, a)]) (add_to_group m a groups).
Proof.
  intros [Hwf Hg]. split; [by apply dict_set_wf |]. intros m'. unfold add_to_group. rewrite of_method_app, (Hg m).
  unfold of_method at 3. cbn [List.filter fst]. destruct (String.eqb_spec m m') as [->|Hne].
  - rewrite dict_get_set_same. cbn [map snd]. destruct (of_method m' fs); [done |]. by cbn.
  - rewrite dict_get_set_other by done. cbn [map]. by rewrite app_nil_r.
Qed.

Lemma groups_nil {A} : groups_of (A := A) [] [].
Proof. split; [by apply NoDup_nil |]. done. Qed.

Lemma group_by_method_spec entries fs gs groups :
  groups_of gs groups -> flatten_all entries = inr fs ->
  exists groups', group_by_method entries groups = inr groups' /\ groups_of (gs ++ fs) groups'.
Proof.
  intros Hg. induction entries as [|e entries IH] in gs, groups, fs, Hg |- *; cbn [flatten_all group_by_method].
  { intros [= <-]. exists groups. by rewrite app_nil_r. }
  destruct (flatten_entry e) as [|[m flat]]; [done |]. destruct (flatten_all entries) as [|fs'] eqn:E; [done |].
  intros [= <-]. destruct (IH fs' (gs ++ [(m, flat)]) (add_to_group m flat groups)) as (groups' & H1 & H2);
    [by apply add_to_group_spec | done |].
  exists groups'. split; [done |]. by rewrite <- app_assoc in H2.
Qed.

Lemma endpoint_key_inj m m' path : endpoint_key m path = endpoint_key m' path -> m = m'.
Proof.
  unfold endpoint_key. intros E. apply (f_equal Str.srev) in E. rewrite !Str.srev_app in E.
  rewrite <- (Str.srev_involutive m), <- (Str.srev_involutive m'). f_equal.
  revert E. generalize (Str.srev path ++ Str.srev " ")%string. intros s. induction s as [|a s IH]; [done |].
  rewrite !Str.sapp_cons. intros [= E]. by apply IH.
Qed.

Lemma put_methods_get path groups converted m :
  dict_wf groups ->
  dict_get (endpoint_key m path) (put_methods path groups converted) =
  match dict_get m groups with
  | Some es => Some (method_endpoint es)
  | None => dict_get (endpoint_key m path) converted
  end.
Proof.
  unfold put_methods. induction groups as [|[m' es] groups IH] in converted |- *; intros Hwf; cbn [fold_left]; [done |].
  apply NoDup_cons in Hwf as [Hm' Hwf]. rewrite IH by done. cbn [dict_get fst snd].
  destruct (String.eqb_spec m m') as [->|Hne].
  - apply dict_get_None in Hm'. cbn [fst] in Hm'. by rewrite Hm', dict_get_set_same.
  - rewrite dict_get_set_other; [done |]. intros E%endpoint_key_inj. by apply Hne.
Qed.

Lemma put_methods_other path groups converted k :
  (forall m, k <> endpoint_key m path) -> dict_get k (put_methods path groups converted) = dict_get k converted.
Proof.
  intros Hk. unfold put_methods. induction groups as [|[m es] groups IH] in converted |- *; cbn [fold_left]; [done |].
  rewrite IH. apply dict_get_set_other. by apply not_eq_sym.
Qed.

(** Loading the entries of a URL gives one endpoint per method and path: the entry itself when
    there is one, conditional rules in their order when some entry has conditions, and a
    sequence in their order otherwise. Other endpoints are as before. *)
Theorem url_converted url ep entries fs converted :
  is_http url = true -> entries_of ep = Some (inr entries) -> flatten_all entries = inr fs ->
  exists converted', convert_url_endpoints [(url, ep)] converted = inr converted' /\
    (forall m, dict_get (endpoint_key m (url_path url)) converted' =
       match of_method m fs with
       | [] => dict_get (endpoint_key m (url_path url)) converted
       | es => Some (method_endpoint es)
       end) /\
    (forall k, (forall m, k <> endpoint_key m (url_path url)) -> dict_get k converted' = dict_get k converted).
Proof.
  intros Hu He Hf. cbn [convert_url_endpoints]. rewrite Hu, He. cbn [negb].
  destruct (group_by_method_spec entries fs [] [] groups_nil Hf) as (groups & -> & Hwf & Hg).
  exists (put_methods (url_path url) groups converted). split; [done |]. split.
  - intros m. rewrite put_methods_get by done. rewrite Hg. cbn [app]. by destruct (of_method m fs).
  - intros k Hk. by apply put_methods_other.
Qed.

(** * Exporting *)

(** ** Keys of exported endpoints *)

Lemma until_none stop s : Str.all_chars (fun c => negb (stop c)) s = true -> until stop s = s.
Proof.
  induction s as [|a s IH]; [done |]. cbn [Str.all_chars until]. intros [Ha%negb_true_iff Hs]%andb_true_iff.
  by rewrite Ha, IH.
Qed.

Lemma until_all stop s : Str.all_chars (fun c => negb (stop c)) (until stop s) = true.
Proof. induction s as [|a s IH]; [done |]. cbn. destruct (stop a) eqn:E; [done |]. cbn. by rewrite E, IH. Qed.

Lemma after_app stop s a t :
  Str.all_chars (fun c => negb (stop c)) s = true -> stop a = true -> after stop (s ++ String a t) = String a t.
Proof.
  intros Hs Ha. induction s as [|b s IH]; [change ("" ++ String a t)%string with (String a t); cbn [after]; by rewrite Ha |].
  rewrite Str.sapp_cons. cbn [Str.all_chars after] in *.
  apply andb_true_iff in Hs as [Hb%negb_true_iff Hs]. rewrite Hb. by apply IH.
Qed.

Lemma all_chars_impl (p q : ascii -> bool) s :
  (forall c, p c = true -> q c = true) -> Str.all_chars p s = true -> Str.all_chars q s = true.
Proof. intros H. induction s as [|a s IH]; [done |]. cbn. intros [? ?]%andb_true_iff. by rewrite H, IH. Qed.

Lemma drop_scheme_base scheme rest : scheme = "http" \/ scheme = "https" ->
  drop_scheme (scheme ++ "://" ++ rest) = rest /\ is_http (scheme ++ "://" ++ rest) = true.
Proof.
  unfold drop_scheme, is_http.
  intros [->| ->]; (split; [| done]);
    change (String.substring 0 (String.length rest - 0) rest = rest);
    replace (String.length rest - 0)%nat with (String.length rest) by lia; by apply substring_whole.
Qed.

(** An absolute path that [urlparse] keeps whole: without [;] and [#] (and no query). *)
Definition simple_path (p : string) : Prop :=
  Str.startswith "/" p = true /\ Str.all_chars (fun c => negb (Str.has_char c "?#;")) p = true.

Lemma url_path_base r : simple_path (base_path r) -> url_path (url_base r) = base_path r.
Proof.
  intros [Hs Hc]. unfold url_path, url_rest, url_base.
  assert (url_scheme (rq_url r) = "http" \/ url_scheme (rq_url r) = "https") as Hsch by (unfold url_scheme; case_match; auto).
  destruct (drop_scheme_base _ (url_netloc (rq_url r) ++ base_path r) Hsch) as [-> _].
  destruct (base_path r) as [|a p] eqn:Ep; [done |]. cbn [Str.startswith] in Hs. rewrite andb_true_r in Hs.
  apply Ascii.eqb_eq in Hs. subst a.
  rewrite after_app; [| apply until_all | done]. rewrite until_none.
  2: { eapply all_chars_impl; [| exact Hc]. intros c. cbn [Str.has_char]. by destruct (Ascii.eqb "?" c), (Ascii.eqb "#" c). }
  assert (forall s, Str.all_chars (fun c => negb (Str.has_char c "?#;")) s = true -> until (Ascii.eqb ";") s = s) as Hsemi.
  { intros s H. apply until_none. eapply all_chars_impl; [| exact H]. intros c. cbn [Str.has_char].
    by destruct (Ascii.eqb "?" c), (Ascii.eqb "#" c), (Ascii.eqb ";" c). }
  destruct (Str.rsplit1 "/" (String "/" p)) as [[dir name]|] eqn:E; [| by apply Hsemi].
  apply Str.rsplit1_some in E as [E _]. rewrite E in Hc |- *. rewrite Str.all_chars_app in Hc.
  apply andb_true_iff in Hc as [_ [_ Hn]%andb_true_iff]. by rewrite Hsemi.
Qed.

(** ** What is exported can be loaded *)

Section Covers.

Context (fnmatch : string -> string -> bool) (guess_extension : string -> option string).
Context (pretty_json : string -> option string) (spool : string -> option string) (escapes : string -> bool).

Abbreviation entry_of := (build_entry guess_extension pretty_json spool escapes).
Abbreviation entries_for := (build_entries guess_extension pretty_json spool escapes).
Abbreviation endpoints_for := (build_grouped_endpoints guess_extension pretty_json spool escapes).

Lemma entry_flat path first r files entry fpath files' :
  entry_of path first r files = inr (entry, fpath, files') -> exists d, flatten_entry entry = inr (rq_method r, d).
Proof.
  unfold build_entry. destruct (build_scenario_response _ _ _ _ _ _ _ _) as [|[[response p] fs]]; [done |].
  intros [= <- _ _]. unfold flatten_entry. cbn [dict_of vget]. rewrite bool_decide_eq_true_2 by done. cbn [default].
  destruct (flatten_query (rq_query r)); cbn; eauto.
Qed.

Lemma entries_flat path first rs files entries paths files' :
  entries_for path first rs files = inr (entries, paths, files') ->
  exists fs, flatten_all entries = inr fs /\ map fst fs = map rq_method rs.
Proof.
  induction rs as [|r rs IH] in files, entries, paths |- *; cbn [build_entries].
  { intros [= <- _ _]. by exists []. }
  destruct (entry_of path first r files) as [|[[entry fpath] files1]] eqn:E; [done |].
  destruct (entries_for path first rs files1) as [|[[entries1 paths1] files2]] eqn:E2; [done |].
  intros [= <- _ <-]. apply entry_flat in E as [d Hd]. apply IH in E2 as (fs & Hfs & Hm).
  exists ((rq_method r, d) :: fs). cbn. by rewrite Hd, Hfs, Hm.
Qed.

Lemma of_method_in {A} m (fs : list (string * A)) : m ∈ map fst fs -> of_method m fs <> [].
Proof.
  unfold of_method. induction fs as [|[m' a] fs IH]; cbn; [set_solver |].
  intros [<-|H]%elem_of_cons; [by rewrite String.eqb_refl |].
  destruct (String.eqb m' m); [done | by apply IH].
Qed.

Lemma dict_set_present {A} k k' (v : A) d : is_some (dict_get k d) = true -> is_some (dict_get k (dict_set k' v d)) = true.
Proof.
  intros H. destruct (decide (k' = k)) as [->|]; [by rewrite dict_get_set_same | by rewrite dict_get_set_other].
Qed.

Lemma put_methods_present path groups converted k :
  is_some (dict_get k converted) = true -> is_some (dict_get k (put_methods path groups converted)) = true.
Proof.
  unfold put_methods. induction groups as [|g groups IH] in converted |- *; intros H; cbn [fold_left]; [done |].
  by apply IH, dict_set_present.
Qed.

(** Converting exported endpoints succeeds, keeps what is there, and has an endpoint for the
    method of every request of every group. *)
Lemma converted_covers groups files eps paths files' converted :
  Forall (fun g => is_http (fst g) = true) groups ->
  endpoints_for groups files = inr (eps, paths, files') ->
  exists converted', convert_url_endpoints eps converted = inr converted' /\
    (forall k, is_some (dict_get k converted) = true -> is_some (dict_get k converted') = true) /\
    (forall key rs r, In (key, rs) groups -> In r rs ->
       is_some (dict_get (endpoint_key (rq_method r) (url_path key)) converted') = true).
Proof.
  induction groups as [|[key rs] groups IH] in files, eps, paths, converted |- *; intros Hh; cbn [build_grouped_endpoints].
  { intros [= <- _ _]. exists converted. by split. }
  apply Forall_cons in Hh as [Hkey Hh].
  destruct (entries_for _ _ rs files) as [|[[entries p1] f1]] eqn:E; [done |].
  destruct (endpoints_for groups f1) as [|[[eps1 p2] f2]] eqn:E2; [done |]. intros [= <- _ <-].
  apply entries_flat in E as (fs & Hfs & Hm).
  cbn [convert_url_endpoints entries_of]. cbn [fst] in Hkey. rewrite Hkey. cbn [negb].
  destruct (group_by_method_spec entries fs [] [] groups_nil Hfs) as (gs & -> & Hwf & Hg). cbn [app] in Hg.
  destruct (IH f1 eps1 p2 (put_methods (url_path key) gs converted) Hh E2) as (conv & H1 & H2 & H3).
  exists conv. split; [done |]. split; [by intros k Hk; apply H2, put_methods_present |].
  intros key' rs' r [[= <- <-]|Hin] Hr; [| by eapply H3]. apply H2. rewrite put_methods_get by done.
  rewrite Hg. assert (of_method (rq_method r) fs <> []) as Hne; [| by destruct (of_method _ fs)].
  apply of_method_in. rewrite Hm. by apply list_elem_of_In, in_map.
Qed.

Lemma group_requests_spec rs : groups_of (map (fun r => (url_base r, r)) rs) (group_requests rs).
Proof.
  unfold group_requests. rewrite <- (app_nil_l (map _ rs)). generalize (groups_nil (A := Req)).
  generalize (@nil (string * list Req)), (@nil (string * Req)). intros groups gs Hg.
  induction rs as [|r rs IH] in gs, groups, Hg |- *; cbn [map fold_left]; [by rewrite app_nil_r |].
  rewrite cons_middle, app_assoc. apply IH. by apply add_to_group_spec.
Qed.

Lemma url_base_http r : is_http (url_base r) = true.
Proof.
  unfold url_base. apply drop_scheme_base. unfold url_scheme. case_match; auto.
Qed.

(** The requests of a group have its URL. *)
Lemma group_has rs r : In r rs -> exists g, In (url_base r, g) (group_requests rs) /\ In r g.
Proof.
  intros Hr. destruct (group_requests_spec rs) as [_ Hg]. specialize (Hg (url_base r)).
  assert (In r (of_method (url_base r) (map (fun r => (url_base r, r)) rs))) as Hin.
  { unfold of_method. apply in_map_iff. exists (url_base r, r). split; [done |]. apply filter_In.
    split; [by apply in_map_iff; exists r | by apply String.eqb_refl]. }
  destruct (of_method _ _) as [|x l]; [done |]. exists (x :: l). split; [| done].
  revert Hg. clear. induction (group_requests rs) as [|[k g] d IH]; cbn; [done |].
  destruct (String.eqb_spec (url_base r) k) as [->|]; [intros [= ->]; by left | auto].
Qed.

Lemma groups_http rs : Forall (fun g => is_http (fst g) = true) (group_requests rs).
Proof.
  unfold group_requests. assert (Forall (fun g : string * list Req => is_http (fst g) = true) []) as H by constructor.
  revert H. generalize (@nil (string * list Req)). induction rs as [|r rs IH]; intros groups H; [done |].
  cbn [fold_left]. apply IH. unfold add_to_group. clear IH.
  generalize (default [] (dict_get (url_base r) groups) ++ [r]). intros g.
  induction H as [|[k v] groups Hk H IH]; cbn [dict_set]; [by constructor; [apply url_base_http | constructor] |].
  case_match; by constructor.
Qed.

(** The exported endpoints can be converted, and have one for the method and the path of every
    request, when its path is a plain one. *)
Lemma captured_converted filter_pattern exclude_mocked captured files eps paths files' :
  captured_endpoints fnmatch guess_extension pretty_json spool escapes filter_pattern exclude_mocked captured files =
    inr (eps, paths, files') ->
  exists converted, convert_url_endpoints eps [] = inr converted /\
    forall r, In r (filter_captured_requests fnmatch filter_pattern exclude_mocked captured) -> simple_path (base_path r) ->
      is_some (dict_get (endpoint_key (rq_method r) (base_path r)) converted) = true.
Proof.
  intros H. destruct (converted_covers _ _ _ _ _ [] (groups_http _) H) as (converted & H1 & _ & H3).
  exists converted. split; [done |]. intros r Hr Hp. destruct (group_has _ _ Hr) as (g & Hg & Hin).
  rewrite <- (url_path_base r Hp). by eapply H3.
Qed.

End Covers.

(** ** Names of exported files *)

Lemma substring_prefix a b : String.substring 0 (String.length a) (a ++ b) = a.
Proof.
  induction a as [|c a IH]; [by destruct b |]. rewrite Str.sapp_cons. cbn [String.length String.substring]. by rewrite IH.
Qed.

Lemma suffix_restored ext s : endswith ext s = true -> (remove_suffix ext s ++ ext)%string = s.
Proof.
  intros H. unfold remove_suffix. rewrite H. unfold endswith in H. apply Str.startswith_split in H as [t Ht].
  apply (f_equal Str.srev) in Ht. rewrite Str.srev_app, !Str.srev_involutive in Ht. subst s.
  rewrite Str.sapp_length. replace (_ + _ - _)%nat with (String.length (Str.srev t)) by lia. by rewrite substring_prefix.
Qed.

Lemma joined_suffix segs ext :
  segs <> [] -> Forall Storage.plain segs -> Str.has_char "/" ext = false -> (2 <= String.length ext)%nat ->
  exists segs', segs' <> [] /\ Forall Storage.plain segs' /\ (Str.join "/" segs ++ ext)%string = Str.join "/" segs'.
Proof.
  intros Hne Hp Hs Hl. destruct (exists_last Hne) as (init & c & ->). apply Forall_app in Hp as [Hi Hc].
  apply Forall_singleton in Hc as (H1 & _ & _ & H4). exists (init ++ [(c ++ ext)%string]).
  split; [by destruct init |]. split.
  - apply Forall_app. split; [done |]. apply Forall_singleton.
    assert (2 < String.length (c ++ ext))%nat by (rewrite Str.sapp_length; destruct c; [done | cbn [String.length]; lia]).
    unfold Storage.plain. split_and!; try (intros E; rewrite E in *; cbn in *; lia).
    rewrite Str.has_char_app. by rewrite H4, Hs.
  - destruct (decide (init = [])) as [->|Hin]; [done |]. rewrite !join_app by done. cbn [Str.join]. by rewrite !Str.sapp_assoc.
Qed.

(** The name of an exported file, below the directory of its method, consists of plain
    segments only, whatever the path of the request was: no step up, no empty segment. *)
Theorem export_name_plain method path ext :
  Str.has_char "/" ext = false -> (2 <= String.length ext)%nat ->
  exists segs, segs <> [] /\ Forall Storage.plain segs /\
    export_name method path ext = ("responses/" ++ method ++ "/" ++ Str.join "/" segs)%string.
Proof.
  intros Hs Hl. unfold export_name, clean_path. cbv zeta.
  set (text := strip_underscore _). set (kept := List.filter _ (Str.split_char "/" text)).
  assert (Forall Storage.plain kept) as Hk.
  { apply Forall_forall. intros c Hc%list_elem_of_In%filter_In. destruct Hc as [Hc Hf%negb_true_iff].
    rewrite !orb_false_iff, !String.eqb_neq in Hf. unfold Storage.plain. split_and!; try tauto. by eapply Str.split_char_no_sep. }
  assert (exists segs, segs <> [] /\ Forall Storage.plain segs /\
            (if truthy (Str.join "/" kept) then Str.join "/" kept else "root") = Str.join "/" segs) as (segs & H1 & H2 & ->).
  { destruct (decide (kept = [])) as [->|Hne].
    - exists ["root"]. split_and!; [done | by apply Forall_singleton | done].
    - exists kept. split_and!; [done | done |]. destruct kept as [|c kept']; [done |]. apply Forall_cons in Hk as [(Hc & _) _].
      destruct c; [done |]. by destruct kept'. }
  destruct (endswith ext (Str.join "/" segs)) eqn:E.
  - exists segs. split_and!; [done | done |]. by rewrite suffix_restored.
  - unfold remove_suffix. rewrite E. destruct (joined_suffix segs ext H1 H2 Hs Hl) as (segs' & ? & ? & ->). by exists segs'.
Qed.

(** ** Examples *)

Module ScenarioDemo.

Definition get (url : string) (query : list (string * list string)) (ts : Z) (body : string) : Req :=
  mkReq "GET" (url_path url) url query ts 200 "text/plain" (Some body) None [] false.

Definition no_guess (ct : string) : option string := None.
Definition no_json (s : string) : option string := None.
Definition no_spool (f : string) : option string := None.

Definition exported (rs : list Req) : failure + (list (string * value) * list string * list (string * string)) :=
  captured_endpoints (fun _ _ => true) no_guess no_json no_spool (fun _ => false) "" false rs [].

Definition response (body_file : string) : value :=
  VDict [(KStr "status", VInt 200); (KStr "content_type", VStr "text/plain"); (KStr "file", VStr body_file)].

End ScenarioDemo.

Import ScenarioDemo.

(** Two calls of one endpoint are exported as two entries of a sequence, but their bodies go
    to the same file: replaying the first shows the body of the second. *)
Theorem repeated_bodies_overwritten :
  exported [get "http://h/status" [] 1000 "booting"; get "http://h/status" [] 3000 "ready"] =
  inr ([("http://h/status",
         VList [VDict [(KStr "method", VStr "GET"); (KStr "delay_ms", VInt 0); (KStr "response", response "responses/GET/status.txt")];
                VDict [(KStr "method", VStr "GET"); (KStr "delay_ms", VInt 2000); (KStr "response", response "responses/GET/status.txt")]])],
       ["responses/GET/status.txt"; "responses/GET/status.txt"],
       [("responses/GET/status.txt", "ready")]).
Proof. reflexivity. Qed.

(** Repeated calls with a query become rules with the same condition instead of a sequence:
    the first is used every time. *)
Theorem repeated_queries_not_sequenced :
  let q := VDict [(KStr "query", VDict [(KStr "id", VStr "7")])] in
  let e n := [(KStr "match", q); (KStr "status", VInt n)] in
  convert_url_endpoints [("http://h/p", VList [VDict ((KStr "method", VStr "GET") :: e 200); VDict ((KStr "method", VStr "GET") :: e 503)])] [] =
  inr [("GET /p", VDict [(KStr "rules", VList [VDict (e 200%Z); VDict (e 503%Z)])])].
Proof. reflexivity. Qed.

(** The host is not part of a key: of two hosts with the same path, the later one is kept. *)
Theorem hosts_collide :
  convert_url_endpoints [("http://a/p", VList [VDict [(KStr "status", VInt 200)]]); ("http://b/p", VList [VDict [(KStr "status", VInt 404)]])] [] =
  inr [("GET /p", VDict [(KStr "status", VInt 404)])].
Proof. reflexivity. Qed.

(** ** Witnesses *)

Lemma url_converted_witness :
  exists converted, convert_url_endpoints [("http://h/p", VList [VDict [(KStr "status", VInt 200)]])] [] = inr converted /\
    dict_get "GET /p" converted = Some (VDict [(KStr "status", VInt 200)]).
Proof.
  destruct (url_converted "http://h/p" (VList [VDict [(KStr "status", VInt 200)]]) [VDict [(KStr "status", VInt 200)]]
              [("GET", [(KStr "status", VInt 200)])] [] eq_refl eq_refl eq_refl) as (c & H1 & H2 & _).
  exists c. split; [done |]. exact (H2 "GET").
Defined.

Lemma export_name_plain_witness :
  exists segs, Forall Storage.plain segs /\ export_name "GET" "/../../etc/passwd" ".txt" = ("responses/GET/" ++ Str.join "/" segs)%string.
Proof.
  destruct (export_name_plain "GET" "/../../etc/passwd" ".txt" eq_refl ltac:(cbn; lia)) as (segs & _ & H1 & H2).
  exists segs. split; [done | exact H2].
Defined.
