(* ===== verification/MockDriver.v ===== *)
(** * The driver of the mock proxy

    [jumpstarter_driver_mitmproxy/driver.py]: the process of the proxy, the server that receives
    captured requests, the endpoints and the state it writes for the addon, and the files it
    reads and writes. The proxy process, the file system and the parsers of JSON and YAML answer
    through an environment. *)

From stdpp Require Import base list strings sets pretty.
From Stdlib Require Import ZArith Lia Ascii.
From S2P Require Import Oci Prelude PyText Flasher FlashText Storage MockValues MockTemplate MockServer MockScenario.

Local Open Scope string_scope.
Local Open Scope list_scope.
Local Open Scope bool_scope.

(** ** Configuration *)

Record Directories := mkDirectories {
  d_data : string; d_conf : string; d_flows : string; d_addons : string; d_mocks : string; d_files : string
}.

Definition sub (data name : string) : string := path_join data name.

(** [DirectoriesConfig._resolve_defaults] *)
Definition resolve_defaults (tmp user : string) (d : Directories) : Directories :=
  let or (s t : string) := if truthy s then s else t in
  let data := or (d_data d) (path_join tmp ("jumpstarter-mitmproxy-" ++ user)) in
  mkDirectories data (or (d_conf d) (sub data "conf")) (or (d_flows d) (sub data "flows"))
    (or (d_addons d) (sub data "addons")) (or (d_mocks d) (sub data "mock-responses")) (or (d_files d) (sub data "mock-files")).

Record Config := mkConfiguration {
  listen_host : string; web_host : string; web_port : Z;
  directories : Directories; ssl_insecure : bool; mock_scenario : string;
  mocks : list (string * value); web_password : string
}.

(** ** State *)

Record Process := mkProcess { pid : Z; alive : bool }.

(** The socket, its server and thread, the reader threads, and the flag they watch. *)
Record Capture := mkCapture {
  cap_path : option string; cap_server : bool; cap_thread : bool; cap_readers : nat; cap_running : bool
}.

Definition no_capture : Capture := mkCapture None false false 0 false.

Record Driver := mkDriver {
  listen_port : Z;
  process : option Process;
  mock_endpoints : list (string * value);
  state_store : list (string * value);
  current_mode : string;
  web_ui_enabled : bool;
  current_flow_file : option string;
  capture : Capture;
  captured : list value;
  stderr_thread : bool;
  config_file : option (list (string * value));
  state_file : option (list (string * value));
  mock_files : list (string * string);
  spool_files : list (string * string)
}.

Definition upd_process v d := mkDriver (listen_port d) v (mock_endpoints d) (state_store d) (current_mode d) (web_ui_enabled d) (current_flow_file d) (capture d) (captured d) (stderr_thread d) (config_file d) (state_file d) (mock_files d) (spool_files d).
Definition upd_port v d := mkDriver v (process d) (mock_endpoints d) (state_store d) (current_mode d) (web_ui_enabled d) (current_flow_file d) (capture d) (captured d) (stderr_thread d) (config_file d) (state_file d) (mock_files d) (spool_files d).
Definition upd_endpoints v d := mkDriver (listen_port d) (process d) v (state_store d) (current_mode d) (web_ui_enabled d) (current_flow_file d) (capture d) (captured d) (stderr_thread d) (config_file d) (state_file d) (mock_files d) (spool_files d).
Definition upd_store v d := mkDriver (listen_port d) (process d) (mock_endpoints d) v (current_mode d) (web_ui_enabled d) (current_flow_file d) (capture d) (captured d) (stderr_thread d) (config_file d) (state_file d) (mock_files d) (spool_files d).
Definition upd_mode m w d := mkDriver (listen_port d) (process d) (mock_endpoints d) (state_store d) m w (current_flow_file d) (capture d) (captured d) (stderr_thread d) (config_file d) (state_file d) (mock_files d) (spool_files d).
Definition upd_flow v d := mkDriver (listen_port d) (process d) (mock_endpoints d) (state_store d) (current_mode d) (web_ui_enabled d) v (capture d) (captured d) (stderr_thread d) (config_file d) (state_file d) (mock_files d) (spool_files d).
Definition upd_capture v d := mkDriver (listen_port d) (process d) (mock_endpoints d) (state_store d) (current_mode d) (web_ui_enabled d) (current_flow_file d) v (captured d) (stderr_thread d) (config_file d) (state_file d) (mock_files d) (spool_files d).
Definition upd_captured v d := mkDriver (listen_port d) (process d) (mock_endpoints d) (state_store d) (current_mode d) (web_ui_enabled d) (current_flow_file d) (capture d) v (stderr_thread d) (config_file d) (state_file d) (mock_files d) (spool_files d).
Definition upd_stderr v d := mkDriver (listen_port d) (process d) (mock_endpoints d) (state_store d) (current_mode d) (web_ui_enabled d) (current_flow_file d) (capture d) (captured d) v (config_file d) (state_file d) (mock_files d) (spool_files d).
Definition upd_config_file v d := mkDriver (listen_port d) (process d) (mock_endpoints d) (state_store d) (current_mode d) (web_ui_enabled d) (current_flow_file d) (capture d) (captured d) (stderr_thread d) v (state_file d) (mock_files d) (spool_files d).
Definition upd_state_file v d := mkDriver (listen_port d) (process d) (mock_endpoints d) (state_store d) (current_mode d) (web_ui_enabled d) (current_flow_file d) (capture d) (captured d) (stderr_thread d) (config_file d) v (mock_files d) (spool_files d).
Definition upd_files fs sp d := mkDriver (listen_port d) (process d) (mock_endpoints d) (state_store d) (current_mode d) (web_ui_enabled d) (current_flow_file d) (capture d) (captured d) (stderr_thread d) (config_file d) (state_file d) fs sp.

(** What a call returns: a text, or JSON. *)
Inductive reply := Text (s : string) | Json (v : value).

(** An operation: the new state, and an exception or a result. *)
Definition M (A : Type) : Type := Driver -> Driver * (failure + A).

Definition ret {A} (a : A) : M A := fun d => (d, inr a).
Definition raise {A} (msg : string) : M A := fun d => (d, inl (Failure msg)).
Definition bind {A B} (m : M A) (k : A -> M B) : M B := fun d =>
  match m d with (d', inl e) => (d', inl e) | (d', inr a) => k a d' end.
Definition modify (f : Driver -> Driver) : M unit := fun d => (f d, inr tt).
Definition gets {A} (f : Driver -> A) : M A := fun d => (d, inr (f d)).
Definition lift {A} (r : failure + A) : M A := fun d => (d, r).

Declare Scope mock_scope.
Delimit Scope mock_scope with mock.
Notation "'do*' x := m 'in' k" := (bind m (fun x => k)) (at level 10, x name, m at level 100, k at level 200) : mock_scope.
Notation "m >>> k" := (bind m (fun _ => k)) (at level 100, right associativity) : mock_scope.
Local Open Scope mock_scope.

(** The answers of the world to one call. *)
Record World := mkWorld {
  loads : string -> string + value;          (** [json.loads], with the text of its error *)
  yaml_load : string -> string + value;
  write_fails : option string;               (** a write of a configuration raises *)
  bind_fails : option string;                (** the capture socket cannot be bound *)
  temp_socket : string;
  addon_fails : option string;               (** the addon script cannot be written *)
  popen : string + Z;                        (** the new process, or an exception *)
  alive_after_start : bool;
  stderr_text : string;
  port_in_use : Z -> bool;
  exists_ : string -> bool;
  is_dir : string -> bool;
  read_text : string -> string + string;
  resolve_path : string -> string;
  timestamp_text : string;
  guess_type : string -> option string
}.

Section Ops.

Context (cfg : Config) (w : World).

Abbreviation dirs := (directories cfg).

(** ** Configuration of the addon *)

(** [_write_mock_config]: the file is replaced as a whole or not at all. *)
Definition write_mock_config : M unit :=
  match write_fails w with
  | Some e => raise e
  | None => modify (fun d => upd_config_file (Some (mock_endpoints d)) d)
  end.

Definition write_state : M unit :=
  match write_fails w with
  | Some e => raise e
  | None => modify (fun d => upd_state_file (Some (state_store d)) d)
  end.

Fixpoint upper (s : string) : string :=
  match s with
  | EmptyString => EmptyString
  | String c s' =>
      let n := nat_of_ascii c in
      String (if ((97 <=? n) && (n <=? 122))%nat then ascii_of_nat (n - 32) else c) (upper s')
  end.

Definition mock_key (method path : string) : string := endpoint_key (upper method) path.

Definition put_mock (key : string) (ep : vdict) (msg : string) : M reply :=
  modify (fun d => upd_endpoints (dict_set key (VDict ep) (mock_endpoints d)) d) >>>
  write_mock_config >>> ret (Text msg).

(** [json.loads(text) if text else {}] *)
Definition loads_or_empty (text : string) : string + value := if truthy text then loads w text else inr (VDict []).

Definition arrow : string := " → ".

Definition set_mock (method path : string) (status : Z) (body content_type headers : string) : M reply :=
  let key := mock_key method path in
  match loads_or_empty body with
  | inl e => ret (Text ("Invalid body JSON: " ++ e))
  | inr parsed_body =>
      match loads_or_empty headers with
      | inl e => ret (Text ("Invalid headers JSON: " ++ e))
      | inr parsed_headers =>
          put_mock key [(KStr "status", VInt status); (KStr "body", parsed_body);
                        (KStr "content_type", VStr content_type); (KStr "headers", parsed_headers)]
            ("Mock set: " ++ key ++ arrow ++ pretty status)%string
      end
  end.

Definition remove_mock (method path : string) : M reply :=
  let key := mock_key method path in
  do* present := gets (fun d => is_some (dict_get key (mock_endpoints d))) in
  if present : bool
  then modify (fun d => upd_endpoints (dict_pop key (mock_endpoints d)) d) >>> write_mock_config >>>
       ret (Text ("Removed mock: " ++ key))
  else ret (Text ("Mock not found: " ++ key)).

Definition clear_mocks : M reply :=
  do* count := gets (fun d => length (mock_endpoints d)) in
  modify (upd_endpoints []) >>> write_mock_config >>> ret (Text ("Cleared " ++ pretty count ++ " mock(s)")).

Definition dict_value (d : list (string * value)) : value := VDict (map (fun kv => (KStr (fst kv), snd kv)) d).

Definition list_mocks : M reply := gets (fun d => Json (dict_value (mock_endpoints d))).

(** [json.loads(headers) if headers else {}], outside of any [try]. *)
Definition extra_headers (headers : string) : M (list (key * value)) :=
  match loads_or_empty headers with
  | inl e => raise e
  | inr v => ret (if value_truthy v then [(KStr "headers", v)] else [])
  end.

Definition set_mock_file (method path file_path content_type : string) (status : Z) (headers : string) : M reply :=
  let content_type := if truthy content_type then content_type
                      else let g := default "" (guess_type w file_path) in
                           if truthy g then g else "application/octet-stream" in
  let key := mock_key method path in
  do* extra := extra_headers headers in
  put_mock key ([(KStr "status", VInt status); (KStr "file", VStr file_path); (KStr "content_type", VStr content_type)] ++ extra)
    ("File mock set: " ++ key ++ arrow ++ file_path ++ " (" ++ content_type ++ ")")%string.

Definition set_mock_patch (method path patches_json headers : string) : M reply :=
  match loads w patches_json with
  | inl _ => ret (Text "Invalid JSON for patches")
  | inr (VDict patches) =>
      let key := mock_key method path in
      do* extra := extra_headers headers in
      put_mock key ((KStr "patch", VDict patches) :: extra) ("Patch mock set: " ++ key)
  | inr _ => ret (Text "Patches must be a JSON object")
  end.

Definition set_mock_with_latency (method path : string) (status : Z) (body : string) (latency_ms : Z) (content_type : string)
    : M reply :=
  let key := mock_key method path in
  match loads_or_empty body with
  | inl e => raise e
  | inr parsed =>
      put_mock key [(KStr "status", VInt status); (KStr "body", parsed); (KStr "content_type", VStr content_type);
                    (KStr "latency_ms", VInt latency_ms)]
        ("Mock set: " ++ key ++ arrow ++ pretty status ++ " (+" ++ pretty latency_ms ++ "ms)")%string
  end.

(** A sequence or rules: a list that is not empty. *)
Definition set_mock_list (field not_list kind unit_ method path text : string) : M reply :=
  let key := mock_key method path in
  match loads w text with
  | inl e => ret (Text ("Invalid JSON: " ++ e))
  | inr (VList (x :: l)) =>
      put_mock key [(KStr field, VList (x :: l))]
        (kind ++ " mock set: " ++ key ++ arrow ++ pretty (length (x :: l)) ++ " " ++ unit_)%string
  | inr _ => ret (Text not_list)
  end.

Definition set_mock_sequence : string -> string -> string -> M reply :=
  set_mock_list "sequence" "Sequence must be a non-empty JSON array" "Sequence" "step(s)".

Definition set_mock_conditional : string -> string -> string -> M reply :=
  set_mock_list "rules" "Rules must be a non-empty JSON array" "Conditional" "rule(s)".

Definition set_mock_template (method path template_json : string) (status : Z) : M reply :=
  let key := mock_key method path in
  match loads w template_json with
  | inl e => ret (Text ("Invalid JSON: " ++ e))
  | inr template =>
      put_mock key [(KStr "status", VInt status); (KStr "body_template", template)]
        ("Template mock set: " ++ key ++ arrow ++ pretty status)%string
  end.

Definition set_mock_addon (method path addon_name addon_config_json : string) : M reply :=
  let key := mock_key method path in
  match loads w addon_config_json with
  | inl e => ret (Text ("Invalid JSON: " ++ e))
  | inr config =>
      put_mock key ((KStr "addon", VStr addon_name) :: (if value_truthy config then [(KStr "addon_config", config)] else []))
        ("Addon mock set: " ++ key ++ arrow ++ addon_name)%string
  end.

(** ** The state shared with templates *)

Definition set_state (key value_json : string) : M reply :=
  match loads w value_json with
  | inl e => ret (Text ("Invalid JSON: " ++ e))
  | inr v => modify (fun d => upd_store (dict_set key v (state_store d)) d) >>> write_state >>> ret (Text ("State set: " ++ key))
  end.

Definition get_state (key : string) : M reply := gets (fun d => Json (default VNone (dict_get key (state_store d)))).

Definition clear_state : M reply :=
  do* count := gets (fun d => length (state_store d)) in
  modify (upd_store []) >>> write_state >>> ret (Text ("Cleared " ++ pretty count ++ " state key(s)")).

Definition get_all_state : M reply := gets (fun d => Json (dict_value (state_store d))).

(** ** Scenarios *)

(** [Path.is_relative_to], on resolved paths. *)
Definition relative_to (base p : string) : bool := under base p || String.eqb base "/".

(** [_resolve_scenario_path]: a message, or the resolved path. *)
Definition resolve_scenario_path (scenario_file : string) : string + string :=
  let path := path_join (d_mocks dirs) scenario_file in
  let path := if is_dir w path then path_join path "scenario.yaml" else path in
  let resolved := resolve_path w path in
  if negb (relative_to (resolve_path w (d_mocks dirs)) resolved)
  then inl ("Invalid scenario path: must be within " ++ d_mocks dirs)%string
  else if negb (exists_ w resolved) then inl ("Scenario file not found: " ++ path)%string
  else inr resolved.

Definition is_yaml (name : string) : bool := endswith ".yaml" name || endswith ".yml" name.

Definition parse_scenario (name text : string) : string + value := if is_yaml name then yaml_load w text else loads w text.

(** The endpoints of a parsed scenario replace those of the driver. *)
Definition load_endpoints (raw : value) (name : string) : M reply :=
  match extract_endpoints raw with
  | inl msg => ret (Text msg)
  | inr endpoints =>
      match text_keys endpoints with
      | None => raise "key is not a text"
      | Some eps =>
          do* converted := lift (convert_url_endpoints eps []) in
          modify (upd_endpoints converted) >>> write_mock_config >>>
          ret (Text ("Loaded " ++ pretty (length converted) ++ " endpoint(s) from " ++ name))
      end
  end.

Definition load_mock_scenario (scenario_file : string) : M reply :=
  match resolve_scenario_path scenario_file with
  | inl msg => ret (Text msg)
  | inr resolved =>
      match (match read_text w resolved with inl e => inl e | inr text => parse_scenario resolved text end) with
      | inl e => ret (Text ("Failed to load scenario: " ++ e))
      | inr raw => load_endpoints raw (path_name resolved)
      end
  end.

Definition load_mock_scenario_content (filename content : string) : M reply :=
  match parse_scenario filename content with
  | inl e => ret (Text ("Failed to parse scenario: " ++ e))
  | inr raw => load_endpoints raw filename
  end.

(** [_load_startup_mocks]: the scenario of the configuration, then its own mocks on top. *)
Definition load_startup_scenario : M unit :=
  let path := path_join (d_mocks dirs) (mock_scenario cfg) in
  let path := if is_dir w path then path_join path "scenario.yaml" else path in
  if negb (truthy (mock_scenario cfg)) || negb (exists_ w path) then ret tt
  else match (match read_text w path with inl e => inl e | inr text => parse_scenario path text end) with
       | inl e => raise e
       | inr (VDict raw) =>
           match extract_endpoints (VDict raw) with
           | inr endpoints =>
               match text_keys endpoints with
               | None => raise "key is not a text"
               | Some eps => do* converted := lift (convert_url_endpoints eps []) in modify (upd_endpoints converted)
               end
           | inl e => raise e
           end
       | inr _ => raise "scenario is not a dictionary"
       end.

Definition load_startup_mocks : M unit :=
  load_startup_scenario >>> modify (fun d => upd_endpoints (dict_update (mock_endpoints d) (mocks cfg)) d).

(** ** The capture server *)

(** [_start_capture_server]: a socket in the data directory, or a temporary one when its path
    would be too long. *)
Definition start_capture_server : M unit :=
  let preferred := sub (d_data dirs) "capture.sock" in
  let path := if (String.length preferred <? 100)%nat then preferred else temp_socket w in
  match bind_fails w with
  | Some e => raise e
  | None => modify (fun d => upd_capture (mkCapture (Some path) true true (cap_readers (capture d)) true) d)
  end.

(** [_stop_capture_server] *)
Definition stop_capture_server : M unit := modify (upd_capture no_capture).

(** [_clean_spool_dirs]: the spool and the directory of mock files. *)
Definition clean_spool_dirs : M unit := modify (upd_files [] []).

(** ** The process *)

Definition running (d : Driver) : bool := match process d with Some p => alive p | None => false end.

Definition process_pid (d : Driver) : Z := match process d with Some p => pid p | None => 0 end.

(** [_build_base_cmd] *)
Definition build_base_cmd (web_ui : bool) (port : Z) : list string :=
  [if web_ui then "mitmweb" else "mitmdump"; "--listen-host"; listen_host cfg; "--listen-port"; pretty port;
   "--set"; ("confdir=" ++ d_conf dirs)%string; "--quiet"] ++
  (if web_ui then ["--web-host"; web_host cfg; "--web-port"; pretty (web_port cfg); "--set"; "web_open_browser=false";
                   "--set"; ("web_password=" ++ web_password cfg)%string] else []) ++
  (if ssl_insecure cfg then ["--set"; "ssl_insecure=true"] else []).

(** [except Exception: self._stop_capture_server(); return ...] *)
Definition or_stop (m : M unit) : M (option string) := fun d =>
  match m d with
  | (d', inr _) => (d', inr None)
  | (d', inl (Failure e)) => bind stop_capture_server (fun _ => ret (Some ("Failed to initialize mock mode: " ++ e)%string)) d'
  end.

(** [_apply_mode_flags]: a message, or the flags. *)
Definition apply_mode_flags (mode replay_file : string) : M (string + list string) :=
  do* flags := (
    if String.eqb mode "mock" then
      do* error := or_stop (load_startup_mocks >>> write_mock_config) in
      ret (match error with Some e => inl e | None => inr [] end)
    else if String.eqb mode "record" then
      let flow_file := sub (d_flows dirs) ("capture_" ++ timestamp_text w ++ ".bin") in
      modify (upd_flow (Some flow_file)) >>> ret (inr ["-w"; flow_file])
    else if String.eqb mode "replay" then
      let replay_path := path_join (d_flows dirs) replay_file in
      if exists_ w replay_path then ret (inr ["--server-replay"; replay_path; "--server-replay-nopop"])
      else stop_capture_server >>> ret (inl ("Replay file not found: " ++ replay_path)%string)
    else ret (inr [])) in
  match flags with
  | inl e => ret (inl e)
  | inr flags =>
      match addon_fails w with
      | Some e => raise e
      | None => ret (inr (flags ++ ["-s"; sub (d_addons dirs) "mock_addon.py"]))
      end
  end.

Definition build_start_message (mode : string) (web_ui : bool) (d : Driver) : string :=
  ("Started in '" ++ mode ++ "' mode on " ++ listen_host cfg ++ ":" ++ pretty (listen_port d) ++ " (PID " ++ pretty (process_pid d) ++ ")" ++
   (if web_ui then " | Web UI: http://" ++ web_host cfg ++ ":" ++ pretty (web_port cfg) ++ "/?token=" ++ web_password cfg else "") ++
   (if String.eqb mode "record" && is_some (current_flow_file d)
    then " | Recording to: " ++ default "" (current_flow_file d) else ""))%string.

(** [_check_startup_failure], for a process that has exited. *)
Definition startup_failure (web_ui : bool) : M reply :=
  modify (upd_process None) >>> stop_capture_server >>>
  do* port := gets listen_port in
  let hint := if port_in_use w port
              then (" (port " ++ pretty port ++ " is already in use - is another mitmproxy instance running?)")%string
              else if web_ui && port_in_use w (web_port cfg)
              then (" (web UI port " ++ pretty (web_port cfg) ++ " is already in use - is another mitmproxy instance running?)")%string
              else "" in
  ret (Text ("Failed to start" ++ hint ++ ": " ++ String.substring 0 500 (stderr_text w))).

Definition MODES : list string := ["mock"; "passthrough"; "record"; "replay"].

(** [start] from the creation of the capture server on. *)
Definition launch (mode : string) (web_ui : bool) (replay_file : string) : M reply :=
  start_capture_server >>>
  do* flags := apply_mode_flags mode replay_file in
  match flags with
  | inl e => ret (Text e)
  | inr _ =>
      match popen w with
      | inl e => raise e
      | inr new_pid =>
          modify (upd_process (Some (mkProcess new_pid (alive_after_start w)))) >>>
          if negb (alive_after_start w) then startup_failure web_ui
          else modify (upd_stderr true) >>> modify (upd_mode mode web_ui) >>>
               gets (fun d => Text (build_start_message mode web_ui d))
      end
  end.

Definition start (mode : string) (web_ui : bool) (replay_file : string) (port : Z) : M reply :=
  (if Z.eqb port 0 then ret tt else modify (upd_port port)) >>>
  do* d := gets (fun d => d) in
  if running d
  then ret (Text ("Already running in '" ++ current_mode d ++ "' mode (PID " ++ pretty (process_pid d) ++ "). Stop first."))
  else if negb (existsb (String.eqb mode) MODES)
  then ret (Text ("Unknown mode '" ++ mode ++ "'. Use: mock, passthrough, record, replay"))
  else if String.eqb mode "replay" && negb (truthy replay_file)
  then ret (Text "Error: replay_file is required for replay mode")
  else launch mode web_ui replay_file.

(** [stop]. The signals end the process, or it is given up. *)
Definition stop : M reply :=
  do* d := gets (fun d => d) in
  if negb (running d)
  then modify (upd_process None) >>> modify (upd_mode "stopped" false) >>> ret (Text "Not running")
  else
    modify (upd_stderr false) >>> modify (upd_process None) >>> modify (upd_mode "stopped" false) >>> modify (upd_flow None) >>>
    stop_capture_server >>> clean_spool_dirs >>>
    ret (Text ("Stopped (was '" ++ current_mode d ++ "' mode, PID " ++ pretty (process_pid d) ++ ")" ++
               (if String.eqb (current_mode d) "record" && is_some (current_flow_file d)
                then " | Flow saved to: " ++ default "" (current_flow_file d) else ""))%string).

Definition restart (mode : string) (web_ui : bool) (replay_file : string) (port : Z) : M reply :=
  do* d := gets (fun d => d) in
  let restart_mode := if truthy mode then mode else current_mode d in
  let restart_web := web_ui || web_ui_enabled d in
  let restart_mode := if String.eqb restart_mode "stopped" then "mock" else restart_mode in
  stop >>> start restart_mode restart_web replay_file port.

(** [close] *)
Definition close_driver : M unit :=
  do* r := gets running in if r : bool then stop >>> ret tt else ret tt.

Definition opt_text (o : option string) : value := match o with Some s => VStr s | None => VNone end.

Definition status (d : Driver) : reply :=
  let on := running d in
  Json (dict_value
    [("running", VBool on); ("mode", VStr (current_mode d));
     ("pid", if on then VInt (process_pid d) else VNone);
     ("proxy_address", if on then VStr (listen_host cfg ++ ":" ++ pretty (listen_port d))%string else VNone);
     ("web_ui_enabled", VBool (web_ui_enabled d));
     ("web_ui_address", if on && web_ui_enabled d
                        then VStr ("http://" ++ web_host cfg ++ ":" ++ pretty (web_port cfg) ++ "/?token=" ++ web_password cfg)%string
                        else VNone);
     ("mock_count", VInt (Z.of_nat (length (mock_endpoints d)))); ("flow_file", opt_text (current_flow_file d))]).

(** ** Files *)

(** [upload_mock_file]; [None] when the content is not base64. *)
Definition upload_mock_file (relative_path : string) (content : option string) : M reply :=
  let base := resolve_path w (d_files dirs) in
  let dest := resolve_path w (path_join base relative_path) in
  if negb (relative_to base dest) then ret (Text ("Invalid file path: " ++ relative_path))
  else match content with
       | None => raise "Incorrect padding"
       | Some bytes =>
           modify (fun d => upd_files (dict_set dest bytes (mock_files d)) (spool_files d) d) >>>
           ret (Text ("Uploaded: " ++ relative_path ++ " (" ++ pretty (String.length bytes) ++ " bytes)"))
       end.

Definition FILE_CHUNK : nat := Z.to_nat (2 * 1024 * 1024).

(** A file in base64, chunk by chunk. *)
Definition file_chunks (content : string) : list string :=
  map (fun c => of_codes (b64encode (Utf8.of_string c))) (chunks (String.length content) FILE_CHUNK content).

(** [get_captured_file]: nothing for a path outside of the directory or a missing file. *)
Definition get_captured_file (relative_path : string) (d : Driver) : list string :=
  let base := resolve_path w (d_files dirs) in
  let src := resolve_path w (path_join base relative_path) in
  if negb (relative_to base src) then []
  else match dict_get src (mock_files d) with Some content => file_chunks content | None => [] end.

(** [get_flow_file]; the flow files are those of the world. *)
Definition get_flow_file (name : string) : failure + list string :=
  let base := resolve_path w (d_flows dirs) in
  let src := resolve_path w (path_join (d_flows dirs) name) in
  if negb (relative_to base src) then inl (Failure ("Invalid flow file name: " ++ name))
  else if negb (exists_ w src) then inl (Failure ("Flow file not found: " ++ name))
  else match read_text w src with inl e => inl (Failure e) | inr content => inr (file_chunks content) end.

Definition ca_cert_path : string := sub (d_conf dirs) "mitmproxy-ca-cert.pem".

Definition get_ca_cert_path : string :=
  if exists_ w ca_cert_path then ca_cert_path
  else ("CA cert not found at " ++ ca_cert_path ++ ". Start proxy once to generate.")%string.

Definition get_ca_cert : failure + string :=
  if negb (exists_ w ca_cert_path)
  then inr ("Error: CA cert not found at " ++ ca_cert_path ++ ". Start proxy once to generate.")%string
  else match read_text w ca_cert_path with inl e => inl (Failure e) | inr text => inr text end.

Definition clean_capture_spool : M reply :=
  do* d := gets (fun d => d) in
  if negb (exists_ w (sub (d_data dirs) "capture-spool")) then ret (Text "No spool directory found")
  else modify (fun d => upd_files (mock_files d) [] d) >>>
       ret (Text ("Removed " ++ pretty (length (spool_files d)) ++ " spool file(s)")).

End Ops.

(** ** Captured requests *)

(** [_capture_read_loop]: the lines that are complete after some data, and the rest. *)
Fixpoint take_lines (buf : string) (line : string) : list string * string :=
  match buf with
  | EmptyString => ([], line)
  | String c buf' =>
      if Ascii.eqb c Str.newline then let (ls, rest) := take_lines buf' "" in (line :: ls, rest)
      else take_lines buf' (line ++ String c "")
  end.

Definition read_step (loads : string -> string + value) (s : string * list value) (data : string) : string * list value :=
  let (lines, rest) := take_lines (fst s ++ data) "" in
  (rest, snd s ++ omap (fun l => let l := Str.strip l in
                                 if truthy l then match loads l with inr e => Some e | inl _ => None end else None) lines).

(** The data of one connection, up to the empty read that ends it. *)
Definition capture_read_loop (loads : string -> string + value) (pieces : list string) : list value :=
  snd (fold_left (read_step loads) (read_until_empty pieces) ("", [])).

Definition clear_captured_requests : M reply :=
  do* count := gets (fun d => length (captured d)) in
  modify (upd_captured []) >>> ret (Text ("Cleared " ++ pretty count ++ " captured request(s)")).

(** [watch_captured_requests]: what is given at the start, and then for each look at the list. *)
Fixpoint watch_loop (last_index : nat) (looks : list (list value)) : list value :=
  match looks with
  | [] => []
  | now :: looks' =>
      if (last_index <? length now)%nat then drop last_index now ++ watch_loop (length now) looks'
      else watch_loop last_index looks'
  end.

Definition watch_captured_requests (first : list value) (looks : list (list value)) : list value :=
  first ++ watch_loop (length first) looks.

(** [_request_matches] *)
Definition request_matches (method path : string) (r : value) : bool :=
  match r with
  | VDict d =>
      match vget (KStr "method") d with
      | Some (VStr m) =>
          String.eqb m method &&
          match default (VStr "") (vget (KStr "path") d) with
          | VStr p => if ends_with_star path then Str.startswith (drop_last path) p else String.eqb p path
          | _ => false
          end
      | _ => false
      end
  | _ => false
  end.

(** [wait_for_request]: the list at each look, one every 200 ms until the deadline. *)
Fixpoint wait_looks (method path : string) (looks : list (list value)) : option value :=
  match looks with
  | [] => None
  | now :: looks' => match List.find (request_matches method path) now with
                     | Some r => Some r
                     | None => wait_looks method path looks'
                     end
  end.

Definition wait_for_request (method path timeout : string) (looks : list (list value)) : value :=
  match wait_looks method path looks with
  | Some r => r
  | None => VDict [(KStr "error", VStr ("Timed out waiting for " ++ method ++ " " ++ path ++ " after " ++ timeout ++ "s")%string)]
  end.

(** * What the addon sees *)

(** The calls that change the state. *)
Inductive op :=
| SetMock (method path : string) (status : Z) (body content_type headers : string)
| RemoveMock (method path : string)
| ClearMocks
| SetMockFile (method path file_path content_type : string) (status : Z) (headers : string)
| SetMockPatch (method path patches_json headers : string)
| SetMockWithLatency (method path : string) (status : Z) (body : string) (latency_ms : Z) (content_type : string)
| SetMockSequence (method path sequence_json : string)
| SetMockConditional (method path rules_json : string)
| SetMockTemplate (method path template_json : string) (status : Z)
| SetMockAddon (method path addon_name addon_config_json : string)
| SetState (key value_json : string)
| ClearState
| LoadMockScenario (scenario_file : string)
| LoadMockScenarioContent (filename content : string)
| Start (mode : string) (web_ui : bool) (replay_file : string) (port : Z)
| Stop
| Restart (mode : string) (web_ui : bool) (replay_file : string) (port : Z)
| UploadMockFile (relative_path : string) (content : option string)
| ClearCapturedRequests
| CleanCaptureSpool.

Definition run (cfg : Config) (w : World) (o : op) : M reply :=
  match o with
  | SetMock m p s b c h => set_mock w m p s b c h
  | RemoveMock m p => remove_mock w m p
  | ClearMocks => clear_mocks w
  | SetMockFile m p f c s h => set_mock_file w m p f c s h
  | SetMockPatch m p j h => set_mock_patch w m p j h
  | SetMockWithLatency m p s b l c => set_mock_with_latency w m p s b l c
  | SetMockSequence m p j => set_mock_sequence w m p j
  | SetMockConditional m p j => set_mock_conditional w m p j
  | SetMockTemplate m p j s => set_mock_template w m p j s
  | SetMockAddon m p a j => set_mock_addon w m p a j
  | SetState k v => set_state w k v
  | ClearState => clear_state w
  | LoadMockScenario f => load_mock_scenario cfg w f
  | LoadMockScenarioContent f c => load_mock_scenario_content w f c
  | Start m u r p => start cfg w m u r p
  | Stop => stop
  | Restart m u r p => restart cfg w m u r p
  | UploadMockFile p c => upload_mock_file cfg w p c
  | ClearCapturedRequests => clear_captured_requests
  | CleanCaptureSpool => clean_capture_spool cfg w
  end.

(** The files for the addon are those of the driver's endpoints and state, once written;
    before that they are what an earlier run left, [left], and the driver has neither
    endpoints nor state and has not been started in mock mode. *)
Definition in_step (left : Driver) (d : Driver) : Prop :=
  (config_file d = Some (mock_endpoints d) \/
   (mock_endpoints d = [] /\ config_file d = config_file left /\ current_mode d <> "mock")) /\
  (state_file d = Some (state_store d) \/ (state_store d = [] /\ state_file d = state_file left)).

(** [m] keeps [P], whether it returns or raises. *)
Definition keeps_inv {A} (P : Driver -> Prop) (m : M A) : Prop := forall d, P d -> P (fst (m d)).

Create HintDb mock.

Lemma inv_ret {A} P (a : A) : keeps_inv P (ret a).
Proof. by intros d. Qed.

Lemma keeps_raise {A} P e : keeps_inv P (raise (A := A) e).
Proof. by intros d. Qed.

Lemma keeps_lift {A} P (r : failure + A) : keeps_inv P (lift r).
Proof. by intros d. Qed.

Lemma keeps_gets {A} P (f : Driver -> A) : keeps_inv P (gets f).
Proof. by intros d. Qed.

Lemma keeps_modify P f : (forall d, P d -> P (f d)) -> keeps_inv P (modify f).
Proof. intros H d. apply H. Qed.

Lemma inv_bind {A B} P (m : M A) (k : A -> M B) : keeps_inv P m -> (forall a, keeps_inv P (k a)) -> keeps_inv P (bind m k).
Proof. intros Hm Hk d Hd. unfold bind. specialize (Hm d Hd). destruct (m d) as [d' [e|a]]; [done |]. by apply Hk. Qed.

#[export] Hint Resolve inv_ret keeps_raise keeps_lift keeps_gets : mock.

(** Changing the endpoints and writing them. *)
Lemma rewritten {A} left w f (k : M A) :
  write_fails w = None -> keeps_inv (in_step left) k ->
  keeps_inv (in_step left) (bind (modify (fun d => upd_endpoints (f d) d)) (fun _ => bind (write_mock_config w) (fun _ => k))).
Proof.
  intros Hw Hk d [Hc Hs]. unfold bind, modify, write_mock_config. rewrite Hw. cbn. apply Hk. split; [by left | done].
Qed.

Lemma restored {A} left w f (k : M A) :
  write_fails w = None -> keeps_inv (in_step left) k ->
  keeps_inv (in_step left) (bind (modify (fun d => upd_store (f d) d)) (fun _ => bind (write_state w) (fun _ => k))).
Proof.
  intros Hw Hk d [Hc Hs]. unfold bind, modify, write_state. rewrite Hw. cbn. apply Hk. split; [done | by left].
Qed.

(** A change of other fields, which does not enter mock mode. *)
Lemma keeps_elsewhere left f :
  (forall d, config_file (f d) = config_file d /\ mock_endpoints (f d) = mock_endpoints d /\
             state_file (f d) = state_file d /\ state_store (f d) = state_store d /\
             (current_mode (f d) = current_mode d \/ current_mode (f d) = "stopped")) ->
  keeps_inv (in_step left) (modify f).
Proof.
  intros H. apply keeps_modify. intros d. destruct (H d) as (H1 & H2 & H3 & H4 & H5). unfold in_step.
  rewrite H1, H2, H3, H4. destruct H5 as [-> | ->]; [done |]. naive_solver.
Qed.

Lemma put_mock_in_step left w key ep msg : write_fails w = None -> keeps_inv (in_step left) (put_mock w key ep msg).
Proof. intros Hw. unfold put_mock. apply rewritten; [done | apply inv_ret]. Qed.

#[export] Hint Resolve put_mock_in_step : mock.

Ltac in_step_tac :=
  repeat first
    [ solve [eauto with mock]
    | apply rewritten; [done |] | apply restored; [done |]
    | apply inv_bind; [| intros ?]
    | solve [apply keeps_elsewhere; intros ?; split_and!; auto]
    | case_match ].

Lemma bind_returns {A B} (m : M A) (k : A -> M B) d d' a : m d = (d', inr a) -> bind m k d = k a d'.
Proof. intros H. unfold bind. by rewrite H. Qed.

Lemma startup_scenario_spec cfg w d :
  match load_startup_scenario cfg w d with
  | (d', inl _) => d' = d
  | (d', inr _) => exists eps, d' = upd_endpoints eps d
  end.
Proof.
  assert (d = upd_endpoints (mock_endpoints d) d) as Heta by by destruct d.
  unfold load_startup_scenario. cbv zeta. destruct (_ || _); [by exists (mock_endpoints d) |].
  destruct (match read_text w _ with inl e => _ | inr t => _ end) as [e|[]]; try done.
  destruct (extract_endpoints _) as [|eps]; [done |]. destruct (text_keys eps) as [l|]; [| done].
  unfold bind, lift. destruct (convert_url_endpoints l []); [done |]. cbn. eauto.
Qed.

Lemma startup_in_step left cfg w :
  write_fails w = None -> keeps_inv (in_step left) (or_stop (load_startup_mocks cfg w >>> write_mock_config w)).
Proof.
  intros Hw d Hd. unfold or_stop, load_startup_mocks, bind. pose proof (startup_scenario_spec cfg w d) as Hs.
  destruct (load_startup_scenario cfg w d) as [d' [e|[]]].
  - subst d'. destruct e. by cbn.
  - destruct Hs as [eps ->]. unfold write_mock_config. rewrite Hw. cbn. destruct Hd as [_ Hs]. split; [by left | done].
Qed.

Lemma load_endpoints_in_step left w raw name : write_fails w = None -> keeps_inv (in_step left) (load_endpoints w raw name).
Proof.
  intros Hw. unfold load_endpoints. case_match; [in_step_tac |]. case_match; [| in_step_tac].
  apply inv_bind; [apply keeps_lift |]. intros converted. apply (rewritten left w (fun _ => converted)); [done | apply inv_ret].
Qed.

Lemma stop_capture_in_step left : keeps_inv (in_step left) stop_capture_server.
Proof. apply keeps_elsewhere. intros d. split_and!; auto. Qed.

Lemma apply_mode_flags_in_step left cfg w mode replay :
  write_fails w = None -> keeps_inv (in_step left) (apply_mode_flags cfg w mode replay).
Proof.
  intros Hw. unfold apply_mode_flags. apply inv_bind; [| intros ?; in_step_tac].
  case_match; [apply inv_bind; [by apply startup_in_step | intros ?; apply inv_ret] |].
  case_match; [in_step_tac |]. case_match; [| apply inv_ret]. cbv zeta. case_match; [apply inv_ret |].
  apply inv_bind; [apply stop_capture_in_step | intros ?; apply inv_ret].
Qed.

(** In mock mode the flags are there only when the configuration was written. *)
Lemma apply_mode_flags_written cfg w replay d d' flags :
  apply_mode_flags cfg w "mock" replay d = (d', inr (inr flags)) -> config_file d' = Some (mock_endpoints d').
Proof.
  unfold apply_mode_flags, or_stop, load_startup_mocks, bind. cbn [String.eqb Ascii.eqb Bool.eqb].
  pose proof (startup_scenario_spec cfg w d) as Hs.
  destruct (load_startup_scenario cfg w d) as [d1 [[e]|[]]]; cbn; [by intros [=] |].
  unfold write_mock_config. destruct (write_fails w); cbn; [by intros [=] |].
  destruct (addon_fails w); cbn; [by intros [=] |]. by intros [= <- _].
Qed.

Lemma launch_in_step left cfg w mode web_ui replay :
  write_fails w = None -> keeps_inv (in_step left) (launch cfg w mode web_ui replay).
Proof.
  intros Hw. unfold launch. apply inv_bind; [unfold start_capture_server; in_step_tac |]. intros _ d Hd.
  pose proof (apply_mode_flags_in_step left cfg w mode replay Hw d Hd) as H. unfold bind at 1.
  destruct (apply_mode_flags cfg w mode replay d) as [d1 [e|[e|flags]]] eqn:E; [done | done |]. cbn [fst] in H.
  destruct (popen w) as [e|pid]; [done |]. destruct (alive_after_start w); cbn [negb].
  - cbn. destruct H as [Hc Hs]. split; [| done]. destruct Hc as [Hc|(H1 & H2 & H3)]; [by left |].
    cbn. destruct (decide (mode = "mock")) as [->|]; [| by right].
    left. by eapply apply_mode_flags_written.
  - revert H. generalize d1 as x. change (keeps_inv (in_step left)
      (modify (upd_process (Some (mkProcess pid false))) >>> startup_failure cfg w web_ui)).
    unfold startup_failure, stop_capture_server. in_step_tac.
Qed.

#[export] Hint Resolve load_endpoints_in_step launch_in_step stop_capture_in_step : mock.

Lemma stop_in_step left : keeps_inv (in_step left) stop.
Proof. unfold stop, clean_spool_dirs. in_step_tac. Qed.

Lemma start_in_step left cfg w mode web_ui replay port : write_fails w = None -> keeps_inv (in_step left) (start cfg w mode web_ui replay port).
Proof. intros Hw. unfold start. in_step_tac. Qed.

#[export] Hint Resolve stop_in_step start_in_step : mock.

(** Every operation keeps the files for the addon in step. *)
Lemma run_in_step left cfg w o : write_fails w = None -> keeps_inv (in_step left) (run cfg w o).
Proof.
  intros Hw. destruct o; cbn [run];
    unfold set_mock, remove_mock, clear_mocks, set_mock_file, set_mock_patch, set_mock_with_latency, set_mock_sequence,
      set_mock_conditional, set_mock_list, set_mock_template, set_mock_addon, extra_headers, set_state, clear_state,
      load_mock_scenario, load_mock_scenario_content, restart, upload_mock_file, clear_captured_requests, clean_capture_spool;
    cbv zeta; in_step_tac.
Qed.

(** Calls one after the other, each with the answers of the world at its time. *)
Definition run_all (cfg : Config) (calls : list (World * op)) (d : Driver) : Driver :=
  fold_left (fun d (c : World * op) => fst (run cfg (fst c) (snd c) d)) calls d.

(** What [json.load] gives back for what [json.dump] wrote: keys become texts, and of two equal
    ones the last value counts. *)
Definition key_text (k : key) : string := match k with KStr s => s | KInt n => pretty n end.

Fixpoint as_json (v : value) : value :=
  match v with
  | VList l => VList ((fix go (l : list value) : list value :=
                         match l with [] => [] | x :: l' => as_json x :: go l' end) l)
  | VDict d => VDict ((fix go (d acc : vdict) : vdict :=
                         match d with [] => acc | (k, x) :: d' => go d' (vset (KStr (key_text k)) (as_json x) acc) end) d [])
  | _ => v
  end.

(** The two files on disk, as the addon reads them: [interp] reads an endpoint from its JSON, [c]
    are the settings of the driver. *)
Definition addon_endpoints (interp : value -> endpoint) (eps : list (string * value)) : list (string * endpoint) :=
  map (fun kv => (fst kv, interp (as_json (snd kv)))) eps.

Definition addon_file (interp : value -> endpoint) (c : config) (mtime : Z) (d : Driver) : option (Z * option raw_config) :=
  option_map (fun eps => (mtime, Some (V2 c (addon_endpoints interp eps)))) (config_file d).

Definition addon_state (store : list (string * value)) : vdict := map (fun kv => (KStr (fst kv), as_json (snd kv))) store.

Definition addon_state_file (mtime : Z) (d : Driver) : option (Z * option vdict) :=
  option_map (fun store => (mtime, Some (addon_state store))) (state_file d).

(** C32: Take a driver that has no endpoints and no state yet and is not in mock mode, over whatever
    files an earlier one left, and make any calls in any order, with messages of error,
    exceptions, starts, stops and scenarios among them, as long as the two files can be
    written. When it is then in mock mode, an addon that has loaded no configuration that
    is as new as the file has, after it loads the file, exactly the endpoints of the driver,
    each as JSON gives it back. Whatever the mode, an addon that has loaded no state that is
    as new as the file has exactly the state of the driver after it loads the file, as soon
    as that state is not empty or the file was changed. (Of the endpoints in other modes
    nothing is said: see [passthrough_keeps_mocks].) *)
Theorem addon_follows cfg calls d interp c mtime a :
  Forall (fun wo : World * op => write_fails (fst wo) = None) calls ->
  mock_endpoints d = [] -> state_store d = [] -> current_mode d <> "mock" ->
  (config_mtime a < mtime)%Z -> (state_mtime a < mtime)%Z ->
  let d' := run_all cfg calls d in
  (current_mode d' = "mock" ->
   endpoints (load_config [] (addon_file interp c mtime d') a) = addon_endpoints interp (mock_endpoints d')) /\
  (state_store d' <> [] \/ state_file d' <> state_file d ->
   shared_state (load_state (addon_state_file mtime d') a) = addon_state (state_store d')).
Proof.
  intros Hw H1 H2 H3 Ht Hts. cbv zeta.
  assert (in_step d d) as Hd by (split; right; done).
  assert (in_step d (run_all cfg calls d)) as [Hc Hs].
  { clear -Hw Hd. revert Hd. generalize d at 2 4 as x. induction Hw as [|[w o] calls Hw _ IH]; intros x Hx; [done |].
    cbn. apply IH. by apply run_in_step. }
  split.
  - intros Hm. destruct Hc as [Hc|(_ & _ & Hc)]; [| done]. unfold addon_file. rewrite Hc. cbn.
    by replace (mtime <=? config_mtime a)%Z with false by (symmetry; apply Z.leb_gt; lia).
  - intros Hn. destruct Hs as [Hs|[Hs1 Hs2]]; [| by destruct Hn]. unfold addon_state_file. rewrite Hs. cbn.
    by replace (mtime <=? state_mtime a)%Z with false by (symmetry; apply Z.leb_gt; lia).
Qed.

(** Outside of mock mode the addon does find endpoints: a start in passthrough mode leaves the
    configuration as it is, be it the driver's own or one that an earlier run left. *)
Theorem passthrough_keeps_mocks cfg w d web_ui port :
  let d' := fst (start cfg w "passthrough" web_ui "" port d) in
  config_file d' = config_file d /\ mock_endpoints d' = mock_endpoints d.
Proof.
  set (P := fun x => config_file x = config_file d /\ mock_endpoints x = mock_endpoints d).
  assert (keeps_inv P (apply_mode_flags cfg w "passthrough" "")) as Hf.
  { unfold apply_mode_flags. cbn [String.eqb Ascii.eqb Bool.eqb]. cbv beta iota zeta.
    apply inv_bind; [apply inv_ret |]. intros [e|flags]; [apply inv_ret |].
    destruct (addon_fails w); [apply keeps_raise | apply inv_ret]. }
  assert (keeps_inv P (start cfg w "passthrough" web_ui "" port)) as H; [| by apply H].
  unfold start, launch, start_capture_server, startup_failure, stop_capture_server.
  repeat first
    [ exact Hf | apply inv_ret | apply keeps_raise | apply keeps_gets
    | apply inv_bind; [| intros ?] | solve [by apply keeps_modify]
    | match goal with |- keeps_inv _ (match ?x with _ => _ end) => destruct x end ].
Qed.

(** ** From captured traffic back to endpoints *)

Lemma text_keys_texts eps : text_keys (map (fun kv : string * value => (KStr (fst kv), snd kv)) eps) = Some eps.
Proof. induction eps as [|[k v] eps IH]; [done |]. cbn. by rewrite IH. Qed.

(** C36: A scenario that was exported from captured traffic can be loaded again under the name of a
    YAML file, when YAML gives back the scenario it was given and the configuration can be written:
    the driver then has, and has written for the addon, an endpoint with the method and the
    path, without the query, of every captured request that was not filtered out and whose
    path has no [;] and no [#] and starts with a slash; that is the key under which the addon
    looks for it. (What follows [;] or [#] in a path is lost, as the key is parsed as a URL.) *)
Theorem export_covers fnmatch guess_extension pretty_json spool escapes yaml_dump w filename
    filter_pattern exclude_mocked requests files text paths files' d :
  (forall eps ps fs,
     captured_endpoints fnmatch guess_extension pretty_json spool escapes filter_pattern exclude_mocked requests files =
       inr (eps, ps, fs) ->
     yaml_load w (yaml_dump (scenario_value eps)) = inr (scenario_value eps)) ->
  is_yaml filename = true -> write_fails w = None ->
  export_captured_scenario fnmatch guess_extension pretty_json spool escapes yaml_dump filter_pattern exclude_mocked
    requests files = inr (text, paths, files') ->
  exists d', load_mock_scenario_content w filename text d =
      (d', inr (Text ("Loaded " ++ pretty (length (mock_endpoints d')) ++ " endpoint(s) from " ++ filename))) /\
    config_file d' = Some (mock_endpoints d') /\
    forall r, In r (filter_captured_requests fnmatch filter_pattern exclude_mocked requests) -> simple_path (base_path r) ->
      is_some (dict_get (endpoint_key (rq_method r) (base_path r)) (mock_endpoints d')) = true.
Proof.
  intros Hy Hf Hw. unfold export_captured_scenario.
  destruct (captured_endpoints _ _ _ _ _ _ _ _ _) as [e|[[eps ps] fs]] eqn:E; [done |]. intros [= <- _ _].
  destruct (captured_converted _ _ _ _ _ _ _ _ _ _ _ _ E) as (converted & Hc & Hall).
  unfold load_mock_scenario_content, parse_scenario. rewrite Hf, (Hy _ _ _ eq_refl).
  unfold load_endpoints, scenario_value. cbn [extract_endpoints vget]. rewrite bool_decide_eq_true_2 by done.
  rewrite text_keys_texts. unfold bind, lift. rewrite Hc. unfold write_mock_config. rewrite Hw. cbn.
  exists (upd_config_file (Some converted) (upd_endpoints converted d)). by split_and!.
Qed.

(** * The life of the proxy *)

(** Nothing runs and nothing is left over. *)
Definition idle (d : Driver) : Prop := process d = None /\ capture d = no_capture /\ current_mode d = "stopped" /\ web_ui_enabled d = false.

(** The proxy runs, and its capture server with it. *)
Definition up (mode : string) (web_ui : bool) (d : Driver) : Prop :=
  running d = true /\ cap_server (capture d) = true /\ cap_running (capture d) = true /\ cap_path (capture d) <> None /\
  current_mode d = mode /\ web_ui_enabled d = web_ui.

Lemma startup_mocks_idle cfg w d :
  process d = None ->
  let r := or_stop (load_startup_mocks cfg w >>> write_mock_config w) d in
  process (fst r) = None /\ current_mode (fst r) = current_mode d /\ web_ui_enabled (fst r) = web_ui_enabled d /\
  match snd r with inr None => capture (fst r) = capture d | inr (Some _) => capture (fst r) = no_capture | inl _ => False end.
Proof.
  intros Hp. unfold or_stop, load_startup_mocks, bind. pose proof (startup_scenario_spec cfg w d) as Hs.
  destruct (load_startup_scenario cfg w d) as [d' [[e]|[]]]; [subst d'; by cbn |]. destruct Hs as [eps ->].
  unfold write_mock_config. cbn. destruct (write_fails w); by cbn.
Qed.

Lemma mode_flags_spec cfg w mode replay d :
  process d = None -> addon_fails w = None ->
  let r := apply_mode_flags cfg w mode replay d in
  process (fst r) = None /\ current_mode (fst r) = current_mode d /\ web_ui_enabled (fst r) = web_ui_enabled d /\
  match snd r with
  | inr (inr _) => capture (fst r) = capture d
  | inr (inl _) => capture (fst r) = no_capture
  | inl _ => False
  end.
Proof.
  intros Hp Ha. unfold apply_mode_flags. rewrite Ha. cbv zeta.
  destruct (String.eqb mode "mock").
  - pose proof (startup_mocks_idle cfg w d Hp) as H. cbv zeta in H.
    set (m := or_stop _) in *. clearbody m. unfold bind.
    destruct (m d) as [d' [e|[e|]]]; cbn [fst snd] in H; destruct H as (H1 & H2 & H3 & H4); by cbn.
  - destruct (String.eqb mode "record"); [by cbn |]. destruct (String.eqb mode "replay"); [| by cbn].
    destruct (exists_ w _); by cbn.
Qed.

Lemma launch_exact cfg w mode web_ui replay d pid :
  process d = None -> current_mode d = "stopped" -> web_ui_enabled d = false ->
  bind_fails w = None -> addon_fails w = None -> popen w = inr pid ->
  let r := launch cfg w mode web_ui replay d in
  exists msg, snd r = inr (Text msg) /\ (idle (fst r) \/ up mode web_ui (fst r)).
Proof.
  intros Hp Hm Hu Hb Ha Hpo. unfold launch, start_capture_server. rewrite Hb, Hpo. cbv zeta.
  set (path := if (_ <? 100)%nat then _ else _). set (d2 := upd_capture (mkCapture (Some path) true true (cap_readers (capture d)) true) d).
  rewrite (bind_returns _ _ _ d2 tt) by done. assert (Hp2 : process d2 = None) by done.
  pose proof (mode_flags_spec cfg w mode replay d2 Hp2 Ha) as H. cbv zeta in H.
  destruct (apply_mode_flags cfg w mode replay d2) as [d3 [e|flags]] eqn:E; cbn [fst snd] in H; [tauto |].
  rewrite (bind_returns _ _ _ _ _ E). destruct flags as [e|flags], H as (H1 & H2 & H3 & H4).
  - exists e. split; [done |]. left. unfold idle. cbn. by rewrite H1, H2, H3, H4.
  - destruct (alive_after_start w) eqn:Eal; cbn [negb].
    + eexists. split; [done |]. right. unfold up, running. cbn. by rewrite H4.
    + eexists. split; [done |]. left. unfold idle. cbn. by rewrite H2, H3.
Qed.

(** Starting from idle, when nothing raises: either a message of error, and everything is idle
    again, or the proxy is up in the mode that was asked for. *)
Theorem start_exact cfg w mode web_ui replay port d pid :
  idle d -> bind_fails w = None -> addon_fails w = None -> popen w = inr pid ->
  let r := start cfg w mode web_ui replay port d in
  exists msg, snd r = inr (Text msg) /\ (idle (fst r) \/ up mode web_ui (fst r)).
Proof.
  intros (Hp & Hc & Hm & Hu) Hb Ha Hpo. unfold start. cbv zeta.
  set (d1 := fst ((if (port =? 0)%Z then ret tt else modify (upd_port port)) d)).
  assert (forall (k : M reply), bind (if (port =? 0)%Z then ret tt else modify (upd_port port)) (fun _ => k) d = k d1) as ->
    by (intros k; unfold d1, bind; by destruct (port =? 0)%Z).
  assert (process d1 = None /\ capture d1 = no_capture /\ current_mode d1 = "stopped" /\ web_ui_enabled d1 = false)
    as (Hp1 & Hc1 & Hm1 & Hu1) by (unfold d1; by destruct (port =? 0)%Z).
  assert (idle d1) as Hi by done. clearbody d1.
  rewrite (bind_returns _ _ _ d1 d1) by done. unfold running. rewrite Hp1.
  destruct (negb (existsb (String.eqb mode) MODES)); [eauto |].
  destruct (String.eqb mode "replay" && negb (truthy replay)); [eauto |]. by eapply launch_exact.
Qed.

(** Stopping a running proxy leaves it idle, with the endpoints, the state and the captured
    requests as they were. The spool and the whole directory of mock files are emptied. *)
Theorem stop_exact d :
  running d = true ->
  let d' := fst (stop d) in
  idle d' /\ mock_endpoints d' = mock_endpoints d /\ state_store d' = state_store d /\ captured d' = captured d /\
  current_flow_file d' = None /\ mock_files d' = [] /\ spool_files d' = [].
Proof. intros H. unfold stop. rewrite (bind_returns _ _ _ d d), H by done. by cbn. Qed.

Lemma stop_runs d : running d = true ->
  exists d' msg, stop d = (d', inr (Text msg)) /\ process d' = None /\ mock_files d' = [].
Proof. intros H. unfold stop. rewrite (bind_returns _ _ _ d d), H by done. cbn. eauto. Qed.

(** ** Where it goes wrong *)

(** A proxy that died is "not running", and stopping it leaves the capture server, its thread
    and its socket. *)
Theorem crashed_stop_leaks d p :
  process d = Some p -> alive p = false -> capture (fst (stop d)) = capture d /\ snd (stop d) = inr (Text "Not running").
Proof. intros Hp Ha. unfold stop. rewrite (bind_returns _ _ _ d d) by done. unfold running. by rewrite Hp, Ha. Qed.

(** So does a program that cannot be started, such as a proxy that is not installed. *)
Theorem popen_failure_leaks cfg w d e :
  idle d -> bind_fails w = None -> addon_fails w = None -> popen w = inl e ->
  let r := start cfg w "passthrough" false "" 0 d in
  snd r = inl (Failure e) /\ process (fst r) = None /\ cap_server (capture (fst r)) = true.
Proof.
  intros (Hp & _) Hb Ha Hpo. unfold start, bind, ret, gets, running. cbn. rewrite Hp. cbn.
  unfold launch, start_capture_server, apply_mode_flags. rewrite Hb, Hpo, Ha. by cbn.
Qed.

(** A start that is refused because the proxy runs changes the port that its status shows. *)
Theorem refused_start_changes_port cfg w mode web_ui replay port d :
  running d = true -> port <> 0%Z ->
  let r := start cfg w mode web_ui replay port d in
  (exists msg, snd r = inr (Text msg)) /\ process (fst r) = process d /\ listen_port (fst r) = port.
Proof.
  intros Hr Hp. unfold start. apply Z.eqb_neq in Hp. rewrite Hp. unfold bind, modify, gets. cbn.
  change (running (upd_port port d)) with (running d). rewrite Hr. cbn. eauto.
Qed.

(** Restarting in the mode it was in does not work for a replay: the file is not remembered,
    and the proxy stays stopped. *)
Theorem restart_replay_fails cfg w d :
  running d = true -> current_mode d = "replay" ->
  let r := restart cfg w "" false "" 0 d in
  snd r = inr (Text "Error: replay_file is required for replay mode") /\ process (fst r) = None.
Proof.
  intros Hr Hm. destruct (stop_runs d Hr) as (d' & msg & Hs & Hp & _). cbv zeta. unfold restart.
  rewrite (bind_returns _ _ _ d d) by done. rewrite Hm. rewrite (bind_returns _ _ _ _ _ Hs).
  unfold start, bind, ret, gets, running. cbn. rewrite Hp. done.
Qed.

(** [start] does not touch the mock files. *)
Lemma start_keeps_files cfg w mode web_ui replay port fs :
  keeps_inv (fun d => mock_files d = fs) (start cfg w mode web_ui replay port).
Proof.
  assert (forall f, (forall d, mock_files (f d) = mock_files d) -> keeps_inv (fun d => mock_files d = fs) (modify f)) as Hm.
  { intros f Hf. apply keeps_modify. intros d. by rewrite Hf. }
  unfold start, launch, start_capture_server, apply_mode_flags, startup_failure, stop_capture_server.
  repeat first [ solve [eauto with mock] | apply inv_bind; [| intros ?] | solve [by apply Hm] | case_match ].
  intros d Hd. unfold or_stop, load_startup_mocks, bind. pose proof (startup_scenario_spec cfg w d) as Hs.
  destruct (load_startup_scenario cfg w d) as [d' [[e]|[]]]; [subst d'; by cbn |]. destruct Hs as [eps ->].
  unfold write_mock_config. cbn. destruct (write_fails w); by cbn.
Qed.

(** A restart empties the directory of the files that the endpoints refer to. *)
Theorem restart_loses_files cfg w mode web_ui replay port d :
  running d = true -> mock_files (fst (restart cfg w mode web_ui replay port d)) = [].
Proof.
  intros Hr. destruct (stop_runs d Hr) as (d' & msg & Hs & _ & Hf). unfold restart.
  rewrite (bind_returns _ _ _ d d) by done. rewrite (bind_returns _ _ _ _ _ Hs). by apply start_keeps_files.
Qed.

(** * Captured requests *)

Lemma take_lines_app a b l :
  take_lines (a ++ b) l =
  let r := take_lines a l in let r' := take_lines b (snd r) in (fst r ++ fst r', snd r').
Proof.
  induction a as [|c a IH] in l |- *; [change ("" ++ b)%string with b; cbn; by destruct (take_lines b l) |].
  rewrite Str.sapp_cons. cbn [take_lines]. destruct (Ascii.eqb c Str.newline); [| apply IH].
  rewrite IH. cbv zeta. destruct (take_lines a "") as [ls r]. cbn [fst snd]. by destruct (take_lines b r).
Qed.

Lemma take_lines_rest s l :
  Str.has_char Str.newline l = false -> Str.has_char Str.newline (snd (take_lines s l)) = false.
Proof.
  induction s as [|c s IH] in l |- *; intros H; [done |]. cbn [take_lines]. destruct (Ascii.eqb c Str.newline) eqn:E.
  - specialize (IH "" eq_refl). by destruct (take_lines s "").
  - apply IH. rewrite Str.has_char_app, H. cbn [Str.has_char]. by rewrite E.
Qed.

Lemma take_lines_none s l : Str.has_char Str.newline s = false -> take_lines s l = ([], (l ++ s)%string).
Proof.
  induction s as [|c s IH] in l |- *; intros H; [by rewrite Str.sapp_nil |]. cbn [Str.has_char take_lines] in *.
  apply orb_false_iff in H as [-> H]. rewrite IH by done. by rewrite Str.sapp_assoc.
Qed.

(** The events of lines: blank ones and those that are no JSON are left out. *)
Definition events_of (loads : string -> string + value) (lines : list string) : list value :=
  omap (fun l => let l := Str.strip l in
                 if truthy l then match loads l with inr e => Some e | inl _ => None end else None) lines.

Lemma events_of_app loads l1 l2 : events_of loads (l1 ++ l2) = events_of loads l1 ++ events_of loads l2.
Proof. apply omap_app. Qed.

(** The captured requests are those of the complete lines of what the addon sent, in order,
    however the socket cuts it into pieces. *)
Theorem capture_lines loads pieces rest :
  Forall (fun c => c <> "") pieces ->
  capture_read_loop loads (pieces ++ "" :: rest) = events_of loads (fst (take_lines (concat_strings pieces) "")).
Proof.
  intros Hp. unfold capture_read_loop. rewrite read_pieces by done.
  assert (forall buf evs, Str.has_char Str.newline buf = false ->
    snd (fold_left (read_step loads) pieces (buf, evs)) = evs ++ events_of loads (fst (take_lines (concat_strings pieces) buf))) as H;
    [| by apply H].
  clear Hp. induction pieces as [|p pieces IH]; intros buf evs Hb; cbn [fold_left]; [by rewrite app_nil_r |].
  unfold read_step at 2. cbn [fst snd]. rewrite take_lines_app, take_lines_none by done. cbn [fst snd app].
  change ("" ++ buf)%string with buf. pose proof (take_lines_rest p buf Hb) as Hr.
  rewrite concat_strings_cons, take_lines_app. cbv zeta. destruct (take_lines p buf) as [ls r]. cbn [fst snd] in *.
  rewrite IH by done. rewrite events_of_app, app_assoc. done.
Qed.

(** Watching: as long as the list only grows, every request is given once and in order. *)
Fixpoint growing (now : list value) (looks : list (list value)) : Prop :=
  match looks with [] => True | l :: looks' => now `prefix_of` l /\ growing l looks' end.

Theorem watch_complete first looks :
  growing first looks -> watch_captured_requests first looks = default first (last looks).
Proof.
  unfold watch_captured_requests. induction looks as [|l looks IH] in first |- *; intros H; [by rewrite app_nil_r |].
  destruct H as [[t ->] H]. cbn [watch_loop].
  assert (default first (last ((first ++ t) :: looks)) = default (first ++ t) (last looks)) as ->
    by (rewrite last_cons; by destruct (last looks)).
  rewrite <- IH by done. destruct (length first <? length (first ++ t))%nat eqn:E.
  - by rewrite drop_app_length, app_assoc.
  - apply Nat.ltb_ge in E. rewrite length_app in E. destruct t; [| cbn in E; lia]. by rewrite app_nil_r.
Qed.

(** After the list was cleared, the new requests are not given until there are more than
    before, and the first ones never. *)
Theorem watch_loses_after_clear a b c d :
  watch_captured_requests [a; b] [[]; [c]; [c; d]] = [a; b] /\
  watch_captured_requests [a] [[]; [b; c]] = [a; c].
Proof. split; reflexivity. Qed.

(** The request that is waited for matches, was captured, and is the first such one at the
    first look that has one. *)
Theorem wait_exact method path timeout looks r :
  wait_looks method path looks = Some r <->
  exists before now after, looks = before ++ now :: after /\
    Forall (fun l => List.find (request_matches method path) l = None) before /\
    List.find (request_matches method path) now = Some r /\ wait_for_request method path timeout looks = r.
Proof.
  split.
  - intros H. unfold wait_for_request. rewrite H. induction looks as [|l looks IH]; cbn in H; [done |].
    destruct (List.find (request_matches method path) l) as [x|] eqn:E.
    + exists [], l, looks. by simplify_eq.
    + destruct (IH H) as (b & n & a & -> & Hb & Hn & _). exists (l :: b), n, a. split_and!; [done | by constructor | done | done].
  - intros (b & n & a & -> & Hb & Hn & _). induction Hb as [|l b Hl _ IH]; cbn; [by rewrite Hn | by rewrite Hl].
Qed.

(** * Files *)

Lemma b64encode_length bs : (3 * length (b64encode bs) <= 4 * length bs + 8)%nat.
Proof.
  assert (forall n bs, (length bs <= n)%nat -> (3 * length (b64encode bs) <= 4 * length bs + 8)%nat) as H; [| by eapply H].
  induction n as [|n IH]; intros [|a [|b [|c cs]]] Hl; cbn [b64encode length] in *; try lia.
  rewrite length_app. cbn [length]. specialize (IH cs ltac:(lia)). lia.
Qed.

Lemma of_codes_length l : String.length (of_codes l) = length l.
Proof. induction l as [|c l IH]; [done |]. cbn. by rewrite IH. Qed.

Lemma of_string_length s : length (Utf8.of_string s) = String.length s.
Proof. induction s as [|c s IH]; [done |]. cbn [Utf8.of_string length String.length]. by rewrite IH. Qed.

Lemma FILE_CHUNK_value : Z.of_nat FILE_CHUNK = 2097152%Z.
Proof. unfold FILE_CHUNK. by rewrite Z2Nat.id. Qed.

#[local] Opaque FILE_CHUNK.

Lemma file_chunks_decoded content :
  map (fun m => b64decode (Utf8.of_string m)) (file_chunks content) =
  map (fun c => Some (Utf8.of_string c)) (chunks (String.length content) FILE_CHUNK content) /\
  concat_strings (chunks (String.length content) FILE_CHUNK content) = content.
Proof.
  pose proof FILE_CHUNK_value as Hv.
  destruct (chunks_concat (String.length content) FILE_CHUNK content) as [H1 H2]; [lia | done |].
  split; [| done]. unfold file_chunks. rewrite map_map. apply map_ext. intros c.
  rewrite of_string_codes by apply b64encode_bytes, of_string_bytes. apply b64_roundtrip, of_string_bytes.
Qed.

(** C31: A file is sent in messages below the limit of 4 MiB, and decoding them one by one gives
    the file. *)
Theorem file_chunks_exact content :
  Forall (fun m => (Z.of_nat (String.length m) <= 2796205)%Z) (file_chunks content) /\
  map (fun m => b64decode (Utf8.of_string m)) (file_chunks content) =
  map (fun c => Some (Utf8.of_string c)) (chunks (String.length content) FILE_CHUNK content) /\
  concat_strings (chunks (String.length content) FILE_CHUNK content) = content.
Proof.
  pose proof FILE_CHUNK_value as Hv.
  destruct (chunks_concat (String.length content) FILE_CHUNK content) as [H1 H2]; [lia | done |].
  split; [| by apply file_chunks_decoded]. unfold file_chunks.
  apply Forall_map. eapply Forall_impl; [exact H2 |]. intros c [_ Hc]. cbn.
  rewrite of_codes_length. pose proof (b64encode_length (Utf8.of_string c)) as Hb. rewrite of_string_length in Hb.
  lia.
Qed.

(** An upload changes at most one file, and that is inside the directory of mock files; so is
    every scenario that is loaded by name. *)
Theorem files_confined cfg w path content d k :
  (dict_get k (mock_files (fst (upload_mock_file cfg w path content d))) <> dict_get k (mock_files d) ->
   relative_to (resolve_path w (d_files (directories cfg))) k = true) /\
  (forall resolved, resolve_scenario_path cfg w path = inr resolved ->
   relative_to (resolve_path w (d_mocks (directories cfg))) resolved = true /\ exists_ w resolved = true).
Proof.
  split.
  - unfold upload_mock_file. cbv zeta. set (base := resolve_path w _). set (dest := resolve_path w (path_join base path)).
    destruct (relative_to base dest) eqn:E; cbn [negb]; [| done]. destruct content as [bytes|]; [cbn | done].
    intros H. destruct (decide (dest = k)) as [<-|Hne]; [done |]. by rewrite dict_get_set_other in H.
  - intros resolved. unfold resolve_scenario_path. cbv zeta. set (p := if is_dir w _ then _ else _).
    destruct (relative_to _ _) eqn:E; cbn [negb]; [| done]. destruct (exists_ w _) eqn:E2; cbn [negb]; [| done].
    by intros [= <-].
Qed.

(** Captured requests outlive a stop, but bodies in the spool do not: a scenario that is
    exported afterwards has no response for them. *)
Theorem spooled_bodies_lost d r :
  running d = true -> rq_body r = None ->
  captured (fst (stop d)) = captured d /\
  response_raw (fun f => dict_get f (spool_files (fst (stop d)))) r = None.
Proof.
  intros Hr Hb. unfold stop. rewrite (bind_returns _ _ _ d d), Hr by done. cbn. split; [done |].
  unfold response_raw. rewrite Hb. destruct (rq_body_file r) as [f|]; [by destruct (truthy f) | done].
Qed.

(** ** Witnesses *)

Module DriverDemo.

Definition cfg : Config :=
  mkConfiguration "127.0.0.1" "127.0.0.1" 8081 (resolve_defaults "/tmp" "me" (mkDirectories "" "" "" "" "" "")) true "" [] "pw".

Definition world : World :=
  mkWorld (fun _ => inr (VDict [])) (fun _ => inr (VDict [])) None None "/tmp/s.sock" None (inr 42%Z) true "" (fun _ => false)
    (fun _ => true) (fun _ => false) (fun _ => inr "") (fun p => normpath p) "now" (fun _ => None).

Definition fresh : Driver :=
  mkDriver 8080 None [] [] "stopped" false None no_capture [] false None None [] [].

Definition reader (v : value) : endpoint := demo_endpoint "x".

End DriverDemo.

(** A driver over the files of an earlier run. *)
Definition over_leftovers : Driver :=
  upd_config_file (Some [("GET /old", VNone)]) (upd_state_file (Some [("old", VNone)]) DriverDemo.fresh).

Definition demo_calls : list (World * op) :=
  [(DriverDemo.world, Start "mock" false "" 0); (DriverDemo.world, SetMock "get" "/a" 200 "{}" "application/json" "{}");
   (DriverDemo.world, ClearState)].

Lemma addon_follows_witness :
  let d' := run_all DriverDemo.cfg demo_calls over_leftovers in
  map fst (endpoints (load_config [] (addon_file DriverDemo.reader no_config 7 d') demo_addon)) = ["GET /a"] /\
  shared_state (load_state (addon_state_file 7 d') demo_addon) = [].
Proof.
  assert (Forall (fun wo : World * op => write_fails (fst wo) = None) demo_calls) as Hw by by repeat constructor.
  destruct (addon_follows DriverDemo.cfg demo_calls over_leftovers DriverDemo.reader no_config 7 demo_addon Hw
              eq_refl eq_refl ltac:(discriminate) ltac:(cbn; lia) ltac:(cbn; lia)) as [H1 H2].
  cbv zeta. rewrite H1 by reflexivity. rewrite H2 by (right; discriminate). split; reflexivity.
Defined.

(** The only scenario of the example is the text [Y]. *)
Definition captured_request : Req := ScenarioDemo.get "http://h/s" [] 1 "x".

Definition captured_scenario : value :=
  scenario_value [("http://h/s", VList [VDict [(KStr "method", VStr "GET"); (KStr "delay_ms", VInt 0);
    (KStr "response", ScenarioDemo.response "responses/GET/s.txt")]])].

Definition yaml_world : World :=
  mkWorld (fun _ => inr (VDict [])) (fun _ => inr captured_scenario) None None "/tmp/s.sock" None (inr 42%Z) true ""
    (fun _ => false) (fun _ => true) (fun _ => false) (fun _ => inr "") (fun p => normpath p) "now" (fun _ => None).

Lemma export_covers_witness :
  exists d', load_mock_scenario_content yaml_world "s.yaml" "Y" DriverDemo.fresh =
      (d', inr (Text "Loaded 1 endpoint(s) from s.yaml")) /\
    is_some (dict_get "GET /s" (mock_endpoints d')) = true.
Proof.
  destruct (export_covers (fun _ _ => true) ScenarioDemo.no_guess ScenarioDemo.no_json ScenarioDemo.no_spool (fun _ => false)
              (fun _ => "Y") yaml_world "s.yaml" "" false [captured_request] [] "Y" ["responses/GET/s.txt"]
              [("responses/GET/s.txt", "x")] DriverDemo.fresh) as (d' & H1 & _ & H3).
  - intros eps ps fs H. vm_compute in H. by injection H as <- _ _.
  - reflexivity.
  - reflexivity.
  - reflexivity.
  - exists d'. split.
    + rewrite H1. vm_compute in H1. by injection H1 as <-.
    + apply (H3 captured_request); [by left | by split].
Defined.

Lemma start_exact_witness :
  exists msg, snd (start DriverDemo.cfg DriverDemo.world "mock" false "" 0 DriverDemo.fresh) = inr (Text msg).
Proof.
  destruct (start_exact DriverDemo.cfg DriverDemo.world "mock" false "" 0 DriverDemo.fresh 42
              ltac:(by split_and!) eq_refl eq_refl eq_refl) as (msg & H & _).
  by exists msg.
Defined.

Lemma capture_lines_witness :
  capture_read_loop (fun s => inr (VStr s)) ["ab"; String "c" (String Str.newline "d"); ""] = [VStr "abc"].
Proof.
  refine (capture_lines (fun s => inr (VStr s)) ["ab"; String "c" (String Str.newline "d")] [] _). by repeat constructor.
Defined.

Lemma watch_complete_witness : watch_captured_requests [VInt 1] [[VInt 1]; [VInt 1; VInt 2]] = [VInt 1; VInt 2].
Proof.
  rewrite (watch_complete [VInt 1] [[VInt 1]; [VInt 1; VInt 2]]); [reflexivity |].
  split; [by exists [] |]. split; [by exists [VInt 2] | done].
Defined.
