(* ===== verification/MockClient.v ===== *)
(** * The client of the mock proxy

    [jumpstarter_driver_mitmproxy/client.py]: arguments as JSON, the context managers around
    mocks and sessions, captured requests, and scenarios that are saved to and loaded from a
    local directory with the files they refer to. The driver is that of [MockDriver]; a call
    reaches it directly. *)

From stdpp Require Import base list strings sets pretty.
From Stdlib Require Import ZArith Lia Ascii.
From S2P Require Import Oci Prelude PyText Flasher FlashText Storage MockValues MockTemplate MockServer MockScenario MockDriver.

Local Open Scope string_scope.
Local Open Scope list_scope.
Local Open Scope bool_scope.
Local Open Scope mock_scope.

(** ** Arguments *)

(** A body: a dictionary or list, or a text. *)
Inductive body_arg := JsonBody (v : value) | TextBody (s : string).

Section Client.

Context (cfg : Config) (w : World).
(** [json.dumps] *)
Context (dumps : value -> string).

Definition body_text (b : body_arg) : string :=
  match b with JsonBody v => dumps v | TextBody s => if truthy s then s else "{}" end.

(** [json.dumps(v or {})] *)
Definition or_empty (v : option value) : value :=
  match v with Some v => if value_truthy v then v else VDict [] | None => VDict [] end.

Definition client_set_mock (method path : string) (status : Z) (body : body_arg) (content_type : string)
    (headers : option value) : M reply :=
  set_mock w method path status (body_text body) content_type (dumps (or_empty headers)).

Definition client_set_mock_file (method path file_path content_type : string) (status : Z) (headers : option value) : M reply :=
  set_mock_file w method path file_path content_type status (dumps (or_empty headers)).

Definition client_set_mock_patch (method path : string) (patches : value) (headers : option value) : M reply :=
  set_mock_patch w method path (dumps patches) (dumps (or_empty headers)).

Definition client_set_mock_with_latency (method path : string) (status : Z) (body : body_arg) (latency_ms : Z)
    (content_type : string) : M reply :=
  set_mock_with_latency w method path status (body_text body) latency_ms content_type.

Definition client_set_mock_sequence (method path : string) (sequence : value) : M reply :=
  set_mock_sequence w method path (dumps sequence).

Definition client_set_mock_conditional (method path : string) (rules : value) : M reply :=
  set_mock_conditional w method path (dumps rules).

Definition client_set_mock_template (method path : string) (template : value) (status : Z) : M reply :=
  set_mock_template w method path (dumps template) status.

Definition client_set_mock_addon (method path addon_name : string) (addon_config : option value) : M reply :=
  set_mock_addon w method path addon_name (dumps (or_empty addon_config)).

Definition client_set_state (key : string) (v : value) : M reply := set_state w key (dumps v).

(** [json.loads(self.call("get_state", key))] *)
Definition client_get_state (key : string) : M (string + value) :=
  do* r := get_state key in
  match r with Json v => ret (loads w (dumps v)) | Text t => ret (loads w t) end.

Definition mock_error (method path : string) (status : Z) (message : string) : M reply :=
  client_set_mock method path status
    (JsonBody (VDict [(KStr "error", VStr message); (KStr "status", VInt status)])) "application/json" None.

Definition mock_timeout (method path : string) : M reply :=
  client_set_mock method path 504 (JsonBody (VDict [(KStr "error", VStr "Gateway Timeout")])) "application/json" None.

(** ** Context managers *)

(** [try: yield finally: ...] *)
Definition finally {A B} (m : M A) (fin : M B) : M A := fun d =>
  let r := m d in
  match fin (fst r) with (d', inl e) => (d', inl e) | (d', inr _) => (d', snd r) end.

Definition mock_endpoint {A} (method path : string) (status : Z) (body : body_arg) (content_type : string)
    (headers : option value) (block : M A) : M A :=
  client_set_mock method path status body content_type headers >>> finally block (remove_mock w method path).

Definition mock_patch_endpoint {A} (method path : string) (patches : value) (block : M A) : M A :=
  client_set_mock_patch method path patches None >>> finally block (remove_mock w method path).

Definition mock_conditional {A} (method path : string) (rules : value) (block : M A) : M A :=
  client_set_mock_conditional method path rules >>> finally block (remove_mock w method path).

Definition mock_scenario_context {A} (scenario_file : string) (block : M A) : M A :=
  load_mock_scenario cfg w scenario_file >>> finally block (clear_mocks w).

Definition session {A} (mode : string) (web_ui : bool) (replay_file : string) (block : M A) : M A :=
  start cfg w mode web_ui replay_file 0 >>> finally block stop.

Definition recording {A} (block : M A) : M A := session "record" false "" block.

(** ** Captured requests *)

(** [capture]: the result of the block and the snapshot taken at its end. *)
Definition capture_context {A} (block : M A) : M (A * list value) :=
  clear_captured_requests >>> (fun d =>
    let r := block d in (fst r, match snd r with inl e => inl e | inr a => inr (a, captured (fst r)) end)).

Definition get_text (k : string) (v : value) : string :=
  match v with VDict d => match vget (KStr k) d with Some (VStr s) => s | _ => "None" end | _ => "" end.

(** [assert_request_made]: the request, or the message of the assertion. *)
Definition assert_request_made (method path : string) (reqs : list value) : string + value :=
  match List.find (request_matches method path) reqs with
  | Some r => inr r
  | None =>
      let nl := String Str.newline "" in
      let paths := map (fun r => ("  " ++ get_text "method" r ++ " " ++ get_text "path" r)%string) reqs in
      inl ("Expected " ++ method ++ " " ++ path ++ " but it was not captured." ++ nl ++ "Captured requests:" ++ nl ++
           (match paths with [] => "  (none)" | _ => Str.join nl paths end))%string
  end.

(** [wait_for_request]: a reply with an error is a timeout. *)
Definition client_wait_for_request (reply : value) : string + value :=
  match reply with
  | VDict d => match vget (KStr "error") d with Some (VStr e) => inl e | Some _ => inl "" | None => inr reply end
  | _ => inr reply
  end.

(** [get_captured_file] and [get_flow_file]: the chunks, decoded and joined; [None] is an
    error of the decoder. *)
Definition join_chunks (ms : list string) : option (list Z) :=
  fold_right (fun m acc => match b64decode (Utf8.of_string m), acc with Some b, Some r => Some (b ++ r) | _, _ => None end)
    (Some []) ms.

(** ** Scenarios on the client *)

(** What the loops over [rules] and [sequence] visit: the keys of a dictionary and the letters of
    a text are no dictionaries, so only a list counts. *)
Definition list_items (v : option value) : list value := match v with Some (VList l) => l | _ => [] end.

Definition dicts (l : list value) : list vdict := omap (fun v => match v with VDict d => Some d | _ => None end) l.

(** [_collect_entries_from_item] *)
Definition collect_entries_from_item (item : vdict) : list vdict :=
  [item] ++ (match vget (KStr "response") item with Some (VDict r) => [r] | _ => [] end) ++
  dicts (list_items (vget (KStr "rules") item)) ++ dicts (list_items (vget (KStr "sequence") item)).

(** [_collect_file_entries]: over the values of the endpoints. *)
Definition collect_file_entries (endpoints : list value) : list vdict :=
  concat (map (fun ep =>
    match ep with
    | VList l => concat (map collect_entries_from_item (dicts l))
    | VDict d => collect_entries_from_item d
    | _ => []
    end) endpoints).

Definition file_ref (entry : vdict) : option string := match vget (KStr "file") entry with Some (VStr f) => Some f | _ => None end.

(** The files a scenario refers to. *)
Definition file_refs (endpoints : list value) : list string := omap file_ref (collect_file_entries endpoints).

(** [_parse_scenario_endpoints] *)
Definition parse_scenario_endpoints (name content : string) : option vdict :=
  match parse_scenario w name content with
  | inl _ => None
  | inr raw => match extract_endpoints raw with inr eps => Some eps | inl _ => None end
  end.

(** [_upload_scenario_files]: [local] is what is at a path of the scenario's directory, [unsafe]
    whether it leaves it. *)
Fixpoint upload_refs (unsafe : string -> bool) (local : string -> option string) (refs : list string) : M unit :=
  match refs with
  | [] => ret tt
  | f :: refs' =>
      (if unsafe f then ret tt
       else match local f with Some data => upload_mock_file cfg w f (Some data) >>> ret tt | None => ret tt end) >>>
      upload_refs unsafe local refs'
  end.

(** [j proxy mock load] *)
Definition mock_load (unsafe : string -> bool) (local : string -> option string) (name content : string) : M reply :=
  (match parse_scenario_endpoints name content with
   | Some eps => upload_refs unsafe local (file_refs (map snd eps))
   | None => ret tt
   end) >>> load_mock_scenario_content w name content.

(** [_mock_summary]; [text] is [str]. *)
Definition mock_summary (text : value -> string) (defn : vdict) : string :=
  let count k := match vget (KStr k) defn with
                 | Some (VList l) => Some (length l)
                 | Some (VDict l) => Some (length l)
                 | Some (VStr s) => Some (String.length s)
                 | _ => None
                 end in
  let status := text (default (VInt 200) (vget (KStr "status") defn)) in
  match count "rules", count "sequence" with
  | Some n, _ => (pretty n ++ " rule(s)")%string
  | None, Some n => (pretty n ++ " step(s)")%string
  | None, None =>
      if is_some (vget (KStr "body_template") defn) then (status ++ " (template)")%string
      else match vget (KStr "addon") defn, vget (KStr "file") defn with
           | Some a, _ => ("addon:" ++ text a)%string
           | None, Some f => (status ++ " file:" ++ text f)%string
           | None, None =>
               match vget (KStr "latency_ms") defn with
               | Some l => if value_truthy l then (status ++ " (+" ++ text l ++ "ms)")%string else status
               | None => status
               end
           end
  end.

End Client.

(** * Saved scenarios *)

(** What [j proxy capture save] writes and downloads: the scenario refers to exactly the files
    that are downloaded, in order, and every one of them exists on the exporter. *)
Section Saved.

Context (guess_extension : string -> option string) (pretty_json : string -> option string).
Context (spool : string -> option string) (escapes : string -> bool).

Abbreviation response_of := (build_scenario_response guess_extension pretty_json spool escapes).
Abbreviation entry_of := (build_entry guess_extension pretty_json spool escapes).
Abbreviation entries_for := (build_entries guess_extension pretty_json spool escapes).
Abbreviation endpoints_for := (build_grouped_endpoints guess_extension pretty_json spool escapes).

Definition opt_list {A} (o : option A) : list A := match o with Some a => [a] | None => [] end.

(** Files that are there stay. *)
Definition grows (fs fs' : list (string * string)) : Prop := forall p, is_some (dict_get p fs) = true -> is_some (dict_get p fs') = true.

Lemma write_file_spec method path ext data files rel files' :
  write_captured_file escapes method path ext data files = inr (rel, files') ->
  is_some (dict_get rel files') = true /\ grows files files'.
Proof.
  unfold write_captured_file. cbv zeta. destruct (escapes _); [done |]. intros [= <- <-].
  split; [by rewrite dict_get_set_same |]. intros p. apply dict_set_present.
Qed.

Lemma export_body_spec method key raw ct files rel files' :
  export_body_to_file guess_extension pretty_json escapes method key raw ct files = inr (rel, files') ->
  is_some (dict_get rel files') = true /\ grows files files'.
Proof.
  unfold export_body_to_file. cbv zeta. destruct (pretty_json raw) as [data|]; [| apply write_file_spec].
  destruct (write_captured_file _ _ _ ".json" data files) as [e|[rel' fs]] eqn:E; [apply write_file_spec |].
  intros [= <- <-]. by eapply write_file_spec.
Qed.

Lemma response_spec method key r files resp fpath files' :
  response_of method key r files = inr (resp, fpath, files') ->
  file_ref resp = fpath /\ Forall (fun p => is_some (dict_get p files') = true) (opt_list fpath) /\ grows files files'.
Proof.
  unfold build_scenario_response. cbv zeta. destruct (response_raw spool r) as [raw|].
  - destruct (export_body_to_file _ _ _ _ _ _ _ _) as [|[rel fs]] eqn:E; [done |]. intros [= <- <- <-].
    apply export_body_spec in E as [E1 E2]. split_and!; [| by constructor | done].
    unfold file_ref. destruct (truthy _ && _); by destruct (filtered_headers _).
  - intros [= <- <- <-]. split_and!; [| by constructor | by intros p].
    unfold file_ref. destruct (truthy _ && _); by destruct (filtered_headers _).
Qed.

Lemma entry_spec path first r files entry fpath files' :
  entry_of path first r files = inr (entry, fpath, files') ->
  (exists d, entry = VDict d /\ omap file_ref (collect_entries_from_item d) = opt_list fpath) /\
  Forall (fun p => is_some (dict_get p files') = true) (opt_list fpath) /\ grows files files'.
Proof.
  unfold build_entry. destruct (response_of _ _ _ _) as [|[[resp p] fs]] eqn:E; [done |]. intros [= <- <- <-].
  apply response_spec in E as (E1 & E2 & E3). split; [| done]. eexists. split; [done |].
  match goal with |- omap _ (collect_entries_from_item ?d) = _ =>
    assert (collect_entries_from_item d = [d; resp] /\ file_ref d = None) as [-> E0] by
      (by destruct (flatten_query (rq_query r))) end.
  cbn [omap list_omap]. rewrite E0, E1. by destruct p.
Qed.

Lemma grows_forall fs fs' ps : grows fs fs' ->
  Forall (fun p => is_some (dict_get p fs) = true) ps -> Forall (fun p => is_some (dict_get p fs') = true) ps.
Proof. intros H Hp. eapply Forall_impl; [exact Hp |]. intros p. apply H. Qed.

Lemma entries_spec path first rs files entries paths files' :
  entries_for path first rs files = inr (entries, paths, files') ->
  omap file_ref (concat (map collect_entries_from_item (dicts entries))) = paths /\
  Forall (fun p => is_some (dict_get p files') = true) paths /\ grows files files'.
Proof.
  induction rs as [|r rs IH] in files, entries, paths |- *; cbn [build_entries].
  { intros [= <- <- <-]. split_and!; [done | by constructor | by intros p]. }
  destruct (entry_of path first r files) as [|[[entry fpath] f1]] eqn:E; [done |].
  destruct (entries_for path first rs f1) as [|[[es ps] f2]] eqn:E2; [done |]. intros [= <- <- <-].
  apply entry_spec in E as ((d & -> & Hd) & H1 & G1). apply IH in E2 as (H2 & H3 & G2).
  split_and!; [| | intros p Hp; by apply G2, G1].
  - change (dicts (VDict d :: es)) with (d :: dicts es). cbn [map concat]. rewrite omap_app, H2, Hd. destruct fpath; reflexivity.
  - eapply grows_forall in H1; [| exact G2]. destruct fpath as [fp|]; [| done].
    apply (Forall_app _ [fp] ps). by split.
Qed.

(** A saved scenario refers to exactly the files that are offered for download, and all of
    them exist. *)
Theorem saved_files_complete groups files eps paths files' :
  endpoints_for groups files = inr (eps, paths, files') ->
  file_refs (map snd eps) = paths /\ Forall (fun p => is_some (dict_get p files') = true) paths.
Proof.
  enough (endpoints_for groups files = inr (eps, paths, files') ->
    file_refs (map snd eps) = paths /\ Forall (fun p => is_some (dict_get p files') = true) paths /\ grows files files') by tauto.
  unfold file_refs, collect_file_entries.
  induction groups as [|[key rs] groups IH] in files, eps, paths |- *; cbn [build_grouped_endpoints].
  { intros [= <- <- <-]. split_and!; [done | by constructor | by intros p]. }
  destruct (entries_for _ _ rs files) as [|[[es ps] f1]] eqn:E; [done |].
  destruct (endpoints_for groups f1) as [|[[eps1 ps1] f2]] eqn:E2; [done |]. intros [= <- <- <-].
  apply entries_spec in E as (H1 & H2 & G1). apply IH in E2 as (H3 & H4 & G2).
  split_and!; [| | intros p Hp; by apply G2, G1].
  - cbn [map concat snd]. by rewrite omap_app, H1, H3.
  - apply Forall_app. split; [| done]. by eapply grows_forall.
Qed.

End Saved.

(** ** What the context managers restore *)

Lemma finally_state {A B} (m : M A) (fin : M B) d : fst (finally m fin d) = fst (fin (fst (m d))).
Proof. unfold finally. by destruct (fin _) as [d' [e|b]]. Qed.

Lemma remove_mock_spec w method path d :
  write_fails w = None ->
  mock_endpoints (fst (remove_mock w method path d)) = dict_pop (mock_key method path) (mock_endpoints d) /\
  exists m, snd (remove_mock w method path d) = inr (Text m).
Proof.
  intros Hw. unfold remove_mock. cbv zeta. set (k := mock_key method path).
  rewrite (bind_returns _ _ _ d (is_some (dict_get k (mock_endpoints d)))) by done.
  unfold write_mock_config. rewrite Hw. destruct (dict_get k _) eqn:E; cbn; [eauto |].
  split; [symmetry; by apply dict_pop_absent | eauto].
Qed.

Lemma finally_removed {A} w method path (block : M A) d :
  write_fails w = None ->
  mock_endpoints (fst (finally block (remove_mock w method path) d)) =
    dict_pop (mock_key method path) (mock_endpoints (fst (block d))) /\
  snd (finally block (remove_mock w method path) d) = snd (block d).
Proof.
  intros Hw. rewrite finally_state. destruct (remove_mock_spec w method path (fst (block d)) Hw) as [H1 [m H2]].
  split; [done |]. unfold finally. destruct (remove_mock _ _ _ _) as [d' r]. cbn in H2. by rewrite H2.
Qed.

(** The endpoint and configuration a block of [mock_endpoint] runs with. *)
Definition with_endpoint (key : string) (ep : vdict) (d : Driver) : Driver :=
  let d1 := upd_endpoints (dict_set key (VDict ep) (mock_endpoints d)) d in upd_config_file (Some (mock_endpoints d1)) d1.

Lemma put_mock_returns w key ep msg d :
  write_fails w = None -> put_mock w key ep msg d = (with_endpoint key ep d, inr (Text msg)).
Proof. intros Hw. unfold put_mock, write_mock_config. by rewrite Hw. Qed.

Lemma mock_endpoint_spec {A} w dumps method path status body ct headers parsed hs (block : M A) d :
  write_fails w = None -> loads_or_empty w (body_text dumps body) = inr parsed ->
  loads_or_empty w (dumps (or_empty headers)) = inr hs ->
  let d1 := with_endpoint (mock_key method path)
    [(KStr "status", VInt status); (KStr "body", parsed); (KStr "content_type", VStr ct); (KStr "headers", hs)] d in
  let r := mock_endpoint w dumps method path status body ct headers block d in
  mock_endpoints (fst r) = dict_pop (mock_key method path) (mock_endpoints (fst (block d1))) /\ snd r = snd (block d1).
Proof.
  intros Hw Hb Hh d1. unfold mock_endpoint, client_set_mock, set_mock. cbv zeta. rewrite Hb, Hh.
  erewrite bind_returns by (by apply put_mock_returns). by apply finally_removed.
Qed.

(** A temporary endpoint: its block runs with the endpoint in place and in the configuration of
    the addon; afterwards, however the block ended, the endpoint is gone, and the other ones are
    as the block left them. *)
Theorem endpoint_scoped {A} w dumps method path status body ct headers parsed hs (block : M A) d :
  write_fails w = None -> loads_or_empty w (body_text dumps body) = inr parsed ->
  loads_or_empty w (dumps (or_empty headers)) = inr hs ->
  (forall d, dict_wf (mock_endpoints d) -> dict_wf (mock_endpoints (fst (block d)))) -> dict_wf (mock_endpoints d) ->
  let r := mock_endpoint w dumps method path status body ct headers block d in
  exists d1 ep, dict_get (mock_key method path) (mock_endpoints d1) = Some ep /\ config_file d1 = Some (mock_endpoints d1) /\
    snd r = snd (block d1) /\ dict_get (mock_key method path) (mock_endpoints (fst r)) = None /\
    forall k, k <> mock_key method path ->
      dict_get k (mock_endpoints d1) = dict_get k (mock_endpoints d) /\
      dict_get k (mock_endpoints (fst r)) = dict_get k (mock_endpoints (fst (block d1))).
Proof.
  intros Hw Hb Hh Hblock Hd. cbv zeta.
  destruct (mock_endpoint_spec w dumps method path status body ct headers parsed hs block d) as [H1 H2]; [done.. |].
  match type of H1 with context [with_endpoint ?k ?ep d] => exists (with_endpoint k ep d), (VDict ep) end.
  split; [apply dict_get_set_same |]. split; [reflexivity |]. split; [exact H2 |]. rewrite H1. split.
  - apply dict_get_pop_same, Hblock. by apply dict_set_wf.
  - intros k Hk. split; [by apply dict_get_set_other | by apply dict_get_pop_other].
Qed.

(** An endpoint of the base scenario that a temporary one overrides is not restored: it is gone
    afterwards, and the addon no longer answers it. *)
Theorem override_not_restored w dumps method path status body ct headers parsed hs d ep :
  write_fails w = None -> loads_or_empty w (body_text dumps body) = inr parsed ->
  loads_or_empty w (dumps (or_empty headers)) = inr hs -> dict_wf (mock_endpoints d) ->
  dict_get (mock_key method path) (mock_endpoints d) = Some ep ->
  dict_get (mock_key method path) (mock_endpoints (fst (mock_endpoint w dumps method path status body ct headers (ret tt) d))) = None.
Proof.
  intros Hw Hb Hh Hd _.
  destruct (mock_endpoint_spec w dumps method path status body ct headers parsed hs (ret tt) d) as [-> _]; [done.. |].
  apply dict_get_pop_same. by apply dict_set_wf.
Qed.

(** A text body that is not JSON is refused by the driver with a reply that the context manager
    drops: the block runs, and its endpoint is not there. *)
Theorem text_body_refused {A} w dumps method path status s ct headers e (block : M A) d :
  truthy s = true -> loads w s = inl e ->
  client_set_mock w dumps method path status (TextBody s) ct headers d = (d, inr (Text ("Invalid body JSON: " ++ e))) /\
  mock_endpoint w dumps method path status (TextBody s) ct headers block d = finally block (remove_mock w method path) d.
Proof.
  intros Hs He. unfold mock_endpoint.
  enough (client_set_mock w dumps method path status (TextBody s) ct headers d =
          (d, inr (Text ("Invalid body JSON: " ++ e)))) as E by (split; [done | by erewrite bind_returns]).
  unfold client_set_mock, body_text, set_mock, loads_or_empty. cbv zeta. by rewrite Hs, Hs, He.
Qed.

(** A session inside of another: the proxy is not restarted in the mode that is asked for, the
    block runs all the same, and the end of the inner session stops the proxy of the outer one. *)
Theorem nested_session_stops {A} cfg w mode web_ui replay (block : M A) d :
  running d = true ->
  session cfg w mode web_ui replay block d = finally block stop d /\
  running (fst (session cfg w mode web_ui replay block d)) = false.
Proof.
  intros Hr. assert (session cfg w mode web_ui replay block d = finally block stop d) as E.
  { unfold session. erewrite bind_returns; [reflexivity |]. unfold start. cbn [Z.eqb].
    rewrite (bind_returns _ _ _ d tt) by done. rewrite (bind_returns _ _ _ d d), Hr by done. reflexivity. }
  split; [done |]. rewrite E, finally_state. unfold stop. set (d1 := fst (block d)).
  rewrite (bind_returns _ _ _ d1 d1) by done. by destruct (running d1) eqn:E1.
Qed.

(** ** What the client sets arrives *)

(** The endpoints a client can set. *)
Inductive mock :=
  | BodyMock (status : Z) (body : body_arg) (content_type : string) (headers : option value)
  | FileMock (file_path content_type : string) (status : Z) (headers : option value)
  | PatchMock (patches : vdict) (headers : option value)
  | LatencyMock (status : Z) (body : body_arg) (latency_ms : Z) (content_type : string)
  | SequenceMock (steps : list value)
  | RulesMock (rules : list value)
  | TemplateMock (template : value) (status : Z)
  | AddonMock (name : string) (config : option value).

Definition set_client_mock (w : World) (dumps : value -> string) (method path : string) (m : mock) : M reply :=
  match m with
  | BodyMock status body ct headers => client_set_mock w dumps method path status body ct headers
  | FileMock file ct status headers => client_set_mock_file w dumps method path file ct status headers
  | PatchMock patches headers => client_set_mock_patch w dumps method path (VDict patches) headers
  | LatencyMock status body latency ct => client_set_mock_with_latency w dumps method path status body latency ct
  | SequenceMock l => client_set_mock_sequence w dumps method path (VList l)
  | RulesMock l => client_set_mock_conditional w dumps method path (VList l)
  | TemplateMock template status => client_set_mock_template w dumps method path template status
  | AddonMock name config => client_set_mock_addon w dumps method path name config
  end.

(** A field that is left out when it is empty. *)
Definition optional (k : string) (v : value) : vdict := if value_truthy v then [(KStr k, v)] else [].

(** The value a body stands for: a text is read as JSON, and no text at all is an empty
    dictionary. *)
Definition body_value (w : World) (b : body_arg) : string + value :=
  match b with
  | JsonBody v => inr v
  | TextBody s => if truthy s then loads w s else inr (VDict [])
  end.

(** What is to become of an endpoint: it is stored with a definition, or refused with a
    message, or the call raises. *)
Inductive fate := Stored (definition : vdict) | Refused (msg : string) | Raised (e : string).

Definition mock_fate (w : World) (m : mock) : fate :=
  match m with
  | BodyMock status body ct headers =>
      match body_value w body with
      | inr v => Stored [(KStr "status", VInt status); (KStr "body", v); (KStr "content_type", VStr ct);
                         (KStr "headers", or_empty headers)]
      | inl e => Refused ("Invalid body JSON: " ++ e)
      end
  | FileMock file ct status headers =>
      let guessed := match guess_type w file with Some t => if truthy t then t else "application/octet-stream"
                                                | None => "application/octet-stream" end in
      Stored ([(KStr "status", VInt status); (KStr "file", VStr file);
               (KStr "content_type", VStr (if truthy ct then ct else guessed))] ++ optional "headers" (or_empty headers))
  | PatchMock patches headers => Stored ((KStr "patch", VDict patches) :: optional "headers" (or_empty headers))
  | LatencyMock status body latency ct =>
      match body_value w body with
      | inr v => Stored [(KStr "status", VInt status); (KStr "body", v); (KStr "content_type", VStr ct);
                         (KStr "latency_ms", VInt latency)]
      | inl e => Raised e
      end
  | SequenceMock [] => Refused "Sequence must be a non-empty JSON array"
  | SequenceMock l => Stored [(KStr "sequence", VList l)]
  | RulesMock [] => Refused "Rules must be a non-empty JSON array"
  | RulesMock l => Stored [(KStr "rules", VList l)]
  | TemplateMock template status => Stored [(KStr "status", VInt status); (KStr "body_template", template)]
  | AddonMock name config => Stored ((KStr "addon", VStr name) :: optional "addon_config" (or_empty config))
  end.

Definition body_values (b : body_arg) : list value := match b with JsonBody v => [v] | TextBody _ => [] end.

(** The values that go as JSON. *)
Definition sent_values (m : mock) : list value :=
  match m with
  | BodyMock _ body _ headers => or_empty headers :: body_values body
  | FileMock _ _ _ headers => [or_empty headers]
  | PatchMock patches headers => [VDict patches; or_empty headers]
  | LatencyMock _ body _ _ => body_values body
  | SequenceMock l | RulesMock l => [VList l]
  | TemplateMock template _ => [template]
  | AddonMock _ config => [or_empty config]
  end.

Definition json_exact (w : World) (dumps : value -> string) (v : value) : Prop :=
  truthy (dumps v) = true /\ loads w (dumps v) = inr v.

Lemma json_exact_or_empty w dumps v : json_exact w dumps v -> loads_or_empty w (dumps v) = inr v.
Proof. intros [H1 H2]. unfold loads_or_empty. by rewrite H1. Qed.

Lemma json_exact_headers w dumps h d :
  json_exact w dumps (or_empty h) -> extra_headers w (dumps (or_empty h)) d = (d, inr (optional "headers" (or_empty h))).
Proof. intros H. unfold extra_headers. by rewrite json_exact_or_empty. Qed.

(** What the driver reads of a body is what the body stands for. *)
Lemma body_arrives w dumps b :
  loads w "{}" = inr (VDict []) -> Forall (json_exact w dumps) (body_values b) ->
  loads_or_empty w (body_text dumps b) = body_value w b.
Proof.
  intros He Hb. destruct b as [v|s]; cbn in *.
  - apply Forall_cons in Hb as [Hb _]. by apply json_exact_or_empty.
  - unfold loads_or_empty. destruct (truthy s) eqn:E; [by rewrite E | exact He].
Qed.

(** The driver's state and answer once an endpoint is stored: where the configuration cannot
    be written, the driver has the endpoint and the call raises. *)
Definition after_store (w : World) (key : string) (ep : vdict) (msg : string) (d : Driver) : Driver * (failure + reply) :=
  match write_fails w with
  | None => (with_endpoint key ep d, inr (Text msg))
  | Some e => (upd_endpoints (dict_set key (VDict ep) (mock_endpoints d)) d, inl (Failure e))
  end.

Lemma put_mock_stores w key ep msg d : put_mock w key ep msg d = after_store w key ep msg d.
Proof. unfold put_mock, write_mock_config, after_store. by destruct (write_fails w). Qed.

(** C39: Where reading gives back what was written as JSON, an endpoint that a client sets
    with any of the eight calls is stored by the driver under its method and path with the
    definition it stands for, and written to the configuration of the addon (if that cannot be
    written, the call raises and only the driver has the endpoint); nothing else of the driver
    changes. A text body is taken as JSON, no body as an empty dictionary; a text that is not
    JSON and an empty sequence or list of rules change nothing, and the answer is a message (an
    exception for such a text of an endpoint with latency). *)
Theorem mocks_arrive w dumps method path m d :
  loads w "{}" = inr (VDict []) -> Forall (json_exact w dumps) (sent_values m) ->
  match mock_fate w m with
  | Stored ep => exists msg, set_client_mock w dumps method path m d = after_store w (mock_key method path) ep msg d
  | Refused msg => set_client_mock w dumps method path m d = (d, inr (Text msg))
  | Raised e => set_client_mock w dumps method path m d = (d, inl (Failure e))
  end.
Proof.
  intros He Hj.
  destruct m as [st b ct h|f ct st h|ps h|st b lat ct|l|l|t st|n c]; cbn [set_client_mock mock_fate sent_values] in *.
  - apply Forall_cons in Hj as [Hh Hj]. unfold client_set_mock, set_mock. cbv zeta. rewrite body_arrives by done.
    destruct (body_value w b); [done |]. rewrite json_exact_or_empty by done. eexists. apply put_mock_stores.
  - apply Forall_cons in Hj as [Hh _]. unfold client_set_mock_file, set_mock_file. cbv zeta.
    destruct (guess_type w f) as [g|]; eexists;
      (erewrite bind_returns by (by apply json_exact_headers)); apply put_mock_stores.
  - apply Forall_cons in Hj as [Hp [Hh _]%Forall_cons]. unfold client_set_mock_patch, set_mock_patch. rewrite (proj2 Hp).
    eexists. erewrite bind_returns by (by apply json_exact_headers). apply put_mock_stores.
  - unfold client_set_mock_with_latency, set_mock_with_latency. cbv zeta. rewrite body_arrives by done.
    destruct (body_value w b); [done |]. eexists. apply put_mock_stores.
  - apply Forall_cons in Hj as [Hl _]. unfold client_set_mock_sequence, set_mock_sequence, set_mock_list.
    rewrite (proj2 Hl). destruct l; [done |]. eexists. apply put_mock_stores.
  - apply Forall_cons in Hj as [Hl _]. unfold client_set_mock_conditional, set_mock_conditional, set_mock_list.
    rewrite (proj2 Hl). destruct l; [done |]. eexists. apply put_mock_stores.
  - apply Forall_cons in Hj as [Ht _]. unfold client_set_mock_template, set_mock_template. rewrite (proj2 Ht).
    eexists. apply put_mock_stores.
  - apply Forall_cons in Hj as [Hc _]. unfold client_set_mock_addon, set_mock_addon. rewrite (proj2 Hc).
    eexists. apply put_mock_stores.
Qed.

(** A value of the shared state is read back as it was set. *)
Theorem state_roundtrip w dumps key v d :
  write_fails w = None -> (forall v, loads w (dumps v) = inr v) ->
  let d' := fst (client_set_state w dumps key v d) in
  snd (client_get_state w dumps key d') = inr (inr v) /\ state_file d' = Some (state_store d').
Proof.
  intros Hw Hl. unfold client_set_state, set_state, write_state. rewrite Hl, Hw. cbv zeta.
  unfold client_get_state, get_state. split; [| done]. cbn. by rewrite dict_get_set_same, Hl.
Qed.

(** ** Downloads *)

Lemma of_string_app a b : Utf8.of_string (a ++ b)%string = Utf8.of_string a ++ Utf8.of_string b.
Proof. induction a as [|c a IH]; [done |]. rewrite Str.sapp_cons. cbn [Utf8.of_string]. by rewrite IH. Qed.

(** The chunks a file is sent in give the file. *)
Theorem download_exact content : join_chunks (file_chunks content) = Some (Utf8.of_string content).
Proof.
  destruct (file_chunks_decoded content) as [H1 H2]. rewrite <- H2 at 2. clear H2. revert H1.
  generalize (file_chunks content) as ms, (chunks (String.length content) FILE_CHUNK content) as cs. clear content.
  unfold join_chunks. induction ms as [|m ms IH]; intros [|c cs]; cbn [map]; try done. intros [= Hm Hms].
  rewrite concat_strings_cons, of_string_app. cbn [fold_right]. by rewrite Hm, (IH cs).
Qed.

(** ** Captured requests *)

(** The request that is found is one of the captured ones, it matches, and no earlier one does;
    otherwise the assertion fails exactly when none matches. *)
Theorem assert_request_exact method path reqs :
  match assert_request_made method path reqs with
  | inr r => exists before after, reqs = before ++ r :: after /\ request_matches method path r = true /\
               Forall (fun q => request_matches method path q = false) before
  | inl _ => Forall (fun q => request_matches method path q = false) reqs
  end.
Proof.
  unfold assert_request_made. destruct (List.find _ _) as [r|] eqn:E.
  - induction reqs as [|q reqs IH]; cbn in E; [done |]. destruct (request_matches method path q) eqn:Eq.
    + injection E as ->. by exists [], reqs.
    + destruct (IH E) as (b & a & -> & H1 & H2). exists (q :: b), a. split; [done |]. split; [done |]. by constructor.
  - apply List.Forall_forall. intros q Hq. by eapply find_none in E.
Qed.

(** ** Witnesses *)

Lemma saved_files_complete_witness :
  file_refs [VList [VDict [(KStr "method", VStr "GET"); (KStr "delay_ms", VInt 0);
                           (KStr "response", ScenarioDemo.response "responses/GET/s.txt")]]] = ["responses/GET/s.txt"].
Proof.
  exact (proj1 (saved_files_complete ScenarioDemo.no_guess ScenarioDemo.no_json ScenarioDemo.no_spool (fun _ => false)
           [("http://h/s", [ScenarioDemo.get "http://h/s" [] 1 "x"])] [] _ _ _ eq_refl)).
Defined.

Lemma endpoint_scoped_witness :
  dict_get "GET /a" (mock_endpoints (fst (mock_endpoint DriverDemo.world (fun _ => "{}") "get" "/a" 200 (JsonBody (VDict [])) "text/plain"
    None (ret tt) DriverDemo.fresh))) = None.
Proof.
  destruct (endpoint_scoped DriverDemo.world (fun _ => "{}") "get" "/a" 200 (JsonBody (VDict [])) "text/plain" None (VDict []) (VDict [])
              (ret tt) DriverDemo.fresh) as (d1 & ep & _ & _ & _ & H & _);
    [reflexivity | reflexivity | reflexivity | by intros | by apply NoDup_nil | exact H].
Defined.

Lemma mocks_arrive_witness :
  dict_get "GET /a" (mock_endpoints (fst (set_client_mock DriverDemo.world (fun _ => "{}") "get" "/a" (FileMock "a.bin" "" 200 None)
    DriverDemo.fresh))) =
  Some (VDict [(KStr "status", VInt 200); (KStr "file", VStr "a.bin"); (KStr "content_type", VStr "application/octet-stream")]) /\
  fst (set_client_mock DriverDemo.world (fun _ => "[]") "get" "/a" (BodyMock 200 (TextBody "") "text/plain" None) DriverDemo.fresh) =
  with_endpoint "GET /a" [(KStr "status", VInt 200); (KStr "body", VDict []); (KStr "content_type", VStr "text/plain");
                          (KStr "headers", VDict [])] DriverDemo.fresh.
Proof.
  split.
  - destruct (mocks_arrive DriverDemo.world (fun _ => "{}") "get" "/a" (FileMock "a.bin" "" 200 None) DriverDemo.fresh) as [msg ->];
      [reflexivity | by repeat constructor | reflexivity].
  - destruct (mocks_arrive DriverDemo.world (fun _ => "[]") "get" "/a" (BodyMock 200 (TextBody "") "text/plain" None)
                DriverDemo.fresh) as [msg ->]; [reflexivity | by repeat constructor | reflexivity].
Defined.
