(* ===== verification/McpConnections.v ===== *)
(** * Connections of the MCP server

    [jumpstarter_mcp/connections.py]: the manager that keeps connections to exporters open in
    background tasks, and the tools of [jumpstarter_mcp/tools/connections.py] and
    [tools/commands.py] that use them.

    The manager is a machine: every action is what happens between two awaits of one of its
    coroutines, or of the task group they run in. [step] is [None] where the action is not
    possible. A task is named by the number of its event; connection ids are whatever
    [uuid4] gives, so that two tasks may have the same. *)

From stdpp Require Import base list strings sets pretty.
From Stdlib Require Import ZArith Lia Ascii.
From S2P Require Import Prelude PyText LeaseContext Hooks Auth CliErrors DriverTree Connect.

Local Open Scope string_scope.
Local Open Scope list_scope.
Local Open Scope bool_scope.

(** ** Connections *)

Record Connection := mkConnection {
  id : string;
  lease_name : string;
  exporter_name : string;
  socket_path : string;
  allow : list string;
  unsafe : bool;
  created_at : Z;
  client : client_node
}.

(** The flags and the name of a lease. *)
Record LeaseFlags := mkLeaseFlags { ls_name : string; lease_transferred : bool; lease_ended : bool }.

(** The background task of a connection: not yet run, with its portal, with its stack, and
    after [task_status.started]. *)
Inductive phase := Starting | Opening | Binding | Serving (c : Connection).

Record Task := mkTask { t_id : string; t_event : nat; t_phase : phase }.

(** What the event loop and the task group of [running] know: the next event and those that
    are set, the live tasks, the calls of [connect] whose task failed and that have not yet
    been told, whether the group is cancelled, the exceptions of its tasks and of its body,
    whether it was left, and the notifications that were sent. *)
Record Loop := mkLoop {
  next_event : nat;
  set_events : list nat;
  tasks : list Task;
  failed : list (string * exc);
  cancelled : bool;
  errors : list exc;
  exited : bool;
  logs : list (string * string)
}.

#[local] Instance set_next_event : Setter next_event := fun u r =>
  mkLoop (u (next_event r)) (set_events r) (tasks r) (failed r) (cancelled r) (errors r) (exited r) (logs r).
#[local] Instance set_set_events : Setter set_events := fun u r =>
  mkLoop (next_event r) (u (set_events r)) (tasks r) (failed r) (cancelled r) (errors r) (exited r) (logs r).
#[local] Instance set_tasks : Setter tasks := fun u r =>
  mkLoop (next_event r) (set_events r) (u (tasks r)) (failed r) (cancelled r) (errors r) (exited r) (logs r).
#[local] Instance set_failed : Setter failed := fun u r =>
  mkLoop (next_event r) (set_events r) (tasks r) (u (failed r)) (cancelled r) (errors r) (exited r) (logs r).
#[local] Instance set_cancelled : Setter cancelled := fun u r =>
  mkLoop (next_event r) (set_events r) (tasks r) (failed r) (u (cancelled r)) (errors r) (exited r) (logs r).
#[local] Instance set_errors : Setter errors := fun u r =>
  mkLoop (next_event r) (set_events r) (tasks r) (failed r) (cancelled r) (u (errors r)) (exited r) (logs r).
#[local] Instance set_exited : Setter exited := fun u r =>
  mkLoop (next_event r) (set_events r) (tasks r) (failed r) (cancelled r) (errors r) (u (exited r)) (logs r).
#[local] Instance set_logs : Setter logs := fun u r =>
  mkLoop (next_event r) (set_events r) (tasks r) (failed r) (cancelled r) (errors r) (exited r) (u (logs r)).

(** The fields of [ConnectionManager]; a portal and a stack are the number of their task's
    event. *)
Record Manager := mkManager {
  connections : list (string * Connection);
  portals : list (string * nat);
  stacks : list (string * nat);
  cleanup_events : list (string * nat);
  task_group : bool;
  log_callback : bool;
  loop : Loop
}.

(** The manager inside of [running]. *)
Definition started (callback : bool) : Manager :=
  mkManager [] [] [] [] true callback (mkLoop 0 [] [] [] false [] false []).

Definition on_loop (f : Loop -> Loop) (m : Manager) : Manager :=
  mkManager (connections m) (portals m) (stacks m) (cleanup_events m) (task_group m) (log_callback m) (f (loop m)).

Definition put_log (level message : string) (m : Manager) : Manager :=
  if log_callback m then on_loop (fun r => r <| logs ::= fun l => l ++ [(level, message)] |>) m else m.

Definition set_event (e : nat) (m : Manager) : Manager := on_loop (fun r => r <| set_events ::= cons e |>) m.

(** The [finally] of [_run_connection]. *)
Definition forget (i : string) (m : Manager) : Manager :=
  mkManager (dict_pop i (connections m)) (dict_pop i (portals m)) (dict_pop i (stacks m)) (dict_pop i (cleanup_events m))
    (task_group m) (log_callback m) (loop m).

Definition task_at (n : nat) (m : Manager) : option Task := List.find (fun t => Nat.eqb (t_event t) n) (tasks (loop m)).

Definition without (n : nat) (ts : list Task) : list Task := List.filter (fun t => negb (Nat.eqb (t_event t) n)) ts.

(** The task leaves: its [finally], and it is no longer alive. *)
Definition end_task (t : Task) (m : Manager) : Manager :=
  on_loop (fun r => r <| tasks ::= without (t_event t) |>) (forget (t_id t) m).

(** The group gets an exception: it is cancelled. *)
Definition fail_group (e : exc) (m : Manager) : Manager :=
  on_loop (fun r => r <| cancelled := true |> <| errors ::= fun l => l ++ [e] |>) m.

Definition is_set (e : nat) (m : Manager) : bool := existsb (Nat.eqb e) (set_events (loop m)).

(** ** Exceptions *)

Definition connection_error (msg : string) : exc := Leaf [CConnectionError; COSError; CException] msg NoAttr NoAttr.
Definition runtime_error (msg : string) : exc := Leaf [CException] msg NoAttr NoAttr.
Definition key_error (msg : string) : exc := Leaf [CException] msg NoAttr NoAttr.

(** [_unwrap_exception] *)
Fixpoint unwrap_exception (e : exc) : exc :=
  match e with
  | Group _ [e'] => unwrap_exception e'
  | _ => e
  end.

(** [_check_lease_error] *)
Definition lease_error (lease : option LeaseFlags) : option exc :=
  match lease with
  | None => None
  | Some l =>
      if lease_transferred l
      then Some (connection_error ("Lease " ++ ls_name l ++ " has been transferred to another client. The session is no longer valid."))
      else if lease_ended l then Some (connection_error ("Lease " ++ ls_name l ++ " has expired."))
      else None
  end.

(** The [except] of [_run_connection]: what is raised for [e]. *)
Definition check_lease_error (lease : option LeaseFlags) (e : exc) : exc := default e (lease_error lease).

(** What [connect] raises for an exception of its task. *)
Definition connect_error (e : exc) : exc :=
  let unwrapped := unwrap_exception e in
  if isinstance unwrapped CConnectionError then unwrapped
  else connection_error ("Failed to connect: " ++ exc_text unwrapped).

(** ** Actions *)

Inductive action :=
| AConnect (i : string)                                    (** [connect] up to the start of its task *)
| APortal (n : nat)                                        (** the task runs and has its portal *)
| AStack (n : nat)                                         (** the lease is there and the stack *)
| AOpened (n : nat) (c : Connection)                       (** the client is there: [task_status.started] *)
| AOpenFailed (n : nat) (lease : option LeaseFlags) (e : exc)
| AConnectRaises (i : string)                              (** the [except] of [connect] *)
| AEnding (n : nat) (lease exporter : string) (remaining : Z)  (** a notification, with the seconds that remain *)
| ATransferred (n : nat) (lease : string)                  (** [_watch_lease_transfer] sees the flag *)
| ADisconnect (i : string)
| ALeft (n : nat)                                          (** a task whose event is set has left its contexts *)
| ACrashed (n : nat) (lease : option LeaseFlags) (e : exc) (** an exception after [started] *)
| ACancelled (n : nat) (lease : option LeaseFlags) (told : bool)  (** a task is cancelled with its group, or with its [connect] *)
| ACancelGroup                                             (** the server is cancelled from outside *)
| AShutdown (body : option exc)                            (** the body of [running] ends *)
| AExit.                                                   (** the group has waited for its tasks *)

Inductive outcome := Nothing | Connected (c : Connection) | Raised (e : exc).

(** [connect] registers a new event; without a task group it raises after that. *)
Definition begin_task (i : string) (m : Manager) : Manager * outcome :=
  let e := next_event (loop m) in
  let m1 := mkManager (connections m) (portals m) (stacks m) (dict_set i e (cleanup_events m)) (task_group m) (log_callback m)
              (loop m <| next_event := S e |>) in
  if task_group m then (on_loop (fun r => r <| tasks ::= fun ts => ts ++ [mkTask i e Starting] |>) m1, Nothing)
  else (m1, Raised (runtime_error "ConnectionManager not started - use 'async with manager.running()'")).

Definition set_phase (n : nat) (p : phase) (m : Manager) : Manager :=
  on_loop (fun r => r <| tasks ::= map (fun u => if Nat.eqb (t_event u) n then mkTask (t_id u) n p else u) |>) m.

Definition portal_task (t : Task) (m : Manager) : Manager :=
  set_phase (t_event t) Opening
    (mkManager (connections m) (dict_set (t_id t) (t_event t) (portals m)) (stacks m) (cleanup_events m) (task_group m)
       (log_callback m) (loop m)).

Definition stack_task (t : Task) (m : Manager) : Manager :=
  set_phase (t_event t) Binding
    (mkManager (connections m) (portals m) (dict_set (t_id t) (t_event t) (stacks m)) (cleanup_events m) (task_group m)
       (log_callback m) (loop m)).

Definition serve_task (t : Task) (c : Connection) (m : Manager) : Manager :=
  set_phase (t_event t) (Serving c)
    (mkManager (dict_set (t_id t) c (connections m)) (portals m) (stacks m) (cleanup_events m) (task_group m)
       (log_callback m) (loop m)).

(** A task fails while its [connect] waits for it: the call will be told. *)
Definition fail_open (t : Task) (e : exc) (m : Manager) : Manager :=
  on_loop (fun r => r <| failed ::= fun l => l ++ [(t_id t, e)] |>) (end_task t m).

(** The [except] of [connect]. *)
Definition connect_raises (i : string) (e : exc) (m : Manager) : Manager * outcome :=
  (mkManager (connections m) (portals m) (stacks m) (dict_pop i (cleanup_events m)) (task_group m) (log_callback m)
     (loop m <| failed ::= dict_pop i |>), Raised (connect_error e)).

(** [disconnect] *)
Definition disconnect (i : string) (m : Manager) : Manager * outcome :=
  if is_some (dict_get i (connections m)) then
    let m1 := match dict_get i (cleanup_events m) with Some e => set_event e m | None => m end in
    (forget i m1, Nothing)
  else (m, Raised (key_error ("No connection with id " ++ i))).

(** The [finally] of [running]. *)
Definition shutdown (m : Manager) : Manager :=
  mkManager [] [] [] [] false (log_callback m)
    (loop m <| set_events ::= fun l => map snd (cleanup_events m) ++ l |>).

Definition ending_message (i lease exporter : string) (remaining : Z) : string * string :=
  if (remaining <=? 0)%Z
  then ("error", ("Lease " ++ lease ++ " for " ++ exporter ++ " has expired. Connection " ++ i ++ " is no longer valid.")%string)
  else ("warning", ("Lease " ++ lease ++ " for " ++ exporter ++ " will expire in ~" ++ pretty (Z.max 1 (remaining / 60)) ++
                    " minute(s).")%string).

Definition lease_ending (t : Task) (lease exporter : string) (remaining : Z) (m : Manager) : Manager :=
  let '(level, message) := ending_message (t_id t) lease exporter remaining in
  let m1 := put_log level message m in
  if (remaining <=? 0)%Z then set_event (t_event t) m1 else m1.

Definition lease_moved (t : Task) (c : Connection) (lease : string) (m : Manager) : Manager :=
  set_event (t_event t) (put_log "error" ("Lease " ++ lease ++ " for " ++ exporter_name c ++
    " has been transferred to another client. Connection " ++ t_id t ++ " is no longer valid.")%string m).

(** The group is left: it raises what its tasks and its body raised. *)
Definition exit_group (m : Manager) : Manager * outcome :=
  (on_loop (fun r => r <| exited := true |>) m,
   match errors (loop m) with [] => Nothing | es => Raised (Group "unhandled errors in a TaskGroup" es) end).

Definition step (m : Manager) (a : action) : option (Manager * outcome) :=
  match a with
  | AConnect i => Some (begin_task i m)
  | APortal n =>
      match task_at n m with
      | Some (mkTask _ _ Starting as t) => Some (portal_task t m, Nothing)
      | _ => None
      end
  | AStack n =>
      match task_at n m with
      | Some (mkTask _ _ Opening as t) => Some (stack_task t m, Nothing)
      | _ => None
      end
  | AOpened n c =>
      match task_at n m with
      | Some (mkTask i _ Binding as t) => if String.eqb (id c) i then Some (serve_task t c m, Connected c) else None
      | _ => None
      end
  | AOpenFailed n lease e =>
      match task_at n m with
      | None | Some (mkTask _ _ (Serving _)) => None
      | Some t => Some (fail_open t (check_lease_error lease e) m, Nothing)
      end
  | AConnectRaises i =>
      match dict_get i (failed (loop m)) with Some e => Some (connect_raises i e m) | None => None end
  | AEnding n lease exporter remaining =>
      match task_at n m with
      | Some (mkTask _ _ (Serving _) as t) => Some (lease_ending t lease exporter remaining m, Nothing)
      | _ => None
      end
  | ATransferred n lease =>
      match task_at n m with
      | Some (mkTask _ _ (Serving c) as t) => Some (lease_moved t c lease m, Nothing)
      | _ => None
      end
  | ADisconnect i => Some (disconnect i m)
  | ALeft n =>
      match task_at n m with
      | Some (mkTask _ _ (Serving _) as t) => if is_set (t_event t) m then Some (end_task t m, Nothing) else None
      | _ => None
      end
  | ACrashed n lease e =>
      match task_at n m with
      | Some (mkTask _ _ (Serving _) as t) => Some (fail_group (check_lease_error lease e) (end_task t m), Nothing)
      | _ => None
      end
  | ACancelled n lease told =>
      match task_at n m with
      | Some (mkTask _ _ (Serving _) as t) =>
          let m1 := if told then fail_open t (Leaf [CCancelled] "" NoAttr NoAttr) m else end_task t m in
          Some (match lease_error lease with Some e => fail_group e m1 | None => m1 end, Nothing)
      | _ => None
      end
  | ACancelGroup => Some (on_loop (fun r => r <| cancelled := true |>) m, Nothing)
  | AShutdown body =>
      if task_group m then Some (match body with Some e => fail_group e (shutdown m) | None => shutdown m end, Nothing) else None
  | AExit =>
      match task_group m, tasks (loop m), exited (loop m) with
      | false, [], false => Some (exit_group m)
      | _, _, _ => None
      end
  end.

Fixpoint steps (m : Manager) (l : list action) : option Manager :=
  match l with
  | [] => Some m
  | a :: l' => match step m a with Some (m', _) => steps m' l' | None => None end
  end.

(** ** Lookups *)

Definition get_connection (i : string) (m : Manager) : exc + Connection :=
  match dict_get i (connections m) with
  | Some c => inr c
  | None => inl (key_error ("No connection with id " ++ i))
  end.

Record Listed := mkListed { li_id : string; li_lease : string; li_exporter : string; li_socket : string; li_uptime : Z }.

Definition list_connections (now : Z) (m : Manager) : list Listed :=
  map (fun ic => let c := snd ic in mkListed (id c) (lease_name c) (exporter_name c) (socket_path c) (now - created_at c))
    (connections m).

(** The variables for [j] and [env()]. *)
Definition connection_env (c : Connection) : list (string * string) :=
  [(JUMPSTARTER_HOST, socket_path c);
   (JMP_DRIVERS_ALLOW, if unsafe c then "UNSAFE" else Str.join "," (allow c));
   ("_JMP_SUPPRESS_DRIVER_WARNINGS", "1")].

Record EnvInfo := mkEnvInfo { ei_connection : Connection; ei_env : list (string * string); ei_shell_example : string }.

Definition get_env (j_path : option string) (i : string) (m : Manager) : exc + EnvInfo :=
  match get_connection i m with
  | inl e => inl e
  | inr c => inr (mkEnvInfo c (connection_env c)
                    ("JUMPSTARTER_HOST=" ++ socket_path c ++ " " ++ default "None" j_path ++ " power on")%string)
  end.

(** ** Running a command *)

(** What [communicate] gives before the timeout, or what is read after the kill. *)
Inductive process_end := Exited (code : Z) (out err : string) | Killed (code : Z) (out err : string) | SpawnFails (e : exc).

Inductive run_result :=
| JMissing
| Finished (code : Z) (out err : string) (command : list string)
| TimedOut (code : Z) (out err : string) (timeout : Z) (command : list string).

(** [run_command]: [world] runs a program with arguments and environment. *)
Definition run_command (j_path : option string) (environ : list (string * string))
    (world : list string -> list (string * string) -> process_end) (i : string) (command : list string) (timeout : Z) (m : Manager)
    : exc + run_result :=
  match get_connection i m with
  | inl e => inl e
  | inr c =>
      match j_path with
      | None => inr JMissing
      | Some j =>
          match world (j :: command) (dict_update environ (connection_env c)) with
          | Exited code out err => inr (Finished code out err (j :: command))
          | Killed code out err => inr (TimedOut code out err timeout (j :: command))
          | SpawnFails e => inl e
          end
      end
  end.

(** [ClientConfigV1Alpha1Drivers]: what the variable means to the client that reads it. *)
Definition decode_allow (v : string) : list string * bool :=
  let l := Str.split_char ","%char v in (l, existsb (String.eqb "UNSAFE") l).

(** * The invariant *)

Abbreviation live m := (tasks (loop m)).

Definition has_task (i : string) (m : Manager) : Prop := exists t, In t (live m) /\ t_id t = i.

(** [used] are the ids that were given out. *)
Record Inv (used : list string) (m : Manager) : Prop := {
  inv_used : forall t, In t (live m) -> In (t_id t) used /\ t_event t < next_event (loop m);
  inv_ids : forall t u, In t (live m) -> In u (live m) -> t_id t = t_id u -> t = u;
  inv_numbers : forall t u, In t (live m) -> In u (live m) -> t_event t = t_event u -> t = u;
  inv_failed : forall i e, In (i, e) (failed (loop m)) -> In i used /\ ~ has_task i m;
  inv_connections : forall i c, dict_get i (connections m) = Some c ->
    id c = i /\ exists t, In t (live m) /\ t_id t = i /\ t_phase t = Serving c;
  inv_portals : forall i, is_some (dict_get i (portals m)) = true -> has_task i m;
  inv_stacks : forall i, is_some (dict_get i (stacks m)) = true -> has_task i m;
  inv_events : task_group m = true -> forall i e, dict_get i (cleanup_events m) = Some e ->
    exists t, In t (live m) /\ t_id t = i /\ t_event t = e;
  inv_stop : forall t, In t (live m) -> is_set (t_event t) m = true \/ dict_get (t_id t) (cleanup_events m) = Some (t_event t);
  inv_wf : dict_wf (connections m) /\ dict_wf (portals m) /\ dict_wf (stacks m) /\ dict_wf (cleanup_events m)
}.

(** ** Lemmas on tasks *)

Lemma task_at_some n m t : task_at n m = Some t -> In t (live m) /\ t_event t = n.
Proof. intros H. apply find_some in H as [H1 H2]. by apply Nat.eqb_eq in H2. Qed.

Lemma In_without n t ts : In t (without n ts) <-> In t ts /\ t_event t <> n.
Proof.
  unfold without. rewrite filter_In, negb_true_iff. destruct (Nat.eqb_spec (t_event t) n); split; intuition congruence.
Qed.

Lemma get_pop i j {A} (d : list (string * A)) : dict_wf d ->
  dict_get j (dict_pop i d) = if String.eqb i j then None else dict_get j d.
Proof.
  intros Hd. destruct (String.eqb_spec i j) as [->|]; [by apply dict_get_pop_same | by apply dict_get_pop_other].
Qed.

Lemma get_set i j {A} (v : A) d : dict_get j (dict_set i v d) = if String.eqb i j then Some v else dict_get j d.
Proof.
  destruct (String.eqb_spec i j) as [->|]; [by apply dict_get_set_same | by apply dict_get_set_other].
Qed.

Lemma dict_get_snd {A} i (v : A) d : dict_get i d = Some v -> In v (map snd d).
Proof.
  induction d as [|[k w] d IH]; [done |]. cbn. destruct (String.eqb i k); [intros [= ->]; by left | by right; apply IH].
Qed.

Lemma dict_get_In {A} i (v : A) d : dict_get i d = Some v -> In (i, v) d.
Proof.
  induction d as [|[k w] d IH]; [done |]. cbn. destruct (String.eqb_spec i k) as [->|]; [intros [= ->]; by left | by right; apply IH].
Qed.

Lemma In_pop {A} i (x : string * A) d : In x (dict_pop i d) -> In x d.
Proof.
  induction d as [|[k w] d IH]; [done |]. cbn. destruct (String.eqb i k); [by right |]. intros [<-|H]; [by left | right; auto].
Qed.

Lemma is_set_app e l m : is_set e m = true -> existsb (Nat.eqb e) (l ++ set_events (loop m)) = true.
Proof. intros H. rewrite existsb_app, orb_true_iff. by right. Qed.

Lemma is_set_in e l m : In e l -> existsb (Nat.eqb e) (l ++ set_events (loop m)) = true.
Proof. intros H. rewrite existsb_app, orb_true_iff. left. apply existsb_exists. exists e. by rewrite Nat.eqb_refl. Qed.

(** ** Actions keep the invariant *)

Lemma inv_more used used' m : (forall i, In i used -> In i used') -> Inv used m -> Inv used' m.
Proof.
  intros Hsub H. destruct H. constructor; try done.
  - intros t Ht. destruct (inv_used0 t Ht). auto.
  - intros i e Hi. destruct (inv_failed0 i e Hi). auto.
Qed.

(** Changes of the loop that leave its tasks alone. *)
Lemma on_loop_inv used f m :
  tasks (f (loop m)) = live m -> failed (f (loop m)) = failed (loop m) -> next_event (f (loop m)) = next_event (loop m) ->
  (forall e, is_set e m = true -> is_set e (on_loop f m) = true) -> Inv used m -> Inv used (on_loop f m).
Proof.
  intros Ht Hf Hn Hs H. destruct H. constructor; unfold has_task in *; cbn; rewrite ?Ht, ?Hf, ?Hn; try done.
  intros t Hin. destruct (inv_stop0 t Hin); auto.
Qed.

Lemma put_log_inv used level message m : Inv used m -> Inv used (put_log level message m).
Proof. intros H. unfold put_log. destruct (log_callback m); [| done]. by apply on_loop_inv. Qed.

Lemma set_event_inv used e m : Inv used m -> Inv used (set_event e m).
Proof. apply on_loop_inv; try done. intros n Hn. by apply (is_set_app _ [e]). Qed.

Lemma fail_group_inv used e m : Inv used m -> Inv used (fail_group e m).
Proof. by apply on_loop_inv. Qed.

Lemma begin_task_inv used i m : ~ In i used -> Inv used m -> Inv (i :: used) (fst (begin_task i m)).
Proof.
  intros Hi H. assert (forall t, In t (live m) -> t_id t <> i) as Hne
    by (intros t Ht E; apply Hi; rewrite <- E; by apply (inv_used _ _ H)).
  assert (forall j e, In (j, e) (failed (loop m)) -> j <> i) as Hnf
    by (intros j e Hj ->; by apply Hi, (inv_failed _ _ H i e)).
  apply (inv_more _ (i :: used)) in H; [| by right]. destruct H. destruct inv_wf0 as (? & ? & ? & ?).
  unfold begin_task. destruct (task_group m) eqn:Eg; cbn [fst].
  - set (n := next_event (loop m)) in *.
    assert (forall t, In t (live m ++ [mkTask i n Starting]) -> In t (live m) \/ t = mkTask i n Starting) as Hin
      by (intros t [?|[<-|[]]]%in_app_iff; auto).
    assert (forall t, In t (live m) -> In t (live m ++ [mkTask i n Starting])) as Hold by (intros; apply in_app_iff; by left).
    assert (forall j, has_task j m -> exists t, In t (live m ++ [mkTask i n Starting]) /\ t_id t = j) as Hh
      by (intros j (t & ? & ?); eauto).
    constructor; unfold has_task; cbn.
    + intros t [Ht| ->]%Hin; [destruct (inv_used0 t Ht); split; [done | lia] | split; [by left | cbn; lia]].
    + intros t u [Ht| ->]%Hin [Hu| ->]%Hin E; [by apply inv_ids0 | by destruct (Hne t Ht) | by destruct (Hne u Hu) | done].
    + intros t u [Ht| ->]%Hin [Hu| ->]%Hin E; [by apply inv_numbers0 | | | done].
      * destruct (inv_used0 t Ht). cbn in E. lia.
      * destruct (inv_used0 u Hu). cbn in E. lia.
    + intros j e Hj. destruct (inv_failed0 j e Hj) as [Hu Hno]. split; [done |]. intros (t & [Ht| ->]%Hin & Et).
      * apply Hno. by exists t.
      * by apply (Hnf j e).
    + intros j c Hc. destruct (inv_connections0 j c Hc) as (H1' & t & H2' & H3). split; [done |]. eauto.
    + intros j Hj. by apply Hh, inv_portals0.
    + intros j Hj. by apply Hh, inv_stacks0.
    + intros _ j e. rewrite get_set. destruct (String.eqb_spec i j) as [->|].
      * intros [= <-]. eexists. split; [apply in_app_iff; right; by left | done].
      * intros He. destruct (inv_events0 eq_refl j e He) as (t & ? & ?). eauto.
    + intros t [Ht| ->]%Hin; [| right; apply dict_get_set_same].
      destruct (inv_stop0 t Ht); [by left | right]. rewrite dict_get_set_other; [done |]. intros E. by apply (Hne t).
    + split_and!; auto with jmp.
  - constructor; unfold has_task; cbn; try done.
    + intros t Ht. destruct (inv_used0 t Ht). split; [done | lia].
    + intros t Ht. destruct (inv_stop0 t Ht); [by left | right]. rewrite dict_get_set_other; [done |]. intros E. by apply (Hne t).
    + split_and!; auto with jmp.
Qed.

(** A phase is entered: the task was not serving before. *)
Lemma set_phase_inv used t p m :
  In t (live m) -> (match t_phase t with Serving _ => False | _ => True end) ->
  Inv used m -> Inv used (set_phase (t_event t) p m).
Proof.
  intros Ht Hp H. set (f := fun u => if Nat.eqb (t_event u) (t_event t) then mkTask (t_id u) (t_event t) p else u).
  assert (forall u, t_id (f u) = t_id u /\ t_event (f u) = t_event u) as Hf
    by (intros u; unfold f; by destruct (Nat.eqb_spec (t_event u) (t_event t))).
  assert (forall v, In v (map f (live m)) -> exists u, v = f u /\ In u (live m)) as Hin
    by (intros v (u & <- & ?)%in_map_iff; eauto).
  assert (forall j, has_task j (set_phase (t_event t) p m) <-> has_task j m) as Hh.
  { intros j. split.
    - intros (v & (u & -> & Hu)%Hin & <-). exists u. by rewrite (proj1 (Hf u)).
    - intros (u & Hu & <-). exists (f u). split; [by apply (in_map f) | apply Hf]. }
  destruct H. constructor; cbn [connections portals stacks cleanup_events task_group loop tasks failed next_event set_phase on_loop
    set_field set_tasks]; fold f; try done.
  - intros v (u & -> & Hu)%Hin. destruct (Hf u) as [-> ->]. by apply inv_used0.
  - intros v w (u & -> & Hu)%Hin (u' & -> & Hu')%Hin. destruct (Hf u) as [-> _], (Hf u') as [-> _]. intros E.
    f_equal. by apply inv_ids0.
  - intros v w (u & -> & Hu)%Hin (u' & -> & Hu')%Hin. destruct (Hf u) as [_ ->], (Hf u') as [_ ->]. intros E.
    f_equal. by apply inv_numbers0.
  - intros j e. rewrite Hh. apply inv_failed0.
  - intros j c Hc. destruct (inv_connections0 j c Hc) as (? & u & Hu & ? & Hs). split; [done |]. exists (f u).
    split; [by apply (in_map f) |]. unfold f. destruct (Nat.eqb_spec (t_event u) (t_event t)) as [E|]; [| done].
    apply inv_numbers0 in E; [| done..]. subst u. by rewrite Hs in Hp.
  - intros j Hj. by apply Hh, inv_portals0.
  - intros j Hj. by apply Hh, inv_stacks0.
  - intros Hg j e He. destruct (inv_events0 Hg j e He) as (u & ? & ? & ?). exists (f u).
    split; [by apply (in_map f) |]. by destruct (Hf u) as [-> ->].
  - intros v (u & -> & Hu)%Hin. destruct (Hf u) as [-> ->]. by apply inv_stop0.
Qed.

Lemma set_phase_in t p m : In t (live m) -> In (mkTask (t_id t) (t_event t) p) (live (set_phase (t_event t) p m)).
Proof. intros H. cbn. apply in_map_iff. exists t. by rewrite Nat.eqb_refl. Qed.

(** What a task registers on its way. *)
Lemma portal_task_inv used t m : In t (live m) -> t_phase t = Starting -> Inv used m -> Inv used (portal_task t m).
Proof.
  intros Ht Hp H. apply (set_phase_inv _ t Opening) in H; [| done | by rewrite Hp].
  apply set_phase_in with (p := Opening) in Ht. destruct H. destruct inv_wf0 as (? & ? & ? & ?). constructor; try done.
  - intros j. unfold portal_task. cbn [portals set_phase on_loop]. rewrite get_set.
    destruct (String.eqb_spec (t_id t) j) as [<-|]; [by eexists | apply inv_portals0].
  - split_and!; auto with jmp. by apply dict_set_wf.
Qed.

Lemma stack_task_inv used t m : In t (live m) -> t_phase t = Opening -> Inv used m -> Inv used (stack_task t m).
Proof.
  intros Ht Hp H. apply (set_phase_inv _ t Binding) in H; [| done | by rewrite Hp].
  apply set_phase_in with (p := Binding) in Ht. destruct H. destruct inv_wf0 as (? & ? & ? & ?). constructor; try done.
  - intros j. unfold stack_task. cbn [stacks set_phase on_loop]. rewrite get_set.
    destruct (String.eqb_spec (t_id t) j) as [<-|]; [by eexists | apply inv_stacks0].
  - split_and!; auto with jmp. by apply dict_set_wf.
Qed.

Lemma serve_task_inv used t c m :
  In t (live m) -> t_phase t = Binding -> id c = t_id t -> Inv used m -> Inv used (serve_task t c m).
Proof.
  intros Ht Hp Ec H. apply (set_phase_inv _ t (Serving c)) in H; [| done | by rewrite Hp].
  apply set_phase_in with (p := Serving c) in Ht. destruct H. destruct inv_wf0 as (? & ? & ? & ?). constructor; try done.
  - intros j c'. unfold serve_task. cbn [connections set_phase on_loop]. rewrite get_set.
    destruct (String.eqb_spec (t_id t) j) as [<-|]; [| apply inv_connections0].
    intros [= <-]. split; [done |]. by eexists.
  - split_and!; auto with jmp. by apply dict_set_wf.
Qed.

Lemma end_task_inv used t m : In t (live m) -> Inv used m -> Inv used (end_task t m).
Proof.
  intros Ht H. destruct H. destruct inv_wf0 as (W1 & W2 & W3 & W4).
  assert (forall u, In u (live m) -> t_id u <> t_id t -> In u (without (t_event t) (live m))) as Hkeep.
  { intros u Hu Hne. apply In_without. split; [done |]. intros E. apply Hne. f_equal. by apply inv_numbers0. }
  assert (forall u, In u (without (t_event t) (live m)) -> In u (live m) /\ t_id u <> t_id t) as Hold.
  { intros u [Hu Hne]%In_without. split; [done |]. intros E. apply Hne. f_equal. by apply inv_ids0. }
  assert (forall j, j <> t_id t -> has_task j m -> has_task j (end_task t m)) as Hh
    by (intros j Hj (u & ? & <-); exists u; auto).
  constructor; cbn.
  - intros u [Hu _]%Hold. by apply inv_used0.
  - intros u v [Hu _]%Hold [Hv _]%Hold. by apply inv_ids0.
  - intros u v [Hu _]%Hold [Hv _]%Hold. by apply inv_numbers0.
  - intros j e Hj. destruct (inv_failed0 j e Hj) as [? Hno]. split; [done |].
    intros (u & [Hu _]%Hold & Eu). apply Hno. by exists u.
  - intros j c. rewrite get_pop by done. destruct (String.eqb_spec (t_id t) j) as [|Hne]; [done |]. intros Hc.
    destruct (inv_connections0 j c Hc) as (? & u & ? & ? & ?). split; [done |]. exists u.
    split; [apply Hkeep; [done | congruence] | done].
  - intros j. rewrite get_pop by done. destruct (String.eqb_spec (t_id t) j) as [|Hne]; [done |]. intros Hj. apply Hh; auto.
  - intros j. rewrite get_pop by done. destruct (String.eqb_spec (t_id t) j) as [|Hne]; [done |]. intros Hj. apply Hh; auto.
  - intros Hg j e. rewrite get_pop by done. destruct (String.eqb_spec (t_id t) j) as [|Hne]; [done |]. intros He.
    destruct (inv_events0 Hg j e He) as (u & ? & ? & ?). exists u. split; [apply Hkeep; [done | congruence] | done].
  - intros u [Hu Hne]%Hold. destruct (inv_stop0 u Hu); [by left | right]. by rewrite dict_get_pop_other.
  - split_and!; by apply dict_pop_wf.
Qed.

Lemma fail_open_inv used t e m : In t (live m) -> Inv used m -> Inv used (fail_open t e m).
Proof.
  intros Ht H. pose proof (inv_used _ _ H t Ht) as [Hu _].
  assert (~ has_task (t_id t) (end_task t m)) as Hno.
  { intros (u & [Hin Hne]%In_without & E). apply Hne. f_equal. by apply (inv_ids _ _ H). }
  apply (end_task_inv _ t) in H; [| done]. destruct H. constructor; try done.
  intros j e' [Hj|[[= <- <-]|[]]]%in_app_iff; [by eapply inv_failed0 | done].
Qed.

Lemma connect_raises_inv used i e m :
  dict_get i (failed (loop m)) = Some e -> Inv used m -> Inv used (fst (connect_raises i e m)).
Proof.
  intros Hi H. apply dict_get_In in Hi. pose proof (inv_failed _ _ H i e Hi) as [_ Hno].
  destruct H. destruct inv_wf0 as (? & ? & ? & W4). constructor; try done; cbn.
  - intros j e' Hj%In_pop. by eapply inv_failed0.
  - intros Hg j n. rewrite get_pop by done. destruct (String.eqb i j); [done | by apply inv_events0].
  - intros t Ht. destruct (inv_stop0 t Ht); [by left | right]. rewrite dict_get_pop_other; [done |].
    intros ->. apply Hno. by exists t.
  - split_and!; auto with jmp.
Qed.

Lemma disconnect_inv used i m : Inv used m -> Inv used (fst (disconnect i m)).
Proof.
  intros H. unfold disconnect. destruct (is_some _); [| done]. cbn [fst].
  set (m1 := match dict_get i (cleanup_events m) with Some e => set_event e m | None => m end).
  assert (Inv used m1) as H1 by (unfold m1; destruct (dict_get i (cleanup_events m)); [by apply set_event_inv | done]).
  assert (forall t, In t (live m1) -> t_id t = i -> is_set (t_event t) m1 = true) as Hs.
  { intros t Ht Et. unfold m1 in *. destruct (dict_get i (cleanup_events m)) as [e|] eqn:E; cbn in Ht;
      (destruct (inv_stop _ _ H t Ht) as [Hs|Hs]; [| rewrite Et in Hs; rewrite E in Hs]).
    - by apply (is_set_app _ [e]).
    - injection Hs as ->. apply (is_set_in _ [t_event t]). by left.
    - done.
    - done. }
  clearbody m1. clear H m. destruct H1. destruct inv_wf0 as (W1 & W2 & W3 & W4). constructor; cbn; try done.
  - intros j c. rewrite get_pop by done. destruct (String.eqb i j); [done |]. apply inv_connections0.
  - intros j. rewrite get_pop by done. destruct (String.eqb i j); [done |]. apply inv_portals0.
  - intros j. rewrite get_pop by done. destruct (String.eqb i j); [done |]. apply inv_stacks0.
  - intros Hg j e. rewrite get_pop by done. destruct (String.eqb i j); [done |]. by apply inv_events0.
  - intros t Ht. rewrite get_pop by done. destruct (String.eqb_spec i (t_id t)) as [E|]; [| by apply inv_stop0].
    left. by apply Hs.
  - split_and!; by apply dict_pop_wf.
Qed.

Lemma shutdown_sets used m t : Inv used m -> In t (live m) -> is_set (t_event t) (shutdown m) = true.
Proof.
  intros H Ht. destruct (inv_stop _ m H t Ht) as [Hs|Hs]; [by apply is_set_app |]. by eapply is_set_in, dict_get_snd.
Qed.

Lemma shutdown_inv used m : Inv used m -> Inv used (shutdown m).
Proof.
  intros H. constructor; cbn; try done; try apply H.
  - intros t Ht. left. by eapply shutdown_sets.
  - split_and!; by apply NoDup_nil.
Qed.

Lemma started_inv callback : Inv [] (started callback).
Proof. constructor; try done. split_and!; by apply NoDup_nil. Qed.

(** The ids that the calls of [connect] draw. *)
Definition connect_id (a : action) : list string := match a with AConnect i => [i] | _ => [] end.
Definition connect_ids (l : list action) : list string := flat_map connect_id l.

Ltac at_task :=
  match goal with
  | |- context [task_at ?n ?m] =>
      let E := fresh "E" in
      destruct (task_at n m) as [[? ? [| | |?]]|] eqn:E; try done; apply task_at_some in E as [E _]
  end.

Lemma action_inv used m a m' o :
  (forall i, a = AConnect i -> ~ In i used) -> Inv used m -> step m a = Some (m', o) ->
  Inv (connect_id a ++ used) m'.
Proof.
  intros Hnew H. destruct a as [i|n|n|n c|n lease e|i|n lease exporter remaining|n lease|i|n|n lease e|n lease told| |body|]; cbn [step].
  - intros [= E]. assert (m' = fst (begin_task i m)) as -> by (by rewrite E). apply begin_task_inv; auto.
  - at_task. intros [= <- <-]. by apply portal_task_inv.
  - at_task. intros [= <- <-]. by apply stack_task_inv.
  - at_task. destruct (String.eqb_spec (id c) t_id0); [| done]. intros [= <- <-]. by apply serve_task_inv.
  - at_task; intros [= <- <-]; by apply fail_open_inv.
  - destruct (dict_get i (failed (loop m))) as [e|] eqn:E; [| done]. intros [= <- <-].
    by apply (connect_raises_inv used i e m).
  - at_task. intros [= <- <-]. unfold lease_ending, ending_message. destruct (remaining <=? 0)%Z;
      [apply set_event_inv |]; by apply put_log_inv.
  - at_task. intros [= <- <-]. by apply set_event_inv, put_log_inv.
  - intros [= E]. assert (m' = fst (disconnect i m)) as -> by (by rewrite E). by apply disconnect_inv.
  - at_task. destruct (is_set _ m); [| done]. intros [= <- <-]. by apply end_task_inv.
  - at_task. intros [= <- <-]. by apply fail_group_inv, end_task_inv.
  - at_task. intros [= <- <-].
    destruct told, (lease_error lease); try apply fail_group_inv; by (apply fail_open_inv || apply end_task_inv).
  - intros [= <- <-]. by apply on_loop_inv.
  - destruct (task_group m); [| done]. intros [= <- <-]. destruct body; [apply fail_group_inv |]; by apply shutdown_inv.
  - destruct (task_group m), (tasks (loop m)) eqn:?, (exited (loop m)); try done. intros [= <- <-]. by apply on_loop_inv.
Qed.

Lemma steps_inv used l m m' :
  NoDup (connect_ids l) -> (forall i, In i (connect_ids l) -> ~ In i used) ->
  Inv used m -> steps m l = Some m' -> exists used', Inv used' m'.
Proof.
  induction l as [|a l IH] in used, m |- *; cbn; [intros _ _ ? [= <-]; eauto |].
  intros [Hnd1 [Hd Hnd2]]%NoDup_app Hnew H. destruct (step m a) as [[m1 o]|] eqn:E; [| done].
  apply (action_inv used) in E; [| intros i ->; apply Hnew; by left | done].
  apply (IH (connect_id a ++ used)); [done | | done].
  intros i Hi [Ha|Hu]%in_app_iff.
  - apply (Hd i); by apply list_elem_of_In.
  - by apply (Hnew i); [apply in_app_iff; right |].
Qed.

Lemma reached_inv callback l m :
  NoDup (connect_ids l) -> steps (started callback) l = Some m -> exists used, Inv used m.
Proof. intros Hn H. eapply steps_inv; [done | | apply started_inv | done]. by intros ? _ []. Qed.

Lemma empty_dict {A} (d : list (string * A)) : (forall i, is_some (dict_get i d) = true -> False) -> d = [].
Proof. destruct d as [|[k v] d]; [done |]. intros H. destruct (H k). cbn. by rewrite String.eqb_refl. Qed.

(** ** What the manager guarantees *)

(** C24: In every state the manager can reach, when the ids that [uuid4] gives are distinct: every
    connection that is listed is the one that a live task of the same id serves; every live task
    can be ended (its event is set, or it is registered for [disconnect] and the shutdown); and
    once no task is left, no connection, portal or stack is registered any more, nor, while the
    server runs, any clean-up event. (After the server has ended, a call of [connect] is refused
    and leaves the event it registered.) Tasks may start, fail, be cancelled, crash and be
    disconnected in any order, before and after the shutdown. *)
Theorem connections_backed callback l m :
  NoDup (connect_ids l) -> steps (started callback) l = Some m ->
  (forall i c, dict_get i (connections m) = Some c ->
     id c = i /\ exists t, In t (tasks (loop m)) /\ t_id t = i /\ t_phase t = Serving c) /\
  (forall t, In t (tasks (loop m)) ->
     is_set (t_event t) m = true \/ dict_get (t_id t) (cleanup_events m) = Some (t_event t)) /\
  (tasks (loop m) = [] ->
     connections m = [] /\ portals m = [] /\ stacks m = [] /\ (task_group m = true -> cleanup_events m = [])).
Proof.
  intros Hn H. apply reached_inv in H as [used H]; [| done]. destruct H. split; [done |]. split; [done |].
  intros Ht. unfold has_task in *. rewrite Ht in *. split_and!.
  - apply empty_dict. intros i Hi. destruct (dict_get i (connections m)) as [c|] eqn:E; [| done].
    by destruct (inv_connections0 i c E) as (_ & t & [] & _).
  - apply empty_dict. intros i Hi. by destruct (inv_portals0 i Hi) as (t & [] & _).
  - apply empty_dict. intros i Hi. by destruct (inv_stacks0 i Hi) as (t & [] & _).
  - intros Hg. apply empty_dict. intros i Hi. destruct (dict_get i (cleanup_events m)) as [e|] eqn:E; [| done].
    by destruct (inv_events0 Hg i e E) as (t & [] & _).
Qed.

Lemma task_at_in used m t : Inv used m -> In t (live m) -> task_at (t_event t) m = Some t.
Proof.
  intros H Ht. unfold task_at. destruct (List.find _ _) as [u|] eqn:E.
  - apply find_some in E as [Hu E]. apply Nat.eqb_eq in E. f_equal. by apply (inv_numbers _ _ H).
  - eapply find_none in E; [| exact Ht]. by rewrite Nat.eqb_refl in E.
Qed.

Definition is_serving (t : Task) : bool := match t_phase t with Serving _ => true | _ => false end.

(** When the server ends, every connection that is being served can leave at once, whatever
    happened before, and the last of them leaves nothing behind. *)
Theorem shutdown_ends_all callback l m :
  NoDup (connect_ids l) -> steps (started callback) l = Some m -> task_group m = true ->
  exists m', step m (AShutdown None) = Some (m', Nothing) /\ connections m' = [] /\ live m' = live m /\
    forall t, In t (live m') -> is_serving t = true ->
      step m' (ALeft (t_event t)) = Some (end_task t m', Nothing) /\ ~ In t (live (end_task t m')).
Proof.
  intros Hn H Hg. apply reached_inv in H as [used H]; [| done]. exists (shutdown m). cbn [step]. rewrite Hg.
  split_and!; [done.. |]. intros t Ht Hp. cbn [step].
  rewrite (task_at_in used) by (done || by apply shutdown_inv). destruct t as [i n p]. destruct p; try done.
  rewrite (shutdown_sets used) by done. split; [done |].
  intros [_ Hne]%In_without. by apply Hne.
Qed.

(** The notice that a lease is over, or has gone to another client, is sent as an error and ends
    the connection: its task can leave, and then the id is unknown. *)
Theorem lost_lease_ends callback l m t lease exporter remaining a :
  NoDup (connect_ids l) -> steps (started callback) l = Some m -> In t (live m) -> is_serving t = true ->
  (remaining <= 0)%Z ->
  a = AEnding (t_event t) lease exporter remaining \/ a = ATransferred (t_event t) lease ->
  exists m' msg, step m a = Some (m', Nothing) /\
    (log_callback m = true -> logs (loop m') = logs (loop m) ++ [("error", msg)]) /\
    step m' (ALeft (t_event t)) = Some (end_task t m', Nothing) /\
    get_connection (t_id t) (end_task t m') = inl (key_error ("No connection with id " ++ t_id t)).
Proof.
  intros Hn H Ht Hp Hr Ha. apply reached_inv in H as [used H]; [| done].
  destruct t as [i n [| | |c]]; try done. set (t := mkTask i n (Serving c)) in *.
  assert (task_at n m = Some t) as Hat by (by apply (task_at_in used m t)).
  assert (forall level msg, let m' := set_event n (put_log level msg m) in
    (log_callback m = true -> logs (loop m') = logs (loop m) ++ [(level, msg)]) /\
    step m' (ALeft n) = Some (end_task t m', Nothing) /\
    get_connection i (end_task t m') = inl (key_error ("No connection with id " ++ i))) as Hm.
  { intros level msg. cbv zeta. split; [| split].
    - intros Hc. unfold put_log. by rewrite Hc.
    - cbn [step]. assert (task_at n (set_event n (put_log level msg m)) = Some t) as ->
        by (unfold put_log; by destruct (log_callback m)).
      unfold t, is_set. cbn. by rewrite Nat.eqb_refl.
    - unfold get_connection. cbn. destruct (inv_wf _ _ H) as [W _].
      rewrite get_pop, String.eqb_refl by (unfold put_log; by destruct (log_callback m)). done. }
  destruct Ha as [-> | ->]; cbn [step]; change (t_event t) with n; rewrite Hat; subst t; cbv beta iota;
    unfold lease_ending, ending_message; [rewrite (proj2 (Z.leb_le _ _)) by done |]; eexists _, _; (split; [reflexivity | apply Hm]).
Qed.

Lemma errors_stay m a m' o e : step m a = Some (m', o) -> In e (errors (loop m)) -> In e (errors (loop m')).
Proof.
  intros H He. destruct a as [i|n|n|n c|n lease x|i|n lease exporter remaining|n lease|i|n|n lease x|n lease told| |body|]; cbn [step] in H;
    repeat match type of H with context [task_at ?n ?m] => destruct (task_at n m) as [[? ? [| | |?]]|]; try done end.
  - unfold begin_task in H. destruct (task_group m); by injection H as <- _.
  - by injection H as <- _.
  - by injection H as <- _.
  - destruct (String.eqb _ _); [| done]. by injection H as <- _.
  - by injection H as <- _.
  - by injection H as <- _.
  - by injection H as <- _.
  - destruct (dict_get _ _); [| done]. by injection H as <- _.
  - injection H as <- _. unfold lease_ending, ending_message, put_log. by destruct (remaining <=? 0)%Z, (log_callback m).
  - injection H as <- _. unfold lease_moved, put_log. by destruct (log_callback m).
  - unfold disconnect in H. destruct (is_some _), (dict_get i (cleanup_events m)); by injection H as <- _.
  - destruct (is_set _ m); [| done]. by injection H as <- _.
  - injection H as <- _. apply in_app_iff. by left.
  - injection H as <- _. destruct told, (lease_error lease); try done; apply in_app_iff; by left.
  - by injection H as <- _.
  - destruct (task_group m); [| done]. injection H as <- _. destruct body; [apply in_app_iff; by left | done].
  - destruct (task_group m), (tasks (loop m)), (exited (loop m)); try done. by injection H as <- _.
Qed.

Lemma errors_stay_steps l m m' e : steps m l = Some m' -> In e (errors (loop m)) -> In e (errors (loop m')).
Proof.
  induction l as [|a l IH] in m |- *; cbn; [by intros [= <-] |]. destruct (step m a) as [[m1 o]|] eqn:E; [| done].
  intros H He. eapply IH; [done |]. by eapply errors_stay.
Qed.

(** An exception in the task of one connection cancels the server's task group, and with it every
    other connection: each of them can only be cancelled with the group, and whatever happens
    then, the group is left by raising that exception. *)
Theorem crash_ends_all callback l m t lease e :
  NoDup (connect_ids l) -> steps (started callback) l = Some m -> In t (live m) -> is_serving t = true ->
  exists m1, step m (ACrashed (t_event t) lease e) = Some (m1, Nothing) /\ cancelled (loop m1) = true /\
    (forall u, In u (live m1) -> is_serving u = true ->
       step m1 (ACancelled (t_event u) None false) = Some (end_task u m1, Nothing)) /\
    (forall l2 m2 m3 o, steps m1 l2 = Some m2 -> step m2 AExit = Some (m3, o) ->
       exists es, o = Raised (Group "unhandled errors in a TaskGroup" es) /\ In (check_lease_error lease e) es /\
         live m3 = [] /\ task_group m3 = false).
Proof.
  intros Hn H Ht Hp. apply reached_inv in H as [used H]; [| done]. cbn [step]. rewrite (task_at_in used) by done.
  destruct t as [i n [| | |c]]; try done. set (t := mkTask i n (Serving c)) in *.
  eexists. split; [reflexivity |]. split; [done |]. split.
  - intros u Hu Hs. cbn [step]. rewrite (task_at_in used); [| by apply fail_group_inv, end_task_inv | done].
    by destruct u as [j k [| | |d]].
  - intros l2 m2 m3 o H2 H3. apply (errors_stay_steps _ _ _ (check_lease_error lease e)) in H2;
      [| apply in_app_iff; right; by left].
    cbn [step] in H3. destruct (task_group m2) eqn:Eg, (live m2) eqn:El, (exited (loop m2)); try done.
    injection H3 as <- <-. unfold exit_group. destruct (errors (loop m2)) as [|x es]; [done |]. eauto 6.
Qed.

(** A failed [connect] always raises a connection error, that of a lost lease if there is one,
    and leaves nothing registered under its id. *)
Theorem connect_failure_clean callback l m t lease e :
  NoDup (connect_ids l) -> steps (started callback) l = Some m -> In t (live m) -> is_serving t = false ->
  exists m1 m' e', step m (AOpenFailed (t_event t) lease e) = Some (m1, Nothing) /\
    step m1 (AConnectRaises (t_id t)) = Some (m', Raised e') /\ isinstance e' CConnectionError = true /\
    (forall s, lease = Some s -> lease_transferred s = true ->
       exc_text e' = ("Lease " ++ ls_name s ++ " has been transferred to another client. The session is no longer valid.")%string) /\
    dict_get (t_id t) (connections m') = None /\ dict_get (t_id t) (portals m') = None /\
    dict_get (t_id t) (stacks m') = None /\ dict_get (t_id t) (cleanup_events m') = None /\ ~ has_task (t_id t) m'.
Proof.
  intros Hn H Ht Hp. apply reached_inv in H as [used H]; [| done].
  assert (step m (AOpenFailed (t_event t) lease e) = Some (fail_open t (check_lease_error lease e) m, Nothing)) as E.
  { cbn [step]. rewrite (task_at_in used) by done. by destruct t as [i n []]. }
  assert (dict_get (t_id t) (failed (loop m)) = None) as Hf.
  { destruct (dict_get (t_id t) (failed (loop m))) as [x|] eqn:Ex; [| done]. apply dict_get_In in Ex.
    destruct (inv_failed _ _ H _ _ Ex) as [_ []]. by exists t. }
  set (x := check_lease_error lease e) in *. set (m1 := fail_open t x m) in *.
  assert (dict_get (t_id t) (failed (loop m1)) = Some x) as Hx.
  { unfold m1. cbn. revert Hf. generalize (failed (loop m)) as d. induction d as [|[k v] d IH]; cbn;
      [by rewrite String.eqb_refl |]. by destruct (String.eqb (t_id t) k). }
  exists m1, (fst (connect_raises (t_id t) x m1)), (connect_error x).
  split; [done |]. split; [cbn [step]; by rewrite Hx |]. destruct (inv_wf _ _ H) as (W1 & W2 & W3 & W4).
  split_and!.
  - unfold connect_error. cbv zeta. by destruct (isinstance (unwrap_exception _) CConnectionError) eqn:?.
  - intros s -> Hs. unfold x, check_lease_error. cbn. by rewrite Hs.
  - cbn. by rewrite get_pop, String.eqb_refl.
  - cbn. by rewrite get_pop, String.eqb_refl.
  - cbn. by rewrite get_pop, String.eqb_refl.
  - cbn. rewrite get_pop, String.eqb_refl; [done | by apply dict_pop_wf].
  - intros (u & [Hu Hne]%In_without & Eu). apply Hne. f_equal. by apply (inv_ids _ _ H).
Qed.

(** ** Commands *)

(** [j], run for a connection, finds in its environment the socket of that connection, whatever
    the server's own environment says, and the list of allowed drivers as the lease has it. *)
Theorem run_reaches_connection environ c :
  dict_wf environ -> is_tcp_address (socket_path c) = false -> allow c <> [] ->
  Forall (fun a => Str.has_char ","%char a = false /\ a <> "UNSAFE") (allow c) ->
  let env := dict_update environ (connection_env c) in
  env_async env = inr (LocalChannel ("unix://" ++ socket_path c)) /\
  exists v, dict_get JMP_DRIVERS_ALLOW env = Some v /\ snd (decode_allow v) = unsafe c /\
    (unsafe c = false -> fst (decode_allow v) = allow c).
Proof.
  intros Hw Hs Ha Hc. cbv zeta.
  assert (dict_wf (connection_env c)) as Hwf by (unfold dict_wf; apply (bool_decide_unpack _); vm_compute; exact I).
  split.
  - unfold env_async. rewrite dict_get_update by done. cbn. unfold client_from_path. by rewrite Hs.
  - rewrite dict_get_update by done. eexists. split; [reflexivity |]. unfold decode_allow.
    destruct (unsafe c); [done |]. rewrite Str.split_char_join; [| done | eapply Forall_impl; [exact Hc | by intros ? []]].
    split; [| done]. cbn [snd]. apply not_true_is_false. intros (a & Ha1 & Ha2)%existsb_exists.
    apply String.eqb_eq in Ha2 as <-. apply list_elem_of_In in Ha1. rewrite Forall_forall in Hc. by destruct (Hc _ Ha1).
Qed.

(** ** Witnesses *)

Module ConnectionsDemo.

Definition node : client_node := ClientNode "u" [] StubDriverClient None [] [].

Definition conn (i : string) : Connection := mkConnection i "lease" "exporter" "/tmp/jumpstarter.sock" ["jumpstarter_driver_*"] false 0 node.

(** Two connections; the lease of the first one expires. *)
Definition run : list action :=
  [AConnect "a"; APortal 0; AConnect "b"; AStack 0; AOpened 0 (conn "a"); APortal 1; AStack 1; AOpened 1 (conn "b");
   AEnding 0 "lease" "exporter" 0; ALeft 0].

End ConnectionsDemo.

Lemma connections_backed_witness :
  exists m, steps (started true) ConnectionsDemo.run = Some m /\ map fst (connections m) = ["b"] /\
    exists t, In t (tasks (loop m)) /\ t_id t = "b" /\ t_phase t = Serving (ConnectionsDemo.conn "b").
Proof.
  assert (NoDup (connect_ids ConnectionsDemo.run)) as Hn.
  { constructor; [by intros H%list_elem_of_singleton | apply NoDup_singleton]. }
  destruct (steps (started true) ConnectionsDemo.run) as [m|] eqn:E; [| exfalso; vm_compute in E; discriminate].
  exists m. split; [reflexivity |].
  destruct (connections_backed true ConnectionsDemo.run m Hn E) as [H _].
  vm_compute in E. injection E as <-. split; [reflexivity |].
  exact (proj2 (H "b" (ConnectionsDemo.conn "b") eq_refl)).
Defined.

Lemma run_reaches_connection_witness :
  env_async (dict_update [] (connection_env (ConnectionsDemo.conn "a"))) = inr (LocalChannel "unix:///tmp/jumpstarter.sock").
Proof.
  refine (proj1 (run_reaches_connection [] (ConnectionsDemo.conn "a") _ eq_refl _ _)); [by apply NoDup_nil | done |].
  by repeat constructor.
Defined.
