(* ===== verification/McpTools.v ===== *)
(** * Tools of the MCP server

    [jumpstarter_mcp/introspect.py]: the tree of commands of a client and its driver tree;
    [jumpstarter_mcp/tools/commands.py] and [tools/leases.py]; [jumpstarter_mcp/server.py]: the
    configuration and its token, the arguments of the tools, and how a server ends. What
    Python's [inspect] sees of a driver is a parameter. *)

From stdpp Require Import base list strings sets pretty.
From Stdlib Require Import ZArith Lia Ascii.
From S2P Require Import Prelude PyText Enums CliErrors DriverTree.
From S2P Require Selectors GrpcClient ConfigFiles Tokens McpConnections.

Local Open Scope string_scope.
Local Open Scope list_scope.
Local Open Scope bool_scope.

(** ** The tree of commands *)

Record param := mkParam {
  p_name : string; p_type : string; p_help : option string; p_required : bool; p_default : option string; p_hidden : bool
}.

(** A command, or a group with its subcommands. *)
#[warnings="-register-all"]
Inductive command := Command (name : string) (help : option string) (params : list param) (commands : option (list (string * command))).

Record param_info := mkParamInfo {
  pi_name : string; pi_type : string; pi_help : option string; pi_required : bool; pi_default : option string
}.

#[warnings="-register-all"]
Inductive tree := Tree (name : string) (help : option string) (params : list param_info) (subcommands : option (list (string * tree))).

Definition shown_params (ps : list param) : list param_info :=
  map (fun p => mkParamInfo (p_name p) (p_type p) (p_help p) (p_required p) (p_default p))
    (List.filter (fun p => negb (p_hidden p) && negb (String.eqb (p_name p) "help")) ps).

Fixpoint walk_click_tree (cmd : command) : tree :=
  let '(Command name help params commands) := cmd in
  Tree name help (shown_params params)
    (match commands with
     | Some subs => Some (map (fun ns => let '(n, sub) := ns in (n, walk_click_tree sub)) subs)
     | None => None
     end).

(** [explore]: down the path, then the tree from there. *)
Fixpoint explore (path : list string) (cmd : command) : string + tree :=
  match path with
  | [] => inr (walk_click_tree cmd)
  | n :: path' =>
      let '(Command _ _ _ commands) := cmd in
      match commands with
      | Some subs => match dict_get n subs with
                     | Some sub => explore path' sub
                     | None => inl ("Command '" ++ n ++ "' not found at this level")%string
                     end
      | None => inl ("Command '" ++ n ++ "' not found at this level")%string
      end
  end.

(** The subtree of a whole tree. *)
Fixpoint subtree (path : list string) (t : tree) : option tree :=
  match path with
  | [] => Some t
  | n :: path' =>
      let '(Tree _ _ _ subs) := t in
      match subs with Some subs => match dict_get n subs with Some t' => subtree path' t' | None => None end | None => None end
  end.

Lemma dict_get_map {A B} (f : A -> B) k (d : list (string * A)) :
  dict_get k (map (fun ns => let '(n, a) := ns in (n, f a)) d) = option_map f (dict_get k d).
Proof. induction d as [|[n a] d IH]; [done |]. cbn. by destruct (String.eqb k n). Qed.

(** Exploring a path shows the same tree as the whole tree has there, and fails exactly where
    that has nothing. *)
Theorem explore_is_subtree path cmd :
  match explore path cmd with inr t => Some t | inl _ => None end = subtree path (walk_click_tree cmd).
Proof.
  induction path as [|n path IH] in cmd |- *; [done |]. destruct cmd as [name help params [subs|]]; [| done].
  cbn. rewrite dict_get_map. destruct (dict_get n subs) as [sub|]; [apply IH | done].
Qed.

(** ** Drivers *)

(** What [inspect] sees of a member: [None] for a signature is an exception. *)
Record Member := mkMember {
  m_name : string; m_property : bool; m_callable : bool;
  m_signature : option (list (string * option string * option string));   (** names, annotations, defaults *)
  m_source : option string
}.

Definition BASE_METHODS : list string :=
  ["call"; "streamingcall"; "stream"; "stream_async"; "log_stream"; "log_stream_async"; "open_stream"; "close"; "reset"; "cli";
   "call_async"; "streamingcall_async"; "report"; "report_async"; "get_status_async"; "end_session_async"; "status_monitor_async"].

Definition INTERNAL_METHODS : list string :=
  ["check_exporter_status"; "resource_async"; "wait_for_hook_complete_monitored"; "wait_for_hook_status"; "wait_for_lease_ready";
   "wait_for_lease_ready_monitored"].

Definition public (m : Member) : bool :=
  negb (Str.startswith "_" (m_name m) || existsb (String.eqb (m_name m)) BASE_METHODS || existsb (String.eqb (m_name m)) INTERNAL_METHODS)
  && negb (m_property m) && m_callable m.

Section Introspect.

(** [inspect.getmembers_static], and the name of a class. *)
Context (members : client_node -> option (list Member)) (class_name : client_node -> string).

Definition c_description (c : client_node) : option string := let '(ClientNode _ _ _ d _ _) := c in d.
Definition c_children (c : client_node) : list (string * client_node) := let '(ClientNode _ _ _ _ _ cs) := c in cs.

(** [_get_public_method_names] *)
Definition get_public_method_names (c : client_node) : list string :=
  match members c with
  | None => []
  | Some ms => map m_name (List.filter (fun m => public m && is_some (m_signature m)) ms)
  end.

Record DriverEntry := mkDriverEntry {
  de_path : string; de_driver_path : list string; de_class : string; de_description : option string; de_methods : list string
}.

Definition entry_for (keys : list string) (c : client_node) : DriverEntry :=
  mkDriverEntry (match keys with [] => "client" | _ => ("client." ++ Str.join "." keys)%string end) keys (class_name c)
    (c_description c) (get_public_method_names c).

Fixpoint list_drivers (keys : list string) (c : client_node) : list DriverEntry :=
  let '(ClientNode _ _ _ _ _ children) := c in
  entry_for keys c :: concat (map (fun nc => let '(n, child) := nc in list_drivers (keys ++ [n]) child) children).

Record MethodInfo := mkMethodInfo {
  mi_name : string; mi_params : list (string * option string * option string); mi_streaming : bool; mi_call : string
}.

(** [_inspect_method] *)
Definition inspect_method (m : Member) (driver_path : list string) : option MethodInfo :=
  match m_signature m with
  | None => None
  | Some sig =>
      let params := List.filter (fun p => negb (String.eqb (fst (fst p)) "self")) sig in
      let streaming := match m_source m with Some src => Str.str_contains "streamingcall" src | None => false end in
      let args := Str.join ", " (map (fun p => (fst (fst p) ++ "=...")%string) params) in
      Some (mkMethodInfo (m_name m) params streaming
              ("client." ++ Str.join "." driver_path ++ "." ++ m_name m ++ "(" ++ args ++ ")")%string)
  end.

(** The driver at a path; otherwise a [KeyError] with the name that is missing and those that
    are there. *)
Fixpoint find_driver (path : list string) (c : client_node) : (string * list string) + client_node :=
  match path with
  | [] => inr c
  | n :: path' => match dict_get n (c_children c) with
                  | Some c' => find_driver path' c'
                  | None => inl (n, map fst (c_children c))
                  end
  end.

Definition get_driver_methods (path : list string) (c : client_node)
    : (string * list string) + (string * list string * list MethodInfo) :=
  match find_driver path c with
  | inl e => inl e
  | inr target =>
      inr (class_name target, path,
           omap (fun m => if public m then inspect_method m path else None) (default [] (members target)))
  end.

(** ** Listing and inspection agree *)

Lemma client_node_ind' (P : client_node -> Prop) :
  (forall u l c d m cs, Forall (fun nc => P (snd nc)) cs -> P (ClientNode u l c d m cs)) -> forall c, P c.
Proof.
  intros H. fix IH 1. intros [u l c d m cs]. apply H. induction cs as [|[n x] cs IHcs]; constructor; [apply IH | exact IHcs].
Qed.

(** No two children of a driver have the same name. *)
Fixpoint distinct_names (c : client_node) : Prop :=
  let '(ClientNode _ _ _ _ _ cs) := c in
  dict_wf cs /\ (fix all (l : list (string * client_node)) : Prop :=
                  match l with [] => True | (_, x) :: l' => distinct_names x /\ all l' end) cs.

Lemma distinct_children u l k d m cs :
  distinct_names (ClientNode u l k d m cs) -> dict_wf cs /\ Forall (fun nc => distinct_names (snd nc)) cs.
Proof.
  intros [H1 H2]. split; [done |]. clear H1. induction cs as [|[n x] cs IH]; constructor; [apply H2 | apply IH, H2].
Qed.

Lemma dict_get_iff {A} k (v : A) d : dict_wf d -> dict_get k d = Some v <-> In (k, v) d.
Proof.
  unfold dict_wf. induction d as [|[k' v'] d IH]; cbn; [done |]. intros [Hn Hd]%NoDup_cons.
  destruct (String.eqb_spec k k') as [->|Hne].
  - split; [intros [= ->]; by left |]. intros [[= ->]|Hin]; [done |]. destruct Hn. apply list_elem_of_In. by apply (in_map fst) in Hin.
  - rewrite IH by done. split; [by right |]. intros [[= -> ->]|Hin]; [done | done].
Qed.

Lemma list_drivers_paths c : distinct_names c -> forall keys e,
  In e (list_drivers keys c) <-> exists path x, find_driver path c = inr x /\ e = entry_for (keys ++ path) x.
Proof.
  induction c as [u l k d m cs IH] using client_node_ind'. intros Hd keys e.
  apply distinct_children in Hd as [Hw Hd]. cbn [list_drivers]. split.
  - intros [<-|Hin].
    + exists [], (ClientNode u l k d m cs). by rewrite app_nil_r.
    + apply in_concat in Hin as (es & Hes & He). apply in_map_iff in Hes as ([n x] & <- & Hx).
      rewrite List.Forall_forall in IH, Hd. apply (IH (n, x) Hx (Hd _ Hx)) in He as (path & y & H1 & ->).
      exists (n :: path), y. split; [| by rewrite <- app_assoc]. cbn. by rewrite (proj2 (dict_get_iff n x cs Hw) Hx).
  - intros (path & x & Hf & ->). destruct path as [|n path]; [left; injection Hf as <-; by rewrite app_nil_r |]. right.
    cbn in Hf. destruct (dict_get n cs) as [y|] eqn:E; [| done]. apply dict_get_iff in E; [| done].
    apply in_concat. exists (list_drivers (keys ++ [n]) y). split; [by apply (in_map (fun nc => let '(n, child) := nc in _) _ (n, y)) |].
    rewrite List.Forall_forall in IH, Hd. apply (IH (n, y) E (Hd _ E)). exists path, x. split; [done |]. by rewrite <- app_assoc.
Qed.

Lemma inspected_names path ms :
  map mi_name (omap (fun m => if public m then inspect_method m path else None) ms) =
  map m_name (List.filter (fun m => public m && is_some (m_signature m)) ms).
Proof.
  induction ms as [|m ms IH]; [done |]. cbn [omap list_omap List.filter]. destruct (public m); [| done].
  unfold inspect_method at 1. destruct (m_signature m); cbn; [by rewrite IH | done].
Qed.

(** A driver is listed under a path exactly when inspecting that path finds it, and then both
    give the same class and the same methods. *)
Theorem listing_matches_inspection c path :
  distinct_names c ->
  (forall e, In e (list_drivers [] c) -> de_driver_path e = path ->
     exists ms, get_driver_methods path c = inr (de_class e, path, ms) /\ map mi_name ms = de_methods e) /\
  (forall cls ms, get_driver_methods path c = inr (cls, path, ms) ->
     exists e, In e (list_drivers [] c) /\ de_driver_path e = path /\ de_class e = cls /\ de_methods e = map mi_name ms).
Proof.
  intros Hd. split.
  - intros e He <-. apply list_drivers_paths in He as (p & x & Hf & ->); [| done]. cbn. unfold get_driver_methods.
    rewrite Hf. eexists. split; [reflexivity |]. rewrite inspected_names. unfold get_public_method_names. by destruct (members x).
  - intros cls ms. unfold get_driver_methods. destruct (find_driver path c) as [|x] eqn:E; [done |]. intros [= <- <-].
    exists (entry_for path x). split; [| split_and!; [done.. |]].
    + apply list_drivers_paths; [done |]. by exists path, x.
    + cbn. rewrite inspected_names. unfold get_public_method_names. by destruct (members x).
Qed.

(** The example for a method of the root driver is no Python: it has two dots in a row. *)
Theorem root_example_malformed m sig :
  m_signature m = Some sig ->
  exists info rest, inspect_method m [] = Some info /\ mi_call info = ("client.." ++ rest)%string.
Proof. intros H. unfold inspect_method. rewrite H. eexists _, _. split; [reflexivity |]. cbn. reflexivity. Qed.

End Introspect.

(** ** Connecting *)

Inductive connect_result :=
| ConnectError (message : string)
| ConnectInfo (c : McpConnections.Connection) (cli_tree : option tree) (drivers : option (list DriverEntry)).

(** [connect] of [tools/connections.py]: [r] is what the manager gives, [cli] the tree of commands
    of the client or the exception of making it, [drivers] its drivers or the exception; [inl] is
    what is not caught. *)
Definition connect_tool (r : exc + McpConnections.Connection) (cli : option (exc + command)) (drivers : exc + list DriverEntry)
    : exc + connect_result :=
  match r with
  | inl e =>
      if isinstance e CConnectionError then inr (ConnectError (exc_text e))
      else if (match e with Leaf _ _ _ _ => isinstance e CException | Group _ _ => true end)
      then inr (ConnectError ("Failed to connect: " ++ exc_text e)%string)
      else inl e
  | inr c =>
      inr (ConnectInfo c (match cli with Some (inr cmd) => Some (walk_click_tree cmd) | _ => None end)
             (match drivers with inr ds => Some ds | inl _ => None end))
  end.

(** Whatever the manager raises for a connection that cannot be made, the tool answers with an
    error; where the lease was transferred the error says so. *)
Theorem connect_tool_answers m m' i e' cli drivers :
  McpConnections.step m (McpConnections.AConnectRaises i) = Some (m', McpConnections.Raised e') ->
  exists msg, connect_tool (inl e') cli drivers = inr (ConnectError msg) /\
    (forall lease l e, dict_get i (McpConnections.failed (McpConnections.loop m)) = Some (McpConnections.check_lease_error lease e) ->
       lease = Some l -> McpConnections.lease_transferred l = true ->
       msg = ("Lease " ++ McpConnections.ls_name l ++ " has been transferred to another client. The session is no longer valid.")%string).
Proof.
  cbn [McpConnections.step]. destruct (dict_get i _) as [x|]; [| done]. intros [= _ <-].
  assert (isinstance (McpConnections.connect_error x) CConnectionError = true) as Hc.
  { unfold McpConnections.connect_error. cbv zeta. by destruct (isinstance (McpConnections.unwrap_exception _) CConnectionError) eqn:E. }
  eexists. cbn [connect_tool]. rewrite Hc. split; [reflexivity |]. intros lease l e [= ->] -> Hl.
  unfold McpConnections.check_lease_error. cbn. by rewrite Hl.
Qed.

(** ** Leases and exporters *)

(** [_lease_status]: the first condition that decides. *)
Fixpoint lease_status (conditions : list Selectors.Conditions.Condition) : string :=
  match conditions with
  | [] => "unknown"
  | c :: cs =>
      let is_ t := String.eqb (Selectors.Conditions.type_ c) t && String.eqb (Selectors.Conditions.status_ c) "True" in
      if is_ "Ready" then "ready" else if is_ "Pending" then "pending" else if is_ "Unsatisfiable" then "unsatisfiable"
      else lease_status cs
  end.

Section Leases.

(** [isoformat] and [str] of a duration. *)
Context (isoformat show_duration : Z -> string).

Definition shown_duration (d : Z) : option string := if Z.eqb d 0 then None else Some (show_duration d).

Record LeaseInfo := mkLeaseInfo {
  l_name : string; l_client : string; l_status : string; l_duration : option string;
  l_begin : option string; l_end : option string
}.

Definition lease_info (l : GrpcClient.Lease) : LeaseInfo :=
  mkLeaseInfo (GrpcClient.name l) (GrpcClient.client l) (lease_status (GrpcClient.conditions l)) (shown_duration (GrpcClient.duration l))
    (option_map isoformat (GrpcClient.effective_begin_time l)) (option_map isoformat (GrpcClient.effective_end_time l)).

Definition non_empty {A} (l : list A) : option (list A) := match l with [] => None | _ => Some l end.

(** An entry; the outer option of a field says whether it is there. *)
Record ExporterEntry := mkExporterEntry {
  x_name : string; x_labels : list (string * string); x_deprecated : option (list (string * string));
  x_online : option bool; x_status : option string; x_lease : option (option LeaseInfo)
}.

Definition exporter_entry (include_leases include_online : bool) (e : GrpcClient.Exporter) : ExporterEntry :=
  mkExporterEntry (GrpcClient.e_name e) (GrpcClient.e_labels e) (non_empty (GrpcClient.e_deprecated_labels e))
    (if include_online then Some (GrpcClient.e_online e) else None) (option_map ExporterStatusOps.str (GrpcClient.e_status e))
    (if include_leases then Some (option_map lease_info (GrpcClient.e_lease e)) else None).

Definition list_exporters (include_leases include_online : bool) (result : GrpcClient.ExporterList) : list ExporterEntry :=
  map (exporter_entry include_leases include_online) (GrpcClient.exporters result).

Record LeaseEntry := mkLeaseEntry { y_info : LeaseInfo; y_exporter : string; y_selector : list Z; y_deprecated : option (list (string * string)) }.

Definition list_leases (result : GrpcClient.LeaseList) : list LeaseEntry :=
  map (fun l => mkLeaseEntry (lease_info l) (GrpcClient.exporter l) (GrpcClient.selector l)
                  (non_empty (GrpcClient.deprecated_labels l))) (GrpcClient.leases result).

End Leases.

(** The status is that of the first condition that is true and of one of the three types. *)
Theorem lease_status_exact cs :
  match List.find (fun c => String.eqb (Selectors.Conditions.status_ c) "True" &&
                            existsb (String.eqb (Selectors.Conditions.type_ c)) ["Ready"; "Pending"; "Unsatisfiable"]) cs with
  | Some c => lease_status cs = Str.lower (Selectors.Conditions.type_ c)
  | None => lease_status cs = "unknown"
  end.
Proof.
  induction cs as [|c cs IH]; [done |]. cbn [List.find lease_status existsb].
  destruct (String.eqb (Selectors.Conditions.status_ c) "True"); rewrite ?andb_false_r; [| exact IH]. rewrite !andb_true_r. cbn [andb].
  destruct (String.eqb_spec (Selectors.Conditions.type_ c) "Ready") as [E|]; [cbn; by rewrite E |].
  destruct (String.eqb_spec (Selectors.Conditions.type_ c) "Pending") as [E|]; [cbn; by rewrite E |].
  destruct (String.eqb_spec (Selectors.Conditions.type_ c) "Unsatisfiable") as [E|]; [cbn; by rewrite E | exact IH].
Qed.

(** ** Arguments *)

Definition given (o : option string) : bool := match o with Some s => truthy s | None => false end.

(** [jmp_create_lease] and [jmp_connect]: the error, before anything is asked of the controller. *)
Definition jmp_create_lease (selector exporter_name : option string) : option string :=
  if negb (given selector) && negb (given exporter_name) then Some "One of selector or exporter_name is required" else None.

Definition jmp_connect (lease_id selector exporter_name : option string) : option string :=
  if negb (given lease_id) && negb (given selector) && negb (given exporter_name)
  then Some "One of lease_id, selector, or exporter_name is required" else None.

(** ** The configuration and its token *)

(** [_load_config]: the environment first, then the current client. *)
Definition load_client_config (from_env current : option ConfigFiles.ClientConfig) : string + ConfigFiles.ClientConfig :=
  match from_env with
  | Some c => inr c
  | None => match current with
            | Some c => inr c
            | None => inl "No jumpstarter client config found. Run 'jmp config client use <name>' or set JUMPSTARTER_* environment variables."
            end
  end.

Definition TOKEN_REFRESH_THRESHOLD : Z := 30000.

Section Token.

Context (CLIENT_CONFIGS_PATH : string) (yaml_dump : ConfigFiles.ClientPayload -> string).
Context (jwt_issuer : string -> option (option string)) (jwt_expiry : string -> option (option Z)).

Abbreviation Store := (list (string * ConfigFiles.File)).

(** [_ensure_fresh_token]: the configuration that is used, and the files; [None] is the
    [ValueError] of a token that is none. *)
Definition ensure_fresh_token (e : Tokens.Env) (c : ConfigFiles.ClientConfig) (files : Store) : option (ConfigFiles.ClientConfig * Store) :=
  let b := ConfigFiles.body c in
  match ConfigFiles.token b with
  | None => Some (c, files)
  | Some t =>
      if negb (truthy t) then Some (c, files)
      else match Tokens.get_token_remaining jwt_expiry (Tokens.now e) t with
           | None => None
           | Some remaining =>
               if (match remaining with Some r => Z.ltb TOKEN_REFRESH_THRESHOLD r | None => false end) then Some (c, files)
               else if negb (given (ConfigFiles.refresh_token b)) then Some (c, files)
               else match jwt_issuer t with
                    | Some (Some _) =>
                        let r := default "" (ConfigFiles.refresh_token b) in
                        match Tokens.grant e r with
                        | Some (Tokens.mkGrant (Some t') r') =>
                            let c' := Tokens.with_credentials (Some t') (match r' with Some x => Some x | None => Some r end) c in
                            let target := ConfigFiles.get_path CLIENT_CONFIGS_PATH (ConfigFiles.alias c') in
                            let files' := fst (ConfigFiles.save CLIENT_CONFIGS_PATH yaml_dump (Tokens.save_fails e) (Tokens.temp_path e)
                                                 (Tokens.half_written e) c' None files) in
                            Some (ConfigFiles.mkClient (ConfigFiles.alias c') (Some target) (ConfigFiles.body c'), files')
                        | _ => Some (c, files)
                        end
                    | _ => Some (c, files)
                    end
           end
  end.

(** A token that is valid for more than the threshold is used as it is. *)
Theorem fresh_token_kept e c files t r :
  ConfigFiles.token (ConfigFiles.body c) = Some t -> Tokens.get_token_remaining jwt_expiry (Tokens.now e) t = Some (Some r) ->
  (TOKEN_REFRESH_THRESHOLD < r)%Z -> ensure_fresh_token e c files = Some (c, files).
Proof.
  intros H1 H2 H3. unfold ensure_fresh_token. cbv zeta. rewrite H1, H2. destruct (truthy t); [| done]. cbn.
  by rewrite (proj2 (Z.ltb_lt _ _)).
Qed.

(** Otherwise the new token is the one that is used, and no refresh token is lost from the
    configuration. *)
Theorem refreshed_token_used e c files c' files' :
  ensure_fresh_token e c files = Some (c', files') ->
  ConfigFiles.alias c' = ConfigFiles.alias c /\
  (c' = c /\ files' = files \/
   exists t r g, ConfigFiles.refresh_token (ConfigFiles.body c) = Some r /\ Tokens.grant e r = Some g /\
     Tokens.access_token g = Some t /\ ConfigFiles.token (ConfigFiles.body c') = Some t /\
     is_some (ConfigFiles.refresh_token (ConfigFiles.body c')) = true).
Proof.
  unfold ensure_fresh_token. cbv zeta. destruct (ConfigFiles.token (ConfigFiles.body c)) as [t|]; [| by intros [= <- <-]; auto].
  destruct (truthy t); cbn [negb]; [| by intros [= <- <-]; auto].
  destruct (Tokens.get_token_remaining _ _ _) as [remaining|]; [| done].
  destruct (match remaining with Some r => _ | None => _ end); [by intros [= <- <-]; auto |].
  destruct (given _) eqn:Eg; cbn [negb]; [| by intros [= <- <-]; auto].
  destruct (jwt_issuer t) as [[issuer|]|]; [| by intros [= <- <-]; auto ..].
  destruct (ConfigFiles.refresh_token (ConfigFiles.body c)) as [r|] eqn:Er; [| done]. change (default "" (Some r)) with r.
  destruct (Tokens.grant e r) as [[[t'|] r']|] eqn:Egr; [| by intros ?; simplify_eq; auto ..].
  intros ?. simplify_eq. split; [done |]. right. exists t', r. eexists. split_and!; [done.. |]. by destruct r'.
Qed.

(** A refresh that cannot be saved: the configuration is changed all the same, and the files
    keep the refresh token that was just used. *)
Theorem unsaved_refresh e c files t r g t' :
  ConfigFiles.token (ConfigFiles.body c) = Some t -> truthy t = true ->
  Tokens.get_token_remaining jwt_expiry (Tokens.now e) t = Some (Some 0%Z) ->
  ConfigFiles.refresh_token (ConfigFiles.body c) = Some r -> truthy r = true -> jwt_issuer t = Some (Some g) ->
  Tokens.grant e r = Some (Tokens.mkGrant (Some t') (Some "new")) -> Tokens.save_fails e ConfigFiles.Mkstemp = true ->
  exists c', ensure_fresh_token e c files = Some (c', files) /\ ConfigFiles.refresh_token (ConfigFiles.body c') = Some "new".
Proof.
  intros H1 H2 H3 H4 H5 H6 H7 H8. unfold ensure_fresh_token. cbv zeta. rewrite H1, H2, H3, H4. cbn [negb given]. rewrite H5.
  cbn. rewrite H6, H7. unfold ConfigFiles.save, ConfigFiles.save_text. rewrite H8.
  destruct (Tokens.save_fails e ConfigFiles.Mkdir); eexists; by split.
Qed.

(** A token that does not expire is refreshed on every call. *)
Theorem endless_token_refreshed e c files t r g t' :
  ConfigFiles.token (ConfigFiles.body c) = Some t -> truthy t = true ->
  Tokens.get_token_remaining jwt_expiry (Tokens.now e) t = Some None ->
  ConfigFiles.refresh_token (ConfigFiles.body c) = Some r -> truthy r = true -> jwt_issuer t = Some (Some g) ->
  Tokens.grant e r = Some (Tokens.mkGrant (Some t') None) ->
  exists c' files', ensure_fresh_token e c files = Some (c', files') /\ ConfigFiles.token (ConfigFiles.body c') = Some t'.
Proof.
  intros H1 H2 H3 H4 H5 H6 H7. unfold ensure_fresh_token. cbv zeta. rewrite H1, H2, H3, H4. cbn [negb given]. rewrite H5.
  cbn. rewrite H6, H7. eauto.
Qed.

End Token.

(** ** The end of the server *)

(** [_is_closed_resource_error], on the exceptions of a group. *)
Fixpoint closed_only (e : exc) : bool :=
  match e with
  | Leaf _ _ _ _ => isinstance e CClosedResourceError
  | Group _ es => forallb closed_only es
  end.

(** What [run_server] raises for the exception its session ends with. *)
Definition run_server_end (e : exc) : option exc :=
  if isinstance e CCancelled then None
  else if closed_only e then None
  else Some e.

(** The server ends quietly exactly when it was cancelled or every exception of its session
    is that of a closed stream. *)
Theorem server_end_exact e :
  run_server_end e = None <-> isinstance e CCancelled = true \/ Forall (fun x => isinstance x CClosedResourceError = true) (leaves e).
Proof.
  assert (forall e, closed_only e = true <-> Forall (fun x => isinstance x CClosedResourceError = true) (leaves e)) as H.
  { clear e. fix IH 1. intros [classes s c d|msg es]; cbn [closed_only leaves].
    - rewrite Forall_singleton. done.
    - induction es as [|x es IHes]; cbn [forallb]; [split; [by constructor | done] |].
      rewrite andb_true_iff, Forall_app. by rewrite <- IHes, <- IH. }
  unfold run_server_end. destruct (isinstance e CCancelled); [intuition |]. rewrite <- H. destruct (closed_only e); intuition congruence.
Qed.

(** ** Witnesses *)

Lemma listing_matches_inspection_witness :
  let on := mkMember "on" false true (Some [("self", None, None)]) None in
  let power := ClientNode "p" [] StubDriverClient None [] [] in
  let root := ClientNode "r" [] StubDriverClient None [] [("power", power)] in
  exists e, In e (list_drivers (fun _ => Some [on]) (fun _ => "Client") [] root) /\ de_driver_path e = ["power"] /\ de_methods e = ["on"].
Proof.
  intros on power root.
  assert (distinct_names root) as Hd by (repeat split; apply (bool_decide_unpack _); vm_compute; exact I).
  destruct (proj2 (listing_matches_inspection (fun _ => Some [on]) (fun _ => "Client") root ["power"] Hd) _ _ eq_refl)
    as (e & H1 & H2 & _ & H3).
  by exists e.
Defined.
