(* ===== verification/CliText.v ===== *)
(** * Options and descriptions of the command line

    [jumpstarter_cli_common/opt.py]: the prefixes and handlers of the log, labels, and options
    that are lists; [jumpstarter_cli/common.py]: selectors, durations and times;
    [jumpstarter_cli/describe.py]: the text of [jmp describe]. Reading a duration other than a
    number and a time, and showing a time, are parameters. *)

From stdpp Require Import base list strings sets pretty sorting.
From Stdlib Require Import ZArith Lia Ascii.
From S2P Require Import Prelude PyText Enums Connect.
From S2P Require Selectors GrpcClient ConfigFiles Tokens.

Local Open Scope string_scope.
Local Open Scope list_scope.
Local Open Scope bool_scope.

(** ** The log *)

(** [SourcePrefixFormatter.format], with the name of the record before. *)
Definition format_record (last_name : option string) (record : string * string) : option string * string :=
  let '(name, msg) := record in
  if bool_decide (last_name = Some name) then (last_name, msg)
  else (Some name, ("[" ++ name ++ "] " ++ msg)%string).

Fixpoint format_records (last_name : option string) (records : list (string * string)) : list string :=
  match records with
  | [] => []
  | r :: rs => let '(last_name, line) := format_record last_name r in line :: format_records last_name rs
  end.

Inductive stream := Stdout | Stderr | OtherStream (n : nat).

#[export] Instance stream_eq_dec : EqDecision stream.
Proof. solve_decision. Defined.

(** A handler: what it writes to, directly or through a console, and whether it is the one of
    the command line. *)
Record Handler := mkHandler { h_stream : option stream; h_console : option (option stream); h_cli : bool }.

Definition handler_stream (h : Handler) : option stream :=
  match h_stream h with Some s => Some s | None => match h_console h with Some f => f | None => None end end.

Definition detach_stdout_handlers (hs : list Handler) : list Handler :=
  List.filter (fun h => negb (bool_decide (handler_stream h = Some Stdout))) hs.

Definition cli_handler : Handler := mkHandler None (Some (Some Stderr)) true.

Definition ensure_cli_handler (hs : list Handler) : list Handler := if existsb h_cli hs then hs else hs ++ [cli_handler].

(** [_opt_log_level_callback] outside of [jmp run]: the handlers and the level. *)
Definition set_log_level (value : option string) (hs : list Handler) : list Handler * string :=
  (ensure_cli_handler (detach_stdout_handlers hs), match value with Some v => if truthy v then v else "INFO" | None => "INFO" end).

(** ** Options *)

(** [_opt_labels_callback]: the labels, or the one that is none. *)
Fixpoint opt_labels (values : list string) (labels : list (string * string)) : string + list (string * string) :=
  match values with
  | [] => inr labels
  | label :: values' =>
      match Str.split1 "="%char label with
      | None => inl ("Invalid label '" ++ label ++ "', should be formatted as 'key=value'")%string
      | Some (k, v) => opt_labels values' (dict_set k v labels)
      end
  end.

Definition opt_selector (values : list string) : option string :=
  match values with [] => None | _ => Some (Str.join "," values) end.

(** [confirm_insecure_tls]: whether the command goes on. *)
Definition confirm_insecure_tls (insecure_tls nointeractive answer : bool) : bool := nointeractive || negb insecure_tls || answer.

Definition name_valid (name : option string) : bool := match name with Some n => truthy n && truthy (Str.strip n) | None => false end.

(** [_normalize_tokens], [_deduplicate_tokens] and [parse_comma_separated]; an error has the
    values that are not allowed. *)
Definition normalize_tokens (items : list string) (normalize_case : bool) : list string :=
  List.filter truthy
    (map (fun t => let t := Str.strip t in if normalize_case then Str.lower t else t)
       (concat (map (Str.split_char ","%char) items))).

Fixpoint add_new (seen tokens : list string) : list string :=
  match tokens with
  | [] => []
  | t :: tokens' => if existsb (String.eqb t) seen then add_new seen tokens' else t :: add_new (t :: seen) tokens'
  end.

Definition deduplicate_tokens (tokens : list string) : list string := add_new [] tokens.

Definition invalid_tokens (allowed tokens : list string) : list string := List.filter (fun t => negb (existsb (String.eqb t) allowed)) tokens.

Definition parse_comma_separated (items : list string) (allowed : option (list string)) (normalize_case : bool)
    : list string + list string :=
  let unique := deduplicate_tokens (normalize_tokens items normalize_case) in
  match allowed with
  | None => inr unique
  | Some a => match invalid_tokens a unique with [] => inr unique | bad => inl bad end
  end.

(** ** Durations and times *)

(** The range of [timedelta], in whole seconds. *)
Definition MIN_SECONDS : Z := -86399999913600.
Definition MAX_SECONDS : Z := 86399999999999.

Inductive duration_error := TooLong (value : string) | InvalidDuration (value : string) | TooShort (value : string) (minimum : Z).

(** What [pytimeparse2] and pydantic make of a text, in milliseconds. *)
Inductive parsed := Parsed (ms : Z) | Overflows | NotParsed.

Section Durations.

Context (parse_duration : string -> parsed) (pydantic : string -> option Z).

(** [_parse_string]; durations are in milliseconds. *)
Definition parse_string (value : string) : duration_error + Z :=
  match Str.py_int value with
  | Some n => if (Z.leb MIN_SECONDS n && Z.leb n MAX_SECONDS) then inr (1000 * n)%Z else inl (TooLong value)
  | None =>
      match parse_duration value with
      | Parsed ms => inr ms
      | Overflows => inl (TooLong value)
      | NotParsed => match pydantic value with Some ms => inr ms | None => inl (InvalidDuration value) end
      end
  end.

(** [DurationParamType.convert] of a text. *)
Definition convert_duration (minimum : option Z) (value : string) : duration_error + Z :=
  match parse_string value with
  | inl e => inl e
  | inr td =>
      match minimum with
      | Some m => if Z.ltb td m then inl (TooShort value (m / 1000)) else inr td
      | None => inr td
      end
  end.

End Durations.

(** A time, and its offset if it has one. *)
Definition datetime := (Z * option Z)%type.

(** [DateTimeParamType.convert]: a time without a zone is local. *)
Definition convert_datetime (pydantic : string -> option datetime) (local_offset : Z -> Z) (value : string) : option datetime :=
  match pydantic value with
  | None => None
  | Some (t, Some z) => Some (t, Some z)
  | Some (t, None) => Some (t, Some (local_offset t))
  end.

(** ** Descriptions *)

Inductive field := FNone | FText (s : string) | FBool (b : bool) | FTime (t : Z) | FDuration (d : Z).

Definition opt_field (o : option string) : field := match o with Some s => FText s | None => FNone end.
Definition time_field (o : option Z) : field := match o with Some t => FTime t | None => FNone end.

Fixpoint blanks (n : nat) : string := match n with O => "" | S n' => String " "%char (blanks n') end.

Definition ljust (width : nat) (s : string) : string := (s ++ blanks (width - String.length s))%string.

Section Describe.

(** [strftime], [str] of a duration, and the texts of a selector. *)
Context (strftime show_duration : Z -> string) (show_text : list Z -> string).

Definition format_value (v : field) : string :=
  match v with
  | FNone => "<none>"
  | FText s => if String.eqb s "" then "<none>" else s
  | FBool b => if b then "yes" else "no"
  | FTime t => Str.strip (strftime t)
  | FDuration d => show_duration d
  end.

Definition longest (fields : list (string * field)) : nat := fold_right (fun f w => Nat.max (String.length (fst f)) w) 0 fields.

Definition print_fields (fields : list (string * field)) (indent : nat) : list string :=
  let width := S (longest fields) in
  map (fun f => (blanks indent ++ ljust width (fst f ++ ":") ++ "  " ++ format_value (snd f))%string) fields.

Definition print_mapping (label : string) (mapping : list (string * string)) (indent : nat) : list string :=
  match mapping with
  | [] => [(blanks indent ++ label ++ ":  <none>")%string]
  | _ => (blanks indent ++ label ++ ":")%string ::
         map (fun kv => (blanks indent ++ "  " ++ fst kv ++ "=" ++ snd kv)%string) (sorted_items mapping)
  end.

(** [_print_conditions]; [transition] is the last transition of a condition. *)
Definition HEADERS : list string := ["Type"; "Status"; "Reason"; "Message"; "Last Transition Time"].

Definition condition_row (transition : Selectors.Conditions.Condition -> option Z) (c : Selectors.Conditions.Condition) : list string :=
  map format_value [FText (Selectors.Conditions.type_ c); FText (Selectors.Conditions.status_ c); FText (Selectors.Conditions.reason_ c);
                    FText (Selectors.Conditions.message_ c); time_field (transition c)].

Fixpoint dashes (n : nat) : string := match n with O => "" | S n' => String "-"%char (dashes n') end.

(** The width of each column. *)
Fixpoint widths (rows : list (list string)) (header : list string) : list nat :=
  match header with
  | [] => []
  | h :: header' =>
      fold_right Nat.max (String.length h) (map (fun r => match r with c :: _ => String.length c | [] => 0 end) rows) ::
      widths (map (fun r => match r with _ :: r' => r' | [] => [] end) rows) header'
  end.

Fixpoint zip_ljust (cells : list string) (ws : list nat) : list string :=
  match cells, ws with c :: cells', w :: ws' => ljust w c :: zip_ljust cells' ws' | _, _ => [] end.

Definition print_conditions (transition : Selectors.Conditions.Condition -> option Z) (conditions : list Selectors.Conditions.Condition)
    : list string :=
  match conditions with
  | [] => ["Conditions:  <none>"]
  | _ =>
      let rows := map (condition_row transition) conditions in
      let ws := widths rows HEADERS in
      "Conditions:" ::
      map (fun cells => Str.rstrip ("  " ++ Str.join "  " (zip_ljust cells ws))%string)
        (HEADERS :: map (fun h => dashes (String.length h)) HEADERS :: rows)
  end.

(** [_holding_lease] *)
Definition holding_lease (leases : list GrpcClient.Lease) (exporter : string) : option GrpcClient.Lease :=
  List.find (fun l => String.eqb (GrpcClient.exporter l) exporter) leases.

Definition describe_exporter (leases : list GrpcClient.Lease) (e : GrpcClient.Exporter) : list string :=
  print_fields [("Name", FText (GrpcClient.e_name e)); ("Namespace", FText (GrpcClient.e_namespace e))] 0 ++
  print_mapping "Labels" (GrpcClient.e_labels e) 0 ++
  (match GrpcClient.e_deprecated_labels e with [] => [] | l => print_mapping "Deprecated Labels" l 0 end) ++
  print_fields [("Online", FBool (GrpcClient.e_online e));
                ("Status", FText (match GrpcClient.e_status e with
                                  | Some s => if Z.eqb (ExporterStatusOps.to_proto s) 0 then "UNKNOWN" else ExporterStatusOps.str s
                                  | None => "UNKNOWN"
                                  end));
                ("Enabled", FBool (GrpcClient.e_enabled e))] 0 ++
  match holding_lease leases (GrpcClient.e_name e) with
  | Some l =>
      "Lease:" ::
      print_fields [("Name", FText (GrpcClient.name l)); ("Client", FText (GrpcClient.client l)); ("Status", FText (GrpcClient.get_status l));
                    ("Begin Time", time_field (match GrpcClient.effective_begin_time l with
                                               | Some t => Some t | None => GrpcClient.begin_time l end));
                    ("End Time", time_field (GrpcClient.effective_end_time l)); ("Duration", FDuration (GrpcClient.duration l))] 2
  | None => ["Lease:  <none>"]
  end.

Definition describe_lease (transition : Selectors.Conditions.Condition -> option Z) (l : GrpcClient.Lease) : list string :=
  print_fields [("Name", FText (GrpcClient.name l)); ("Namespace", FText (GrpcClient.namespace l));
                ("Selector", FText (show_text (GrpcClient.selector l))); ("Exporter", FText (GrpcClient.exporter l));
                ("Client", FText (GrpcClient.client l)); ("Status", FText (GrpcClient.get_status l));
                ("Duration", FDuration (GrpcClient.duration l)); ("Effective Begin Time", time_field (GrpcClient.effective_begin_time l));
                ("Effective End Time", time_field (GrpcClient.effective_end_time l))] 0 ++
  print_mapping "Tags" (GrpcClient.tags l) 0 ++ print_mapping "Context" (GrpcClient.context l) 0 ++
  print_conditions transition (GrpcClient.conditions l).

(** [_token_details]: [expiry] reads the claims of a token, in seconds. *)
Definition token_details (expiry : string -> option (option Z)) (now : Z) (token : option string) : option Z * string :=
  match token with
  | None => (None, "no token")
  | Some t =>
      if negb (truthy t) then (None, "no token")
      else match expiry t with
           | None => (None, "malformed")
           | Some None => (None, "no expiry claim")
           | Some (Some exp) =>
               let remaining := (1000 * exp - now)%Z in
               (Some exp, if Z.ltb remaining 0 then ("expired (" ++ Tokens.format_duration remaining ++ " ago)")%string
                          else ("valid (" ++ Tokens.format_duration remaining ++ " remaining)")%string)
           end
  end.

(** [describe_client], for the configuration and the alias of the current one. *)
Definition describe_client (expiry : string -> option (option Z)) (now : Z) (current : option string) (c : ConfigFiles.ClientConfig)
    : list string :=
  let b := ConfigFiles.body c in
  let '(token_expiry, token_status) := token_details expiry now (ConfigFiles.token b) in
  print_fields [("Alias", FText (ConfigFiles.alias c)); ("Path", opt_field (ConfigFiles.path c));
                ("Current", FBool (bool_decide (current = Some (ConfigFiles.alias c)))); ("Name", FText (ConfigFiles.name b));
                ("Namespace", opt_field (ConfigFiles.namespace b)); ("Endpoint", opt_field (ConfigFiles.endpoint b))] 0 ++
  "TLS:" :: print_fields [("CA", if truthy (ConfigFiles.tls_ca b) then FText "configured" else FNone);
                          ("Insecure", FBool (ConfigFiles.tls_insecure b))] 2 ++
  "Drivers:" :: print_fields [("Allow", match ConfigFiles.allow b with [] => FNone | l => FText (Str.join ", " l) end);
                              ("Unsafe", FBool (ConfigFiles.unsafe b))] 2 ++
  "Token:" :: print_fields [("Expiry", time_field token_expiry); ("Status", FText token_status)] 2 ++
  print_fields [("Refresh Token Stored", FBool (match ConfigFiles.refresh_token b with Some r => truthy r | None => false end))] 0.

(** ** Columns *)

Lemma blanks_length n : String.length (blanks n) = n.
Proof. induction n as [|n IH]; [done |]. cbn. by rewrite IH. Qed.

Lemma ljust_length w s : (String.length s <= w)%nat -> String.length (ljust w s) = w.
Proof. intros H. unfold ljust. rewrite Str.sapp_length, blanks_length. lia. Qed.

Lemma longest_max fields f : In f fields -> (String.length (fst f) <= longest fields)%nat.
Proof. unfold longest. induction fields as [|g fields IH]; [done |]. cbn. intros [->|H]; [lia | specialize (IH H); lia]. Qed.

(** The values of a block of fields start in one column. *)
Theorem fields_aligned fields indent :
  Forall2 (fun f line => exists head, line = (head ++ format_value (snd f))%string /\
                           String.length head = (indent + longest fields + 3)%nat) fields (print_fields fields indent).
Proof.
  unfold print_fields. set (w := longest fields).
  assert (Forall (fun f => String.length (fst f) <= w)%nat fields) as H by (apply List.Forall_forall; intros f Hf; by apply longest_max).
  clearbody w. induction H as [|f fields Hf _ IH]; constructor; [| exact IH].
  exists (blanks indent ++ ljust (S w) (fst f ++ ":") ++ "  ")%string. split; [by rewrite <- !Str.sapp_assoc |].
  assert (String.length (fst f ++ ":") <= S w)%nat by (rewrite Str.sapp_length; change (String.length ":") with 1%nat; lia).
  rewrite !Str.sapp_length, blanks_length, ljust_length by done. change (String.length "  ") with 2%nat. lia.
Qed.

(** The lease that is shown is one of the active ones and holds the exporter; none is shown
    only if none does. *)
Theorem holding_lease_exact leases exporter :
  match holding_lease leases exporter with
  | Some l => In l leases /\ GrpcClient.exporter l = exporter
  | None => forall l, In l leases -> GrpcClient.exporter l <> exporter
  end.
Proof.
  unfold holding_lease. destruct (List.find _ _) as [l|] eqn:E.
  - apply find_some in E as [E1 E2]. by apply String.eqb_eq in E2.
  - intros l Hl Hx. pose proof (find_none _ _ E l Hl) as Hf. cbn in Hf. by rewrite Hx, String.eqb_refl in Hf.
Qed.

End Describe.

(** ** The log *)

(** A line has the name of its logger exactly when the line before came from another one. *)
Theorem prefix_on_change last records :
  format_records last records =
  zip_with (fun prev r => if bool_decide (prev = Some (fst r)) then snd r else ("[" ++ fst r ++ "] " ++ snd r)%string)
    (last :: map (fun r => Some (fst r)) records) records.
Proof.
  induction records as [|[n msg] records IH] in last |- *; [done |]. cbn [format_records format_record map zip_with fst snd].
  case_bool_decide as E; [rewrite E |]; cbn; f_equal; apply IH.
Qed.

(** After the log is set up nothing is logged to standard output, where the result of a command
    goes, exactly one handler of the command line is there if there was at most one, the others
    that do not write there are kept, and setting it up again changes nothing. *)
Theorem log_never_stdout value hs :
  let hs' := fst (set_log_level value hs) in
  Forall (fun h => handler_stream h <> Some Stdout) hs' /\ existsb h_cli hs' = true /\
  (forall h, In h hs -> handler_stream h <> Some Stdout -> In h hs') /\ fst (set_log_level value hs') = hs'.
Proof.
  cbv zeta. unfold set_log_level. cbn [fst].
  assert (forall h, In h (detach_stdout_handlers hs) <-> In h hs /\ handler_stream h <> Some Stdout) as Hd.
  { intros h. unfold detach_stdout_handlers. by rewrite filter_In, negb_true_iff, bool_decide_eq_false. }
  set (ds := detach_stdout_handlers hs) in *.
  assert (Forall (fun h => handler_stream h <> Some Stdout) (ensure_cli_handler ds)) as H1.
  { unfold ensure_cli_handler. destruct (existsb h_cli ds); [apply List.Forall_forall; intros h Hh; by apply Hd |].
    apply Forall_app. split; [apply List.Forall_forall; intros h Hh; by apply Hd | by repeat constructor]. }
  assert (existsb h_cli (ensure_cli_handler ds) = true) as H2.
  { unfold ensure_cli_handler. destruct (existsb h_cli ds) eqn:E; [done |]. by rewrite existsb_app, orb_true_r. }
  split_and!; [done | done | |].
  - intros h Hh Hs. unfold ensure_cli_handler. destruct (existsb h_cli ds); [by apply Hd |]. apply in_app_iff. left. by apply Hd.
  - assert (detach_stdout_handlers (ensure_cli_handler ds) = ensure_cli_handler ds) as ->.
    { unfold detach_stdout_handlers. clear H2. induction H1 as [|h l Hh _ IH]; [done |]. cbn.
      rewrite bool_decide_eq_false_2 by done. cbn. by rewrite IH. }
    unfold ensure_cli_handler at 1. by rewrite H2.
Qed.

(** ** Lists of values *)

Lemma add_new_spec seen tokens t : In t (add_new seen tokens) <-> In t tokens /\ ~ In t seen.
Proof.
  induction tokens as [|u tokens IH] in seen |- *; cbn [add_new In]; [intuition |].
  assert (existsb (String.eqb u) seen = true <-> In u seen) as Hu.
  { rewrite existsb_exists. split; [intros (x & Hx & ->%String.eqb_eq); done | intros Hx; exists u; by rewrite String.eqb_refl]. }
  destruct (existsb (String.eqb u) seen) eqn:E; cbn [In]; rewrite IH; cbn [In].
  - split; [intuition |]. intros [[->|Ht] Hs]; [destruct Hs; by apply Hu | done].
  - assert (~ In u seen) as Hn by (intros Hx; apply Hu in Hx; congruence).
    split; [intros [->|[? ?]]; intuition |]. intros [[->|Ht] Hs]; [by left |]. destruct (decide (u = t)); [by left | right; intuition].
Qed.

Lemma add_new_NoDup seen tokens : NoDup (add_new seen tokens).
Proof.
  induction tokens as [|u tokens IH] in seen |- *; cbn; [apply NoDup_nil_2 |]. destruct (existsb _ _); [apply IH |].
  apply NoDup_cons. split; [| apply IH]. intros [_ H]%list_elem_of_In%add_new_spec. apply H. by left.
Qed.

Lemma split_char_sep c a t : Str.split_char c (a ++ String c t)%string = Str.split_char c a ++ Str.split_char c t.
Proof.
  induction a as [|b a IH]; [change ("" ++ String c t)%string with (String c t); cbn [Str.split_char]; by rewrite Ascii.eqb_refl |]. rewrite Str.sapp_cons. cbn [Str.split_char].
  destruct (Ascii.eqb b c); [by rewrite IH |]. rewrite IH. destruct (Str.split_char c a) eqn:E; [| done].
  by destruct a as [|d a]; [| cbn in E; destruct (Ascii.eqb d c), (Str.split_char c a)].
Qed.

Lemma split_join_items items : items <> [] ->
  Str.split_char ","%char (Str.join "," items) = concat (map (Str.split_char ","%char) items).
Proof.
  intros Hn. destruct items as [|a items]; [done |]. clear Hn. revert a.
  induction items as [|b items IH]; intros a; [cbn; by rewrite app_nil_r |].
  change (Str.join "," (a :: b :: items)) with (a ++ String ","%char (Str.join "," (b :: items)))%string.
  rewrite split_char_sep, IH. done.
Qed.

(** An option that is a list: its values are distinct, not empty and allowed, and it does not
    matter whether they are given with commas or one by one. *)
Theorem comma_separated_exact items allowed normalize_case :
  match parse_comma_separated items allowed normalize_case with
  | inr l => NoDup l /\ (forall t, In t l <-> In t (normalize_tokens items normalize_case)) /\
             (forall a, allowed = Some a -> forall t, In t l -> In t a)
  | inl bad => bad <> [] /\ (forall t, In t bad -> In t (normalize_tokens items normalize_case)) /\
               (exists a, allowed = Some a /\ forall t, In t bad -> ~ In t a)
  end /\
  (items <> [] ->
   parse_comma_separated [Str.join "," items] allowed normalize_case = parse_comma_separated items allowed normalize_case).
Proof.
  assert (forall t a, existsb (String.eqb t) a = true <-> In t a) as He.
  { intros t a. rewrite existsb_exists. split; [intros (x & Hx & ->%String.eqb_eq); done | intros Hx; exists t; by rewrite String.eqb_refl]. }
  split.
  - unfold parse_comma_separated, deduplicate_tokens. cbv zeta. set (ns := normalize_tokens items normalize_case).
    assert (forall t, In t (add_new [] ns) <-> In t ns) as Hs by (intros t; rewrite add_new_spec; cbn; intuition).
    destruct allowed as [a|]; [| split_and!; [apply add_new_NoDup | done | done]].
    assert (forall t, In t (invalid_tokens a (add_new [] ns)) <-> In t ns /\ ~ In t a) as Hi.
    { intros t. unfold invalid_tokens. rewrite filter_In, negb_true_iff, <- not_true_iff_false, He, Hs. done. }
    destruct (invalid_tokens a (add_new [] ns)) as [|b bs].
    + split_and!; [apply add_new_NoDup | done |]. intros a' [= <-] t Ht. apply He.
      destruct (existsb (String.eqb t) a) eqn:E; [done |]. destruct (proj2 (Hi t)). split; [by apply Hs |]. rewrite <- He. congruence.
    + split_and!; [done | intros t Ht; by apply Hi |]. exists a. split; [done |]. intros t Ht. by apply Hi.
  - intros Hn. unfold parse_comma_separated, normalize_tokens. cbn [map concat]. rewrite app_nil_r. by rewrite split_join_items.
Qed.

(** ** Durations *)

(** A duration is never below the minimum of its option, and a number is a number of seconds. *)
Theorem duration_exact parse_duration pydantic minimum value :
  match convert_duration parse_duration pydantic minimum value with
  | inr td => (forall m, minimum = Some m -> (m <= td)%Z) /\
              (forall n, Str.py_int value = Some n -> td = (1000 * n)%Z /\ (MIN_SECONDS <= n <= MAX_SECONDS)%Z)
  | inl e => forall n, Str.py_int value = Some n -> (n < MIN_SECONDS \/ MAX_SECONDS < n)%Z \/ exists m, minimum = Some m /\ (1000 * n < m)%Z
  end.
Proof.
  unfold convert_duration, parse_string. destruct (Str.py_int value) as [n|].
  - destruct (Z.leb_spec MIN_SECONDS n) as [H1|H1], (Z.leb_spec n MAX_SECONDS) as [H2|H2]; cbn [andb];
      try (intros n' [= <-]; left; lia).
    destruct minimum as [m|]; [destruct (Z.ltb_spec (1000 * n) m) as [H3|H3] |].
    + intros n' [= <-]. right. eauto.
    + split; [by intros m' [= <-] | by intros n' [= <-]].
    + split; [done | by intros n' [= <-]].
  - destruct (match parse_duration value with Parsed ms => _ | Overflows => _ | NotParsed => _ end) as [e|td]; [done |].
    destruct minimum as [m|]; [destruct (Z.ltb_spec td m) as [H3|H3]; [done |] |]; (split; [| done]); [by intros m' [= <-] | done].
Qed.

(** ** Labels *)

(** Labels are read in order, a later one of a name replacing an earlier; the first text without
    an equals sign is the error. *)
Theorem labels_exact values labels :
  match opt_labels values labels with
  | inr l => exists kvs, map (fun kv => (fst kv ++ "=" ++ snd kv)%string) kvs = values /\ l = dict_update labels kvs
  | inl e => exists v, In v values /\ Str.has_char "="%char v = false
  end.
Proof.
  induction values as [|v values IH] in labels |- *; cbn [opt_labels]; [by exists [] |].
  destruct (Str.split1 "="%char v) as [[k x]|] eqn:E.
  - specialize (IH (dict_set k x labels)). destruct (opt_labels values (dict_set k x labels)) as [e|l].
    + destruct IH as (u & Hu & Hc). exists u. split; [by right | done].
    + destruct IH as (kvs & <- & ->). exists ((k, x) :: kvs). split; [| done]. cbn [map fst snd]. f_equal.
      by destruct (Str.split1_some _ _ _ _ E) as [-> _].
  - exists v. split; [by left | by apply Str.split1_none].
Qed.
